(* ===== verification/_CoqProject ===== *)
-Q . S2P
Prelude.v
Arith.v
NonceWindow.v
Bytes.v
Messages.v
Canonical.v
MutualCredit.v
McTheory.v
McPair.v
TokenChannel.v
TcTheory.v
TcPair.v
Channel.v
Friend.v
FunderState.v
Report.v
Handler.v
Canceler.v
HandleFriend.v
Sender.v
HandleControl.v
FunderHandler.v
Payments.v
Scenario.v
Reset.v
Requests.v
Batch.v
Mediator.v
IndexMessages.v
MultiRoute.v
SeqMap.v
Bfs.v
CapacityGraph.v
GraphService.v
Verifier.v
IndexServer.v
IndexServerTheory.v
IndexClient.v
IndexClientTheory.v
IndexConvert.v
AppServer.v
AppServerTheory.v
IndexScenario.v
SecureChannel.v
SecureChannelTheory.v
Effects.v
Database.v
AppConn.v
CompactMessages.v
CompactConvert.v
CompactNode.v
CompactTheory.v
CompactProps.v
CompactStore.v
ListenPool.v
ConnectPool.v
Overwrite.v
Channeler.v
ChannelerTheory.v
KeepAlive.v
Relay.v
RelayTheory.v
FunderLoop.v
Node.v
Store.v
CompactServer.v
CompactServerTheory.v
FileStore.v
FileStoreTheory.v
CompactServerSamples.v
Timer.v
AppConnect.v
Connection.v
Stctrl.v
StctrlTheory.v
StctrlMain.v
Stmgr.v
StctrlSamples.v
Streams.v
NetServers.v
