(* ===== verification/Prelude.v ===== *)
(** * Verification of the core of Offset

    Offset ([src/components]) is a payment network of mutual credit. A node
    keeps a channel with each of its friends; in a channel every currency has a
    ledger (a balance and the credits frozen by payments in progress). Payments
    travel along routes of friends as requests; the destination answers with
    signed responses, and a collect moves the frozen credits. The funder
    ([funder/src]) is the state machine of a node: it handles one message at a
    time, from the user (control), from the network (liveness) or from a friend,
    and produces mutations of its state, messages to friends, configuration for
    the channeler and reports for the applications.

    ** Files and the code they model

    - [Prelude] (this file): outcomes with errors and panics as values, loops,
      generic lemmas on lists and finite maps, tactics and hints.
    - [Arith]: machine integers as [Z] with their ranges, casts and checked
      operations; the macros of [common/src/safe_arithmetic.rs].
    - [NonceWindow]: [crypto/src/nonce_window.rs].
    - [Bytes]: byte strings and fixed-size identifiers
      ([common/src/define_fixed_bytes.rs]), big-endian numbers, and the classes
      [CryptoOps] and [SignerOps], the interface to the third-party hash and
      signature code ([crypto/src/hash.rs], [identity.rs]); [Toy] is an instance
      used by the executions.
    - [Messages]: [proto/src/funder/messages.rs], routes, rates and fees.
    - [Canonical]: [signature/src] (canonical serialization, signed buffers,
      verification), [funder/src/types.rs], [funder/src/handler/prepare.rs].
    - [MutualCredit]: [funder/src/mutual_credit]: the ledger, queueing of
      outgoing operations and processing of incoming ones; [McTheory] and
      [McPair] hold its theory.
    - [TokenChannel]: [funder/src/token_channel.rs]; [TcTheory], [TcPair] and
      [Channel] hold its theory.
    - [Friend], [FunderState]: [funder/src/friend.rs], [state.rs],
      [ephemeral.rs], [liveness.rs].
    - [Report]: [funder/src/report.rs] and [proto/src/report/messages.rs].
    - [Handler]: the context of the handlers ([handler/types.rs],
      [state_wrap.rs], [utils.rs]) as a state and error monad, and the classes of
      relations preserved by handlers ([BasicInv], extended by [SenderInv],
      [TransactionInv], [BuyerInv] and [ControlInv] where further operations are
      defined).
    - [Canceler], [HandleFriend], [Sender], [HandleControl]: the modules of the
      same names under [funder/src/handler] (with [handle_liveness.rs] and
      [handle_init.rs] in [HandleControl]).
    - [FunderHandler]: [handler/handler.rs] and the loop of [funder.rs].
    - [Payments], [Reset], [Requests], [Batch], [Mediator]: theorems about the
      handlers and the ledgers they use.
    - [Scenario]: executions of networks of nodes.
    - [IndexMessages], [MultiRoute]: the messages of the index protocol
      ([proto/src/index_*/messages.rs]) and the choice of routes and credits for
      a payment ([route/src], [stctrl/src/multi_route_util.rs] and its users).
    - [Bfs], [CapacityGraph], [GraphService]: the graph of the index server
      ([index_server/src/graph]); [Verifier]: its counters against replays and
      stale announcements ([verifier]); [IndexServer]: the loop
      ([server_loop.rs], [backoff.rs]), with theory in [IndexServerTheory].
    - [SeqMap], [IndexClient], [IndexConvert]: [index_client/src] (sequenced
      maps and friends, the client's tasks and loop) and the conversion of
      funder reports ([report/src], [proto/src/report/convert.rs]); theory in
      [IndexClientTheory].
    - [AppServer]: [app_server/src] between applications, funder and index
      client; theory in [AppServerTheory]. [IndexScenario]: executions that
      join funder, index client and index server.
    - [SecureChannel]: [secure_channel/src] with the symmetric encryption,
      Diffie-Hellman and random generators of [crypto/src]; theory in
      [SecureChannelTheory].
    - [Effects]: tasks that change a state, emit actions and may fail, with
      their weakest preconditions. [Database]: the file database and its task
      ([database/src]); [AppConn]: the requests of applications
      ([app/src/app_conn]).
    - [CompactMessages], [CompactConvert], [CompactNode]: the compact node
      ([stcompact/src/compact_node]), a task between its user, a node and a
      database; theory in [CompactTheory] and [CompactProps]; [CompactStore]
      joins it with the database.
    - [ListenPool], [ConnectPool], [Overwrite], [Channeler]: [channeler/src]
      (listeners on relays, attempts to reach a friend, the channel that keeps
      the newest message, the loop) and [common/src/access_control.rs]; theory
      of the loop in [ChannelerTheory].
    - [KeepAlive]: [keepalive/src/keepalive.rs]. [Relay]: the server and the
      clients of [relay/src], with the timeout of [timer/src/utils.rs]; theory
      in [RelayTheory].
    - [FunderLoop]: the loop of [funder/src/funder.rs] with its database and
      channels. [Node]: [node/src]: state, reports, adapters between the parts
      of a node, its start.
    - [Store], [CompactServer], [FileStore]: the server around compact nodes
      ([stcompact/src/server_loop.rs], [messages.rs]), the interface of its
      store ([store/store.rs]) and the store in files ([store/file_store.rs]);
      theory in [CompactServerTheory] and [FileStoreTheory], runs of the server
      on its files in [CompactServerSamples].
    - [Timer]: [timer/src/timer.rs]. [Connection]: the version prefix
      ([version/src]), the identity service and its client ([identity/src]), the
      timeout of transforms and their composition with the secure channel and the
      keepalive ([connection/src]), and the run of two connected sides.
    - [Streams]: the state service, the splitting of a stream and the pool of
      transforms of [common/src]. [NetServers]: the relay and the index server on
      the network ([bin/src/strelay/net_relay.rs], [stindex/net_index.rs]).
    - [AppConnect]: both ends of the connection of an application
      ([bin/src/stnode], [app_client/src], the remote nodes of the compact
      server).
    - [Stctrl], [StctrlMain]: the control application ([stctrl/src]): buying,
      selling, configuration, information, verification of receipts and tokens,
      and its command line; theory in [StctrlTheory]. [Stmgr]: the manager of
      identities and tickets ([bin/src/stmgrlib.rs]). Runs of both in
      [StctrlSamples].

    ** How the code is translated

    Integers are [Z] with the operations the code uses written out
    ([checked_u], [saturate_i], [cast_u]); a checked operation whose failure is
    unwrapped, an assertion and [unreachable!] are panics: [None], [Panic] or
    [HPanic]. Errors are values of [outcome] or of the handler monad, where an
    error keeps the context, as the code goes on with it. Mutable structures are
    records updated functionally; hash maps and sets are [gmap] and [gset], and
    a loop over one of them follows the order of [map_to_list] or [elements]
    (the code leaves the order open). Asynchronous functions are functions: the
    funder awaits only the signer. Addresses are a type parameter [B] with a
    canonical serialization, as in the code.

    ** What the theorems show

    - Ledgers ([McPair]): the invariant of every reachable ledger; one
      operation, and a batch, queued by one side is processed by the other into
      the opposite ledger; queueing never panics; replaying mutations gives the
      computed ledger; the credit limit. [process_collect_can_panic] shows where
      a panic can be provoked.
    - Channels ([Channel]): for any exchange, loss and repetition of move
      tokens, at most one side holds the token, ledgers mirror each other, an
      honest token is never refused but for overflows, a lost one is recovered.
      The step relation [chan_step] has one step per sending and delivery.
    - Resets ([Reset]): accepting the terms of a friend makes the channels
      mirror each other again; [channel]'s invariant holds from there.
    - The funder ([FunderHandler], [Report], [Payments]): the loop replays what
      the handler recorded and stops only when the handler panics, reports follow
      the state for any sequence of messages, payments count their open transactions. These are proved once
      for a relation that satisfies the handler classes, and instantiated.
    - Requests and batches ([Requests], [Batch]): forwarding with fees,
      acceptance at the seller and when it panics, routing of cancels, bounded
      batches in order. [Mediator]: between malicious friends a mediator can always
      pass the answers of a payment on, which its handler routes to the right friend
      when request identifiers are unique, and earns nothing or exactly its fee.
    - Serialization and signatures ([Canonical]): injectivity for operations,
      its failure for lists of currencies, receipts and commits verify.
    - Arithmetic, routes, rates, relays, the nonce window: exactness of the
      operations against their mathematical specification.
    - [Scenario]: a mediated payment from fresh nodes to the receipt, and the
      executions that lead the handlers to panic or to lose a payment.
    - Index ([Bfs] to [IndexConvert]): a route found is a shortest path of the graph
      that carries the credits asked for, with the sum of the announced rates, and one
      is found when there is one and the sum fits; signed and fresh announcements,
      and no others, are applied and passed on; the announced capacity is what the
      ledger takes, within the range of its arithmetic; a node
      that is removed leaves nothing behind; updates are never replayed; a server
      holds what the client announced; the client keeps its invariant and sends
      its whole state when it connects. [IndexScenario] shows how announcements
      miss changes of the funder.
    - Applications ([AppServerTheory]): every application follows the report of
      the funder, also while messages are on their way, requests are tagged and answered to their author only.
    - Secure channel ([SecureChannelTheory]): messages arrive in order and
      unchanged over any number of key exchanges, in any interleaving; a finished
      handshake agrees on identities and keys.
    - Database and compact node: an acknowledged mutation survives any failure;
      whatever the compact node sends is backed by its database or by a request of
      its user, its
      user sees the current state, a crash at any point loses nothing that was
      sent, a restart resumes every payment.
    - Channeler: the funder sees friends come and go exactly as their
      connections do, listeners follow the configuration, requests for a
      connection are answered in any interleaving of ticks, reports and changes of
      the configuration that cancel nothing, and only outdated messages are replaced.
    - Relay and keepalive: connections are joined only by consent of both, a
      waiting connection is joined exactly within its window, a listening client
      admits exactly the friends the channeler chose; two idle sides keep each
      other alive, and a silent one is given up in time.
    - Loop of the funder and node: nothing is sent before it is stored, the loop
      refines the handler's, a node restarts from what its parts stored.
    - Compact server and store: the user knows the status of its nodes, no
      request is forgotten but those of a disabled node; both are proved against
      the interface [StoreLaws], which the store in files is proved to implement
      under failures of any file operation.
    - Services: the timer gives each client its ticks whatever the others do,
      and disconnects those that do not keep up; the version prefix passes
      messages on exactly between equal versions.
    - Connections ([Connection]): making one ends in time and gives the key that
      was asked for; over a made one each user receives what the other sent, in
      order, through all layers. [Streams]: clients follow a state by its
      mutations, consumers get contiguous items, the pool of transforms keeps its
      limit and transforms every item once. [NetServers]: the relay on the
      network joins connections only under keys that signed for them.
    - Applications from afar ([AppConnect]): a trusted application follows the
      funder over the wire.
    - Control application ([StctrlTheory], [StctrlMain]): in every run, whatever
      fails, payments and receipts are on file before the node acts or forgets;
      an invoice is paid exactly; a command that configures sends one request,
      the intended one; exported tokens verify and tickets introduce a node.
      [Stmgr]: no file is ever replaced, and the ticket of an application admits
      it.

    ** Bounds and fuel

    The definitions are structurally recursive where the code is. The search of
    a route runs with fuel for each node of the graph, and its theorems prove
    that this is enough; sending the state of the index client runs over the
    entries of the sequenced map; the executions of [Scenario] deliver at most 20
    messages per exchange, and the theorem about them states that none is left in
    flight. The nonces of the secure channel have 96 bits, and its theorem asks
    that fewer than [2 ^ 96] messages are sent under a key; counters of
    applications have 128 bits and panic when they overflow. A poll of the
    channel that keeps the newest message has fuel for two turns per message,
    proved to be enough. The compact server numbers nodes with 64 bits: its
    theorems ask for fewer than [2 ^ 64] nodes and events.

    ** Not modelled

    The code that only wires tasks together and starts programs; sockets and
    lock files; the parsing of command lines; the wire formats generated by
    macros; and third-party cryptography and serialization, which are
    parameters.

    ** Plan

    Next: the absence of panics in the handlers for honest friends, and the
    mediator's theorem lifted from its two ledgers to the state of the funder. *)

From stdpp Require Export base numbers list gmap strings sorting.
From Stdlib Require Export Lia ZArith.

(** ** Outcomes of Rust code

    [Ok a] and [Err e] are the two sides of a Rust [Result]; [Panic] is an
    [unwrap]/[expect] on a missing value, a failed [assert!], an
    [unreachable!] or an arithmetic overflow. Code that has no [Result] but may
    panic returns [option]: [None] is the panic. *)
Inductive outcome (E A : Type) : Type :=
| Ok (a : A)
| Err (e : E)
| Panic.
Arguments Ok {E A} a.
Arguments Err {E A} e.
Arguments Panic {E A}.

Definition obind {E A B : Type} (m : outcome E A) (k : A -> outcome E B) : outcome E B :=
  match m with
  | Ok a => k a
  | Err e => Err e
  | Panic => Panic
  end.

(** [o.ok_or(e)?] *)
Definition ok_or {E A : Type} (o : option A) (e : E) : outcome E A :=
  match o with
  | Some a => Ok a
  | None => Err e
  end.

(** [o.unwrap()] inside a function that returns a [Result]. *)
Definition unwrap {E A : Type} (o : option A) : outcome E A :=
  match o with
  | Some a => Ok a
  | None => Panic
  end.

(** [if !b { return Err(e) }] *)
Definition guard_or {E : Type} (b : bool) (e : E) : outcome E unit :=
  if b then Ok tt else Err e.

(** [r.map_err(f)] *)
Definition map_err {E F A : Type} (f : E -> F) (m : outcome E A) : outcome F A :=
  match m with
  | Ok a => Ok a
  | Err e => Err (f e)
  | Panic => Panic
  end.

(** [r.unwrap()] of a [Result] inside a function with another error type. *)
Definition unwrap_res {E F A : Type} (m : outcome E A) : outcome F A :=
  match m with
  | Ok a => Ok a
  | _ => Panic
  end.

Definition is_ok {E A : Type} (m : outcome E A) : bool :=
  match m with Ok _ => true | _ => false end.

(** [opt_bind] sequences code whose only failure is a panic. *)
Definition opt_bind {A B : Type} (m : option A) (k : A -> option B) : option B :=
  match m with Some a => k a | None => None end.

Declare Scope rust_scope.
Delimit Scope rust_scope with rust.

Notation "'let?' x ':=' c 'in' k" := (obind c (fun x => k))
  (at level 10, x pattern, c at level 100, k at level 200,
   format "'[v' 'let?'  x  ':='  c  'in' '/' k ']'") : rust_scope.
Notation "'let!' x ':=' c 'in' k" := (opt_bind c (fun x => k))
  (at level 10, x pattern, c at level 100, k at level 200,
   format "'[v' 'let!'  x  ':='  c  'in' '/' k ']'") : rust_scope.
Open Scope rust_scope.

(** ** Loops *)

(** A [for] loop whose body updates a state and may leave the function. *)
Fixpoint ofold {E S A : Type} (f : S -> A -> outcome E S) (s : S) (l : list A) : outcome E S :=
  match l with
  | [] => Ok s
  | x :: l' => let? s' := f s x in ofold f s' l'
  end.

(** The same loop where the only failure is a panic. *)
Fixpoint pfold {S A : Type} (f : S -> A -> option S) (s : S) (l : list A) : option S :=
  match l with
  | [] => Some s
  | x :: l' => let! s' := f s x in pfold f s' l'
  end.

(** A [map] over a list whose function may panic. *)
Fixpoint omap_all {A B : Type} (f : A -> option B) (l : list A) : option (list B) :=
  match l with
  | [] => Some []
  | x :: l' => let! y := f x in let! ys := omap_all f l' in Some (y :: ys)
  end.

Lemma obind_Ok {E A B} (m : outcome E A) (k : A -> outcome E B) b :
  obind m k = Ok b <-> exists a, m = Ok a /\ k a = Ok b.
Proof.
  split.
  - destruct m; simpl; intros; try discriminate; eauto.
  - intros (a & -> & Hk). exact Hk.
Qed.

Lemma opt_bind_Some {A B} (m : option A) (k : A -> option B) b :
  opt_bind m k = Some b <-> exists a, m = Some a /\ k a = Some b.
Proof.
  split.
  - destruct m; simpl; intros; try discriminate; eauto.
  - intros (a & -> & Hk). exact Hk.
Qed.

Lemma ok_or_Ok {E A} (o : option A) (e : E) a : ok_or o e = Ok a <-> o = Some a.
Proof. destruct o; naive_solver. Qed.

Lemma unwrap_Ok {E A} (o : option A) a : @unwrap E A o = Ok a <-> o = Some a.
Proof. destruct o; naive_solver. Qed.

Lemma guard_or_Ok {E} (b : bool) (e : E) u : guard_or b e = Ok u <-> b = true.
Proof. destruct b, u; naive_solver. Qed.

(** Absence of panics, compositionally. *)
Lemma obind_no_panic {E A B} (m : outcome E A) (k : A -> outcome E B) :
  m <> Panic -> (forall a, m = Ok a -> k a <> Panic) -> obind m k <> Panic.
Proof. destruct m; naive_solver. Qed.
Lemma ok_or_no_panic {E A} (o : option A) (e : E) : ok_or o e <> Panic.
Proof. by destruct o. Qed.
Lemma guard_or_no_panic {E} (b : bool) (e : E) : guard_or b e <> Panic.
Proof. by destruct b. Qed.
Lemma unwrap_no_panic {E A} (o : option A) : is_Some o -> @unwrap E A o <> Panic.
Proof. by intros [a ->]. Qed.

Section Loops.
Context {E S A : Type}.

Lemma pfold_app (f : S -> A -> option S) s l1 l2 :
  pfold f s (l1 ++ l2) = (let! s' := pfold f s l1 in pfold f s' l2).
Proof. revert s; induction l1 as [|x l1 IH]; intros s; simpl; [done|]. by destruct (f s x); simpl. Qed.

Lemma ofold_app (f : S -> A -> outcome E S) s l1 l2 :
  ofold f s (l1 ++ l2) = (let? s' := ofold f s l1 in ofold f s' l2).
Proof. revert s; induction l1 as [|x l1 IH]; intros s; simpl; [done|]. by destruct (f s x); simpl. Qed.

(** An invariant of the loop body is an invariant of the loop. *)
Lemma pfold_inv (P : S -> Prop) (f : S -> A -> option S) s l s' :
  (forall s0 x s1, x ∈ l -> P s0 -> f s0 x = Some s1 -> P s1) ->
  P s -> pfold f s l = Some s' -> P s'.
Proof.
  revert s; induction l as [|x l IH]; intros s Hf Hs H; simpl in *; [naive_solver|].
  apply opt_bind_Some in H as (s1 & H1 & H).
  apply (IH s1); [|by eapply Hf; [left|..]|done].
  intros s0 y s2 Hy. apply Hf. by right.
Qed.
End Loops.

Lemma omap_all_Some {A B} (f : A -> option B) (g : A -> B) l :
  (forall x, x ∈ l -> f x = Some (g x)) -> omap_all f l = Some (g <$> l).
Proof.
  induction l as [|x l IH]; intros H; simpl; [done|].
  rewrite (H x) by by left. simpl. rewrite IH; [done|]. intros y Hy. apply H. by right.
Qed.

Lemma filter_all {A} (P : A -> Prop) `{!forall x, Decision (P x)} (l : list A) :
  (forall x, x ∈ l -> P x) -> base.filter P l = l.
Proof.
  induction l as [|x l IH]; intros HP; [done|]. rewrite filter_cons_True by (apply HP; by left).
  f_equal. apply IH. intros y Hy. apply HP. by right.
Qed.

(** ** Automation *)

(** Inversion of a successful run of monadic code, one step at a time. *)
Ltac inv_step :=
  match goal with
  | H : Ok _ = Ok _ |- _ => injection H as H; try subst
  | H : Err _ = Ok _ |- _ => discriminate H
  | H : Panic = Ok _ |- _ => discriminate H
  | H : Some _ = Some _ |- _ => injection H as H; try subst
  | H : None = Some _ |- _ => discriminate H
  | H : obind _ _ = Ok _ |- _ => apply obind_Ok in H; destruct H as (? & ? & H)
  | H : opt_bind _ _ = Some _ |- _ => apply opt_bind_Some in H; destruct H as (? & ? & H)
  | H : ok_or _ _ = Ok _ |- _ => apply ok_or_Ok in H
  | H : unwrap _ = Ok _ |- _ => apply unwrap_Ok in H
  | H : guard_or _ _ = Ok _ |- _ => apply guard_or_Ok in H
  | H : (_, _) = (_, _) |- _ => injection H as H; try subst
  | H : _ /\ _ |- _ => destruct H
  | H : exists _, _ |- _ => destruct H
  end.
Ltac inv_run := repeat inv_step; simplify_eq/=.

Create HintDb offset discriminated.
#[export] Hint Resolve ok_or_no_panic guard_or_no_panic : offset.

(** Walk through the guards of monadic code towards its first [unwrap]. *)
Ltac no_panic :=
  repeat (apply obind_no_panic; [solve [auto with offset]|];
          let a := fresh "a" in let Ha := fresh "Ha" in intros a Ha; simpl; inv_run).

(** ** Lists and finite maps *)

(** Sum of an integer measure over a finite map. *)
Definition map_sum {K V : Type} `{Countable K} (f : V -> Z) (m : gmap K V) : Z :=
  map_fold (fun _ v acc => f v + acc)%Z 0%Z m.

Section MapSum.
Context {K V : Type} `{Countable K}.
Implicit Types (m : gmap K V) (f : V -> Z).
Local Open Scope Z_scope.

Lemma map_sum_empty f : map_sum f (∅ : gmap K V) = 0.
Proof. unfold map_sum. by rewrite map_fold_empty. Qed.

Lemma map_sum_insert f m k v :
  m !! k = None -> map_sum f (<[k := v]> m) = f v + map_sum f m.
Proof.
  intros Hk. unfold map_sum. rewrite map_fold_insert_L; [done| |done].
  intros; lia.
Qed.

Lemma map_sum_delete f m k v :
  m !! k = Some v -> map_sum f m = f v + map_sum f (delete k m).
Proof.
  intros Hk. rewrite <- (insert_delete_id m k v Hk) at 1.
  apply map_sum_insert, lookup_delete_eq.
Qed.

(** Replacing an entry by one of the same measure does not change the sum. *)
Lemma map_sum_update f m k v v' :
  m !! k = Some v -> f v' = f v -> map_sum f (<[k := v']> m) = map_sum f m.
Proof.
  intros Hk Hf. rewrite (map_sum_delete f (<[k := v']> m) k v') by apply lookup_insert_eq.
  rewrite (map_sum_delete f m k v Hk), delete_insert_eq. lia.
Qed.

Lemma map_sum_nonneg f m :
  (forall k v, m !! k = Some v -> 0 <= f v) -> 0 <= map_sum f m.
Proof.
  induction m as [|k v m Hk IH] using map_ind; intros Hf.
  - rewrite map_sum_empty. lia.
  - rewrite map_sum_insert by done.
    assert (0 <= f v) by (eapply Hf, lookup_insert_eq).
    assert (0 <= map_sum f m); [|lia].
    apply IH. intros k' v' Hk'. eapply Hf. rewrite lookup_insert_ne; [done|congruence].
Qed.

Lemma map_sum_zero f m : (forall k v, m !! k = Some v -> f v = 0) -> map_sum f m = 0.
Proof.
  induction m as [|k v m Hk IH] using map_ind; intros Hf; [apply map_sum_empty|].
  rewrite map_sum_insert by done. rewrite (Hf k v) by apply lookup_insert_eq. simpl.
  apply IH. intros k' v' Hk'. eapply Hf. rewrite lookup_insert_ne; [done|congruence].
Qed.

Lemma map_sum_lookup_le f m k v :
  (forall k v, m !! k = Some v -> 0 <= f v) -> m !! k = Some v -> f v <= map_sum f m.
Proof.
  intros Hf Hk. rewrite (map_sum_delete f m k v Hk).
  assert (0 <= map_sum f (delete k m)); [|lia].
  apply map_sum_nonneg. intros k' v'. rewrite lookup_delete_Some. naive_solver.
Qed.
End MapSum.
