(* ===== verification/Arith.v ===== *)
(** * Machine integers and [common/src/safe_arithmetic.rs]

    A [w]-bit integer is a [Z] with its range stated by [u_ok] or [i_ok]; the
    wrap-around of [as] casts is written out. [SafeArith] models the macro
    bodies of [SafeSignedArithmetic] and [SafeUnsignedArithmetic] for every
    width, in the half-and-remainder form the source uses; its theorems show
    that they compute exact integer arithmetic, with [None] or saturation
    exactly outside the range. *)

From S2P Require Import Prelude.

Local Open Scope Z_scope.

(** ** Ranges and primitive operations of the language *)

Definition u_max (w : Z) : Z := 2 ^ w - 1.
Definition i_max (w : Z) : Z := 2 ^ (w - 1) - 1.
Definition i_min (w : Z) : Z := - 2 ^ (w - 1).

Definition u_ok (w z : Z) : Prop := 0 <= z <= u_max w.
Definition i_ok (w z : Z) : Prop := i_min w <= z <= i_max w.

Definition u_okb (w z : Z) : bool := (0 <=? z) && (z <=? u_max w).
Definition i_okb (w z : Z) : bool := (i_min w <=? z) && (z <=? i_max w).

(** [as] casts: reduction modulo [2 ^ w] into the target's range. *)
Definition cast_u (w z : Z) : Z := z mod 2 ^ w.
Definition cast_i (w z : Z) : Z := (z + 2 ^ (w - 1)) mod 2 ^ w - 2 ^ (w - 1).

(** An arithmetic result that overflows is a panic ([None]). *)
Definition exact_u (w z : Z) : option Z := if u_okb w z then Some z else None.
Definition exact_i (w z : Z) : option Z := if i_okb w z then Some z else None.

(** [checked_add] and friends return [None] outside the range. *)
Definition checked_u (w z : Z) : option Z := if u_okb w z then Some z else None.
Definition checked_i (w z : Z) : option Z := if i_okb w z then Some z else None.

Definition saturate_u (w z : Z) : Z := Z.max 0 (Z.min (u_max w) z).
Definition saturate_i (w z : Z) : Z := Z.max (i_min w) (Z.min (i_max w) z).

(** ** The macros *)
Module SafeArith.

(** [SafeSignedArithmetic for $i] *)
Definition safe_abs (w self : Z) : option Z :=
  if 0 <=? self then Some (cast_u w self)
  else
    let s_half := Z.quot self 2 in
    let s_rem := Z.rem self 2 in
    let! neg_half := exact_i w (- s_half) in
    let! neg_rem := exact_i w (- s_rem) in
    let! twice := exact_u w (cast_u w neg_half * 2) in
    exact_u w (twice + cast_u w neg_rem).

Definition checked_add_unsigned (w self u : Z) : option Z :=
  let u_half := cast_i w (Z.quot u 2) in
  let u_rem := cast_i w (Z.rem u 2) in
  let! a := checked_i w (self + u_half) in
  let! b := checked_i w (a + u_half) in
  checked_i w (b + u_rem).

Definition checked_sub_unsigned (w self u : Z) : option Z :=
  let u_half := cast_i w (Z.quot u 2) in
  let u_rem := cast_i w (Z.rem u 2) in
  let! a := checked_i w (self - u_half) in
  let! b := checked_i w (a - u_half) in
  checked_i w (b - u_rem).

Definition saturating_add_unsigned (w self u : Z) : Z :=
  let u_half := cast_i w (Z.quot u 2) in
  let u_rem := cast_i w (Z.rem u 2) in
  saturate_i w (saturate_i w (saturate_i w (self + u_half) + u_half) + u_rem).

Definition saturating_sub_unsigned (w self u : Z) : Z :=
  let u_half := cast_i w (Z.quot u 2) in
  let u_rem := cast_i w (Z.rem u 2) in
  saturate_i w (saturate_i w (saturate_i w (self - u_half) - u_half) - u_rem).

(** [SafeUnsignedArithmetic for $u]. The outer option is the panic of
    [safe_abs], the inner one the checked result. *)
Definition checked_add_signed (w self s : Z) : option (option Z) :=
  if 0 <=? s then Some (checked_u w (self + cast_u w s))
  else let! a := safe_abs w s in Some (checked_u w (self - cast_u w a)).

Definition checked_sub_signed (w self s : Z) : option (option Z) :=
  if 0 <=? s then Some (checked_u w (self - cast_u w s))
  else let! a := safe_abs w s in Some (checked_u w (self + cast_u w a)).

Definition saturating_add_signed (w self s : Z) : option Z :=
  if 0 <=? s then Some (saturate_u w (self + cast_u w s))
  else let! a := safe_abs w s in Some (saturate_u w (self - cast_u w a)).

Definition saturating_sub_signed (w self s : Z) : option Z :=
  if 0 <=? s then Some (saturate_u w (self - cast_u w s))
  else let! a := safe_abs w s in Some (saturate_u w (self + cast_u w a)).

End SafeArith.

(** ** Facts about ranges *)

(** Every range is stated by the half range [h = 2 ^ (w - 1)]; [width_split]
    replaces the powers by it so that [lia] decides the rest. *)
Lemma pow_split (w : Z) : 1 < w -> 2 ^ w = 2 * 2 ^ (w - 1) /\ 2 <= 2 ^ (w - 1).
Proof.
  intros Hw. split.
  - rewrite <- Z.pow_succ_r by lia. f_equal. lia.
  - change 2 with (2 ^ 1) at 1. apply Z.pow_le_mono_r; lia.
Qed.

Ltac width_split w :=
  let h := fresh "h" in
  let Hw := fresh "Hw" in
  let Hh := fresh "Hh" in
  unfold u_okb, i_okb, u_ok, i_ok, u_max, i_max, i_min, saturate_u, saturate_i in *;
  destruct (pow_split w) as [Hw Hh]; [lia|];
  rewrite ?Hw in *; set (h := 2 ^ (w - 1)) in *; clearbody h.

Lemma u_okb_spec w z : u_okb w z = true <-> u_ok w z.
Proof. unfold u_okb, u_ok. lia. Qed.
Lemma i_okb_spec w z : i_okb w z = true <-> i_ok w z.
Proof. unfold i_okb, i_ok. lia. Qed.

Lemma checked_u_Some w z r : checked_u w z = Some r <-> u_ok w z /\ r = z.
Proof. unfold checked_u. rewrite <- u_okb_spec. destruct (u_okb w z); naive_solver. Qed.
Lemma checked_i_Some w z r : checked_i w z = Some r <-> i_ok w z /\ r = z.
Proof. unfold checked_i. rewrite <- i_okb_spec. destruct (i_okb w z); naive_solver. Qed.

Lemma checked_u_ok w z : u_ok w z -> checked_u w z = Some z.
Proof. intros. by apply checked_u_Some. Qed.
Lemma checked_i_ok w z : i_ok w z -> checked_i w z = Some z.
Proof. intros. by apply checked_i_Some. Qed.

Lemma exact_u_ok w z : u_ok w z -> exact_u w z = Some z.
Proof. apply checked_u_ok. Qed.
Lemma exact_i_ok w z : i_ok w z -> exact_i w z = Some z.
Proof. apply checked_i_ok. Qed.

Lemma cast_u_id w z : u_ok w z -> cast_u w z = z.
Proof. unfold cast_u, u_ok, u_max. intros. apply Z.mod_small. lia. Qed.

Lemma cast_i_id w z : 1 < w -> i_ok w z -> cast_i w z = z.
Proof.
  intros Hw Hz. unfold cast_i. width_split w. rewrite Z.mod_small; lia.
Qed.

#[export] Hint Resolve checked_u_ok checked_i_ok exact_u_ok exact_i_ok : offset.

(** The two casts of the macro bodies do not lose information. *)
Lemma half_rem_cast w u :
  1 < w -> u_ok w u ->
  cast_i w (Z.quot u 2) = u / 2 /\ cast_i w (Z.rem u 2) = u mod 2.
Proof.
  intros Hw Hu. assert (0 <= u) by (unfold u_ok in Hu; lia).
  rewrite Z.quot_div_nonneg, Z.rem_mod_nonneg by lia.
  assert (i_ok w (u / 2) /\ i_ok w (u mod 2)) as [? ?].
  { width_split w. pose proof (Z.div_mod u 2). pose proof (Z.mod_pos_bound u 2). lia. }
  by rewrite !cast_i_id.
Qed.

(** ** The macros compute exact arithmetic *)
Module SafeArithTheory.
Import SafeArith.

Section Width.
Context (w : Z) (Hw : 1 < w).

(** Chained checked additions of parts of the same sign fail exactly when the
    total is out of range: an intermediate overflow cannot be undone. *)
Lemma checked_i_chain a x y z :
  i_ok w a -> (0 <= x /\ 0 <= y /\ 0 <= z) \/ (x <= 0 /\ y <= 0 /\ z <= 0) ->
  (let! p := checked_i w (a + x) in let! q := checked_i w (p + y) in checked_i w (q + z))
  = checked_i w (a + x + y + z).
Proof.
  intros Ha Hs. unfold checked_i, i_okb, i_ok in *.
  set (lo := i_min w) in *. set (hi := i_max w) in *.
  destruct ((lo <=? a + x) && (a + x <=? hi)) eqn:E1; simpl.
  - destruct ((lo <=? a + x + y) && (a + x + y <=? hi)) eqn:E2; simpl; [done|].
    destruct ((lo <=? a + x + y + z) && (a + x + y + z <=? hi)) eqn:E3; [lia|done].
  - destruct ((lo <=? a + x + y + z) && (a + x + y + z <=? hi)) eqn:E3; [lia|done].
Qed.

Lemma saturate_i_chain a x y z :
  i_ok w a -> (0 <= x /\ 0 <= y /\ 0 <= z) \/ (x <= 0 /\ y <= 0 /\ z <= 0) ->
  saturate_i w (saturate_i w (saturate_i w (a + x) + y) + z) = saturate_i w (a + x + y + z).
Proof. unfold saturate_i, i_ok. lia. Qed.

Lemma add_unsigned_parts u : u_ok w u -> 0 <= u / 2 /\ 0 <= u mod 2 /\ u = u / 2 + u / 2 + u mod 2.
Proof.
  intros [Hu _]. pose proof (Z.div_mod u 2). pose proof (Z.mod_pos_bound u 2).
  pose proof (Z.div_pos u 2). lia.
Qed.

Lemma checked_add_unsigned_exact self u :
  i_ok w self -> u_ok w u -> checked_add_unsigned w self u = checked_i w (self + u).
Proof.
  intros Hs Hu. unfold checked_add_unsigned.
  destruct (half_rem_cast w u Hw Hu) as [-> ->]. destruct (add_unsigned_parts u Hu) as (? & ? & E).
  rewrite checked_i_chain by (done || lia). f_equal. lia.
Qed.

Lemma checked_sub_unsigned_exact self u :
  i_ok w self -> u_ok w u -> checked_sub_unsigned w self u = checked_i w (self - u).
Proof.
  intros Hs Hu. unfold checked_sub_unsigned.
  destruct (half_rem_cast w u Hw Hu) as [-> ->]. destruct (add_unsigned_parts u Hu) as (? & ? & E).
  etransitivity; [apply (checked_i_chain self (- (u / 2)) (- (u / 2)) (- (u mod 2))); [done|lia]|].
  f_equal. lia.
Qed.

Lemma saturating_add_unsigned_exact self u :
  i_ok w self -> u_ok w u -> saturating_add_unsigned w self u = saturate_i w (self + u).
Proof.
  intros Hs Hu. unfold saturating_add_unsigned.
  destruct (half_rem_cast w u Hw Hu) as [-> ->]. destruct (add_unsigned_parts u Hu) as (? & ? & E).
  rewrite saturate_i_chain by (done || lia). f_equal. lia.
Qed.

Lemma saturating_sub_unsigned_exact self u :
  i_ok w self -> u_ok w u -> saturating_sub_unsigned w self u = saturate_i w (self - u).
Proof.
  intros Hs Hu. unfold saturating_sub_unsigned.
  destruct (half_rem_cast w u Hw Hu) as [-> ->]. destruct (add_unsigned_parts u Hu) as (? & ? & E).
  etransitivity; [apply (saturate_i_chain self (- (u / 2)) (- (u / 2)) (- (u mod 2))); [done|lia]|].
  f_equal. lia.
Qed.

Lemma safe_abs_exact s : i_ok w s -> safe_abs w s = Some (Z.abs s).
Proof.
  intros Hs. unfold safe_abs. destruct (Z.leb_spec 0 s) as [Hp|Hn].
  - rewrite cast_u_id by (width_split w; lia). f_equal. lia.
  - assert (Z.quot s 2 = - ((- s) / 2) /\ Z.rem s 2 = - ((- s) mod 2)) as [-> ->].
    { rewrite <- (Z.opp_involutive s) at 1 3. rewrite Z.quot_opp_l, Z.rem_opp_l by lia.
      by rewrite Z.quot_div_nonneg, Z.rem_mod_nonneg by lia. }
    pose proof (Z.div_mod (- s) 2). pose proof (Z.mod_pos_bound (- s) 2).
    rewrite !Z.opp_involutive.
    assert (i_ok w (- s / 2) /\ i_ok w (- s mod 2) /\ u_ok w (- s / 2) /\ u_ok w (- s mod 2)
            /\ u_ok w (- s / 2 * 2) /\ u_ok w (- s / 2 * 2 + - s mod 2)) as (?&?&?&?&?&?)
      by (width_split w; lia).
    rewrite (exact_i_ok w (- s / 2)), (exact_i_ok w (- s mod 2)) by done. simpl.
    rewrite !cast_u_id, exact_u_ok by done. simpl.
    rewrite exact_u_ok by done. f_equal. lia.
Qed.

Lemma cast_u_abs s : i_ok w s -> cast_u w (Z.abs s) = Z.abs s.
Proof. intros. apply cast_u_id. width_split w. lia. Qed.

(** The four operations of the unsigned macro, from the exactness of [safe_abs]. *)
Lemma unsigned_signed_exact u s :
  i_ok w s ->
  checked_add_signed w u s = Some (checked_u w (u + s)) /\
  checked_sub_signed w u s = Some (checked_u w (u - s)) /\
  saturating_add_signed w u s = Some (saturate_u w (u + s)) /\
  saturating_sub_signed w u s = Some (saturate_u w (u - s)).
Proof.
  intros Hs.
  unfold checked_add_signed, checked_sub_signed, saturating_add_signed, saturating_sub_signed.
  destruct (Z.leb_spec 0 s).
  - rewrite cast_u_id by (width_split w; lia). done.
  - rewrite safe_abs_exact by done. simpl. rewrite !cast_u_abs, Z.abs_neq by (done || lia).
    rewrite Z.sub_opp_r, Z.add_opp_r. done.
Qed.
End Width.

(** C39. For every width and all in-range operands, each operation of the two
    macros returns the mathematically exact result: the checked ones [None]
    exactly when it is out of range, the saturating ones the clamped value,
    and [safe_abs] (which must not overflow at the minimum) the absolute
    value. *)
Theorem safe_arithmetic_exact (w self u s : Z)
  (Hw : 1 < w) (Hself : i_ok w self) (Hu : u_ok w u) (Hs : i_ok w s) :
  safe_abs w s = Some (Z.abs s) /\
  checked_add_unsigned w self u = checked_i w (self + u) /\
  checked_sub_unsigned w self u = checked_i w (self - u) /\
  saturating_add_unsigned w self u = saturate_i w (self + u) /\
  saturating_sub_unsigned w self u = saturate_i w (self - u) /\
  checked_add_signed w u s = Some (checked_u w (u + s)) /\
  checked_sub_signed w u s = Some (checked_u w (u - s)) /\
  saturating_add_signed w u s = Some (saturate_u w (u + s)) /\
  saturating_sub_signed w u s = Some (saturate_u w (u - s)).
Proof.
  split_and!; auto using safe_abs_exact, checked_add_unsigned_exact, checked_sub_unsigned_exact,
    saturating_add_unsigned_exact, saturating_sub_unsigned_exact; apply unsigned_signed_exact; done.
Qed.

Lemma safe_arithmetic_exact_witness :
  safe_abs 8 (-128) = Some 128 /\ checked_add_unsigned 8 (-2) 255 = None.
Proof.
  pose proof (safe_arithmetic_exact 8 (-2) 255 (-128)) as H.
  destruct H as (H1 & H2 & _); [lia|vm_compute; split; discriminate..|].
  split; [rewrite H1; reflexivity|rewrite H2; reflexivity].
Defined.
End SafeArithTheory.
