(* ===== verification/NonceWindow.v ===== *)
(** * The sliding nonce window ([crypto/src/nonce_window.rs])

    A bit vector of 64-bit blocks, the most significant first, that remembers
    which of the last nonces were accepted. It is shown to refine a set of
    accepted nonces. *)

From S2P Require Import Prelude Arith.

Local Open Scope Z_scope.

Record NonceWindow := mkNonceWindow {
  nw_nonce : Z;
  nw_blocks : list Z
}.

Definition nw_width (w : NonceWindow) : Z := Z.of_nat (length (nw_blocks w)) * 64.

(** [NonceWindow::new]; [None] is the failed assertion. *)
Definition nw_new (width : nat) : option NonceWindow :=
  if (width mod 64 =? 0)%nat then Some (mkNonceWindow 0 (replicate (width / 64) 0)) else None.

(** [set]: the new blocks and the old bit; [None] is the failed assertion. *)
Definition nw_set (w : NonceWindow) (i : Z) : option (NonceWindow * bool) :=
  if i <? nw_width w then
    let i := nw_width w - 1 - i in
    let mask := Z.shiftl 1 (64 - 1 - i mod 64) in
    let! block := nw_blocks w !! Z.to_nat (i / 64) in
    Some (mkNonceWindow (nw_nonce w) (<[Z.to_nat (i / 64) := Z.lor block mask]> (nw_blocks w)),
          Z.land block mask =? mask)
  else None.

(** The loop of [shift_left]: a block takes the high bits of the next one. *)
Fixpoint shift_words (nbits : Z) (blocks : list Z) : list Z :=
  match blocks with
  | [] => []
  | b :: rest =>
      match rest with
      | [] => cast_u 64 (Z.shiftl b nbits)
      | b' :: _ => Z.lor (cast_u 64 (Z.shiftl b nbits)) (Z.shiftr b' (64 - nbits))
      end :: shift_words nbits rest
  end.

Definition shift_left (blocks : list Z) (nbits : Z) : list Z :=
  let len := length blocks in
  if 0 <? nbits then
    if Z.of_nat len * 64 <=? nbits then replicate len 0
    else
      let nwords := Z.to_nat (nbits / 64) in
      let blocks := drop nwords blocks ++ replicate nwords 0 in
      let nbits := nbits mod 64 in
      if 0 <? nbits then shift_words nbits blocks else blocks
  else blocks.

Definition try_accept (w : NonceWindow) (nonce : Z) : option (NonceWindow * bool) :=
  if nonce <? nw_nonce w then
    let dif := nw_nonce w - nonce in
    if nw_width w <=? dif then Some (w, false)
    else let! res := nw_set w dif in Some (res.1, negb res.2)
  else
    let dif := nonce - nw_nonce w in
    let blocks := shift_left (nw_blocks w) (Z.min dif (nw_width w)) in
    let! res := nw_set (mkNonceWindow nonce blocks) 0 in
    Some (res.1, negb res.2).

(** A run over several nonces: the final window and the answers. *)
Fixpoint accept_all (w : NonceWindow) (nonces : list Z) : option (NonceWindow * list bool) :=
  match nonces with
  | [] => Some (w, [])
  | n :: rest =>
      let! res := try_accept w n in
      let! res' := accept_all res.1 rest in
      Some (res'.1, res.2 :: res'.2)
  end.

(** ** Bits *)

(** The blocks as one number. *)
Fixpoint value (blocks : list Z) : Z :=
  match blocks with
  | [] => 0
  | b :: rest => b * 2 ^ (64 * Z.of_nat (length rest)) + value rest
  end.

Definition blocks_ok (l : list Z) : Prop := Forall (u_ok 64) l.

Lemma u64_range b : u_ok 64 b <-> 0 <= b < 2 ^ 64.
Proof. unfold u_ok, u_max. lia. Qed.

Lemma value_range l : blocks_ok l -> 0 <= value l < 2 ^ (64 * Z.of_nat (length l)).
Proof.
  induction 1 as [|b l Hb Hl IH]; simpl; [lia|]. apply u64_range in Hb.
  replace (64 * Z.of_nat (S (length l))) with (64 + 64 * Z.of_nat (length l)) by lia.
  rewrite Z.pow_add_r by lia. nia.
Qed.

Lemma value_bit b l d :
  blocks_ok l -> 0 <= d ->
  Z.testbit (value (b :: l)) d =
    if d <? 64 * Z.of_nat (length l) then Z.testbit (value l) d
    else Z.testbit b (d - 64 * Z.of_nat (length l)).
Proof.
  intros Hl Hd. pose proof (value_range l Hl) as Hr. cbn [value]. set (k := 64 * Z.of_nat (length l)) in *.
  assert (value l = (b * 2 ^ k + value l) mod 2 ^ k) as Hm.
  { rewrite Z.add_comm, Z.mod_add by lia. by rewrite Z.mod_small. }
  assert (b = (b * 2 ^ k + value l) / 2 ^ k) as Hq.
  { rewrite Z.add_comm, Z.div_add, Z.div_small by lia. lia. }
  destruct (Z.ltb_spec d k).
  - rewrite Hm at 2. by rewrite Z.mod_pow2_bits_low by lia.
  - rewrite Hq at 2. rewrite Z.div_pow2_bits by lia. f_equal. lia.
Qed.

Lemma value_bit_high l d : blocks_ok l -> 64 * Z.of_nat (length l) <= d -> Z.testbit (value l) d = false.
Proof.
  intros Hl Hd. pose proof (value_range l Hl) as Hr. destruct (Z.eq_dec (value l) 0) as [->|Hne]; [apply Z.bits_0|].
  apply Z.bits_above_log2; [lia|]. apply Z.log2_lt_pow2; [lia|].
  eapply Z.lt_le_trans; [apply Hr|]. apply Z.pow_le_mono_r; lia.
Qed.

Lemma u64_bit_high b d : u_ok 64 b -> 64 <= d -> Z.testbit b d = false.
Proof.
  intros Hb Hd. replace b with (value [b]) by (simpl; lia). apply value_bit_high; [by constructor|done].
Qed.

Lemma shift_words_length n l : length (shift_words n l) = length l.
Proof. induction l as [|b l IH]; [done|]. cbn [shift_words length]. by rewrite IH. Qed.

(** A number whose bits above the 64th are clear is a [u64]. *)
Lemma u64_of_bits b : 0 <= b -> (forall d, 64 <= d -> Z.testbit b d = false) -> u_ok 64 b.
Proof.
  intros Hb Hd. apply u64_range. assert (b = b mod 2 ^ 64) as ->; [|apply Z.mod_pos_bound; lia].
  apply Z.bits_inj'. intros d Hd0. destruct (Z.lt_ge_cases d 64).
  - by rewrite Z.mod_pow2_bits_low.
  - rewrite Hd, Z.mod_pow2_bits_high by lia. done.
Qed.

Lemma u64_lor a b : u_ok 64 a -> u_ok 64 b -> u_ok 64 (Z.lor a b).
Proof.
  intros Ha Hb. apply u64_of_bits; [apply Z.lor_nonneg; split; [apply Ha|apply Hb]|].
  intros d Hd. by rewrite Z.lor_spec, !u64_bit_high.
Qed.

Lemma u64_cast a : u_ok 64 (cast_u 64 a).
Proof. apply u64_range. unfold cast_u. apply Z.mod_pos_bound. lia. Qed.

Lemma u64_shiftr a n : u_ok 64 a -> 0 <= n -> u_ok 64 (Z.shiftr a n).
Proof.
  intros Ha Hn. apply u64_of_bits; [apply Z.shiftr_nonneg, Ha|].
  intros d Hd. rewrite Z.shiftr_spec by lia. apply u64_bit_high; [done|lia].
Qed.

Lemma shift_words_ok n l : 0 < n < 64 -> blocks_ok l -> blocks_ok (shift_words n l).
Proof.
  intros Hn. induction 1 as [|b l Hb Hl IH]; [constructor|]. cbn [shift_words]. constructor; [|done].
  destruct Hl as [|b' l Hb' Hl]; [apply u64_cast|]. apply u64_lor; [apply u64_cast|]. apply u64_shiftr; [done|lia].
Qed.

Lemma cast_shiftl_bit b n e : 0 <= n -> 0 <= e -> Z.testbit (cast_u 64 (Z.shiftl b n)) e = (e <? 64) && Z.testbit b (e - n).
Proof.
  intros Hn He. unfold cast_u. destruct (Z.ltb_spec e 64); simpl.
  - rewrite Z.mod_pow2_bits_low by done. by rewrite Z.shiftl_spec.
  - rewrite Z.mod_pow2_bits_high by lia. done.
Qed.

(** Shifting the words shifts the number; bits past the last block are dropped. *)
Lemma shift_words_bit n l d :
  0 < n < 64 -> blocks_ok l -> 0 <= d ->
  Z.testbit (value (shift_words n l)) d = (d <? 64 * Z.of_nat (length l)) && Z.testbit (value l) (d - n).
Proof.
  intros Hn Hl. revert d. induction Hl as [|b l Hb Hl IH]; intros d Hd.
  { cbn [shift_words value]. by rewrite !Z.bits_0, andb_false_r. }
  pose proof (shift_words_ok n l Hn Hl) as Hs.
  cbn [shift_words]. rewrite value_bit, shift_words_length, IH by done. clear IH. cbn [length].
  set (k := 64 * Z.of_nat (length l)). replace (64 * Z.of_nat (S (length l))) with (k + 64) by lia.
  assert (0 <= k) by lia. destruct (Z.lt_ge_cases (d - n) 0) as [Hneg|Hpos].
  { rewrite !(fun a => Z.testbit_neg_r a (d - n) Hneg). rewrite !andb_false_r. destruct (Z.ltb_spec d k); [done|].
    destruct Hl as [|b' l Hb' Hl].
    - rewrite cast_shiftl_bit by lia. rewrite (Z.testbit_neg_r b) by lia. apply andb_false_r.
    - subst k. cbn [length] in *. lia. }
  rewrite (value_bit b l (d - n)) by done. fold k.
  destruct (Z.ltb_spec d k) as [Hlt|Hge].
  { destruct (Z.ltb_spec (d - n) k), (Z.ltb_spec d (k + 64)); try lia. done. }
  destruct Hl as [|b' l Hb' Hl].
  { subst k. change (64 * Z.of_nat (@length Z [])) with 0 in *. rewrite cast_shiftl_bit by lia.
    destruct (Z.ltb_spec (d - n) 0); [lia|]. by rewrite !Z.sub_0_r. }
  rewrite Z.lor_spec, cast_shiftl_bit, Z.shiftr_spec by lia.
  destruct (Z.ltb_spec d (k + 64)) as [Hd64|Hd64]; cbn [andb].
  2:{ destruct (Z.ltb_spec (d - k) 64); [lia|]. cbn [andb orb]. apply u64_bit_high; [done|lia]. }
  destruct (Z.ltb_spec (d - k) 64); [|lia]. cbn [andb].
  destruct (Z.ltb_spec (d - n) k).
  - rewrite (Z.testbit_neg_r b) by lia. cbn [orb]. rewrite value_bit by (done || lia).
    replace k with (64 * Z.of_nat (length l) + 64) in * by (subst k; cbn [length]; lia).
    destruct (Z.ltb_spec (d - n) (64 * Z.of_nat (length l))); [lia|]. f_equal. lia.
  - rewrite (u64_bit_high b') by (done || lia). rewrite orb_false_r. f_equal. lia.
Qed.

Lemma value_app l1 l2 : value (l1 ++ l2) = value l1 * 2 ^ (64 * Z.of_nat (length l2)) + value l2.
Proof.
  induction l1 as [|b l1 IH]; [done|]. cbn [app value]. rewrite IH, length_app.
  replace (64 * Z.of_nat (length l1 + length l2)) with (64 * Z.of_nat (length l1) + 64 * Z.of_nat (length l2)) by lia.
  rewrite Z.pow_add_r by lia. ring.
Qed.

Lemma value_zeros k : value (replicate k 0) = 0.
Proof. induction k as [|k IH]; [done|]. cbn [replicate value]. rewrite IH. lia. Qed.

Lemma blocks_ok_zeros k : blocks_ok (replicate k 0).
Proof. apply Forall_replicate. apply u64_range. lia. Qed.

(** Moving by whole words. *)
Lemma drop_words_bit k l d :
  blocks_ok l -> (k <= length l)%nat -> 0 <= d ->
  Z.testbit (value (drop k l ++ replicate k 0)) d
  = (d <? 64 * Z.of_nat (length l)) && Z.testbit (value l) (d - 64 * Z.of_nat k).
Proof.
  intros Hl Hk Hd. rewrite value_app, length_replicate, value_zeros, Z.add_0_r.
  assert (value (drop k l) = value l mod 2 ^ (64 * Z.of_nat (length l - k))) as ->.
  { pose proof (value_range (drop k l) ltac:(by apply Forall_drop)) as Hr. rewrite length_drop in Hr.
    rewrite <- (take_drop k l) at 2. rewrite value_app, length_drop, Z.add_comm, Z.mod_add by lia.
    by rewrite Z.mod_small. }
  rewrite Z.mul_pow2_bits by lia. destruct (Z.lt_ge_cases (d - 64 * Z.of_nat k) 0) as [Hneg|Hpos].
  { rewrite !(fun a => Z.testbit_neg_r a _ Hneg). by rewrite andb_false_r. }
  destruct (Z.ltb_spec d (64 * Z.of_nat (length l))); cbn [andb].
  - rewrite Z.mod_pow2_bits_low by lia. done.
  - rewrite Z.mod_pow2_bits_high by lia. done.
Qed.

Lemma shift_left_props l n :
  blocks_ok l -> 0 <= n ->
  length (shift_left l n) = length l /\ blocks_ok (shift_left l n) /\
  forall d, 0 <= d ->
    Z.testbit (value (shift_left l n)) d = (d <? 64 * Z.of_nat (length l)) && Z.testbit (value l) (d - n).
Proof.
  intros Hl Hn. unfold shift_left. destruct (Z.ltb_spec 0 n) as [Hpos|Hz].
  2:{ split_and!; [done..|]. intros d Hd. replace n with 0 by lia. rewrite Z.sub_0_r.
      destruct (Z.ltb_spec d (64 * Z.of_nat (length l))); [done|]. by apply value_bit_high. }
  destruct (Z.leb_spec (Z.of_nat (length l) * 64) n) as [Hbig|Hsmall].
  { split_and!; [apply length_replicate|apply blocks_ok_zeros|]. intros d Hd. rewrite value_zeros, Z.bits_0.
    destruct (Z.ltb_spec d (64 * Z.of_nat (length l))); [|done]. rewrite Z.testbit_neg_r by lia. done. }
  pose proof (Z.div_mod n 64 ltac:(lia)) as Hdm. pose proof (Z.mod_pos_bound n 64 ltac:(lia)) as Hmod.
  pose proof (Z.div_pos n 64 ltac:(lia) ltac:(lia)) as Hdp. set (k := Z.to_nat (n / 64)).
  assert (Z.of_nat k = n / 64) as Hk by lia. assert (k <= length l)%nat as Hkl by lia.
  assert (length (drop k l ++ replicate k 0) = length l) as Hlen by (rewrite length_app, length_drop, length_replicate; lia).
  assert (blocks_ok (drop k l ++ replicate k 0)) as Hok
    by (apply Forall_app; split; [by apply Forall_drop|apply blocks_ok_zeros]).
  destruct (Z.ltb_spec 0 (n mod 64)).
  - split_and!; [by rewrite shift_words_length|apply shift_words_ok; [lia|done]|]. intros d Hd.
    rewrite shift_words_bit, Hlen by (done || lia). destruct (Z.ltb_spec d (64 * Z.of_nat (length l))); [|done].
    cbn [andb]. destruct (Z.lt_ge_cases (d - n mod 64) 0).
    + rewrite !Z.testbit_neg_r by lia. done.
    + rewrite drop_words_bit by (done || lia).
      destruct (Z.ltb_spec (d - n mod 64) (64 * Z.of_nat (length l))); [|lia]. cbn [andb]. f_equal. lia.
  - split_and!; [done..|]. intros d Hd. rewrite drop_words_bit by done. do 2 f_equal. lia.
Qed.

Lemma value_insert_bit l j b b' d :
  blocks_ok l -> u_ok 64 b' -> l !! j = Some b -> 0 <= d ->
  let k := 64 * (Z.of_nat (length l) - 1 - Z.of_nat j) in
  Z.testbit (value (<[j := b']> l)) d
  = if (k <=? d) && (d <? k + 64) then Z.testbit b' (d - k) else Z.testbit (value l) d.
Proof.
  intros Hl Hb' Hj Hd. revert j Hj. induction Hl as [|x l Hx Hl IH]; intros j Hj; [done|].
  destruct j as [|j]; cbn [length].
  - change (<[0%nat := b']> (x :: l)) with (b' :: l). cbv zeta. replace (64 * _) with (64 * Z.of_nat (length l)) by lia. rewrite !value_bit by done.
    destruct (Z.ltb_spec d (64 * Z.of_nat (length l))), (Z.leb_spec (64 * Z.of_nat (length l)) d); try lia; [done|].
    cbn [andb]. destruct (Z.ltb_spec d (64 * Z.of_nat (length l) + 64)); [done|].
    rewrite !u64_bit_high by (done || lia). done.
  - apply lookup_lt_Some in Hj as Hlt. cbn in Hlt. specialize (IH j Hj).
    change (<[S j := b']> (x :: l)) with (x :: <[j := b']> l).
    rewrite !value_bit by (done || by apply Forall_insert). rewrite length_insert.
    replace (Z.of_nat (S (length l)) - 1 - Z.of_nat (S j)) with (Z.of_nat (length l) - 1 - Z.of_nat j) by lia.
    cbv zeta in *. destruct (Z.ltb_spec d (64 * Z.of_nat (length l))); [exact IH|].
    destruct (Z.ltb_spec d (64 * (Z.of_nat (length l) - 1 - Z.of_nat j) + 64)); [lia|]. by rewrite andb_false_r.
Qed.

(** Setting a bit returns the old one and changes no other. *)
Lemma nw_set_run w i :
  blocks_ok (nw_blocks w) -> 0 <= i < nw_width w ->
  exists blocks, nw_set w i = Some (mkNonceWindow (nw_nonce w) blocks, Z.testbit (value (nw_blocks w)) i) /\
    length blocks = length (nw_blocks w) /\ blocks_ok blocks /\
    forall d, 0 <= d -> Z.testbit (value blocks) d = (d =? i) || Z.testbit (value (nw_blocks w)) d.
Proof.
  destruct w as [nonce l]. unfold nw_set, nw_width. cbn [nw_nonce nw_blocks]. intros Hl Hi.
  destruct (Z.ltb_spec i (Z.of_nat (length l) * 64)); [|lia].
  pose proof (Z.div_mod i 64 ltac:(lia)) as Hdm. pose proof (Z.mod_pos_bound i 64 ltac:(lia)) as Hmod.
  set (len := Z.of_nat (length l)) in *. set (q := i / 64) in *. set (r := i mod 64) in *.
  assert (0 <= q < len) as Hq by lia.
  assert ((len * 64 - 1 - i) / 64 = len - 1 - q /\ (len * 64 - 1 - i) mod 64 = 63 - r) as [-> ->].
  { split; symmetry; [apply (Z.div_unique _ _ _ (63 - r))|apply (Z.mod_unique _ _ (len - 1 - q))]; lia. }
  replace (64 - 1 - (63 - r)) with r by lia. set (j := Z.to_nat (len - 1 - q)).
  destruct (lookup_lt_is_Some_2 l j ltac:(lia)) as [b Hb]. rewrite Hb. cbv beta iota delta [opt_bind].
  assert (u_ok 64 b) as Hbok by by eapply Forall_lookup_1.
  assert (u_ok 64 (Z.lor b (Z.shiftl 1 r))) as Hnew.
  { apply u64_lor; [done|]. apply u64_range. rewrite Z.shiftl_1_l. split; [lia|]. apply Z.pow_lt_mono_r; lia. }
  assert (forall x, u_ok 64 x -> forall d, 0 <= d -> Z.testbit (value (<[j := x]> l)) d
    = if (64 * q <=? d) && (d <? 64 * q + 64) then Z.testbit x (d - 64 * q) else Z.testbit (value l) d) as Hins.
  { intros x Hx d Hd. rewrite (value_insert_bit l j b x d Hl Hx Hb Hd). subst j. fold len.
    replace (len - 1 - Z.of_nat (Z.to_nat (len - 1 - q))) with q by lia. done. }
  assert (Z.testbit (value l) i = Z.testbit b r) as Hbit.
  { rewrite <- (list_insert_id l j b Hb). rewrite (Hins b Hbok i ltac:(lia)).
    destruct (Z.leb_spec (64 * q) i), (Z.ltb_spec i (64 * q + 64)); try lia. cbn [andb]. f_equal. lia. }
  exists (<[j := Z.lor b (Z.shiftl 1 r)]> l). split_and!.
  - do 2 f_equal. rewrite Hbit. rewrite Z.shiftl_1_l. apply Bool.eq_iff_eq_true. rewrite Z.eqb_eq. split.
    + intros He. assert (Z.testbit (Z.land b (2 ^ r)) r = true) as Ht by (rewrite He; apply Z.pow2_bits_true; lia).
      rewrite Z.land_spec in Ht. by apply andb_true_iff in Ht as [Ht _].
    + intros Ht. apply Z.bits_inj'. intros d Hd. rewrite Z.land_spec, Z.pow2_bits_eqb by lia.
      destruct (Z.eqb_spec r d) as [<-|]; [by rewrite Ht|apply andb_false_r].
  - apply length_insert.
  - by apply Forall_insert.
  - intros d Hd. rewrite (Hins _ Hnew d Hd), Z.lor_spec, Z.shiftl_1_l.
    destruct (Z.leb_spec (64 * q) d), (Z.ltb_spec d (64 * q + 64)); cbn [andb];
      try (destruct (Z.eqb_spec d i); [lia|done]).
    rewrite Z.pow2_bits_eqb by lia.
    assert (Z.testbit b (d - 64 * q) = Z.testbit (value l) d) as ->.
    { rewrite <- (list_insert_id l j b Hb). rewrite (Hins b Hbok d Hd).
      destruct (Z.leb_spec (64 * q) d), (Z.ltb_spec d (64 * q + 64)); try lia. done. }
    rewrite orb_comm. f_equal. destruct (Z.eqb_spec r (d - 64 * q)), (Z.eqb_spec d i); lia || done.
Qed.

(** ** The abstract window *)

(** The greatest nonce seen and the nonces accepted so far. *)
Record AbstractWindow := mkAbstractWindow { aw_top : Z; aw_accepted : gset Z }.

Definition aw_try (width : Z) (a : AbstractWindow) (n : Z) : AbstractWindow * bool :=
  if bool_decide (aw_top a - n < width) && negb (bool_decide (n ∈ aw_accepted a))
  then (mkAbstractWindow (Z.max (aw_top a) n) ({[n]} ∪ aw_accepted a), true)
  else (a, false).

Fixpoint aw_all (width : Z) (a : AbstractWindow) (ns : list Z) : list bool :=
  match ns with
  | [] => []
  | n :: rest => let res := aw_try width a n in res.2 :: aw_all width res.1 rest
  end.

Record represents (w : NonceWindow) (a : AbstractWindow) : Prop := {
  rp_blocks : blocks_ok (nw_blocks w);
  rp_width : 0 < nw_width w;
  rp_top : nw_nonce w = aw_top a;
  rp_upper : forall n, n ∈ aw_accepted a -> n <= aw_top a;
  rp_bits : forall d, 0 <= d < nw_width w ->
    Z.testbit (value (nw_blocks w)) d = bool_decide (aw_top a - d ∈ aw_accepted a)
}.

Lemma try_accept_refines w a n :
  represents w a ->
  exists w', try_accept w n = Some (w', (aw_try (nw_width w) a n).2) /\
    represents w' (aw_try (nw_width w) a n).1 /\ nw_width w' = nw_width w.
Proof.
  intros [Hb Hw Ht Hu Hbits]. unfold try_accept. rewrite Ht. unfold aw_try.
  destruct (Z.ltb_spec n (aw_top a)) as [Hlt|Hge].
  - destruct (Z.leb_spec (nw_width w) (aw_top a - n)).
    { rewrite bool_decide_false by lia. exists w. split_and!; [done|by split|done]. }
    rewrite bool_decide_true by lia.
    destruct (nw_set_run w (aw_top a - n) Hb ltac:(lia)) as (l' & -> & Hlen & Hok & Hl'). cbn [opt_bind fst snd].
    rewrite Hbits by lia. replace (aw_top a - (aw_top a - n)) with n by lia.
    assert (nw_width (mkNonceWindow (nw_nonce w) l') = nw_width w) as Hwid by (unfold nw_width; simpl; lia).
    eexists. split_and!; [|split; rewrite ?Hwid|done].
    + f_equal. f_equal. by case_bool_decide.
    + done.
    + done.
    + case_bool_decide; simpl; [done|]. rewrite Z.max_l by lia. done.
    + case_bool_decide; simpl; [done|]. rewrite Z.max_l by lia.
      intros x [->%elem_of_singleton|Hx]%elem_of_union; [lia|by apply Hu].
    + intros d Hd. simpl. rewrite Hl', Hbits by lia.
      destruct (decide (n ∈ aw_accepted a)) as [Hin|Hin]; [rewrite (bool_decide_true _ Hin)|rewrite (bool_decide_false _ Hin)]; simpl.
      * destruct (Z.eqb_spec d (aw_top a - n)) as [->|]; [|done]. simpl. symmetry. apply bool_decide_true.
        by replace (aw_top a - (aw_top a - n)) with n by lia.
      * rewrite Z.max_l by lia. destruct (Z.eqb_spec d (aw_top a - n)) as [->|Hne]; simpl.
        -- symmetry. apply bool_decide_true. apply elem_of_union_l, elem_of_singleton. lia.
        -- apply bool_decide_ext. rewrite elem_of_union, elem_of_singleton. intuition lia.
  - rewrite bool_decide_true by lia.
    destruct (shift_left_props (nw_blocks w) (Z.min (n - aw_top a) (nw_width w)) Hb ltac:(lia)) as (Hlen & Hok & Hs).
    set (l := shift_left _ _) in *.
    assert (nw_width (mkNonceWindow n l) = nw_width w) as Hwid by (unfold nw_width; simpl; lia).
    destruct (nw_set_run (mkNonceWindow n l) 0 Hok ltac:(lia)) as (l' & -> & Hlen' & Hok' & Hl').
    cbn [opt_bind fst snd nw_blocks nw_nonce] in *.
    assert (nw_width (mkNonceWindow n l') = nw_width w) as Hwid' by (unfold nw_width in *; simpl in *; lia).
    assert (forall d, 0 <= d < nw_width w -> Z.testbit (value l) d = bool_decide (n - d ∈ aw_accepted a)) as Hl.
    { intros d Hd. rewrite Hs by lia. replace (64 * Z.of_nat (length (nw_blocks w))) with (nw_width w) by (unfold nw_width; lia).
      destruct (Z.ltb_spec d (nw_width w)); [|lia]. cbn [andb].
      destruct (Z.lt_ge_cases (d - Z.min (n - aw_top a) (nw_width w)) 0) as [Hneg|Hpos].
      - rewrite Z.testbit_neg_r by done. symmetry. apply bool_decide_false. intros Hin%Hu. lia.
      - rewrite Hbits by lia. apply bool_decide_ext.
        replace (aw_top a - (d - Z.min (n - aw_top a) (nw_width w))) with (n - d) by lia. done. }
    rewrite Hl, Z.sub_0_r by lia. exists (mkNonceWindow n l'). split_and!; [by case_bool_decide| |done].
    assert (forall x, x ∈ aw_accepted a -> x <= n) as Hu' by (intros x Hx%Hu; lia).
    split; cbn [nw_blocks nw_nonce]; rewrite ?Hwid'; try done.
    + case_bool_decide as Hin; simpl; [apply Hu in Hin; lia|lia].
    + case_bool_decide as Hin; simpl; [exact Hu|]. rewrite Z.max_r by lia.
      intros x [->%elem_of_singleton|Hx]%elem_of_union; [lia|by apply Hu'].
    + intros d Hd. rewrite Hl', Hl by lia.
      destruct (decide (n ∈ aw_accepted a)) as [Hin|Hin]; [rewrite (bool_decide_true _ Hin)|rewrite (bool_decide_false _ Hin)]; simpl.
      * assert (aw_top a = n) as -> by (apply Hu in Hin; lia).
        destruct (Z.eqb_spec d 0) as [->|]; [|done]. simpl. symmetry. apply bool_decide_true. by rewrite Z.sub_0_r.
      * rewrite Z.max_r by lia. destruct (Z.eqb_spec d 0) as [->|Hne]; simpl.
        -- symmetry. apply bool_decide_true. rewrite Z.sub_0_r. set_solver.
        -- apply bool_decide_ext. rewrite elem_of_union, elem_of_singleton. intuition lia.
Qed.

(** The nonces that were answered with [true]. *)
Definition accepted_of (ns : list Z) (answers : list bool) : list Z :=
  omap (fun p : Z * bool => if p.2 then Some p.1 else None) (zip ns answers).

Lemma aw_all_once width a ns :
  NoDup (accepted_of ns (aw_all width a ns)) /\
  forall n, n ∈ accepted_of ns (aw_all width a ns) -> n ∉ aw_accepted a.
Proof.
  revert a. induction ns as [|n ns IH]; intros a; [by split; [constructor|intros ? ?%not_elem_of_nil]|].
  cbn [aw_all]. unfold accepted_of. cbn [zip zip_with omap list_omap]. fold (accepted_of ns).
  destruct (IH (aw_try width a n).1) as [Hn Hd]. unfold aw_try in *.
  case_bool_decide; [case_bool_decide as Hin|]; simpl in *; [by split| |by split].
  split; [constructor; [|done]|].
  - intros Hin'%Hd. apply Hin'. set_solver.
  - intros x [->|Hx]%elem_of_cons; [done|]. apply Hd in Hx. set_solver.
Qed.

Lemma accept_all_refines w a ns :
  represents w a -> exists w', accept_all w ns = Some (w', aw_all (nw_width w) a ns).
Proof.
  revert w a. induction ns as [|n ns IH]; intros w a Hr; [by exists w|]. cbn [accept_all aw_all].
  destruct (try_accept_refines w a n Hr) as (w1 & -> & Hr1 & Hw1). cbn [opt_bind fst snd].
  destruct (IH w1 _ Hr1) as (w' & ->). rewrite Hw1. by exists w'.
Qed.

(** C38. The nonce window of any positive width never panics and gives, for any
    sequence of nonces, the answers of the abstract window: a nonce is accepted
    exactly when it is above the lower end of the window and was not accepted
    before. In particular no nonce is ever accepted twice, also when it left
    the window in between. *)
Theorem nonce_window_refines (k : nat) (ns : list Z) :
  (0 < k)%nat ->
  let answers := aw_all (Z.of_nat (64 * k)) (mkAbstractWindow 0 ∅) ns in
  (exists w w', nw_new (64 * k) = Some w /\ accept_all w ns = Some (w', answers)) /\
  NoDup (accepted_of ns answers).
Proof.
  intros Hk answers. split; [|apply aw_all_once].
  set (w := mkNonceWindow 0 (replicate k 0)).
  assert (nw_width w = Z.of_nat (64 * k)) as Hw by (unfold nw_width; simpl; rewrite length_replicate; lia).
  assert (represents w (mkAbstractWindow 0 ∅)) as Hr.
  { split; simpl; [apply blocks_ok_zeros|lia|done|set_solver|]. intros d _.
    rewrite value_zeros, Z.bits_0. symmetry. apply bool_decide_false. set_solver. }
  destruct (accept_all_refines w _ ns Hr) as (w' & Hrun). rewrite Hw in Hrun. exists w, w'. split; [|done].
  unfold nw_new. rewrite Nat.mul_comm, Nat.Div0.mod_mul, Nat.div_mul by lia. done.
Qed.

Lemma nonce_window_refines_witness :
  (exists w w', nw_new (64 * 2) = Some w /\
     accept_all w [5; 5; 200; 5; 100; 100; 73; 72] = Some (w', [true; false; true; false; true; false; true; false])).
Proof.
  destruct (nonce_window_refines 2 [5; 5; 200; 5; 100; 100; 73; 72] ltac:(lia)) as [(w & w' & Hw & Hr) _].
  exists w, w'. split; [exact Hw|]. rewrite Hr. vm_compute. reflexivity.
Defined.
