(* ===== verification/Bytes.v ===== *)
(** * Byte strings, fixed-size identifiers and the cryptographic interface

    [fixed_bytes n] is the array newtype of [define_fixed_bytes!]
    ([common/src/define_fixed_bytes.rs]); the identifiers of
    [proto/src/crypto/mod.rs] are its instances. Hashing and signatures come
    from the crates [sha2] and [ed25519_dalek]: they are the operations of the
    class [CryptoOps], and what an honest signer relies on is the class
    [SignerOps]. [Toy] is a concrete instance used by the witnesses. *)

From S2P Require Import Prelude Arith.
From Stdlib Require Import Strings.Byte.

#[global] Instance byte_eq_dec_inst : EqDecision byte := Byte.byte_eq_dec.
#[global] Program Instance byte_countable : Countable byte :=
  inj_countable Byte.to_N Byte.of_N _.
Next Obligation. intros x. apply Byte.of_to_N. Qed.

Notation bytes := (list byte).

(** ** Fixed-size byte arrays *)

Definition fixed_bytes (n : nat) : Type := dsig (fun l : bytes => length l = n).

#[global] Instance fixed_bytes_eq_dec n : EqDecision (fixed_bytes n).
Proof. unfold fixed_bytes, dsig. apply _. Defined.
#[global] Instance fixed_bytes_countable n : Countable (fixed_bytes n).
Proof. unfold fixed_bytes, dsig. apply _. Defined.

(** [AsRef<[u8]>] *)
Definition as_bytes {n : nat} (x : fixed_bytes n) : bytes := proj1_sig x.

(** [TryFrom<&[u8]>]: a slice that is too short is refused, a longer one is
    truncated. *)
Program Definition fixed_try_from (n : nat) (src : bytes) : option (fixed_bytes n) :=
  match decide (length src < n) with
  | left _ => None
  | right H => Some (dexist (take n src) _)
  end.
Next Obligation. intros n src H. simpl. rewrite length_take. lia. Qed.

(** Copy of a slice into a zeroed buffer of length [n]. *)
Definition fixed_of_prefix (n : nat) (src : bytes) : fixed_bytes n :=
  dexist (resize n x00 src) (length_resize src n x00).

(** [PartialEq::eq]: the index loop over the array. *)
Definition fixed_eqb {n : nat} (x y : fixed_bytes n) : bool :=
  forallb (fun i => bool_decide (as_bytes x !! i = as_bytes y !! i)) (seq 0 n).

(** [Ord::cmp]: lexicographic comparison of the bytes. *)
Fixpoint bytes_cmp (a b : bytes) : comparison :=
  match a, b with
  | [], [] => Eq
  | [], _ :: _ => Lt
  | _ :: _, [] => Gt
  | x :: a', y :: b' =>
      match N.compare (Byte.to_N x) (Byte.to_N y) with
      | Eq => bytes_cmp a' b'
      | c => c
      end
  end.

(** ** Facts *)

Lemma as_bytes_length {n} (x : fixed_bytes n) : length (as_bytes x) = n.
Proof. exact (proj2_dsig x). Qed.

Lemma as_bytes_inj {n} (x y : fixed_bytes n) : as_bytes x = as_bytes y -> x = y.
Proof. intros. by apply dsig_eq. Qed.

Lemma fixed_of_prefix_bytes n src :
  as_bytes (fixed_of_prefix n src) = resize n x00 src.
Proof. reflexivity. Qed.

Lemma fixed_eqb_spec {n} (x y : fixed_bytes n) : fixed_eqb x y = true <-> x = y.
Proof.
  unfold fixed_eqb. rewrite forallb_forall. split.
  - intros H. apply as_bytes_inj, list_eq. intros i.
    destruct (decide (i < n)) as [Hi|Hi].
    + specialize (H i). rewrite bool_decide_eq_true in H. apply H, in_seq. lia.
    + rewrite !lookup_ge_None_2; rewrite ?as_bytes_length; [done|lia..].
  - intros -> i _. by apply bool_decide_eq_true.
Qed.

Lemma bytes_cmp_eq a b : bytes_cmp a b = Eq <-> a = b.
Proof.
  revert b; induction a as [|x a IH]; intros [|y b]; simpl; try (split; congruence).
  destruct (N.compare_spec (Byte.to_N x) (Byte.to_N y)) as [E|E|E].
  - assert (x = y) as ->.
    { assert (Some x = Some y) as [= ->]; [|done].
      by rewrite <- (Byte.of_to_N x), <- (Byte.of_to_N y), E. }
    rewrite IH. split; [by intros ->|by intros [= ->]].
  - split; [done|intros [= -> ->]; lia].
  - split; [done|intros [= -> ->]; lia].
Qed.

Lemma bytes_cmp_antisym a b : bytes_cmp b a = CompOpp (bytes_cmp a b).
Proof.
  revert b; induction a as [|x a IH]; intros [|y b]; simpl; try done.
  rewrite (N.compare_antisym (Byte.to_N x) (Byte.to_N y)).
  by destruct (Byte.to_N x ?= Byte.to_N y)%N; simpl.
Qed.

(** ** Big-endian writers ([byteorder::WriteBytesExt]) *)

Definition byte_of_Z (z : Z) : byte := default x00 (Byte.of_N (Z.to_N (z mod 256))).

(** [write_uN::<BigEndian>] for [n] bytes. *)
Fixpoint be_bytes (n : nat) (z : Z) : bytes :=
  match n with
  | O => []
  | S n' => byte_of_Z (Z.shiftr z (8 * Z.of_nat n')) :: be_bytes n' z
  end.

Definition write_u32 (z : Z) : bytes := be_bytes 4 z.
Definition write_u64 (z : Z) : bytes := be_bytes 8 z.
Definition write_u128 (z : Z) : bytes := be_bytes 16 z.
(** Two's complement. *)
Definition write_i128 (z : Z) : bytes := be_bytes 16 (cast_u 128 z).

Lemma be_bytes_length n z : length (be_bytes n z) = n.
Proof. induction n; simpl; congruence. Qed.

Lemma byte_of_Z_inj a b : byte_of_Z a = byte_of_Z b -> (a mod 256 = b mod 256)%Z.
Proof.
  unfold byte_of_Z. intros H.
  assert (forall z, exists x, Byte.of_N (Z.to_N (z mod 256)) = Some x /\
                              Byte.to_N x = Z.to_N (z mod 256)) as Hs.
  { intros z. pose proof (Z.mod_pos_bound z 256).
    destruct (Byte.of_N (Z.to_N (z mod 256))) as [x|] eqn:E.
    - exists x. split; [done|]. by apply Byte.to_of_N.
    - apply Byte.of_N_None_iff in E. lia. }
  destruct (Hs a) as (x & Ex & Nx), (Hs b) as (y & Ey & Ny).
  rewrite Ex, Ey in H. simpl in H. subst y. rewrite Nx in Ny.
  pose proof (Z.mod_pos_bound a 256). pose proof (Z.mod_pos_bound b 256). lia.
Qed.

Lemma be_bytes_mod n a b :
  be_bytes n a = be_bytes n b -> (a mod 2 ^ (8 * Z.of_nat n) = b mod 2 ^ (8 * Z.of_nat n))%Z.
Proof.
  induction n as [|n IH]; simpl be_bytes; intros H.
  - by rewrite !Z.mod_1_r.
  - injection H as H1 H2. apply IH in H2. apply byte_of_Z_inj in H1.
    rewrite !Z.shiftr_div_pow2 in H1 by lia.
    replace (8 * Z.of_nat (S n))%Z with (8 * Z.of_nat n + 8)%Z by lia.
    rewrite Z.pow_add_r by lia. change (2 ^ 8)%Z with 256%Z.
    rewrite !Z.rem_mul_r by lia. congruence.
Qed.

Lemma be_bytes_inj n a b :
  u_ok (8 * Z.of_nat n) a -> u_ok (8 * Z.of_nat n) b -> be_bytes n a = be_bytes n b -> a = b.
Proof.
  unfold u_ok, u_max. intros Ha Hb H%be_bytes_mod. rewrite !Z.mod_small in H by lia. done.
Qed.

Lemma write_i128_inj a b : i_ok 128 a -> i_ok 128 b -> write_i128 a = write_i128 b -> a = b.
Proof.
  unfold write_i128, cast_u. intros Ha Hb H%be_bytes_mod.
  change (8 * Z.of_nat 16)%Z with 128%Z in H. rewrite !Z.mod_mod in H by lia.
  unfold i_ok, i_min, i_max in *. simpl in Ha, Hb.
  assert (forall z, i_ok 128 z -> cast_i 128 (z mod 2 ^ 128) = z) as Hc.
  { intros z Hz. unfold cast_i. rewrite Zplus_mod_idemp_l. by apply (cast_i_id 128). }
  rewrite <- (Hc a), <- (Hc b) by done. by rewrite H.
Qed.

(** ** Identifiers of [proto/src/crypto/mod.rs] *)

Notation HashResult := (fixed_bytes 32).
Notation PlainLock := (fixed_bytes 32).
Notation HashedLock := (fixed_bytes 32).
Notation PublicKey := (fixed_bytes 32).
Notation PrivateKey := (fixed_bytes 32).
Notation Signature := (fixed_bytes 64).
Notation InvoiceId := (fixed_bytes 32).
Notation PaymentId := (fixed_bytes 16).
Notation RandValue := (fixed_bytes 16).
Notation Uid := (fixed_bytes 16).

(** ** Cryptographic operations of the crates [sha2] and [ed25519_dalek] *)

Class CryptoOps : Type := {
  Sha512Trunc256 : bytes -> HashResult;
  dalek_public_key_from_bytes : bytes -> bool;
  dalek_signature_from_bytes : bytes -> bool;
  dalek_verify : bytes -> bytes -> bytes -> bool
}.

Section Crypto.
Context `{CryptoOps}.

(** [crypto/src/hash.rs] *)
Definition sha_512_256 (data : bytes) : HashResult := Sha512Trunc256 data.

(** [crypto/src/hash_lock.rs] *)
Definition hash_lock (plain_lock : PlainLock) : HashedLock := Sha512Trunc256 (as_bytes plain_lock).

(** [crypto/src/identity.rs] *)
Definition compare_public_key (pk1 pk2 : PublicKey) : comparison :=
  bytes_cmp (as_bytes (sha_512_256 (as_bytes pk1))) (as_bytes (sha_512_256 (as_bytes pk2))).

Definition verify_signature (message : bytes) (public_key : PublicKey) (signature : Signature) : bool :=
  if negb (dalek_public_key_from_bytes (as_bytes public_key)) then false
  else if negb (dalek_signature_from_bytes (as_bytes signature)) then false
  else dalek_verify (as_bytes public_key) message (as_bytes signature).
End Crypto.

(** A signer ([identity::IdentityClient]): its public key, and that signatures
    it makes verify under that key (the documented contract of ed25519). *)
Class SignerOps `{CryptoOps} (public_key : PublicKey) : Type := {
  request_signature : bytes -> Signature;
  request_signature_verifies message :
    verify_signature message public_key (request_signature message) = true
}.

(** ** A concrete instance *)
Module Toy.
Definition toy_hash (data : bytes) : fixed_bytes 32 :=
  fixed_of_prefix 32 (byte_of_Z (Z.of_nat (length data)) :: take 8 data ++ rev data).
Definition toy_sign (public_key message : bytes) : bytes :=
  public_key ++ as_bytes (toy_hash message).

#[export] Instance toy_crypto : CryptoOps := {|
  Sha512Trunc256 := toy_hash;
  dalek_public_key_from_bytes _ := true;
  dalek_signature_from_bytes _ := true;
  dalek_verify pk message signature := bool_decide (signature = toy_sign pk message)
|}.

Lemma toy_signer_ok (pk : PublicKey) message :
  verify_signature message pk (fixed_of_prefix 64 (toy_sign (as_bytes pk) message)) = true.
Proof.
  apply bool_decide_eq_true_2. rewrite fixed_of_prefix_bytes. apply resize_all_alt. unfold toy_sign. rewrite length_app, !as_bytes_length. done.
Qed.

#[export] Instance toy_signer (pk : PublicKey) : SignerOps pk := {|
  request_signature message := fixed_of_prefix 64 (toy_sign (as_bytes pk) message);
  request_signature_verifies := toy_signer_ok pk
|}.
End Toy.
