(* ===== verification/Messages.v ===== *)
(** * Messages of the funder ([proto/src/funder/messages.rs])

    The data exchanged by two friends: send-funds operations, token
    information, move-token messages, and the small computations defined on
    them (route validity, forwarding rates, flipping a token's point of view).
    Amounts ([u128], [i128]) are [Z]; their ranges are [u_ok 128], [i_ok 128]. *)

From S2P Require Import Prelude Arith Bytes.

Local Open Scope Z_scope.

(** Constants of [proto/src/consts.rs]. *)
Definition MAX_ROUTE_LEN : nat := 32.
Definition MAX_CURRENCY_LEN : nat := 16.
Definition MAX_OPERATIONS_IN_BATCH : nat := 16.
Definition MAX_NODE_RELAYS : nat := 16.

(** ** Currency *)

Record Currency := mkCurrency { currency_str : string }.

#[global] Instance Currency_eq_dec : EqDecision Currency.
Proof. solve_decision. Defined.
#[global] Program Instance Currency_countable : Countable Currency :=
  inj_countable' currency_str mkCurrency _.
Next Obligation. by intros []. Qed.

Definition currency_bytes (c : Currency) : bytes := String.list_byte_of_string (currency_str c).

(** [TryFrom<String> for Currency]; the error is [CurrencyNameTooLong]. *)
Definition currency_try_from (s : string) : option Currency :=
  if bool_decide (MAX_CURRENCY_LEN < String.length s)%nat then None else Some (mkCurrency s).

(** [derive(Ord)]: byte-wise lexicographic order of the name. *)
Definition currency_cmp (a b : Currency) : comparison := bytes_cmp (currency_bytes a) (currency_bytes b).
Definition currency_le (a b : Currency) : Prop := currency_cmp a b <> Gt.
#[global] Instance currency_le_dec : RelDecision currency_le.
Proof. unfold RelDecision, currency_le. solve_decision. Defined.

(** ** Send-funds operations *)

Record FriendsRoute := mkRoute { public_keys : list PublicKey }.

Record RequestSendFundsOp := mkRequest {
  rq_request_id : Uid;
  rq_src_hashed_lock : HashedLock;
  rq_route : FriendsRoute;
  rq_dest_payment : Z;
  rq_total_dest_payment : Z;
  rq_invoice_id : InvoiceId;
  rq_left_fees : Z
}.

Record ResponseSendFundsOp := mkResponse {
  rs_request_id : Uid;
  rs_dest_hashed_lock : HashedLock;
  rs_is_complete : bool;
  rs_rand_nonce : RandValue;
  rs_signature : Signature
}.

Record UnsignedResponseSendFundsOp := mkUnsignedResponse {
  urs_request_id : Uid;
  urs_dest_hashed_lock : HashedLock;
  urs_is_complete : bool;
  urs_rand_nonce : RandValue
}.

Record CancelSendFundsOp := mkCancel { cn_request_id : Uid }.

Record CollectSendFundsOp := mkCollect {
  cl_request_id : Uid;
  cl_src_plain_lock : PlainLock;
  cl_dest_plain_lock : PlainLock
}.

Inductive FriendTcOp :=
| RequestSendFunds (op : RequestSendFundsOp)
| ResponseSendFunds (op : ResponseSendFundsOp)
| CancelSendFunds (op : CancelSendFundsOp)
| CollectSendFunds (op : CollectSendFundsOp).

(** [Into<UnsignedResponseSendFundsOp> for ResponseSendFundsOp] *)
Definition unsign_response (r : ResponseSendFundsOp) : UnsignedResponseSendFundsOp :=
  mkUnsignedResponse (rs_request_id r) (rs_dest_hashed_lock r) (rs_is_complete r) (rs_rand_nonce r).

Inductive TransactionStage :=
| StageRequest
| StageResponse (dest_hashed_lock : HashedLock) (is_complete : bool).

Record PendingTransaction := mkPending {
  pt_request_id : Uid;
  pt_route : FriendsRoute;
  pt_dest_payment : Z;
  pt_total_dest_payment : Z;
  pt_invoice_id : InvoiceId;
  pt_left_fees : Z;
  pt_src_hashed_lock : HashedLock;
  pt_stage : TransactionStage
}.

Record Commit := mkCommit {
  cm_response_hash : HashResult;
  cm_src_plain_lock : PlainLock;
  cm_dest_hashed_lock : HashedLock;
  cm_dest_payment : Z;
  cm_total_dest_payment : Z;
  cm_invoice_id : InvoiceId;
  cm_currency : Currency;
  cm_signature : Signature
}.

Record Receipt := mkReceipt {
  rc_response_hash : HashResult;
  rc_invoice_id : InvoiceId;
  rc_currency : Currency;
  rc_src_plain_lock : PlainLock;
  rc_dest_plain_lock : PlainLock;
  rc_is_complete : bool;
  rc_dest_payment : Z;
  rc_total_dest_payment : Z;
  rc_signature : Signature
}.

(** ** Token information *)

Record BalanceInfo := mkBalanceInfo {
  bi_balance : Z;
  bi_local_pending_debt : Z;
  bi_remote_pending_debt : Z
}.

Record CurrencyBalanceInfo := mkCurrencyBalanceInfo {
  cbi_currency : Currency;
  cbi_balance_info : BalanceInfo
}.

Record McInfo := mkMcInfo {
  mi_local_public_key : PublicKey;
  mi_remote_public_key : PublicKey;
  mi_balances : list CurrencyBalanceInfo
}.

Record CountersInfo := mkCountersInfo {
  inconsistency_counter : Z;
  move_token_counter : Z
}.

Record TokenInfo := mkTokenInfo {
  ti_mc : McInfo;
  ti_counters : CountersInfo
}.

#[global] Instance BalanceInfo_eq_dec : EqDecision BalanceInfo.
Proof. solve_decision. Defined.
#[global] Instance CurrencyBalanceInfo_eq_dec : EqDecision CurrencyBalanceInfo.
Proof. solve_decision. Defined.
#[global] Instance McInfo_eq_dec : EqDecision McInfo.
Proof. solve_decision. Defined.
#[global] Instance CountersInfo_eq_dec : EqDecision CountersInfo.
Proof. solve_decision. Defined.
#[global] Instance TokenInfo_eq_dec : EqDecision TokenInfo.
Proof. solve_decision. Defined.

(** [BalanceInfo::flip], [McInfo::flip], [TokenInfo::flip]: the other side's
    point of view. [checked_neg().unwrap()] panics at the minimal balance. *)
Definition flip_balance_info (b : BalanceInfo) : option BalanceInfo :=
  let! neg := checked_i 128 (- bi_balance b) in
  Some (mkBalanceInfo neg (bi_remote_pending_debt b) (bi_local_pending_debt b)).

Definition flip_mc_info (m : McInfo) : option McInfo :=
  let! balances := omap_all (fun c =>
    let! b := flip_balance_info (cbi_balance_info c) in
    Some (mkCurrencyBalanceInfo (cbi_currency c) b)) (mi_balances m) in
  Some (mkMcInfo (mi_remote_public_key m) (mi_local_public_key m) balances).

Definition flip_token_info (t : TokenInfo) : option TokenInfo :=
  let! mc := flip_mc_info (ti_mc t) in
  Some (mkTokenInfo mc (ti_counters t)).

(** ** Move-token messages *)

Record CurrencyOperations := mkCurrencyOperations {
  co_currency : Currency;
  co_operations : list FriendTcOp
}.

Record RelayAddress (B : Type) := mkRelayAddress {
  ra_public_key : PublicKey;
  ra_address : B
}.
Arguments mkRelayAddress {B}. Arguments ra_public_key {B}. Arguments ra_address {B}.

Record NamedRelayAddress (B : Type) := mkNamedRelayAddress {
  nra_public_key : PublicKey;
  nra_address : B;
  nra_name : string
}.
Arguments mkNamedRelayAddress {B}. Arguments nra_public_key {B}.
Arguments nra_address {B}. Arguments nra_name {B}.

#[global] Instance RelayAddress_eq_dec {B} `{EqDecision B} : EqDecision (RelayAddress B).
Proof. solve_decision. Defined.
#[global] Instance NamedRelayAddress_eq_dec {B} `{EqDecision B} : EqDecision (NamedRelayAddress B).
Proof. solve_decision. Defined.

(** [From<NamedRelayAddress<B>> for RelayAddress<B>] *)
Definition relay_of_named {B} (r : NamedRelayAddress B) : RelayAddress B :=
  mkRelayAddress (nra_public_key r) (nra_address r).

Record MoveToken (B : Type) := mkMoveToken {
  mt_old_token : Signature;
  mt_currencies_operations : list CurrencyOperations;
  mt_opt_local_relays : option (list (RelayAddress B));
  mt_opt_active_currencies : option (list Currency);
  mt_info_hash : HashResult;
  mt_rand_nonce : RandValue;
  mt_new_token : Signature
}.
Arguments mkMoveToken {B}. Arguments mt_old_token {B}. Arguments mt_currencies_operations {B}.
Arguments mt_opt_local_relays {B}. Arguments mt_opt_active_currencies {B}.
Arguments mt_info_hash {B}. Arguments mt_rand_nonce {B}. Arguments mt_new_token {B}.

Record UnsignedMoveToken (B : Type) := mkUnsignedMoveToken {
  umt_old_token : Signature;
  umt_currencies_operations : list CurrencyOperations;
  umt_opt_local_relays : option (list (RelayAddress B));
  umt_opt_active_currencies : option (list Currency);
  umt_info_hash : HashResult;
  umt_rand_nonce : RandValue
}.
Arguments mkUnsignedMoveToken {B}. Arguments umt_old_token {B}.
Arguments umt_currencies_operations {B}. Arguments umt_opt_local_relays {B}.
Arguments umt_opt_active_currencies {B}. Arguments umt_info_hash {B}. Arguments umt_rand_nonce {B}.

(** [Into<UnsignedMoveToken<B>> for MoveToken<B>] *)
Definition unsign_move_token {B} (m : MoveToken B) : UnsignedMoveToken B :=
  mkUnsignedMoveToken (mt_old_token m) (mt_currencies_operations m) (mt_opt_local_relays m)
    (mt_opt_active_currencies m) (mt_info_hash m) (mt_rand_nonce m).

Record CurrencyBalance := mkCurrencyBalance { cb_currency : Currency; cb_balance : Z }.

Record ResetTerms := mkResetTerms {
  rt_reset_token : Signature;
  rt_inconsistency_counter : Z;
  rt_balance_for_reset : list CurrencyBalance
}.

Record MoveTokenRequest (B : Type) := mkMoveTokenRequest {
  mtr_move_token : MoveToken B;
  mtr_token_wanted : bool
}.
Arguments mkMoveTokenRequest {B}. Arguments mtr_move_token {B}. Arguments mtr_token_wanted {B}.

Inductive FriendMessage (B : Type) :=
| MsgMoveTokenRequest (m : MoveTokenRequest B)
| MsgInconsistencyError (r : ResetTerms).
Arguments MsgMoveTokenRequest {B}. Arguments MsgInconsistencyError {B}.

Inductive FriendStatus := FriendEnabled | FriendDisabled.
Inductive RequestsStatus := RequestsOpen | RequestsClosed.

(** [RequestsStatus::is_open] *)
Definition requests_is_open (s : RequestsStatus) : bool :=
  match s with RequestsOpen => true | RequestsClosed => false end.

(** ** Routes *)

(** [no_duplicates]: one pass with a set of the items seen so far. *)
Fixpoint no_duplicates_from {A} `{Countable A} (seen : gset A) (array : list A) : bool :=
  match array with
  | [] => true
  | item :: rest => if decide (item ∈ seen) then false else no_duplicates_from ({[item]} ∪ seen) rest
  end.
Definition no_duplicates {A} `{Countable A} (array : list A) : bool := no_duplicates_from ∅ array.

Definition is_route_valid {A} `{Countable A} (route : list A) : bool :=
  if (length route <? 2)%nat then false
  else if (MAX_ROUTE_LEN <? length route)%nat then false
  else
    if bool_decide (last route = head route) then
      if (2 <? length route)%nat then no_duplicates (tail route) else false
    else no_duplicates route.

Definition is_route_part_valid {A} `{Countable A} (route : list A) : bool :=
  if (MAX_ROUTE_LEN <=? length route)%nat then false else no_duplicates route.

(** [FriendsRoute::is_valid], [FriendsRoute::is_part_valid] *)
Definition route_is_valid (r : FriendsRoute) : bool := is_route_valid (public_keys r).
Definition route_is_part_valid (r : FriendsRoute) : bool := is_route_part_valid (public_keys r).

(** ** Forwarding rates *)

Record Rate := mkRate { rate_mul : Z; rate_add : Z }.
#[global] Instance Rate_eq_dec : EqDecision Rate.
Proof. solve_decision. Defined.

Definition rate_new : Rate := mkRate 0 0.

(** [Rate::calc_fee] over [BigUint]. *)
Definition calc_fee (r : Rate) (dest_payment : Z) : option Z :=
  let mul_res := Z.shiftr (dest_payment * rate_mul r) 32 in
  let res := mul_res + rate_add r in
  checked_u 128 res.

(** [Rate::max_payable]; the outer [None] is the panic of [to_u128().unwrap()]. *)
Definition max_payable (r : Rate) (capacity : Z) : option Z :=
  match checked_u 128 (capacity - rate_add r) with
  | None => Some 0
  | Some c_minus_n =>
      let numerator := Z.shiftl c_minus_n 32 in
      let denominator := rate_mul r + Z.shiftl 1 32 in
      checked_u 128 (numerator / denominator)
  end.

(** ** Order on currencies *)

Lemma currency_bytes_inj a b : currency_bytes a = currency_bytes b -> a = b.
Proof.
  destruct a as [a], b as [b]. unfold currency_bytes. simpl. intros H. f_equal.
  by rewrite <- (String.string_of_list_byte_of_string a), H, String.string_of_list_byte_of_string.
Qed.

Lemma bytes_cmp_le_trans a b c : bytes_cmp a b <> Gt -> bytes_cmp b c <> Gt -> bytes_cmp a c <> Gt.
Proof.
  revert b c; induction a as [|x a IH]; intros [|y b] [|z c]; simpl; try done.
  destruct (N.compare_spec (Byte.to_N x) (Byte.to_N y)) as [E|E|E];
    destruct (N.compare_spec (Byte.to_N y) (Byte.to_N z)) as [F|F|F]; intros; try done;
    destruct (N.compare_spec (Byte.to_N x) (Byte.to_N z)) as [G|G|G]; try done; try lia.
  by eapply IH.
Qed.

#[global] Instance currency_le_trans : Transitive currency_le.
Proof. intros a b c. apply bytes_cmp_le_trans. Qed.
#[global] Instance currency_le_total : Total currency_le.
Proof.
  intros a b. unfold currency_le, currency_cmp.
  rewrite (bytes_cmp_antisym (currency_bytes a) (currency_bytes b)).
  destruct (bytes_cmp (currency_bytes a) (currency_bytes b)); auto.
Qed.
#[global] Instance currency_le_antisym : AntiSymm (=) currency_le.
Proof.
  intros a b. unfold currency_le, currency_cmp.
  rewrite (bytes_cmp_antisym (currency_bytes a) (currency_bytes b)).
  destruct (bytes_cmp (currency_bytes a) (currency_bytes b)) eqn:E; simpl; try done.
  intros _ _. by apply currency_bytes_inj, bytes_cmp_eq.
Qed.

(** ** Flipping the point of view *)

Definition neg_balance_info (b : BalanceInfo) : BalanceInfo :=
  mkBalanceInfo (- bi_balance b) (bi_remote_pending_debt b) (bi_local_pending_debt b).
Definition neg_cbi (c : CurrencyBalanceInfo) : CurrencyBalanceInfo :=
  mkCurrencyBalanceInfo (cbi_currency c) (neg_balance_info (cbi_balance_info c)).
Definition neg_token_info (t : TokenInfo) : TokenInfo :=
  mkTokenInfo (mkMcInfo (mi_remote_public_key (ti_mc t)) (mi_local_public_key (ti_mc t))
                 (neg_cbi <$> mi_balances (ti_mc t)))
    (ti_counters t).

(** Balances whose negation is representable. *)
Definition flippable (t : TokenInfo) : Prop :=
  Forall (fun c => i_ok 128 (- bi_balance (cbi_balance_info c))) (mi_balances (ti_mc t)).

Lemma flip_token_info_eq t : flippable t -> flip_token_info t = Some (neg_token_info t).
Proof.
  intros Hf. unfold flip_token_info, flip_mc_info.
  rewrite (omap_all_Some _ neg_cbi); [done|].
  intros c Hc. unfold flippable in Hf. rewrite Forall_forall in Hf. specialize (Hf c Hc).
  unfold flip_balance_info. by rewrite checked_i_ok.
Qed.

Lemma neg_cbi_involutive c : neg_cbi (neg_cbi c) = c.
Proof. destruct c as [? []]. unfold neg_cbi, neg_balance_info. simpl. do 2 f_equal. lia. Qed.

Lemma neg_token_info_involutive t : neg_token_info (neg_token_info t) = t.
Proof.
  destruct t as [[l r bs] cs]. unfold neg_token_info. simpl. do 2 f_equal.
  rewrite <- list_fmap_compose. rewrite <- (list_fmap_id bs) at 2.
  apply list_fmap_ext. intros ? c _. apply neg_cbi_involutive.
Qed.

(** ** Routes *)

Section NoDuplicates.
Context {A} `{Countable A}.

Lemma no_duplicates_from_spec (seen : gset A) (l : list A) :
  no_duplicates_from seen l = true <-> NoDup l /\ (forall x, x ∈ l -> x ∉ seen).
Proof.
  revert seen; induction l as [|x l IH]; intros seen; simpl.
  - split; [|done]. intros _. split; [constructor|]. by intros x ?%not_elem_of_nil.
  - destruct (decide (x ∈ seen)) as [Hin|Hin].
    + split; [done|]. intros [_ Hn]. destruct (Hn x); [by left|done].
    + rewrite IH, NoDup_cons. set_solver.
Qed.

Lemma no_duplicates_spec (l : list A) : no_duplicates l = true <-> NoDup l.
Proof. unfold no_duplicates. rewrite no_duplicates_from_spec. set_solver. Qed.
End NoDuplicates.

(** A route is accepted exactly when it has 2 to 32 nodes and is either
    free of repetitions or a single cycle of at least three hops whose first
    and last nodes are the same; a remaining part is accepted exactly when it
    has fewer than 32 nodes, none repeated. *)
Theorem route_validity_spec {A} `{Countable A} (route : list A) :
  (is_route_valid route = true <->
     (2 <= length route <= MAX_ROUTE_LEN)%nat /\
     ((NoDup route /\ last route <> head route) \/
      ((2 < length route)%nat /\ last route = head route /\ NoDup (tail route)))) /\
  (is_route_part_valid route = true <-> (length route < MAX_ROUTE_LEN)%nat /\ NoDup route).
Proof.
  unfold is_route_valid, is_route_part_valid. split.
  - destruct (Nat.ltb_spec (length route) 2); [split; [done|lia]|].
    destruct (Nat.ltb_spec MAX_ROUTE_LEN (length route)); [split; [done|lia]|].
    case_bool_decide as Hc.
    + destruct (Nat.ltb_spec 2 (length route)).
      * rewrite no_duplicates_spec. naive_solver lia.
      * split; [done|]. naive_solver lia.
    + rewrite no_duplicates_spec. naive_solver lia.
  - destruct (Nat.leb_spec MAX_ROUTE_LEN (length route)); [split; [done|lia]|].
    rewrite no_duplicates_spec. naive_solver lia.
Qed.

(** ** Rates *)

Definition rate_ok (r : Rate) : Prop := u_ok 32 (rate_mul r) /\ u_ok 32 (rate_add r).

Lemma max_payable_quotient (q d n : Z) :
  0 < d -> 0 <= n -> q = n / d -> q * d <= n /\ n < (q + 1) * d.
Proof.
  intros Hd Hn ->. pose proof (Z.div_mod n d). pose proof (Z.mod_pos_bound n d). nia.
Qed.

(** [max_payable] never panics. When the capacity covers the flat rate,
    the payment it returns together with its own forwarding fee fits in the
    capacity (the fee itself does not overflow), and no larger payment
    satisfies the equation [x + mul * x / 2^32 + add <= capacity] of its
    comment; otherwise it returns 0. *)
Theorem max_payable_correct (r : Rate) (capacity : Z)
  (Hr : rate_ok r) (Hc : u_ok 128 capacity) :
  exists x, max_payable r capacity = Some x /\ u_ok 128 x /\
    (rate_add r <= capacity ->
       (exists fee, calc_fee r x = Some fee /\ x + fee <= capacity) /\
       (forall y, x < y -> (capacity - rate_add r) * 2 ^ 32 < y * 2 ^ 32 + y * rate_mul r)) /\
    (capacity < rate_add r -> x = 0).
Proof.
  destruct r as [m n]. unfold rate_ok, u_ok, u_max in *. simpl in *.
  unfold max_payable, calc_fee, rate_mul, rate_add. unfold checked_u at 1, u_okb.
  destruct (Z.leb_spec 0 (capacity - n)); simpl.
  2:{ exists 0. split; [done|]. split; [split; [lia|done]|]. split; [lia|done]. }
  rewrite (proj2 (Z.leb_le (capacity - n) (u_max 128))) by (unfold u_max; lia). simpl.
  rewrite !Z.shiftl_mul_pow2 by lia. rewrite Z.mul_1_l.
  remember ((capacity - n) * 2 ^ 32 / (m + 2 ^ 32)) as x eqn:Ex.
  destruct (max_payable_quotient x (m + 2 ^ 32) ((capacity - n) * 2 ^ 32)) as [Hlo Hhi];
    [lia|lia|done|].
  assert (0 <= x) by (subst x; apply Z.div_pos; lia).
  assert (x <= capacity - n) by nia.
  exists x. rewrite checked_u_ok by (unfold u_ok, u_max; lia).
  split; [done|]. split; [lia|]. split; [intros _|lia]. split.
  - rewrite Z.shiftr_div_pow2 by lia.
    pose proof (Z.div_mod (x * m) (2 ^ 32)). pose proof (Z.mod_pos_bound (x * m) (2 ^ 32)).
    assert (x * m / 2 ^ 32 <= capacity - n - x) by nia.
    assert (0 <= x * m / 2 ^ 32) by (apply Z.div_pos; nia).
    exists (x * m / 2 ^ 32 + n). rewrite checked_u_ok by (unfold u_ok, u_max; lia). split; [done|lia].
  - intros y Hy. nia.
Qed.

Lemma max_payable_correct_witness :
  exists x, max_payable (mkRate (2 ^ 31) 5) 305 = Some x /\ x = 200.
Proof.
  destruct (max_payable_correct (mkRate (2 ^ 31) 5) 305) as (x & Hx & _).
  - repeat split; vm_compute; discriminate.
  - split; vm_compute; discriminate.
  - exists x. split; [exact Hx|]. revert Hx. vm_compute. congruence.
Defined.
