(* ===== verification/Canonical.v ===== *)
(** * Canonical serialization and signed buffers

    Models [signature/src/canonical.rs], [signature/src/signature_buff.rs],
    [signature/src/verify.rs], and the constructors of signed objects in
    [funder/src/types.rs] and [funder/src/handler/prepare.rs]. The trait
    [CanonicalSerialize] is a type class with the source's instances. *)

From S2P Require Import Prelude Arith Bytes Messages.
From Stdlib Require Import Strings.Byte.

Class CanonicalSerialize (A : Type) : Type := canonical_serialize : A -> bytes.

(** ** Instances *)

#[global] Instance ser_option {A} `{CanonicalSerialize A} : CanonicalSerialize (option A) :=
  fun o => match o with
           | None => [x00]
           | Some t => x01 :: canonical_serialize t
           end.

#[global] Instance ser_vec {A} `{CanonicalSerialize A} : CanonicalSerialize (list A) :=
  fun l => write_u64 (Z.of_nat (length l)) ++ concat (map canonical_serialize l).

#[global] Instance ser_string : CanonicalSerialize string := String.list_byte_of_string.

#[global] Instance ser_bool : CanonicalSerialize bool := fun b => if b then [x01] else [x00].

#[global] Instance ser_Currency : CanonicalSerialize Currency := currency_bytes.

#[global] Instance ser_FriendsRoute : CanonicalSerialize FriendsRoute :=
  fun r => write_u64 (Z.of_nat (length (public_keys r))) ++ concat (map as_bytes (public_keys r)).

#[global] Instance ser_RequestSendFundsOp : CanonicalSerialize RequestSendFundsOp :=
  fun op => as_bytes (rq_request_id op) ++ as_bytes (rq_src_hashed_lock op)
    ++ canonical_serialize (rq_route op) ++ write_u128 (rq_dest_payment op)
    ++ write_u128 (rq_total_dest_payment op) ++ as_bytes (rq_invoice_id op)
    ++ write_u128 (rq_left_fees op).

#[global] Instance ser_ResponseSendFundsOp : CanonicalSerialize ResponseSendFundsOp :=
  fun op => as_bytes (rs_request_id op) ++ as_bytes (rs_dest_hashed_lock op)
    ++ canonical_serialize (rs_is_complete op) ++ as_bytes (rs_rand_nonce op)
    ++ as_bytes (rs_signature op).

#[global] Instance ser_CancelSendFundsOp : CanonicalSerialize CancelSendFundsOp :=
  fun op => as_bytes (cn_request_id op).

#[global] Instance ser_CollectSendFundsOp : CanonicalSerialize CollectSendFundsOp :=
  fun op => as_bytes (cl_request_id op) ++ as_bytes (cl_src_plain_lock op)
    ++ as_bytes (cl_dest_plain_lock op).

#[global] Instance ser_FriendTcOp : CanonicalSerialize FriendTcOp :=
  fun op => match op with
            | RequestSendFunds r => x00 :: canonical_serialize r
            | ResponseSendFunds r => x01 :: canonical_serialize r
            | CancelSendFunds r => x02 :: canonical_serialize r
            | CollectSendFunds r => x03 :: canonical_serialize r
            end.

#[global] Instance ser_CurrencyOperations : CanonicalSerialize CurrencyOperations :=
  fun c => canonical_serialize (co_currency c) ++ canonical_serialize (co_operations c).

#[global] Instance ser_RelayAddress {B} `{CanonicalSerialize B} : CanonicalSerialize (RelayAddress B) :=
  fun r => as_bytes (ra_public_key r) ++ canonical_serialize (ra_address r).

#[global] Instance ser_BalanceInfo : CanonicalSerialize BalanceInfo :=
  fun b => write_i128 (bi_balance b) ++ write_u128 (bi_local_pending_debt b)
    ++ write_u128 (bi_remote_pending_debt b).

#[global] Instance ser_CurrencyBalanceInfo : CanonicalSerialize CurrencyBalanceInfo :=
  fun c => canonical_serialize (cbi_currency c) ++ canonical_serialize (cbi_balance_info c).

#[global] Instance ser_McInfo : CanonicalSerialize McInfo :=
  fun m => as_bytes (mi_local_public_key m) ++ as_bytes (mi_remote_public_key m)
    ++ canonical_serialize (mi_balances m).

#[global] Instance ser_CountersInfo : CanonicalSerialize CountersInfo :=
  fun c => write_u64 (inconsistency_counter c) ++ write_u128 (move_token_counter c).

#[global] Instance ser_TokenInfo : CanonicalSerialize TokenInfo :=
  fun t => canonical_serialize (ti_mc t) ++ canonical_serialize (ti_counters t).

(** ** Signed buffers *)

Definition FUNDS_RESPONSE_PREFIX : bytes := String.list_byte_of_string "FUND_RESPONSE".
Definition TOKEN_NEXT : bytes := String.list_byte_of_string "NEXT".

Section SignatureBuff.
Context `{CryptoOps} {B : Type} `{CanonicalSerialize B}.

Definition create_response_signature_buffer (currency : Currency)
    (response : UnsignedResponseSendFundsOp) (pending : PendingTransaction) : bytes :=
  let inner_blob := as_bytes (pt_request_id pending) ++ as_bytes (urs_rand_nonce response) in
  as_bytes (sha_512_256 FUNDS_RESPONSE_PREFIX)
  ++ as_bytes (sha_512_256 inner_blob)
  ++ as_bytes (pt_src_hashed_lock pending)
  ++ as_bytes (urs_dest_hashed_lock response)
  ++ canonical_serialize (urs_is_complete response)
  ++ write_u128 (pt_dest_payment pending)
  ++ write_u128 (pt_total_dest_payment pending)
  ++ as_bytes (pt_invoice_id pending)
  ++ canonical_serialize currency.

Definition hash_token_info (token_info : TokenInfo) : HashResult :=
  sha_512_256 (canonical_serialize token_info).

Definition prefix_hash (m : UnsignedMoveToken B) : HashResult :=
  sha_512_256 (as_bytes (umt_old_token m)
    ++ canonical_serialize (umt_currencies_operations m)
    ++ canonical_serialize (umt_opt_local_relays m)
    ++ canonical_serialize (umt_opt_active_currencies m)).

Definition move_token_signature_buff (m : UnsignedMoveToken B) : bytes :=
  as_bytes (sha_512_256 TOKEN_NEXT)
  ++ as_bytes (prefix_hash m)
  ++ as_bytes (umt_info_hash m)
  ++ as_bytes (umt_rand_nonce m).

(** [signature/src/verify.rs] *)
Definition receipt_signature_buffer (receipt : Receipt) : bytes :=
  as_bytes (sha_512_256 FUNDS_RESPONSE_PREFIX)
  ++ as_bytes (rc_response_hash receipt)
  ++ as_bytes (hash_lock (rc_src_plain_lock receipt))
  ++ as_bytes (hash_lock (rc_dest_plain_lock receipt))
  ++ canonical_serialize (rc_is_complete receipt)
  ++ write_u128 (rc_dest_payment receipt)
  ++ write_u128 (rc_total_dest_payment receipt)
  ++ as_bytes (rc_invoice_id receipt)
  ++ canonical_serialize (rc_currency receipt).

Definition verify_receipt (receipt : Receipt) (public_key : PublicKey) : bool :=
  verify_signature (receipt_signature_buffer receipt) public_key (rc_signature receipt).

Definition commit_signature_buffer (commit : Commit) : bytes :=
  as_bytes (sha_512_256 FUNDS_RESPONSE_PREFIX)
  ++ as_bytes (cm_response_hash commit)
  ++ as_bytes (hash_lock (cm_src_plain_lock commit))
  ++ as_bytes (cm_dest_hashed_lock commit)
  ++ canonical_serialize true
  ++ write_u128 (cm_dest_payment commit)
  ++ write_u128 (cm_total_dest_payment commit)
  ++ as_bytes (cm_invoice_id commit)
  ++ canonical_serialize (cm_currency commit).

Definition verify_commit_signature (commit : Commit) (local_public_key : PublicKey) : bool :=
  verify_signature (commit_signature_buffer commit) local_public_key (cm_signature commit).

Definition verify_commit (commit : Commit) (local_public_key : PublicKey) : bool :=
  if (cm_total_dest_payment commit <? cm_dest_payment commit)%Z then false
  else verify_commit_signature commit local_public_key.

Definition verify_move_token (m : MoveToken B) (public_key : PublicKey) : bool :=
  verify_signature (move_token_signature_buff (unsign_move_token m)) public_key (mt_new_token m).

(** [funder/src/types.rs] *)
Definition create_unsigned_move_token (currencies_operations : list CurrencyOperations)
    (opt_local_relays : option (list (RelayAddress B)))
    (opt_active_currencies : option (list Currency))
    (token_info : TokenInfo) (old_token : Signature) (rand_nonce : RandValue) : UnsignedMoveToken B :=
  mkUnsignedMoveToken old_token currencies_operations opt_local_relays opt_active_currencies
    (hash_token_info token_info) rand_nonce.

Record MoveTokenHashed := mkMoveTokenHashed {
  mth_prefix_hash : HashResult;
  mth_token_info : TokenInfo;
  mth_rand_nonce : RandValue;
  mth_new_token : Signature
}.

Definition create_hashed (m : MoveToken B) (token_info : TokenInfo) : MoveTokenHashed :=
  mkMoveTokenHashed (prefix_hash (unsign_move_token m)) token_info (mt_rand_nonce m) (mt_new_token m).

(** [sign_move_token] and [create_response_send_funds]: the identity client is
    the signer of the local key. *)
Definition sign_move_token (local_public_key : PublicKey) `{!SignerOps local_public_key}
    (m : UnsignedMoveToken B) : MoveToken B :=
  mkMoveToken (umt_old_token m) (umt_currencies_operations m) (umt_opt_local_relays m)
    (umt_opt_active_currencies m) (umt_info_hash m) (umt_rand_nonce m)
    (request_signature (public_key := local_public_key) (move_token_signature_buff m)).

Definition create_response_send_funds (local_public_key : PublicKey) `{!SignerOps local_public_key}
    (currency : Currency) (pending : PendingTransaction) (dest_hashed_lock : HashedLock)
    (is_complete : bool) (rand_nonce : RandValue) : ResponseSendFundsOp :=
  let u := mkUnsignedResponse (pt_request_id pending) dest_hashed_lock is_complete rand_nonce in
  mkResponse (urs_request_id u) (urs_dest_hashed_lock u) (urs_is_complete u) (urs_rand_nonce u)
    (request_signature (public_key := local_public_key)
       (create_response_signature_buffer currency u pending)).

(** [funder/src/handler/prepare.rs]; [None] is the [unreachable!]/[assert!]. *)
Definition prepare_receipt (currency : Currency) (collect : CollectSendFundsOp)
    (response : ResponseSendFundsOp) (pending : PendingTransaction) : option Receipt :=
  let response_hash := sha_512_256 (as_bytes (pt_request_id pending) ++ as_bytes (rs_rand_nonce response)) in
  match pt_stage pending with
  | StageResponse _ is_complete =>
      Some (mkReceipt response_hash (pt_invoice_id pending) currency (cl_src_plain_lock collect)
              (cl_dest_plain_lock collect) is_complete (pt_dest_payment pending)
              (pt_total_dest_payment pending) (rs_signature response))
  | StageRequest => None
  end.

Definition prepare_commit (currency : Currency) (response : ResponseSendFundsOp)
    (pending : PendingTransaction) (src_plain_lock : PlainLock) : option Commit :=
  if rs_is_complete response then
    let response_hash := sha_512_256 (as_bytes (pt_request_id pending) ++ as_bytes (rs_rand_nonce response)) in
    Some (mkCommit response_hash src_plain_lock (rs_dest_hashed_lock response)
            (pt_dest_payment pending) (pt_total_dest_payment pending) (pt_invoice_id pending)
            currency (rs_signature response))
  else None.
End SignatureBuff.

#[global] Instance MoveTokenHashed_eq_dec : EqDecision MoveTokenHashed.
Proof. solve_decision. Defined.

(** [create_pending_transaction] of [funder/src/types.rs]. *)
Definition create_pending_transaction (r : RequestSendFundsOp) : PendingTransaction :=
  mkPending (rq_request_id r) (rq_route r) (rq_dest_payment r) (rq_total_dest_payment r)
    (rq_invoice_id r) (rq_left_fees r) (rq_src_hashed_lock r) StageRequest.

(** ** Which serializations are injective *)

(** A serializer is self-delimiting on the values satisfying [P] when the
    value and the rest of the buffer can be recovered from any buffer that
    starts with its encoding. *)
Definition self_delimiting {A} (ser : A -> bytes) (P : A -> Prop) : Prop :=
  forall a b x y, P a -> P b -> ser a ++ x = ser b ++ y -> a = b /\ x = y.

Section SelfDelimiting.
Lemma sd_length {A} (ser : A -> bytes) (P : A -> Prop) (n : nat) :
  (forall a, length (ser a) = n) -> (forall a b, P a -> P b -> ser a = ser b -> a = b) ->
  self_delimiting ser P.
Proof.
  intros Hl Hi a b x y Ha Hb H. apply app_inj_1 in H as [H ->]; [|by rewrite !Hl].
  split; [by apply Hi|done].
Qed.

Lemma sd_fixed n : self_delimiting (@as_bytes n) (fun _ => True).
Proof.
  apply (sd_length _ _ n); [apply as_bytes_length|]. intros a b _ _. apply as_bytes_inj.
Qed.

Lemma sd_u64 : self_delimiting write_u64 (u_ok 64).
Proof. apply (sd_length _ _ 8); [apply be_bytes_length|]. intros a b. apply (be_bytes_inj 8). Qed.

Lemma sd_u128 : self_delimiting write_u128 (u_ok 128).
Proof. apply (sd_length _ _ 16); [apply be_bytes_length|]. intros a b. apply (be_bytes_inj 16). Qed.

Lemma sd_bool : self_delimiting (@canonical_serialize bool _) (fun _ => True).
Proof. intros [] [] x y _ _ [= ->]; done. Qed.

Lemma sd_concat {A} (ser : A -> bytes) (P : A -> Prop) l1 l2 x y :
  self_delimiting ser P -> Forall P l1 -> Forall P l2 -> length l1 = length l2 ->
  concat (map ser l1) ++ x = concat (map ser l2) ++ y -> l1 = l2 /\ x = y.
Proof.
  intros Hs. revert l2; induction l1 as [|a l1 IH]; intros [|b l2] H1 H2 Hl H; simplify_eq/=; [done|].
  rewrite <- !app_assoc in H. inversion_clear H1. inversion_clear H2.
  apply Hs in H as [-> H]; [|done..]. apply IH in H as [-> ->]; [done..|]. lia.
Qed.

(** A length-prefixed vector of self-delimiting items is self-delimiting. *)
Lemma sd_vec {A} (ser : A -> bytes) (P : A -> Prop) :
  self_delimiting ser P ->
  self_delimiting (fun l => write_u64 (Z.of_nat (length l)) ++ concat (map ser l))
    (fun l => u_ok 64 (Z.of_nat (length l)) /\ Forall P l).
Proof.
  intros Hs l1 l2 x y [Hl1 H1] [Hl2 H2] H. rewrite <- !app_assoc in H.
  apply sd_u64 in H as [Hl H]; [|done..]. apply Nat2Z.inj in Hl.
  by eapply sd_concat.
Qed.
End SelfDelimiting.

Definition route_ok (r : FriendsRoute) : Prop := u_ok 64 (Z.of_nat (length (public_keys r))).
Definition request_ok (op : RequestSendFundsOp) : Prop :=
  route_ok (rq_route op) /\ u_ok 128 (rq_dest_payment op) /\
  u_ok 128 (rq_total_dest_payment op) /\ u_ok 128 (rq_left_fees op).
Definition op_ok (op : FriendTcOp) : Prop :=
  match op with RequestSendFunds r => request_ok r | _ => True end.
Definition ops_ok (ops : list FriendTcOp) : Prop :=
  u_ok 64 (Z.of_nat (length ops)) /\ Forall op_ok ops.

Lemma sd_route : self_delimiting (@canonical_serialize FriendsRoute _) route_ok.
Proof.
  intros [k1] [k2] x y H1 H2 H.
  apply (sd_vec as_bytes (fun _ => True) (sd_fixed 32) k1 k2) in H as [-> ->];
    [done|split; [done|by apply Forall_true]..].
Qed.

(** Peel one field of both encodings. *)
Ltac sd_field L :=
  match goal with
  | H : _ ++ _ = _ ++ _ |- _ => apply L in H; [destruct H as [? H]|done..]
  end.

Lemma sd_request : self_delimiting (@canonical_serialize RequestSendFundsOp _) request_ok.
Proof.
  intros a b x y (?&?&?&?) (?&?&?&?) Heq.
  unfold canonical_serialize at 1 2 in Heq. unfold ser_RequestSendFundsOp in Heq.
  rewrite <- !app_assoc in Heq.
  sd_field (sd_fixed 16). sd_field (sd_fixed 32). sd_field sd_route. sd_field sd_u128.
  sd_field sd_u128. sd_field (sd_fixed 32). sd_field sd_u128.
  by destruct a, b; simplify_eq/=.
Qed.

Lemma sd_response : self_delimiting (@canonical_serialize ResponseSendFundsOp _) (fun _ => True).
Proof.
  intros a b x y _ _ Heq.
  unfold canonical_serialize at 1 2 in Heq. unfold ser_ResponseSendFundsOp in Heq.
  rewrite <- !app_assoc in Heq.
  sd_field (sd_fixed 16). sd_field (sd_fixed 32). sd_field sd_bool. sd_field (sd_fixed 16).
  sd_field (sd_fixed 64). by destruct a, b; simplify_eq/=.
Qed.

Lemma sd_collect : self_delimiting (@canonical_serialize CollectSendFundsOp _) (fun _ => True).
Proof.
  intros a b x y _ _ Heq.
  unfold canonical_serialize at 1 2 in Heq. unfold ser_CollectSendFundsOp in Heq.
  rewrite <- !app_assoc in Heq.
  sd_field (sd_fixed 16). sd_field (sd_fixed 32). sd_field (sd_fixed 32). by destruct a, b; simplify_eq/=.
Qed.

Lemma sd_op : self_delimiting (@canonical_serialize FriendTcOp _) op_ok.
Proof.
  intros [r1|r1|r1|r1] [r2|r2|r2|r2] x y H1 H2 [= H].
  - apply sd_request in H as [-> ->]; done.
  - apply sd_response in H as [-> ->]; done.
  - apply (sd_fixed 16) in H as [H ->]; [|done..]. by destruct r1, r2; simplify_eq/=.
  - apply sd_collect in H as [-> ->]; done.
Qed.

(** C37. The canonical serialization of a list of friend operations is
    injective on representable operations: two different batches never have
    the same signed bytes. *)
Theorem operations_serialize_inj (ops1 ops2 : list FriendTcOp)
  (H1 : ops_ok ops1) (H2 : ops_ok ops2)
  (Heq : canonical_serialize ops1 = canonical_serialize ops2) : ops1 = ops2.
Proof.
  apply (sd_vec canonical_serialize op_ok sd_op ops1 ops2 [] []); [done..|].
  by rewrite !app_nil_r.
Qed.

Lemma operations_serialize_inj_witness :
  let op := CancelSendFunds (mkCancel (fixed_of_prefix 16 [x05])) in [op] = [op].
Proof.
  intros op. apply operations_serialize_inj.
  - split; [vm_compute; split; discriminate|]. by repeat constructor.
  - split; [vm_compute; split; discriminate|]. by repeat constructor.
  - reflexivity.
Defined.

(** The serialization of a list of currencies is not injective (names are
    written without a length): whatever the hash and the signature scheme, a
    move token whose signature is valid for the active currencies [AB; C] is
    also valid after the list is replaced by [A; BC]. *)
Theorem active_currencies_not_authenticated `{CryptoOps} {B} `{CanonicalSerialize B}
    (ops : list CurrencyOperations) (relays : option (list (RelayAddress B)))
    (old new : Signature) (info : HashResult) (nonce : RandValue) (pk : PublicKey) :
  let token acs := mkMoveToken old ops relays (Some (map mkCurrency acs)) info nonce new in
  verify_move_token (token ["AB"; "C"]%string) pk = verify_move_token (token ["A"; "BC"]%string) pk /\
  mt_opt_active_currencies (token ["AB"; "C"]%string) <> mt_opt_active_currencies (token ["A"; "BC"]%string).
Proof. split; [reflexivity|discriminate]. Qed.

(** ** Receipts and commits *)

Section Receipts.
Context `{CryptoOps}.

Lemma receipt_buffer_sync currency collect response pending receipt :
  prepare_receipt currency collect response pending = Some receipt ->
  pt_stage pending = StageResponse (rs_dest_hashed_lock response) (rs_is_complete response) ->
  hash_lock (cl_src_plain_lock collect) = pt_src_hashed_lock pending ->
  hash_lock (cl_dest_plain_lock collect) = rs_dest_hashed_lock response ->
  receipt_signature_buffer receipt =
    create_response_signature_buffer currency (unsign_response response) pending.
Proof.
  intros Hp Hs Hsrc Hdst. unfold prepare_receipt in Hp. rewrite Hs in Hp. simplify_eq.
  unfold receipt_signature_buffer, create_response_signature_buffer. simpl.
  by rewrite Hsrc, Hdst.
Qed.

Lemma commit_buffer_sync currency response pending src commit :
  prepare_commit currency response pending src = Some commit ->
  hash_lock src = pt_src_hashed_lock pending ->
  commit_signature_buffer commit =
    create_response_signature_buffer currency (unsign_response response) pending.
Proof.
  intros Hp Hsrc. unfold prepare_commit in Hp. destruct (rs_is_complete response) eqn:Hc; [|done].
  simplify_eq. unfold commit_signature_buffer, create_response_signature_buffer. simpl.
  by rewrite Hsrc, Hc.
Qed.
End Receipts.

(** A response signed by the destination stays verifiable in every form
    it later takes: the receipt made of it once both plain locks are known,
    and the commit made of it by the buyer, verify under the destination's
    public key. *)
Theorem receipt_and_commit_verify `{CryptoOps} (pk : PublicKey) `{!SignerOps pk}
    (currency : Currency) (pending : PendingTransaction) (dest_lock src_lock : PlainLock)
    (is_complete : bool) (nonce : RandValue) (id : Uid)
    (Hsrc : hash_lock src_lock = pt_src_hashed_lock pending)
    (Hstage : pt_stage pending = StageResponse (hash_lock dest_lock) is_complete)
    (Hpay : (pt_dest_payment pending <= pt_total_dest_payment pending)%Z) :
  let response := create_response_send_funds pk currency pending (hash_lock dest_lock) is_complete nonce in
  (exists receipt,
     prepare_receipt currency (mkCollect id src_lock dest_lock) response pending = Some receipt /\
     verify_receipt receipt pk = true) /\
  (is_complete = true -> exists commit,
     prepare_commit currency response pending src_lock = Some commit /\
     verify_commit commit pk = true).
Proof.
  intros response. split.
  - destruct (prepare_receipt currency (mkCollect id src_lock dest_lock) response pending) as [r|] eqn:Hp.
    + exists r. split; [done|]. unfold verify_receipt.
      rewrite (receipt_buffer_sync _ _ _ _ _ Hp Hstage Hsrc eq_refl).
      unfold prepare_receipt in Hp. rewrite Hstage in Hp. simplify_eq. apply request_signature_verifies.
    + unfold prepare_receipt in Hp. by rewrite Hstage in Hp.
  - intros ->. destruct (prepare_commit currency response pending src_lock) as [c|] eqn:Hp; [|done].
    exists c. split; [done|]. unfold verify_commit, verify_commit_signature.
    rewrite (commit_buffer_sync _ _ _ _ _ Hp Hsrc). unfold prepare_commit in Hp. simplify_eq/=.
    rewrite (proj2 (Z.ltb_ge _ _)) by done. apply request_signature_verifies.
Qed.

Import Toy.
Definition sample_pending (stage : TransactionStage) (pay : Z) : PendingTransaction :=
  mkPending (fixed_of_prefix 16 [x01]) (mkRoute []) pay pay (fixed_of_prefix 32 [x02]) 1
    (hash_lock (fixed_of_prefix 32 [x03])) stage.

Lemma receipt_and_commit_verify_witness :
  let dl := fixed_of_prefix 32 [x04] in
  let pending := sample_pending (StageResponse (hash_lock dl) true) 10 in
  let pk := fixed_of_prefix 32 [x09] in
  exists commit,
    prepare_commit (mkCurrency "FST") (create_response_send_funds pk (mkCurrency "FST") pending
      (hash_lock dl) true (fixed_of_prefix 16 [])) pending (fixed_of_prefix 32 [x03]) = Some commit /\
    verify_commit commit pk = true.
Proof.
  intros dl pending pk.
  apply (receipt_and_commit_verify pk (mkCurrency "FST") pending dl (fixed_of_prefix 32 [x03]) true
    (fixed_of_prefix 16 []) (fixed_of_prefix 16 [])); [reflexivity|reflexivity|vm_compute; discriminate|reflexivity].
Defined.
