(* ===== verification/MutualCredit.v ===== *)
(** * Mutual credit between two friends ([funder/src/mutual_credit])

    The state of one currency's ledger with a friend ([types.rs]), the
    operations this side sends ([outgoing.rs]) and the operations it receives
    ([incoming.rs]), each with all its guards, the mutations it emits and the
    places where it can panic. The theory is in [McTheory]. *)

From S2P Require Import Prelude Arith Bytes Messages Canonical.

Local Open Scope Z_scope.

(** ** State ([types.rs]) *)

Record McIdents := mkMcIdents {
  local_public_key : PublicKey;
  remote_public_key : PublicKey
}.

Record McBalance := mkMcBalance {
  balance : Z;
  local_pending_debt : Z;
  remote_pending_debt : Z
}.

Record McPendingTransactions := mkMcPending {
  pending_local : gmap Uid PendingTransaction;
  pending_remote : gmap Uid PendingTransaction
}.

Record MutualCredit := mkMutualCredit {
  mc_idents : McIdents;
  mc_currency : Currency;
  mc_balance : McBalance;
  mc_pending : McPendingTransactions
}.

Inductive McMutation :=
| SetBalance (b : Z)
| InsertLocalPendingTransaction (p : PendingTransaction)
| RemoveLocalPendingTransaction (request_id : Uid)
| SetLocalPendingTransactionStage (request_id : Uid) (stage : TransactionStage)
| InsertRemotePendingTransaction (p : PendingTransaction)
| RemoveRemotePendingTransaction (request_id : Uid)
| SetRemotePendingTransactionStage (request_id : Uid) (stage : TransactionStage)
| SetLocalPendingDebt (d : Z)
| SetRemotePendingDebt (d : Z).

Definition mc_new (local remote : PublicKey) (currency : Currency) (b : Z) : MutualCredit :=
  mkMutualCredit (mkMcIdents local remote) currency (mkMcBalance b 0 0) (mkMcPending ∅ ∅).

(** [balance_for_reset]; [None] is the panic of [expect]. *)
Definition balance_for_reset (mc : MutualCredit) : option Z :=
  SafeArith.checked_add_unsigned 128 (balance (mc_balance mc)) (remote_pending_debt (mc_balance mc)).

Definition with_balance (mc : MutualCredit) (b : McBalance) : MutualCredit :=
  mkMutualCredit (mc_idents mc) (mc_currency mc) b (mc_pending mc).
Definition with_pending (mc : MutualCredit) (p : McPendingTransactions) : MutualCredit :=
  mkMutualCredit (mc_idents mc) (mc_currency mc) (mc_balance mc) p.

Definition set_balance (mc : MutualCredit) (b : Z) : MutualCredit :=
  with_balance mc (mkMcBalance b (local_pending_debt (mc_balance mc)) (remote_pending_debt (mc_balance mc))).
Definition set_local_pending_debt (mc : MutualCredit) (d : Z) : MutualCredit :=
  with_balance mc (mkMcBalance (balance (mc_balance mc)) d (remote_pending_debt (mc_balance mc))).
Definition set_remote_pending_debt (mc : MutualCredit) (d : Z) : MutualCredit :=
  with_balance mc (mkMcBalance (balance (mc_balance mc)) (local_pending_debt (mc_balance mc)) d).

Definition set_pending_local (mc : MutualCredit) (m : gmap Uid PendingTransaction) : MutualCredit :=
  with_pending mc (mkMcPending m (pending_remote (mc_pending mc))).
Definition set_pending_remote (mc : MutualCredit) (m : gmap Uid PendingTransaction) : MutualCredit :=
  with_pending mc (mkMcPending (pending_local (mc_pending mc)) m).

Definition insert_local_pending_transaction (mc : MutualCredit) (p : PendingTransaction) : MutualCredit :=
  set_pending_local mc (<[pt_request_id p := p]> (pending_local (mc_pending mc))).
Definition remove_local_pending_transaction (mc : MutualCredit) (id : Uid) : MutualCredit :=
  set_pending_local mc (delete id (pending_local (mc_pending mc))).
Definition insert_remote_pending_transaction (mc : MutualCredit) (p : PendingTransaction) : MutualCredit :=
  set_pending_remote mc (<[pt_request_id p := p]> (pending_remote (mc_pending mc))).
Definition remove_remote_pending_transaction (mc : MutualCredit) (id : Uid) : MutualCredit :=
  set_pending_remote mc (delete id (pending_remote (mc_pending mc))).

Definition set_stage (p : PendingTransaction) (stage : TransactionStage) : PendingTransaction :=
  mkPending (pt_request_id p) (pt_route p) (pt_dest_payment p) (pt_total_dest_payment p)
    (pt_invoice_id p) (pt_left_fees p) (pt_src_hashed_lock p) stage.

(** [get_mut(&request_id).unwrap().stage = stage] *)
Definition set_local_pending_transaction_stage (mc : MutualCredit) (id : Uid)
    (stage : TransactionStage) : option MutualCredit :=
  let! p := pending_local (mc_pending mc) !! id in
  Some (set_pending_local mc (<[id := set_stage p stage]> (pending_local (mc_pending mc)))).
Definition set_remote_pending_transaction_stage (mc : MutualCredit) (id : Uid)
    (stage : TransactionStage) : option MutualCredit :=
  let! p := pending_remote (mc_pending mc) !! id in
  Some (set_pending_remote mc (<[id := set_stage p stage]> (pending_remote (mc_pending mc)))).

Definition mc_mutate (mc : MutualCredit) (m : McMutation) : option MutualCredit :=
  match m with
  | SetBalance b => Some (set_balance mc b)
  | InsertLocalPendingTransaction p => Some (insert_local_pending_transaction mc p)
  | RemoveLocalPendingTransaction id => Some (remove_local_pending_transaction mc id)
  | SetLocalPendingTransactionStage id stage => set_local_pending_transaction_stage mc id stage
  | InsertRemotePendingTransaction p => Some (insert_remote_pending_transaction mc p)
  | RemoveRemotePendingTransaction id => Some (remove_remote_pending_transaction mc id)
  | SetRemotePendingTransactionStage id stage => set_remote_pending_transaction_stage mc id stage
  | SetLocalPendingDebt d => Some (set_local_pending_debt mc d)
  | SetRemotePendingDebt d => Some (set_remote_pending_debt mc d)
  end.

(** The recurring pattern [mutual_credit.mutate(&m); mc_mutations.push(m)]. *)
Definition apply_push {E} (st : MutualCredit * list McMutation) (m : McMutation)
    : outcome E (MutualCredit * list McMutation) :=
  let? mc := unwrap (mc_mutate (fst st) m) in Ok (mc, snd st ++ [m]).

(** ** Outgoing operations ([outgoing.rs]) *)

Inductive QueueOperationError :=
| QRemoteMaxDebtTooLarge
| QInvalidRoute
| QPkPairNotInRoute
| QCreditsCalcOverflow
| QRequestAlreadyExists
| QRequestDoesNotExist
| QInvalidResponseSignature
| QNotExpectingResponse
| QNotExpectingCollect
| QInvalidSrcPlainLock
| QInvalidDestPlainLock
| QDestPaymentExceedsTotal.

Section Outgoing.
Context `{CryptoOps}.
Notation queue_result := (outcome QueueOperationError (MutualCredit * list McMutation)).

Definition queue_request_send_funds (mc : MutualCredit) (r : RequestSendFundsOp) : queue_result :=
  let? _ := guard_or (route_is_part_valid (rq_route r)) QInvalidRoute in
  let? _ := guard_or (negb (rq_total_dest_payment r <? rq_dest_payment r)) QDestPaymentExceedsTotal in
  let? own_freeze_credits :=
    ok_or (checked_u 128 (rq_dest_payment r + rq_left_fees r)) QCreditsCalcOverflow in
  let? new_local_pending_debt :=
    ok_or (checked_u 128 (local_pending_debt (mc_balance mc) + own_freeze_credits)) QCreditsCalcOverflow in
  let? _ := guard_or (bool_decide (pending_local (mc_pending mc) !! rq_request_id r = None))
              QRequestAlreadyExists in
  let? st := apply_push (mc, []) (InsertLocalPendingTransaction (create_pending_transaction r)) in
  apply_push st (SetLocalPendingDebt new_local_pending_debt).

(** The key that signed the response: the end of the route, or this side
    itself when the route part is empty. *)
Definition outgoing_dest_public_key (mc : MutualCredit) (p : PendingTransaction) : PublicKey :=
  match last (public_keys (pt_route p)) with
  | Some pk => pk
  | None => local_public_key (mc_idents mc)
  end.

Definition queue_response_send_funds (mc : MutualCredit) (r : ResponseSendFundsOp) : queue_result :=
  let? p := ok_or (pending_remote (mc_pending mc) !! rs_request_id r) QRequestDoesNotExist in
  let response_signature_buffer :=
    create_response_signature_buffer (mc_currency mc) (unsign_response r) p in
  let? _ := guard_or (verify_signature response_signature_buffer (outgoing_dest_public_key mc p)
                        (rs_signature r)) QInvalidResponseSignature in
  let? _ := guard_or (match pt_stage p with StageRequest => true | _ => false end) QNotExpectingResponse in
  apply_push (mc, []) (SetRemotePendingTransactionStage (rs_request_id r)
                         (StageResponse (rs_dest_hashed_lock r) (rs_is_complete r))).

Definition queue_cancel_send_funds (mc : MutualCredit) (r : CancelSendFundsOp) : queue_result :=
  let? p := ok_or (pending_remote (mc_pending mc) !! cn_request_id r) QRequestDoesNotExist in
  let? freeze_credits := unwrap (checked_u 128 (pt_dest_payment p + pt_left_fees p)) in
  let? st := apply_push (mc, []) (RemoveRemotePendingTransaction (cn_request_id r)) in
  let? new_remote_pending_debt :=
    unwrap (checked_u 128 (remote_pending_debt (mc_balance (fst st)) - freeze_credits)) in
  apply_push st (SetRemotePendingDebt new_remote_pending_debt).

Definition queue_collect_send_funds (mc : MutualCredit) (r : CollectSendFundsOp) : queue_result :=
  let? p := ok_or (pending_remote (mc_pending mc) !! cl_request_id r) QRequestDoesNotExist in
  let? dest_hashed_lock :=
    match pt_stage p with
    | StageResponse dest_hashed_lock _ => Ok dest_hashed_lock
    | StageRequest => Err QNotExpectingCollect
    end in
  let? _ := guard_or (bool_decide (hash_lock (cl_src_plain_lock r) = pt_src_hashed_lock p))
              QInvalidSrcPlainLock in
  let? _ := guard_or (bool_decide (hash_lock (cl_dest_plain_lock r) = dest_hashed_lock))
              QInvalidDestPlainLock in
  let? freeze_credits := unwrap (checked_u 128 (pt_dest_payment p + pt_left_fees p)) in
  let? st := apply_push (mc, []) (RemoveRemotePendingTransaction (cl_request_id r)) in
  let? new_remote_pending_debt :=
    unwrap (checked_u 128 (remote_pending_debt (mc_balance (fst st)) - freeze_credits)) in
  let? st := apply_push st (SetRemotePendingDebt new_remote_pending_debt) in
  let? new_balance :=
    unwrap (SafeArith.checked_add_unsigned 128 (balance (mc_balance (fst st))) freeze_credits) in
  apply_push st (SetBalance new_balance).

Definition queue_operation (mc : MutualCredit) (op : FriendTcOp) : queue_result :=
  match op with
  | RequestSendFunds r => queue_request_send_funds mc r
  | ResponseSendFunds r => queue_response_send_funds mc r
  | CancelSendFunds r => queue_cancel_send_funds mc r
  | CollectSendFunds r => queue_collect_send_funds mc r
  end.
End Outgoing.

(** ** Incoming operations ([incoming.rs]) *)

Inductive IncomingMessage :=
| IncomingRequest (r : RequestSendFundsOp)
| IncomingRequestCancel (r : RequestSendFundsOp)
| IncomingResponse (pending : PendingTransaction) (r : ResponseSendFundsOp)
| IncomingCancel (pending : PendingTransaction) (r : CancelSendFundsOp)
| IncomingCollect (pending : PendingTransaction) (r : CollectSendFundsOp).

Record ProcessOperationOutput := mkProcessOutput {
  po_incoming_message : option IncomingMessage;
  po_mc_mutations : list McMutation
}.

Inductive ProcessOperationError :=
| PInvalidRoute
| PCreditsCalcOverflow
| PRequestAlreadyExists
| PRequestDoesNotExist
| PInvalidResponseSignature
| PNotExpectingResponse
| PInvalidSrcPlainLock
| PInvalidDestPlainLock
| PNotExpectingCollect
| PDestPaymentExceedsTotal.

Record ProcessTransListError := mkProcessTransListError {
  ple_index : nat;
  ple_process_trans_error : ProcessOperationError
}.

Section Incoming.
Context `{CryptoOps}.
Notation process_result := (outcome ProcessOperationError (MutualCredit * ProcessOperationOutput)).

Definition process_request_send_funds (mc : MutualCredit) (r : RequestSendFundsOp)
    (remote_max_debt : Z) : process_result :=
  let? _ := guard_or (route_is_part_valid (rq_route r)) PInvalidRoute in
  let? _ := guard_or (negb (rq_total_dest_payment r <? rq_dest_payment r)) PDestPaymentExceedsTotal in
  let? _ := guard_or (bool_decide (pending_remote (mc_pending mc) !! rq_request_id r = None))
              PRequestAlreadyExists in
  let? own_freeze_credits :=
    ok_or (checked_u 128 (rq_dest_payment r + rq_left_fees r)) PCreditsCalcOverflow in
  let? new_remote_pending_debt :=
    ok_or (checked_u 128 (remote_pending_debt (mc_balance mc) + own_freeze_credits)) PCreditsCalcOverflow in
  let? add :=
    ok_or (SafeArith.checked_add_unsigned 128 (balance (mc_balance mc)) new_remote_pending_debt)
      PCreditsCalcOverflow in
  let? sub := ok_or (SafeArith.checked_sub_unsigned 128 add remote_max_debt) PCreditsCalcOverflow in
  let incoming_message := if 0 <? sub then IncomingRequestCancel r else IncomingRequest r in
  let? st := apply_push (mc, []) (InsertRemotePendingTransaction (create_pending_transaction r)) in
  let? st := apply_push st (SetRemotePendingDebt new_remote_pending_debt) in
  Ok (fst st, mkProcessOutput (Some incoming_message) (snd st)).

Definition incoming_dest_public_key (mc : MutualCredit) (p : PendingTransaction) : PublicKey :=
  match last (public_keys (pt_route p)) with
  | Some pk => pk
  | None => remote_public_key (mc_idents mc)
  end.

Definition process_response_send_funds (mc : MutualCredit) (r : ResponseSendFundsOp) : process_result :=
  let? p := ok_or (pending_local (mc_pending mc) !! rs_request_id r) PRequestDoesNotExist in
  let response_signature_buffer :=
    create_response_signature_buffer (mc_currency mc) (unsign_response r) p in
  let? _ := guard_or (verify_signature response_signature_buffer (incoming_dest_public_key mc p)
                        (rs_signature r)) PInvalidResponseSignature in
  let? _ := guard_or (match pt_stage p with StageRequest => true | _ => false end) PNotExpectingResponse in
  let? st := apply_push (mc, []) (SetLocalPendingTransactionStage (rs_request_id r)
                (StageResponse (rs_dest_hashed_lock r) (rs_is_complete r))) in
  Ok (fst st, mkProcessOutput (Some (IncomingResponse p r)) (snd st)).

Definition process_cancel_send_funds (mc : MutualCredit) (r : CancelSendFundsOp) : process_result :=
  let? p := ok_or (pending_local (mc_pending mc) !! cn_request_id r) PRequestDoesNotExist in
  let? st := apply_push (mc, []) (RemoveLocalPendingTransaction (cn_request_id r)) in
  let? freeze_credits := unwrap (checked_u 128 (pt_dest_payment p + pt_left_fees p)) in
  let? new_local_pending_debt :=
    unwrap (checked_u 128 (local_pending_debt (mc_balance (fst st)) - freeze_credits)) in
  let? st := apply_push st (SetLocalPendingDebt new_local_pending_debt) in
  Ok (fst st, mkProcessOutput (Some (IncomingCancel p r)) (snd st)).

Definition process_collect_send_funds (mc : MutualCredit) (r : CollectSendFundsOp) : process_result :=
  let? p := ok_or (pending_local (mc_pending mc) !! cl_request_id r) PRequestDoesNotExist in
  let? dest_hashed_lock :=
    match pt_stage p with
    | StageResponse dest_hashed_lock _ => Ok dest_hashed_lock
    | StageRequest => Err PNotExpectingCollect
    end in
  let? _ := guard_or (bool_decide (hash_lock (cl_src_plain_lock r) = pt_src_hashed_lock p))
              PInvalidSrcPlainLock in
  let? _ := guard_or (bool_decide (hash_lock (cl_dest_plain_lock r) = dest_hashed_lock))
              PInvalidDestPlainLock in
  let? freeze_credits := unwrap (checked_u 128 (pt_dest_payment p + pt_left_fees p)) in
  let? st := apply_push (mc, []) (RemoveLocalPendingTransaction (cl_request_id r)) in
  let? new_local_pending_debt :=
    unwrap (checked_u 128 (local_pending_debt (mc_balance (fst st)) - freeze_credits)) in
  let? st := apply_push st (SetLocalPendingDebt new_local_pending_debt) in
  let? new_balance :=
    unwrap (SafeArith.checked_sub_unsigned 128 (balance (mc_balance (fst st))) freeze_credits) in
  let? st := apply_push st (SetBalance new_balance) in
  Ok (fst st, mkProcessOutput (Some (IncomingCollect p r)) (snd st)).

Definition process_operation (mc : MutualCredit) (op : FriendTcOp) (remote_max_debt : Z) : process_result :=
  match op with
  | RequestSendFunds r => process_request_send_funds mc r remote_max_debt
  | ResponseSendFunds r => process_response_send_funds mc r
  | CancelSendFunds r => process_cancel_send_funds mc r
  | CollectSendFunds r => process_collect_send_funds mc r
  end.

(** The loop of [process_operations_list], with the index of the enumeration. *)
Fixpoint process_operations_from (index : nat) (mc : MutualCredit) (operations : list FriendTcOp)
    (remote_max_debt : Z) : outcome ProcessTransListError (MutualCredit * list ProcessOperationOutput) :=
  match operations with
  | [] => Ok (mc, [])
  | op :: rest =>
      let? res := map_err (mkProcessTransListError index) (process_operation mc op remote_max_debt) in
      let? res' := process_operations_from (S index) (fst res) rest remote_max_debt in
      Ok (fst res', snd res :: snd res')
  end.

Definition process_operations_list (mc : MutualCredit) (operations : list FriendTcOp)
    (remote_max_debt : Z) : outcome ProcessTransListError (MutualCredit * list ProcessOperationOutput) :=
  process_operations_from 0 mc operations remote_max_debt.
End Incoming.
