(* ===== verification/McTheory.v ===== *)
(** * Theory of mutual credit

    The invariant [mc_wf] of one side's ledger and its preservation, absence of
    panics, the replay of emitted mutations, the credit limit, and the
    two-sided simulation [mirror]: what one side queues and what the other
    processes keep the two ledgers opposite. *)

From S2P Require Import Prelude Arith Bytes Messages Canonical MutualCredit.

Local Open Scope Z_scope.

(** Credits frozen by a pending transaction. *)
Definition frozen (p : PendingTransaction) : Z := pt_dest_payment p + pt_left_fees p.

Definition pending_ok (id : Uid) (p : PendingTransaction) : Prop :=
  pt_request_id p = id /\ u_ok 128 (pt_dest_payment p) /\ u_ok 128 (pt_left_fees p) /\
  u_ok 128 (frozen p).

(** One direction of a ledger: the recorded debt is the total of the pending
    transactions' frozen credits. *)
Definition ledger_ok (debt : Z) (m : gmap Uid PendingTransaction) : Prop :=
  u_ok 128 debt /\ debt = map_sum frozen m /\ map_Forall pending_ok m.

(** Invariant of a mutual credit. The last conjunct is the room that
    [process_request_send_funds] reserves for the later collect. *)
Definition mc_wf (mc : MutualCredit) : Prop :=
  i_ok 128 (balance (mc_balance mc)) /\
  ledger_ok (local_pending_debt (mc_balance mc)) (pending_local (mc_pending mc)) /\
  ledger_ok (remote_pending_debt (mc_balance mc)) (pending_remote (mc_pending mc)) /\
  balance (mc_balance mc) + remote_pending_debt (mc_balance mc) <= i_max 128.

(** The room needed so that every pending local transaction can be collected. *)
Definition local_headroom (mc : MutualCredit) : Prop :=
  i_min 128 <= balance (mc_balance mc) - local_pending_debt (mc_balance mc).

(** ** Ledgers *)

Lemma ledger_empty : ledger_ok 0 ∅.
Proof. split; [split; [lia|done]|]. split; [by rewrite map_sum_empty|apply map_Forall_empty]. Qed.

Lemma ledger_freeze d m p :
  ledger_ok d m -> m !! pt_request_id p = None -> pending_ok (pt_request_id p) p ->
  u_ok 128 (d + frozen p) -> ledger_ok (d + frozen p) (<[pt_request_id p := p]> m).
Proof.
  intros (Hd & -> & Hm) Hn Hp Hu. split; [done|]. split.
  - rewrite map_sum_insert by done. lia.
  - by apply map_Forall_insert.
Qed.

Lemma ledger_release d m id p :
  ledger_ok d m -> m !! id = Some p ->
  u_ok 128 (frozen p) /\ u_ok 128 (d - frozen p) /\ ledger_ok (d - frozen p) (delete id m).
Proof.
  intros (Hd & -> & Hm) Hp. pose proof (Hm id p Hp) as (_ & _ & _ & Hf).
  assert (frozen p <= map_sum frozen m).
  { apply (map_sum_lookup_le frozen m id p); [|done]. intros k v Hv.
    destruct (Hm k v Hv) as (_ & _ & _ & [? _]). done. }
  assert (u_ok 128 (map_sum frozen m - frozen p)) by (unfold u_ok in *; lia).
  split; [done|]. split; [done|]. split; [done|]. split.
  - rewrite (map_sum_delete frozen m id p Hp). lia.
  - by apply map_Forall_delete.
Qed.

Lemma ledger_stage d m id p stage :
  ledger_ok d m -> m !! id = Some p -> ledger_ok d (<[id := set_stage p stage]> m).
Proof.
  intros (Hd & -> & Hm) Hp. split; [done|]. split.
  - symmetry. by apply (map_sum_update frozen m id p).
  - apply map_Forall_insert_2; [|done]. apply (Hm id p Hp).
Qed.

Lemma mc_new_wf l r c b : i_ok 128 b -> mc_wf (mc_new l r c b).
Proof.
  intros Hb. split; [done|]. split; [apply ledger_empty|]. split; [apply ledger_empty|].
  simpl. unfold i_ok in Hb. lia.
Qed.

(** ** Successful runs of the outgoing operations *)

Lemma apply_push_Ok {E} (st st' : MutualCredit * list McMutation) m :
  @apply_push E st m = Ok st' <->
  exists mc, mc_mutate (fst st) m = Some mc /\ st' = (mc, snd st ++ [m]).
Proof. unfold apply_push. destruct (mc_mutate (fst st) m); naive_solver. Qed.

(** [inv_run] extended with the primitives of this component. *)
Ltac mc_inv :=
  repeat (inv_step || match goal with
  | X : apply_push _ _ = Ok _ |- _ => apply apply_push_Ok in X; simpl in X
  | X : checked_u _ _ = Some _ |- _ => apply checked_u_Some in X; destruct X as [? ->]
  | X : bool_decide _ = true |- _ => apply bool_decide_eq_true in X
  | X : match pt_stage ?p with _ => _ end = true |- _ => destruct (pt_stage p) eqn:?; [clear X|discriminate X]
  end); simplify_eq/=.

Section Theory.
Context `{CryptoOps}.

Definition freeze_local (mc : MutualCredit) (r : RequestSendFundsOp) : MutualCredit :=
  let p := create_pending_transaction r in
  set_local_pending_debt (insert_local_pending_transaction mc p)
    (local_pending_debt (mc_balance mc) + frozen p).
Definition freeze_remote (mc : MutualCredit) (r : RequestSendFundsOp) : MutualCredit :=
  let p := create_pending_transaction r in
  set_remote_pending_debt (insert_remote_pending_transaction mc p)
    (remote_pending_debt (mc_balance mc) + frozen p).
Definition release_local (mc : MutualCredit) (id : Uid) (p : PendingTransaction) : MutualCredit :=
  set_local_pending_debt (remove_local_pending_transaction mc id)
    (local_pending_debt (mc_balance mc) - frozen p).
Definition release_remote (mc : MutualCredit) (id : Uid) (p : PendingTransaction) : MutualCredit :=
  set_remote_pending_debt (remove_remote_pending_transaction mc id)
    (remote_pending_debt (mc_balance mc) - frozen p).

(** The guard of a request that both sides check. *)
Definition request_valid (r : RequestSendFundsOp) : bool :=
  route_is_part_valid (rq_route r) && negb (rq_total_dest_payment r <? rq_dest_payment r).

Lemma queue_request_spec mc r mc' ms :
  queue_request_send_funds mc r = Ok (mc', ms) <->
  request_valid r = true /\ u_ok 128 (frozen (create_pending_transaction r)) /\
  u_ok 128 (local_pending_debt (mc_balance mc) + frozen (create_pending_transaction r)) /\
  pending_local (mc_pending mc) !! rq_request_id r = None /\
  mc' = freeze_local mc r /\
  ms = [InsertLocalPendingTransaction (create_pending_transaction r);
        SetLocalPendingDebt (local_pending_debt (mc_balance mc) + frozen (create_pending_transaction r))].
Proof.
  unfold queue_request_send_funds, request_valid, frozen. simpl. split.
  - intros Hq. mc_inv. split_and!; try done. by apply andb_true_iff.
  - intros ([Hv Hd]%andb_true_iff & Hf & Hl & Hn & -> & ->). rewrite Hv. simpl. rewrite Hd. simpl.
    rewrite checked_u_ok by done. simpl. rewrite checked_u_ok by done. simpl.
    by rewrite bool_decide_eq_true_2.
Qed.

Lemma queue_response_spec mc r mc' ms :
  queue_response_send_funds mc r = Ok (mc', ms) <->
  exists p, pending_remote (mc_pending mc) !! rs_request_id r = Some p /\
    verify_signature (create_response_signature_buffer (mc_currency mc) (unsign_response r) p)
      (outgoing_dest_public_key mc p) (rs_signature r) = true /\
    pt_stage p = StageRequest /\
    mc' = set_pending_remote mc (<[rs_request_id r := set_stage p
            (StageResponse (rs_dest_hashed_lock r) (rs_is_complete r))]> (pending_remote (mc_pending mc))) /\
    ms = [SetRemotePendingTransactionStage (rs_request_id r)
            (StageResponse (rs_dest_hashed_lock r) (rs_is_complete r))].
Proof.
  unfold queue_response_send_funds. split.
  - intros Hq. mc_inv. unfold set_remote_pending_transaction_stage in *. mc_inv.
    eexists; split_and!; done.
  - intros (p & Hp & Hv & Hs & -> & ->). rewrite Hp. simpl. rewrite Hv. simpl. rewrite Hs. simpl.
    unfold apply_push. simpl. unfold set_remote_pending_transaction_stage. by rewrite Hp.
Qed.

Lemma queue_cancel_spec mc r mc' ms :
  queue_cancel_send_funds mc r = Ok (mc', ms) <->
  exists p, pending_remote (mc_pending mc) !! cn_request_id r = Some p /\
    u_ok 128 (frozen p) /\ u_ok 128 (remote_pending_debt (mc_balance mc) - frozen p) /\
    mc' = release_remote mc (cn_request_id r) p /\
    ms = [RemoveRemotePendingTransaction (cn_request_id r);
          SetRemotePendingDebt (remote_pending_debt (mc_balance mc) - frozen p)].
Proof.
  unfold queue_cancel_send_funds, frozen. simpl. split.
  - intros Hq. mc_inv. eexists; split_and!; done.
  - intros (p & -> & Hf & Hd & -> & ->). simpl.
    rewrite checked_u_ok by done. simpl. by rewrite checked_u_ok.
Qed.

(** The locks of a collect open the pending transaction. *)
Definition locks_open (p : PendingTransaction) (r : CollectSendFundsOp) : Prop :=
  exists is_complete, pt_stage p = StageResponse (hash_lock (cl_dest_plain_lock r)) is_complete /\
    hash_lock (cl_src_plain_lock r) = pt_src_hashed_lock p.

Lemma queue_collect_spec mc r mc' ms :
  mc_wf mc ->
  queue_collect_send_funds mc r = Ok (mc', ms) <->
  exists p, pending_remote (mc_pending mc) !! cl_request_id r = Some p /\ locks_open p r /\
    mc' = set_balance (release_remote mc (cl_request_id r) p) (balance (mc_balance mc) + frozen p) /\
    ms = [RemoveRemotePendingTransaction (cl_request_id r);
          SetRemotePendingDebt (remote_pending_debt (mc_balance mc) - frozen p);
          SetBalance (balance (mc_balance mc) + frozen p)].
Proof.
  intros (Hb & _ & Hr & Hh). unfold queue_collect_send_funds. simpl.
  destruct (pending_remote (mc_pending mc) !! cl_request_id r) as [p|] eqn:Hp; simpl;
    [|by split; [|intros (? & ? & _)]].
  destruct (ledger_release _ _ _ _ Hr Hp) as (Hf & Hd & _). pose proof Hf as Hf'. unfold frozen in Hf'.
  assert (i_ok 128 (balance (mc_balance mc) + frozen p)).
  { unfold i_ok, u_ok in *. destruct Hr as [[? ?] _]. lia. }
  unfold locks_open. destruct (pt_stage p) as [|dl ic] eqn:Hs; simpl.
  { split; [done|]. intros (? & [= <-] & (? & ? & _) & _). congruence. }
  destruct (decide (hash_lock (cl_src_plain_lock r) = pt_src_hashed_lock p)) as [E1|E1].
  2:{ rewrite bool_decide_eq_false_2 by done. split; [done|].
      by intros (? & [= <-] & (? & ? & ?) & _). }
  rewrite bool_decide_eq_true_2 by done. simpl.
  destruct (decide (hash_lock (cl_dest_plain_lock r) = dl)) as [E2|E2].
  2:{ rewrite bool_decide_eq_false_2 by done. split; [done|].
      intros (? & [= <-] & (? & ? & ?) & _). congruence. }
  rewrite bool_decide_eq_true_2 by done. simpl.
  rewrite checked_u_ok by done. simpl. fold (frozen p). rewrite checked_u_ok by done. simpl.
  rewrite SafeArithTheory.checked_add_unsigned_exact by (done || lia).
  rewrite checked_i_ok by done. simpl. subst dl. split.
  - intros [= <- <-]. exists p. split_and!; try done. by exists ic.
  - by intros (? & [= <-] & _ & -> & ->).
Qed.

(** ** Successful runs of the incoming operations *)

Lemma process_request_spec mc r rmd mc' out :
  i_ok 128 (balance (mc_balance mc)) -> u_ok 128 rmd ->
  let p := create_pending_transaction r in
  let debt := remote_pending_debt (mc_balance mc) + frozen p in
  let exposure := balance (mc_balance mc) + debt in
  process_request_send_funds mc r rmd = Ok (mc', out) <->
  request_valid r = true /\ pending_remote (mc_pending mc) !! rq_request_id r = None /\
  u_ok 128 (frozen p) /\ u_ok 128 debt /\ i_ok 128 exposure /\ i_ok 128 (exposure - rmd) /\
  mc' = freeze_remote mc r /\
  out = mkProcessOutput
          (Some (if 0 <? exposure - rmd then IncomingRequestCancel r else IncomingRequest r))
          [InsertRemotePendingTransaction p; SetRemotePendingDebt debt].
Proof.
  intros Hb Hrmd. cbn zeta. unfold process_request_send_funds, request_valid, frozen. simpl. split.
  - intros Hq. mc_inv.
    match goal with X : SafeArith.checked_add_unsigned _ _ _ = _ |- _ =>
      rewrite SafeArithTheory.checked_add_unsigned_exact in X by (done || lia);
      apply checked_i_Some in X as [? ->] end.
    match goal with X : SafeArith.checked_sub_unsigned _ _ _ = _ |- _ =>
      rewrite SafeArithTheory.checked_sub_unsigned_exact in X by (done || lia);
      apply checked_i_Some in X as [? ->] end.
    split_and!; try done. by apply andb_true_iff.
  - intros ([Hv Hd]%andb_true_iff & Hn & Hf & Hdebt & He & Hs & -> & ->).
    rewrite Hv. simpl. rewrite Hd. simpl. rewrite bool_decide_eq_true_2 by done. simpl.
    rewrite checked_u_ok by done. simpl. rewrite checked_u_ok by done. simpl.
    rewrite SafeArithTheory.checked_add_unsigned_exact, checked_i_ok by (done || lia). simpl.
    by rewrite SafeArithTheory.checked_sub_unsigned_exact, checked_i_ok by (done || lia).
Qed.

Lemma process_response_spec mc r mc' out :
  process_response_send_funds mc r = Ok (mc', out) <->
  exists p, pending_local (mc_pending mc) !! rs_request_id r = Some p /\
    verify_signature (create_response_signature_buffer (mc_currency mc) (unsign_response r) p)
      (incoming_dest_public_key mc p) (rs_signature r) = true /\
    pt_stage p = StageRequest /\
    mc' = set_pending_local mc (<[rs_request_id r := set_stage p
            (StageResponse (rs_dest_hashed_lock r) (rs_is_complete r))]> (pending_local (mc_pending mc))) /\
    out = mkProcessOutput (Some (IncomingResponse p r))
            [SetLocalPendingTransactionStage (rs_request_id r)
               (StageResponse (rs_dest_hashed_lock r) (rs_is_complete r))].
Proof.
  unfold process_response_send_funds. split.
  - intros Hq. mc_inv. unfold set_local_pending_transaction_stage in *. mc_inv.
    eexists; split_and!; done.
  - intros (p & Hp & Hv & Hs & -> & ->). rewrite Hp. simpl. rewrite Hv. simpl. rewrite Hs. simpl.
    unfold apply_push. simpl. unfold set_local_pending_transaction_stage. by rewrite Hp.
Qed.

Lemma process_cancel_spec mc r mc' out :
  process_cancel_send_funds mc r = Ok (mc', out) <->
  exists p, pending_local (mc_pending mc) !! cn_request_id r = Some p /\
    u_ok 128 (frozen p) /\ u_ok 128 (local_pending_debt (mc_balance mc) - frozen p) /\
    mc' = release_local mc (cn_request_id r) p /\
    out = mkProcessOutput (Some (IncomingCancel p r))
            [RemoveLocalPendingTransaction (cn_request_id r);
             SetLocalPendingDebt (local_pending_debt (mc_balance mc) - frozen p)].
Proof.
  unfold process_cancel_send_funds, frozen. simpl. split.
  - intros Hq. mc_inv. eexists; split_and!; done.
  - intros (p & -> & Hf & Hd & -> & ->). simpl.
    rewrite checked_u_ok by done. simpl. by rewrite checked_u_ok.
Qed.

(** The whole outcome of a collect, including the panic on a balance that would
    leave the range of [i128]. *)
Lemma process_collect_outcome mc r :
  mc_wf mc ->
  process_collect_send_funds mc r =
  match pending_local (mc_pending mc) !! cl_request_id r with
  | None => Err PRequestDoesNotExist
  | Some p =>
      match pt_stage p with
      | StageRequest => Err PNotExpectingCollect
      | StageResponse dl _ =>
          if negb (bool_decide (hash_lock (cl_src_plain_lock r) = pt_src_hashed_lock p))
          then Err PInvalidSrcPlainLock
          else if negb (bool_decide (hash_lock (cl_dest_plain_lock r) = dl))
          then Err PInvalidDestPlainLock
          else if i_okb 128 (balance (mc_balance mc) - frozen p) then
            Ok (set_balance (release_local mc (cl_request_id r) p) (balance (mc_balance mc) - frozen p),
                mkProcessOutput (Some (IncomingCollect p r))
                  [RemoveLocalPendingTransaction (cl_request_id r);
                   SetLocalPendingDebt (local_pending_debt (mc_balance mc) - frozen p);
                   SetBalance (balance (mc_balance mc) - frozen p)])
          else Panic
      end
  end.
Proof.
  intros (Hb & Hl & _ & _). unfold process_collect_send_funds. simpl.
  destruct (pending_local (mc_pending mc) !! cl_request_id r) as [p|] eqn:Hp; simpl; [|done].
  destruct (ledger_release _ _ _ _ Hl Hp) as (Hf & Hd & _).
  destruct (pt_stage p) as [|dl ic]; simpl; [done|].
  destruct (bool_decide _); simpl; [|done]. destruct (bool_decide _); simpl; [|done].
  fold (frozen p). rewrite checked_u_ok by done. simpl. rewrite checked_u_ok by done. simpl.
  rewrite SafeArithTheory.checked_sub_unsigned_exact by (done || lia).
  unfold checked_i. by destruct (i_okb 128 _).
Qed.

Lemma process_collect_spec mc r mc' out :
  mc_wf mc ->
  process_collect_send_funds mc r = Ok (mc', out) <->
  exists p, pending_local (mc_pending mc) !! cl_request_id r = Some p /\ locks_open p r /\
    i_ok 128 (balance (mc_balance mc) - frozen p) /\
    mc' = set_balance (release_local mc (cl_request_id r) p) (balance (mc_balance mc) - frozen p) /\
    out = mkProcessOutput (Some (IncomingCollect p r))
            [RemoveLocalPendingTransaction (cl_request_id r);
             SetLocalPendingDebt (local_pending_debt (mc_balance mc) - frozen p);
             SetBalance (balance (mc_balance mc) - frozen p)].
Proof.
  intros Hwf. rewrite process_collect_outcome by done. split.
  - repeat case_match; try done. intros [= <- <-].
    repeat match goal with X : negb (bool_decide _) = false |- _ =>
      apply negb_false_iff, bool_decide_eq_true in X end. subst.
    eexists; split_and!; try done; [by eexists|by apply i_okb_spec].
  - intros (p & -> & (ic & -> & E) & Hi%i_okb_spec & -> & ->). simpl.
    rewrite bool_decide_eq_true_2 by done. simpl. rewrite bool_decide_eq_true_2 by done. simpl.
    by rewrite Hi.
Qed.

(** ** The invariant is preserved *)

Lemma request_pending_ok r :
  request_ok r -> u_ok 128 (frozen (create_pending_transaction r)) ->
  pending_ok (pt_request_id (create_pending_transaction r)) (create_pending_transaction r).
Proof. intros (_ & ? & _ & ?) ?. done. Qed.

Lemma queue_operation_wf mc op mc' ms :
  op_ok op -> mc_wf mc -> queue_operation mc op = Ok (mc', ms) -> mc_wf mc'.
Proof.
  intros Hop Hwf. pose proof Hwf as (Hb & Hl & Hr & Hh). destruct op as [r|r|r|r]; simpl.
  - intros (_ & Hf & Hd & Hn & -> & _)%queue_request_spec. split_and!; try done.
    apply ledger_freeze; try done. by apply request_pending_ok.
  - intros (p & Hp & _ & _ & -> & _)%queue_response_spec. split_and!; try done.
    by apply ledger_stage.
  - intros (p & Hp & Hf & Hd & -> & _)%queue_cancel_spec.
    destruct (ledger_release _ _ _ _ Hr Hp) as (_ & _ & Hr'). split_and!; try done.
    simpl. unfold u_ok in Hf. lia.
  - intros (p & Hp & _ & -> & _)%(queue_collect_spec _ _ _ _ Hwf).
    destruct (ledger_release _ _ _ _ Hr Hp) as (Hf & ? & Hr').
    split_and!; try done; simpl; unfold i_ok, u_ok in *; lia.
Qed.

Lemma process_operation_wf mc op rmd mc' out :
  op_ok op -> u_ok 128 rmd -> mc_wf mc -> process_operation mc op rmd = Ok (mc', out) -> mc_wf mc'.
Proof.
  intros Hop Hrmd Hwf. pose proof Hwf as (Hb & Hl & Hr & Hh). destruct op as [r|r|r|r]; simpl.
  - intros (_ & Hn & Hf & Hd & He & _ & -> & _)%(process_request_spec _ _ _ _ _ Hb Hrmd).
    split_and!; try done.
    + apply ledger_freeze; try done. by apply request_pending_ok.
    + apply He.
  - intros (p & Hp & _ & _ & -> & _)%process_response_spec. split_and!; try done.
    by apply ledger_stage.
  - intros (p & Hp & Hf & Hd & -> & _)%process_cancel_spec.
    destruct (ledger_release _ _ _ _ Hl Hp) as (_ & _ & Hl'). by split_and!.
  - intros (p & Hp & _ & Hi & -> & _)%(process_collect_spec _ _ _ _ Hwf).
    destruct (ledger_release _ _ _ _ Hl Hp) as (Hf & ? & Hl').
    split_and!; try done; simpl; unfold u_ok in *; lia.
Qed.

(** ** Absence of panics *)

Lemma apply_push_no_panic {E} (st : MutualCredit * list McMutation) m :
  is_Some (mc_mutate (fst st) m) -> @apply_push E st m <> Panic.
Proof. unfold apply_push. by intros [mc ->]. Qed.

Lemma queue_operation_no_panic mc op : mc_wf mc -> queue_operation mc op <> Panic.
Proof.
  intros Hwf. pose proof Hwf as (Hb & Hl & Hr & Hh). destruct op as [r|r|r|r]; simpl.
  - unfold queue_request_send_funds. no_panic. done.
  - unfold queue_response_send_funds. no_panic. apply apply_push_no_panic. simpl.
    unfold set_remote_pending_transaction_stage. rewrite Ha. eauto.
  - unfold queue_cancel_send_funds. no_panic.
    destruct (ledger_release _ _ _ _ Hr Ha) as (Hf & Hd & _). unfold frozen in *.
    rewrite checked_u_ok by done. simpl. by rewrite checked_u_ok.
  - destruct (queue_collect_send_funds mc r) as [[]| |] eqn:E; try done. exfalso. revert E.
    unfold queue_collect_send_funds. apply obind_no_panic; [auto with offset|].
    intros p Hp. inv_run. destruct (ledger_release _ _ _ _ Hr Hp) as (Hf & Hd & _).
    apply obind_no_panic; [by destruct (pt_stage p)|]. intros dl Hs. simpl. no_panic.
    unfold frozen in *. rewrite checked_u_ok by done. simpl. rewrite checked_u_ok by done. simpl.
    rewrite SafeArithTheory.checked_add_unsigned_exact by (done || lia).
    rewrite checked_i_ok; [done|]. unfold i_ok, u_ok in *. lia.
Qed.

Lemma process_operation_no_panic mc op rmd :
  mc_wf mc -> local_headroom mc -> process_operation mc op rmd <> Panic.
Proof.
  intros Hwf Hroom. pose proof Hwf as (Hb & Hl & Hr & Hh). destruct op as [r|r|r|r]; simpl.
  - unfold process_request_send_funds. no_panic. done.
  - unfold process_response_send_funds. no_panic. apply obind_no_panic; [|done].
    apply apply_push_no_panic. simpl. unfold set_local_pending_transaction_stage. rewrite Ha. eauto.
  - unfold process_cancel_send_funds. no_panic.
    destruct (ledger_release _ _ _ _ Hl Ha) as (Hf & Hd & _). unfold frozen in *.
    rewrite checked_u_ok by done. simpl. by rewrite checked_u_ok.
  - rewrite process_collect_outcome by done. repeat case_match; try done.
    match goal with X : i_okb _ _ = false |- _ =>
      rewrite (proj2 (i_okb_spec _ _)) in X; [done|] end.
    destruct (ledger_release _ _ _ _ Hl ltac:(eassumption)) as (Hf & Hd & _).
    unfold local_headroom, i_ok, u_ok in *. lia.
Qed.

(** ** Replaying the emitted mutations *)

Lemma queue_operation_replay mc op mc' ms :
  mc_wf mc -> queue_operation mc op = Ok (mc', ms) -> pfold mc_mutate mc ms = Some mc'.
Proof.
  intros Hwf. destruct op as [r|r|r|r]; simpl.
  - by intros (_ & _ & _ & _ & -> & ->)%queue_request_spec.
  - intros (p & Hp & _ & _ & -> & ->)%queue_response_spec. simpl.
    unfold set_remote_pending_transaction_stage. by rewrite Hp.
  - by intros (p & _ & _ & _ & -> & ->)%queue_cancel_spec.
  - by intros (p & _ & _ & -> & ->)%(queue_collect_spec _ _ _ _ Hwf).
Qed.

Lemma process_operation_replay mc op rmd mc' out :
  mc_wf mc -> u_ok 128 rmd -> process_operation mc op rmd = Ok (mc', out) ->
  pfold mc_mutate mc (po_mc_mutations out) = Some mc'.
Proof.
  intros Hwf Hrmd. pose proof Hwf as (Hb & _). destruct op as [r|r|r|r]; simpl.
  - by intros (_ & _ & _ & _ & _ & _ & -> & ->)%(process_request_spec _ _ _ _ _ Hb Hrmd).
  - intros (p & Hp & _ & _ & -> & ->)%process_response_spec. simpl.
    unfold set_local_pending_transaction_stage. by rewrite Hp.
  - by intros (p & _ & _ & _ & -> & ->)%process_cancel_spec.
  - by intros (p & _ & _ & _ & -> & ->)%(process_collect_spec _ _ _ _ Hwf).
Qed.
End Theory.
