(* ===== verification/McPair.v ===== *)
(** * Two sides of a mutual credit

    The properties of [mutual_credit] that concern one ledger over any
    sequence of operations, and the pair of ledgers kept by two friends:
    whatever one side queues, the other side processes into the opposite
    ledger. *)

From S2P Require Import Prelude Arith Bytes Messages Canonical MutualCredit McTheory.
From Stdlib Require Import Strings.Byte.

Local Open Scope Z_scope.

(** The same ledger from the friend's point of view. *)
Definition flip_mc (mc : MutualCredit) : MutualCredit :=
  mkMutualCredit
    (mkMcIdents (remote_public_key (mc_idents mc)) (local_public_key (mc_idents mc)))
    (mc_currency mc)
    (mkMcBalance (- balance (mc_balance mc)) (remote_pending_debt (mc_balance mc))
       (local_pending_debt (mc_balance mc)))
    (mkMcPending (pending_remote (mc_pending mc)) (pending_local (mc_pending mc))).

Lemma flip_mc_involutive mc : flip_mc (flip_mc mc) = mc.
Proof. destruct mc as [[] ? [] []]. unfold flip_mc. simpl. do 2 f_equal. lia. Qed.

(** An invariant ledger always leaves its friend the room to collect. *)
Lemma flip_mc_headroom mc : mc_wf mc -> local_headroom (flip_mc mc).
Proof.
  intros (_ & _ & _ & Hh). unfold local_headroom, i_min. simpl. unfold i_max in Hh. lia.
Qed.

Section Pair.
Context `{CryptoOps}.

(** Queueing a batch, operation by operation. *)
Fixpoint queue_operations (mc : MutualCredit) (ops : list FriendTcOp)
    : outcome QueueOperationError (MutualCredit * list McMutation) :=
  match ops with
  | [] => Ok (mc, [])
  | op :: rest =>
      let? res := queue_operation mc op in
      let? res' := queue_operations (fst res) rest in
      Ok (fst res', snd res ++ snd res')
  end.

Lemma queue_operations_replay mc ops mc' ms :
  Forall op_ok ops -> mc_wf mc -> queue_operations mc ops = Ok (mc', ms) ->
  mc_wf mc' /\ pfold mc_mutate mc ms = Some mc'.
Proof.
  intros Hops. revert mc ms. induction Hops as [|op ops Hop _ IH]; intros mc ms Hwf Hq; simpl in Hq.
  - by simplify_eq.
  - inv_run. destruct x as [mc1 ms1], x0 as [mc2 ms2]; simplify_eq/=.
    destruct (IH mc1 ms2) as [Hwf' Hr]; [by eapply queue_operation_wf|done|]. split; [done|].
    rewrite pfold_app. by erewrite queue_operation_replay.
Qed.

Lemma process_operations_replay i mc ops rmd mc' outs :
  Forall op_ok ops -> u_ok 128 rmd -> mc_wf mc ->
  process_operations_from i mc ops rmd = Ok (mc', outs) ->
  mc_wf mc' /\ pfold mc_mutate mc (concat (map po_mc_mutations outs)) = Some mc'.
Proof.
  intros Hops Hrmd. revert i mc outs.
  induction Hops as [|op ops Hop _ IH]; intros i mc outs Hwf Hq; simpl in Hq.
  - by simplify_eq.
  - inv_run. destruct (process_operation mc op rmd) as [[mc1 out]| |] eqn:E; simplify_eq/=.
    destruct x0 as [mc2 outs']; simplify_eq/=.
    destruct (IH (S i) mc1 outs') as [Hwf' Hr]; [by eapply process_operation_wf|done|]. split; [done|].
    rewrite pfold_app. by erewrite process_operation_replay.
Qed.

(** ** Simulation of one operation *)

(** Two friends' ledgers for the same currency. *)
Definition mc_pair (a b : MutualCredit) : Prop := mc_wf a /\ mc_wf b /\ b = flip_mc a.

Lemma mc_pair_sym a b : mc_pair a b -> mc_pair b a.
Proof. intros (Ha & Hb & ->). split_and!; try done. by rewrite flip_mc_involutive. Qed.

(** A request that passed the sender's checks fails on the receiving side only
    by overflow. *)
Lemma process_request_outcome a b r rmd a' ms :
  mc_pair a b -> u_ok 128 rmd -> queue_request_send_funds a r = Ok (a', ms) ->
  (exists out, process_request_send_funds b r rmd = Ok (flip_mc a', out)) \/
  process_request_send_funds b r rmd = Err PCreditsCalcOverflow.
Proof.
  intros (_ & (Hb & _) & ->) Hrmd ([Hv Hd]%andb_true_iff & Hf & Hl & Hn & -> & _)%queue_request_spec.
  unfold process_request_send_funds. simpl in *. rewrite Hv. simpl. rewrite Hd. simpl.
  rewrite bool_decide_eq_true_2 by done. simpl.
  rewrite checked_u_ok by done. simpl. rewrite checked_u_ok by done. simpl.
  rewrite SafeArithTheory.checked_add_unsigned_exact by (done || lia).
  destruct (checked_i 128 _) as [e|] eqn:E1; simpl; [|by right].
  apply checked_i_Some in E1 as [E1 ->].
  rewrite SafeArithTheory.checked_sub_unsigned_exact by (done || lia).
  destruct (checked_i 128 _) as [e|] eqn:E2; simpl; [|by right]. left. by eexists.
Qed.

Lemma pair_queue_process a b op rmd a' ms :
  mc_pair a b -> op_ok op -> u_ok 128 rmd -> queue_operation a op = Ok (a', ms) ->
  (exists out, process_operation b op rmd = Ok (flip_mc a', out)) \/
  (process_operation b op rmd = Err PCreditsCalcOverflow /\ exists r, op = RequestSendFunds r).
Proof.
  intros Hp Hop Hrmd. pose proof Hp as (Ha & Hb & ->). destruct op as [r|r|r|r]; simpl; intros Hq.
  - destruct (process_request_outcome _ _ r rmd a' ms Hp Hrmd Hq); eauto.
  - apply queue_response_spec in Hq as (p & Hpd & Hv & Hs & -> & _). left. eexists.
    apply process_response_spec. by eexists p.
  - apply queue_cancel_spec in Hq as (p & Hpd & Hf & Hd & -> & _). left. eexists.
    apply process_cancel_spec. by eexists p.
  - pose proof (queue_operation_wf a (CollectSendFunds r) a' ms Hop Ha Hq) as (Hb' & _).
    apply (queue_collect_spec _ _ _ _ Ha) in Hq as (p & Hpd & Hl & -> & _). left. eexists.
    apply (process_collect_spec _ _ _ _ Hb). exists p. split_and!; try done.
    + destruct (ledger_release _ _ _ _ (proj1 (proj2 (proj2 Ha))) Hpd) as (Hf & _).
      pose proof Ha as (_ & _ & _ & Hh). destruct Hb as (Hbb & _).
      destruct (ledger_release _ _ _ _ (proj1 (proj2 (proj2 Ha))) Hpd) as (_ & Hd & _).
      simpl in *. unfold i_ok, u_ok, i_min, i_max in *. lia.
    + unfold flip_mc, set_balance, with_balance. simpl. do 2 f_equal. lia.
Qed.

Lemma pair_process_queue a b op rmd b' out :
  mc_pair a b -> op_ok op -> u_ok 128 rmd -> process_operation b op rmd = Ok (b', out) ->
  exists ms, queue_operation a op = Ok (flip_mc b', ms).
Proof.
  intros (Ha & Hb & ->) Hop Hrmd. destruct op as [r|r|r|r]; simpl; intros Hq.
  - apply (process_request_spec _ _ _ _ _ (proj1 Hb) Hrmd) in Hq as (Hv & Hn & Hf & Hd & _ & _ & -> & _).
    eexists. apply queue_request_spec. simpl in *. split_and!; try done.
    destruct a as [[] ? [] []]. unfold flip_mc, freeze_local, set_local_pending_debt, with_balance. simpl.
    do 2 f_equal. lia.
  - apply process_response_spec in Hq as (p & Hpd & Hv & Hs & -> & _). eexists.
    apply queue_response_spec. exists p. split_and!; try done.
    destruct a as [[] ? [] []]. unfold flip_mc. simpl. unfold set_pending_remote, with_pending. simpl.
    f_equal. f_equal. lia.
  - apply process_cancel_spec in Hq as (p & Hpd & Hf & Hd & -> & _). eexists.
    apply queue_cancel_spec. exists p. split_and!; try done.
    destruct a as [[] ? [] []]. unfold flip_mc, release_remote, set_remote_pending_debt, with_balance. simpl.
    do 2 f_equal. lia.
  - apply (process_collect_spec _ _ _ _ Hb) in Hq as (p & Hpd & Hl & Hi & -> & _). eexists.
    apply (queue_collect_spec _ _ _ _ Ha). exists p. split_and!; try done.
    destruct a as [[] ? [] []]. unfold flip_mc, release_remote, set_balance, with_balance. simpl.
    do 2 f_equal. lia.
Qed.

(** ** Reachable ledgers *)

(** One side's ledger under its own operations and those of an arbitrary
    friend, which only have to pass this side's checks. *)
Inductive mc_step : MutualCredit -> MutualCredit -> Prop :=
| mc_step_queue mc op mc' ms :
    op_ok op -> queue_operation mc op = Ok (mc', ms) -> mc_step mc mc'
| mc_step_process mc op rmd mc' out :
    op_ok op -> u_ok 128 rmd -> process_operation mc op rmd = Ok (mc', out) -> mc_step mc mc'.

Lemma mc_steps_wf mc mc' : rtc mc_step mc mc' -> mc_wf mc -> mc_wf mc'.
Proof.
  induction 1 as [|mc1 mc2 mc3 [] _ IH]; intros Hwf; [done|..]; apply IH;
    eauto using queue_operation_wf, process_operation_wf.
Qed.

(** Two honest friends: each operation queued by one side is processed by the
    other under some credit limit. *)
Inductive pair_step : MutualCredit * MutualCredit -> MutualCredit * MutualCredit -> Prop :=
| pair_step_ab a b op rmd a' ms b' out :
    op_ok op -> u_ok 128 rmd -> queue_operation a op = Ok (a', ms) ->
    process_operation b op rmd = Ok (b', out) -> pair_step (a, b) (a', b')
| pair_step_ba a b op rmd a' out b' ms :
    op_ok op -> u_ok 128 rmd -> queue_operation b op = Ok (b', ms) ->
    process_operation a op rmd = Ok (a', out) -> pair_step (a, b) (a', b').

Lemma pair_step_one a b op rmd a' ms b' out :
  mc_pair a b -> op_ok op -> u_ok 128 rmd -> queue_operation a op = Ok (a', ms) ->
  process_operation b op rmd = Ok (b', out) -> mc_pair a' b'.
Proof.
  intros Hp Hop Hrmd Hq Hpr. pose proof Hp as (Ha & Hb & _).
  split; [exact (queue_operation_wf _ _ _ _ Hop Ha Hq)|].
  split; [exact (process_operation_wf _ _ _ _ _ Hop Hrmd Hb Hpr)|].
  destruct (pair_queue_process _ _ _ _ _ _ Hp Hop Hrmd Hq) as [[out' E]|[E _]]; congruence.
Qed.

Lemma pair_steps_pair p p' :
  rtc pair_step p p' -> mc_pair (fst p) (snd p) -> mc_pair (fst p') (snd p').
Proof.
  induction 1 as [|? ? ? [] _ IH]; intros Hp; [done|..]; apply IH; simpl in *.
  - by eapply pair_step_one.
  - apply mc_pair_sym. eapply pair_step_one; [by apply mc_pair_sym|done..].
Qed.

(** Batches. *)
Lemma pair_batch a b ops rmd i a' ms :
  mc_pair a b -> Forall op_ok ops -> u_ok 128 rmd -> queue_operations a ops = Ok (a', ms) ->
  (exists outs, process_operations_from i b ops rmd = Ok (flip_mc a', outs) /\ mc_pair a' (flip_mc a')) \/
  (exists j r, process_operations_from i b ops rmd = Err (mkProcessTransListError (i + j) PCreditsCalcOverflow) /\
     ops !! j = Some (RequestSendFunds r)).
Proof.
  intros Hp Hops Hrmd. revert a b i ms Hp. induction Hops as [|op ops Hop _ IH]; intros a b i ms Hp Hq; simpl in Hq.
  - simplify_eq. left. exists []. destruct Hp as (? & ? & ->). done.
  - apply obind_Ok in Hq as ([a1 ms1] & Hq1 & Hq). apply obind_Ok in Hq as ([a2 ms2] & Hq2 & Hq).
    simplify_eq/=. destruct (pair_queue_process _ _ _ _ _ _ Hp Hop Hrmd Hq1) as [[out E]|[E [r ->]]].
    + rewrite E. simpl.
      destruct (IH a1 (flip_mc a1) (S i) ms2) as [(outs & -> & ?)|(j & r & -> & Hj)];
        [by eapply pair_step_one|done|..].
      * left. by eexists.
      * right. exists (S j), r. simpl. split; [do 2 f_equal; lia|done].
    + simpl in *. rewrite E. right. exists 0%nat, r. simpl. split; [do 2 f_equal; lia|done].
Qed.
End Pair.

(** ** Properties *)

(** C35. Ledger invariant: from a new mutual credit with any balance, whatever
    operations this side queues and whatever the friend makes it process, the
    balance stays an [i128], each pending debt equals the sum of the credits
    frozen by the transactions pending in its direction, and the balance plus
    the friend's pending debt still fits in an [i128]. *)
Theorem mutual_credit_invariant `{CryptoOps} (local remote : PublicKey) (c : Currency) (b : Z)
  (mc : MutualCredit) (Hb : i_ok 128 b) (Hr : rtc mc_step (mc_new local remote c b) mc) :
  mc_wf mc.
Proof. eapply mc_steps_wf; [done|]. by apply mc_new_wf. Qed.

(** Queueing never panics in a reachable state: every [unwrap] of
    [outgoing.rs] holds, for any operation, whatever the friend did before. *)
Theorem queue_never_panics `{CryptoOps} (local remote : PublicKey) (c : Currency) (b : Z)
  (mc : MutualCredit) (op : FriendTcOp)
  (Hb : i_ok 128 b) (Hr : rtc mc_step (mc_new local remote c b) mc) :
  queue_operation mc op <> Panic.
Proof. apply queue_operation_no_panic. eapply mc_steps_wf; [done|]. by apply mc_new_wf. Qed.

(** Simulation of one operation between two friends with opposite ledgers:
    if one side can queue it, the other side processes it into the opposite
    ledger, or refuses a request because of overflow; and what one side cannot
    queue, the other side refuses. Neither side panics. *)
Theorem queue_process_simulation `{CryptoOps} (a b : MutualCredit) (op : FriendTcOp) (rmd : Z)
  (Hp : mc_pair a b) (Hop : op_ok op) (Hrmd : u_ok 128 rmd) :
  match queue_operation a op, process_operation b op rmd with
  | Ok (a', _), Ok (b', _) => mc_pair a' b'
  | Ok _, Err e => e = PCreditsCalcOverflow /\ exists r, op = RequestSendFunds r
  | Err _, Err _ => True
  | _, _ => False
  end.
Proof.
  pose proof Hp as (Ha & Hb & Heq).
  pose proof (queue_operation_no_panic a op Ha).
  assert (process_operation b op rmd <> Panic).
  { apply process_operation_no_panic; [done|]. rewrite Heq. by apply flip_mc_headroom. }
  destruct (queue_operation a op) as [[a' ms]|qe|] eqn:Eq; [| |done];
    destruct (process_operation b op rmd) as [[b' out]|pe|] eqn:Ep; try done.
  - by eapply pair_step_one.
  - destruct (pair_queue_process _ _ _ _ _ _ Hp Hop Hrmd Eq) as [[? E]|[E ?]]; [congruence|].
    rewrite Ep in E. by injection E as ->.
  - destruct (pair_process_queue _ _ _ _ _ _ Hp Hop Hrmd Ep) as [? E]. congruence.
Qed.

(** For two honest friends, in every state reachable by exchanging
    operations in any order the two ledgers are opposite (the balances sum to
    zero and each side's local pending debt and transactions are the other's
    remote ones) and processing any operation does not panic: the [unwrap]s of
    [incoming.rs] hold. *)
Theorem honest_pair_opposite `{CryptoOps} (pk1 pk2 : PublicKey) (c : Currency) (v : Z)
  (a b : MutualCredit) (op : FriendTcOp) (rmd : Z)
  (Hv : - 2 ^ 127 < v < 2 ^ 127)
  (Hr : rtc pair_step (mc_new pk1 pk2 c v, mc_new pk2 pk1 c (- v)) (a, b)) :
  b = flip_mc a /\ balance (mc_balance a) + balance (mc_balance b) = 0 /\
  process_operation a op rmd <> Panic /\ process_operation b op rmd <> Panic.
Proof.
  assert (mc_pair a b) as (Ha & Hb & ->).
  { apply (pair_steps_pair _ _ Hr). split; [|split]; [apply mc_new_wf..|done];
      unfold i_ok, i_min, i_max; simpl; lia. }
  split_and!; [done|simpl; lia|..]; apply process_operation_no_panic; try done.
  - rewrite <- (flip_mc_involutive a). by apply flip_mc_headroom.
  - by apply flip_mc_headroom.
Qed.

(** C2. A batch queued by one side is processed by the other side into the
    opposite ledger; the only possible refusal is the overflow of a request,
    reported with that request's index in the batch. *)
Theorem batch_simulation `{CryptoOps} (a b : MutualCredit) (ops : list FriendTcOp) (rmd : Z)
  (a' : MutualCredit) (ms : list McMutation)
  (Hp : mc_pair a b) (Hops : Forall op_ok ops) (Hrmd : u_ok 128 rmd)
  (Hq : queue_operations a ops = Ok (a', ms)) :
  match process_operations_list b ops rmd with
  | Ok (b', _) => mc_pair a' b'
  | Err e => ple_process_trans_error e = PCreditsCalcOverflow /\
             exists r, ops !! ple_index e = Some (RequestSendFunds r)
  | Panic => False
  end.
Proof.
  unfold process_operations_list.
  destruct (pair_batch a b ops rmd 0 a' ms Hp Hops Hrmd Hq) as [(outs & -> & ?)|(j & r & -> & Hj)];
    [done|eauto].
Qed.

(** The mutations emitted by a batch, replayed on the original ledger,
    rebuild exactly the ledger the batch computed: a side that applies the
    mutations of a simulated run ends in the simulated state. *)
Theorem batch_mutations_replay `{CryptoOps} (mc : MutualCredit) (ops : list FriendTcOp) (rmd : Z)
  (Hwf : mc_wf mc) (Hops : Forall op_ok ops) (Hrmd : u_ok 128 rmd) :
  match queue_operations mc ops with
  | Ok (mc', ms) => pfold mc_mutate mc ms = Some mc'
  | _ => True
  end /\
  match process_operations_list mc ops rmd with
  | Ok (mc', outs) => pfold mc_mutate mc (concat (map po_mc_mutations outs)) = Some mc'
  | _ => True
  end.
Proof.
  split.
  - destruct (queue_operations mc ops) as [[mc' ms]| |] eqn:E; try done.
    by eapply queue_operations_replay.
  - destruct (process_operations_list mc ops rmd) as [[mc' outs]| |] eqn:E; try done.
    by eapply process_operations_replay.
Qed.

(** What a friend owes us if all its pending requests are collected. *)
Definition exposure (mc : MutualCredit) : Z := balance (mc_balance mc) + remote_pending_debt (mc_balance mc).

(** Credit limit: an incoming request is passed on exactly when the
    friend's debt, counting everything pending including this request, stays
    within the limit this side set for the friend; otherwise it is frozen too,
    but marked to be cancelled. *)
Theorem credit_limit_enforced `{CryptoOps} (mc mc' : MutualCredit) (r : RequestSendFundsOp) (rmd : Z)
  (out : ProcessOperationOutput) :
  mc_wf mc -> u_ok 128 rmd -> process_operation mc (RequestSendFunds r) rmd = Ok (mc', out) ->
  pending_remote (mc_pending mc') !! rq_request_id r = Some (create_pending_transaction r) /\
  po_incoming_message out =
    Some (if exposure mc' <=? rmd then IncomingRequest r else IncomingRequestCancel r).
Proof.
  intros Hwf Hrmd Hp. apply (process_request_spec _ _ _ _ _ (proj1 Hwf) Hrmd) in Hp as (_ & _ & _ & _ & _ & _ & -> & ->).
  unfold exposure. simpl. split; [apply lookup_insert_eq|]. f_equal.
  destruct (Z.ltb_spec 0 (balance (mc_balance mc) + (remote_pending_debt (mc_balance mc)
    + frozen (create_pending_transaction r)) - rmd));
  destruct (Z.leb_spec (balance (mc_balance mc) + (remote_pending_debt (mc_balance mc)
    + frozen (create_pending_transaction r))) rmd); (done || lia).
Qed.

(** ** Concrete runs *)
Module McSamples.
Import Toy.

Definition pk_a : PublicKey := fixed_of_prefix 32 [x0a].
Definition pk_b : PublicKey := fixed_of_prefix 32 [x0b].
Definition fst_currency : Currency := mkCurrency "FST".
Definition src_lock : PlainLock := fixed_of_prefix 32 [x03].
Definition dest_lock : PlainLock := fixed_of_prefix 32 [x04].

Definition request_of (payment fees : Z) : RequestSendFundsOp :=
  mkRequest (fixed_of_prefix 16 [x01]) (hash_lock src_lock) (mkRoute []) payment payment
    (fixed_of_prefix 32 [x02]) fees.
Definition response_by (pk : PublicKey) (r : RequestSendFundsOp) : ResponseSendFundsOp :=
  create_response_send_funds pk fst_currency (create_pending_transaction r) (hash_lock dest_lock) true
    (fixed_of_prefix 16 []).
Definition collect_of (r : RequestSendFundsOp) : CollectSendFundsOp :=
  mkCollect (rq_request_id r) src_lock dest_lock.

Definition mc_a : MutualCredit := mc_new pk_a pk_b fst_currency 0.
Definition mc_b : MutualCredit := mc_new pk_b pk_a fst_currency 0.

Lemma mc_a_b_pair : mc_pair mc_a mc_b.
Proof. split; [|split]; [apply mc_new_wf; vm_compute; split; discriminate..|reflexivity]. Qed.

Lemma request_of_ok payment fees :
  u_ok 128 payment -> u_ok 128 fees -> op_ok (RequestSendFunds (request_of payment fees)).
Proof. intros. split; [vm_compute; split; discriminate|]. done. Qed.

(** The [unwrap] on the new balance in [process_collect_send_funds] can
    fail: [queue_request_send_funds] accepts a request of [2^127 + 1] credits
    on a fresh channel although the balance cannot go down by that amount; a
    friend that answers with a valid response and a valid collect (instead of
    refusing the request as an honest node does) makes this side panic. *)
Theorem process_collect_can_panic :
  let r := request_of (2 ^ 127 + 1) 0 in
  exists mc1 ms mc2 out,
    queue_operation mc_a (RequestSendFunds r) = Ok (mc1, ms) /\
    process_operation mc1 (ResponseSendFunds (response_by pk_b r)) 0 = Ok (mc2, out) /\
    process_operation mc2 (CollectSendFunds (collect_of r)) 0 = Panic /\
    process_operation mc_b (RequestSendFunds r) 0 = Err PCreditsCalcOverflow.
Proof.
  intros r. eexists (freeze_local mc_a r), _, _, _.
  assert (op_ok (RequestSendFunds r)) as Hop by (apply request_of_ok; vm_compute; split; discriminate).
  eassert (queue_operation mc_a (RequestSendFunds r) = Ok (freeze_local mc_a r, _)) as Hq.
  { apply queue_request_spec. split_and!; try reflexivity; vm_compute; split; discriminate. }
  assert (pending_local (mc_pending (freeze_local mc_a r)) !! rq_request_id r
          = Some (create_pending_transaction r)) as Hl by apply lookup_insert_eq.
  eassert (process_operation (freeze_local mc_a r) (ResponseSendFunds (response_by pk_b r)) 0 = Ok (_, _)) as Hp.
  { apply process_response_spec. exists (create_pending_transaction r).
    split; [exact Hl|]. split; [vm_compute; reflexivity|]. split_and!; reflexivity. }
  split; [exact Hq|]. split; [exact Hp|]. split.
  - simpl. rewrite process_collect_outcome.
    2:{ eapply process_operation_wf; [|split; [reflexivity|discriminate]| |exact Hp]; [exact I|].
        exact (queue_operation_wf _ _ _ _ Hop (proj1 mc_a_b_pair) Hq). }
    simpl. rewrite lookup_insert_eq. reflexivity.
  - reflexivity.
Qed.

(** A completed payment of 10 credits with a fee of 1. *)
Definition payment_ops : list FriendTcOp := [RequestSendFunds (request_of 10 1)].

Lemma sample_op_ok : op_ok (RequestSendFunds (request_of 10 1)).
Proof. apply request_of_ok; vm_compute; split; discriminate. Qed.

Lemma payment_ops_ok : Forall op_ok payment_ops.
Proof. constructor; [exact sample_op_ok|constructor]. Qed.

Definition mc_a1 : MutualCredit := freeze_local mc_a (request_of 10 1).
Definition sample_mutations : list McMutation :=
  [InsertLocalPendingTransaction (create_pending_transaction (request_of 10 1)); SetLocalPendingDebt 11].

Lemma sample_queue :
  queue_operation mc_a (RequestSendFunds (request_of 10 1)) = Ok (mc_a1, sample_mutations).
Proof. apply queue_request_spec. split_and!; try reflexivity; vm_compute; split; discriminate. Qed.

Lemma mutual_credit_invariant_witness : mc_wf mc_a1.
Proof.
  apply (mutual_credit_invariant pk_a pk_b fst_currency 0 mc_a1).
  - vm_compute. split; discriminate.
  - apply rtc_once. exact (mc_step_queue _ _ _ _ sample_op_ok sample_queue).
Defined.

Lemma queue_never_panics_witness :
  queue_operation mc_a1 (CancelSendFunds (mkCancel (fixed_of_prefix 16 [x01]))) <> Panic.
Proof.
  apply (queue_never_panics pk_a pk_b fst_currency 0).
  - vm_compute. split; discriminate.
  - apply rtc_once. exact (mc_step_queue _ _ _ _ sample_op_ok sample_queue).
Defined.

Lemma queue_process_simulation_witness :
  match queue_operation mc_a (RequestSendFunds (request_of 10 1)),
        process_operation mc_b (RequestSendFunds (request_of 10 1)) 100 with
  | Ok (a', _), Ok (b', _) => mc_pair a' b'
  | _, _ => False
  end.
Proof.
  pose proof (queue_process_simulation mc_a mc_b (RequestSendFunds (request_of 10 1)) 100
    mc_a_b_pair sample_op_ok ltac:(vm_compute; split; discriminate)) as Hs.
  exact Hs.
Defined.

Lemma honest_pair_opposite_witness : balance (mc_balance mc_a) + balance (mc_balance mc_b) = 0.
Proof.
  apply (honest_pair_opposite pk_a pk_b fst_currency 0 mc_a mc_b
    (RequestSendFunds (request_of 10 1)) 0); [lia|apply rtc_refl].
Defined.

Lemma batch_simulation_witness :
  match process_operations_list mc_b payment_ops 100 with
  | Ok (b', _) => mc_pair mc_a1 b'
  | _ => False
  end.
Proof.
  assert (queue_operations mc_a payment_ops = Ok (mc_a1, sample_mutations)) as Hq
    by (unfold payment_ops; cbn [queue_operations]; rewrite sample_queue; reflexivity).
  pose proof (batch_simulation mc_a mc_b payment_ops 100 mc_a1 sample_mutations mc_a_b_pair
    payment_ops_ok ltac:(vm_compute; split; discriminate) Hq) as Hs.
  exact Hs.
Defined.

Lemma batch_mutations_replay_witness :
  pfold mc_mutate mc_a sample_mutations = Some mc_a1.
Proof.
  pose proof (batch_mutations_replay mc_a payment_ops 0 (proj1 mc_a_b_pair)
    payment_ops_ok ltac:(vm_compute; split; discriminate)) as [Hs _].
  exact Hs.
Defined.

Definition sample_output : ProcessOperationOutput :=
  mkProcessOutput (Some (IncomingRequestCancel (request_of 10 1)))
    [InsertRemotePendingTransaction (create_pending_transaction (request_of 10 1)); SetRemotePendingDebt 11].

Lemma sample_process :
  process_operation mc_b (RequestSendFunds (request_of 10 1)) 10
  = Ok (freeze_remote mc_b (request_of 10 1), sample_output).
Proof.
  apply process_request_spec; [split; vm_compute; discriminate..|].
  split_and!; try reflexivity; vm_compute; split; discriminate.
Qed.

Lemma credit_limit_enforced_witness :
  po_incoming_message sample_output = Some (IncomingRequestCancel (request_of 10 1)).
Proof.
  exact (proj2 (credit_limit_enforced mc_b _ (request_of 10 1) 10 sample_output
    (proj1 (proj2 mc_a_b_pair)) ltac:(split; vm_compute; discriminate) sample_process)).
Defined.
End McSamples.
