(* ===== verification/TokenChannel.v ===== *)
(** * Token channels ([funder/src/token_channel.rs])

    A token channel holds the ledgers of all currencies with one friend and
    the token that decides which side may speak. Sending and receiving are
    simulated: they compute the list of mutations, which the caller applies
    afterwards with [tc_mutate]. The theory is in [TcTheory] and [TcPair]. *)

From S2P Require Import Prelude Arith Bytes Messages Canonical MutualCredit.

Local Open Scope Z_scope.

(** ** Data *)

Record ActiveCurrencies := mkActiveCurrencies {
  ac_local : gset Currency;
  ac_remote : gset Currency
}.
Definition active_new : ActiveCurrencies := mkActiveCurrencies ∅ ∅.
Definition calc_active (a : ActiveCurrencies) : gset Currency := ac_local a ∩ ac_remote a.

Record TcOutgoing (B : Type) := mkTcOutgoing {
  move_token_out : MoveToken B;
  tco_token_info : TokenInfo;
  opt_prev_move_token_in : option MoveTokenHashed
}.
Arguments mkTcOutgoing {B}. Arguments move_token_out {B}. Arguments tco_token_info {B}.
Arguments opt_prev_move_token_in {B}.

Record TcIncoming := mkTcIncoming { move_token_in : MoveTokenHashed }.

Inductive TcDirection (B : Type) :=
| DirIncoming (i : TcIncoming)
| DirOutgoing (o : TcOutgoing B).
Arguments DirIncoming {B}. Arguments DirOutgoing {B}.

Record TokenChannel (B : Type) := mkTokenChannel {
  direction : TcDirection B;
  mutual_credits : gmap Currency MutualCredit;
  active_currencies : ActiveCurrencies
}.
Arguments mkTokenChannel {B}. Arguments direction {B}. Arguments mutual_credits {B}.
Arguments active_currencies {B}.

Inductive SetDirection (B : Type) :=
| SetIncoming (m : MoveTokenHashed)
| SetOutgoing (m : MoveToken B) (t : TokenInfo).
Arguments SetIncoming {B}. Arguments SetOutgoing {B}.

Inductive TcMutation (B : Type) :=
| TcMcMutation (c : Currency) (m : McMutation)
| SetLocalActiveCurrencies (cs : list Currency)
| SetRemoteActiveCurrencies (cs : list Currency)
| AddMutualCredit (c : Currency)
| TcSetDirection (d : SetDirection B).
Arguments TcMcMutation {B}. Arguments SetLocalActiveCurrencies {B}.
Arguments SetRemoteActiveCurrencies {B}. Arguments AddMutualCredit {B}. Arguments TcSetDirection {B}.

(** The borrows returned by [get_direction]. *)
Record TcInBorrow := mkTcInBorrow {
  tib_incoming : TcIncoming;
  tib_mutual_credits : gmap Currency MutualCredit;
  tib_active_currencies : ActiveCurrencies
}.
Record TcOutBorrow (B : Type) := mkTcOutBorrow {
  tob_outgoing : TcOutgoing B;
  tob_mutual_credits : gmap Currency MutualCredit;
  tob_active_currencies : ActiveCurrencies
}.
Arguments mkTcOutBorrow {B}. Arguments tob_outgoing {B}. Arguments tob_mutual_credits {B}.
Arguments tob_active_currencies {B}.

Inductive TcDirectionBorrow (B : Type) :=
| BorrowIn (b : TcInBorrow)
| BorrowOut (b : TcOutBorrow B).
Arguments BorrowIn {B}. Arguments BorrowOut {B}.

Inductive ReceiveMoveTokenError :=
| ChainInconsistency
| InvalidTransaction (e : ProcessTransListError)
| InvalidSignature
| InvalidTokenInfo
| InvalidInconsistencyCounter
| MoveTokenCounterOverflow
| InvalidMoveTokenCounter
| TooManyOperations
| InvalidCurrency
| InvalidAddActiveCurrencies
| RCanNotRemoveCurrencyInUse.

Record MoveTokenReceivedCurrency := mkMtrCurrency {
  mtrc_currency : Currency;
  mtrc_incoming_messages : list IncomingMessage
}.

Record MoveTokenReceived (B : Type) := mkMoveTokenReceived {
  mtr_mutations : list (TcMutation B);
  mtr_currencies : list MoveTokenReceivedCurrency;
  mtr_opt_local_relays : option (list (RelayAddress B))
}.
Arguments mkMoveTokenReceived {B}. Arguments mtr_mutations {B}. Arguments mtr_currencies {B}.
Arguments mtr_opt_local_relays {B}.

Inductive ReceiveMoveTokenOutput (B : Type) :=
| Duplicate
| RetransmitOutgoing (m : MoveToken B)
| Received (r : MoveTokenReceived B).
Arguments Duplicate {B}. Arguments RetransmitOutgoing {B}. Arguments Received {B}.

Record SendMoveTokenOutput (B : Type) := mkSendOutput {
  smo_unsigned_move_token : UnsignedMoveToken B;
  smo_mutations : list (TcMutation B);
  smo_token_info : TokenInfo
}.
Arguments mkSendOutput {B}. Arguments smo_unsigned_move_token {B}. Arguments smo_mutations {B}.
Arguments smo_token_info {B}.

Inductive SendMoveTokenError := LocalCurrencyAlreadyExists | SCanNotRemoveCurrencyInUse.

(** ** Operations *)

Section TokenChannelOps.
Context `{CryptoOps} {B : Type} `{CanonicalSerialize B}.
Notation TokenChannel := (TokenChannel B).
Notation TcMutation := (TcMutation B).

Definition token_from_public_key (pk : PublicKey) : Signature := fixed_of_prefix 64 (as_bytes pk).

(** The first 16 bytes of the hash of the key. *)
Definition rand_nonce_from_public_key (pk : PublicKey) : RandValue :=
  fixed_of_prefix 16 (as_bytes (sha_512_256 (as_bytes pk))).

Definition initial_move_token (low high : PublicKey) : MoveToken B * TokenInfo :=
  let token_info := mkTokenInfo (mkMcInfo low high []) (mkCountersInfo 0 0) in
  (mkMoveToken (token_from_public_key low) [] None None (hash_token_info token_info)
     (rand_nonce_from_public_key high) (token_from_public_key high),
   token_info).

Definition tc_new (local remote : PublicKey) : TokenChannel :=
  match compare_public_key local remote with
  | Lt =>
      let '(move_token_out, token_info) := initial_move_token local remote in
      mkTokenChannel (DirOutgoing (mkTcOutgoing move_token_out token_info None)) ∅ active_new
  | _ =>
      let '(move_token_in_full, token_info) := initial_move_token remote local in
      mkTokenChannel (DirIncoming (mkTcIncoming (create_hashed move_token_in_full token_info))) ∅ active_new
  end.

Definition new_from_remote_reset (reset_move_token : MoveToken B) (remote_token_info : TokenInfo)
    : option TokenChannel :=
  let! entries := omap_all (fun cbi =>
    let! neg := checked_i 128 (- bi_balance (cbi_balance_info cbi)) in
    Some (cbi_currency cbi,
          mc_new (mi_remote_public_key (ti_mc remote_token_info))
            (mi_local_public_key (ti_mc remote_token_info)) (cbi_currency cbi) neg))
    (mi_balances (ti_mc remote_token_info)) in
  (* collecting into a HashMap: the last entry of a repeated key wins *)
  let mcs : gmap Currency MutualCredit := list_to_map (rev entries) in
  let active := dom mcs in
  Some (mkTokenChannel
          (DirIncoming (mkTcIncoming (create_hashed reset_move_token remote_token_info)))
          mcs (mkActiveCurrencies active active)).

Definition new_from_local_reset (reset_move_token : MoveToken B) (token_info : TokenInfo)
    (opt_last_incoming_move_token : option MoveTokenHashed) : TokenChannel :=
  let entries := map (fun cbi =>
    (cbi_currency cbi,
     mc_new (mi_local_public_key (ti_mc token_info)) (mi_remote_public_key (ti_mc token_info))
       (cbi_currency cbi) (bi_balance (cbi_balance_info cbi))))
    (mi_balances (ti_mc token_info)) in
  let mcs : gmap Currency MutualCredit := list_to_map (rev entries) in
  let active := dom mcs in
  mkTokenChannel (DirOutgoing (mkTcOutgoing reset_move_token token_info opt_last_incoming_move_token))
    mcs (mkActiveCurrencies active active).

Definition get_direction (tc : TokenChannel) : TcDirectionBorrow B :=
  match direction tc with
  | DirIncoming i => BorrowIn (mkTcInBorrow i (mutual_credits tc) (active_currencies tc))
  | DirOutgoing o => BorrowOut (mkTcOutBorrow o (mutual_credits tc) (active_currencies tc))
  end.

Definition get_outgoing (tc : TokenChannel) : option (TcOutBorrow B) :=
  match get_direction tc with BorrowIn _ => None | BorrowOut b => Some b end.
Definition get_incoming (tc : TokenChannel) : option TcInBorrow :=
  match get_direction tc with BorrowIn b => Some b | BorrowOut _ => None end.

Definition tc_get_last_incoming_move_token_hashed (tc : TokenChannel) : option MoveTokenHashed :=
  match direction tc with
  | DirIncoming i => Some (move_token_in i)
  | DirOutgoing o => opt_prev_move_token_in o
  end.

Definition get_inconsistency_counter (tc : TokenChannel) : Z :=
  match direction tc with
  | DirIncoming i => inconsistency_counter (ti_counters (mth_token_info (move_token_in i)))
  | DirOutgoing o => inconsistency_counter (ti_counters (tco_token_info o))
  end.

Definition with_mutual_credits (tc : TokenChannel) (m : gmap Currency MutualCredit) : TokenChannel :=
  mkTokenChannel (direction tc) m (active_currencies tc).
Definition with_active (tc : TokenChannel) (a : ActiveCurrencies) : TokenChannel :=
  mkTokenChannel (direction tc) (mutual_credits tc) a.

(** The token info used by [AddMutualCredit]: this side's point of view. *)
Definition local_token_info (tc : TokenChannel) : option TokenInfo :=
  match direction tc with
  | DirIncoming i => flip_token_info (mth_token_info (move_token_in i))
  | DirOutgoing o => Some (tco_token_info o)
  end.

Definition tc_mutate (tc : TokenChannel) (m : TcMutation) : option TokenChannel :=
  match m with
  | TcMcMutation c mcm =>
      let! mc := mutual_credits tc !! c in
      let! mc' := mc_mutate mc mcm in
      Some (with_mutual_credits tc (<[c := mc']> (mutual_credits tc)))
  | TcSetDirection (SetIncoming h) =>
      Some (mkTokenChannel (DirIncoming (mkTcIncoming h)) (mutual_credits tc) (active_currencies tc))
  | TcSetDirection (SetOutgoing mt ti) =>
      Some (mkTokenChannel
              (DirOutgoing (mkTcOutgoing mt ti (tc_get_last_incoming_move_token_hashed tc)))
              (mutual_credits tc) (active_currencies tc))
  | SetLocalActiveCurrencies cs =>
      Some (with_active tc (mkActiveCurrencies (list_to_set cs) (ac_remote (active_currencies tc))))
  | SetRemoteActiveCurrencies cs =>
      Some (with_active tc (mkActiveCurrencies (ac_local (active_currencies tc)) (list_to_set cs)))
  | AddMutualCredit c =>
      if negb (bool_decide (c ∈ ac_local (active_currencies tc))) then None
      else if negb (bool_decide (c ∈ ac_remote (active_currencies tc))) then None
      else
        let! ti := local_token_info tc in
        let mc := mc_new (mi_local_public_key (ti_mc ti)) (mi_remote_public_key (ti_mc ti)) c 0 in
        if bool_decide (mutual_credits tc !! c = None) then
          Some (with_mutual_credits tc (<[c := mc]> (mutual_credits tc)))
        else None
  end.

(** [token_channel.mutate(&mutation); mutations.push(mutation)] *)
Definition tc_apply_push {E} (st : TokenChannel * list TcMutation) (m : TcMutation)
    : outcome E (TokenChannel * list TcMutation) :=
  let? tc := unwrap (tc_mutate (fst st) m) in Ok (tc, snd st ++ [m]).

(** The currencies that become usable: [(local ^ remote) \ mutual credits]. *)
Definition new_currencies (mcs : gmap Currency MutualCredit) (a : ActiveCurrencies) : list Currency :=
  elements ((ac_remote a ∩ ac_local a) ∖ dom mcs).

(** The check that no currency in use is removed from [cs]. *)
Definition keeps_used_currencies (mcs : gmap Currency MutualCredit) (cs : list Currency) : bool :=
  forallb (fun c => bool_decide (c ∈ cs)) (map fst (map_to_list mcs)).

Definition balance_info_of (mc : MutualCredit) : BalanceInfo :=
  mkBalanceInfo (balance (mc_balance mc)) (local_pending_debt (mc_balance mc))
    (remote_pending_debt (mc_balance mc)).

Definition cbi_le (x y : CurrencyBalanceInfo) : Prop := currency_le (cbi_currency x) (cbi_currency y).
#[global] Instance cbi_le_dec : RelDecision cbi_le := fun x y => currency_le_dec _ _.

(** The balances of all ledgers, sorted by currency. *)
Definition sorted_balances (mcs : gmap Currency MutualCredit) : list CurrencyBalanceInfo :=
  merge_sort cbi_le
    (map (fun '(c, mc) => mkCurrencyBalanceInfo c (balance_info_of mc)) (map_to_list mcs)).

(** *** Incoming direction: we hold the token *)

(** [TcInBorrow::create_token_channel] *)
Definition in_create_token_channel (b : TcInBorrow) : TokenChannel :=
  mkTokenChannel (DirIncoming (tib_incoming b)) (tib_mutual_credits b) (tib_active_currencies b).

(** [TcInBorrow::handle_incoming] *)
Definition in_handle_incoming (b : TcInBorrow) (new_move_token : MoveToken B)
    : outcome ReceiveMoveTokenError (ReceiveMoveTokenOutput B) :=
  if decide (move_token_in (tib_incoming b)
             = create_hashed new_move_token (mth_token_info (move_token_in (tib_incoming b))))
  then Ok Duplicate
  else Err ChainInconsistency.

(** Applying the queued operations of one currency: a copy of the ledger
    accepts each operation, and its mutations are applied to the channel. *)
Definition send_operation (c : Currency) (st : MutualCredit * (TokenChannel * list TcMutation))
    (op : FriendTcOp) : outcome SendMoveTokenError (MutualCredit * (TokenChannel * list TcMutation)) :=
  let? res := unwrap_res (queue_operation (fst st) op) in
  let? st' := ofold tc_apply_push (snd st) (map (TcMcMutation c) (snd res)) in
  Ok (fst res, st').

Definition send_currency_operations (st : TokenChannel * list TcMutation) (co : CurrencyOperations)
    : outcome SendMoveTokenError (TokenChannel * list TcMutation) :=
  let? tib := unwrap (get_incoming (fst st)) in
  let? mc := unwrap (tib_mutual_credits tib !! co_currency co) in
  let? res := ofold (send_operation (co_currency co)) (mc, st) (co_operations co) in
  Ok (snd res).

(** The part of [simulate_send_move_token] that updates the active currencies. *)
Definition send_active_currencies (tc : TokenChannel) (opt_active_currencies : option (list Currency))
    : outcome SendMoveTokenError (TokenChannel * list TcMutation) :=
  match opt_active_currencies with
  | None => Ok (tc, [])
  | Some cs =>
      let? _ := guard_or (keeps_used_currencies (mutual_credits tc) cs) SCanNotRemoveCurrencyInUse in
      let? st := tc_apply_push (tc, []) (SetLocalActiveCurrencies cs) in
      let? tib := unwrap (get_incoming (fst st)) in
      ofold tc_apply_push st
        (map AddMutualCredit (new_currencies (tib_mutual_credits tib) (tib_active_currencies tib)))
  end.

Definition simulate_send_move_token (b : TcInBorrow) (currencies_operations : list CurrencyOperations)
    (opt_local_relays : option (list (RelayAddress B))) (opt_active_currencies : option (list Currency))
    (rand_nonce : RandValue) : outcome SendMoveTokenError (SendMoveTokenOutput B) :=
  let tc := in_create_token_channel b in
  let? st := send_active_currencies tc opt_active_currencies in
  let? st := ofold send_currency_operations st currencies_operations in
  let? tib := unwrap (get_incoming (fst st)) in
  let balances := sorted_balances (tib_mutual_credits tib) in
  let cur_token_info := mth_token_info (move_token_in (tib_incoming tib)) in
  let token_info :=
    mkTokenInfo
      (mkMcInfo (mi_remote_public_key (ti_mc cur_token_info)) (mi_local_public_key (ti_mc cur_token_info))
         balances)
      (mkCountersInfo (inconsistency_counter (ti_counters cur_token_info))
         (cast_u 128 (move_token_counter (ti_counters cur_token_info) + 1))) in
  let unsigned_move_token :=
    create_unsigned_move_token currencies_operations opt_local_relays opt_active_currencies token_info
      (mth_new_token (move_token_in (tib_incoming tib))) rand_nonce in
  Ok (mkSendOutput unsigned_move_token (snd st) token_info).

(** [TcInBorrow::create_outgoing_mc] *)
Definition create_outgoing_mc (b : TcInBorrow) (c : Currency) : option MutualCredit :=
  tib_mutual_credits b !! c.

(** *** Outgoing direction: the friend holds the token *)

(** [TcOutBorrow::create_token_channel] *)
Definition out_create_token_channel (b : TcOutBorrow B) : TokenChannel :=
  mkTokenChannel (DirOutgoing (tob_outgoing b)) (tob_mutual_credits b) (tob_active_currencies b).

Definition receive_active_currencies (tc : TokenChannel) (opt_active_currencies : option (list Currency))
    : outcome ReceiveMoveTokenError (TokenChannel * list TcMutation) :=
  match opt_active_currencies with
  | None => Ok (tc, [])
  | Some cs =>
      let? _ := guard_or (keeps_used_currencies (mutual_credits tc) cs) RCanNotRemoveCurrencyInUse in
      let? st := tc_apply_push (tc, []) (SetRemoteActiveCurrencies cs) in
      let? tob := unwrap (get_outgoing (fst st)) in
      ofold tc_apply_push st
        (map AddMutualCredit (new_currencies (tob_mutual_credits tob) (tob_active_currencies tob)))
  end.

Definition receive_currency_operations (remote_max_debts : gmap Currency Z)
    (acc : (TokenChannel * list TcMutation) * list MoveTokenReceivedCurrency) (co : CurrencyOperations)
    : outcome ReceiveMoveTokenError ((TokenChannel * list TcMutation) * list MoveTokenReceivedCurrency) :=
  let '(st, received) := acc in
  let? tob := unwrap (get_outgoing (fst st)) in
  let? mc := ok_or (tob_mutual_credits tob !! co_currency co) InvalidCurrency in
  let remote_max_debt := default 0 (remote_max_debts !! co_currency co) in
  let? res := map_err InvalidTransaction (process_operations_list mc (co_operations co) remote_max_debt) in
  let outputs := snd res in
  let incoming_messages := omap po_incoming_message outputs in
  let? st' := ofold tc_apply_push st
                (map (TcMcMutation (co_currency co)) (concat (map po_mc_mutations outputs))) in
  Ok (st', received ++ [mkMtrCurrency (co_currency co) incoming_messages]).

Definition handle_incoming_token_match (b : TcOutBorrow B) (new_move_token : MoveToken B)
    (remote_max_debts : gmap Currency Z) : outcome ReceiveMoveTokenError (MoveTokenReceived B) :=
  let tc := out_create_token_channel b in
  let remote_public_key := mi_remote_public_key (ti_mc (tco_token_info (tob_outgoing b))) in
  let? _ := guard_or (verify_move_token new_move_token remote_public_key) InvalidSignature in
  let? st := receive_active_currencies tc (mt_opt_active_currencies new_move_token) in
  let? acc := ofold (receive_currency_operations remote_max_debts) (st, [])
                (mt_currencies_operations new_move_token) in
  let '(st, received) := acc in
  let? tob := unwrap (get_outgoing (fst st)) in
  let expected_balances := sorted_balances (tob_mutual_credits tob) in
  let cur := tco_token_info (tob_outgoing tob) in
  let? counter := ok_or (checked_u 128 (move_token_counter (ti_counters cur) + 1)) MoveTokenCounterOverflow in
  let? expected_token_info :=
    unwrap (flip_token_info
      (mkTokenInfo
         (mkMcInfo (mi_local_public_key (ti_mc cur)) (mi_remote_public_key (ti_mc cur)) expected_balances)
         (mkCountersInfo (inconsistency_counter (ti_counters cur)) counter))) in
  let info_hash := hash_token_info expected_token_info in
  let? _ := guard_or (bool_decide (mt_info_hash new_move_token = info_hash)) InvalidTokenInfo in
  Ok (mkMoveTokenReceived
        (snd st ++ [TcSetDirection (SetIncoming (create_hashed new_move_token expected_token_info))])
        received (mt_opt_local_relays new_move_token)).

(** [TcOutBorrow::handle_incoming] *)
Definition out_handle_incoming (b : TcOutBorrow B) (new_move_token : MoveToken B)
    (remote_max_debts : gmap Currency Z) : outcome ReceiveMoveTokenError (ReceiveMoveTokenOutput B) :=
  if decide (mt_old_token new_move_token = mt_new_token (move_token_out (tob_outgoing b))) then
    let? r := handle_incoming_token_match b new_move_token remote_max_debts in Ok (Received r)
  else if decide (mt_old_token (move_token_out (tob_outgoing b)) = mt_new_token new_move_token) then
    Ok (RetransmitOutgoing (move_token_out (tob_outgoing b)))
  else Err ChainInconsistency.

(** [TcOutBorrow::create_outgoing_move_token] *)
Definition create_outgoing_move_token (b : TcOutBorrow B) : MoveToken B := move_token_out (tob_outgoing b).

Definition simulate_receive_move_token (tc : TokenChannel) (new_move_token : MoveToken B)
    (remote_max_debts : gmap Currency Z) : outcome ReceiveMoveTokenError (ReceiveMoveTokenOutput B) :=
  match get_direction tc with
  | BorrowIn b => in_handle_incoming b new_move_token
  | BorrowOut b => out_handle_incoming b new_move_token remote_max_debts
  end.
End TokenChannelOps.
