(* ===== verification/TcTheory.v ===== *)
(** * Theory of token channels

    How lists of mutations act on a channel (ledger mutations, new
    currencies), the canonical order of balances, and the ledger-level
    meaning of the sending and receiving loops. *)

From S2P Require Import Prelude Arith Bytes Messages Canonical MutualCredit McTheory McPair TokenChannel.

Local Open Scope Z_scope.

(** ** Sorted balances are canonical *)

Section SortByKey.
Context {A : Type} (key : A -> Currency) (R : relation A) `{!RelDecision R}.
Context (HR : forall x y, R x y <-> currency_le (key x) (key y)).

Lemma sort_perm_eq (l1 l2 : list A) :
  l1 ≡ₚ l2 -> (forall x y, x ∈ l1 -> y ∈ l1 -> key x = key y -> x = y) ->
  merge_sort R l1 = merge_sort R l2.
Proof.
  intros Hp Hk.
  assert (Total R) by (intros x y; rewrite !HR; apply (total currency_le)).
  assert (Transitive R) by (intros x y z; rewrite !HR; apply (transitivity (R := currency_le))).
  apply (Sorted_unique_strong R).
  - intros x y Hx Hy Hxy Hyx. apply HR in Hxy, Hyx.
    rewrite merge_sort_Permutation in Hx. rewrite merge_sort_Permutation, <- Hp in Hy.
    apply Hk; [done..|]. by apply (anti_symm currency_le).
  - apply Sorted_merge_sort, _.
  - apply Sorted_merge_sort, _.
  - by rewrite !merge_sort_Permutation.
Qed.

Lemma sort_map_eq (f : A -> A) (l : list A) :
  (forall x, key (f x) = key x) ->
  (forall x y, x ∈ l -> y ∈ l -> key x = key y -> x = y) ->
  merge_sort R (map f l) = map f (merge_sort R l).
Proof.
  intros Hf Hk.
  assert (Total R) by (intros x y; rewrite !HR; apply (total currency_le)).
  assert (Transitive R) by (intros x y z; rewrite !HR; apply (transitivity (R := currency_le))).
  assert (Hsort : Sorted R (map f (merge_sort R l))).
  { assert (Sorted R (merge_sort R l)) as Hs by (apply Sorted_merge_sort, _).
    induction Hs as [|x l' Hs IH Hd]; simpl; constructor; [done|].
    destruct Hd; simpl; constructor. rewrite HR in *. by rewrite !Hf. }
  apply (Sorted_unique_strong R); [|apply Sorted_merge_sort, _|done|].
  - intros x y Hx Hy Hxy Hyx. apply HR in Hxy, Hyx.
    rewrite merge_sort_Permutation in Hx. apply list_elem_of_fmap in Hx as (x' & -> & Hx).
    apply list_elem_of_fmap in Hy as (y' & -> & Hy). rewrite merge_sort_Permutation in Hy.
    f_equal. apply Hk; [done..|]. rewrite !Hf in *. by apply (anti_symm currency_le).
  - rewrite merge_sort_Permutation. change (f <$> l ≡ₚ f <$> merge_sort R l).
    by rewrite merge_sort_Permutation.
Qed.
End SortByKey.

Definition cbi_of (p : Currency * MutualCredit) : CurrencyBalanceInfo :=
  mkCurrencyBalanceInfo (fst p) (balance_info_of (snd p)).

Lemma sorted_balances_alt mcs : sorted_balances mcs = merge_sort cbi_le (map cbi_of (map_to_list mcs)).
Proof. unfold sorted_balances. f_equal. apply map_ext. by intros []. Qed.

Lemma cbi_keys_unique mcs x y :
  x ∈ map cbi_of (map_to_list mcs) -> y ∈ map cbi_of (map_to_list mcs) ->
  cbi_currency x = cbi_currency y -> x = y.
Proof.
  intros ([c mc] & -> & Hx)%list_elem_of_fmap ([c' mc'] & -> & Hy)%list_elem_of_fmap. simpl. intros ->.
  apply elem_of_map_to_list in Hx, Hy. congruence.
Qed.

(** Flipping every ledger negates the canonical balances, in the same order. *)
Lemma sorted_balances_flip mcs :
  sorted_balances (flip_mc <$> mcs) = neg_cbi <$> sorted_balances mcs.
Proof.
  rewrite !sorted_balances_alt. change (?f <$> ?l) with (map f l) at 2.
  rewrite <- (sort_map_eq cbi_currency cbi_le); [|done|done|apply cbi_keys_unique].
  apply (sort_perm_eq cbi_currency cbi_le); [done| |apply cbi_keys_unique].
  rewrite map_to_list_fmap. apply Permutation_refl'.
  generalize (map_to_list mcs) as l. intros l.
  induction l as [|[c mc] l IH]; [done|]. exact (f_equal (cons (neg_cbi (cbi_of (c, mc)))) IH).
Qed.

Lemma sorted_balances_elem mcs c b :
  mkCurrencyBalanceInfo c b ∈ sorted_balances mcs <->
  exists mc, mcs !! c = Some mc /\ b = balance_info_of mc.
Proof.
  rewrite sorted_balances_alt, merge_sort_Permutation.
  change (mkCurrencyBalanceInfo c b ∈ cbi_of <$> map_to_list mcs <-> 
    exists mc, mcs !! c = Some mc /\ b = balance_info_of mc).
  rewrite list_elem_of_fmap. split.
  - intros ([c' mc] & [= -> ->] & Hin%elem_of_map_to_list). by exists mc.
  - intros (mc & Hmc & ->). exists (c, mc). split; [done|]. by apply elem_of_map_to_list.
Qed.

(** ** Applying lists of mutations *)

Section Mutations.
Context {B : Type}.
Implicit Types tc : TokenChannel B.

(** The simulate-and-push loops compute exactly the replay of what they push. *)
Lemma tc_apply_push_fold {E} (ms : list (TcMutation B)) tc acc :
  ofold (@tc_apply_push B E) (tc, acc) ms =
  match pfold tc_mutate tc ms with Some tc' => Ok (tc', acc ++ ms) | None => Panic end.
Proof.
  revert tc acc; induction ms as [|m ms IH]; intros tc acc; simpl; [by rewrite app_nil_r|].
  unfold tc_apply_push at 1. simpl. destruct (tc_mutate tc m) as [tc'|]; simpl; [|done].
  rewrite IH. destruct (pfold tc_mutate tc' ms); [|done]. by rewrite <- app_assoc.
Qed.

Lemma with_mutual_credits_id tc : with_mutual_credits tc (mutual_credits tc) = tc.
Proof. by destruct tc. Qed.

(** Ledger mutations act on their currency only. *)
Lemma pfold_mc_mutations c ms tc mc mc' :
  mutual_credits tc !! c = Some mc -> pfold mc_mutate mc ms = Some mc' ->
  pfold tc_mutate tc (map (TcMcMutation c) ms) =
    Some (with_mutual_credits tc (<[c := mc']> (mutual_credits tc))).
Proof.
  revert tc mc; induction ms as [|m ms IH]; intros tc mc Hmc Hms; simpl in *.
  - simplify_eq. by rewrite insert_id, with_mutual_credits_id.
  - inv_run. rewrite Hmc. simpl. rewrite H. simpl.
    rewrite (IH (with_mutual_credits tc (<[c := x]> (mutual_credits tc))) x); [|by apply lookup_insert_eq|done].
    simpl. by rewrite insert_insert_eq.
Qed.

(** New ledgers for a list of currencies. *)
Definition fresh_credits (l r : PublicKey) (cs : list Currency) : gmap Currency MutualCredit :=
  list_to_map (map (fun c => (c, mc_new l r c 0)) cs).

Lemma fresh_credits_lookup l r cs c :
  fresh_credits l r cs !! c = if decide (c ∈ cs) then Some (mc_new l r c 0) else None.
Proof.
  unfold fresh_credits. induction cs as [|c' cs IH]; simpl; [by rewrite lookup_empty|].
  rewrite lookup_insert. destruct (decide (c' = c)) as [->|Hne].
  - rewrite decide_True by by left. done.
  - rewrite IH. destruct (decide (c ∈ cs)) as [Hin|Hin].
    + by rewrite decide_True by by right.
    + rewrite decide_False; [done|]. intros [?|?]%elem_of_cons; congruence.
Qed.

Lemma flip_fresh_credits l r cs : flip_mc <$> fresh_credits l r cs = fresh_credits r l cs.
Proof.
  apply map_eq. intros c. rewrite lookup_fmap, !fresh_credits_lookup. by case_decide.
Qed.

Lemma pfold_add_credits cs tc ti :
  local_token_info tc = Some ti -> NoDup cs ->
  (forall c, c ∈ cs -> c ∈ ac_local (active_currencies tc) /\ c ∈ ac_remote (active_currencies tc) /\
     mutual_credits tc !! c = None) ->
  pfold tc_mutate tc (map AddMutualCredit cs) =
    Some (with_mutual_credits tc
            (fresh_credits (mi_local_public_key (ti_mc ti)) (mi_remote_public_key (ti_mc ti)) cs
             ∪ mutual_credits tc)).
Proof.
  revert tc; induction cs as [|c cs IH]; intros tc Hti Hnd Hcs; simpl.
  - unfold fresh_credits. simpl. by rewrite (left_id_L ∅ (∪)), with_mutual_credits_id.
  - apply NoDup_cons in Hnd as [Hc Hnd]. destruct (Hcs c) as (Hl & Hr & Hn); [by left|].
    rewrite !bool_decide_eq_true_2 by done. simpl. rewrite Hti. simpl.
    rewrite IH; simpl; [|done|done|].
    + f_equal. unfold with_mutual_credits. simpl. f_equal.
      unfold fresh_credits. simpl.
      rewrite <- insert_union_l. symmetry. apply insert_union_r.
      change (fresh_credits (mi_local_public_key (ti_mc ti)) (mi_remote_public_key (ti_mc ti)) cs !! c = None).
      rewrite fresh_credits_lookup. by rewrite decide_False.
    + intros c' Hc'. destruct (Hcs c') as (? & ? & ?); [by right|]. split_and!; try done.
      rewrite lookup_insert_ne; [done|]. congruence.
Qed.

Lemma new_currencies_ok mcs a c :
  c ∈ new_currencies mcs a <-> c ∈ ac_local a /\ c ∈ ac_remote a /\ mcs !! c = None.
Proof.
  unfold new_currencies. rewrite elem_of_elements, elem_of_difference, elem_of_intersection, not_elem_of_dom.
  tauto.
Qed.

Lemma new_currencies_NoDup mcs a : NoDup (new_currencies mcs a).
Proof. apply NoDup_elements. Qed.

Lemma keeps_used_currencies_spec mcs cs :
  keeps_used_currencies mcs cs = true <-> dom mcs ⊆ list_to_set cs.
Proof.
  unfold keeps_used_currencies. rewrite forallb_forall. split.
  - intros Hk c Hc. apply elem_of_dom in Hc as [mc Hc]. apply elem_of_list_to_set.
    specialize (Hk c). rewrite bool_decide_eq_true in Hk. apply Hk.
    apply list_elem_of_In, list_elem_of_fmap. exists (c, mc). split; [done|]. by apply elem_of_map_to_list.
  - intros Hd c Hc. apply list_elem_of_In, list_elem_of_fmap in Hc as ([c' mc] & -> & Hc).
    apply elem_of_map_to_list in Hc. apply bool_decide_eq_true. simpl.
    apply (elem_of_list_to_set (C := gset Currency)), Hd, elem_of_dom. by exists mc.
Qed.
End Mutations.

(** ** Ledger-level meaning of the sending and receiving loops *)

Section Loops.
Context `{CryptoOps} {B : Type} `{CanonicalSerialize B}.
Implicit Types tc : TokenChannel B.

Definition credits_wf (mcs : gmap Currency MutualCredit) : Prop := map_Forall (fun _ => mc_wf) mcs.
Definition cos_ok (cos : list CurrencyOperations) : Prop :=
  Forall (fun co => Forall op_ok (co_operations co)) cos.

Fixpoint queue_currencies (mcs : gmap Currency MutualCredit) (cos : list CurrencyOperations)
    : option (gmap Currency MutualCredit * list (TcMutation B)) :=
  match cos with
  | [] => Some (mcs, [])
  | co :: rest =>
      let! mc := mcs !! co_currency co in
      match queue_operations mc (co_operations co) with
      | Ok (mc', ms) =>
          let! res := queue_currencies (<[co_currency co := mc']> mcs) rest in
          Some (fst res, map (TcMcMutation (co_currency co)) ms ++ snd res)
      | _ => None
      end
  end.

Lemma send_operation_fold c ops mc tc acc :
  mutual_credits tc !! c = Some mc -> mc_wf mc -> Forall op_ok ops ->
  ofold (send_operation c) (mc, (tc, acc)) ops =
  match queue_operations mc ops with
  | Ok (mc', ms) =>
      Ok (mc', (with_mutual_credits tc (<[c := mc']> (mutual_credits tc)), acc ++ map (TcMcMutation c) ms))
  | _ => Panic
  end.
Proof.
  intros Hmc Hwf Hops. revert mc tc acc Hmc Hwf.
  induction Hops as [|op ops Hop _ IH]; intros mc tc acc Hmc Hwf; simpl.
  - by rewrite insert_id, with_mutual_credits_id, app_nil_r.
  - unfold send_operation at 1. simpl.
    destruct (queue_operation mc op) as [[mc1 ms1]| |] eqn:Eq; simpl; [|done..].
    pose proof (queue_operation_replay _ _ _ _ Hwf Eq) as Hr.
    rewrite tc_apply_push_fold, (pfold_mc_mutations c ms1 tc mc mc1) by done. simpl.
    rewrite (IH mc1); [|by apply lookup_insert_eq|by eapply queue_operation_wf].
    destruct (queue_operations mc1 ops) as [[mc2 ms2]| |]; simpl; [|done..].
    by rewrite insert_insert_eq, map_app, app_assoc.
Qed.

Lemma send_currencies_fold cos tc acc i :
  direction tc = DirIncoming i -> credits_wf (mutual_credits tc) -> cos_ok cos ->
  ofold send_currency_operations (tc, acc) cos =
  match queue_currencies (mutual_credits tc) cos with
  | Some (mcs', ms) => Ok (with_mutual_credits tc mcs', acc ++ ms)
  | None => Panic
  end.
Proof.
  intros Hd Hwf Hcos. revert tc acc Hd Hwf.
  induction Hcos as [|co cos Hco _ IH]; intros tc acc Hd Hwf; simpl.
  - by rewrite with_mutual_credits_id, app_nil_r.
  - unfold send_currency_operations at 1. unfold get_incoming, get_direction. simpl. rewrite Hd. simpl.
    destruct (mutual_credits tc !! co_currency co) as [mc|] eqn:Hmc; simpl; [|done].
    pose proof (Hwf _ _ Hmc) as Hmcwf. rewrite send_operation_fold by done.
    destruct (queue_operations mc (co_operations co)) as [[mc' ms]| |] eqn:Eq; simpl; [|done..].
    destruct (queue_operations_replay _ _ _ _ Hco Hmcwf Eq) as [Hwf' _].
    rewrite IH; [|done|by apply map_Forall_insert_2].
    simpl. destruct (queue_currencies _ cos) as [[mcs' ms']|]; simpl; [|done].
    by rewrite app_assoc.
Qed.

(** The mutations of the loop rebuild its ledgers, and the ledgers stay
    invariant. *)
Lemma queue_currencies_replay cos tc mcs' ms :
  credits_wf (mutual_credits tc) -> cos_ok cos ->
  queue_currencies (mutual_credits tc) cos = Some (mcs', ms) ->
  credits_wf mcs' /\ dom mcs' = dom (mutual_credits tc) /\
  pfold tc_mutate tc ms = Some (with_mutual_credits tc mcs').
Proof.
  intros Hwf Hcos. revert tc ms Hwf.
  induction Hcos as [|co cos Hco _ IH]; intros tc ms Hwf Hq; simpl in Hq.
  - simplify_eq. simpl. by rewrite with_mutual_credits_id.
  - destruct (mutual_credits tc !! co_currency co) as [mc|] eqn:Hmc; simpl in Hq; [|done].
    destruct (queue_operations mc (co_operations co)) as [[mc' ms1]| |] eqn:Eq; [|done..].
    destruct (queue_operations_replay _ _ _ _ Hco (Hwf _ _ Hmc) Eq) as [Hwf' Hr].
    apply opt_bind_Some in Hq as ([mcs2 ms2] & Hq & [= <- <-]).
    destruct (IH (with_mutual_credits tc (<[co_currency co := mc']> (mutual_credits tc))) ms2)
      as (Hwf2 & Hdom & Hp); [by apply map_Forall_insert_2|done|].
    split; [done|]. split.
    + rewrite Hdom. simpl. rewrite dom_insert_lookup_L; [done|by eexists].
    + rewrite pfold_app, (pfold_mc_mutations _ _ _ mc mc') by done. exact Hp.
Qed.

(** No mutation changes whose ledger it is. *)
Definition owned_by (l r : PublicKey) (c : Currency) (mc : MutualCredit) : Prop :=
  mc_currency mc = c /\ mc_idents mc = mkMcIdents l r.

Lemma mc_mutations_owned l r c ms mc mc' :
  owned_by l r c mc -> pfold mc_mutate mc ms = Some mc' -> owned_by l r c mc'.
Proof.
  intros Ho. apply pfold_inv; [|done]. intros s0 m s1 _ Hs.
  unfold mc_mutate, set_local_pending_transaction_stage, set_remote_pending_transaction_stage.
  destruct m; intros Hm; inv_run; exact Hs.
Qed.

Lemma queue_currencies_owned l r cos mcs mcs' ms :
  credits_wf mcs -> cos_ok cos -> map_Forall (owned_by l r) mcs ->
  queue_currencies mcs cos = Some (mcs', ms) -> map_Forall (owned_by l r) mcs'.
Proof.
  intros Hwf Hcos. revert mcs ms Hwf.
  induction Hcos as [|co cos Hco _ IH]; intros mcs ms Hwf Ho Hq; simpl in Hq; [by simplify_eq|].
  destruct (mcs !! co_currency co) as [mc|] eqn:Hmc; simpl in Hq; [|done].
  destruct (queue_operations mc (co_operations co)) as [[mc' ms1]| |] eqn:Eq; [|done..].
  destruct (queue_operations_replay _ _ _ _ Hco (Hwf _ _ Hmc) Eq) as [Hwf' Hr].
  apply opt_bind_Some in Hq as ([mcs2 ms2] & Hq & [= <- <-]).
  eapply IH; [| |done]; apply map_Forall_insert_2; try done.
  by eapply mc_mutations_owned; [eapply Ho|].
Qed.

Fixpoint process_currencies (rmds : gmap Currency Z) (mcs : gmap Currency MutualCredit)
    (cos : list CurrencyOperations)
    : outcome ReceiveMoveTokenError
        (gmap Currency MutualCredit * list (TcMutation B) * list MoveTokenReceivedCurrency) :=
  match cos with
  | [] => Ok (mcs, [], [])
  | co :: rest =>
      let? mc := ok_or (mcs !! co_currency co) InvalidCurrency in
      let? res := map_err InvalidTransaction
        (process_operations_list mc (co_operations co) (default 0 (rmds !! co_currency co))) in
      let? res' := process_currencies rmds (<[co_currency co := fst res]> mcs) rest in
      let '(mcs', ms', recv') := res' in
      Ok (mcs',
          map (TcMcMutation (co_currency co)) (concat (map po_mc_mutations (snd res))) ++ ms',
          mkMtrCurrency (co_currency co) (omap po_incoming_message (snd res)) :: recv')
  end.

Definition rmds_ok (rmds : gmap Currency Z) : Prop := map_Forall (fun _ => u_ok 128) rmds.

Lemma rmds_default rmds c : rmds_ok rmds -> u_ok 128 (default 0 (rmds !! c)).
Proof.
  intros Hr. destruct (rmds !! c) as [z|] eqn:E; simpl; [by eapply Hr|]. by split.
Qed.

Lemma receive_currencies_fold rmds cos tc acc recv o :
  direction tc = DirOutgoing o -> credits_wf (mutual_credits tc) -> cos_ok cos -> rmds_ok rmds ->
  ofold (receive_currency_operations rmds) ((tc, acc), recv) cos =
  match process_currencies rmds (mutual_credits tc) cos with
  | Ok (mcs', ms, recv') => Ok ((with_mutual_credits tc mcs', acc ++ ms), recv ++ recv')
  | Err e => Err e
  | Panic => Panic
  end.
Proof.
  intros Hd Hwf Hcos Hrmds. revert tc acc recv Hd Hwf.
  induction Hcos as [|co cos Hco _ IH]; intros tc acc recv Hd Hwf; simpl.
  - by rewrite with_mutual_credits_id, !app_nil_r.
  - unfold get_outgoing, get_direction. simpl. rewrite Hd. simpl.
    destruct (mutual_credits tc !! co_currency co) as [mc|] eqn:Hmc; simpl; [|done].
    pose proof (Hwf _ _ Hmc) as Hmcwf.
    destruct (process_operations_list mc (co_operations co) _) as [[mc' outs]| |] eqn:Eq; simpl; [|done..].
    destruct (process_operations_replay _ _ _ _ _ _ Hco (rmds_default _ _ Hrmds) Hmcwf Eq) as [Hwf' Hr].
    rewrite tc_apply_push_fold, (pfold_mc_mutations _ _ _ mc mc') by done. simpl.
    rewrite IH; [|done|by apply map_Forall_insert_2]. simpl.
    destruct (process_currencies rmds _ cos) as [[[mcs' ms'] recv']| |]; simpl; [|done..].
    by rewrite !app_assoc, <- (app_assoc recv).
Qed.

Lemma process_currencies_replay rmds cos tc mcs' ms recv :
  credits_wf (mutual_credits tc) -> cos_ok cos -> rmds_ok rmds ->
  process_currencies rmds (mutual_credits tc) cos = Ok (mcs', ms, recv) ->
  credits_wf mcs' /\ dom mcs' = dom (mutual_credits tc) /\
  pfold tc_mutate tc ms = Some (with_mutual_credits tc mcs').
Proof.
  intros Hwf Hcos Hrmds. revert tc ms recv Hwf.
  induction Hcos as [|co cos Hco _ IH]; intros tc ms recv Hwf Hq; simpl in Hq.
  - simplify_eq. simpl. by rewrite with_mutual_credits_id.
  - destruct (mutual_credits tc !! co_currency co) as [mc|] eqn:Hmc; simpl in Hq; [|done].
    destruct (process_operations_list mc (co_operations co) _) as [[mc' outs]| |] eqn:Eq; simpl in Hq; [|done..].
    destruct (process_operations_replay _ _ _ _ _ _ Hco (rmds_default _ _ Hrmds) (Hwf _ _ Hmc) Eq) as [Hwf' Hr].
    apply obind_Ok in Hq as ([[mcs2 ms2] recv2] & Hq & [= <- <- <-]).
    destruct (IH (with_mutual_credits tc (<[co_currency co := mc']> (mutual_credits tc))) ms2 recv2)
      as (Hwf2 & Hdom & Hp); [by apply map_Forall_insert_2|done|].
    split; [done|]. split.
    + rewrite Hdom. simpl. rewrite dom_insert_lookup_L; [done|by eexists].
    + rewrite pfold_app, (pfold_mc_mutations _ _ _ mc mc') by done. exact Hp.
Qed.

(** What the sender queues over all currencies, the receiver processes into the
    opposite ledgers, unless a request overflows. *)
Definition credits_pair (mcs : gmap Currency MutualCredit) : Prop :=
  map_Forall (fun _ mc => mc_pair mc (flip_mc mc)) mcs.

Lemma pair_currencies rmds cos mcs mcs' ms :
  credits_pair mcs -> cos_ok cos -> rmds_ok rmds -> queue_currencies mcs cos = Some (mcs', ms) ->
  (exists ms' recv, process_currencies rmds (flip_mc <$> mcs) cos = Ok (flip_mc <$> mcs', ms', recv) /\
     credits_pair mcs') \/
  (exists i, process_currencies rmds (flip_mc <$> mcs) cos
     = Err (InvalidTransaction (mkProcessTransListError i PCreditsCalcOverflow))).
Proof.
  intros Hp Hcos Hrmds. revert mcs ms Hp.
  induction Hcos as [|co cos Hco _ IH]; intros mcs ms Hp Hq; simpl in Hq.
  - simplify_eq. left. by do 2 eexists.
  - destruct (mcs !! co_currency co) as [mc|] eqn:Hmc; simpl in Hq; [|done].
    destruct (queue_operations mc (co_operations co)) as [[mc' ms1]| |] eqn:Eq; [|done..].
    apply opt_bind_Some in Hq as ([mcs2 ms2] & Hq & [= <- <-]). simpl.
    rewrite lookup_fmap, Hmc. simpl. unfold process_operations_list.
    destruct (pair_batch mc (flip_mc mc) (co_operations co) (default 0 (rmds !! co_currency co)) 0 mc' ms1)
      as [(outs & -> & Hp')|(j & r & -> & _)]; [by eapply Hp|done|by apply rmds_default|done|..].
    + simpl. rewrite <- fmap_insert.
      destruct (IH (<[co_currency co := mc']> mcs) ms2) as [(ms3 & recv & -> & Hp2)|(i & ->)];
        [by apply map_Forall_insert_2|done|..]; simpl; [|right; by eexists].
      left. do 2 eexists. done.
    + right. by eexists.
Qed.
End Loops.
