(* ===== verification/TcPair.v ===== *)
(** * Two ends of a token channel

    The protocol property of [token_channel.rs]: when one end sends a move
    token and the other end receives it, the receiver accepts it (unless a
    counter or a request overflows), both ends then hold opposite ledgers and
    the same token information, and the token has changed hands. *)

From S2P Require Import Prelude Arith Bytes Messages Canonical MutualCredit McTheory McPair TokenChannel TcTheory.

Local Open Scope Z_scope.

Section TcPair.
Context `{CryptoOps} {B : Type} `{CanonicalSerialize B}.
Implicit Types a b tc : TokenChannel B.

(** The two ends keep opposite ledgers and the same sets of active currencies;
    a currency has a ledger exactly when both sides activated it. *)
Record ledger_pair (pka pkb : PublicKey) (a b : TokenChannel B) : Prop := {
  lp_credits : mutual_credits b = flip_mc <$> mutual_credits a;
  lp_pairs : credits_pair (mutual_credits a);
  lp_idents : map_Forall (owned_by pka pkb) (mutual_credits a);
  lp_local : ac_local (active_currencies a) = ac_remote (active_currencies b);
  lp_remote : ac_remote (active_currencies a) = ac_local (active_currencies b);
  lp_active : dom (mutual_credits a) = calc_active (active_currencies a)
}.

(** [a] holds the token that [b] sent last. *)
Record tc_pair (pka pkb : PublicKey) (a b : TokenChannel B) (o : TcOutgoing B) : Prop := {
  tp_ledger : ledger_pair pka pkb a b;
  tp_out : direction b = DirOutgoing o;
  tp_in : direction a = DirIncoming (mkTcIncoming (create_hashed (move_token_out o) (tco_token_info o)));
  tp_local_key : mi_local_public_key (ti_mc (tco_token_info o)) = pkb;
  tp_remote_key : mi_remote_public_key (ti_mc (tco_token_info o)) = pka;
  tp_balances : mi_balances (ti_mc (tco_token_info o)) = sorted_balances (mutual_credits b);
  tp_counter : u_ok 128 (move_token_counter (ti_counters (tco_token_info o)))
}.

Lemma credits_pair_wf mcs : credits_pair mcs -> credits_wf mcs /\ credits_wf (flip_mc <$> mcs).
Proof.
  intros Hp. split.
  - intros c mc Hc. apply (Hp c mc Hc).
  - apply map_Forall_fmap. intros c mc Hc. apply (Hp c mc Hc).
Qed.

(** Balances of a pair can be flipped without a panic. *)
Lemma pair_flippable mcs l r cs :
  credits_wf (flip_mc <$> mcs) -> flippable (mkTokenInfo (mkMcInfo l r (sorted_balances mcs)) cs).
Proof.
  intros Hwf. unfold flippable. simpl. apply Forall_forall. intros [c bi] Hin.
  apply sorted_balances_elem in Hin as (mc & Hmc & ->). simpl.
  apply (Hwf c (flip_mc mc)). by rewrite lookup_fmap, Hmc.
Qed.

Lemma tc_pair_local_info_in pka pkb a b o :
  tc_pair pka pkb a b o -> exists ti, local_token_info a = Some ti /\
    mi_local_public_key (ti_mc ti) = pka /\ mi_remote_public_key (ti_mc ti) = pkb.
Proof.
  intros Hp. unfold local_token_info. rewrite (tp_in _ _ _ _ _ Hp). simpl.
  destruct (tco_token_info o) as [[l r bs] cs] eqn:E.
  pose proof (tp_local_key _ _ _ _ _ Hp) as Hl. pose proof (tp_remote_key _ _ _ _ _ Hp) as Hr.
  pose proof (tp_balances _ _ _ _ _ Hp) as Hb. rewrite E in *. simpl in *. subst.
  rewrite flip_token_info_eq; [by eexists|].
  apply pair_flippable. destruct (tp_ledger _ _ _ _ _ Hp) as [-> Hpairs _ _ _ _].
  apply credits_pair_wf in Hpairs as [Hwf _]. rewrite <- map_fmap_compose.
  intros c mc. rewrite lookup_fmap. intros (mc' & Hc & ->)%fmap_Some. simpl.
  rewrite flip_mc_involutive. by apply (Hwf c).
Qed.

(** ** Active currencies *)

(** A channel after one side's new list of active currencies. *)
Definition activate (l r : PublicKey) tc (ac : ActiveCurrencies) : TokenChannel B :=
  mkTokenChannel (direction tc)
    (fresh_credits l r (new_currencies (mutual_credits tc) ac) ∪ mutual_credits tc) ac.

Lemma pfold_activate tc ac ti :
  local_token_info tc = Some ti ->
  pfold tc_mutate (with_active tc ac) (map AddMutualCredit (new_currencies (mutual_credits tc) ac)) =
  Some (activate (mi_local_public_key (ti_mc ti)) (mi_remote_public_key (ti_mc ti)) tc ac).
Proof.
  intros Hti. rewrite (pfold_add_credits _ _ ti); [done|by destruct tc|apply new_currencies_NoDup|].
  intros c Hc. simpl. by apply new_currencies_ok.
Qed.

Definition set_local_active tc (cs : list Currency) : ActiveCurrencies :=
  mkActiveCurrencies (list_to_set cs) (ac_remote (active_currencies tc)).
Definition set_remote_active tc (cs : list Currency) : ActiveCurrencies :=
  mkActiveCurrencies (ac_local (active_currencies tc)) (list_to_set cs).

Lemma send_active_eq tc i ti acs :
  direction tc = DirIncoming i -> local_token_info tc = Some ti ->
  send_active_currencies tc acs =
  match acs with
  | None => Ok (tc, [])
  | Some cs =>
      if keeps_used_currencies (mutual_credits tc) cs then
        Ok (activate (mi_local_public_key (ti_mc ti)) (mi_remote_public_key (ti_mc ti)) tc (set_local_active tc cs),
            SetLocalActiveCurrencies cs ::
              map AddMutualCredit (new_currencies (mutual_credits tc) (set_local_active tc cs)))
      else Err SCanNotRemoveCurrencyInUse
  end.
Proof.
  intros Hd Hti. destruct acs as [cs|]; simpl; [|done].
  destruct (keeps_used_currencies _ _); simpl; [|done].
  unfold get_incoming, get_direction. simpl. rewrite Hd. simpl.
  rewrite tc_apply_push_fold. fold (set_local_active tc cs).
  by rewrite (pfold_activate tc (set_local_active tc cs) ti).
Qed.

Lemma receive_active_eq tc o acs :
  direction tc = DirOutgoing o ->
  receive_active_currencies tc acs =
  match acs with
  | None => Ok (tc, [])
  | Some cs =>
      if keeps_used_currencies (mutual_credits tc) cs then
        Ok (activate (mi_local_public_key (ti_mc (tco_token_info o)))
              (mi_remote_public_key (ti_mc (tco_token_info o))) tc (set_remote_active tc cs),
            SetRemoteActiveCurrencies cs ::
              map AddMutualCredit (new_currencies (mutual_credits tc) (set_remote_active tc cs)))
      else Err RCanNotRemoveCurrencyInUse
  end.
Proof.
  intros Hd. destruct acs as [cs|]; simpl; [|done].
  destruct (keeps_used_currencies _ _); simpl; [|done].
  unfold get_outgoing, get_direction. simpl. rewrite Hd. simpl.
  rewrite tc_apply_push_fold. fold (set_remote_active tc cs).
  rewrite (pfold_activate tc (set_remote_active tc cs) (tco_token_info o)); [done|].
  unfold local_token_info. by rewrite Hd.
Qed.

(** Both ends open the same ledgers. *)
Lemma activate_pair pka pkb a b cs :
  ledger_pair pka pkb a b -> dom (mutual_credits a) ⊆ list_to_set cs ->
  ledger_pair pka pkb (activate pka pkb a (set_local_active a cs))
                      (activate pkb pka b (set_remote_active b cs)).
Proof.
  intros [Hc Hp Hi Hl Hr Hact] Hk.
  assert (new_currencies (mutual_credits b) (set_remote_active b cs)
          = new_currencies (mutual_credits a) (set_local_active a cs)) as Hn.
  { unfold new_currencies, set_remote_active, set_local_active. simpl.
    rewrite Hc, dom_fmap_L, Hr. f_equal. set_solver. }
  assert (forall P : Currency -> MutualCredit -> Prop,
    (forall c, P c (mc_new pka pkb c 0)) -> map_Forall P (mutual_credits a) ->
    map_Forall P (fresh_credits pka pkb (new_currencies (mutual_credits a) (set_local_active a cs))
                  ∪ mutual_credits a)) as Hall.
  { intros P Hnew Hold c mc. rewrite lookup_union_Some_raw, fresh_credits_lookup.
    intros [E|[_ E]]; [|by apply Hold]. case_decide; by simplify_eq. }
  constructor; simpl.
  - rewrite Hn, Hc, map_fmap_union, flip_fresh_credits. done.
  - apply Hall; [|done]. intros c. split; [|split]; [apply mc_new_wf..|done]; by vm_compute.
  - apply Hall; [|done]. by intros c.
  - done.
  - done.
  - apply set_eq. intros c. rewrite dom_union, elem_of_union, !elem_of_dom, fresh_credits_lookup.
    unfold calc_active. rewrite elem_of_intersection. simpl.
    pose proof (new_currencies_ok (mutual_credits a) (set_local_active a cs) c) as Hnc.
    unfold set_local_active in *. simpl in *.
    destruct (decide (c ∈ dom (mutual_credits a))) as [Hin|Hin].
    + pose proof Hin as Hin'. rewrite Hact in Hin'. unfold calc_active in Hin'.
      apply elem_of_dom in Hin. specialize (Hk c). set_solver.
    + apply not_elem_of_dom in Hin as Hin'. rewrite Hin'.
      case_decide as Hd; rewrite Hnc in Hd; unfold is_Some; set_solver.
Qed.

(** ** One round of the protocol *)

Lemma ledger_pair_sym pka pkb a b : ledger_pair pka pkb a b -> ledger_pair pkb pka b a.
Proof.
  intros [Hc Hp Hi Hl Hr Hact].
  assert (flip_mc <$> (flip_mc <$> mutual_credits a) = mutual_credits a) as Hinv.
  { rewrite <- map_fmap_compose. apply map_eq. intros c. rewrite lookup_fmap.
    destruct (mutual_credits a !! c); simpl; [|done]. by rewrite flip_mc_involutive. }
  constructor; try done.
  - by rewrite Hc, Hinv.
  - rewrite Hc. apply map_Forall_fmap. intros c mc Hmc. simpl.
    rewrite flip_mc_involutive. apply mc_pair_sym. by eapply Hp.
  - rewrite Hc. apply map_Forall_fmap. intros c mc Hmc. simpl.
    destruct (Hi c mc Hmc) as [<- Ho]. unfold owned_by. simpl. by rewrite Ho.
  - rewrite Hc, dom_fmap_L, Hact. unfold calc_active. rewrite Hl, Hr. set_solver.
Qed.

(** The outcome of the part that handles active currencies, on both ends. *)
Lemma active_step pka pkb a b o acs a1 ms1 :
  tc_pair pka pkb a b o -> send_active_currencies a acs = Ok (a1, ms1) ->
  pfold tc_mutate a ms1 = Some a1 /\ direction a1 = direction a /\
  exists b1 ms1', receive_active_currencies b acs = Ok (b1, ms1') /\
    pfold tc_mutate b ms1' = Some b1 /\ direction b1 = direction b /\ ledger_pair pka pkb a1 b1.
Proof.
  intros Hp. pose proof (tp_ledger _ _ _ _ _ Hp) as Hlp.
  destruct (tc_pair_local_info_in _ _ _ _ _ Hp) as (ti & Hti & Hl & Hr).
  rewrite (send_active_eq a _ ti) by (apply Hp || done).
  rewrite (receive_active_eq b o) by apply Hp.
  destruct acs as [cs|].
  2:{ intros [= <- <-]. split_and!; try done. exists b, []. done. }
  destruct (keeps_used_currencies (mutual_credits a) cs) eqn:Hk; [|done]. intros [= <- <-].
  apply keeps_used_currencies_spec in Hk.
  assert (keeps_used_currencies (mutual_credits b) cs = true) as ->.
  { apply keeps_used_currencies_spec. rewrite (lp_credits _ _ _ _ Hlp), dom_fmap_L. done. }
  rewrite Hl, Hr, (tp_local_key _ _ _ _ _ Hp), (tp_remote_key _ _ _ _ _ Hp). split; [|split; [done|]].
  - simpl. fold (set_local_active a cs). by rewrite (pfold_activate _ _ ti), Hl, Hr.
  - do 2 eexists. split; [done|]. split; [|split; [done|by apply activate_pair]].
    simpl. fold (set_remote_active b cs). rewrite (pfold_activate _ _ (tco_token_info o)).
    + by rewrite (tp_local_key _ _ _ _ _ Hp), (tp_remote_key _ _ _ _ _ Hp).
    + unfold local_token_info. by rewrite (tp_out _ _ _ _ _ Hp).
Qed.

(** What a successful [simulate_send_move_token] returns. *)
Lemma simulate_send_inv pka pkb a b o tib cos relays acs nonce out :
  tc_pair pka pkb a b o -> cos_ok cos -> get_incoming a = Some tib ->
  simulate_send_move_token tib cos relays acs nonce = Ok out ->
  exists a1 ms1 mcs' ms,
    send_active_currencies a acs = Ok (a1, ms1) /\
    queue_currencies (mutual_credits a1) cos = Some (mcs', ms) /\
    smo_mutations out = ms1 ++ ms /\
    pfold tc_mutate a (ms1 ++ ms) = Some (with_mutual_credits a1 mcs') /\
    smo_token_info out = mkTokenInfo (mkMcInfo pka pkb (sorted_balances mcs'))
      (mkCountersInfo (inconsistency_counter (ti_counters (tco_token_info o)))
         (cast_u 128 (move_token_counter (ti_counters (tco_token_info o)) + 1))) /\
    smo_unsigned_move_token out = create_unsigned_move_token cos relays acs (smo_token_info out)
      (mt_new_token (move_token_out o)) nonce.
Proof.
  intros Hp Hcos Htib. unfold get_incoming, get_direction in Htib.
  pose proof (tp_in _ _ _ _ _ Hp) as Hin. rewrite Hin in Htib. injection Htib as <-.
  unfold simulate_send_move_token, in_create_token_channel. simpl. rewrite <- Hin.
  replace (mkTokenChannel (direction a) (mutual_credits a) (active_currencies a)) with a by by destruct a.
  intros Hs. apply obind_Ok in Hs as ([a1 ms1] & Hact & Hs).
  destruct (active_step _ _ _ _ _ _ _ _ Hp Hact) as (Hr1 & Hd1 & b1 & ms1' & _ & _ & _ & Hlp1).
  apply obind_Ok in Hs as ([a2 ms2] & Hq & Hs).
  rewrite Hin in Hd1.
  destruct (credits_pair_wf _ (lp_pairs _ _ _ _ Hlp1)) as [Hwf1 _].
  rewrite (send_currencies_fold _ _ _ _ Hd1) in Hq by done.
  destruct (queue_currencies (mutual_credits a1) cos) as [[mcs' ms]|] eqn:Eq; [|done].
  injection Hq as <- <-. destruct (queue_currencies_replay _ _ _ _ Hwf1 Hcos Eq) as (_ & _ & Hr2).
  unfold get_incoming, get_direction in Hs. simpl in Hs. rewrite Hd1 in Hs. simpl in Hs.
  injection Hs as <-. simpl. exists a1, ms1, mcs', ms. split_and!; try done.
  - by rewrite pfold_app, Hr1.
  - by rewrite (tp_local_key _ _ _ _ _ Hp), (tp_remote_key _ _ _ _ _ Hp).
Qed.

Lemma verify_signed_move_token (pk : PublicKey) `{!SignerOps pk} (m : UnsignedMoveToken B) :
  verify_move_token (sign_move_token pk m) pk = true.
Proof.
  unfold verify_move_token. destruct m. apply request_signature_verifies.
Qed.

(** The token information the receiver expects is the one the sender hashed. *)
Lemma expected_info_eq pka pkb o a b mcs' :
  tc_pair pka pkb a b o -> u_ok 128 (move_token_counter (ti_counters (tco_token_info o)) + 1) ->
  neg_token_info (mkTokenInfo (mkMcInfo (mi_local_public_key (ti_mc (tco_token_info o)))
            (mi_remote_public_key (ti_mc (tco_token_info o))) (sorted_balances (flip_mc <$> mcs')))
            (mkCountersInfo (inconsistency_counter (ti_counters (tco_token_info o)))
               (move_token_counter (ti_counters (tco_token_info o)) + 1))) =
  mkTokenInfo (mkMcInfo pka pkb (sorted_balances mcs'))
      (mkCountersInfo (inconsistency_counter (ti_counters (tco_token_info o)))
         (cast_u 128 (move_token_counter (ti_counters (tco_token_info o)) + 1))).
Proof.
  intros Hp Hc. unfold neg_token_info. simpl.
  rewrite (tp_local_key _ _ _ _ _ Hp), (tp_remote_key _ _ _ _ _ Hp), cast_u_id, sorted_balances_flip by done.
  do 2 f_equal. rewrite <- list_fmap_compose. rewrite <- (list_fmap_id (sorted_balances mcs')) at 2.
  apply list_fmap_ext. intros ? c _. apply neg_cbi_involutive.
Qed.

(** The new ledgers of the sender and their mirror images. *)
Lemma ledger_pair_queue pka pkb a b (da db : TcDirection B) cos mcs' (ms : list (TcMutation B)) :
  ledger_pair pka pkb a b -> cos_ok cos -> credits_pair mcs' ->
  queue_currencies (mutual_credits a) cos = Some (mcs', ms) ->
  ledger_pair pka pkb (mkTokenChannel da mcs' (active_currencies a))
    (mkTokenChannel db (flip_mc <$> mcs') (active_currencies b)).
Proof.
  intros [Hc Hp Hi Hl Hr Hact] Hcos Hp' Hq. destruct (credits_pair_wf _ Hp) as [Hwf _].
  destruct (queue_currencies_replay _ _ _ _ Hwf Hcos Hq) as (_ & Hdom & _).
  constructor; simpl; try done.
  - by eapply queue_currencies_owned.
  - by rewrite Hdom.
Qed.

(** The receiver's computation on the honest sender's message. *)
Lemma receive_token_match pka `{!SignerOps pka} pkb a b o tib cos relays acs nonce out rmds :
  tc_pair pka pkb a b o -> cos_ok cos -> rmds_ok rmds -> get_incoming a = Some tib ->
  simulate_send_move_token tib cos relays acs nonce = Ok out ->
  let mt := sign_move_token pka (smo_unsigned_move_token out) in
  (exists r b' a' o',
     handle_incoming_token_match (mkTcOutBorrow o (mutual_credits b) (active_currencies b)) mt rmds = Ok r /\
     pfold tc_mutate b (mtr_mutations r) = Some b' /\
     pfold tc_mutate a (smo_mutations out ++ [TcSetDirection (SetOutgoing mt (smo_token_info out))]) = Some a' /\
     mtr_opt_local_relays r = relays /\ tc_pair pkb pka b' a' o') \/
  (exists i, handle_incoming_token_match (mkTcOutBorrow o (mutual_credits b) (active_currencies b)) mt rmds
     = Err (InvalidTransaction (mkProcessTransListError i PCreditsCalcOverflow))) \/
  (handle_incoming_token_match (mkTcOutBorrow o (mutual_credits b) (active_currencies b)) mt rmds
     = Err MoveTokenCounterOverflow /\
   move_token_counter (ti_counters (tco_token_info o)) = u_max 128).
Proof.
  intros Hp Hcos Hrmds Htib Hs mt.
  destruct (simulate_send_inv _ _ _ _ _ _ _ _ _ _ _ Hp Hcos Htib Hs)
    as (a1 & ms1 & mcs' & ms & Hact & Hq & Hms & Hra & Hti & Humt).
  destruct (active_step _ _ _ _ _ _ _ _ Hp Hact) as (_ & Hda1 & b1 & ms1' & Hrcv & Hrb1 & Hdb1 & Hlp1).
  rewrite (tp_out _ _ _ _ _ Hp) in Hdb1.
  destruct (credits_pair_wf _ (lp_pairs _ _ _ _ Hlp1)) as [Hwf1 Hwf1'].
  pose proof (verify_signed_move_token pka (smo_unsigned_move_token out)) as Hv. fold mt in Hv.
  assert (mt_opt_active_currencies mt = acs /\ mt_currencies_operations mt = cos /\
    mt_opt_local_relays mt = relays /\ mt_info_hash mt = hash_token_info (smo_token_info out))
    as (Ham & Hom & Hrm & Him) by (subst mt; by rewrite Humt).
  clearbody mt. unfold handle_incoming_token_match, out_create_token_channel. simpl.
  rewrite (tp_remote_key _ _ _ _ _ Hp), Hv, Ham, Hom, Hrm, Him. clear Hv. simpl.
  rewrite <- (tp_out _ _ _ _ _ Hp).
  replace (mkTokenChannel (direction b) (mutual_credits b) (active_currencies b)) with b by by destruct b.
  rewrite Hrcv. simpl.
  rewrite (receive_currencies_fold _ _ _ _ _ _ Hdb1), (lp_credits _ _ _ _ Hlp1)
    by (done || by rewrite (lp_credits _ _ _ _ Hlp1)).
  destruct (pair_currencies rmds cos _ _ _ (lp_pairs _ _ _ _ Hlp1) Hcos Hrmds Hq)
    as [(ms' & recv & Epc & Hpairs)|[i Epc]]; rewrite Epc; [|right; left; by eexists].
  unfold get_outgoing, get_direction. simpl. rewrite Hdb1. simpl.
  destruct (checked_u 128 _) as [n|] eqn:En.
  2:{ right. right. split; [done|]. pose proof (tp_counter _ _ _ _ _ Hp) as [Hc1 Hc2].
      unfold checked_u in En. destruct (u_okb 128 _) eqn:Eo in En; [done|].
      apply not_true_iff_false in Eo. rewrite u_okb_spec in Eo. unfold u_ok in Eo. lia. }
  apply checked_u_Some in En as [Hn ->]. simpl. left.
  destruct (credits_pair_wf _ Hpairs) as [Hwf' Hwf''].
  rewrite flip_token_info_eq.
  2:{ apply pair_flippable. rewrite <- map_fmap_compose. intros c mc. rewrite lookup_fmap.
      intros (mc' & Hc & ->)%fmap_Some. simpl. rewrite flip_mc_involutive. by apply (Hwf' c). }
  rewrite (expected_info_eq _ _ _ _ _ _ Hp Hn), <- Hti. simpl.
  rewrite bool_decide_eq_true_2 by done. simpl.
  set (h := create_hashed mt (smo_token_info out)).
  exists (mkMoveTokenReceived ((ms1' ++ ms') ++ [TcSetDirection (SetIncoming h)]) recv relays),
    (mkTokenChannel (DirIncoming (mkTcIncoming h)) (flip_mc <$> mcs') (active_currencies b1)),
    (mkTokenChannel (DirOutgoing (mkTcOutgoing mt (smo_token_info out)
        (Some (create_hashed (move_token_out o) (tco_token_info o))))) mcs' (active_currencies a1)),
    (mkTcOutgoing mt (smo_token_info out) (Some (create_hashed (move_token_out o) (tco_token_info o)))).
  assert (credits_wf (mutual_credits b1)) as Hwfb by by rewrite (lp_credits _ _ _ _ Hlp1).
  rewrite <- (lp_credits _ _ _ _ Hlp1) in Epc.
  destruct (process_currencies_replay _ _ _ _ _ _ Hwfb Hcos Hrmds Epc) as (_ & _ & Hrb2).
  split_and!.
  - done.
  - simpl. by rewrite pfold_app, pfold_app, Hrb1; simpl; rewrite Hrb2.
  - rewrite Hms, pfold_app, Hra. simpl. unfold tc_get_last_incoming_move_token_hashed. simpl.
    by rewrite Hda1, (tp_in _ _ _ _ _ Hp).
  - done.
  - constructor; simpl; try done.
    + apply ledger_pair_sym. by eapply ledger_pair_queue.
    + by rewrite Hti.
    + by rewrite Hti.
    + by rewrite Hti.
    + rewrite Hti. simpl. by rewrite cast_u_id.
Qed.

(** ** The channel as a protocol *)

(** What the sender stores after signing its message ([send_move_token] of
    [sender.rs]): the mutations of the simulation, then the new direction. *)
Definition sent_mutations (pk : PublicKey) `{!SignerOps pk} (out : SendMoveTokenOutput B) : list (TcMutation B) :=
  smo_mutations out ++
    [TcSetDirection (SetOutgoing (sign_move_token pk (smo_unsigned_move_token out)) (smo_token_info out))].

(** Receiving a move token and applying the mutations it causes. *)
Definition receive_and_apply (tc : TokenChannel B) (mt : MoveToken B) (rmds : gmap Currency Z)
    : outcome ReceiveMoveTokenError (TokenChannel B) :=
  let? r := simulate_receive_move_token tc mt rmds in
  match r with
  | Received r => unwrap (pfold tc_mutate tc (mtr_mutations r))
  | Duplicate | RetransmitOutgoing _ => Ok tc
  end.

(** The receiver's outcome on an honest message: the token changes hands with
    opposite ledgers, or a counter or request is out of range. *)
Definition round_outcome (pka pkb : PublicKey) (a' b : TokenChannel B) (o : TcOutgoing B)
    (res : outcome ReceiveMoveTokenError (TokenChannel B)) : Prop :=
  match res with
  | Ok b' => exists o', tc_pair pkb pka b' a' o' /\ direction a' = DirOutgoing o'
  | Err (InvalidTransaction e) => ple_process_trans_error e = PCreditsCalcOverflow
  | Err MoveTokenCounterOverflow => move_token_counter (ti_counters (tco_token_info o)) = u_max 128
  | _ => False
  end.

Lemma round_step pka `{!SignerOps pka} pkb a b o tib cos relays acs nonce out rmds :
  tc_pair pka pkb a b o -> cos_ok cos -> rmds_ok rmds -> get_incoming a = Some tib ->
  simulate_send_move_token tib cos relays acs nonce = Ok out ->
  exists a', pfold tc_mutate a (sent_mutations pka out) = Some a' /\
    round_outcome pka pkb a' b o
      (receive_and_apply b (sign_move_token pka (smo_unsigned_move_token out)) rmds).
Proof.
  intros Hp Hcos Hrmds Htib Hs.
  destruct (simulate_send_inv _ _ _ _ _ _ _ _ _ _ _ Hp Hcos Htib Hs)
    as (a1 & ms1 & mcs' & ms & _ & _ & Hms & Hra & _ & Humt).
  pose proof (receive_token_match pka _ _ _ _ _ _ _ _ _ _ _ Hp Hcos Hrmds Htib Hs) as Hm. simpl in Hm.
  unfold sent_mutations. rewrite pfold_app, Hms, Hra. simpl. eexists. split; [done|].
  unfold receive_and_apply, simulate_receive_move_token, get_direction.
  rewrite (tp_out _ _ _ _ _ Hp). unfold out_handle_incoming. cbn [tob_outgoing].
  rewrite decide_True by by rewrite Humt.
  destruct Hm as [(r & b' & a' & o' & -> & Hb' & Ha' & _ & Hp')|[[i ->]|[-> Hmax]]]; simpl; [|done..].
  rewrite Hb'. simpl. exists o'. rewrite pfold_app, Hms, Hra in Ha'. simpl in Ha'.
  injection Ha' as <-. split; [done|]. apply (tp_out _ _ _ _ _ Hp').
Qed.
End TcPair.
