(* ===== verification/Channel.v ===== *)
(** * The token channel as a two-party protocol

    Both friends run the code of [token_channel.rs]: the side that holds the
    token may send a move token; each side's last move token can be delivered
    to the other side any number of times (a node retransmits it when a
    connection is established again). The reachable states of this system are
    described by an invariant, from which agreement, mutual exclusion of the
    token and tolerance to retransmission follow. *)

From S2P Require Import Prelude Arith Bytes Messages Canonical MutualCredit McTheory McPair TokenChannel TcTheory.
From S2P Require Import TcPair.
From Stdlib Require Import Strings.Byte.

Local Open Scope Z_scope.

Section Protocol.
Context `{CryptoOps} {B : Type} `{CanonicalSerialize B}.
Implicit Types a b tc : TokenChannel B.

(** [a] sends: it holds the token, and stores the signed message. The new
    token (a fresh signature) differs from the token that [b]'s last message
    replaced. *)
Definition sends (pka : PublicKey) `{!SignerOps pka} a b a' : Prop :=
  exists tib cos relays acs nonce out,
    get_incoming a = Some tib /\ cos_ok cos /\
    simulate_send_move_token tib cos relays acs nonce = Ok out /\
    pfold tc_mutate a (sent_mutations pka out) = Some a' /\
    (forall o, direction b = DirOutgoing o ->
       mt_old_token (move_token_out o) <> mt_new_token (sign_move_token pka (smo_unsigned_move_token out))).

(** [a]'s last move token is delivered to [b]. *)
Definition delivers a b (res : outcome ReceiveMoveTokenError (TokenChannel B)) : Prop :=
  exists tob rmds, get_outgoing a = Some tob /\ rmds_ok rmds /\
    res = receive_and_apply b (create_outgoing_move_token tob) rmds.

Section Parties.
Context (pka pkb : PublicKey) `{!SignerOps pka} `{!SignerOps pkb}.

Inductive chan_step : TokenChannel B * TokenChannel B -> TokenChannel B * TokenChannel B -> Prop :=
| left_sends a b a' : sends pka a b a' -> chan_step (a, b) (a', b)
| right_sends a b b' : sends pkb b a b' -> chan_step (a, b) (a, b')
| left_delivered a b b' : delivers a b (Ok b') -> chan_step (a, b) (a, b')
| right_delivered a b a' : delivers b a (Ok a') -> chan_step (a, b) (a', b).
End Parties.

(** [a] has sent a token that [b] has not processed yet. *)
Definition in_flight (pka : PublicKey) `{!SignerOps pka} (pkb : PublicKey) a b : Prop :=
  exists a0 o, tc_pair pka pkb a0 b o /\ sends pka a0 b a.

Definition phase (pka : PublicKey) `{!SignerOps pka} (pkb : PublicKey) a b : Prop :=
  (exists o, tc_pair pka pkb a b o) \/ in_flight pka pkb a b.

Lemma tc_pair_directions pka pkb a b o :
  tc_pair pka pkb a b o ->
  (exists tib, get_incoming a = Some tib) /\ get_outgoing a = None /\
  get_incoming b = None /\ get_outgoing b = Some (mkTcOutBorrow o (mutual_credits b) (active_currencies b)).
Proof.
  intros Hp. unfold get_incoming, get_outgoing, get_direction.
  rewrite (tp_in _ _ _ _ _ Hp), (tp_out _ _ _ _ _ Hp). simpl. split_and!; eauto.
Qed.

(** A sender ends up outgoing, with its signed message. *)
Lemma sends_outgoing pka `{!SignerOps pka} pkb a b a' o :
  tc_pair pka pkb a b o -> sends pka a b a' ->
  exists o', direction a' = DirOutgoing o' /\
    mt_old_token (move_token_out o') = mt_new_token (move_token_out o) /\
    mt_old_token (move_token_out o) <> mt_new_token (move_token_out o').
Proof.
  intros Hp (tib & cos & relays & acs & nonce & out & Htib & Hcos & Hs & Ha' & Hfresh).
  destruct (simulate_send_inv _ _ _ _ _ _ _ _ _ _ _ Hp Hcos Htib Hs)
    as (a1 & ms1 & mcs' & ms & _ & _ & Hms & Hra & _ & Humt).
  unfold sent_mutations in Ha'. rewrite pfold_app, Hms, Hra in Ha'. simpl in Ha'. injection Ha' as <-.
  eexists. split; [done|]. simpl. split; [by rewrite Humt|]. apply Hfresh, (tp_out _ _ _ _ _ Hp).
Qed.

(** Delivering again the token that is held changes nothing. *)
Lemma held_redelivery pka pkb a b o rmds :
  tc_pair pka pkb a b o ->
  simulate_receive_move_token a (move_token_out o) rmds = Ok Duplicate.
Proof.
  intros Hp. unfold simulate_receive_move_token, get_direction, in_handle_incoming.
  rewrite (tp_in _ _ _ _ _ Hp). simpl. by rewrite decide_True.
Qed.

(** Delivering the previous token to a sender makes it retransmit. *)
Lemma flight_redelivery pka `{!SignerOps pka} pkb a b a' o rmds :
  tc_pair pka pkb a b o -> sends pka a b a' ->
  exists tob, get_outgoing a' = Some tob /\
    simulate_receive_move_token a' (move_token_out o) rmds
    = Ok (RetransmitOutgoing (create_outgoing_move_token tob)).
Proof.
  intros Hp Hs. destruct (sends_outgoing _ _ _ _ _ _ Hp Hs) as (o' & Hd & Hold & Hne).
  unfold simulate_receive_move_token, get_outgoing, get_direction. rewrite Hd.
  eexists. split; [done|]. unfold out_handle_incoming. simpl.
  rewrite decide_False by done. by rewrite decide_True.
Qed.

(** Delivery in each phase. *)
Lemma phase_delivery_right pka `{!SignerOps pka} pkb a b a' :
  phase pka pkb a b -> delivers b a (Ok a') -> a' = a.
Proof.
  intros [[o Hp]|(a0 & o & Hp & Hs)] (tob & rmds & Hb & _ & Hr);
    destruct (tc_pair_directions _ _ _ _ _ Hp) as (_ & _ & _ & Hb'); simplify_eq; unfold receive_and_apply in Hr.
  - unfold create_outgoing_move_token in Hr. simpl in Hr.
    rewrite (held_redelivery _ _ _ _ _ _ Hp) in Hr. by injection Hr.
  - destruct (flight_redelivery _ _ _ _ _ _ rmds Hp Hs) as (tob & _ & Hd).
    unfold create_outgoing_move_token in Hr at 1. simpl in Hr. rewrite Hd in Hr. by injection Hr.
Qed.

Lemma flight_delivery pka `{!SignerOps pka} pkb a0 a b o res :
  tc_pair pka pkb a0 b o -> sends pka a0 b a -> delivers a b res -> round_outcome pka pkb a b o res.
Proof.
  intros Hp Hs (tob & rmds & Hb & Hrmds & ->).
  destruct Hs as (tib & cos & relays & acs & nonce & out & Htib & Hcos & Hsim & Ha' & Hfresh).
  destruct (round_step pka _ _ _ _ _ _ _ _ _ _ _ Hp Hcos Hrmds Htib Hsim) as (a1 & Ha1 & Hr).
  rewrite Ha' in Ha1. injection Ha1 as <-.
  replace (create_outgoing_move_token tob)
    with (sign_move_token pka (smo_unsigned_move_token out)); [done|].
  unfold sent_mutations in Ha'. rewrite pfold_app in Ha'.
  apply opt_bind_Some in Ha' as (a2 & _ & [= <-]). unfold get_outgoing, get_direction in Hb. simpl in Hb.
  injection Hb as <-. done.
Qed.

(** ** The invariant *)
Section Invariant.
Context (pka pkb : PublicKey) `{!SignerOps pka} `{!SignerOps pkb}.

Definition chan_inv (s : TokenChannel B * TokenChannel B) : Prop :=
  phase pka pkb s.1 s.2 \/ phase pkb pka s.2 s.1.

Lemma phase_step_left (pk1 pk2 : PublicKey) `{!SignerOps pk1} a b a' :
  phase pk1 pk2 a b -> sends pk1 a b a' -> phase pk1 pk2 a' b.
Proof.
  intros [[o Hp]|(a0 & o & Hp & Hs)] Hs'; [right; by exists a, o|].
  destruct (sends_outgoing _ _ _ _ _ _ Hp Hs) as (o' & Hd & _).
  destruct Hs' as (tib & ? & ? & ? & ? & ? & Htib & _). unfold get_incoming, get_direction in Htib.
  by rewrite Hd in Htib.
Qed.

Lemma phase_no_right_send (pk1 pk2 : PublicKey) `{!SignerOps pk1} `{!SignerOps pk2} a b b' :
  phase pk1 pk2 a b -> sends pk2 b a b' -> False.
Proof.
  intros Hph (tib & ? & ? & ? & ? & ? & Htib & _).
  assert (get_incoming b = None); [|congruence].
  destruct Hph as [[o Hp]|(a0 & o & Hp & _)]; apply (tc_pair_directions _ _ _ _ _ Hp).
Qed.

Lemma phase_left_delivery (pk1 pk2 : PublicKey) `{!SignerOps pk1} `{!SignerOps pk2} a b b' :
  phase pk1 pk2 a b -> delivers a b (Ok b') -> phase pk2 pk1 b' a.
Proof.
  intros [[o Hp]|(a0 & o & Hp & Hs)] Hd.
  - destruct Hd as (tob & ? & Hb & _). destruct (tc_pair_directions _ _ _ _ _ Hp) as (_ & Ho & _).
    congruence.
  - destruct (flight_delivery _ _ _ _ _ _ _ Hp Hs Hd) as (o' & Hp' & _). left. by exists o'.
Qed.

Lemma chan_inv_step s s' : chan_inv s -> chan_step pka pkb s s' -> chan_inv s'.
Proof.
  intros Hi Hst. unfold chan_inv in *. destruct Hst as [a b a' Hs|a b b' Hs|a b b' Hd|a b a' Hd]; simpl in *;
    destruct Hi as [Hi|Hi].
  - left. by eapply phase_step_left.
  - by destruct (phase_no_right_send _ _ _ _ _ Hi Hs).
  - by destruct (phase_no_right_send _ _ _ _ _ Hi Hs).
  - right. by eapply phase_step_left.
  - right. by eapply phase_left_delivery.
  - right. by rewrite (phase_delivery_right _ _ _ _ _ Hi Hd).
  - left. by rewrite (phase_delivery_right _ _ _ _ _ Hi Hd).
  - left. by eapply phase_left_delivery.
Qed.

Lemma chan_inv_steps s s' : chan_inv s -> rtc (chan_step pka pkb) s s' -> chan_inv s'.
Proof. intros Hi Hs. induction Hs; eauto using chan_inv_step. Qed.
End Invariant.

(** ** The initial state *)

Lemma initial_pair (high low : PublicKey) :
  compare_public_key low high = Lt ->
  exists o, tc_pair high low (tc_new high low) (tc_new low high) o.
Proof.
  intros Hlt. assert (compare_public_key high low = Gt) as Hgt.
  { unfold compare_public_key in *. by rewrite bytes_cmp_antisym, Hlt. }
  unfold tc_new. rewrite Hlt, Hgt. simpl. eexists. by constructor; [constructor|..].
Qed.

Lemma initial_chan_inv (pka pkb : PublicKey) `{!SignerOps pka} `{!SignerOps pkb} :
  compare_public_key pka pkb <> Eq -> chan_inv pka pkb (tc_new pka pkb, tc_new pkb pka).
Proof.
  intros Hne. unfold chan_inv, phase. simpl. destruct (compare_public_key pka pkb) eqn:E; [done|..].
  - right. left. by apply initial_pair.
  - left. left. apply initial_pair. unfold compare_public_key in *. by rewrite bytes_cmp_antisym, E.
Qed.

(** Two ledgers that mirror each other. *)
Definition mirrored a b : Prop :=
  mutual_credits b = flip_mc <$> mutual_credits a /\
  ac_local (active_currencies a) = ac_remote (active_currencies b) /\
  ac_remote (active_currencies a) = ac_local (active_currencies b) /\
  dom (mutual_credits a) = calc_active (active_currencies a) /\
  credits_wf (mutual_credits a) /\ credits_wf (mutual_credits b).

Lemma ledger_pair_mirrored pka pkb a b : ledger_pair pka pkb a b -> mirrored a b.
Proof.
  intros [Hc Hp _ Hl Hr Hd]. destruct (credits_pair_wf _ Hp). by rewrite <- Hc in *.
Qed.

Lemma ledger_pair_mirrored_sym pka pkb a b : ledger_pair pka pkb a b -> mirrored b a.
Proof. intros Hp%ledger_pair_sym. by eapply ledger_pair_mirrored. Qed.

(** What a delivery of one side's last token may do. *)
Definition delivery_outcome b (res : outcome ReceiveMoveTokenError (TokenChannel B)) : Prop :=
  match res with
  | Ok b' => b' = b \/ (get_incoming b = None /\ get_incoming b' <> None)
  | Err (InvalidTransaction e) => ple_process_trans_error e = PCreditsCalcOverflow
  | Err MoveTokenCounterOverflow =>
      exists o, direction b = DirOutgoing o /\
        move_token_counter (ti_counters (tco_token_info o)) = u_max 128
  | _ => False
  end.

Lemma round_delivery_outcome pka pkb a0 a b o res :
  tc_pair pka pkb a0 b o -> round_outcome pka pkb a b o res -> delivery_outcome b res.
Proof.
  intros Hp. destruct res as [b'|[]|]; simpl; try done.
  - intros (o' & Hp' & _). right. split; [apply (tc_pair_directions _ _ _ _ _ Hp)|].
    destruct (tc_pair_directions _ _ _ _ _ Hp') as [[tib ->] _]. done.
  - intros Hm. exists o. split; [apply (tp_out _ _ _ _ _ Hp)|done].
Qed.

Lemma phase_deliveries (pk1 pk2 : PublicKey) `{!SignerOps pk1} a b :
  phase pk1 pk2 a b ->
  (forall res, delivers a b res -> delivery_outcome b res) /\
  (forall res, delivers b a res -> delivery_outcome a res).
Proof.
  intros Hph. split; intros res Hd.
  - destruct Hph as [[o Hp]|(a0 & o & Hp & Hs)].
    + destruct Hd as (? & ? & Hb & _). destruct (tc_pair_directions _ _ _ _ _ Hp) as (_ & Ho & _). congruence.
    + by eapply round_delivery_outcome, flight_delivery.
  - assert (exists a', res = Ok a') as [a' ->]; [|left; by eapply phase_delivery_right].
    destruct Hd as (tob & rmds & Hb & _ & ->).
    destruct Hph as [[o Hp]|(a0 & o & Hp & Hs)];
      destruct (tc_pair_directions _ _ _ _ _ Hp) as (_ & _ & _ & Hb'); simplify_eq;
      unfold receive_and_apply; unfold create_outgoing_move_token at 1; simpl.
    + rewrite (held_redelivery _ _ _ _ _ _ Hp). by eexists.
    + destruct (flight_redelivery _ _ _ _ _ _ rmds Hp Hs) as (tob & _ & Hd). rewrite Hd. by eexists.
Qed.

Lemma lost_token_phase pka `{!SignerOps pka} pkb a0 a b o rmds :
  tc_pair pka pkb a0 b o -> sends pka a0 b a -> rmds_ok rmds ->
  exists ta tb, get_outgoing a = Some ta /\ get_outgoing b = Some tb /\
    let mta := create_outgoing_move_token ta in
    simulate_receive_move_token a (create_outgoing_move_token tb) rmds = Ok (RetransmitOutgoing mta) /\
    match receive_and_apply b mta rmds with
    | Ok b' => get_incoming b' <> None /\ mirrored b' a
    | r => delivery_outcome b r
    end.
Proof.
  intros Hp Hs Hrmds. destruct (flight_redelivery _ _ _ _ _ _ rmds Hp Hs) as (ta & Hta & Hre).
  destruct (tc_pair_directions _ _ _ _ _ Hp) as (_ & _ & _ & Htb).
  do 2 eexists. split; [done|]. split; [done|]. split; [done|].
  assert (delivers a b (receive_and_apply b (create_outgoing_move_token ta) rmds)) as Hd by by exists ta, rmds.
  pose proof (flight_delivery _ _ _ _ _ _ _ Hp Hs Hd) as Hout.
  destruct (receive_and_apply b _ rmds) as [b'|e|]; [|by eapply round_delivery_outcome in Hout..].
  destruct Hout as (o' & Hp' & _). destruct (tc_pair_directions _ _ _ _ _ Hp') as ([tib ->] & _).
  split; [done|]. by eapply ledger_pair_mirrored, tp_ledger.
Qed.
End Protocol.

(** ** Properties of every reachable state *)

(** C1. For two friends that start from fresh channels, exchange any move
    tokens and lose or repeat any messages: the two sides never both hold the
    token, and whenever one side holds it the two channels mirror each other:
    every ledger is the negation of the friend's, the active currencies agree,
    a currency has a ledger exactly when both sides activated it, and every
    ledger satisfies the mutual-credit invariant. *)
Theorem channel_agreement `{CryptoOps} {B : Type} `{CanonicalSerialize B}
    (pka pkb : PublicKey) `{!SignerOps pka} `{!SignerOps pkb} (a b : TokenChannel B) :
  compare_public_key pka pkb <> Eq ->
  rtc (chan_step pka pkb) (tc_new pka pkb, tc_new pkb pka) (a, b) ->
  ~ (get_incoming a <> None /\ get_incoming b <> None) /\
  (get_incoming a <> None \/ get_incoming b <> None -> mirrored a b).
Proof.
  intros Hne Hr. pose proof (chan_inv_steps _ _ _ _ (initial_chan_inv _ _ Hne) Hr) as Hi.
  unfold chan_inv, phase in Hi. simpl in Hi.
  destruct Hi as [[[o Hp]|(a0 & o & Hp & Hs)]|[[o Hp]|(a0 & o & Hp & Hs)]];
    pose proof (tc_pair_directions _ _ _ _ _ Hp) as (_ & _ & Hin & _); (split; [naive_solver|]).
  - intros _. by eapply ledger_pair_mirrored, tp_ledger.
  - destruct (sends_outgoing _ _ _ _ _ _ Hp Hs) as (o' & Hd & _).
    assert (get_incoming a = None) by (unfold get_incoming, get_direction; by rewrite Hd). naive_solver.
  - intros _. by eapply ledger_pair_mirrored_sym, tp_ledger.
  - destruct (sends_outgoing _ _ _ _ _ _ Hp Hs) as (o' & Hd & _).
    assert (get_incoming b = None) by (unfold get_incoming, get_direction; by rewrite Hd). naive_solver.
Qed.

(** C8. In every reachable state, delivering either side's last move token to
    the other side is safe: the receiver either ignores it or takes the token,
    and the only errors are overflows (of a request's credits or of the move
    token counter). No honest message is ever reported as a chain
    inconsistency, an invalid signature, an invalid token information or an
    invalid currency, and the receiver never panics. *)
Theorem channel_delivery_safe `{CryptoOps} {B : Type} `{CanonicalSerialize B}
    (pka pkb : PublicKey) `{!SignerOps pka} `{!SignerOps pkb} (a b : TokenChannel B) :
  compare_public_key pka pkb <> Eq ->
  rtc (chan_step pka pkb) (tc_new pka pkb, tc_new pkb pka) (a, b) ->
  (forall res, delivers a b res -> delivery_outcome b res) /\
  (forall res, delivers b a res -> delivery_outcome a res).
Proof.
  intros Hne Hr. destruct (chan_inv_steps _ _ _ _ (initial_chan_inv _ _ Hne) Hr) as [Hi|Hi];
    [exact (phase_deliveries _ _ _ _ Hi)|]. apply and_comm. exact (phase_deliveries _ _ _ _ Hi).
Qed.

(** C9. Recovery of a lost message: when both sides wait for the token, one of
    them has a message that the other has not processed. The other side's last
    message makes it retransmit exactly that message, whose delivery hands the
    token over (or overflows); when a side holds the token, receiving the
    friend's last message again is recognised as a duplicate. *)
Theorem lost_token_recovered `{CryptoOps} {B : Type} `{CanonicalSerialize B}
    (pka pkb : PublicKey) `{!SignerOps pka} `{!SignerOps pkb} (a b : TokenChannel B)
    (rmds : gmap Currency Z) :
  compare_public_key pka pkb <> Eq ->
  rtc (chan_step pka pkb) (tc_new pka pkb, tc_new pkb pka) (a, b) -> rmds_ok rmds ->
  match get_outgoing a, get_outgoing b with
  | Some ta, Some tb =>
      let mta := create_outgoing_move_token ta in
      let mtb := create_outgoing_move_token tb in
      (simulate_receive_move_token a mtb rmds = Ok (RetransmitOutgoing mta) /\
       match receive_and_apply b mta rmds with
       | Ok b' => get_incoming b' <> None /\ mirrored b' a
       | r => delivery_outcome b r
       end) \/
      (simulate_receive_move_token b mta rmds = Ok (RetransmitOutgoing mtb) /\
       match receive_and_apply a mtb rmds with
       | Ok a' => get_incoming a' <> None /\ mirrored a' b
       | r => delivery_outcome a r
       end)
  | Some ta, None => simulate_receive_move_token b (create_outgoing_move_token ta) rmds = Ok Duplicate
  | None, Some tb => simulate_receive_move_token a (create_outgoing_move_token tb) rmds = Ok Duplicate
  | None, None => False
  end.
Proof.
  intros Hne Hr Hrmds. pose proof (chan_inv_steps _ _ _ _ (initial_chan_inv _ _ Hne) Hr) as Hi.
  unfold chan_inv in Hi. simpl in Hi. destruct Hi as [[[o Hp]|(a0 & o & Hp & Hs)]|[[o Hp]|(b0 & o & Hp & Hs)]].
  - destruct (tc_pair_directions _ _ _ _ _ Hp) as (_ & -> & _ & ->). by apply (held_redelivery _ _ _ _ _ _ Hp).
  - destruct (lost_token_phase _ _ _ _ _ _ rmds Hp Hs Hrmds) as (ta & tb & -> & -> & Ht). by left.
  - destruct (tc_pair_directions _ _ _ _ _ Hp) as (_ & -> & _ & ->). by apply (held_redelivery _ _ _ _ _ _ Hp).
  - destruct (lost_token_phase _ _ _ _ _ _ rmds Hp Hs Hrmds) as (ta & tb & -> & -> & Ht). by right.
Qed.

(** ** A concrete run *)
Module ChannelSamples.
Import Toy McSamples.

(** Sending as a function: the simulation and the stored result. *)
Definition send_and_apply (pk : PublicKey) (tc : TokenChannel string) (cos : list CurrencyOperations)
    (acs : option (list Currency)) (nonce : RandValue) : outcome SendMoveTokenError (TokenChannel string) :=
  let? tib := unwrap (get_incoming tc) in
  let? out := simulate_send_move_token tib cos None acs nonce in
  unwrap (pfold tc_mutate tc (sent_mutations pk out)).

Definition last_token (tc : TokenChannel string) : option (MoveToken string) :=
  create_outgoing_move_token <$> get_outgoing tc.

Definition fresh_token (b a' : TokenChannel string) : bool :=
  match last_token b, last_token a' with
  | Some mt, Some mt' => negb (bool_decide (mt_old_token mt = mt_new_token mt'))
  | _, _ => true
  end.

Lemma send_and_apply_sends pk tc b cos acs nonce tc' :
  cos_ok cos -> send_and_apply pk tc cos acs nonce = Ok tc' -> fresh_token b tc' = true -> sends pk tc b tc'.
Proof.
  intros Hcos Hs Hf. unfold send_and_apply in Hs. inv_run.
  do 6 eexists. split_and!; [done|done|done|done|]. intros o Ho.
  unfold sent_mutations in Hs. rewrite pfold_app in Hs. apply opt_bind_Some in Hs as (tc2 & _ & [= <-]).
  unfold fresh_token, last_token, get_outgoing, get_direction in Hf. rewrite Ho in Hf. simpl in Hf.
  apply negb_true_iff, bool_decide_eq_false in Hf. exact Hf.
Qed.

Definition get_ok {E A : Type} (d : A) (m : outcome E A) : A := match m with Ok a => a | _ => d end.

Lemma get_ok_eq {E A : Type} (d : A) (m : outcome E A) : is_ok m = true -> m = Ok (get_ok d m).
Proof. by destruct m. Qed.

Definition deliver (a b : TokenChannel string) : outcome ReceiveMoveTokenError (TokenChannel string) :=
  let? mt := unwrap (last_token a) in receive_and_apply b mt {[ fst_currency := 100 ]}.

Lemma deliver_delivers a b b' : deliver a b = Ok b' -> delivers a b (Ok b').
Proof.
  unfold deliver, last_token. intros Hd. destruct (get_outgoing a) as [tob|] eqn:Ho; [|done]. simpl in Hd.
  exists tob, {[ fst_currency := 100 ]}. split_and!; [done| |done]. by apply map_Forall_singleton.
Qed.

(** Both sides activate a currency, then [pk_b] sends a request. *)
Definition tc_a0 : TokenChannel string := tc_new pk_a pk_b.
Definition tc_b0 : TokenChannel string := tc_new pk_b pk_a.
Definition request_cos : list CurrencyOperations := [mkCurrencyOperations fst_currency payment_ops].
Definition tc_b1 := get_ok tc_b0 (send_and_apply pk_b tc_b0 [] (Some [fst_currency]) (fixed_of_prefix 16 [x07])).
Definition tc_a1 := get_ok tc_a0 (deliver tc_b1 tc_a0).
Definition tc_a2 := get_ok tc_a1 (send_and_apply pk_a tc_a1 [] (Some [fst_currency]) (fixed_of_prefix 16 [x07])).
Definition tc_b2 := get_ok tc_b1 (deliver tc_a2 tc_b1).
Definition tc_b3 := get_ok tc_b2 (send_and_apply pk_b tc_b2 request_cos None (fixed_of_prefix 16 [x08])).
Definition tc_a3 := get_ok tc_a2 (deliver tc_b3 tc_a2).

Lemma request_cos_ok : cos_ok request_cos.
Proof. constructor; [exact payment_ops_ok|constructor]. Qed.

Lemma sample_in_flight : rtc (chan_step pk_a pk_b) (tc_a0, tc_b0) (tc_a2, tc_b3).
Proof.
  apply (rtc_l _ _ (tc_a0, tc_b1)).
  { apply right_sends. eapply (send_and_apply_sends _ _ _ [] (Some [fst_currency]) (fixed_of_prefix 16 [x07]));
      [constructor|by apply get_ok_eq; vm_compute|by vm_compute]. }
  apply (rtc_l _ _ (tc_a1, tc_b1)).
  { apply right_delivered, deliver_delivers. by apply get_ok_eq; vm_compute. }
  apply (rtc_l _ _ (tc_a2, tc_b1)).
  { apply left_sends. eapply (send_and_apply_sends _ _ _ [] (Some [fst_currency]) (fixed_of_prefix 16 [x07]));
      [constructor|by apply get_ok_eq; vm_compute|by vm_compute]. }
  apply (rtc_l _ _ (tc_a2, tc_b2)).
  { apply left_delivered, deliver_delivers. by apply get_ok_eq; vm_compute. }
  apply rtc_once, right_sends. eapply (send_and_apply_sends _ _ _ request_cos None (fixed_of_prefix 16 [x08]));
    [exact request_cos_ok|by apply get_ok_eq; vm_compute|by vm_compute].
Qed.

Lemma sample_run : rtc (chan_step pk_a pk_b) (tc_a0, tc_b0) (tc_a3, tc_b3).
Proof.
  eapply rtc_r; [exact sample_in_flight|]. apply right_delivered, deliver_delivers.
  by apply get_ok_eq; vm_compute.
Qed.

Lemma holds_token (tc : TokenChannel string) :
  bool_decide (is_Some (get_incoming tc)) = true -> get_incoming tc <> None.
Proof. by destruct (get_incoming tc). Qed.

Lemma channel_agreement_witness : mirrored tc_a3 tc_b3.
Proof.
  apply (channel_agreement pk_a pk_b tc_a3 tc_b3); [by vm_compute|exact sample_run|].
  left. apply holds_token. by vm_compute.
Defined.

Lemma channel_delivery_safe_witness : delivery_outcome tc_a2 (Ok tc_a3).
Proof.
  apply (channel_delivery_safe pk_a pk_b tc_a2 tc_b3); [by vm_compute|exact sample_in_flight|].
  apply deliver_delivers. by apply get_ok_eq; vm_compute.
Defined.

Lemma lost_token_recovered_witness :
  exists mta mtb, last_token tc_a2 = Some mta /\ last_token tc_b3 = Some mtb /\
    (simulate_receive_move_token tc_a2 mtb ∅ = Ok (RetransmitOutgoing mta) \/
     simulate_receive_move_token tc_b3 mta ∅ = Ok (RetransmitOutgoing mtb)).
Proof.
  assert (compare_public_key pk_a pk_b <> Eq) as Hne by by vm_compute.
  pose proof (lost_token_recovered pk_a pk_b tc_a2 tc_b3 ∅ Hne sample_in_flight (map_Forall_empty _)) as Hl.
  unfold last_token. destruct (get_outgoing tc_a2) as [ta|] eqn:Ea, (get_outgoing tc_b3) as [tb|] eqn:Eb.
  - do 2 eexists. split; [reflexivity|]. split; [reflexivity|].
    destruct Hl as [[Hl _]|[Hl _]]; [left|right]; exact Hl.
  - assert (bool_decide (is_Some (get_outgoing tc_b3)) = true) as Hs by by vm_compute. by rewrite Eb in Hs.
  - assert (bool_decide (is_Some (get_outgoing tc_a2)) = true) as Hs by by vm_compute. by rewrite Ea in Hs.
  - destruct Hl.
Defined.
End ChannelSamples.
