(* ===== verification/Friend.v ===== *)
(** * The state kept for one friend ([funder/src/friend.rs])

    The channel with the friend (a token channel with three queues of pending
    operations, or the reset terms of an inconsistent channel), the relays
    known on both sides, the configured currencies, and the mutations of this
    state. [None] is a panic: the [unreachable!] cases of [mutate]. *)

From S2P Require Import Prelude Arith Bytes Messages Canonical MutualCredit TokenChannel.

Local Open Scope Z_scope.

(** ** Data *)

Inductive BackwardsOp :=
| BackResponse (r : ResponseSendFundsOp)
| BackCancel (r : CancelSendFundsOp)
| BackCollect (r : CollectSendFundsOp).

Inductive SentLocalRelays (B : Type) :=
| NeverSent
| Transition (last_sent before_last_sent : list (NamedRelayAddress B))
| LastSent (last_sent : list (NamedRelayAddress B)).
Arguments NeverSent {B}. Arguments Transition {B}. Arguments LastSent {B}.

Record ChannelInconsistent := mkChannelInconsistent {
  opt_last_incoming_move_token : option MoveTokenHashed;
  local_reset_terms : ResetTerms;
  opt_remote_reset_terms : option ResetTerms
}.

Record ChannelConsistent (B : Type) := mkChannelConsistent {
  token_channel : TokenChannel B;
  pending_requests : list (Currency * RequestSendFundsOp);
  pending_backwards_ops : list (Currency * BackwardsOp);
  pending_user_requests : list (Currency * RequestSendFundsOp)
}.
Arguments mkChannelConsistent {B}. Arguments token_channel {B}. Arguments pending_requests {B}.
Arguments pending_backwards_ops {B}. Arguments pending_user_requests {B}.

Inductive ChannelStatus (B : Type) :=
| Inconsistent (c : ChannelInconsistent)
| Consistent (c : ChannelConsistent B).
Arguments Inconsistent {B}. Arguments Consistent {B}.

Record CurrencyConfig := mkCurrencyConfig {
  cc_rate : Rate;
  cc_remote_max_debt : Z;
  cc_is_open : bool
}.

Record FriendState (B : Type) := mkFriendState {
  fs_local_public_key : PublicKey;
  fs_remote_public_key : PublicKey;
  remote_relays : list (RelayAddress B);
  sent_local_relays : SentLocalRelays B;
  fs_name : string;
  currency_configs : gmap Currency CurrencyConfig;
  fs_status : FriendStatus;
  channel_status : ChannelStatus B
}.
Arguments mkFriendState {B}. Arguments fs_local_public_key {B}. Arguments fs_remote_public_key {B}.
Arguments remote_relays {B}. Arguments sent_local_relays {B}. Arguments fs_name {B}.
Arguments currency_configs {B}. Arguments fs_status {B}. Arguments channel_status {B}.

Inductive FriendMutation (B : Type) :=
| FmTcMutation (m : TcMutation B)
| SetInconsistent (c : ChannelInconsistent)
| SetConsistent (tc : TokenChannel B)
| UpdateCurrencyConfig (c : Currency) (config : CurrencyConfig)
| RemoveCurrencyConfig (c : Currency)
| PushBackPendingRequest (c : Currency) (r : RequestSendFundsOp)
| PopFrontPendingRequest
| PushBackPendingBackwardsOp (c : Currency) (op : BackwardsOp)
| PopFrontPendingBackwardsOp
| PushBackPendingUserRequest (c : Currency) (r : RequestSendFundsOp)
| PopFrontPendingUserRequest
| RemovePendingRequestsCurrency (c : Currency)
| RemovePendingUserRequestsCurrency (c : Currency)
| RemovePendingRequests
| SetStatus (s : FriendStatus)
| SetRemoteRelays (r : list (RelayAddress B))
| SetName (n : string)
| SetSentLocalRelays (s : SentLocalRelays B).
Arguments FmTcMutation {B}. Arguments SetInconsistent {B}. Arguments SetConsistent {B}.
Arguments UpdateCurrencyConfig {B}. Arguments RemoveCurrencyConfig {B}.
Arguments PushBackPendingRequest {B}. Arguments PopFrontPendingRequest {B}.
Arguments PushBackPendingBackwardsOp {B}. Arguments PopFrontPendingBackwardsOp {B}.
Arguments PushBackPendingUserRequest {B}. Arguments PopFrontPendingUserRequest {B}.
Arguments RemovePendingRequestsCurrency {B}. Arguments RemovePendingUserRequestsCurrency {B}.
Arguments RemovePendingRequests {B}. Arguments SetStatus {B}. Arguments SetRemoteRelays {B}.
Arguments SetName {B}. Arguments SetSentLocalRelays {B}.

(** ** Relays *)

(** [sort_by_key(|r| r.public_key)]: a stable sort. *)
Definition relay_le {B} (x y : RelayAddress B) : Prop :=
  bytes_cmp (as_bytes (ra_public_key x)) (as_bytes (ra_public_key y)) <> Gt.
#[global] Instance relay_le_dec {B} : RelDecision (@relay_le B).
Proof. intros x y. unfold relay_le. solve_decision. Defined.

(** [dedup_by_key(|r| r.public_key)]: drops an element whose key equals that of
    the previous kept one. *)
Fixpoint dedup_relays_from {B} (prev : RelayAddress B) (l : list (RelayAddress B)) : list (RelayAddress B) :=
  match l with
  | [] => []
  | x :: rest =>
      if decide (ra_public_key x = ra_public_key prev) then dedup_relays_from prev rest
      else x :: dedup_relays_from x rest
  end.
Definition dedup_relays {B} (l : list (RelayAddress B)) : list (RelayAddress B) :=
  match l with
  | [] => []
  | x :: rest => x :: dedup_relays_from x rest
  end.

(** [SentLocalRelays::to_vec] *)
Definition sent_relays_to_vec {B} (s : SentLocalRelays B) : list (RelayAddress B) :=
  match s with
  | NeverSent => []
  | Transition last_relays prev_last_relays =>
      dedup_relays (merge_sort relay_le (map relay_of_named last_relays ++ map relay_of_named prev_last_relays))
  | LastSent last_address => map relay_of_named last_address
  end.

(** ** Operations *)

Definition currency_config_new : CurrencyConfig := mkCurrencyConfig rate_new 0 false.

Section FriendOps.
Context `{CryptoOps} {B : Type} `{CanonicalSerialize B}.

(** [ChannelStatus::get_last_incoming_move_token_hashed] *)
Definition status_last_incoming (s : ChannelStatus B) : option MoveTokenHashed :=
  match s with
  | Inconsistent c => opt_last_incoming_move_token c
  | Consistent c => tc_get_last_incoming_move_token_hashed (token_channel c)
  end.

Definition friend_new (local remote : PublicKey) (relays : list (RelayAddress B)) (name : string)
    : FriendState B :=
  mkFriendState local remote relays NeverSent name ∅ FriendDisabled
    (Consistent (mkChannelConsistent (tc_new local remote) [] [] [])).

Definition with_channel_status (f : FriendState B) (s : ChannelStatus B) : FriendState B :=
  mkFriendState (fs_local_public_key f) (fs_remote_public_key f) (remote_relays f) (sent_local_relays f)
    (fs_name f) (currency_configs f) (fs_status f) s.
Definition with_currency_configs (f : FriendState B) (m : gmap Currency CurrencyConfig) : FriendState B :=
  mkFriendState (fs_local_public_key f) (fs_remote_public_key f) (remote_relays f) (sent_local_relays f)
    (fs_name f) m (fs_status f) (channel_status f).
Definition with_queues (c : ChannelConsistent B) (requests : list (Currency * RequestSendFundsOp))
    (backwards : list (Currency * BackwardsOp)) (user_requests : list (Currency * RequestSendFundsOp))
    : ChannelConsistent B :=
  mkChannelConsistent (token_channel c) requests backwards user_requests.

(** The mutations that require a consistent channel. *)
Definition on_consistent (f : FriendState B) (k : ChannelConsistent B -> option (ChannelConsistent B))
    : option (FriendState B) :=
  match channel_status f with
  | Inconsistent _ => None
  | Consistent c => let! c' := k c in Some (with_channel_status f (Consistent c'))
  end.

(** [retain(|(currency0, _)| currency0 != currency)] *)
Definition retain_other {A} (c : Currency) (l : list (Currency * A)) : list (Currency * A) :=
  base.filter (fun p => p.1 <> c) l.

Definition friend_mutate (f : FriendState B) (m : FriendMutation B) : option (FriendState B) :=
  match m with
  | FmTcMutation tm =>
      on_consistent f (fun c =>
        let! tc := tc_mutate (token_channel c) tm in
        Some (mkChannelConsistent tc (pending_requests c) (pending_backwards_ops c) (pending_user_requests c)))
  | SetInconsistent ci => Some (with_channel_status f (Inconsistent ci))
  | SetConsistent tc => Some (with_channel_status f (Consistent (mkChannelConsistent tc [] [] [])))
  | UpdateCurrencyConfig c config => Some (with_currency_configs f (<[c := config]> (currency_configs f)))
  | RemoveCurrencyConfig c =>
      match channel_status f with
      | Inconsistent _ => None
      | Consistent cc =>
          if decide (c ∈ calc_active (active_currencies (token_channel cc))) then None
          else Some (with_currency_configs f (delete c (currency_configs f)))
      end
  | PushBackPendingRequest c r =>
      on_consistent f (fun cc => Some (with_queues cc (pending_requests cc ++ [(c, r)])
        (pending_backwards_ops cc) (pending_user_requests cc)))
  | PopFrontPendingRequest =>
      on_consistent f (fun cc => Some (with_queues cc (tail (pending_requests cc))
        (pending_backwards_ops cc) (pending_user_requests cc)))
  | PushBackPendingBackwardsOp c op =>
      on_consistent f (fun cc => Some (with_queues cc (pending_requests cc)
        (pending_backwards_ops cc ++ [(c, op)]) (pending_user_requests cc)))
  | PopFrontPendingBackwardsOp =>
      on_consistent f (fun cc => Some (with_queues cc (pending_requests cc)
        (tail (pending_backwards_ops cc)) (pending_user_requests cc)))
  | PushBackPendingUserRequest c r =>
      on_consistent f (fun cc => Some (with_queues cc (pending_requests cc)
        (pending_backwards_ops cc) (pending_user_requests cc ++ [(c, r)])))
  | PopFrontPendingUserRequest =>
      on_consistent f (fun cc => Some (with_queues cc (pending_requests cc)
        (pending_backwards_ops cc) (tail (pending_user_requests cc))))
  | RemovePendingRequestsCurrency c =>
      on_consistent f (fun cc => Some (with_queues cc (retain_other c (pending_requests cc))
        (pending_backwards_ops cc) (pending_user_requests cc)))
  | RemovePendingUserRequestsCurrency c =>
      on_consistent f (fun cc => Some (with_queues cc (pending_requests cc)
        (pending_backwards_ops cc) (retain_other c (pending_user_requests cc))))
  | RemovePendingRequests =>
      on_consistent f (fun cc => Some (with_queues cc [] (pending_backwards_ops cc) []))
  | SetStatus s =>
      Some (mkFriendState (fs_local_public_key f) (fs_remote_public_key f) (remote_relays f)
              (sent_local_relays f) (fs_name f) (currency_configs f) s (channel_status f))
  | SetRemoteRelays r =>
      Some (mkFriendState (fs_local_public_key f) (fs_remote_public_key f) r (sent_local_relays f)
              (fs_name f) (currency_configs f) (fs_status f) (channel_status f))
  | SetName n =>
      Some (mkFriendState (fs_local_public_key f) (fs_remote_public_key f) (remote_relays f)
              (sent_local_relays f) n (currency_configs f) (fs_status f) (channel_status f))
  | SetSentLocalRelays s =>
      Some (mkFriendState (fs_local_public_key f) (fs_remote_public_key f) (remote_relays f) s
              (fs_name f) (currency_configs f) (fs_status f) (channel_status f))
  end.
End FriendOps.

(** ** Properties *)

Section RelayTheory.
Context {B : Type}.
Implicit Types l : list (RelayAddress B).

Lemma dedup_relays_from_keys prev l x :
  x ∈ ra_public_key <$> (prev :: l) <-> x ∈ ra_public_key <$> (prev :: dedup_relays_from prev l).
Proof.
  revert prev; induction l as [|y l IH]; intros prev; simpl; [done|].
  case_decide as E.
  - rewrite <- (IH prev). simpl. rewrite !elem_of_cons, E. tauto.
  - rewrite !fmap_cons, !elem_of_cons in *. specialize (IH y). rewrite fmap_cons, elem_of_cons in IH.
    rewrite fmap_cons, elem_of_cons in IH. naive_solver.
Qed.

#[global] Instance relay_le_trans : Transitive (@relay_le B).
Proof. intros x y z. apply bytes_cmp_le_trans. Qed.
#[global] Instance relay_le_total : Total (@relay_le B).
Proof.
  intros x y. unfold relay_le. rewrite (bytes_cmp_antisym (as_bytes (ra_public_key x))).
  destruct (bytes_cmp (as_bytes (ra_public_key x)) (as_bytes (ra_public_key y))); auto.
Qed.

Definition relay_lt (x y : RelayAddress B) : Prop := relay_le x y /\ ra_public_key x <> ra_public_key y.

Lemma dedup_relays_from_sorted prev l :
  StronglySorted relay_le (prev :: l) -> StronglySorted relay_lt (prev :: dedup_relays_from prev l).
Proof.
  revert prev; induction l as [|y l IH]; intros prev Hs; simpl; [repeat constructor|].
  apply StronglySorted_inv in Hs as [Hs Hp]. case_decide as E.
  - apply IH. apply StronglySorted_inv in Hs as [Hs _]. constructor; [done|]. by inversion Hp.
  - specialize (IH y Hs). constructor; [done|].
    assert (relay_lt prev y) as Hpy by (split; [by inversion Hp|congruence]).
    constructor; [done|]. apply StronglySorted_inv in IH as [_ Hy].
    eapply Forall_impl; [exact Hy|]. intros z [Hyz Hne]. destruct Hpy as [Hle Hne'].
    split; [by etrans|]. intros Ez. apply Hne'. apply as_bytes_inj, bytes_cmp_eq.
    unfold relay_le in *. rewrite Ez in *.
    rewrite (bytes_cmp_antisym (as_bytes (ra_public_key y))) in *.
    destruct (bytes_cmp (as_bytes (ra_public_key y)) (as_bytes (ra_public_key z))); by simpl in *.
Qed.
End RelayTheory.

(** The relays announced for a friend during an address transition: each
    relay key of the current or the previous list appears exactly once, in
    increasing order of keys. *)
Theorem sent_relays_unique {B : Type} (last prev : list (NamedRelayAddress B)) :
  let relays := sent_relays_to_vec (Transition last prev) in
  StronglySorted relay_lt relays /\ NoDup (ra_public_key <$> relays) /\
  (forall pk, pk ∈ ra_public_key <$> relays <-> pk ∈ nra_public_key <$> (last ++ prev)).
Proof.
  intros relays.
  set (l := merge_sort relay_le (map relay_of_named last ++ map relay_of_named prev)) in *.
  assert (StronglySorted relay_le l) as Hs by (apply StronglySorted_merge_sort; apply _).
  assert (StronglySorted relay_lt relays) as Hlt.
  { unfold relays, sent_relays_to_vec. fold l. destruct l as [|x l']; [constructor|].
    by apply dedup_relays_from_sorted. }
  split; [done|]. split.
  - clearbody relays. clear -Hlt. induction Hlt as [|x l _ IH Hx]; simpl; constructor; [|done].
    rewrite list_elem_of_fmap. intros (y & Hy & Hin). rewrite Forall_forall in Hx.
    by destruct (Hx y Hin).
  - intros pk. transitivity (pk ∈ ra_public_key <$> l).
    + unfold relays, sent_relays_to_vec. fold l. destruct l as [|x l']; [done|].
      symmetry. apply dedup_relays_from_keys.
    + unfold l. rewrite merge_sort_Permutation, <- map_app.
      change (pk ∈ ra_public_key <$> (relay_of_named <$> (last ++ prev)) <->
              pk ∈ nra_public_key <$> (last ++ prev)).
      by rewrite <- list_fmap_compose.
Qed.
