(* ===== verification/FunderState.v ===== *)
(** * The state of a funder ([funder/src/state.rs], [liveness.rs], [ephemeral.rs])

    Friends, local invoices (this node is the seller), local transactions and
    payments (this node is the buyer), the mutations of this state, and the
    ephemeral record of which friends are online. *)

From S2P Require Import Prelude Arith Bytes Messages Canonical MutualCredit TokenChannel Friend.

Local Open Scope Z_scope.

(** ** Data *)

Record NewTransactions := mkNewTransactions {
  nt_num_transactions : Z;
  nt_invoice_id : InvoiceId;
  nt_currency : Currency;
  nt_total_dest_payment : Z;
  nt_dest_public_key : PublicKey
}.

Inductive PaymentStage :=
| StageNewTransactions (n : NewTransactions)
| StageInProgress (num_transactions : Z)
| StageSuccess (num_transactions : Z) (receipt : Receipt) (ack_uid : Uid)
| StageCanceled (ack_uid : Uid)
| StageAfterSuccessAck (num_transactions : Z).

#[global] Instance Receipt_eq_dec : EqDecision Receipt.
Proof. solve_decision. Defined.
#[global] Instance NewTransactions_eq_dec : EqDecision NewTransactions.
Proof. solve_decision. Defined.
#[global] Instance PaymentStage_eq_dec : EqDecision PaymentStage.
Proof. solve_decision. Defined.

Record Payment := mkPayment {
  src_plain_lock : PlainLock;
  stage : PaymentStage
}.

Record OpenInvoice := mkOpenInvoice {
  oi_currency : Currency;
  oi_total_dest_payment : Z;
  oi_dest_plain_lock : PlainLock;
  oi_opt_src_hashed_lock : option HashedLock;
  oi_incoming_transactions : gset Uid
}.

(** [OpenInvoice::new] *)
Definition open_invoice_new (c : Currency) (total_dest_payment : Z) (dest_plain_lock : PlainLock) : OpenInvoice :=
  mkOpenInvoice c total_dest_payment dest_plain_lock None ∅.

Record OpenTransaction := mkOpenTransaction {
  ot_payment_id : PaymentId;
  ot_opt_response : option ResponseSendFundsOp
}.

Record AddFriend (B : Type) := mkAddFriend {
  af_friend_public_key : PublicKey;
  af_relays : list (RelayAddress B);
  af_name : string
}.
Arguments mkAddFriend {B}. Arguments af_friend_public_key {B}. Arguments af_relays {B}. Arguments af_name {B}.

Record FunderState (B : Type) := mkFunderState {
  fu_local_public_key : PublicKey;
  relays : list (NamedRelayAddress B);
  friends : gmap PublicKey (FriendState B);
  open_invoices : gmap InvoiceId OpenInvoice;
  open_transactions : gmap Uid OpenTransaction;
  payments : gmap PaymentId Payment
}.
Arguments mkFunderState {B}. Arguments fu_local_public_key {B}. Arguments relays {B}. Arguments friends {B}.
Arguments open_invoices {B}. Arguments open_transactions {B}. Arguments payments {B}.

Inductive FunderMutation (B : Type) :=
| FuFriendMutation (pk : PublicKey) (m : FriendMutation B)
| FuAddRelay (r : NamedRelayAddress B)
| FuRemoveRelay (pk : PublicKey)
| FuAddFriend (a : AddFriend B)
| FuRemoveFriend (pk : PublicKey)
| FuAddInvoice (invoice_id : InvoiceId) (c : Currency) (total_dest_payment : Z) (dest_plain_lock : PlainLock)
| FuAddIncomingTransaction (invoice_id : InvoiceId) (request_id : Uid)
| FuSetInvoiceSrcHashedLock (invoice_id : InvoiceId) (src_hashed_lock : HashedLock)
| FuRemoveInvoice (invoice_id : InvoiceId)
| FuAddTransaction (request_id : Uid) (payment_id : PaymentId)
| FuSetTransactionResponse (r : ResponseSendFundsOp)
| FuRemoveTransaction (request_id : Uid)
| FuUpdatePayment (payment_id : PaymentId) (p : Payment)
| FuRemovePayment (payment_id : PaymentId).
Arguments FuFriendMutation {B}. Arguments FuAddRelay {B}. Arguments FuRemoveRelay {B}.
Arguments FuAddFriend {B}. Arguments FuRemoveFriend {B}. Arguments FuAddInvoice {B}.
Arguments FuAddIncomingTransaction {B}. Arguments FuSetInvoiceSrcHashedLock {B}.
Arguments FuRemoveInvoice {B}. Arguments FuAddTransaction {B}. Arguments FuSetTransactionResponse {B}.
Arguments FuRemoveTransaction {B}. Arguments FuUpdatePayment {B}. Arguments FuRemovePayment {B}.

(** ** Operations *)

Section FunderOps.
Context `{CryptoOps} {B : Type} `{CanonicalSerialize B}.
Implicit Types s : FunderState B.

Definition funder_new (local : PublicKey) (rs : list (NamedRelayAddress B)) : FunderState B :=
  mkFunderState local rs ∅ ∅ ∅ ∅.

Definition with_relays s (r : list (NamedRelayAddress B)) : FunderState B :=
  mkFunderState (fu_local_public_key s) r (friends s) (open_invoices s) (open_transactions s) (payments s).
Definition with_friends s (f : gmap PublicKey (FriendState B)) : FunderState B :=
  mkFunderState (fu_local_public_key s) (relays s) f (open_invoices s) (open_transactions s) (payments s).
Definition with_invoices s (i : gmap InvoiceId OpenInvoice) : FunderState B :=
  mkFunderState (fu_local_public_key s) (relays s) (friends s) i (open_transactions s) (payments s).
Definition with_transactions s (t : gmap Uid OpenTransaction) : FunderState B :=
  mkFunderState (fu_local_public_key s) (relays s) (friends s) (open_invoices s) t (payments s).
Definition with_payments s (p : gmap PaymentId Payment) : FunderState B :=
  mkFunderState (fu_local_public_key s) (relays s) (friends s) (open_invoices s) (open_transactions s) p.

(** [retain(|cur| cur.public_key != public_key)] *)
Definition retain_relays (pk : PublicKey) (l : list (NamedRelayAddress B)) : list (NamedRelayAddress B) :=
  base.filter (fun r => nra_public_key r <> pk) l.

Definition funder_mutate s (m : FunderMutation B) : option (FunderState B) :=
  match m with
  | FuFriendMutation pk fm =>
      let! f := friends s !! pk in
      let! f' := friend_mutate f fm in
      Some (with_friends s (<[pk := f']> (friends s)))
  | FuAddRelay r => Some (with_relays s (retain_relays (nra_public_key r) (relays s) ++ [r]))
  | FuRemoveRelay pk => Some (with_relays s (retain_relays pk (relays s)))
  | FuAddFriend a =>
      let f := friend_new (fu_local_public_key s) (af_friend_public_key a) (af_relays a) (af_name a) in
      match friends s !! af_friend_public_key a with
      | Some _ => None
      | None => Some (with_friends s (<[af_friend_public_key a := f]> (friends s)))
      end
  | FuRemoveFriend pk => Some (with_friends s (delete pk (friends s)))
  | FuAddInvoice i c total lock =>
      Some (with_invoices s (<[i := open_invoice_new c total lock]> (open_invoices s)))
  | FuAddIncomingTransaction i request_id =>
      let! oi := open_invoices s !! i in
      Some (with_invoices s
        (<[i := mkOpenInvoice (oi_currency oi) (oi_total_dest_payment oi) (oi_dest_plain_lock oi)
                  (oi_opt_src_hashed_lock oi) ({[request_id]} ∪ oi_incoming_transactions oi)]>
           (open_invoices s)))
  | FuSetInvoiceSrcHashedLock i lock =>
      let! oi := open_invoices s !! i in
      match oi_opt_src_hashed_lock oi with
      | Some _ => None
      | None =>
          Some (with_invoices s
            (<[i := mkOpenInvoice (oi_currency oi) (oi_total_dest_payment oi) (oi_dest_plain_lock oi)
                      (Some lock) (oi_incoming_transactions oi)]> (open_invoices s)))
      end
  | FuRemoveInvoice i => Some (with_invoices s (delete i (open_invoices s)))
  | FuAddTransaction request_id payment_id =>
      Some (with_transactions s (<[request_id := mkOpenTransaction payment_id None]> (open_transactions s)))
  | FuSetTransactionResponse r =>
      let! ot := open_transactions s !! rs_request_id r in
      match ot_opt_response ot with
      | Some _ => None
      | None =>
          Some (with_transactions s
            (<[rs_request_id r := mkOpenTransaction (ot_payment_id ot) (Some r)]> (open_transactions s)))
      end
  | FuRemoveTransaction request_id =>
      Some (with_transactions s (delete request_id (open_transactions s)))
  | FuUpdatePayment payment_id p => Some (with_payments s (<[payment_id := p]> (payments s)))
  | FuRemovePayment payment_id => Some (with_payments s (delete payment_id (payments s)))
  end.
End FunderOps.

(** ** Liveness and ephemeral state *)

Record Liveness := mkLiveness { live_friends : gset PublicKey }.
Inductive LivenessMutation :=
| SetOnline (pk : PublicKey)
| SetOffline (pk : PublicKey).

Definition liveness_new : Liveness := mkLiveness ∅.
Definition liveness_mutate (l : Liveness) (m : LivenessMutation) : Liveness :=
  match m with
  | SetOnline pk => mkLiveness ({[pk]} ∪ live_friends l)
  | SetOffline pk => mkLiveness (live_friends l ∖ {[pk]})
  end.
Definition is_online (l : Liveness) (pk : PublicKey) : bool := bool_decide (pk ∈ live_friends l).

Record Ephemeral := mkEphemeral { liveness : Liveness }.
Inductive EphemeralMutation := EphLivenessMutation (m : LivenessMutation).

Definition ephemeral_new : Ephemeral := mkEphemeral liveness_new.
Definition ephemeral_mutate (e : Ephemeral) (m : EphemeralMutation) : Ephemeral :=
  match m with EphLivenessMutation lm => mkEphemeral (liveness_mutate (liveness e) lm) end.
