(* ===== verification/Report.v ===== *)
(** * Reports of the funder's state ([funder/src/report.rs], [proto/src/report/messages.rs])

    Applications do not see the funder's state but a report of it, kept up to
    date with report mutations. The definitions translate the report types,
    the report of a state, the report mutations caused by a mutation of the
    state, and their application on the application's side. The theorem is a
    simulation: the report kept by the application keeps matching the state. *)

From S2P Require Import Prelude Arith Bytes Messages Canonical MutualCredit TokenChannel Friend FunderState.

Local Open Scope Z_scope.

(** ** Data *)

Record MoveTokenHashedReport := mkMoveTokenHashedReport {
  mthr_prefix_hash : HashResult;
  mthr_token_info : TokenInfo;
  mthr_rand_nonce : RandValue;
  mthr_new_token : Signature
}.

Inductive FriendStatusReport := ReportEnabled | ReportDisabled.
Inductive FriendLivenessReport := ReportOnline | ReportOffline.

Record McBalanceReport := mkMcBalanceReport {
  mbr_balance : Z;
  mbr_local_pending_debt : Z;
  mbr_remote_pending_debt : Z
}.

Record CurrencyReport := mkCurrencyReport {
  cr_currency : Currency;
  cr_balance : McBalanceReport
}.

Record ResetTermsReport := mkResetTermsReport {
  rtr_reset_token : Signature;
  rtr_balance_for_reset : list CurrencyBalance
}.

Record ChannelInconsistentReport := mkChannelInconsistentReport {
  cir_local_reset_terms : list CurrencyBalance;
  cir_opt_remote_reset_terms : option ResetTermsReport
}.

Record ChannelConsistentReport := mkChannelConsistentReport { ccr_currency_reports : list CurrencyReport }.

Inductive ChannelStatusReport :=
| ReportInconsistent (r : ChannelInconsistentReport)
| ReportConsistent (r : ChannelConsistentReport).

Record CurrencyConfigReport := mkCurrencyConfigReport {
  ccfr_currency : Currency;
  ccfr_rate : Rate;
  ccfr_remote_max_debt : Z;
  ccfr_is_open : bool
}.

Record FriendReport (B : Type) := mkFriendReport {
  fr_name : string;
  fr_remote_relays : list (RelayAddress B);
  fr_currency_configs : list CurrencyConfigReport;
  fr_opt_last_incoming_move_token : option MoveTokenHashedReport;
  fr_liveness : FriendLivenessReport;
  fr_channel_status : ChannelStatusReport;
  fr_status : FriendStatusReport
}.
Arguments mkFriendReport {B}. Arguments fr_name {B}. Arguments fr_remote_relays {B}.
Arguments fr_currency_configs {B}. Arguments fr_opt_last_incoming_move_token {B}.
Arguments fr_liveness {B}. Arguments fr_channel_status {B}. Arguments fr_status {B}.

Record FunderReport (B : Type) := mkFunderReport {
  rp_local_public_key : PublicKey;
  rp_relays : list (NamedRelayAddress B);
  rp_friends : gmap PublicKey (FriendReport B)
}.
Arguments mkFunderReport {B}. Arguments rp_local_public_key {B}. Arguments rp_relays {B}.
Arguments rp_friends {B}.

Inductive FriendReportMutation (B : Type) :=
| FrSetRemoteRelays (r : list (RelayAddress B))
| FrSetName (n : string)
| FrUpdateCurrencyConfig (c : CurrencyConfigReport)
| FrRemoveCurrencyConfig (c : Currency)
| FrSetChannelStatus (s : ChannelStatusReport)
| FrSetStatus (s : FriendStatusReport)
| FrSetOptLastIncomingMoveToken (m : option MoveTokenHashedReport)
| FrSetLiveness (l : FriendLivenessReport).
Arguments FrSetRemoteRelays {B}. Arguments FrSetName {B}. Arguments FrUpdateCurrencyConfig {B}.
Arguments FrRemoveCurrencyConfig {B}. Arguments FrSetChannelStatus {B}. Arguments FrSetStatus {B}.
Arguments FrSetOptLastIncomingMoveToken {B}. Arguments FrSetLiveness {B}.

Record AddFriendReport (B : Type) := mkAddFriendReport {
  afr_friend_public_key : PublicKey;
  afr_name : string;
  afr_relays : list (RelayAddress B);
  afr_opt_last_incoming_move_token : option MoveTokenHashedReport;
  afr_channel_status : ChannelStatusReport
}.
Arguments mkAddFriendReport {B}. Arguments afr_friend_public_key {B}. Arguments afr_name {B}.
Arguments afr_relays {B}. Arguments afr_opt_last_incoming_move_token {B}. Arguments afr_channel_status {B}.

Inductive FunderReportMutation (B : Type) :=
| RpAddRelay (r : NamedRelayAddress B)
| RpRemoveRelay (pk : PublicKey)
| RpAddFriend (a : AddFriendReport B)
| RpRemoveFriend (pk : PublicKey)
| RpFriendMutation (pk : PublicKey) (m : FriendReportMutation B).
Arguments RpAddRelay {B}. Arguments RpRemoveRelay {B}. Arguments RpAddFriend {B}.
Arguments RpRemoveFriend {B}. Arguments RpFriendMutation {B}.

Record FunderReportMutations (B : Type) := mkFunderReportMutations {
  frm_opt_app_request_id : option Uid;
  frm_mutations : list (FunderReportMutation B)
}.
Arguments mkFunderReportMutations {B}. Arguments frm_opt_app_request_id {B}. Arguments frm_mutations {B}.

Inductive FunderReportMutateError := RpFriendDoesNotExist | RpFriendAlreadyExists.

(** ** The report of a state *)

(** [From<&McBalance>], [From<&MoveTokenHashed>], [From<&FriendStatus>] *)
Definition mc_balance_report (b : McBalance) : McBalanceReport :=
  mkMcBalanceReport (balance b) (local_pending_debt b) (remote_pending_debt b).
Definition move_token_hashed_report (m : MoveTokenHashed) : MoveTokenHashedReport :=
  mkMoveTokenHashedReport (mth_prefix_hash m) (mth_token_info m) (mth_rand_nonce m) (mth_new_token m).
Definition friend_status_report (s : FriendStatus) : FriendStatusReport :=
  match s with FriendEnabled => ReportEnabled | FriendDisabled => ReportDisabled end.

Definition currency_report_of (p : Currency * MutualCredit) : CurrencyReport :=
  mkCurrencyReport p.1 (mc_balance_report (mc_balance p.2)).
Definition config_report_of (p : Currency * CurrencyConfig) : CurrencyConfigReport :=
  mkCurrencyConfigReport p.1 (cc_rate p.2) (cc_remote_max_debt p.2) (cc_is_open p.2).

(** [From<&ChannelStatus<B>>] *)
Definition channel_status_report {B} (s : ChannelStatus B) : ChannelStatusReport :=
  match s with
  | Inconsistent c =>
      ReportInconsistent (mkChannelInconsistentReport (rt_balance_for_reset (local_reset_terms c))
        ((fun t => mkResetTermsReport (rt_reset_token t) (rt_balance_for_reset t)) <$> opt_remote_reset_terms c))
  | Consistent c =>
      ReportConsistent (mkChannelConsistentReport
        (map currency_report_of (map_to_list (mutual_credits (token_channel c)))))
  end.

Definition last_incoming_report {B} (s : ChannelStatus B) : option MoveTokenHashedReport :=
  move_token_hashed_report <$> status_last_incoming s.

Definition create_friend_report {B} (f : FriendState B) (l : FriendLivenessReport) : FriendReport B :=
  mkFriendReport (fs_name f) (remote_relays f)
    (map config_report_of (map_to_list (currency_configs f)))
    (last_incoming_report (channel_status f)) l (channel_status_report (channel_status f))
    (friend_status_report (fs_status f)).

Definition create_report {B} (s : FunderState B) (e : Ephemeral) : FunderReport B :=
  mkFunderReport (fu_local_public_key s) (relays s)
    (map_imap (fun pk f =>
       Some (create_friend_report f (if is_online (liveness e) pk then ReportOnline else ReportOffline)))
       (friends s)).

Definition create_initial_report {B} (s : FunderState B) : FunderReport B := create_report s ephemeral_new.

(** ** Report mutations of state mutations *)

Section Mutations.
Context `{CryptoOps} {B : Type} `{CanonicalSerialize B}.

Definition channel_report_mutations (s : ChannelStatus B) : list (FriendReportMutation B) :=
  [FrSetChannelStatus (channel_status_report s); FrSetOptLastIncomingMoveToken (last_incoming_report s)].

Definition friend_mutation_to_report_mutations (m : FriendMutation B) (f : FriendState B)
    : option (list (FriendReportMutation B)) :=
  let! f_after := friend_mutate f m in
  Some match m with
  | FmTcMutation _ => channel_report_mutations (channel_status f_after)
  | PushBackPendingRequest _ _ | PopFrontPendingRequest | PushBackPendingBackwardsOp _ _
  | PopFrontPendingBackwardsOp | PushBackPendingUserRequest _ _ | PopFrontPendingUserRequest
  | RemovePendingRequests | RemovePendingRequestsCurrency _ | RemovePendingUserRequestsCurrency _ => []
  | SetStatus s => [FrSetStatus (friend_status_report s)]
  | SetRemoteRelays r => [FrSetRemoteRelays r]
  | SetName n => [FrSetName n]
  | UpdateCurrencyConfig c config => [FrUpdateCurrencyConfig (config_report_of (c, config))]
  | RemoveCurrencyConfig c => [FrRemoveCurrencyConfig c]
  | SetSentLocalRelays _ => []
  | SetInconsistent _ | SetConsistent _ => channel_report_mutations (channel_status f_after)
  end.

Definition funder_mutation_to_report_mutations (m : FunderMutation B) (s : FunderState B)
    : option (list (FunderReportMutation B)) :=
  let! s_after := funder_mutate s m in
  match m with
  | FuFriendMutation pk fm =>
      let! f := friends s !! pk in
      let! ms := friend_mutation_to_report_mutations fm f in
      Some (map (RpFriendMutation pk) ms)
  | FuAddRelay r => Some [RpAddRelay r]
  | FuRemoveRelay pk => Some [RpRemoveRelay pk]
  | FuAddFriend a =>
      let! f_after := friends s_after !! af_friend_public_key a in
      Some [RpAddFriend (mkAddFriendReport (af_friend_public_key a) (af_name a) (af_relays a)
              (last_incoming_report (channel_status f_after))
              (channel_status_report (channel_status f_after)))]
  | FuRemoveFriend pk => Some [RpRemoveFriend pk]
  | FuAddInvoice _ _ _ _ | FuAddIncomingTransaction _ _ | FuSetInvoiceSrcHashedLock _ _ | FuRemoveInvoice _
  | FuAddTransaction _ _ | FuRemoveTransaction _ | FuSetTransactionResponse _ | FuUpdatePayment _ _
  | FuRemovePayment _ => Some []
  end.

Definition ephemeral_mutation_to_report_mutations (m : EphemeralMutation) (s : FunderState B)
    : list (FunderReportMutation B) :=
  match m with
  | EphLivenessMutation (SetOnline pk) =>
      if bool_decide (friends s !! pk = None) then [] else [RpFriendMutation pk (FrSetLiveness ReportOnline)]
  | EphLivenessMutation (SetOffline pk) =>
      if bool_decide (friends s !! pk = None) then [] else [RpFriendMutation pk (FrSetLiveness ReportOffline)]
  end.

(** [create_report_mutations] of [handler.rs]: the state's mutations in order,
    then the ephemeral ones against the final state. *)
Fixpoint funder_report_mutations (running : FunderState B) (ms : list (FunderMutation B))
    : option (FunderState B * list (FunderReportMutation B)) :=
  match ms with
  | [] => Some (running, [])
  | m :: rest =>
      let! rms := funder_mutation_to_report_mutations m running in
      let! running' := funder_mutate running m in
      let! res := funder_report_mutations running' rest in
      Some (res.1, rms ++ res.2)
  end.

Definition create_report_mutations (initial_state : FunderState B) (ms : list (FunderMutation B))
    (ems : list EphemeralMutation) : option (list (FunderReportMutation B)) :=
  let! res := funder_report_mutations initial_state ms in
  Some (res.2 ++ concat (map (fun em => ephemeral_mutation_to_report_mutations em res.1) ems)).
End Mutations.

(** ** Applying report mutations *)

Definition ccfr_le (x y : CurrencyConfigReport) : Prop := currency_le (ccfr_currency x) (ccfr_currency y).
#[global] Instance ccfr_le_dec : RelDecision ccfr_le := fun x y => currency_le_dec _ _.

Definition update_config_report (c : CurrencyConfigReport) (l : list CurrencyConfigReport)
    : list CurrencyConfigReport :=
  match list_find (fun x => ccfr_currency x = ccfr_currency c) l with
  | Some (pos, _) => <[pos := c]> l
  | None => merge_sort ccfr_le (l ++ [c])
  end.

(** [MutableState for FriendReport<B>] *)
Definition friend_report_mutate {B} (r : FriendReport B) (m : FriendReportMutation B) : FriendReport B :=
  match m with
  | FrSetName n =>
      mkFriendReport n (fr_remote_relays r) (fr_currency_configs r) (fr_opt_last_incoming_move_token r)
        (fr_liveness r) (fr_channel_status r) (fr_status r)
  | FrUpdateCurrencyConfig c =>
      mkFriendReport (fr_name r) (fr_remote_relays r) (update_config_report c (fr_currency_configs r))
        (fr_opt_last_incoming_move_token r) (fr_liveness r) (fr_channel_status r) (fr_status r)
  | FrRemoveCurrencyConfig c =>
      mkFriendReport (fr_name r) (fr_remote_relays r)
        (base.filter (fun x => ccfr_currency x <> c) (fr_currency_configs r))
        (fr_opt_last_incoming_move_token r) (fr_liveness r) (fr_channel_status r) (fr_status r)
  | FrSetRemoteRelays rs =>
      mkFriendReport (fr_name r) rs (fr_currency_configs r) (fr_opt_last_incoming_move_token r)
        (fr_liveness r) (fr_channel_status r) (fr_status r)
  | FrSetChannelStatus s =>
      mkFriendReport (fr_name r) (fr_remote_relays r) (fr_currency_configs r)
        (fr_opt_last_incoming_move_token r) (fr_liveness r) s (fr_status r)
  | FrSetStatus s =>
      mkFriendReport (fr_name r) (fr_remote_relays r) (fr_currency_configs r)
        (fr_opt_last_incoming_move_token r) (fr_liveness r) (fr_channel_status r) s
  | FrSetOptLastIncomingMoveToken m =>
      mkFriendReport (fr_name r) (fr_remote_relays r) (fr_currency_configs r) m
        (fr_liveness r) (fr_channel_status r) (fr_status r)
  | FrSetLiveness l =>
      mkFriendReport (fr_name r) (fr_remote_relays r) (fr_currency_configs r)
        (fr_opt_last_incoming_move_token r) l (fr_channel_status r) (fr_status r)
  end.

(** [MutableState for FunderReport<B>] *)
Definition funder_report_mutate {B} (r : FunderReport B) (m : FunderReportMutation B)
    : outcome FunderReportMutateError (FunderReport B) :=
  match m with
  | RpAddRelay nr =>
      Ok (mkFunderReport (rp_local_public_key r) (retain_relays (nra_public_key nr) (rp_relays r) ++ [nr])
            (rp_friends r))
  | RpRemoveRelay pk =>
      Ok (mkFunderReport (rp_local_public_key r) (retain_relays pk (rp_relays r)) (rp_friends r))
  | RpAddFriend a =>
      let fr := mkFriendReport (afr_name a) (afr_relays a) [] (afr_opt_last_incoming_move_token a)
                  ReportOffline (afr_channel_status a) (friend_status_report FriendDisabled) in
      match rp_friends r !! afr_friend_public_key a with
      | Some _ => Err RpFriendAlreadyExists
      | None => Ok (mkFunderReport (rp_local_public_key r) (rp_relays r)
                      (<[afr_friend_public_key a := fr]> (rp_friends r)))
      end
  | RpRemoveFriend pk =>
      match rp_friends r !! pk with
      | None => Err RpFriendDoesNotExist
      | Some _ => Ok (mkFunderReport (rp_local_public_key r) (rp_relays r) (delete pk (rp_friends r)))
      end
  | RpFriendMutation pk fm =>
      let? fr := ok_or (rp_friends r !! pk) RpFriendDoesNotExist in
      Ok (mkFunderReport (rp_local_public_key r) (rp_relays r)
            (<[pk := friend_report_mutate fr fm]> (rp_friends r)))
  end.

(** ** The report matches the state *)

(** Lists built from hash maps are compared up to their order. *)
Definition channel_report_equiv (x y : ChannelStatusReport) : Prop :=
  match x, y with
  | ReportInconsistent a, ReportInconsistent b => a = b
  | ReportConsistent a, ReportConsistent b => ccr_currency_reports a ≡ₚ ccr_currency_reports b
  | _, _ => False
  end.

#[global] Instance channel_report_equiv_refl : Reflexive channel_report_equiv.
Proof. intros []; simpl; reflexivity. Qed.

Record friend_matches {B} (f : FriendState B) (r : FriendReport B) : Prop := {
  fm_name : fr_name r = fs_name f;
  fm_relays : fr_remote_relays r = remote_relays f;
  fm_configs : fr_currency_configs r ≡ₚ map config_report_of (map_to_list (currency_configs f));
  fm_token : fr_opt_last_incoming_move_token r = last_incoming_report (channel_status f);
  fm_channel : channel_report_equiv (fr_channel_status r) (channel_status_report (channel_status f));
  fm_status : fr_status r = friend_status_report (fs_status f)
}.

(** The report may call an online friend offline, never the other way round. *)
Definition liveness_sound {B} (r : FunderReport B) (e : Ephemeral) : Prop :=
  map_Forall (fun pk fr => fr_liveness fr = ReportOnline -> is_online (liveness e) pk = true) (rp_friends r).

Record report_matches {B} (s : FunderState B) (r : FunderReport B) : Prop := {
  rm_key : rp_local_public_key r = fu_local_public_key s;
  rm_relays : rp_relays r = relays s;
  rm_friends : forall pk, option_Forall2 friend_matches (friends s !! pk) (rp_friends r !! pk)
}.

Section Configs.
Implicit Types m : gmap Currency CurrencyConfig.
Notation configs_of m := (map config_report_of (map_to_list m)).

Lemma configs_of_insert m c x :
  m !! c = None -> configs_of (<[c := x]> m) ≡ₚ config_report_of (c, x) :: configs_of m.
Proof. intros Hc. rewrite (Permutation_map _ (map_to_list_insert m c x Hc)). done. Qed.

Lemma configs_of_delete m c x :
  m !! c = Some x -> configs_of m ≡ₚ config_report_of (c, x) :: configs_of (delete c m).
Proof.
  intros Hc. rewrite <- (insert_delete_id m c x Hc) at 1.
  apply configs_of_insert, lookup_delete_eq.
Qed.

Lemma configs_of_elem m r : r ∈ configs_of m <-> exists x, m !! ccfr_currency r = Some x /\
  r = config_report_of (ccfr_currency r, x).
Proof.
  change (configs_of m) with (config_report_of <$> map_to_list m). rewrite list_elem_of_fmap. split.
  - intros ([c x] & -> & Hin%elem_of_map_to_list). by exists x.
  - intros (x & Hm & ->). exists (ccfr_currency r, x). split; [done|]. by apply elem_of_map_to_list.
Qed.

Lemma update_config_matches m c x l :
  l ≡ₚ configs_of m ->
  update_config_report (config_report_of (c, x)) l ≡ₚ configs_of (<[c := x]> m).
Proof.
  intros Hl. unfold update_config_report.
  destruct (list_find _ l) as [[pos old]|] eqn:Ef.
  - apply list_find_Some in Ef as (Hpos & Hc & _). simpl in Hc.
    assert (old ∈ configs_of m) as Hin by (rewrite <- Hl; by eapply list_elem_of_lookup_2).
    apply configs_of_elem in Hin as (y & Hy & Hold). rewrite Hc in Hy, Hold.
    assert (l ≡ₚ old :: delete pos l) as Hsplit by by apply delete_Permutation.
    rewrite insert_take_drop by by eapply lookup_lt_Some.
    rewrite <- Permutation_middle, <- delete_take_drop.
    rewrite <- insert_delete_eq, (configs_of_insert (delete c m)) by apply lookup_delete_eq.
    constructor. apply (Permutation_cons_inv (a := old)). rewrite <- Hsplit, Hl, Hold.
    by apply configs_of_delete.
  - apply list_find_None in Ef. assert (m !! c = None) as Hn.
    { destruct (m !! c) as [y|] eqn:E; [|done]. exfalso. rewrite Hl in Ef.
      rewrite Forall_forall in Ef. apply (Ef (config_report_of (c, y))); [|done].
      apply configs_of_elem. by exists y. }
    rewrite merge_sort_Permutation, configs_of_insert, Hl by done. apply Permutation_app_comm.
Qed.

Lemma remove_config_matches m c l :
  l ≡ₚ configs_of m -> base.filter (fun r => ccfr_currency r <> c) l ≡ₚ configs_of (delete c m).
Proof.
  intros ->. assert (forall m', m' !! c = None ->
    base.filter (fun r => ccfr_currency r <> c) (configs_of m') = configs_of m') as Hall.
  { intros m' Hm'. apply filter_all. intros r (x & Hx & _)%configs_of_elem. congruence. }
  destruct (m !! c) as [x|] eqn:E.
  - rewrite (configs_of_delete m c x E). rewrite filter_cons_False by (simpl; tauto).
    rewrite Hall; [done|]. apply lookup_delete_eq.
  - by rewrite Hall, delete_id.
Qed.
End Configs.

Section Tracking.
Context `{CryptoOps} {B : Type} `{CanonicalSerialize B}.
Implicit Types (s : FunderState B) (r : FunderReport B) (f : FriendState B) (fr : FriendReport B).

Definition friend_report_mutations fr (ms : list (FriendReportMutation B)) : FriendReport B :=
  fold_left friend_report_mutate ms fr.

(** The friend's mutations that touch no field of the report but the channel. *)
Lemma channel_report_matches f fr (st : ChannelStatus B) :
  friend_matches f fr ->
  friend_matches (with_channel_status f st) (friend_report_mutations fr (channel_report_mutations st)).
Proof. intros [? ? ? ? ? ?]. by constructor. Qed.

Lemma queue_mutation_matches f f' fr (k : ChannelConsistent B -> option (ChannelConsistent B)) :
  friend_matches f fr -> (forall c c', k c = Some c' -> token_channel c' = token_channel c) ->
  on_consistent f k = Some f' -> friend_matches f' fr.
Proof.
  intros [? ? ? Ht Hc ?] Hk. unfold on_consistent.
  destruct (channel_status f) as [|c] eqn:E; [done|]. intros Ho. inv_run.
  destruct (k c) as [c'|] eqn:Ek; inv_run. pose proof (Hk _ _ Ek) as Hc'.
  constructor; simpl; try done.
  - rewrite Ht. unfold last_incoming_report. simpl. by rewrite Hc'.
  - by rewrite Hc'.
Qed.

Lemma friend_mutation_tracked f f' fr (m : FriendMutation B) ms :
  friend_matches f fr -> friend_mutate f m = Some f' ->
  friend_mutation_to_report_mutations m f = Some ms ->
  friend_matches f' (friend_report_mutations fr ms).
Proof.
  intros Hm Hf. unfold friend_mutation_to_report_mutations. rewrite Hf. simpl. intros [= <-].
  destruct m; simpl in Hf;
    try (eapply queue_mutation_matches; [done| |exact Hf]; intros ? ? [= <-]; done);
    try (injection Hf as <-; by apply channel_report_matches);
    try (injection Hf as <-; destruct Hm; constructor; simpl; try done; by apply update_config_matches).
  - unfold on_consistent in Hf. destruct (channel_status f); [done|]. inv_run.
    destruct (tc_mutate _ _); inv_run. by apply channel_report_matches.
  - destruct (channel_status f) as [|cc] eqn:E; [done|]. case_decide; [done|]. injection Hf as <-.
    destruct Hm. constructor; simpl; try done. by apply remove_config_matches.
Qed.

Lemma apply_friend_mutations pk ms r fr :
  rp_friends r !! pk = Some fr ->
  ofold funder_report_mutate r (map (RpFriendMutation pk) ms) =
  Ok (mkFunderReport (rp_local_public_key r) (rp_relays r)
        (<[pk := friend_report_mutations fr ms]> (rp_friends r))).
Proof.
  revert r fr; induction ms as [|m ms IH]; intros r fr Hr; simpl.
  - rewrite insert_id by done. by destruct r.
  - rewrite Hr. simpl. rewrite (IH _ (friend_report_mutate fr m)) by apply lookup_insert_eq.
    simpl. by rewrite insert_insert_eq.
Qed.

Lemma friends_insert_matches (m : gmap PublicKey (FriendState B)) (mr : gmap PublicKey (FriendReport B)) pk f fr :
  (forall k, option_Forall2 friend_matches (m !! k) (mr !! k)) -> friend_matches f fr ->
  forall k, option_Forall2 friend_matches (<[pk := f]> m !! k) (<[pk := fr]> mr !! k).
Proof.
  intros Hall Hf k. destruct (decide (pk = k)) as [->|Hne].
  - rewrite !lookup_insert_eq. by constructor.
  - by rewrite !lookup_insert_ne.
Qed.

Lemma new_friend_matches (a : AddFriend B) (local : PublicKey) :
  let f := friend_new local (af_friend_public_key a) (af_relays a) (af_name a) in
  friend_matches f (mkFriendReport (af_name a) (af_relays a) [] (last_incoming_report (channel_status f))
    ReportOffline (channel_status_report (channel_status f)) (friend_status_report FriendDisabled)).
Proof. intros f. by constructor. Qed.

(** Removing a friend that does not exist has no effect on the state but is an
    error on the report; the handlers never emit it. *)
Definition mutation_applies s (m : FunderMutation B) : Prop :=
  match m with FuRemoveFriend pk => is_Some (friends s !! pk) | _ => True end.

Lemma funder_mutation_tracked s s' r (m : FunderMutation B) :
  report_matches s r -> mutation_applies s m -> funder_mutate s m = Some s' ->
  exists ms r', funder_mutation_to_report_mutations m s = Some ms /\
    ofold funder_report_mutate r ms = Ok r' /\ report_matches s' r'.
Proof.
  intros [Hk Hr Hf] Ha Hm. unfold funder_mutation_to_report_mutations. rewrite Hm. simpl.
  destruct m; simpl in Hm, Ha;
    try (inv_run; eexists _, _; split; [reflexivity|]; split; [reflexivity|]; by constructor).
  - inv_run. pose proof (Hf pk) as Hpk. rewrite H1 in Hpk. inversion Hpk as [? fr Hfr|]; subst.
    rewrite H1. simpl. destruct (friend_mutation_to_report_mutations m x) as [ms|] eqn:Em.
    2:{ unfold friend_mutation_to_report_mutations in Em. by rewrite H2 in Em. }
    simpl. eexists _, _. split; [done|]. split; [by apply apply_friend_mutations|].
    constructor; simpl; try done. apply friends_insert_matches; [done|].
    by eapply friend_mutation_tracked.
  - inv_run. eexists _, _. split; [reflexivity|]. split; [reflexivity|].
    constructor; simpl; try done. by rewrite Hr.
  - inv_run. eexists _, _. split; [reflexivity|]. split; [reflexivity|].
    constructor; simpl; try done. by rewrite Hr.
  - pose proof (Hf (af_friend_public_key a)) as Hpk.
    destruct (friends s !! af_friend_public_key a) eqn:E; [done|].
    destruct (rp_friends r !! af_friend_public_key a) eqn:En; [by inversion Hpk|]. inv_run.
    rewrite lookup_insert_eq. simpl. eexists _, _. split; [reflexivity|]. simpl. rewrite En. simpl.
    split; [reflexivity|]. constructor; simpl; try done.
    apply friends_insert_matches; [done|]. apply new_friend_matches.
  - inv_run. pose proof (Hf pk) as Hpk. destruct Ha as [f0 Ha]. rewrite Ha in Hpk.
    destruct (rp_friends r !! pk) eqn:E2; [|by inversion Hpk].
    eexists _, _. split; [reflexivity|]. simpl. rewrite E2. simpl. split; [reflexivity|].
    constructor; simpl; try done. intros k. destruct (decide (pk = k)) as [->|Hne].
    + rewrite !lookup_delete_eq. constructor.
    + by rewrite !lookup_delete_ne.
  - inv_run. case_match; inv_run. eexists _, _. split; [reflexivity|]. split; [reflexivity|]. by constructor.
  - inv_run. case_match; inv_run. eexists _, _. split; [reflexivity|]. split; [reflexivity|]. by constructor.
Qed.

(** Every removal in a sequence of mutations is of an existing friend. *)
Fixpoint mutations_apply s (ms : list (FunderMutation B)) : Prop :=
  match ms with
  | [] => True
  | m :: rest => mutation_applies s m /\
      match funder_mutate s m with Some s' => mutations_apply s' rest | None => False end
  end.

Lemma funder_mutations_tracked ms s r :
  report_matches s r -> mutations_apply s ms ->
  exists s' rms r', pfold funder_mutate s ms = Some s' /\
    funder_report_mutations s ms = Some (s', rms) /\
    ofold funder_report_mutate r rms = Ok r' /\ report_matches s' r'.
Proof.
  revert s r; induction ms as [|m ms IH]; intros s r Hm Ha; simpl in *; [by eexists _, _, _|].
  destruct Ha as [Ha Hrest]. destruct (funder_mutate s m) as [s1|] eqn:E; [|done].
  destruct (funder_mutation_tracked _ _ _ _ Hm Ha E) as (rms & r1 & -> & Hr1 & Hm1).
  destruct (IH _ _ Hm1 Hrest) as (s' & rms' & r' & Hs' & Hrms' & Hr' & Hm').
  simpl. rewrite Hrms'. simpl. eexists _, _, _. split; [done|]. split; [reflexivity|].
  rewrite ofold_app, Hr1. done.
Qed.

(** *** Liveness *)

Definition keeps_liveness (m : FunderReportMutation B) : Prop :=
  match m with RpFriendMutation _ (FrSetLiveness _) => False | _ => True end.

Lemma friend_mutation_keeps_liveness m f ms pk :
  friend_mutation_to_report_mutations m f = Some ms -> Forall keeps_liveness (map (RpFriendMutation pk) ms).
Proof.
  unfold friend_mutation_to_report_mutations. intros. inv_run. destruct m; simpl; repeat constructor.
Qed.

Lemma funder_mutation_keeps_liveness m s ms :
  funder_mutation_to_report_mutations m s = Some ms -> Forall keeps_liveness ms.
Proof.
  unfold funder_mutation_to_report_mutations. intros. inv_run.
  destruct m; inv_run; repeat constructor. by eapply friend_mutation_keeps_liveness.
Qed.

Lemma funder_mutations_keep_liveness ms s s' rms :
  funder_report_mutations s ms = Some (s', rms) -> Forall keeps_liveness rms.
Proof.
  revert s rms; induction ms as [|m ms IH]; intros s rms Hm; simpl in Hm; inv_run; [constructor|].
  destruct x1 as [s1 rms1]. inv_run. apply Forall_app. split; [by eapply funder_mutation_keeps_liveness|].
  by eapply IH.
Qed.

Lemma keeps_liveness_sound r r' m e :
  keeps_liveness m -> funder_report_mutate r m = Ok r' -> liveness_sound r e -> liveness_sound r' e.
Proof.
  unfold liveness_sound. destruct m; simpl; intros Hk Hm Hl; inv_run; try done.
  - case_match; inv_run. by apply map_Forall_insert_2.
  - case_match; inv_run. intros k fr [_ Hk']%lookup_delete_Some. by eapply Hl.
  - apply map_Forall_insert_2; [|done]. pose proof (Hl _ _ H1) as Hpk. by destruct m.
Qed.

Lemma keep_liveness_sound ms r r' e :
  Forall keeps_liveness ms -> ofold funder_report_mutate r ms = Ok r' ->
  liveness_sound r e -> liveness_sound r' e.
Proof.
  intros Hk. revert r; induction Hk as [|m ms Hm _ IH]; intros r Hr Hl; simpl in Hr; inv_run; [done|].
  eapply IH; [done|]. by eapply keeps_liveness_sound.
Qed.

(** Only the liveness of existing friends changes. *)
Lemma set_liveness_tracked s r e pk l em :
  report_matches s r -> liveness_sound r e ->
  (l = ReportOnline -> is_online (liveness (ephemeral_mutate e em)) pk = true) ->
  (forall k, k <> pk -> is_online (liveness e) k = true -> is_online (liveness (ephemeral_mutate e em)) k = true) ->
  exists r', ofold funder_report_mutate r
      (if bool_decide (friends s !! pk = None) then [] else [RpFriendMutation pk (FrSetLiveness l)]) = Ok r' /\
    report_matches s r' /\ liveness_sound r' (ephemeral_mutate e em).
Proof.
  intros [Hk Hr Hf] Hl Hpk Hne. pose proof (Hf pk) as Hpk'. case_bool_decide as E.
  - rewrite E in Hpk'. exists r. split; [done|]. split; [by constructor|]. intros k fr Hkr Hon.
    apply Hne; [|by eapply Hl]. intros ->. rewrite Hkr in Hpk'. inversion Hpk'.
  - destruct (friends s !! pk) as [f|] eqn:Ef; [|done].
    destruct (rp_friends r !! pk) as [fr|] eqn:Er; [|by inversion Hpk'].
    simpl. rewrite Er. eexists. split; [reflexivity|]. split.
    + constructor; simpl; try done. intros k. destruct (decide (pk = k)) as [<-|Hkn].
      * rewrite lookup_insert_eq, Ef. constructor. inversion Hpk' as [? ? Hm|]; subst.
        destruct Hm. by constructor.
      * rewrite lookup_insert_ne by done. apply Hf.
    + intros k fr'. simpl. rewrite lookup_insert_Some. intros [[<- <-]|[Hkn Hk']] Hon; [by apply Hpk|].
      apply Hne; [done|]. by eapply Hl.
Qed.

Lemma ephemeral_mutation_tracked s r e em :
  report_matches s r -> liveness_sound r e ->
  exists r', ofold funder_report_mutate r (ephemeral_mutation_to_report_mutations em s) = Ok r' /\
    report_matches s r' /\ liveness_sound r' (ephemeral_mutate e em).
Proof.
  intros Hm Hl. destruct em as [[pk|pk]];
    [apply (set_liveness_tracked s r e pk ReportOnline)|apply (set_liveness_tracked s r e pk ReportOffline)];
    try done; unfold is_online; simpl; intros; rewrite bool_decide_eq_true in *; set_solver.
Qed.

Lemma ephemeral_mutations_tracked ems s r e :
  report_matches s r -> liveness_sound r e ->
  exists r', ofold funder_report_mutate r
      (concat (map (fun em => ephemeral_mutation_to_report_mutations em s) ems)) = Ok r' /\
    report_matches s r' /\ liveness_sound r' (fold_left ephemeral_mutate ems e).
Proof.
  revert r e; induction ems as [|em ems IH]; intros r e Hm Hl; simpl; [by exists r|].
  destruct (ephemeral_mutation_tracked s r e em Hm Hl) as (r1 & Hr1 & Hm1 & Hl1).
  rewrite ofold_app, Hr1. simpl. by apply IH.
Qed.

Lemma create_report_matches s e : report_matches s (create_report s e) /\ liveness_sound (create_report s e) e.
Proof.
  split; [constructor; try done|].
  - intros pk. simpl. rewrite map_lookup_imap. destruct (friends s !! pk); simpl; constructor.
    by constructor.
  - intros pk fr. simpl. rewrite map_lookup_imap. destruct (friends s !! pk); simpl; [|done].
    intros [= <-]. simpl. by destruct (is_online _ _).
Qed.
End Tracking.

Lemma report_follows `{CryptoOps} {B : Type} `{CanonicalSerialize B}
    (s : FunderState B) (r : FunderReport B) (e : Ephemeral)
    (ms : list (FunderMutation B)) (ems : list EphemeralMutation) :
  report_matches s r -> liveness_sound r e -> mutations_apply s ms ->
  exists s' rms r', pfold funder_mutate s ms = Some s' /\
    create_report_mutations s ms ems = Some rms /\
    ofold funder_report_mutate r rms = Ok r' /\
    report_matches s' r' /\ liveness_sound r' (fold_left ephemeral_mutate ems e).
Proof.
  intros Hm Hl Ha. destruct (funder_mutations_tracked ms s r Hm Ha) as (s' & rms & r1 & Hs & Hrms & Hr1 & Hm1).
  assert (liveness_sound r1 e) as Hl1
    by (eapply keep_liveness_sound; [by eapply funder_mutations_keep_liveness|done|done]).
  destruct (ephemeral_mutations_tracked ems s' r1 e Hm1 Hl1) as (r' & Hr' & Hm' & Hl').
  unfold create_report_mutations. rewrite Hrms. simpl. eexists _, _, _. split; [done|].
  split; [reflexivity|]. rewrite ofold_app, Hr1. done.
Qed.

(** The report an application keeps stays a report of the funder's state:
    starting from a matching report, whatever mutations the funder applies to
    its state and to its ephemeral liveness, the report mutations it emits can
    all be applied (no error), and the resulting report again matches the new
    state, friend by friend: names, relays, currency configurations, balances
    or reset terms, last signed token and status. A friend is never reported
    online when the funder believes it is offline. *)
Theorem report_tracks_state `{CryptoOps} {B : Type} `{CanonicalSerialize B}
    (s : FunderState B) (r : FunderReport B) (e : Ephemeral)
    (ms : list (FunderMutation B)) (ems : list EphemeralMutation) :
  report_matches s r -> liveness_sound r e -> mutations_apply s ms ->
  exists s' rms r', pfold funder_mutate s ms = Some s' /\
    create_report_mutations s ms ems = Some rms /\
    ofold funder_report_mutate r rms = Ok r' /\
    report_matches s' r' /\ liveness_sound r' (fold_left ephemeral_mutate ems e).
Proof. apply report_follows. Qed.

(** ** A concrete run *)
Module ReportSamples.
Import Toy.

Definition local_pk : PublicKey := fixed_of_prefix 32 [].
Definition friend_pk : PublicKey := fixed_of_prefix 32 [Byte.x01].
Definition sample_state : FunderState string := funder_new local_pk [].
Definition sample_mutations : list (FunderMutation string) :=
  [FuAddFriend (mkAddFriend friend_pk [] "alice"); FuFriendMutation friend_pk (SetName "bob");
   FuFriendMutation friend_pk (UpdateCurrencyConfig (mkCurrency "FST") currency_config_new);
   FuRemoveFriend friend_pk].

Lemma report_tracks_state_witness :
  exists s' rms r', pfold funder_mutate sample_state sample_mutations = Some s' /\
    create_report_mutations sample_state sample_mutations [EphLivenessMutation (SetOnline friend_pk)] = Some rms /\
    ofold funder_report_mutate (create_initial_report sample_state) rms = Ok r' /\ report_matches s' r'.
Proof.
  destruct (report_tracks_state sample_state (create_initial_report sample_state) ephemeral_new
    sample_mutations [EphLivenessMutation (SetOnline friend_pk)]) as (s' & rms & r' & Hs & Hrms & Hr & Hm & _).
  - apply create_report_matches.
  - apply create_report_matches.
  - split; [exact I|]. split; [exact I|]. split; [exact I|]. split; [|exact I]. by eexists.
  - by exists s', rms, r'.
Defined.
End ReportSamples.
