(* ===== verification/Handler.v ===== *)
(** * The handler context ([funder/src/handler/types.rs], [state_wrap.rs], [utils.rs])

    The handlers of the funder share a mutable state that records the
    mutations applied to it, the commands for the sender, the outgoing control
    and channeler messages, the ephemeral state and a random generator. They
    are written in a state and error monad over this context: an error keeps
    the context (the caller goes on with it), a panic does not. *)

From S2P Require Import Prelude Arith Bytes Messages Canonical MutualCredit TokenChannel Friend FunderState Report.

Local Open Scope Z_scope.

(** A random generator ([CryptoRandom]): fills a buffer of any length. *)
Class RngOps : Type := {
  rng : Type;
  rng_fill : forall n, rng -> fixed_bytes n * rng
}.

(** ** Messages to and from the applications *)

Inductive RequestResult :=
| RequestComplete (c : Commit)
| RequestSuccess
| RequestFailure.

Record TransactionResult := mkTransactionResult {
  tr_request_id : Uid;
  tr_result : RequestResult
}.

Inductive PaymentStatus :=
| PaymentNotFound
| PaymentSuccess (receipt : Receipt) (ack_uid : Uid)
| PaymentCanceled (ack_uid : Uid).

Record ResponseClosePayment := mkResponseClosePayment {
  rcp_payment_id : PaymentId;
  rcp_status : PaymentStatus
}.

Inductive FunderOutgoingControl (B : Type) :=
| OutTransactionResult (r : TransactionResult)
| OutResponseClosePayment (r : ResponseClosePayment)
| OutReportMutations (r : FunderReportMutations B).
Arguments OutTransactionResult {B}. Arguments OutResponseClosePayment {B}. Arguments OutReportMutations {B}.

Record ChannelerUpdateFriend (B : Type) := mkChannelerUpdateFriend {
  cuf_friend_public_key : PublicKey;
  cuf_friend_relays : list (RelayAddress B);
  cuf_local_relays : list (RelayAddress B)
}.
Arguments mkChannelerUpdateFriend {B}. Arguments cuf_friend_public_key {B}.
Arguments cuf_friend_relays {B}. Arguments cuf_local_relays {B}.

Inductive ChannelerConfig (B : Type) :=
| ConfSetRelays (r : list (RelayAddress B))
| ConfUpdateFriend (u : ChannelerUpdateFriend B)
| ConfRemoveFriend (pk : PublicKey).
Arguments ConfSetRelays {B}. Arguments ConfUpdateFriend {B}. Arguments ConfRemoveFriend {B}.

(** ** Commands for the sender ([handler/types.rs]) *)

Record FriendSendCommands := mkFriendSendCommands {
  try_send : bool;
  resend_relays : bool;
  resend_outgoing : bool;
  remote_wants_token : bool;
  local_reset : bool
}.
Definition friend_send_commands_new : FriendSendCommands := mkFriendSendCommands false false false false false.

Notation SendCommands := (gmap PublicKey FriendSendCommands).

(** [entry(pk).or_insert_with(FriendSendCommands::new)] followed by a write. *)
Definition set_command (f : FriendSendCommands -> FriendSendCommands) (s : SendCommands) (pk : PublicKey)
    : SendCommands :=
  <[pk := f (default friend_send_commands_new (s !! pk))]> s.

Definition set_try_send : SendCommands -> PublicKey -> SendCommands :=
  set_command (fun c => mkFriendSendCommands true (resend_relays c) (resend_outgoing c)
                          (remote_wants_token c) (local_reset c)).
Definition set_resend_relays : SendCommands -> PublicKey -> SendCommands :=
  set_command (fun c => mkFriendSendCommands (try_send c) true (resend_outgoing c)
                          (remote_wants_token c) (local_reset c)).
Definition set_resend_outgoing : SendCommands -> PublicKey -> SendCommands :=
  set_command (fun c => mkFriendSendCommands (try_send c) (resend_relays c) true
                          (remote_wants_token c) (local_reset c)).
Definition set_remote_wants_token : SendCommands -> PublicKey -> SendCommands :=
  set_command (fun c => mkFriendSendCommands (try_send c) (resend_relays c) (resend_outgoing c)
                          true (local_reset c)).
Definition set_local_reset : SendCommands -> PublicKey -> SendCommands :=
  set_command (fun c => mkFriendSendCommands (try_send c) (resend_relays c) (resend_outgoing c)
                          (remote_wants_token c) true).

(** ** Recording wrappers ([handler/state_wrap.rs]) *)

Record SemiResponse := mkSemiResponse {
  sr_friend_public_key : PublicKey;
  sr_currency : Currency;
  sr_pending_transaction : PendingTransaction;
  sr_is_complete : bool
}.

Record MutableFunderState (B : Type) := mkMutableFunderState {
  ms_initial_state : FunderState B;
  ms_state : FunderState B;
  ms_unsigned_responses : list SemiResponse;
  ms_mutations : list (FunderMutation B)
}.
Arguments mkMutableFunderState {B}. Arguments ms_initial_state {B}. Arguments ms_state {B}.
Arguments ms_unsigned_responses {B}. Arguments ms_mutations {B}.

Record MutableEphemeral := mkMutableEphemeral {
  me_ephemeral : Ephemeral;
  me_mutations : list EphemeralMutation
}.

Section StateWrap.
Context `{CryptoOps} {B : Type} `{CanonicalSerialize B}.

Definition m_state_new (s : FunderState B) : MutableFunderState B := mkMutableFunderState s s [] [].

Definition m_queue_unsigned_response (m : MutableFunderState B) (r : SemiResponse) : MutableFunderState B :=
  mkMutableFunderState (ms_initial_state m) (ms_state m) (ms_unsigned_responses m ++ [r]) (ms_mutations m).

Definition m_mutate (m : MutableFunderState B) (fm : FunderMutation B) : option (MutableFunderState B) :=
  let! s := funder_mutate (ms_state m) fm in
  Some (mkMutableFunderState (ms_initial_state m) s (ms_unsigned_responses m) (ms_mutations m ++ [fm])).

(** [MutableFunderState::done] *)
Definition m_state_done (m : MutableFunderState B)
    : option (FunderState B * list (FunderMutation B) * FunderState B) :=
  match ms_unsigned_responses m with
  | [] => Some (ms_initial_state m, ms_mutations m, ms_state m)
  | _ => None
  end.
End StateWrap.

Definition m_ephemeral_new (e : Ephemeral) : MutableEphemeral := mkMutableEphemeral e [].
Definition me_mutate (m : MutableEphemeral) (em : EphemeralMutation) : MutableEphemeral :=
  mkMutableEphemeral (ephemeral_mutate (me_ephemeral m) em) (me_mutations m ++ [em]).

(** ** The context and its monad *)

Record Ctx `{RngOps} (B : Type) := mkCtx {
  cx_state : MutableFunderState B;
  cx_ephemeral : MutableEphemeral;
  cx_send : SendCommands;
  cx_control : list (FunderOutgoingControl B);
  cx_channeler : list (ChannelerConfig B);
  cx_rng : rng
}.
Arguments mkCtx {_ B}. Arguments cx_state {_ B}. Arguments cx_ephemeral {_ B}. Arguments cx_send {_ B}.
Arguments cx_control {_ B}. Arguments cx_channeler {_ B}. Arguments cx_rng {_ B}.

Inductive hres `{RngOps} (B E A : Type) : Type :=
| HOk (a : A) (c : Ctx B)
| HErr (e : E) (c : Ctx B)
| HPanic.
Arguments HOk {_ B E A}. Arguments HErr {_ B E A}. Arguments HPanic {_ B E A}.

Definition Hdl `{RngOps} (B E A : Type) : Type := Ctx B -> hres B E A.

Section Monad.
Context `{RngOps} {B E : Type}.

Definition hret {A} (a : A) : Hdl B E A := fun c => HOk a c.
Definition hbind {A A'} (h : Hdl B E A) (k : A -> Hdl B E A') : Hdl B E A' := fun c =>
  match h c with
  | HOk a c' => k a c'
  | HErr e c' => HErr e c'
  | HPanic => HPanic
  end.
Definition herr {A} (e : E) : Hdl B E A := fun c => HErr e c.
Definition hpanic {A} : Hdl B E A := fun _ => HPanic.

(** [o.ok_or(e)?] and [o.unwrap()] *)
Definition hok_or {A} (o : option A) (e : E) : Hdl B E A :=
  match o with Some a => hret a | None => herr e end.
Definition hunwrap {A} (o : option A) : Hdl B E A :=
  match o with Some a => hret a | None => hpanic end.

Definition hget {A} (f : Ctx B -> A) : Hdl B E A := fun c => HOk (f c) c.

(** A [for] loop. *)
Fixpoint hfor {A} (l : list A) (f : A -> Hdl B E unit) : Hdl B E unit :=
  match l with
  | [] => hret tt
  | x :: rest => hbind (f x) (fun _ => hfor rest f)
  end.
End Monad.

Declare Scope handler_scope.
Delimit Scope handler_scope with handler.
Notation "'do!' x ':=' c 'in' k" := (hbind c (fun x => k))
  (at level 10, x pattern, c at level 100, k at level 200,
   format "'[v' 'do!'  x  ':='  c  'in' '/' k ']'") : handler_scope.
Notation "'run!' c 'then' k" := (hbind c (fun _ => k))
  (at level 10, c at level 100, k at level 200, format "'[v' 'run!'  c  'then' '/' k ']'") : handler_scope.
Open Scope handler_scope.

Section Primitives.
Context `{CryptoOps} `{RngOps} {B : Type} `{CanonicalSerialize B} {E : Type}.
Notation Hdl := (Hdl B E).

Definition state_of (c : Ctx B) : FunderState B := ms_state (cx_state c).

(** [m_state.state()] *)
Definition get_state : Hdl (FunderState B) := hget state_of.
(** [m_ephemeral.ephemeral()] *)
Definition get_ephemeral : Hdl Ephemeral := hget (fun c => me_ephemeral (cx_ephemeral c)).

(** [m_state.mutate(..)] *)
Definition mutate (fm : FunderMutation B) : Hdl unit := fun c =>
  match m_mutate (cx_state c) fm with
  | Some m => HOk tt (mkCtx m (cx_ephemeral c) (cx_send c) (cx_control c) (cx_channeler c) (cx_rng c))
  | None => HPanic
  end.

(** [FunderMutation::FriendMutation((pk, ..))] *)
Definition mutate_friend (pk : PublicKey) (fm : FriendMutation B) : Hdl unit := mutate (FuFriendMutation pk fm).

(** [m_state.queue_unsigned_response(..)] *)
Definition queue_unsigned_response (pk : PublicKey) (c : Currency) (p : PendingTransaction)
    (is_complete : bool) : Hdl unit := fun cx =>
  HOk tt (mkCtx (m_queue_unsigned_response (cx_state cx) (mkSemiResponse pk c p is_complete))
            (cx_ephemeral cx) (cx_send cx) (cx_control cx) (cx_channeler cx) (cx_rng cx)).

(** [m_ephemeral.mutate(..)] *)
Definition mutate_ephemeral (em : EphemeralMutation) : Hdl unit := fun c =>
  HOk tt (mkCtx (cx_state c) (me_mutate (cx_ephemeral c) em) (cx_send c) (cx_control c) (cx_channeler c)
            (cx_rng c)).

(** [send_commands.set_..(pk)] *)
Definition send_command (f : SendCommands -> PublicKey -> SendCommands) (pk : PublicKey) : Hdl unit := fun c =>
  HOk tt (mkCtx (cx_state c) (cx_ephemeral c) (f (cx_send c) pk) (cx_control c) (cx_channeler c) (cx_rng c)).

(** [outgoing_control.push(..)], [outgoing_channeler_config.push(..)] *)
Definition push_control (o : FunderOutgoingControl B) : Hdl unit := fun c =>
  HOk tt (mkCtx (cx_state c) (cx_ephemeral c) (cx_send c) (cx_control c ++ [o]) (cx_channeler c) (cx_rng c)).
Definition push_channeler (o : ChannelerConfig B) : Hdl unit := fun c =>
  HOk tt (mkCtx (cx_state c) (cx_ephemeral c) (cx_send c) (cx_control c) (cx_channeler c ++ [o]) (cx_rng c)).

(** Emptying the queue of unsigned responses. *)
Definition take_unsigned_responses : Hdl (list SemiResponse) := fun c =>
  let m := cx_state c in
  HOk (ms_unsigned_responses m)
    (mkCtx (mkMutableFunderState (ms_initial_state m) (ms_state m) [] (ms_mutations m))
       (cx_ephemeral c) (cx_send c) (cx_control c) (cx_channeler c) (cx_rng c)).

(** [T::rand_gen(rng)] *)
Definition rand_gen (n : nat) : Hdl (fixed_bytes n) := fun c =>
  let '(v, r) := rng_fill n (cx_rng c) in
  HOk v (mkCtx (cx_state c) (cx_ephemeral c) (cx_send c) (cx_control c) (cx_channeler c) r).
End Primitives.

(** ** Searches over the friends ([handler/utils.rs]) *)

Section Utils.
Context {B : Type}.

(** The ledger of a currency with a friend whose channel is consistent. *)
Definition friend_mc (f : FriendState B) (c : Currency) : option MutualCredit :=
  match channel_status f with
  | Inconsistent _ => None
  | Consistent cc => mutual_credits (token_channel cc) !! c
  end.

Definition find_request_origin (s : FunderState B) (c : Currency) (request_id : Uid) : option PublicKey :=
  fst <$> head (base.filter (fun p : PublicKey * FriendState B =>
    is_Some (mc ← friend_mc p.2 c; pending_remote (mc_pending mc) !! request_id)) (map_to_list (friends s))).

Definition find_local_pending_transaction (s : FunderState B) (c : Currency) (request_id : Uid)
    : option PendingTransaction :=
  head (omap (fun p : PublicKey * FriendState B =>
    mc ← friend_mc p.2 c; pending_local (mc_pending mc) !! request_id) (map_to_list (friends s))).

Definition find_remote_pending_transaction (s : FunderState B) (c : Currency) (request_id : Uid)
    : option PendingTransaction :=
  head (omap (fun p : PublicKey * FriendState B =>
    mc ← friend_mc p.2 c; pending_remote (mc_pending mc) !! request_id) (map_to_list (friends s))).

(** [None] is the panic for a friend that does not exist. *)
Definition is_friend_ready (s : FunderState B) (e : Ephemeral) (pk : PublicKey) (c : Currency) : option bool :=
  let! f := friends s !! pk in
  if negb (is_online (liveness e) pk) then Some false
  else Some (bool_decide (is_Some (friend_mc f c))).
End Utils.

(** ** Reasoning about handlers *)

Section Preserves.
Context `{RngOps} {B E : Type}.

(** Every run of the handler that does not panic, successful or not, relates
    the contexts before and after it. *)
Definition preserves {A} (R : Ctx B -> Ctx B -> Prop) (h : Hdl B E A) : Prop := forall c,
  match h c with HOk _ c' | HErr _ c' => R c c' | HPanic => True end.

Context (R : Ctx B -> Ctx B -> Prop) `{!PreOrder R}.

Lemma preserves_ret {A} (a : A) : preserves R (hret a).
Proof. intros c. simpl. reflexivity. Qed.
Lemma preserves_err {A} (e : E) : preserves R (herr (A := A) e).
Proof. intros c. simpl. reflexivity. Qed.
Lemma preserves_panic {A} : preserves R (hpanic (A := A)).
Proof. by intros c. Qed.
Lemma preserves_get {A} (f : Ctx B -> A) : preserves R (hget f).
Proof. intros c. simpl. reflexivity. Qed.
Lemma preserves_ok_or {A} (o : option A) (e : E) : preserves R (hok_or o e).
Proof. destruct o; [apply preserves_ret|apply preserves_err]. Qed.
Lemma preserves_unwrap {A} (o : option A) : preserves R (hunwrap o).
Proof. destruct o; [apply preserves_ret|apply preserves_panic]. Qed.

Lemma preserves_bind {A A'} (h : Hdl B E A) (k : A -> Hdl B E A') :
  preserves R h -> (forall a, preserves R (k a)) -> preserves R (hbind h k).
Proof.
  intros Hh Hk c. specialize (Hh c). unfold hbind. destruct (h c) as [a c'|e c'|]; [|done..].
  specialize (Hk a c'). destruct (k a c'); try done; by etrans.
Qed.

Lemma preserves_for {A} (l : list A) (f : A -> Hdl B E unit) :
  (forall x, preserves R (f x)) -> preserves R (hfor l f).
Proof.
  intros Hf. induction l as [|x l IH]; simpl; [apply preserves_ret|].
  by apply preserves_bind.
Qed.
End Preserves.

(** Mutations that neither remove a friend nor touch transactions and payments. *)
Definition plain_mutation {B} (fm : FunderMutation B) : Prop :=
  match fm with
  | FuRemoveFriend _ | FuAddTransaction _ _ | FuRemoveTransaction _ | FuUpdatePayment _ _ | FuRemovePayment _ => False
  | _ => True
  end.

Definition not_report {B} (o : FunderOutgoingControl B) : Prop :=
  match o with OutReportMutations _ => False | _ => True end.

(** What a relation has to satisfy to be preserved by the handlers: it is
    preserved by the primitives they are made of. The operations on
    transactions and payments are added where they are defined. *)
Class BasicInv `{CryptoOps} `{RngOps} {B : Type} `{CanonicalSerialize B} (R : Ctx B -> Ctx B -> Prop) : Prop := {
  bi_preorder :: PreOrder R;
  bi_mutate E fm : plain_mutation fm -> preserves R (mutate (E := E) fm);
  bi_queue_unsigned E pk c p b : preserves R (queue_unsigned_response (E := E) pk c p b);
  bi_mutate_ephemeral E em : preserves R (mutate_ephemeral (E := E) em);
  bi_send_command E f pk : preserves R (send_command (E := E) f pk);
  bi_push_control E o : not_report o -> preserves R (push_control (E := E) o);
  bi_push_channeler E o : preserves R (push_channeler (E := E) o);
  bi_rand_gen E n : preserves R (rand_gen (E := E) n);
  bi_take_unsigned E : preserves R (take_unsigned_responses (E := E))
}.

Section BasicDerived.
Context `{CryptoOps} `{RngOps} {B : Type} `{CanonicalSerialize B} (R : Ctx B -> Ctx B -> Prop) `{!BasicInv R} {E : Type}.

Lemma mutate_friend_preserves pk (fm : FriendMutation B) : preserves R (mutate_friend (E := E) pk fm).
Proof. by apply bi_mutate. Qed.
Lemma get_state_preserves : preserves R (get_state (E := E)).
Proof. apply preserves_get, _. Qed.
Lemma get_ephemeral_preserves : preserves R (get_ephemeral (E := E)).
Proof. apply preserves_get, _. Qed.
End BasicDerived.

(** The primitives that the sender of messages is made of. *)
Class SenderInv `{CryptoOps} `{RngOps} {B : Type} `{CanonicalSerialize B} (R : Ctx B -> Ctx B -> Prop) : Prop := {
  si_preorder :: PreOrder R;
  si_mutate_friend E pk fm : preserves R (mutate_friend (E := E) pk fm);
  si_push_channeler E o : preserves R (push_channeler (E := E) o);
  si_rand_gen E n : preserves R (rand_gen (E := E) n);
  si_take_unsigned E : preserves R (take_unsigned_responses (E := E))
}.

#[global] Instance basic_sender `{CryptoOps} `{RngOps} {B : Type} `{CanonicalSerialize B}
    (R : Ctx B -> Ctx B -> Prop) `{!BasicInv R} : SenderInv R.
Proof.
  split; [apply _|..]; intros.
  - by apply bi_mutate.
  - apply bi_push_channeler.
  - apply bi_rand_gen.
  - apply bi_take_unsigned.
Qed.

Lemma get_state_sender `{CryptoOps} `{RngOps} {B : Type} `{CanonicalSerialize B} {E : Type}
    (R : Ctx B -> Ctx B -> Prop) `{!SenderInv R} : preserves R (get_state (E := E)).
Proof. apply preserves_get, _. Qed.
Lemma get_ephemeral_sender `{CryptoOps} `{RngOps} {B : Type} `{CanonicalSerialize B} {E : Type}
    (R : Ctx B -> Ctx B -> Prop) `{!SenderInv R} : preserves R (get_ephemeral (E := E)).
Proof. apply preserves_get, _. Qed.

Create HintDb handler discriminated.
#[export] Hint Resolve preserves_ret preserves_err preserves_panic preserves_get preserves_ok_or
  preserves_unwrap preserves_for bi_mutate bi_queue_unsigned bi_mutate_ephemeral bi_send_command
  bi_push_control bi_push_channeler bi_rand_gen bi_take_unsigned mutate_friend_preserves
  get_state_preserves get_ephemeral_preserves si_mutate_friend si_push_channeler si_rand_gen
  si_take_unsigned get_state_sender get_ephemeral_sender : handler.
#[export] Hint Extern 0 (plain_mutation _) => exact I : handler.
#[export] Hint Extern 0 (not_report _) => exact I : handler.

(** Walks through a handler: one goal per primitive that the hints do not know. *)
Ltac handler_step :=
  match goal with
  | |- preserves _ (hbind _ _) => apply preserves_bind; [typeclasses eauto| |intros ?]
  | |- preserves _ (match ?x with _ => _ end) => destruct x
  | |- preserves _ (hfor _ _) => apply preserves_for; [typeclasses eauto|intros ?]
  | |- preserves _ _ => solve [eauto 8 with handler typeclass_instances]
  end.
Ltac preserves := repeat handler_step.

(** *** The log of mutations replays to the state *)

Section Replay.
Context `{CryptoOps} `{RngOps} {B : Type} `{CanonicalSerialize B}.

(** Between the two contexts, mutations were logged that lead from the first
    state to the second; every friend they remove exists. The control messages
    added are no reports. *)
Definition logged (c c' : Ctx B) : Prop :=
  ms_initial_state (cx_state c') = ms_initial_state (cx_state c) /\
  (exists ctl, cx_control c' = cx_control c ++ ctl /\ Forall not_report ctl) /\
  exists ms, ms_mutations (cx_state c') = ms_mutations (cx_state c) ++ ms /\
    pfold funder_mutate (state_of c) ms = Some (state_of c') /\ mutations_apply (state_of c) ms.

(** Moreover no friend was removed. *)
Definition extends (c c' : Ctx B) : Prop :=
  logged c c' /\ dom (friends (state_of c)) ⊆ dom (friends (state_of c')).

Lemma mutations_apply_app (s s1 : FunderState B) ms ms' :
  mutations_apply s ms -> pfold funder_mutate s ms = Some s1 -> mutations_apply s1 ms' ->
  mutations_apply s (ms ++ ms').
Proof.
  revert s; induction ms as [|m ms IH]; intros s Ha Hp Ha'; simpl in *; [by simplify_eq|].
  destruct Ha as [Hm Ha]. split; [done|]. destruct (funder_mutate s m); [|done]. by apply IH.
Qed.

#[global] Instance logged_preorder : PreOrder logged.
Proof.
  split.
  - intros c. split; [done|]. split; exists []; by rewrite app_nil_r.
  - intros c1 c2 c3 (Hi & (l & Hl & Hn) & ms & Hm & Hp & Ha) (Hi' & (l' & Hl' & Hn') & ms' & Hm' & Hp' & Ha').
    split; [congruence|]. split.
    { exists (l ++ l'). rewrite Hl', Hl, app_assoc. split; [done|]. by apply Forall_app. }
    exists (ms ++ ms'). rewrite Hm', Hm, app_assoc. split; [done|]. rewrite pfold_app, Hp. split; [done|].
    by eapply mutations_apply_app.
Qed.

#[global] Instance extends_preorder : PreOrder extends.
Proof.
  split; [by split|]. intros c1 c2 c3 [Hl Hd] [Hl' Hd']. split; [by etrans|set_solver].
Qed.

Lemma extends_unchanged (c c' : Ctx B) :
  ms_initial_state (cx_state c') = ms_initial_state (cx_state c) -> state_of c' = state_of c ->
  ms_mutations (cx_state c') = ms_mutations (cx_state c) -> cx_control c' = cx_control c -> extends c c'.
Proof.
  intros Hi Hs Hm Hc. split; [|by rewrite Hs]. split; [done|].
  split; exists []; [by rewrite Hc, app_nil_r|]. rewrite Hm, app_nil_r, Hs. done.
Qed.

Definition keeps_friends (fm : FunderMutation B) : Prop :=
  match fm with FuRemoveFriend _ => False | _ => True end.

Lemma keeps_friends_dom (s s' : FunderState B) fm :
  keeps_friends fm -> funder_mutate s fm = Some s' -> dom (friends s) ⊆ dom (friends s').
Proof.
  destruct fm; simpl; intros Hk Hm; try done; inv_run; try set_solver; case_match; inv_run; set_solver.
Qed.

Context {E : Type}.

Lemma extends_logged {A} (h : Hdl B E A) : preserves extends h -> preserves logged h.
Proof. intros Hh c. specialize (Hh c). destruct (h c); try done; apply Hh. Qed.

Lemma mutate_logged c fm :
  mutation_applies (state_of c) fm ->
  match mutate (E := E) fm c with HOk _ c' | HErr _ c' => logged c c' | HPanic => True end.
Proof.
  intros Ha. unfold mutate, m_mutate.
  destruct (funder_mutate (ms_state (cx_state c)) fm) as [s'|] eqn:Em; simpl; [|done].
  split; [done|]. split; [exists []; by rewrite app_nil_r|]. exists [fm]. unfold state_of. simpl. by rewrite Em.
Qed.

Lemma mutate_extends (fm : FunderMutation B) : keeps_friends fm -> preserves extends (mutate (E := E) fm).
Proof.
  intros Hk c. assert (mutation_applies (state_of c) fm) as Ha by by destruct fm.
  pose proof (mutate_logged c fm Ha) as Hl. unfold mutate, m_mutate in *.
  destruct (funder_mutate (ms_state (cx_state c)) fm) as [s'|] eqn:Em; simpl in *; [|done].
  split; [done|]. by eapply keeps_friends_dom.
Qed.
Lemma push_control_extends o : not_report o -> preserves extends (push_control (B := B) (E := E) o).
Proof.
  intros Ho cx. split; [|done]. split; [done|]. split; [exists [o]; split; [done|by constructor]|].
  exists []. by rewrite app_nil_r.
Qed.
Lemma rand_gen_extends n : preserves extends (rand_gen (B := B) (E := E) n).
Proof. intros cx. unfold rand_gen. destruct (rng_fill n _). by apply extends_unchanged. Qed.
End Replay.

#[global] Instance extends_basic `{CryptoOps} `{RngOps} {B : Type} `{CanonicalSerialize B} :
  BasicInv (@extends _ _ B _).
Proof.
  split; try apply _; intros; try (intros ?; by apply extends_unchanged).
  - apply mutate_extends. by destruct fm.
  - by apply push_control_extends.
  - apply rand_gen_extends.
Qed.

(** *** The ephemeral mutations replay to the ephemeral state *)

Section EphemeralReplay.
Context `{CryptoOps} `{RngOps} {B : Type} `{CanonicalSerialize B} {E : Type}.

Definition ephemeral_logged (c c' : Ctx B) : Prop :=
  exists ems, me_mutations (cx_ephemeral c') = me_mutations (cx_ephemeral c) ++ ems /\
    me_ephemeral (cx_ephemeral c') = fold_left ephemeral_mutate ems (me_ephemeral (cx_ephemeral c)).

#[global] Instance ephemeral_logged_preorder : PreOrder ephemeral_logged.
Proof.
  split.
  - intros c. exists []. by rewrite app_nil_r.
  - intros c1 c2 c3 (l & Hl & He) (l' & Hl' & He'). exists (l ++ l').
    by rewrite Hl', Hl, app_assoc, fold_left_app, <-He.
Qed.

Lemma ephemeral_unchanged (c c' : Ctx B) : cx_ephemeral c' = cx_ephemeral c -> ephemeral_logged c c'.
Proof. intros He. exists []. by rewrite He, app_nil_r. Qed.

Lemma mutate_ephemeral_logged fm : preserves ephemeral_logged (mutate (B := B) (E := E) fm).
Proof. intros c. unfold mutate. destruct (m_mutate _ fm); [by apply ephemeral_unchanged|done]. Qed.
End EphemeralReplay.

#[global] Instance ephemeral_logged_basic `{CryptoOps} `{RngOps} {B : Type} `{CanonicalSerialize B} :
  BasicInv (@ephemeral_logged _ B).
Proof.
  split; try apply _; intros; try (intros ?; by apply ephemeral_unchanged).
  - apply mutate_ephemeral_logged.
  - intros c. by exists [em].
  - intros c. unfold rand_gen. destruct (rng_fill n _). by apply ephemeral_unchanged.
Qed.

(** *** No response waits for its signature *)

Section Quiet.
Context `{CryptoOps} `{RngOps} {B : Type} `{CanonicalSerialize B}.

Definition quiet (c c' : Ctx B) : Prop :=
  ms_unsigned_responses (cx_state c) = [] -> ms_unsigned_responses (cx_state c') = [].

#[global] Instance quiet_preorder : PreOrder quiet.
Proof. split; [intros c Hc; exact Hc|]. intros c1 c2 c3 H12 H23 H1'. by apply H23, H12. Qed.

#[global] Instance quiet_sender : SenderInv quiet.
Proof.
  split; [apply _|..]; intros ? **; intros c.
  - unfold mutate_friend, mutate, m_mutate. destruct (funder_mutate _ _); [intros Hc; exact Hc|done].
  - intros Hc; exact Hc.
  - unfold rand_gen. destruct (rng_fill n _). intros Hc; exact Hc.
  - intros _. reflexivity.
Qed.
End Quiet.
