(* ===== verification/Canceler.v ===== *)
(** * Cancelling requests ([funder/src/handler/canceler.rs])

    Replying to a request with a cancel, removing a local transaction from its
    payment, and cancelling everything that waits on a friend. *)

From S2P Require Import Prelude Arith Bytes Messages Canonical MutualCredit TokenChannel Friend FunderState Report.
From S2P Require Import Handler.

Local Open Scope Z_scope.

Inductive CurrencyChoice :=
| ChooseOne (c : Currency)
| ChooseAll.

(** [if let CurrencyChoice::One(currency0) = .. { if *currency0 != currency { continue } }] *)
Definition chosen (choice : CurrencyChoice) (c : Currency) : bool :=
  match choice with ChooseOne c0 => bool_decide (c0 = c) | ChooseAll => true end.

Section Canceler.
Context `{CryptoOps} `{RngOps} {B : Type} `{CanonicalSerialize B} {E : Type}.
Notation Hdl := (Hdl B E).

(** [create_cancel_send_funds] of [types.rs] *)
Definition create_cancel_send_funds (request_id : Uid) : CancelSendFundsOp := mkCancel request_id.

Definition reply_with_cancel (remote : PublicKey) (c : Currency) (request_id : Uid) : Hdl unit :=
  run! mutate_friend remote
         (PushBackPendingBackwardsOp c (BackCancel (create_cancel_send_funds request_id))) then
  send_command set_try_send remote.

(** [num_transactions.checked_sub(1).unwrap()] on a [u64] *)
Definition decrease_transactions (n : Z) : option Z := checked_u 64 (n - 1).

(** The new stage of a payment that lost a transaction and the status to
    report; an absent new stage removes the payment. *)
Definition stage_after_removal (s : PaymentStage) : Hdl (option PaymentStage * option PaymentStatus) :=
  match s with
  | StageNewTransactions n =>
      do! k := hunwrap (decrease_transactions (nt_num_transactions n)) in
      hret (Some (StageNewTransactions (mkNewTransactions k (nt_invoice_id n) (nt_currency n)
                    (nt_total_dest_payment n) (nt_dest_public_key n))), None)
  | StageInProgress num_transactions =>
      if negb (0 <? num_transactions) then hpanic
      else
        do! k := hunwrap (decrease_transactions num_transactions) in
        if 0 <? k then hret (Some (StageInProgress k), None)
        else
          do! ack_uid := rand_gen 16 in
          hret (Some (StageCanceled ack_uid), Some (PaymentCanceled ack_uid))
  | StageSuccess num_transactions receipt ack_uid =>
      do! k := hunwrap (decrease_transactions num_transactions) in
      hret (Some (StageSuccess k receipt ack_uid), Some (PaymentSuccess receipt ack_uid))
  | StageCanceled _ => hpanic
  | StageAfterSuccessAck num_transactions =>
      do! k := hunwrap (decrease_transactions num_transactions) in
      hret (if 0 <? k then Some (StageAfterSuccessAck k) else None, None)
  end.

(** [if let Some(payment_status) = opt_payment_status { .. push(ResponseClosePayment) }] *)
Definition push_payment_status (payment_id : PaymentId) (st : option PaymentStatus) : Hdl unit :=
  match st with
  | Some status => push_control (OutResponseClosePayment (mkResponseClosePayment payment_id status))
  | None => hret tt
  end.

(** [UpdatePayment] with the new stage, or [RemovePayment]. *)
Definition payment_mutation (payment_id : PaymentId) (lock : PlainLock) (opt_stage : option PaymentStage)
    : FunderMutation B :=
  match opt_stage with
  | Some new_stage => FuUpdatePayment payment_id (mkPayment lock new_stage)
  | None => FuRemovePayment payment_id
  end.

Definition remove_transaction (request_id : Uid) : Hdl unit :=
  do! s := get_state in
  do! open_transaction := hunwrap (open_transactions s !! request_id) in
  do! payment := hunwrap (payments s !! ot_payment_id open_transaction) in
  run! mutate (FuRemoveTransaction request_id) then
  do! res := stage_after_removal (stage payment) in
  run! push_payment_status (ot_payment_id open_transaction) res.2 then
  mutate (payment_mutation (ot_payment_id open_transaction) (src_plain_lock payment) res.1).

(** The failure of a request: a cancel to its origin, or a report to the user
    and the removal of the transaction when this node is the origin. *)
Definition cancel_to_origin (c : Currency) (request_id : Uid) : Hdl unit :=
  do! s := get_state in
  match find_request_origin s c request_id with
  | Some origin =>
      run! mutate_friend origin
             (PushBackPendingBackwardsOp c (BackCancel (create_cancel_send_funds request_id))) then
      send_command set_try_send origin
  | None =>
      run! push_control (OutTransactionResult (mkTransactionResult request_id RequestFailure)) then
      remove_transaction request_id
  end.

(** The origin is searched with the key of the map, the cancel is created for
    the identifier stored in the transaction. *)
Definition cancel_local_pending_transaction (c : Currency) (entry : Uid * PendingTransaction) : Hdl unit :=
  do! s := get_state in
  match find_request_origin s c entry.1 with
  | Some origin =>
      run! mutate_friend origin
             (PushBackPendingBackwardsOp c (BackCancel (create_cancel_send_funds (pt_request_id entry.2)))) then
      send_command set_try_send origin
  | None =>
      run! push_control (OutTransactionResult (mkTransactionResult (pt_request_id entry.2) RequestFailure)) then
      remove_transaction (pt_request_id entry.2)
  end.

Definition cancel_local_pending_transactions (pk : PublicKey) : Hdl unit :=
  do! s := get_state in
  do! f := hunwrap (friends s !! pk) in
  match channel_status f with
  | Inconsistent _ => hret tt
  | Consistent cc =>
      hfor (map_to_list (mutual_credits (token_channel cc))) (fun entry =>
        hfor (map_to_list (pending_local (mc_pending entry.2))) (cancel_local_pending_transaction entry.1))
  end.

Definition cancel_request (c : Currency) (r : RequestSendFundsOp) : Hdl unit :=
  cancel_to_origin c (rq_request_id r).

Definition cancel_requests (choice : CurrencyChoice) (queue : list (Currency * RequestSendFundsOp)) : Hdl unit :=
  hfor queue (fun p => if chosen choice p.1 then cancel_request p.1 p.2 else hret tt).

Definition remove_requests_mutation (choice : CurrencyChoice) : FriendMutation B :=
  match choice with ChooseOne c => RemovePendingRequestsCurrency c | ChooseAll => RemovePendingRequests end.
Definition remove_user_requests_mutation (choice : CurrencyChoice) : FriendMutation B :=
  match choice with ChooseOne c => RemovePendingUserRequestsCurrency c | ChooseAll => RemovePendingRequests end.

Definition cancel_pending_requests (pk : PublicKey) (choice : CurrencyChoice) : Hdl unit :=
  do! s := get_state in
  do! f := hunwrap (friends s !! pk) in
  match channel_status f with
  | Inconsistent _ => hret tt
  | Consistent cc =>
      run! cancel_requests choice (pending_requests cc) then
      run! cancel_requests choice (pending_user_requests cc) then
      run! mutate_friend pk (remove_requests_mutation choice) then
      mutate_friend pk (remove_user_requests_mutation choice)
  end.

Definition cancel_nonuser_pending_requests (pk : PublicKey) (choice : CurrencyChoice) : Hdl unit :=
  do! s := get_state in
  do! f := hunwrap (friends s !! pk) in
  match channel_status f with
  | Inconsistent _ => hret tt
  | Consistent cc =>
      run! cancel_requests choice (pending_requests cc) then
      mutate_friend pk (remove_requests_mutation choice)
  end.

End Canceler.

(** ** Relations preserved by these handlers *)

(** Besides the primitives, the relation is preserved by the removal of a
    transaction from its payment. *)
Class TransactionInv `{CryptoOps} `{RngOps} {B : Type} `{CanonicalSerialize B} (R : Ctx B -> Ctx B -> Prop)
    : Prop := {
  ti_basic :: BasicInv R;
  ti_remove_transaction E id : preserves R (remove_transaction (E := E) id)
}.
#[export] Hint Resolve ti_remove_transaction : handler.

Section Preserved.
Context `{CryptoOps} `{RngOps} {B : Type} `{CanonicalSerialize B} (R : Ctx B -> Ctx B -> Prop) {E : Type}.

Lemma push_payment_status_preserves `{!BasicInv R} payment_id st :
  preserves R (push_payment_status (E := E) payment_id st).
Proof. unfold push_payment_status. preserves. Qed.
Lemma stage_after_removal_preserves `{!BasicInv R} s : preserves R (stage_after_removal (E := E) s).
Proof. unfold stage_after_removal. preserves. Qed.
Lemma reply_with_cancel_preserves `{!BasicInv R} pk c id : preserves R (reply_with_cancel (E := E) pk c id).
Proof. unfold reply_with_cancel. preserves. Qed.

Context `{!TransactionInv R}.

Lemma cancel_to_origin_preserves c id : preserves R (cancel_to_origin (E := E) c id).
Proof. unfold cancel_to_origin. preserves. Qed.
Hint Resolve cancel_to_origin_preserves : handler.
Lemma cancel_requests_preserves choice q : preserves R (cancel_requests (E := E) choice q).
Proof. unfold cancel_requests, cancel_request. preserves. Qed.
Hint Resolve cancel_requests_preserves : handler.
Lemma cancel_local_preserves c e : preserves R (cancel_local_pending_transaction (E := E) c e).
Proof. unfold cancel_local_pending_transaction. preserves. Qed.
Hint Resolve cancel_local_preserves : handler.
Lemma cancel_local_pending_transactions_preserves pk :
  preserves R (cancel_local_pending_transactions (E := E) pk).
Proof. unfold cancel_local_pending_transactions. preserves. Qed.
Lemma cancel_pending_requests_preserves pk choice : preserves R (cancel_pending_requests (E := E) pk choice).
Proof. unfold cancel_pending_requests. preserves. Qed.
Lemma cancel_nonuser_pending_requests_preserves pk choice :
  preserves R (cancel_nonuser_pending_requests (E := E) pk choice).
Proof. unfold cancel_nonuser_pending_requests. preserves. Qed.
End Preserved.

#[export] Hint Resolve push_payment_status_preserves stage_after_removal_preserves reply_with_cancel_preserves
  cancel_local_pending_transactions_preserves cancel_pending_requests_preserves
  cancel_nonuser_pending_requests_preserves : handler.

Section Extends.
Context `{CryptoOps} `{RngOps} {B : Type} `{CanonicalSerialize B} {E : Type}.

Lemma payment_mutation_extends id lock st : preserves (@extends _ _ B _) (mutate (E := E) (payment_mutation id lock st)).
Proof. apply mutate_extends. by destruct st. Qed.
End Extends.
#[export] Hint Resolve payment_mutation_extends : handler.

#[global] Instance extends_transaction `{CryptoOps} `{RngOps} {B : Type} `{CanonicalSerialize B} :
  TransactionInv (@extends _ _ B _).
Proof.
  split; [apply _|]. intros E id. unfold remove_transaction. preserves. by apply mutate_extends.
Qed.
