(* ===== verification/HandleFriend.v ===== *)
(** * Messages from friends ([funder/src/handler/handle_friend.rs])

    A move token, with all the operations it carries, or an inconsistency
    error with the friend's reset terms. *)

From S2P Require Import Prelude Arith Bytes Messages Canonical MutualCredit TokenChannel Friend FunderState Report.
From S2P Require Import Handler Canceler.

Local Open Scope Z_scope.

Inductive HandleFriendError := HfFriendDoesNotExist | HfInconsistencyWhenTokenOwned.

Inductive CheckRequest := CheckComplete | CheckSuccess | CheckFailure.

Definition currency_entry_le {A} (x y : Currency * A) : Prop := currency_le x.1 y.1.
#[global] Instance currency_entry_le_dec {A} : RelDecision (@currency_entry_le A) :=
  fun x y => currency_le_dec _ _.

(** The balances of reset terms, from a friend's ledgers sorted by currency;
    [None] is the panic of [balance_for_reset]. *)
Definition reset_balances (mcs : gmap Currency MutualCredit) : option (list CurrencyBalance) :=
  omap_all (fun p => let! b := balance_for_reset p.2 in Some (mkCurrencyBalance p.1 b))
    (merge_sort currency_entry_le (map_to_list mcs)).

(** The negated balances of reset terms; [None] is the panic of [checked_neg]. *)
Definition neg_reset_balances (l : list CurrencyBalance) : option (list CurrencyBalanceInfo) :=
  omap_all (fun cb =>
    let! neg := checked_i 128 (- cb_balance cb) in
    Some (mkCurrencyBalanceInfo (cb_currency cb) (mkBalanceInfo neg 0 0))) l.

Section HandleFriend.
Context `{CryptoOps} `{RngOps} {B : Type} `{CanonicalSerialize B} `{EqDecision B}.

Section AnyError.
Context {E : Type}.
Notation Hdl := (Hdl B E).

Definition gen_reset_terms (tc : TokenChannel B) : Hdl ResetTerms :=
  do! reset_token := rand_gen 64 in
  do! balances := hunwrap (reset_balances (mutual_credits tc)) in
  hret (mkResetTerms reset_token (cast_u 64 (get_inconsistency_counter tc + 1)) balances).

(** Configurations for the currencies of a reset that have none yet; the
    configurations are those found when the loop starts. *)
Definition add_missing_configs (pk : PublicKey) (l : list CurrencyBalance) : Hdl unit :=
  do! s := get_state in
  do! f := hunwrap (friends s !! pk) in
  hfor l (fun cb =>
    if bool_decide (is_Some (currency_configs f !! cb_currency cb)) then hret tt
    else mutate_friend pk (UpdateCurrencyConfig (cb_currency cb) currency_config_new)).

Definition update_remote_relays (pk : PublicKey) (opt_relays : option (list (RelayAddress B))) : Hdl unit :=
  match opt_relays with
  | None => hret tt
  | Some new_relays =>
      do! s := get_state in
      do! f := hunwrap (friends s !! pk) in
      if decide (new_relays = remote_relays f) then hret tt
      else mutate_friend pk (SetRemoteRelays new_relays)
  end.

Definition reset_token_info (local remote : PublicKey) (balances : list CurrencyBalanceInfo) (counter : Z)
    : TokenInfo := mkTokenInfo (mkMcInfo local remote balances) (mkCountersInfo counter 0).

Definition try_reset_channel (pk : PublicKey) (local_terms : ResetTerms) (req : MoveTokenRequest B) : Hdl unit :=
  let mt := mtr_move_token req in
  do! balances := hunwrap (neg_reset_balances (rt_balance_for_reset local_terms)) in
  do! s := get_state in
  let remote_token_info :=
    reset_token_info pk (fu_local_public_key s) balances (rt_inconsistency_counter local_terms) in
  if negb (bool_decide (mt_old_token mt = rt_reset_token local_terms))
     || negb (match mt_currencies_operations mt with [] => true | _ => false end)
     || negb (bool_decide (hash_token_info remote_token_info = mt_info_hash mt))
     || negb (verify_move_token mt pk)
  then send_command set_resend_outgoing pk
  else
    do! tc := hunwrap (new_from_remote_reset mt remote_token_info) in
    run! mutate_friend pk (SetConsistent tc) then
    run! add_missing_configs pk (rt_balance_for_reset local_terms) then
    run! update_remote_relays pk (mt_opt_local_relays mt) then
    run! send_command set_resend_relays pk then
    run! send_command set_try_send pk then
    if mtr_token_wanted req then send_command set_remote_wants_token pk else hret tt.

Definition forward_request (c : Currency) (r : RequestSendFundsOp) (next_pk : PublicKey) : Hdl unit :=
  run! mutate_friend next_pk (PushBackPendingRequest c r) then
  send_command set_try_send next_pk.

(** The credits already paid for an invoice. *)
Definition total_paid (s : FunderState B) (oi : OpenInvoice) : option Z :=
  pfold (fun acc request_id =>
    let! p := find_remote_pending_transaction s (oi_currency oi) request_id in
    if decide (pt_total_dest_payment p = oi_total_dest_payment oi)
    then checked_u 128 (acc + pt_dest_payment p) else None)
    0 (elements (oi_incoming_transactions oi)).

Definition check_request (s : FunderState B) (r : RequestSendFundsOp) : option CheckRequest :=
  match open_invoices s !! rq_invoice_id r with
  | None => Some CheckFailure
  | Some oi =>
      if match oi_opt_src_hashed_lock oi with
         | Some l => negb (bool_decide (l = rq_src_hashed_lock r))
         | None => false
         end
      then Some CheckFailure
      else if negb (oi_total_dest_payment oi =? rq_total_dest_payment r) then Some CheckFailure
      else if rq_total_dest_payment r <? rq_dest_payment r then Some CheckFailure
      else
        let! paid := total_paid s oi in
        match checked_u 128 (paid + rq_dest_payment r) with
        | None => Some CheckFailure
        | Some new_total_paid =>
            Some match new_total_paid ?= oi_total_dest_payment oi with
                 | Lt => CheckSuccess
                 | Eq => CheckComplete
                 | Gt => CheckFailure
                 end
        end
  end.

(** We are the destination of the request. *)
Definition accept_request (remote : PublicKey) (c : Currency) (r : RequestSendFundsOp) (is_complete : bool)
    : Hdl unit :=
  do! s := get_state in
  do! oi := hunwrap (open_invoices s !! rq_invoice_id r) in
  run! match oi_opt_src_hashed_lock oi with
       | None => mutate (FuSetInvoiceSrcHashedLock (rq_invoice_id r) (rq_src_hashed_lock r))
       | Some _ => hret tt
       end then
  run! mutate (FuAddIncomingTransaction (rq_invoice_id r) (rq_request_id r)) then
  run! queue_unsigned_response remote c (create_pending_transaction r) is_complete then
  send_command set_try_send remote.

(** Taking this node's fee from a request. *)
Definition take_fee (rate : Rate) (r : RequestSendFundsOp) : option RequestSendFundsOp :=
  match calc_fee rate (rq_dest_payment r) with
  | None => None
  | Some local_fee =>
      match checked_u 128 (rq_left_fees r - local_fee) with
      | None => None
      | Some new_left_fees =>
          Some (mkRequest (rq_request_id r) (rq_src_hashed_lock r) (rq_route r) (rq_dest_payment r)
                  (rq_total_dest_payment r) (rq_invoice_id r) new_left_fees)
      end
  end.

(** [request_send_funds.route.public_keys.remove(0)] *)
Definition pop_route (r : RequestSendFundsOp) : RequestSendFundsOp :=
  mkRequest (rq_request_id r) (rq_src_hashed_lock r) (mkRoute (tail (public_keys (rq_route r))))
    (rq_dest_payment r) (rq_total_dest_payment r) (rq_invoice_id r) (rq_left_fees r).

(** The next friend exists, its currency is open and its channel is usable. *)
Definition next_friend_ready (s : FunderState B) (e : Ephemeral) (next_pk : PublicKey) (c : Currency)
    : option bool :=
  match friends s !! next_pk with
  | None => Some false
  | Some next_friend =>
      match currency_configs next_friend !! c with
      | None => Some false
      | Some config => if cc_is_open config then is_friend_ready s e next_pk c else Some false
      end
  end.

Definition handle_request_send_funds (remote : PublicKey) (c : Currency) (r : RequestSendFundsOp) : Hdl unit :=
  do! s := get_state in
  do! e := get_ephemeral in
  match public_keys (rq_route r) with
  | [] =>
      do! check := hunwrap (check_request s r) in
      match check with
      | CheckFailure => reply_with_cancel remote c (rq_request_id r)
      | CheckSuccess => accept_request remote c r false
      | CheckComplete => accept_request remote c r true
      end
  | next_pk :: _ =>
      do! f := hunwrap (friends s !! remote) in
      match currency_configs f !! c with
      | Some config =>
          if cc_is_open config then
            do! ready := hunwrap (next_friend_ready s e next_pk c) in
            match take_fee (cc_rate config) r, ready with
            | Some r', true => forward_request c (pop_route r') next_pk
            | _, _ => reply_with_cancel remote c (rq_request_id r)
            end
          else reply_with_cancel remote c (rq_request_id r)
      | None => reply_with_cancel remote c (rq_request_id r)
      end
  end.

Definition handle_request_send_funds_cancel (remote : PublicKey) (c : Currency) (r : RequestSendFundsOp)
    : Hdl unit := reply_with_cancel remote c (rq_request_id r).

(** The result reported to the user for a response to its own request. *)
Definition response_result (c : Currency) (r : ResponseSendFundsOp) (pending : PendingTransaction)
    (lock : PlainLock) : option TransactionResult :=
  if rs_is_complete r then
    let! commit := prepare_commit c r pending lock in
    Some (mkTransactionResult (rs_request_id r) (RequestComplete commit))
  else Some (mkTransactionResult (rs_request_id r) RequestSuccess).

Definition handle_response_send_funds (c : Currency) (r : ResponseSendFundsOp) (pending : PendingTransaction)
    : Hdl unit :=
  do! s := get_state in
  match find_request_origin s c (rs_request_id r) with
  | None =>
      run! mutate (FuSetTransactionResponse r) then
      do! s := get_state in
      do! ot := hunwrap (open_transactions s !! rs_request_id r) in
      do! payment := hunwrap (payments s !! ot_payment_id ot) in
      do! result := hunwrap (response_result c r pending (src_plain_lock payment)) in
      push_control (OutTransactionResult result)
  | Some pk =>
      run! mutate_friend pk (PushBackPendingBackwardsOp c (BackResponse r)) then
      send_command set_try_send pk
  end.

Definition handle_cancel_send_funds (c : Currency) (r : CancelSendFundsOp) (pending : PendingTransaction)
    : Hdl unit :=
  do! s := get_state in
  match find_request_origin s c (cn_request_id r) with
  | None =>
      run! remove_transaction (cn_request_id r) then
      push_control (OutTransactionResult (mkTransactionResult (pt_request_id pending) RequestFailure))
  | Some pk =>
      run! mutate_friend pk (PushBackPendingBackwardsOp c (BackCancel r)) then
      send_command set_try_send pk
  end.

(** The first collected transaction of a payment proves it. *)
Definition collect_success (c : Currency) (r : CollectSendFundsOp) (pending : PendingTransaction)
    (opt_response : option ResponseSendFundsOp) (num_transactions : Z)
    : Hdl (option PaymentStage * option PaymentStatus) :=
  do! response := hunwrap opt_response in
  do! receipt := hunwrap (prepare_receipt c r response pending) in
  do! ack_uid := rand_gen 16 in
  do! k := hunwrap (decrease_transactions num_transactions) in
  hret (Some (StageSuccess k receipt ack_uid), Some (PaymentSuccess receipt ack_uid)).

(** The new stage of a payment when one of its transactions is collected. *)
Definition stage_after_collect (c : Currency) (r : CollectSendFundsOp) (pending : PendingTransaction)
    (opt_response : option ResponseSendFundsOp) (s : PaymentStage)
    : Hdl (option PaymentStage * option PaymentStatus) :=
  match s with
  | StageNewTransactions n => collect_success c r pending opt_response (nt_num_transactions n)
  | StageInProgress num_transactions =>
      if negb (0 <? num_transactions) then hpanic
      else collect_success c r pending opt_response num_transactions
  | StageSuccess num_transactions receipt ack_uid =>
      do! k := hunwrap (decrease_transactions num_transactions) in
      hret (Some (StageSuccess k receipt ack_uid), Some (PaymentSuccess receipt ack_uid))
  | StageCanceled _ => hpanic
  | StageAfterSuccessAck num_transactions =>
      do! k := hunwrap (decrease_transactions num_transactions) in
      hret (if 0 <? k then Some (StageAfterSuccessAck k) else None, None)
  end.

Definition handle_collect_send_funds (c : Currency) (r : CollectSendFundsOp) (pending : PendingTransaction)
    : Hdl unit :=
  do! s := get_state in
  match find_request_origin s c (cl_request_id r) with
  | None =>
      do! ot := hunwrap (open_transactions s !! cl_request_id r) in
      do! payment := hunwrap (payments s !! ot_payment_id ot) in
      do! res := stage_after_collect c r pending (ot_opt_response ot) (stage payment) in
      run! push_payment_status (ot_payment_id ot) res.2 then
      run! mutate (payment_mutation (ot_payment_id ot) (src_plain_lock payment) res.1) then
      mutate (FuRemoveTransaction (cl_request_id r))
  | Some pk =>
      run! mutate_friend pk (PushBackPendingBackwardsOp c (BackCollect r)) then
      send_command set_try_send pk
  end.

Definition handle_incoming_message (remote : PublicKey) (c : Currency) (m : IncomingMessage) : Hdl unit :=
  match m with
  | IncomingRequest r => handle_request_send_funds remote c r
  | IncomingRequestCancel r => handle_request_send_funds_cancel remote c r
  | IncomingResponse pending r => handle_response_send_funds c r pending
  | IncomingCancel pending r => handle_cancel_send_funds c r pending
  | IncomingCollect pending r => handle_collect_send_funds c r pending
  end.

Definition handle_move_token_output (remote : PublicKey) (c : Currency) (ms : list IncomingMessage) : Hdl unit :=
  hfor ms (handle_incoming_message remote c).

Definition handle_move_token_error (remote : PublicKey) : Hdl unit :=
  do! s := get_state in
  do! f := hunwrap (friends s !! remote) in
  match channel_status f with
  | Inconsistent _ => hpanic
  | Consistent cc =>
      let opt_last := tc_get_last_incoming_move_token_hashed (token_channel cc) in
      do! terms := gen_reset_terms (token_channel cc) in
      run! cancel_local_pending_transactions remote then
      run! cancel_pending_requests remote ChooseAll then
      run! mutate_friend remote (SetInconsistent (mkChannelInconsistent opt_last terms None)) then
      send_command set_try_send remote
  end.

(** The remote side has received our last relays: the transition is over. *)
Definition finish_relays_transition (remote : PublicKey) : Hdl unit :=
  do! s := get_state in
  do! f := hunwrap (friends s !! remote) in
  match sent_local_relays f with
  | NeverSent | LastSent _ => hret tt
  | Transition last_address _ =>
      run! mutate_friend remote (SetSentLocalRelays (LastSent last_address)) then
      do! s := get_state in
      do! f := hunwrap (friends s !! remote) in
      push_channeler (ConfUpdateFriend (mkChannelerUpdateFriend remote (remote_relays f)
                                          (map relay_of_named last_address)))
  end.

Definition handle_move_token_success (remote : PublicKey) (out : ReceiveMoveTokenOutput B) (token_wanted : bool)
    : Hdl unit :=
  let want := if token_wanted then send_command set_remote_wants_token remote else hret tt in
  match out with
  | Duplicate => want
  | RetransmitOutgoing _ => send_command set_resend_outgoing remote
  | Received r =>
      run! send_command set_try_send remote then
      run! update_remote_relays remote (mtr_opt_local_relays r) then
      run! hfor (mtr_mutations r) (fun m => mutate_friend remote (FmTcMutation m)) then
      run! finish_relays_transition remote then
      run! hfor (mtr_currencies r) (fun rc =>
             handle_move_token_output remote (mtrc_currency rc) (mtrc_incoming_messages rc)) then
      want
  end.
End AnyError.

Notation HdlF := (Hdl B HandleFriendError).

(** The debts allowed to the friend, by currency. *)
Definition remote_max_debts (f : FriendState B) : gmap Currency Z := cc_remote_max_debt <$> currency_configs f.

Definition handle_move_token_request (remote : PublicKey) (req : MoveTokenRequest B) : HdlF unit :=
  do! s := get_state in
  do! f := hok_or (friends s !! remote) HfFriendDoesNotExist in
  match channel_status f with
  | Inconsistent ci => try_reset_channel remote (local_reset_terms ci) req
  | Consistent cc =>
      match simulate_receive_move_token (token_channel cc) (mtr_move_token req) (remote_max_debts f) with
      | Ok out => handle_move_token_success remote out (mtr_token_wanted req)
      | Err _ => handle_move_token_error remote
      | Panic => hpanic
      end
  end.

Definition handle_inconsistency_error (remote : PublicKey) (remote_terms : ResetTerms) : HdlF unit :=
  do! s := get_state in
  do! f := hok_or (friends s !! remote) HfFriendDoesNotExist in
  do! res :=
    match channel_status f with
    | Consistent cc =>
        match get_incoming (token_channel cc) with
        | Some _ => herr HfInconsistencyWhenTokenOwned
        | None =>
            do! terms := gen_reset_terms (token_channel cc) in
            hret (true, terms, tc_get_last_incoming_move_token_hashed (token_channel cc))
        end
    | Inconsistent ci => hret (false, local_reset_terms ci, opt_last_incoming_move_token ci)
    end in
  let '(channel_was_consistent, terms, opt_last) := res in
  run! (if channel_was_consistent : bool then cancel_pending_requests remote ChooseAll else hret tt) then
  run! mutate_friend remote (SetInconsistent (mkChannelInconsistent opt_last terms (Some remote_terms))) then
  if channel_was_consistent then send_command set_try_send remote else hret tt.

Definition handle_friend_message (remote : PublicKey) (m : FriendMessage B) : HdlF unit :=
  do! s := get_state in
  run! hok_or (friends s !! remote) HfFriendDoesNotExist then
  match m with
  | MsgMoveTokenRequest req => handle_move_token_request remote req
  | MsgInconsistencyError terms => handle_inconsistency_error remote terms
  end.
End HandleFriend.

(** ** Relations preserved by these handlers *)

Class BuyerInv `{CryptoOps} `{RngOps} {B : Type} `{CanonicalSerialize B} (R : Ctx B -> Ctx B -> Prop) : Prop := {
  bu_transaction :: TransactionInv R;
  bu_collect E c r p : preserves R (handle_collect_send_funds (E := E) c r p)
}.
#[export] Hint Resolve bu_collect : handler.

Lemma add_missing_configs_preserves `{CryptoOps} `{RngOps} {B : Type} `{CanonicalSerialize B} {E : Type}
    (R : Ctx B -> Ctx B -> Prop) `{!SenderInv R} pk l : preserves R (add_missing_configs (B := B) (E := E) pk l).
Proof. unfold add_missing_configs. preserves. Qed.
#[export] Hint Resolve add_missing_configs_preserves : handler.

Section Preserved.
Context `{CryptoOps} `{RngOps} {B : Type} `{CanonicalSerialize B} `{EqDecision B} {E : Type}.
Context (R : Ctx B -> Ctx B -> Prop) `{!BuyerInv R}.

Lemma gen_reset_terms_preserves (tc : TokenChannel B) : preserves R (gen_reset_terms (E := E) tc).
Proof. unfold gen_reset_terms. preserves. Qed.
Lemma update_remote_relays_preserves pk r : preserves R (update_remote_relays (B := B) (E := E) pk r).
Proof. unfold update_remote_relays. preserves. Qed.
Hint Resolve gen_reset_terms_preserves update_remote_relays_preserves : handler.

Lemma try_reset_channel_preserves pk t (req : MoveTokenRequest B) :
  preserves R (try_reset_channel (E := E) pk t req).
Proof. unfold try_reset_channel. preserves. Qed.

Lemma handle_request_preserves pk c r : preserves R (handle_request_send_funds (B := B) (E := E) pk c r).
Proof. unfold handle_request_send_funds, accept_request, forward_request. preserves. Qed.
Lemma handle_response_preserves c r p : preserves R (handle_response_send_funds (B := B) (E := E) c r p).
Proof. unfold handle_response_send_funds. preserves. Qed.
Lemma handle_cancel_preserves c r p : preserves R (handle_cancel_send_funds (B := B) (E := E) c r p).
Proof. unfold handle_cancel_send_funds. preserves. Qed.
Lemma stage_after_collect_preserves c r p o st : preserves R (stage_after_collect (B := B) (E := E) c r p o st).
Proof. unfold stage_after_collect, collect_success. preserves. Qed.
Hint Resolve stage_after_collect_preserves : handler.
Hint Resolve handle_request_preserves handle_response_preserves handle_cancel_preserves : handler.

Lemma handle_incoming_message_preserves pk c m : preserves R (handle_incoming_message (B := B) (E := E) pk c m).
Proof. unfold handle_incoming_message, handle_request_send_funds_cancel. preserves. Qed.
Hint Resolve handle_incoming_message_preserves : handler.

Lemma handle_move_token_error_preserves pk : preserves R (handle_move_token_error (B := B) (E := E) pk).
Proof. unfold handle_move_token_error. preserves. Qed.
Lemma finish_relays_transition_preserves pk : preserves R (finish_relays_transition (B := B) (E := E) pk).
Proof. unfold finish_relays_transition. preserves. Qed.
Hint Resolve finish_relays_transition_preserves : handler.
Lemma handle_move_token_success_preserves pk out w :
  preserves R (handle_move_token_success (B := B) (E := E) pk out w).
Proof. unfold handle_move_token_success, handle_move_token_output. preserves. Qed.
End Preserved.

#[export] Hint Resolve gen_reset_terms_preserves try_reset_channel_preserves
  handle_move_token_error_preserves handle_move_token_success_preserves : handler.

Section PreservedMessages.
Context `{CryptoOps} `{RngOps} {B : Type} `{CanonicalSerialize B} `{EqDecision B}.
Context (R : Ctx B -> Ctx B -> Prop) `{!BuyerInv R}.

Lemma handle_move_token_request_preserves pk (req : MoveTokenRequest B) :
  preserves R (handle_move_token_request pk req).
Proof. unfold handle_move_token_request. preserves. Qed.
Lemma handle_inconsistency_error_preserves pk t : preserves R (handle_inconsistency_error (B := B) pk t).
Proof. unfold handle_inconsistency_error. preserves. Qed.
Hint Resolve handle_move_token_request_preserves handle_inconsistency_error_preserves : handler.
Lemma handle_friend_message_preserves pk (m : FriendMessage B) : preserves R (handle_friend_message pk m).
Proof. unfold handle_friend_message. preserves. Qed.
End PreservedMessages.

#[export] Hint Resolve handle_friend_message_preserves : handler.

#[global] Instance extends_buyer `{CryptoOps} `{RngOps} {B : Type} `{CanonicalSerialize B} :
  BuyerInv (@extends _ _ B _).
Proof.
  split; [apply _|]. intros E c r p. unfold handle_collect_send_funds, stage_after_collect, collect_success. preserves.
  by apply mutate_extends.
Qed.
