(* ===== verification/Sender.v ===== *)
(** * Creating the messages to friends ([funder/src/handler/sender.rs])

    For every friend with send commands: a local reset, a retransmission, or a
    new move token filled with as many pending operations as allowed. *)

From S2P Require Import Prelude Arith Bytes Messages Canonical MutualCredit TokenChannel Friend FunderState Report.
From S2P Require Import Handler Canceler HandleFriend.

Local Open Scope Z_scope.

(** Operations collected for one currency, with the ledger they lead to. *)
Record PendingCurrency := mkPendingCurrency {
  pc_outgoing_mc : MutualCredit;
  pc_operations : list FriendTcOp
}.

Record PendingMoveToken (B : Type) := mkPendingMoveToken {
  pm_friend_public_key : PublicKey;
  pm_pending_currencies : gmap Currency PendingCurrency;
  pm_opt_local_relays : option (list (RelayAddress B));
  pm_opt_active_currencies : option (list Currency);
  pm_token_wanted : bool;
  pm_max_operations_in_batch : nat;
  pm_may_send_empty : bool
}.
Arguments mkPendingMoveToken {B}. Arguments pm_friend_public_key {B}. Arguments pm_pending_currencies {B}.
Arguments pm_opt_local_relays {B}. Arguments pm_opt_active_currencies {B}. Arguments pm_token_wanted {B}.
Arguments pm_max_operations_in_batch {B}. Arguments pm_may_send_empty {B}.

(** The sender's own state: the move tokens under construction and the
    messages created so far. *)
Record SenderState (B : Type) := mkSenderState {
  ss_pending_move_tokens : gmap PublicKey (PendingMoveToken B);
  ss_outgoing_messages : list (PublicKey * FriendMessage B)
}.
Arguments mkSenderState {B}. Arguments ss_pending_move_tokens {B}. Arguments ss_outgoing_messages {B}.

Definition backwards_op_to_friend_tc_op (op : BackwardsOp) : FriendTcOp :=
  match op with
  | BackResponse r => ResponseSendFunds r
  | BackCancel r => CancelSendFunds r
  | BackCollect r => CollectSendFunds r
  end.

Section Pending.
Context {B : Type}.
Implicit Types p : PendingMoveToken B.

Definition pending_new (pk : PublicKey) (max_operations : nat) (may_send_empty : bool) : PendingMoveToken B :=
  mkPendingMoveToken pk ∅ None None false max_operations may_send_empty.
Definition pm_set_currencies p (m : gmap Currency PendingCurrency) : PendingMoveToken B :=
  mkPendingMoveToken (pm_friend_public_key p) m (pm_opt_local_relays p) (pm_opt_active_currencies p)
    (pm_token_wanted p) (pm_max_operations_in_batch p) (pm_may_send_empty p).
Definition pm_set_local_relays p (r : list (RelayAddress B)) : PendingMoveToken B :=
  mkPendingMoveToken (pm_friend_public_key p) (pm_pending_currencies p) (Some r) (pm_opt_active_currencies p)
    (pm_token_wanted p) (pm_max_operations_in_batch p) (pm_may_send_empty p).
Definition pm_set_active_currencies p (cs : list Currency) : PendingMoveToken B :=
  mkPendingMoveToken (pm_friend_public_key p) (pm_pending_currencies p) (pm_opt_local_relays p) (Some cs)
    (pm_token_wanted p) (pm_max_operations_in_batch p) (pm_may_send_empty p).
Definition pm_set_token_wanted p : PendingMoveToken B :=
  mkPendingMoveToken (pm_friend_public_key p) (pm_pending_currencies p) (pm_opt_local_relays p)
    (pm_opt_active_currencies p) true (pm_max_operations_in_batch p) (pm_may_send_empty p).

Definition num_operations (m : gmap Currency PendingCurrency) : nat :=
  sum_list (map (fun e => length (pc_operations e.2)) (map_to_list m)).
End Pending.

Section Sender.
Context `{CryptoOps} `{RngOps} {B : Type} `{CanonicalSerialize B} `{EqDecision B}.
Context (local_pk : PublicKey) `{!SignerOps local_pk} {E : Type}.
Notation Hdl := (Hdl B E).
Implicit Types p : PendingMoveToken B.

(** The token channel of a friend whose channel has to be consistent. *)
Definition consistent_channel (pk : PublicKey) : Hdl (ChannelConsistent B) :=
  do! s := get_state in
  do! f := hunwrap (friends s !! pk) in
  match channel_status f with
  | Consistent cc => hret cc
  | Inconsistent _ => hpanic
  end.

(** [PendingMoveToken::queue_operation]; [false] is [MaxOperationsReached]. A
    request that already exists is only logged, and the operation is added to
    the batch all the same. *)
Definition pending_queue_operation p (c : Currency) (op : FriendTcOp) : Hdl (PendingMoveToken B * bool) :=
  if (pm_max_operations_in_batch p <=? num_operations (pm_pending_currencies p))%nat then hret (p, false)
  else
    do! cc := consistent_channel (pm_friend_public_key p) in
    do! tib := hunwrap (get_incoming (token_channel cc)) in
    do! outgoing_mc := hunwrap (create_outgoing_mc tib c) in
    let pc := default (mkPendingCurrency outgoing_mc []) (pm_pending_currencies p !! c) in
    do! mc := match queue_operation (pc_outgoing_mc pc) op with
              | Ok (mc, _) => hret mc
              | Err QRequestAlreadyExists => hret (pc_outgoing_mc pc)
              | _ => hpanic
              end in
    hret (pm_set_currencies p
            (<[c := mkPendingCurrency mc (pc_operations pc ++ [op])]> (pm_pending_currencies p)), true).

(** [queue_operation]: a full batch asks for the token back. *)
Definition sender_queue_operation p (c : Currency) (op : FriendTcOp) : Hdl (PendingMoveToken B * bool) :=
  do! res := pending_queue_operation p c op in
  hret (if snd res : bool then res else (pm_set_token_wanted (fst res), false)).

(** [while let Some(..) = queue.pop_front() { queue_operation(..)?; mutate(pop) }] *)
Fixpoint drain {A} (to_op : A -> FriendTcOp) (pop : FriendMutation B) (pk : PublicKey)
    (queue : list (Currency * A)) p : Hdl (PendingMoveToken B * bool) :=
  match queue with
  | [] => hret (p, true)
  | (c, x) :: rest =>
      do! res := sender_queue_operation p c (to_op x) in
      if snd res : bool then run! mutate_friend pk pop then drain to_op pop pk rest (fst res)
      else hret res
  end.

Definition transmit_outgoing (pk : PublicKey) (token_wanted : bool) (st : SenderState B) : Hdl (SenderState B) :=
  do! cc := consistent_channel pk in
  do! tob := hunwrap (get_outgoing (token_channel cc)) in
  hret (mkSenderState (ss_pending_move_tokens st)
          (ss_outgoing_messages st ++
             [(pk, MsgMoveTokenRequest (mkMoveTokenRequest (create_outgoing_move_token tob) token_wanted))])).

(** The relays announced when the remote side may have lost ours: all the
    relays it may know become the old relays. *)
Definition relays_after_reset (rs : list (NamedRelayAddress B)) (sent : SentLocalRelays B) : SentLocalRelays B :=
  match sent with
  | NeverSent => LastSent rs
  | Transition last_sent before_last_sent => Transition rs (remove_dups (last_sent ++ before_last_sent))
  | LastSent last_sent => Transition rs last_sent
  end.

Definition apply_local_reset (pk : PublicKey) (ci : ChannelInconsistent) : Hdl unit :=
  do! terms := hunwrap (opt_remote_reset_terms ci) in
  do! s := get_state in
  do! f := hunwrap (friends s !! pk) in
  run! mutate_friend pk (SetSentLocalRelays (relays_after_reset (relays s) (sent_local_relays f))) then
  do! balances := hunwrap (neg_reset_balances (rt_balance_for_reset terms)) in
  let token_info :=
    reset_token_info (fu_local_public_key s) pk balances (rt_inconsistency_counter terms) in
  do! rand_nonce := rand_gen 16 in
  let u_reset_move_token :=
    create_unsigned_move_token [] (Some (map relay_of_named (relays s))) None token_info
      (rt_reset_token terms) rand_nonce in
  let reset_move_token := sign_move_token local_pk u_reset_move_token in
  run! mutate_friend pk
         (SetConsistent (new_from_local_reset reset_move_token token_info (opt_last_incoming_move_token ci))) then
  add_missing_configs pk (rt_balance_for_reset terms).

(** Is anything waiting to be sent to the friend? *)
Definition estimate_should_send (s : FunderState B) (pk : PublicKey) : option bool :=
  let! f := friends s !! pk in
  if match sent_local_relays f with
     | NeverSent => true
     | Transition rs _ | LastSent rs => negb (bool_decide (rs = relays s))
     end
  then Some true
  else
    Some match channel_status f with
         | Consistent cc =>
             negb (bool_decide (dom (currency_configs f) = ac_local (active_currencies (token_channel cc))))
             || negb (match pending_backwards_ops cc with [] => true | _ => false end)
             || negb (match pending_requests cc with [] => true | _ => false end)
             || negb (match pending_user_requests cc with [] => true | _ => false end)
         | Inconsistent _ => false
         end.

(** The new record of sent relays, if our relays have to be announced. *)
Definition new_sent_relays (resend : bool) (rs : list (NamedRelayAddress B)) (sent : SentLocalRelays B)
    : option (SentLocalRelays B) :=
  if resend then Some (relays_after_reset rs sent)
  else match sent with
       | NeverSent => Some (LastSent rs)
       | Transition last_sent _ | LastSent last_sent =>
           if decide (rs = last_sent) then None else Some (Transition rs last_sent)
       end.

Definition collect_local_relays (pk : PublicKey) (resend : bool) p : Hdl (PendingMoveToken B) :=
  do! s := get_state in
  do! f := hunwrap (friends s !! pk) in
  match new_sent_relays resend (relays s) (sent_local_relays f) with
  | None => hret p
  | Some new_sent =>
      let p' := pm_set_local_relays p (map relay_of_named (relays s)) in
      run! mutate_friend pk (SetSentLocalRelays new_sent) then
      do! s := get_state in
      do! f := hunwrap (friends s !! pk) in
      run! push_channeler (ConfUpdateFriend (mkChannelerUpdateFriend pk (remote_relays f)
                                               (sent_relays_to_vec (sent_local_relays f)))) then
      hret p'
  end.

Definition collect_active_currencies (pk : PublicKey) p : Hdl (PendingMoveToken B) :=
  do! s := get_state in
  do! f := hunwrap (friends s !! pk) in
  do! cc := consistent_channel pk in
  let active := active_currencies (token_channel cc) in
  let wanted := dom (currency_configs f) in
  if decide (wanted = ac_local active) then hret p
  else if decide (calc_active active ⊆ wanted) then hret (pm_set_active_currencies p (elements wanted))
  else hpanic.

Definition collect_outgoing_move_token (pk : PublicKey) (resend : bool) p : Hdl (PendingMoveToken B) :=
  do! p := collect_local_relays pk resend p in
  do! p := collect_active_currencies pk p in
  do! cc := consistent_channel pk in
  do! res := drain backwards_op_to_friend_tc_op PopFrontPendingBackwardsOp pk (pending_backwards_ops cc) p in
  if negb (snd res) then hret (fst res)
  else
    do! cc := consistent_channel pk in
    do! res := drain RequestSendFunds PopFrontPendingRequest pk (pending_requests cc) (fst res) in
    if negb (snd res) then hret (fst res)
    else
      do! cc := consistent_channel pk in
      do! res := drain RequestSendFunds PopFrontPendingUserRequest pk (pending_user_requests cc) (fst res) in
      hret (fst res).

Definition send_friend_iter1 (pk : PublicKey) (cmds : FriendSendCommands) (max_operations : nat)
    (st : SenderState B) : Hdl (SenderState B) :=
  if negb (try_send cmds || resend_relays cmds || resend_outgoing cmds || remote_wants_token cmds
           || local_reset cmds) then hpanic
  else
    do! s := get_state in
    do! f := hunwrap (friends s !! pk) in
    if local_reset cmds then
      match channel_status f with
      | Inconsistent ci =>
          run! apply_local_reset pk ci then
          transmit_outgoing pk true st
      | Consistent _ => hpanic
      end
    else
      match channel_status f with
      | Inconsistent ci =>
          hret (if resend_outgoing cmds || try_send cmds then
                  mkSenderState (ss_pending_move_tokens st)
                    (ss_outgoing_messages st ++ [(pk, MsgInconsistencyError (local_reset_terms ci))])
                else st)
      | Consistent cc =>
          match get_outgoing (token_channel cc) with
          | Some tob =>
              do! is_pending := hunwrap (estimate_should_send s pk) in
              if is_pending || resend_outgoing cmds then
                let has_relays := match mt_opt_local_relays (move_token_out (tob_outgoing tob)) with
                                  | Some _ => true | None => false end in
                transmit_outgoing pk (is_pending || has_relays) st
              else hret st
          | None =>
              let p := pending_new pk max_operations (resend_outgoing cmds || remote_wants_token cmds) in
              do! p := collect_outgoing_move_token pk (resend_relays cmds) p in
              hret (mkSenderState (<[pk := p]> (ss_pending_move_tokens st)) (ss_outgoing_messages st))
          end
      end.

Definition append_cancels_to_move_token (pk : PublicKey) p : Hdl (PendingMoveToken B) :=
  do! cc := consistent_channel pk in
  do! res := drain backwards_op_to_friend_tc_op PopFrontPendingBackwardsOp pk (pending_backwards_ops cc) p in
  hret (fst res).

Definition send_move_token (pk : PublicKey) p (st : SenderState B) : Hdl (SenderState B) :=
  if bool_decide (pm_pending_currencies p = ∅)
     && match pm_opt_active_currencies p with None => true | _ => false end
     && match pm_opt_local_relays p with None => true | _ => false end
     && negb (pm_may_send_empty p)
  then hret st
  else
    let token_wanted := pm_token_wanted p || match pm_opt_local_relays p with Some _ => true | None => false end in
    do! rand_nonce := rand_gen 16 in
    do! cc := consistent_channel pk in
    do! tib := hunwrap (get_incoming (token_channel cc)) in
    let currencies_operations :=
      map (fun e => mkCurrencyOperations e.1 (pc_operations e.2)) (map_to_list (pm_pending_currencies p)) in
    do! out := match simulate_send_move_token tib currencies_operations (pm_opt_local_relays p)
                       (pm_opt_active_currencies p) rand_nonce with
               | Ok out => hret out
               | _ => hpanic
               end in
    run! hfor (smo_mutations out) (fun m => mutate_friend pk (FmTcMutation m)) then
    let move_token := sign_move_token local_pk (smo_unsigned_move_token out) in
    run! mutate_friend pk (FmTcMutation (TcSetDirection (SetOutgoing move_token (smo_token_info out)))) then
    transmit_outgoing pk token_wanted st.

(** [for (pk, ..) in .. { .. }] over the sender's state. *)
Fixpoint sfor {A} (l : list A) (f : A -> SenderState B -> Hdl (SenderState B)) (st : SenderState B)
    : Hdl (SenderState B) :=
  match l with
  | [] => hret st
  | x :: rest => do! st' := f x st in sfor rest f st'
  end.

(** [init_cancel_pending_move_token] *)
Definition init_cancel_pending_move_token (e : Ephemeral) (max_operations : nat) (cancel_keys : gset PublicKey)
    (m : gmap PublicKey (PendingMoveToken B)) : gmap PublicKey (PendingMoveToken B) :=
  fold_left (fun acc pk =>
    if negb (is_online (liveness e) pk) || bool_decide (is_Some (m !! pk)) then acc
    else <[pk := pending_new pk max_operations false]> acc) (elements cancel_keys) m.

Definition create_friend_messages (max_operations : nat) : Hdl (list (PublicKey * FriendMessage B)) :=
  do! e := get_ephemeral in
  do! commands := hget cx_send in
  do! st := sfor (map_to_list commands) (fun entry st =>
    if is_online (liveness e) entry.1 then send_friend_iter1 entry.1 entry.2 max_operations st else hret st)
    (mkSenderState ∅ []) in
  let st := mkSenderState (init_cancel_pending_move_token e max_operations ∅ (ss_pending_move_tokens st))
              (ss_outgoing_messages st) in
  do! st := sfor (map_to_list (ss_pending_move_tokens st)) (fun entry st =>
    if is_online (liveness e) entry.1 then
      do! p := append_cancels_to_move_token entry.1 entry.2 in
      hret (mkSenderState (<[entry.1 := p]> (ss_pending_move_tokens st)) (ss_outgoing_messages st))
    else hpanic) st in
  do! st := sfor (map_to_list (ss_pending_move_tokens st)) (fun entry st =>
    if is_online (liveness e) entry.1 then send_move_token entry.1 entry.2 st else hpanic) st in
  hret (ss_outgoing_messages st).

(** [MutableFunderState::sign_responses]: the queue is emptied from its end. *)
Definition sign_response (r : SemiResponse) : Hdl unit :=
  do! s := get_state in
  do! oi := hunwrap (open_invoices s !! pt_invoice_id (sr_pending_transaction r)) in
  do! rand_nonce := rand_gen 16 in
  let response := create_response_send_funds local_pk (sr_currency r) (sr_pending_transaction r)
                    (hash_lock (oi_dest_plain_lock oi)) (sr_is_complete r) rand_nonce in
  mutate_friend (sr_friend_public_key r) (PushBackPendingBackwardsOp (sr_currency r) (BackResponse response)).

Definition sign_responses : Hdl unit :=
  do! responses := take_unsigned_responses in
  hfor (rev responses) sign_response.

(** ** Relations preserved by the sender *)

Context (R : Ctx B -> Ctx B -> Prop) `{!SenderInv R}.

Lemma consistent_channel_preserves pk : preserves R (consistent_channel pk).
Proof. unfold consistent_channel. preserves. Qed.
Hint Resolve consistent_channel_preserves : handler.

Lemma sender_queue_operation_preserves p c op : preserves R (sender_queue_operation p c op).
Proof. unfold sender_queue_operation, pending_queue_operation. preserves. Qed.
Hint Resolve sender_queue_operation_preserves : handler.

Lemma drain_preserves {A} (to_op : A -> FriendTcOp) pop pk q p : preserves R (drain to_op pop pk q p).
Proof. revert p; induction q as [|[c x] q IH]; intros p; simpl; preserves. Qed.
Hint Resolve drain_preserves : handler.

Lemma transmit_outgoing_preserves pk w st : preserves R (transmit_outgoing pk w st).
Proof. unfold transmit_outgoing. preserves. Qed.
Lemma apply_local_reset_preserves pk ci : preserves R (apply_local_reset pk ci).
Proof. unfold apply_local_reset. preserves. Qed.
Lemma collect_outgoing_preserves pk resend p : preserves R (collect_outgoing_move_token pk resend p).
Proof. unfold collect_outgoing_move_token, collect_local_relays, collect_active_currencies. preserves. Qed.
Hint Resolve transmit_outgoing_preserves apply_local_reset_preserves collect_outgoing_preserves : handler.

Lemma send_friend_iter1_preserves pk cmds k st : preserves R (send_friend_iter1 pk cmds k st).
Proof. unfold send_friend_iter1. preserves. Qed.
Lemma append_cancels_preserves pk p : preserves R (append_cancels_to_move_token pk p).
Proof. unfold append_cancels_to_move_token. preserves. Qed.
Lemma send_move_token_preserves pk p st : preserves R (send_move_token pk p st).
Proof. unfold send_move_token. preserves. Qed.
Hint Resolve send_friend_iter1_preserves append_cancels_preserves send_move_token_preserves : handler.

Lemma sfor_preserves {A} (l : list A) f st :
  (forall x st, preserves R (f x st)) -> preserves R (sfor l f st).
Proof. intros Hf. revert st; induction l as [|x l IH]; intros st; simpl; preserves. Qed.

Lemma create_friend_messages_preserves k : preserves R (create_friend_messages k).
Proof.
  unfold create_friend_messages. preserves; apply sfor_preserves; intros ? ?; preserves.
Qed.

Lemma sign_response_preserves r : preserves R (sign_response r).
Proof. unfold sign_response. preserves. Qed.
Hint Resolve sign_response_preserves : handler.
Lemma sign_responses_preserves : preserves R sign_responses.
Proof.
  unfold sign_responses. preserves.
Qed.
End Sender.

#[export] Hint Resolve create_friend_messages_preserves sign_responses_preserves : handler.
