(* ===== verification/HandleControl.v ===== *)
(** * Commands from the user ([funder/src/handler/handle_control.rs], [handle_liveness.rs], [handle_init.rs])

    The configuration of friends, currencies and relays, the buyer's payments
    and the seller's invoices, and the notifications about online friends. *)

From S2P Require Import Prelude Arith Bytes Messages Canonical MutualCredit TokenChannel Friend FunderState Report.
From S2P Require Import Handler Canceler HandleFriend.

Local Open Scope Z_scope.

(** ** Commands *)

Record SetFriendCurrencyMaxDebt := mkSetMaxDebt {
  smd_friend_public_key : PublicKey; smd_currency : Currency; smd_remote_max_debt : Z }.
Record ResetFriendChannel := mkResetFriendChannel {
  rfc_friend_public_key : PublicKey; rfc_reset_token : Signature }.
Record SetFriendStatus := mkSetFriendStatus {
  sfs_friend_public_key : PublicKey; sfs_status : FriendStatus }.
Record SetFriendCurrencyRequestsStatus := mkSetRequestsStatus {
  srs_friend_public_key : PublicKey; srs_currency : Currency; srs_status : RequestsStatus }.
Record SetFriendRelays (B : Type) := mkSetFriendRelays {
  sfr_friend_public_key : PublicKey; sfr_relays : list (RelayAddress B) }.
Arguments mkSetFriendRelays {B}. Arguments sfr_friend_public_key {B}. Arguments sfr_relays {B}.
Record SetFriendName := mkSetFriendName { sfn_friend_public_key : PublicKey; sfn_name : string }.
Record SetFriendCurrencyRate := mkSetRate {
  sfc_friend_public_key : PublicKey; sfc_currency : Currency; sfc_rate : Rate }.
Record RemoveFriendCurrency := mkRemoveFriendCurrency {
  rfcu_friend_public_key : PublicKey; rfcu_currency : Currency }.
Record CreatePayment := mkCreatePayment {
  cp_payment_id : PaymentId; cp_invoice_id : InvoiceId; cp_currency : Currency;
  cp_total_dest_payment : Z; cp_dest_public_key : PublicKey }.
Record CreateTransaction := mkCreateTransaction {
  ct_payment_id : PaymentId; ct_request_id : Uid; ct_route : FriendsRoute;
  ct_dest_payment : Z; ct_fees : Z }.
Record AckClosePayment := mkAckClosePayment { acp_payment_id : PaymentId; acp_ack_uid : Uid }.
Record AddInvoice := mkAddInvoice {
  ai_invoice_id : InvoiceId; ai_currency : Currency; ai_total_dest_payment : Z }.

Inductive FunderControl (B : Type) :=
| CtlAddRelay (r : NamedRelayAddress B)
| CtlRemoveRelay (pk : PublicKey)
| CtlAddFriend (a : AddFriend B)
| CtlRemoveFriend (pk : PublicKey)
| CtlSetFriendStatus (x : SetFriendStatus)
| CtlSetFriendCurrencyMaxDebt (x : SetFriendCurrencyMaxDebt)
| CtlSetFriendRelays (x : SetFriendRelays B)
| CtlSetFriendName (x : SetFriendName)
| CtlSetFriendCurrencyRate (x : SetFriendCurrencyRate)
| CtlSetFriendCurrencyRequestsStatus (x : SetFriendCurrencyRequestsStatus)
| CtlRemoveFriendCurrency (x : RemoveFriendCurrency)
| CtlResetFriendChannel (x : ResetFriendChannel)
| CtlCreatePayment (x : CreatePayment)
| CtlCreateTransaction (x : CreateTransaction)
| CtlRequestClosePayment (payment_id : PaymentId)
| CtlAckClosePayment (x : AckClosePayment)
| CtlAddInvoice (x : AddInvoice)
| CtlCancelInvoice (invoice_id : InvoiceId)
| CtlCommitInvoice (c : Commit).
Arguments CtlAddRelay {B}. Arguments CtlRemoveRelay {B}. Arguments CtlAddFriend {B}.
Arguments CtlRemoveFriend {B}. Arguments CtlSetFriendStatus {B}. Arguments CtlSetFriendCurrencyMaxDebt {B}.
Arguments CtlSetFriendRelays {B}. Arguments CtlSetFriendName {B}. Arguments CtlSetFriendCurrencyRate {B}.
Arguments CtlSetFriendCurrencyRequestsStatus {B}. Arguments CtlRemoveFriendCurrency {B}.
Arguments CtlResetFriendChannel {B}. Arguments CtlCreatePayment {B}. Arguments CtlCreateTransaction {B}.
Arguments CtlRequestClosePayment {B}. Arguments CtlAckClosePayment {B}. Arguments CtlAddInvoice {B}.
Arguments CtlCancelInvoice {B}. Arguments CtlCommitInvoice {B}.

Inductive HandleControlError :=
| HcFriendDoesNotExist | HcNotInvitedToReset | HcResetTokenMismatch | HcNotFirstInRoute
| HcPaymentDestNotLastInRoute | HcInvalidRoute | HcRequestAlreadyInProgress | HcPendingUserRequestsFull
| HcFriendNotReady | HcMaxNodeRelaysReached | HcPaymentAlreadyOpen | HcOpenPaymentNotFound
| HcNewTransactionsNotAllowed | HcPaymentDoesNotExist | HcAckStateInvalid | HcAckMismatch
| HcInvoiceAlreadyExists | HcInvoiceDoesNotExist | HcInvalidCommit | HcFriendCurrencyDoesNotExist
| HcCanNotRemoveActiveCurrency | HcCurrencyNotConfigured.

Inductive IncomingLivenessMessage := LiveOnline (pk : PublicKey) | LiveOffline (pk : PublicKey).
Inductive HandleLivenessError := HlFriendDoesNotExist | HlFriendIsDisabled | HlFriendAlreadyOnline.

Section HandleControl.
Context `{CryptoOps} `{RngOps} {B : Type} `{CanonicalSerialize B} `{EqDecision B}.
Notation HdlC := (Hdl B HandleControlError).

(** [m_state.state().friends.get(..).ok_or(FriendDoesNotExist)?] *)
Definition control_friend (pk : PublicKey) : HdlC (FriendState B) :=
  do! s := get_state in hok_or (friends s !! pk) HcFriendDoesNotExist.

(** ** Friends and currencies *)

Definition control_set_friend_currency_max_debt (x : SetFriendCurrencyMaxDebt) : HdlC unit :=
  do! f := control_friend (smd_friend_public_key x) in
  let config := default currency_config_new (currency_configs f !! smd_currency x) in
  if match currency_configs f !! smd_currency x with
     | Some c => cc_remote_max_debt c =? smd_remote_max_debt x
     | None => false
     end
  then hret tt
  else
    run! mutate_friend (smd_friend_public_key x)
           (UpdateCurrencyConfig (smd_currency x)
              (mkCurrencyConfig (cc_rate config) (smd_remote_max_debt x) (cc_is_open config))) then
    send_command set_try_send (smd_friend_public_key x).

Definition control_reset_friend_channel (x : ResetFriendChannel) : HdlC unit :=
  do! f := control_friend (rfc_friend_public_key x) in
  run! match channel_status f with
       | Consistent _ => herr HcNotInvitedToReset
       | Inconsistent ci =>
           match opt_remote_reset_terms ci with
           | None => herr HcNotInvitedToReset
           | Some terms =>
               if decide (rt_reset_token terms = rfc_reset_token x) then hret tt else herr HcResetTokenMismatch
           end
       end then
  send_command set_local_reset (rfc_friend_public_key x).

Definition enable_friend (pk : PublicKey) (friend_relays : list (RelayAddress B)) : HdlC unit :=
  do! s := get_state in
  do! f := hunwrap (friends s !! pk) in
  push_channeler (ConfUpdateFriend (mkChannelerUpdateFriend pk friend_relays
                                      (sent_relays_to_vec (sent_local_relays f)))).

Definition disable_friend (pk : PublicKey) : HdlC unit :=
  run! cancel_pending_requests pk ChooseAll then
  push_channeler (ConfRemoveFriend pk).

(** Tell the channeler about the relays, and try to send to every friend. *)
Definition announce_relays : HdlC unit :=
  do! s := get_state in
  run! push_channeler (ConfSetRelays (map relay_of_named (relays s))) then
  do! s := get_state in
  hfor (map fst (map_to_list (friends s))) (send_command set_try_send).

Definition control_add_relay (max_node_relays : nat) (r : NamedRelayAddress B) : HdlC unit :=
  do! s := get_state in
  if (max_node_relays <=? length (relays s))%nat then herr HcMaxNodeRelaysReached
  else
    run! mutate (FuAddRelay r) then
    announce_relays.

Definition control_remove_relay (pk : PublicKey) : HdlC unit :=
  run! mutate (FuRemoveRelay pk) then
  announce_relays.

Definition control_add_friend (a : AddFriend B) : HdlC unit :=
  do! s := get_state in
  if bool_decide (is_Some (friends s !! af_friend_public_key a)) then hret tt
  else mutate (FuAddFriend a).

Definition control_remove_friend (pk : PublicKey) : HdlC unit :=
  run! control_friend pk then
  run! disable_friend pk then
  run! cancel_local_pending_transactions pk then
  mutate (FuRemoveFriend pk).

Definition control_set_friend_status (x : SetFriendStatus) : HdlC unit :=
  run! control_friend (sfs_friend_public_key x) then
  run! mutate_friend (sfs_friend_public_key x) (SetStatus (sfs_status x)) then
  do! f := control_friend (sfs_friend_public_key x) in
  match sfs_status x with
  | FriendEnabled => enable_friend (sfs_friend_public_key x) (remote_relays f)
  | FriendDisabled => disable_friend (sfs_friend_public_key x)
  end.

Definition control_set_friend_currency_requests_status (x : SetFriendCurrencyRequestsStatus) : HdlC unit :=
  do! f := control_friend (srs_friend_public_key x) in
  let is_open := requests_is_open (srs_status x) in
  let config := default currency_config_new (currency_configs f !! srs_currency x) in
  if match currency_configs f !! srs_currency x with
     | Some c => Bool.eqb (cc_is_open c) is_open
     | None => false
     end
  then hret tt
  else
    run! (if is_open then hret tt
          else cancel_nonuser_pending_requests (srs_friend_public_key x) (ChooseOne (srs_currency x))) then
    run! mutate_friend (srs_friend_public_key x)
           (UpdateCurrencyConfig (srs_currency x)
              (mkCurrencyConfig (cc_rate config) (cc_remote_max_debt config) is_open)) then
    send_command set_try_send (srs_friend_public_key x).

Definition control_set_friend_relays (x : SetFriendRelays B) : HdlC unit :=
  do! f := control_friend (sfr_friend_public_key x) in
  if decide (sfr_relays x = remote_relays f) then hret tt
  else
    run! mutate_friend (sfr_friend_public_key x) (SetRemoteRelays (sfr_relays x)) then
    match fs_status f with
    | FriendEnabled =>
        push_channeler (ConfUpdateFriend (mkChannelerUpdateFriend (sfr_friend_public_key x) (sfr_relays x)
                                            (sent_relays_to_vec (sent_local_relays f))))
    | FriendDisabled => hret tt
    end.

Definition control_set_friend_name (x : SetFriendName) : HdlC unit :=
  do! f := control_friend (sfn_friend_public_key x) in
  if decide (fs_name f = sfn_name x) then hret tt
  else mutate_friend (sfn_friend_public_key x) (SetName (sfn_name x)).

Definition control_set_friend_currency_rate (x : SetFriendCurrencyRate) : HdlC unit :=
  do! f := control_friend (sfc_friend_public_key x) in
  let update (config : CurrencyConfig) :=
    mutate_friend (sfc_friend_public_key x)
      (UpdateCurrencyConfig (sfc_currency x)
         (mkCurrencyConfig (sfc_rate x) (cc_remote_max_debt config) (cc_is_open config))) in
  match currency_configs f !! sfc_currency x with
  | Some config => if decide (cc_rate config = sfc_rate x) then hret tt else update config
  | None =>
      run! send_command set_try_send (sfc_friend_public_key x) then
      update currency_config_new
  end.

Definition control_remove_friend_currency (x : RemoveFriendCurrency) : HdlC unit :=
  do! f := control_friend (rfcu_friend_public_key x) in
  if negb (bool_decide (is_Some (currency_configs f !! rfcu_currency x))) then herr HcCurrencyNotConfigured
  else if match channel_status f with
          | Consistent cc => bool_decide (rfcu_currency x ∈ calc_active (active_currencies (token_channel cc)))
          | Inconsistent _ => false
          end
  then herr HcCanNotRemoveActiveCurrency
  else
    run! mutate_friend (rfcu_friend_public_key x) (RemoveCurrencyConfig (rfcu_currency x)) then
    send_command set_try_send (rfcu_friend_public_key x).

(** ** Buyer *)

Definition control_create_payment (x : CreatePayment) : HdlC unit :=
  do! s := get_state in
  if bool_decide (is_Some (payments s !! cp_payment_id x)) then herr HcPaymentAlreadyOpen
  else
    do! lock := rand_gen 32 in
    mutate (FuUpdatePayment (cp_payment_id x)
      (mkPayment lock (StageNewTransactions (mkNewTransactions 0 (cp_invoice_id x) (cp_currency x)
                                               (cp_total_dest_payment x) (cp_dest_public_key x))))).

(** The payment, while it accepts new transactions. *)
Definition new_transactions_payment (payment_id : PaymentId) : HdlC (Payment * NewTransactions) :=
  do! s := get_state in
  do! payment := hok_or (payments s !! payment_id) HcOpenPaymentNotFound in
  match stage payment with
  | StageNewTransactions n => hret (payment, n)
  | _ => herr HcNewTransactionsNotAllowed
  end.

(** The checks on a new transaction: the friend that gets the request. *)
Definition check_create_transaction (x : CreateTransaction) (n : NewTransactions) (max_pending_user_requests : nat)
    : HdlC PublicKey :=
  do! s := get_state in
  do! e := get_ephemeral in
  let route := public_keys (ct_route x) in
  if negb (bool_decide (head route = Some (fu_local_public_key s))) then herr HcNotFirstInRoute
  else if negb (bool_decide (last route = Some (nt_dest_public_key n))) then herr HcPaymentDestNotLastInRoute
  else if negb (route_is_valid (ct_route x)) then herr HcInvalidRoute
  else
    do! friend_pk := hunwrap (route !! 1%nat) in
    do! f := hok_or (friends s !! friend_pk) HcFriendDoesNotExist in
    do! ready := hunwrap (is_friend_ready s e friend_pk (nt_currency n)) in
    if negb ready then herr HcFriendNotReady
    else
      match channel_status f with
      | Inconsistent _ => hpanic
      | Consistent cc =>
          if existsb (fun p => bool_decide (p.1 = nt_currency n)
                               && bool_decide (ct_request_id x = rq_request_id p.2)) (pending_user_requests cc)
          then herr HcRequestAlreadyInProgress
          else
            do! mc := hok_or (mutual_credits (token_channel cc) !! nt_currency n)
                        HcFriendCurrencyDoesNotExist in
            if bool_decide (is_Some (pending_local (mc_pending mc) !! ct_request_id x))
            then herr HcRequestAlreadyInProgress
            else if (max_pending_user_requests <=? length (pending_user_requests cc))%nat
            then herr HcPendingUserRequestsFull
            else hret friend_pk
      end.

Definition control_create_transaction_inner (max_pending_user_requests : nat) (x : CreateTransaction) : HdlC unit :=
  do! pn := new_transactions_payment (ct_payment_id x) in
  let '(payment, n) := pn in
  do! friend_pk := check_create_transaction x n max_pending_user_requests in
  run! mutate (FuAddTransaction (ct_request_id x) (ct_payment_id x)) then
  do! k := hunwrap (checked_u 64 (nt_num_transactions n + 1)) in
  run! mutate (FuUpdatePayment (ct_payment_id x)
         (mkPayment (src_plain_lock payment)
            (StageNewTransactions (mkNewTransactions k (nt_invoice_id n) (nt_currency n)
                                     (nt_total_dest_payment n) (nt_dest_public_key n))))) then
  let request :=
    mkRequest (ct_request_id x) (hash_lock (src_plain_lock payment))
      (mkRoute (tail (tail (public_keys (ct_route x))))) (ct_dest_payment x) (nt_total_dest_payment n)
      (nt_invoice_id n) (ct_fees x) in
  run! mutate_friend friend_pk (PushBackPendingUserRequest (nt_currency n) request) then
  send_command set_try_send friend_pk.

(** [if let Err(e) = h { .. }]: the error is replaced by a continuation. *)
Definition on_error {E F} (h : Hdl B E unit) (k : E -> Hdl B F unit) : Hdl B F unit := fun c =>
  match h c with
  | HOk _ c' => HOk tt c'
  | HErr e c' => k e c'
  | HPanic => HPanic
  end.

Definition control_create_transaction (max_pending_user_requests : nat) (x : CreateTransaction) : HdlC unit :=
  do! pn := new_transactions_payment (ct_payment_id x) in
  let '(payment, n) := pn in
  do! s := get_state in
  match open_transactions s !! ct_request_id x with
  | Some ot =>
      match ot_opt_response ot, find_local_pending_transaction s (nt_currency n) (ct_request_id x) with
      | Some response, Some pending =>
          do! result := hunwrap (response_result (nt_currency n) response pending (src_plain_lock payment)) in
          push_control (OutTransactionResult result)
      | _, _ => hret tt
      end
  | None =>
      on_error (control_create_transaction_inner max_pending_user_requests x) (fun _ =>
        push_control (OutTransactionResult (mkTransactionResult (ct_request_id x) RequestFailure)))
  end.

(** The stage after a request to close the payment, and the status to report. *)
Definition stage_after_close (s : PaymentStage) : HdlC (PaymentStage * option PaymentStatus) :=
  match s with
  | StageNewTransactions n =>
      if 0 <? nt_num_transactions n then hret (StageInProgress (nt_num_transactions n), None)
      else
        do! ack_uid := rand_gen 16 in
        hret (StageCanceled ack_uid, Some (PaymentCanceled ack_uid))
  | StageInProgress k => if negb (0 <? k) then hpanic else hret (StageInProgress k, None)
  | StageSuccess k receipt ack_uid =>
      hret (StageSuccess k receipt ack_uid, Some (PaymentSuccess receipt ack_uid))
  | StageCanceled ack_uid => hret (StageCanceled ack_uid, Some (PaymentCanceled ack_uid))
  | StageAfterSuccessAck k => hret (StageAfterSuccessAck k, Some PaymentNotFound)
  end.

Definition control_request_close_payment (payment_id : PaymentId) : HdlC unit :=
  do! s := get_state in
  match payments s !! payment_id with
  | None => push_control (OutResponseClosePayment (mkResponseClosePayment payment_id PaymentNotFound))
  | Some payment =>
      do! res := stage_after_close (stage payment) in
      run! push_payment_status payment_id res.2 then
      if decide (res.1 = stage payment) then hret tt
      else mutate (FuUpdatePayment payment_id (mkPayment (src_plain_lock payment) res.1))
  end.

Definition control_ack_close_payment (x : AckClosePayment) : HdlC unit :=
  do! s := get_state in
  do! payment := hok_or (payments s !! acp_payment_id x) HcPaymentDoesNotExist in
  match stage payment with
  | StageNewTransactions _ | StageInProgress _ | StageAfterSuccessAck _ => herr HcAckStateInvalid
  | StageSuccess k _ ack_uid =>
      if negb (bool_decide (acp_ack_uid x = ack_uid)) then herr HcAckMismatch
      else if 0 <? k then
        mutate (FuUpdatePayment (acp_payment_id x) (mkPayment (src_plain_lock payment) (StageAfterSuccessAck k)))
      else mutate (FuRemovePayment (acp_payment_id x))
  | StageCanceled ack_uid =>
      if negb (bool_decide (acp_ack_uid x = ack_uid)) then herr HcAckMismatch
      else mutate (FuRemovePayment (acp_payment_id x))
  end.

(** ** Seller *)

Definition control_add_invoice (x : AddInvoice) : HdlC unit :=
  do! s := get_state in
  if bool_decide (is_Some (open_invoices s !! ai_invoice_id x)) then herr HcInvoiceAlreadyExists
  else
    do! lock := rand_gen 32 in
    mutate (FuAddInvoice (ai_invoice_id x) (ai_currency x) (ai_total_dest_payment x) lock).

Definition control_cancel_invoice (invoice_id : InvoiceId) : HdlC unit :=
  do! s := get_state in
  do! oi := hok_or (open_invoices s !! invoice_id) HcInvoiceDoesNotExist in
  run! hfor (elements (oi_incoming_transactions oi)) (fun request_id =>
         do! s := get_state in
         do! pk := hunwrap (find_request_origin s (oi_currency oi) request_id) in
         reply_with_cancel pk (oi_currency oi) request_id) then
  mutate (FuRemoveInvoice invoice_id).

(** The collect message of one transaction of a committed invoice. *)
Definition collect_transaction (oi : OpenInvoice) (commit : Commit) (request_id : Uid) : HdlC unit :=
  do! s := get_state in
  match find_request_origin s (oi_currency oi) request_id with
  | None => hret tt
  | Some pk =>
      run! mutate_friend pk (PushBackPendingBackwardsOp (oi_currency oi)
             (BackCollect (mkCollect request_id (cm_src_plain_lock commit) (oi_dest_plain_lock oi)))) then
      send_command set_try_send pk
  end.

Definition control_commit_invoice (commit : Commit) : HdlC unit :=
  do! s := get_state in
  do! oi := hok_or (open_invoices s !! cm_invoice_id commit) HcInvoiceDoesNotExist in
  if negb (verify_commit commit (fu_local_public_key s)) then herr HcInvalidCommit
  else if negb (bool_decide (Some (hash_lock (cm_src_plain_lock commit)) = oi_opt_src_hashed_lock oi))
  then herr HcInvalidCommit
  else
    run! hfor (elements (oi_incoming_transactions oi)) (collect_transaction oi commit) then
    mutate (FuRemoveInvoice (cm_invoice_id commit)).

Definition handle_control_message (max_node_relays max_pending_user_requests : nat) (m : FunderControl B)
    : HdlC unit :=
  match m with
  | CtlSetFriendCurrencyMaxDebt x => control_set_friend_currency_max_debt x
  | CtlResetFriendChannel x => control_reset_friend_channel x
  | CtlAddRelay r => control_add_relay max_node_relays r
  | CtlRemoveRelay pk => control_remove_relay pk
  | CtlAddFriend a => control_add_friend a
  | CtlRemoveFriend pk => control_remove_friend pk
  | CtlSetFriendStatus x => control_set_friend_status x
  | CtlSetFriendCurrencyRequestsStatus x => control_set_friend_currency_requests_status x
  | CtlSetFriendRelays x => control_set_friend_relays x
  | CtlSetFriendName x => control_set_friend_name x
  | CtlSetFriendCurrencyRate x => control_set_friend_currency_rate x
  | CtlRemoveFriendCurrency x => control_remove_friend_currency x
  | CtlCreatePayment x => control_create_payment x
  | CtlCreateTransaction x => control_create_transaction max_pending_user_requests x
  | CtlRequestClosePayment payment_id => control_request_close_payment payment_id
  | CtlAckClosePayment x => control_ack_close_payment x
  | CtlAddInvoice x => control_add_invoice x
  | CtlCancelInvoice invoice_id => control_cancel_invoice invoice_id
  | CtlCommitInvoice c => control_commit_invoice c
  end.

(** ** Liveness and initialisation *)

Definition handle_liveness_message (m : IncomingLivenessMessage) : Hdl B HandleLivenessError unit :=
  match m with
  | LiveOnline pk =>
      do! s := get_state in
      do! f := hok_or (friends s !! pk) HlFriendDoesNotExist in
      run! match fs_status f with FriendEnabled => hret tt | FriendDisabled => herr HlFriendIsDisabled end then
      do! e := get_ephemeral in
      if is_online (liveness e) pk then herr HlFriendAlreadyOnline
      else
        run! send_command set_resend_outgoing pk then
        mutate_ephemeral (EphLivenessMutation (SetOnline pk))
  | LiveOffline pk =>
      run! mutate_ephemeral (EphLivenessMutation (SetOffline pk)) then
      do! s := get_state in
      if bool_decide (friends s !! pk = None) then hret tt
      else cancel_pending_requests pk ChooseAll
  end.

Definition handle_init {E} : Hdl B E unit :=
  do! s := get_state in
  run! push_channeler (ConfSetRelays (map relay_of_named (relays s))) then
  hfor (map snd (map_to_list (friends s))) (fun f =>
    match fs_status f with
    | FriendEnabled =>
        push_channeler (ConfUpdateFriend (mkChannelerUpdateFriend (fs_remote_public_key f) (remote_relays f)
                                            (sent_relays_to_vec (sent_local_relays f))))
    | FriendDisabled => hret tt
    end).

End HandleControl.

(** ** Relations preserved by these handlers *)

(** The operations that change the set of friends, transactions or payments. *)
Class ControlInv `{CryptoOps} `{RngOps} {B : Type} `{CanonicalSerialize B} (R : Ctx B -> Ctx B -> Prop) : Prop := {
  ct_buyer :: BuyerInv R;
  ct_remove_friend pk : preserves R (control_remove_friend pk);
  ct_create_payment x : preserves R (control_create_payment x);
  ct_create_transaction k x : preserves R (control_create_transaction k x);
  ct_request_close id : preserves R (control_request_close_payment id);
  ct_ack_close x : preserves R (control_ack_close_payment x)
}.
#[export] Hint Resolve ct_remove_friend ct_create_payment ct_create_transaction ct_request_close
  ct_ack_close : handler.

Section Preserved.
Context `{CryptoOps} `{RngOps} {B : Type} `{CanonicalSerialize B} `{EqDecision B}.
Context (R : Ctx B -> Ctx B -> Prop).

Lemma control_friend_preserves `{!BasicInv R} pk : preserves R (control_friend pk).
Proof. unfold control_friend. preserves. Qed.
Hint Resolve control_friend_preserves : handler.
Lemma disable_friend_preserves `{!TransactionInv R} pk : preserves R (disable_friend pk).
Proof. unfold disable_friend. preserves. Qed.
Hint Resolve disable_friend_preserves : handler.
Lemma new_transactions_payment_preserves `{!BasicInv R} id : preserves R (new_transactions_payment (B := B) id).
Proof. unfold new_transactions_payment. preserves. Qed.
Lemma stage_after_close_preserves `{!BasicInv R} s : preserves R (stage_after_close (B := B) s).
Proof. unfold stage_after_close. preserves. Qed.
Lemma check_create_transaction_preserves `{!BasicInv R} x n k : preserves R (check_create_transaction (B := B) x n k).
Proof. unfold check_create_transaction. preserves. Qed.

Lemma on_error_preserves `{!PreOrder R} {E F} (h : Hdl B E unit) (k : E -> Hdl B F unit) :
  preserves R h -> (forall e, preserves R (k e)) -> preserves R (on_error h k).
Proof.
  intros Hh Hk c. specialize (Hh c). unfold on_error. destruct (h c) as [a c'|e c'|]; [done| |done].
  specialize (Hk e c'). destruct (k e c'); try done; by etrans.
Qed.

Lemma handle_control_message_preserves `{!ControlInv R} k k' m : preserves R (handle_control_message k k' m).
Proof.
  destruct m; unfold handle_control_message,
    control_set_friend_currency_max_debt, control_reset_friend_channel, control_add_relay, control_remove_relay,
    announce_relays, control_add_friend, control_set_friend_status, enable_friend,
    control_set_friend_currency_requests_status, control_set_friend_relays, control_set_friend_name,
    control_set_friend_currency_rate, control_remove_friend_currency, control_add_invoice,
    control_cancel_invoice, control_commit_invoice, collect_transaction; preserves.
Qed.

Lemma handle_liveness_message_preserves `{!TransactionInv R} m : preserves R (handle_liveness_message m).
Proof. unfold handle_liveness_message. preserves. Qed.
Lemma handle_init_preserves `{!BasicInv R} {E} : preserves R (handle_init (E := E)).
Proof. unfold handle_init. preserves. Qed.
End Preserved.

#[export] Hint Resolve control_friend_preserves disable_friend_preserves new_transactions_payment_preserves
  stage_after_close_preserves check_create_transaction_preserves handle_liveness_message_preserves
  handle_init_preserves : handler.

(** A relation that every mutation of the state preserves. *)
Section AnyMutation.
Context `{CryptoOps} `{RngOps} {B : Type} `{CanonicalSerialize B} `{EqDecision B}.
Context (R : Ctx B -> Ctx B -> Prop) `{!BasicInv R} (Hany : forall E fm, preserves R (mutate (E := E) fm)).
Hint Resolve Hany : handler.

Lemma any_mutation_buyer : BuyerInv R.
Proof.
  split; [split; [apply _|]|]; intros.
  - unfold remove_transaction. preserves.
  - unfold handle_collect_send_funds, stage_after_collect, collect_success. preserves.
    all: unfold push_payment_status; preserves.
Qed.

Lemma any_mutation_control : ControlInv R.
Proof.
  pose proof any_mutation_buyer. split; [done|..]; intros.
  - unfold control_remove_friend. preserves.
  - unfold control_create_payment. preserves.
  - unfold control_create_transaction. preserves. apply on_error_preserves; [apply _| |intros; preserves].
    unfold control_create_transaction_inner. preserves.
  - unfold control_request_close_payment. preserves.
  - unfold control_ack_close_payment. preserves.
Qed.
End AnyMutation.

#[global] Instance ephemeral_logged_control `{CryptoOps} `{RngOps} {B : Type} `{CanonicalSerialize B} `{EqDecision B} :
  ControlInv (@ephemeral_logged _ B).
Proof. apply any_mutation_control; [apply _|intros; apply mutate_ephemeral_logged]. Qed.

(** *** The log of mutations *)

Section Logged.
Context `{CryptoOps} `{RngOps} {B : Type} `{CanonicalSerialize B} `{EqDecision B}.
Notation extends := (@extends _ _ B _).
Notation logged := (@logged _ _ B _).

Lemma keeps_friends_extends {E} fm : keeps_friends fm -> preserves extends (mutate (E := E) fm).
Proof. apply mutate_extends. Qed.
Hint Resolve keeps_friends_extends : handler.
Hint Extern 0 (keeps_friends _) => exact I : handler.

Lemma create_transaction_extends k x : preserves extends (control_create_transaction k x).
Proof.
  unfold control_create_transaction. preserves. apply on_error_preserves; [apply _| |intros; preserves].
  unfold control_create_transaction_inner. preserves.
Qed.

(** A friend is removed only after it was found, and nothing in between
    removes it. *)
Lemma control_remove_friend_logged pk : preserves logged (control_remove_friend pk).
Proof.
  intros c. unfold control_remove_friend, control_friend, hbind, get_state, hget. simpl.
  destruct (friends (state_of c) !! pk) as [f|] eqn:Ef; simpl; [|reflexivity].
  pose proof (disable_friend_preserves extends pk c) as Hd. destruct (disable_friend pk c) as [[] c1|e c1|];
    [|by apply Hd|done].
  pose proof (cancel_local_pending_transactions_preserves extends (E := HandleControlError) pk c1) as Hc.
  destruct (cancel_local_pending_transactions pk c1) as [[] c2|e c2|]; [|by etrans; [apply Hd|apply Hc]|done].
  assert (extends c c2) as [Hl Hdom] by by etrans.
  assert (is_Some (friends (state_of c2) !! pk)) as Hs.
  { apply elem_of_dom, Hdom, elem_of_dom. by exists f. }
  pose proof (mutate_logged (E := HandleControlError) c2 (FuRemoveFriend pk) Hs) as Hm.
  destruct (mutate (FuRemoveFriend pk) c2); try done; by etrans.
Qed.

#[global] Instance logged_control : ControlInv logged.
Proof.
  split; [split; [split; [split|]|]|..]; try apply _; intros;
    try apply control_remove_friend_logged; apply extends_logged;
    try apply create_transaction_extends;
    unfold control_create_payment, control_request_close_payment, control_ack_close_payment; preserves.
Qed.
End Logged.
