(* ===== verification/FunderHandler.v ===== *)
(** * The funder's handler and loop ([funder/src/handler/handler.rs], [funder.rs])

    One incoming message is handled on a copy of the state; the loop then
    replays the recorded mutations on its own state and sends the outputs. The
    theorems show that the replay cannot fail and that the reports sent to
    applications follow the loop's state. *)

From S2P Require Import Prelude Arith Bytes Messages Canonical MutualCredit TokenChannel Friend FunderState Report.
From S2P Require Import Handler Canceler HandleFriend Sender HandleControl.

Local Open Scope Z_scope.

Inductive FunderIncoming (B : Type) :=
| IncInit
| IncControl (app_request_id : Uid) (m : FunderControl B)
| IncLiveness (m : IncomingLivenessMessage)
| IncFriend (pk : PublicKey) (m : FriendMessage B).
Arguments IncInit {B}. Arguments IncControl {B}. Arguments IncLiveness {B}. Arguments IncFriend {B}.

Inductive FunderHandlerError :=
| FhHandleFriendError (e : HandleFriendError)
| FhHandleLivenessError (e : HandleLivenessError).

Inductive FunderOutgoingComm (B : Type) :=
| OcFriendMessage (pk : PublicKey) (m : FriendMessage B)
| OcChannelerConfig (c : ChannelerConfig B).
Arguments OcFriendMessage {B}. Arguments OcChannelerConfig {B}.

Record FunderHandlerOutput (B : Type) := mkFunderHandlerOutput {
  fo_funder_mutations : list (FunderMutation B);
  fo_ephemeral_mutations : list EphemeralMutation;
  fo_outgoing_comms : list (FunderOutgoingComm B);
  fo_outgoing_control : list (FunderOutgoingControl B)
}.
Arguments mkFunderHandlerOutput {B}. Arguments fo_funder_mutations {B}. Arguments fo_ephemeral_mutations {B}.
Arguments fo_outgoing_comms {B}. Arguments fo_outgoing_control {B}.

Section FunderHandler.
Context `{CryptoOps} `{RngOps} {B : Type} `{CanonicalSerialize B} `{EqDecision B}.
Context (local_pk : PublicKey) `{!SignerOps local_pk}.
Context (max_node_relays max_operations_in_batch max_pending_user_requests : nat).
Implicit Types (s : FunderState B) (e : Ephemeral).

(** [.map_err(f)?] *)
Definition map_herr {E F A} (f : E -> F) (h : Hdl B E A) : Hdl B F A := fun c =>
  match h c with
  | HOk a c' => HOk a c'
  | HErr er c' => HErr (f er) c'
  | HPanic => HPanic
  end.

Definition funder_handle_incoming (m : FunderIncoming B) : Hdl B FunderHandlerError (option Uid) :=
  match m with
  | IncInit => run! handle_init then hret None
  | IncControl app_request_id ctl =>
      run! on_error (handle_control_message max_node_relays max_pending_user_requests ctl) (fun _ => hret tt) then
      hret (Some app_request_id)
  | IncLiveness lm => run! map_herr FhHandleLivenessError (handle_liveness_message lm) then hret None
  | IncFriend pk fm => run! map_herr FhHandleFriendError (handle_friend_message pk fm) then hret None
  end.

(** Handling, signing the responses, creating the messages to friends. *)
Definition handle_and_send (m : FunderIncoming B)
    : Hdl B FunderHandlerError (option Uid * list (PublicKey * FriendMessage B)) :=
  do! opt_app_request_id := funder_handle_incoming m in
  run! sign_responses local_pk then
  do! friend_messages := create_friend_messages local_pk max_operations_in_batch in
  hret (opt_app_request_id, friend_messages).

Definition initial_ctx s e (r : rng) : Ctx B := mkCtx (m_state_new s) (m_ephemeral_new e) ∅ [] [] r.

(** The report, when there is anything to report. *)
Definition report_control (opt_app_request_id : option Uid) (rms : list (FunderReportMutation B))
    : list (FunderOutgoingControl B) :=
  match rms, opt_app_request_id with
  | [], None => []
  | _, _ => [OutReportMutations (mkFunderReportMutations opt_app_request_id rms)]
  end.

(** The next random state and the outcome. *)
Definition funder_handle_message s e (r : rng) (m : FunderIncoming B)
    : option (rng * outcome FunderHandlerError (FunderHandlerOutput B)) :=
  match handle_and_send m (initial_ctx s e r) with
  | HPanic => None
  | HErr er c => Some (cx_rng c, Err er)
  | HOk (opt_app_request_id, friend_messages) c =>
      let! done := m_state_done (cx_state c) in
      let '(initial_state, funder_mutations, _) := done in
      let ephemeral_mutations := me_mutations (cx_ephemeral c) in
      let! rms := create_report_mutations initial_state funder_mutations ephemeral_mutations in
      Some (cx_rng c, Ok (mkFunderHandlerOutput funder_mutations ephemeral_mutations
        (map OcChannelerConfig (cx_channeler c) ++ map (fun p => OcFriendMessage p.1 p.2) friend_messages)
        (report_control opt_app_request_id rms ++ cx_control c)))
  end.

(** One turn of [inner_funder_loop]: a recoverable error leaves the state as it
    is, otherwise the mutations are replayed; [None] is a panic. *)
Definition funder_loop_step (st : FunderState B * Ephemeral * rng) (m : FunderIncoming B)
    : option (FunderState B * Ephemeral * rng * list (FunderOutgoingComm B) * list (FunderOutgoingControl B)) :=
  let '(s, e, r) := st in
  let! res := funder_handle_message s e r m in
  match res.2 with
  | Ok out =>
      let! s' := pfold funder_mutate s (fo_funder_mutations out) in
      Some (s', fold_left ephemeral_mutate (fo_ephemeral_mutations out) e, res.1,
            fo_outgoing_comms out, fo_outgoing_control out)
  | Err _ => Some (s, e, res.1, [], [])
  | Panic => None
  end.

Fixpoint funder_loop (st : FunderState B * Ephemeral * rng) (ms : list (FunderIncoming B))
    : option (FunderState B * Ephemeral * rng * list (FunderOutgoingComm B) * list (FunderOutgoingControl B)) :=
  match ms with
  | [] => Some (st, [], [])
  | m :: rest =>
      let! res := funder_loop_step st m in
      let '(st', comms, control) := res in
      let! res' := funder_loop st' rest in
      let '(st'', comms', control') := res' in
      Some (st'', comms ++ comms', control ++ control')
  end.

(** ** The log *)

Section Preserved.
Context (R : Ctx B -> Ctx B -> Prop) `{!ControlInv R}.

Lemma map_herr_preserves {E F A} (f : E -> F) (h : Hdl B E A) : preserves R h -> preserves R (map_herr f h).
Proof. intros Hh c. specialize (Hh c). unfold map_herr. by destruct (h c). Qed.

Lemma funder_handle_incoming_preserves m : preserves R (funder_handle_incoming m).
Proof.
  destruct m; simpl; preserves.
  - apply on_error_preserves; [apply _|apply handle_control_message_preserves, _|intros; preserves].
  - apply map_herr_preserves. preserves.
  - apply map_herr_preserves. preserves.
Qed.
Hint Resolve funder_handle_incoming_preserves : handler.

Lemma handle_and_send_preserves m : preserves R (handle_and_send m).
Proof. unfold handle_and_send. preserves. Qed.
End Preserved.

(** Nothing waits for a signature when the messages have been created. *)
Lemma handle_and_send_signed m (c c' : Ctx B) x :
  handle_and_send m c = HOk x c' -> ms_unsigned_responses (cx_state c') = [].
Proof.
  unfold handle_and_send, hbind. destruct (funder_handle_incoming m c) as [id c1|er c1|]; [|done..].
  unfold sign_responses, hbind. simpl.
  match goal with |- context [hfor ?l ?f ?c2] =>
    pose proof (preserves_for quiet l f (sign_response_preserves local_pk quiet) c2) as Hs;
    destruct (hfor l f c2) as [[] c3|er c3|]; [|done..]
  end.
  pose proof (create_friend_messages_preserves local_pk quiet (E := FunderHandlerError) max_operations_in_batch c3) as Hq.
  destruct (create_friend_messages local_pk max_operations_in_batch c3) as [msgs c4|er c4|]; [|done..].
  intros [= _ <-]. by apply Hq, Hs.
Qed.

(** The outputs of a message that was handled. *)
Lemma handle_message_ok s e r m id msgs c :
  handle_and_send m (initial_ctx s e r) = HOk (id, msgs) c ->
  exists rms out, funder_handle_message s e r m = Some (cx_rng c, Ok out) /\
    pfold funder_mutate s (fo_funder_mutations out) = Some (state_of c) /\
    fold_left ephemeral_mutate (fo_ephemeral_mutations out) e = me_ephemeral (cx_ephemeral c) /\
    mutations_apply s (fo_funder_mutations out) /\
    create_report_mutations s (fo_funder_mutations out) (fo_ephemeral_mutations out) = Some rms /\
    fo_outgoing_comms out =
      map OcChannelerConfig (cx_channeler c) ++ map (fun p => OcFriendMessage p.1 p.2) msgs /\
    fo_outgoing_control out = report_control id rms ++ cx_control c /\ Forall not_report (cx_control c).
Proof.
  intros Eh. unfold funder_handle_message. rewrite Eh.
  pose proof (handle_and_send_preserves logged m (initial_ctx s e r)) as Hl.
  pose proof (handle_and_send_preserves ephemeral_logged m (initial_ctx s e r)) as He.
  pose proof (handle_and_send_signed _ _ _ _ Eh) as Hu. rewrite Eh in Hl, He.
  destruct Hl as (Hi & (ctl & Hctl & Hn) & ms & Hms & Hp & Ha). destruct He as (ems & Hems & Hep). simpl in *.
  destruct (create_report_matches s e) as [Hm Hl].
  destruct (report_follows s _ e ms ems Hm Hl Ha) as (s1 & rms & r' & Hs1 & Hrms & _).
  unfold m_state_done. rewrite Hu. simpl. rewrite Hi, Hms, Hems, Hctl, Hrms. simpl. by eexists rms, _.
Qed.

(** One turn of the loop follows the handler: the replay of the mutations it
    recorded succeeds, and gives the state it computed. *)
Definition step_follows_handler (st : FunderState B * Ephemeral * rng) (m : FunderIncoming B) : Prop :=
  match handle_and_send m (initial_ctx st.1.1 st.1.2 st.2) with
  | HOk (id, msgs) c => exists rms,
      funder_loop_step st m = Some (state_of c, me_ephemeral (cx_ephemeral c), cx_rng c,
        map OcChannelerConfig (cx_channeler c) ++ map (fun p => OcFriendMessage p.1 p.2) msgs,
        report_control id rms ++ cx_control c)
  | HErr _ c => funder_loop_step st m = Some (st.1.1, st.1.2, cx_rng c, [], [])
  | HPanic => funder_loop_step st m = None
  end.

Lemma loop_step_follows_handler st m : step_follows_handler st m.
Proof.
  destruct st as [[s e] g]. unfold step_follows_handler, funder_loop_step. simpl.
  destruct (handle_and_send m (initial_ctx s e g)) as [[id msgs] c|er c|] eqn:Eh.
  - destruct (handle_message_ok _ _ _ _ _ _ _ Eh) as (rms & out & -> & Hs & He & _ & _ & Hco & Hct & _).
    exists rms. simpl. by rewrite Hs, He, Hco, Hct.
  - unfold funder_handle_message. by rewrite Eh.
  - unfold funder_handle_message. by rewrite Eh.
Qed.

(** A loop that panicked did so in the handler of a message. *)
Lemma loop_panics_in_handler ms st :
  funder_loop st ms = None ->
  exists ms1 m ms2 st1 comms control, ms = ms1 ++ m :: ms2 /\
    funder_loop st ms1 = Some (st1, comms, control) /\
    handle_and_send m (initial_ctx st1.1.1 st1.1.2 st1.2) = HPanic.
Proof.
  revert st. induction ms as [|m ms IH]; intros st; cbn [funder_loop]; [done|].
  pose proof (loop_step_follows_handler st m) as Hst. unfold step_follows_handler in Hst.
  destruct (funder_loop_step st m) as [[[st1 comms] control]|] eqn:Es; simpl.
  - destruct (funder_loop st1 ms) as [[[st2 comms2] control2]|] eqn:El; [done|]. intros _.
    destruct (IH _ El) as (ms1 & m' & ms2 & st3 & co & ct & -> & Hrun & Hp).
    exists (m :: ms1), m', ms2, st3, (comms ++ co), (control ++ ct). split; [done|].
    cbn [funder_loop]. rewrite Es. simpl. by rewrite Hrun.
  - intros _. exists [], m, ms, st, [], []. split; [done|]. split; [done|].
    destruct (handle_and_send m _) as [[id msgs] c|er c|]; [by destruct Hst|done|done].
Qed.

Lemma handle_message_log s e r m r' out :
  funder_handle_message s e r m = Some (r', Ok out) ->
  exists s' rms opt_id control, pfold funder_mutate s (fo_funder_mutations out) = Some s' /\
    mutations_apply s (fo_funder_mutations out) /\
    create_report_mutations s (fo_funder_mutations out) (fo_ephemeral_mutations out) = Some rms /\
    fo_outgoing_control out = report_control opt_id rms ++ control /\ Forall not_report control.
Proof.
  destruct (handle_and_send m (initial_ctx s e r)) as [[id msgs] c|er c|] eqn:Eh.
  - destruct (handle_message_ok _ _ _ _ _ _ _ Eh) as (rms & out' & -> & Hs & _ & Ha & Hr & _ & Hc & Hn).
    intros [= <- <-]. by exists (state_of c), rms, id, (cx_control c).
  - unfold funder_handle_message. by rewrite Eh.
  - unfold funder_handle_message. by rewrite Eh.
Qed.

(** The report mutations an application receives. *)
Definition reported (l : list (FunderOutgoingControl B)) : list (FunderReportMutation B) :=
  concat (map (fun o => match o with OutReportMutations r => frm_mutations r | _ => [] end) l).

Lemma reported_app l l' : reported (l ++ l') = reported l ++ reported l'.
Proof. unfold reported. by rewrite map_app, concat_app. Qed.

Lemma reported_control opt_id rms control :
  Forall not_report control -> reported (report_control opt_id rms ++ control) = rms.
Proof.
  intros Hn. rewrite reported_app.
  assert (reported control = []) as ->.
  { unfold reported. induction Hn as [|o l Ho _ IH]; simpl; [done|]. rewrite IH. by destruct o. }
  rewrite app_nil_r. unfold report_control, reported.
  destruct rms as [|rm rms], opt_id; simpl; rewrite ?app_nil_r; done.
Qed.

(** One turn of the loop, seen by an application. *)
Definition app_follows (st : FunderState B * Ephemeral * rng) (r : FunderReport B) : Prop :=
  report_matches st.1.1 r /\ liveness_sound r st.1.2.

Lemma loop_step_followed st m st' comms control r :
  funder_loop_step st m = Some (st', comms, control) -> app_follows st r ->
  exists r', ofold funder_report_mutate r (reported control) = Ok r' /\ app_follows st' r'.
Proof.
  destruct st as [[s e] g]. unfold funder_loop_step. intros Hst [Hm Hl]. inv_run.
  destruct x as [g' [out|er|]]; simpl in *; [|injection Hst as <- <- <-; by exists r|done].
  destruct (handle_message_log _ _ _ _ _ _ H2) as (s' & rms & id & ctl & Hs' & Ha & Hrms & Hc & Hn).
  rewrite Hs' in Hst. simpl in Hst. injection Hst as <- <- <-.
  destruct (report_follows s r e (fo_funder_mutations out) (fo_ephemeral_mutations out) Hm Hl Ha)
    as (s1 & rms1 & r' & Hs1 & Hrms1 & Hr' & Hm' & Hl').
  rewrite Hs' in Hs1. rewrite Hrms in Hrms1. simplify_eq. exists r'.
  rewrite Hc, reported_control by done. done.
Qed.

Lemma loop_followed ms st st' comms control r :
  funder_loop st ms = Some (st', comms, control) -> app_follows st r ->
  exists r', ofold funder_report_mutate r (reported control) = Ok r' /\ app_follows st' r'.
Proof.
  revert st comms control r. induction ms as [|m ms IH]; intros st comms control r Hloop Hf; cbn [funder_loop] in Hloop.
  - simplify_eq. by exists r.
  - apply opt_bind_Some in Hloop as ([[st1 comms1] control1] & Hst & Hloop).
    destruct (loop_step_followed _ _ _ _ _ _ Hst Hf) as (r1 & Hr1 & Hf1).
    apply opt_bind_Some in Hloop as ([[st2 comms2] control2] & Hloop & [= -> <- <-]).
    destruct (IH _ _ _ _ Hloop Hf1) as (r' & Hr' & Hfin).
    exists r'. rewrite reported_app, ofold_app, Hr1. done.
Qed.
End FunderHandler.

(** C5. The loop of the funder follows its handler. For every state and every
    message, the turn of the loop panics only when the handler does: otherwise
    the replay of the recorded mutations succeeds and gives the state, the
    liveness and the generator that the handler computed (after a recoverable
    error the state is the old one and nothing is sent). And along any sequence
    of messages from the user, the network and the friends, an application
    that starts from a report of the state and applies every report it receives
    ends with a report that matches the funder's state; a loop that stops
    stopped in the handler of a message. *)
Theorem funder_loop_reports `{CryptoOps} `{RngOps} {B : Type} `{CanonicalSerialize B} `{EqDecision B}
    (local_pk : PublicKey) `{!SignerOps local_pk} (max_relays max_ops max_user : nat)
    (s : FunderState B) (e : Ephemeral) (g : rng) (ms : list (FunderIncoming B)) :
  (forall st m, step_follows_handler local_pk max_relays max_ops max_user st m) /\
  match funder_loop local_pk max_relays max_ops max_user (s, e, g) ms with
  | Some (s', e', g', comms, control) =>
      exists r', ofold funder_report_mutate (create_report s e) (reported control) = Ok r' /\
        report_matches s' r' /\ liveness_sound r' e'
  | None =>
      exists ms1 m ms2 st1 comms control, ms = ms1 ++ m :: ms2 /\
        funder_loop local_pk max_relays max_ops max_user (s, e, g) ms1 = Some (st1, comms, control) /\
        handle_and_send local_pk max_relays max_ops max_user m (initial_ctx st1.1.1 st1.1.2 st1.2) = HPanic
  end.
Proof.
  split; [intros; apply loop_step_follows_handler|].
  destruct (funder_loop local_pk max_relays max_ops max_user (s, e, g) ms)
    as [[[[[s' e'] g'] comms] control]|] eqn:Hloop; [|by apply loop_panics_in_handler].
  eapply (loop_followed local_pk _ _ _ _ (s, e, g) (s', e', g')); [exact Hloop|].
  apply create_report_matches.
Qed.

(** ** A sample node *)

Module FunderSamples.
Import Toy.

(** A generator whose output is its state. *)
#[export] Instance toy_rng : RngOps := {|
  rng := Z;
  rng_fill n g := (fixed_of_prefix n [byte_of_Z g], g + 1)
|}.

Definition alice : PublicKey := fixed_of_prefix 32 [Byte.x01].
Definition bob : PublicKey := fixed_of_prefix 32 [Byte.x02].
Definition fst_currency : Currency := mkCurrency "FST".
Definition uid_of (b : Byte.byte) : Uid := fixed_of_prefix 16 [b].
Definition invoice_of (b : Byte.byte) : InvoiceId := fixed_of_prefix 32 [b].
Definition payment_of (b : Byte.byte) : PaymentId := fixed_of_prefix 16 [b].

Definition node : Type := FunderState string * Ephemeral * rng.
Definition fresh_node (pk : PublicKey) (seed : Z) : node := (funder_new pk [], ephemeral_new, seed : rng).
Definition ctl (m : FunderControl string) : FunderIncoming string := IncControl (uid_of Byte.x0f) m.

(** Adding a friend with a currency that is open for requests. *)
Definition setup_messages (friend : PublicKey) (name : string) : list (FunderIncoming string) :=
  [IncInit;
   ctl (CtlAddFriend (mkAddFriend friend [] name));
   ctl (CtlSetFriendStatus (mkSetFriendStatus friend FriendEnabled));
   ctl (CtlSetFriendCurrencyMaxDebt (mkSetMaxDebt friend fst_currency 100));
   ctl (CtlSetFriendCurrencyRequestsStatus (mkSetRequestsStatus friend fst_currency RequestsOpen));
   IncLiveness (LiveOnline friend)].

Definition payment_messages : list (FunderIncoming string) :=
  setup_messages bob "bob" ++
  [ctl (CtlCreatePayment (mkCreatePayment (payment_of Byte.x03) (invoice_of Byte.x04) fst_currency 10 bob));
   ctl (CtlRequestClosePayment (payment_of Byte.x03));
   IncLiveness (LiveOffline bob);
   ctl (CtlRemoveFriend bob)].

Definition run_node (pk : PublicKey) (n : node) (ms : list (FunderIncoming string)) :=
  funder_loop pk 10 16 10 n ms.

Lemma funder_loop_reports_witness :
  exists s' e' g' comms control r',
    run_node alice (fresh_node alice 1) payment_messages = Some (s', e', g', comms, control) /\
    length (reported control) = 7%nat /\
    ofold funder_report_mutate (create_report (funder_new alice []) ephemeral_new) (reported control) = Ok r' /\
    report_matches s' r'.
Proof.
  destruct (run_node alice (fresh_node alice 1) payment_messages) as [[[[[s' e'] g'] comms] control]|] eqn:E.
  - pose proof (funder_loop_reports (B := string) alice 10 16 10 (funder_new alice []) ephemeral_new (1 : rng) payment_messages)
      as [_ Hrep].
    unfold run_node, fresh_node in E. rewrite E in Hrep. destruct Hrep as (r' & Hr & Hm & _).
    change (run_node alice (fresh_node alice 1) payment_messages = Some (s', e', g', comms, control)) in E.
    exists s', e', g', comms, control, r'. split_and!; [done| |done..].
    assert (option_map (fun x => length (reported x.2)) (run_node alice (fresh_node alice 1) payment_messages)
            = Some 7%nat) as Hl by by vm_compute.
    rewrite E in Hl. by injection Hl.
  - assert (bool_decide (is_Some (run_node alice (fresh_node alice 1) payment_messages)) = true) as Hs by by vm_compute.
    by rewrite E in Hs.
Defined.
End FunderSamples.
