(* ===== verification/Payments.v ===== *)
(** * Accounting of payments

    A payment counts its open transactions; the handlers decrease the counter
    with [checked_sub(1).unwrap()] and consider a cancelled payment without
    transactions unreachable. The invariant ties the counters to the open
    transactions; it is preserved by every handler of the funder, and with it
    removing a transaction never panics. *)

From S2P Require Import Prelude Arith Bytes Messages Canonical MutualCredit TokenChannel Friend FunderState Report.
From S2P Require Import Handler Canceler HandleFriend Sender HandleControl FunderHandler.

Local Open Scope Z_scope.

(** The number of open transactions of a payment. *)
Definition tx_count (m : gmap Uid OpenTransaction) (p : PaymentId) : Z :=
  map_sum (fun ot => if decide (ot_payment_id ot = p) then 1 else 0) m.

(** The counter kept by a stage. *)
Definition stage_count (st : PaymentStage) : Z :=
  match st with
  | StageNewTransactions n => nt_num_transactions n
  | StageInProgress k | StageSuccess k _ _ | StageAfterSuccessAck k => k
  | StageCanceled _ => 0
  end.

Definition stage_wf (st : PaymentStage) : Prop :=
  u_ok 64 (stage_count st) /\
  match st with StageInProgress k | StageAfterSuccessAck k => 0 < k | _ => True end.

Definition payments_ok {B} (s : FunderState B) : Prop :=
  (forall p pay, payments s !! p = Some pay ->
     stage_count (stage pay) = tx_count (open_transactions s) p /\ stage_wf (stage pay)) /\
  (forall id ot, open_transactions s !! id = Some ot -> is_Some (payments s !! ot_payment_id ot)).

(** ** Counting *)

Lemma tx_count_insert m id ot p :
  m !! id = None ->
  tx_count (<[id := ot]> m) p = (if decide (ot_payment_id ot = p) then 1 else 0) + tx_count m p.
Proof. intros Hid. unfold tx_count. by rewrite map_sum_insert. Qed.

Lemma tx_count_delete m id ot p :
  m !! id = Some ot ->
  tx_count m p = (if decide (ot_payment_id ot = p) then 1 else 0) + tx_count (delete id m) p.
Proof. intros Hid. unfold tx_count. by rewrite (map_sum_delete _ m id ot). Qed.

Lemma tx_count_pos m id ot : m !! id = Some ot -> 1 <= tx_count m (ot_payment_id ot).
Proof.
  intros Hid. unfold tx_count.
  pose proof (map_sum_lookup_le (fun x => if decide (ot_payment_id x = ot_payment_id ot) then 1 else 0) m id ot)
    as Hle. simpl in Hle. rewrite decide_True in Hle by done. apply Hle; [|done]. intros ? ? _. case_decide; lia.
Qed.

Lemma tx_count_zero m p : (forall id ot, m !! id = Some ot -> ot_payment_id ot <> p) -> tx_count m p = 0.
Proof. intros Hn. apply map_sum_zero. intros k ot Hk. rewrite decide_False; [done|]. by eapply Hn. Qed.

(** ** Steps of the invariant *)

Section Steps.
Context `{CryptoOps} {B : Type} `{CanonicalSerialize B}.
Implicit Types s : FunderState B.

(** A stage that lost one transaction; no stage is left when it was the last. *)
Definition stage_step (st : PaymentStage) (opt : option PaymentStage) : Prop :=
  match opt with
  | Some st' => stage_count st' = stage_count st - 1 /\ stage_wf st'
  | None => stage_count st = 1
  end.

Definition set_payment s (p : PaymentId) (lock : PlainLock) (opt : option PaymentStage) : FunderState B :=
  with_payments s match opt with
                  | Some st => <[p := mkPayment lock st]> (payments s)
                  | None => delete p (payments s)
                  end.

Lemma payments_ok_remove s id ot pay lock opt :
  payments_ok s -> open_transactions s !! id = Some ot -> payments s !! ot_payment_id ot = Some pay ->
  stage_step (stage pay) opt ->
  payments_ok (set_payment (with_transactions s (delete id (open_transactions s))) (ot_payment_id ot) lock opt).
Proof.
  intros [Hp Ht] Hid Hpay Hst. destruct (Hp _ _ Hpay) as [Hc Hwf]. split; simpl.
  - intros p pay' Hp'. pose proof (tx_count_delete _ _ _ p Hid) as Hd.
    destruct (decide (ot_payment_id ot = p)) as [<-|Hne].
    + destruct opt as [st|]; [|by rewrite lookup_delete_eq in Hp'].
      rewrite lookup_insert_eq in Hp'. simplify_eq. simpl. destruct Hst as [Hst Hwf']. split; [lia|done].
    + assert (payments s !! p = Some pay') as Hold
        by (destruct opt; [by rewrite lookup_insert_ne in Hp'|by rewrite lookup_delete_ne in Hp']).
      destruct (Hp _ _ Hold) as [Hc' Hwf']. split; [lia|done].
  - intros id' ot' Hid'. apply lookup_delete_Some in Hid' as [Hne Hid']. pose proof (Ht _ _ Hid') as Hs.
    destruct (decide (ot_payment_id ot = ot_payment_id ot')) as [E|En].
    + destruct opt as [st|]; [rewrite E, lookup_insert_eq; by eexists|]. exfalso. simpl in Hst.
      pose proof (tx_count_delete _ _ _ (ot_payment_id ot) Hid) as Hd. rewrite decide_True in Hd by done.
      assert (delete id (open_transactions s) !! id' = Some ot') as Hid2
        by (rewrite lookup_delete_ne by congruence; done).
      pose proof (tx_count_pos _ _ _ Hid2) as Hpos. rewrite <- E in Hpos. lia.
    + destruct opt; [by rewrite lookup_insert_ne|by rewrite lookup_delete_ne].
Qed.

(** Changing the stage of a payment without changing its counter. *)
Lemma payments_ok_stage s p pay lock st :
  payments_ok s -> payments s !! p = Some pay -> stage_count st = stage_count (stage pay) -> stage_wf st ->
  payments_ok (set_payment s p lock (Some st)).
Proof.
  intros [Hp Ht] Hpay Hc Hwf. destruct (Hp _ _ Hpay) as [Hc' _]. split; simpl.
  - intros p' pay'. rewrite lookup_insert_Some. intros [[<- <-]|[Hne Hp']]; [split; [simpl; lia|done]|by apply Hp].
  - intros id ot Hid. destruct (decide (p = ot_payment_id ot)) as [<-|Hne]; [rewrite lookup_insert_eq; by eexists|].
    rewrite lookup_insert_ne by done. by eapply Ht.
Qed.

(** Dropping a payment that has no transactions. *)
Lemma payments_ok_drop s p pay lock :
  payments_ok s -> payments s !! p = Some pay -> stage_count (stage pay) = 0 ->
  payments_ok (set_payment s p lock None).
Proof.
  intros [Hp Ht] Hpay Hc. destruct (Hp _ _ Hpay) as [Hc' _]. split; simpl.
  - intros p' pay' [_ Hp']%lookup_delete_Some. by apply Hp.
  - intros id ot Hid. rewrite lookup_delete_ne; [by eapply Ht|]. intros ->.
    pose proof (tx_count_pos _ _ _ Hid). lia.
Qed.

(** A new payment. *)
Lemma payments_ok_create s p pay :
  payments_ok s -> payments s !! p = None -> stage_count (stage pay) = 0 -> stage_wf (stage pay) ->
  payments_ok (with_payments s (<[p := pay]> (payments s))).
Proof.
  intros [Hp Ht] Hn Hc Hwf. split; simpl.
  - intros p' pay'. rewrite lookup_insert_Some. intros [[<- <-]|[Hne Hp']]; [|by apply Hp]. split; [|done].
    rewrite Hc, tx_count_zero; [done|]. intros id ot Hid E. destruct (Ht _ _ Hid). congruence.
  - intros id ot Hid. destruct (decide (p = ot_payment_id ot)) as [<-|Hne]; [rewrite lookup_insert_eq; by eexists|].
    rewrite lookup_insert_ne by done. by eapply Ht.
Qed.

(** A new transaction of a payment. *)
Lemma payments_ok_add s id p pay lock st :
  payments_ok s -> open_transactions s !! id = None -> payments s !! p = Some pay ->
  stage_count st = stage_count (stage pay) + 1 -> stage_wf st ->
  payments_ok (set_payment (with_transactions s (<[id := mkOpenTransaction p None]> (open_transactions s)))
                 p lock (Some st)).
Proof.
  intros [Hp Ht] Hid Hpay Hc Hwf. destruct (Hp _ _ Hpay) as [Hc' _]. split; simpl.
  - intros p' pay' Hp'. rewrite tx_count_insert by done. simpl.
    apply lookup_insert_Some in Hp' as [[<- <-]|[Hne Hp']].
    + rewrite decide_True by done. split; [simpl; lia|done].
    + rewrite decide_False by done. by apply Hp.
  - intros id' ot'. rewrite lookup_insert_Some. intros [[<- <-]|[Hne Hid']]; simpl.
    + rewrite lookup_insert_eq. by eexists.
    + destruct (decide (p = ot_payment_id ot')) as [<-|Hne']; [rewrite lookup_insert_eq; by eexists|].
      rewrite lookup_insert_ne by done. by eapply Ht.
Qed.

(** Mutations that do not touch transactions and payments; a response does not
    change the payment of its transaction. *)
Lemma payments_ok_plain s s' (fm : FunderMutation B) :
  match fm with FuAddTransaction _ _ | FuRemoveTransaction _ | FuUpdatePayment _ _ | FuRemovePayment _ => False
  | _ => True end ->
  funder_mutate s fm = Some s' -> payments_ok s -> payments_ok s'.
Proof.
  intros Hpl Hm Hok. destruct fm; simpl in Hm; try done; inv_run; try exact Hok.
  - case_match; inv_run. exact Hok.
  - case_match; inv_run. exact Hok.
  - case_match; inv_run. destruct Hok as [Hp Ht]. split; simpl.
    + intros p pay Hpay. destruct (Hp _ _ Hpay) as [-> Hwf]. split; [|done]. unfold tx_count. symmetry.
      by eapply map_sum_update.
    + intros id ot. rewrite lookup_insert_Some. intros [[<- <-]|[_ Hid]]; [simpl|]; by eapply Ht.
Qed.
End Steps.

(** ** Stages *)

Section Stages.
Context `{CryptoOps} `{RngOps} {B : Type} `{CanonicalSerialize B}.

Lemma decrease_transactions_cases n :
  u_ok 64 n ->
  n = 0 /\ decrease_transactions n = None \/
  1 <= n /\ decrease_transactions n = Some (n - 1) /\ u_ok 64 (n - 1).
Proof.
  intros Hu. unfold u_ok in Hu. destruct (Z.eq_dec n 0) as [->|Hn]; [left; done|right].
  assert (u_ok 64 (n - 1)) by (unfold u_ok; lia). split_and!; [lia|by apply checked_u_ok|done].
Qed.

(** Losing a transaction panics only for a stage that counts none. *)
Lemma stage_after_removal_spec {E} st (c : Ctx B) :
  stage_wf st ->
  match stage_after_removal (E := E) st c with
  | HOk res c' => cx_state c' = cx_state c /\ stage_step st res.1
  | HErr _ _ => False
  | HPanic => stage_count st = 0
  end.
Proof.
  intros [Hu Hpos]. unfold hbind, stage_after_removal, hunwrap, rand_gen.
  destruct st; simpl in *; try (case_match; [lia|]);
    try match goal with |- context [decrease_transactions ?n] =>
      destruct (decrease_transactions_cases n Hu) as [[-> ->]|(Hn & -> & Hk)] end; simpl; try done;
    unfold hbind, hret, rand_gen; simpl; repeat (case_match; simplify_eq; simpl); repeat split; simpl; try done; unfold u_ok in *; try lia.
Qed.

(** Collecting a transaction leaves the funder's state alone and decreases
    the counter. *)
Lemma collect_success_spec {E} cur r pending opt_response n (c : Ctx B) :
  match collect_success (E := E) cur r pending opt_response n c with
  | HOk res c' => cx_state c' = cx_state c /\
      exists rc ack, res.1 = Some (StageSuccess (n - 1) rc ack) /\ u_ok 64 (n - 1)
  | HErr _ _ => False
  | HPanic => True
  end.
Proof.
  unfold collect_success. destruct opt_response as [rs|]; [|done].
  destruct (prepare_receipt cur r rs pending) as [rc|] eqn:Er; cbn; rewrite ?Er; [|done]. unfold hbind, rand_gen.
  cbn. destruct (rng_fill 16 (cx_rng c)) as [ack g].
  destruct (decrease_transactions n) as [k|] eqn:Ed; cbn; [|done].
  apply checked_u_Some in Ed as [Hd ->]. split; [done|]. by exists rc, ack.
Qed.

Lemma stage_after_collect_spec {E} cur r pending opt_response st (c : Ctx B) :
  stage_wf st ->
  match stage_after_collect (E := E) cur r pending opt_response st c with
  | HOk res c' => cx_state c' = cx_state c /\ stage_step st res.1
  | HErr _ _ => False
  | HPanic => True
  end.
Proof.
  intros [Hu Hpos]. unfold stage_after_collect.
  pose proof (collect_success_spec (E := E) cur r pending opt_response) as Hcs.
  destruct st as [n|k|k rc ack|ack|k]; simpl in *; [|destruct (negb (0 <? k)); [done|]| | done|];
    try match goal with |- context [collect_success _ _ _ _ ?n c] =>
      specialize (Hcs n c); destruct (collect_success _ _ _ _ n c); try done;
      destruct Hcs as (-> & rc & ack & -> & Hk); by repeat split; try apply Hk end;
    destruct (decrease_transactions_cases k Hu) as [[-> ->]|(Hn & -> & Hk)]; try done;
    unfold hbind, hret; simpl; try case_match; repeat split; simpl; try done; unfold u_ok in *; lia.
Qed.
End Stages.

(** ** Preservation by the handlers *)

Section Preserved.
Context `{CryptoOps} `{RngOps} {B : Type} `{CanonicalSerialize B}.

Definition keeps_payments (c c' : Ctx B) : Prop := payments_ok (state_of c) -> payments_ok (state_of c').

#[global] Instance keeps_payments_preorder : PreOrder keeps_payments.
Proof. split; [by intros c Hc|]. intros c1 c2 c3 H12 H23 Hok. by apply H23, H12. Qed.

Lemma mutate_run {E} (fm : FunderMutation B) (c : Ctx B) :
  match mutate (E := E) fm c with
  | HOk _ c' => funder_mutate (state_of c) fm = Some (state_of c')
  | HErr _ _ => False
  | HPanic => funder_mutate (state_of c) fm = None
  end.
Proof. unfold mutate, m_mutate, state_of. by destruct (funder_mutate (ms_state (cx_state c)) fm). Qed.

Lemma payment_mutation_run (s : FunderState B) p lock opt :
  funder_mutate s (payment_mutation p lock opt) = Some (set_payment s p lock opt).
Proof. by destruct opt. Qed.

#[global] Instance keeps_payments_basic : BasicInv keeps_payments.
Proof.
  split; try apply _; intros; intros cx; try exact (fun Hok => Hok).
  - pose proof (mutate_run (E := E) fm cx) as Hm. destruct (mutate fm cx); [|done..]. intros Hok.
    eapply payments_ok_plain; [|exact Hm|exact Hok]. by destruct fm.
  - unfold rand_gen. destruct (rng_fill n (cx_rng cx)). exact (fun Hok => Hok).
Qed.

Lemma push_payment_status_run {E} p st (c : Ctx B) :
  exists c', push_payment_status (E := E) p st c = HOk tt c' /\ cx_state c' = cx_state c.
Proof. destruct st; eexists; split; [done..]. Qed.

#[local] Opaque mutate stage_after_removal stage_after_collect push_payment_status.

(** What removing a transaction does to the state. *)
Lemma remove_transaction_run {E} id (c : Ctx B) ot pay :
  payments_ok (state_of c) -> open_transactions (state_of c) !! id = Some ot ->
  payments (state_of c) !! ot_payment_id ot = Some pay ->
  exists opt c', remove_transaction (E := E) id c = HOk tt c' /\ stage_step (stage pay) opt /\
    state_of c' = set_payment (with_transactions (state_of c) (delete id (open_transactions (state_of c))))
                    (ot_payment_id ot) (src_plain_lock pay) opt.
Proof.
  intros Hok Hid Hpay. destruct (proj1 Hok _ _ Hpay) as [Hc Hwf].
  pose proof (tx_count_pos _ _ _ Hid) as Hpos.
  unfold remove_transaction, hbind, get_state, hget, hunwrap. rewrite Hid. simpl. rewrite Hpay. simpl.
  pose proof (mutate_run (E := E) (FuRemoveTransaction id) c) as Hm.
  destruct (mutate (FuRemoveTransaction id) c) as [[] c1|e c1|]; [|done..]. simpl in Hm. injection Hm as Hm.
  pose proof (stage_after_removal_spec (E := E) (stage pay) c1 Hwf) as Hs.
  destruct (stage_after_removal (stage pay) c1) as [[opt st] c2|e c2|]; [|done|lia]. destruct Hs as [Hs Hst].
  simpl. destruct (push_payment_status_run (E := E) (ot_payment_id ot) st c2) as (c3 & -> & H3). simpl.
  pose proof (mutate_run (E := E) (payment_mutation (ot_payment_id ot) (src_plain_lock pay) opt) c3) as Hm4.
  rewrite payment_mutation_run in Hm4. destruct (mutate _ c3) as [[] c4|e c4|]; [|done..].
  exists opt, c4. split_and!; [done..|]. injection Hm4 as <-. unfold state_of. rewrite H3, Hs.
  unfold state_of in Hm. by rewrite Hm.
Qed.

#[global] Instance keeps_payments_transaction : TransactionInv keeps_payments.
Proof.
  split; [apply _|]. intros E id c. unfold keeps_payments.
  destruct (open_transactions (state_of c) !! id) as [ot|] eqn:Hid;
    [|unfold remove_transaction, hbind, get_state, hget, hunwrap; by rewrite Hid].
  destruct (payments (state_of c) !! ot_payment_id ot) as [pay|] eqn:Hpay;
    [|unfold remove_transaction, hbind, get_state, hget, hunwrap; rewrite Hid; simpl; by rewrite Hpay].
  destruct (remove_transaction id c) as [[] c'|e c'|] eqn:Er; [intros Hok|intros Hok|done];
    destruct (remove_transaction_run (E := E) id c ot pay Hok Hid Hpay) as (opt & c1 & Hr & Hst & Hs);
    rewrite Er in Hr; [|done]. injection Hr as ->. rewrite Hs. by eapply payments_ok_remove.
Qed.

Lemma set_payment_transactions (s : FunderState B) t p lock opt :
  with_transactions (set_payment s p lock opt) t = set_payment (with_transactions s t) p lock opt.
Proof. by destruct s. Qed.

#[global] Instance keeps_payments_buyer : BuyerInv keeps_payments.
Proof.
  split; [apply _|]. intros E cur r pending c. unfold handle_collect_send_funds.
  unfold hbind at 1. unfold get_state, hget.
  destruct (find_request_origin (state_of c) cur (cl_request_id r)) as [pk|].
  { cbn match. revert c. change (preserves keeps_payments (E := E)
      (run! mutate_friend pk (PushBackPendingBackwardsOp cur (BackCollect r)) then send_command set_try_send pk)).
    preserves. }
  unfold hbind, hunwrap. destruct (open_transactions (state_of c) !! cl_request_id r) as [ot|] eqn:Hid; [|done].
  simpl. destruct (payments (state_of c) !! ot_payment_id ot) as [pay|] eqn:Hpay; [|done]. simpl.
  destruct (stage_after_collect _ _ _ _ _ c) as [[opt st] c1|e c1|] eqn:Es;
    [|intros Hok; destruct (proj1 Hok _ _ Hpay) as [_ Hwf];
      pose proof (stage_after_collect_spec (E := E) cur r pending (ot_opt_response ot) _ c Hwf) as Hs;
      by rewrite Es in Hs|done].
  simpl. destruct (push_payment_status_run (E := E) (ot_payment_id ot) st c1) as (c2 & -> & H2). simpl.
  pose proof (mutate_run (E := E) (payment_mutation (ot_payment_id ot) (src_plain_lock pay) opt) c2) as Hm3.
  rewrite payment_mutation_run in Hm3. destruct (mutate _ c2) as [[] c3|e c3|]; [|done..].
  pose proof (mutate_run (E := E) (FuRemoveTransaction (cl_request_id r)) c3) as Hm4.
  destruct (mutate _ c3) as [[] c4|e c4|]; [|done..]. intros Hok. destruct (proj1 Hok _ _ Hpay) as [_ Hwf].
  pose proof (stage_after_collect_spec (E := E) cur r pending (ot_opt_response ot) _ c Hwf) as Hs.
  rewrite Es in Hs. destruct Hs as [Hs Hst]. simpl in Hm4. injection Hm4 as <-. injection Hm3 as <-.
  rewrite set_payment_transactions. simpl. unfold state_of in *. rewrite H2, Hs. by eapply payments_ok_remove.
Qed.

(** A mutation that keeps the invariant where it is applied. *)
Lemma keeps_mutate {E} (fm : FunderMutation B) (c0 c : Ctx B) :
  state_of c = state_of c0 ->
  (forall s', payments_ok (state_of c0) -> funder_mutate (state_of c0) fm = Some s' -> payments_ok s') ->
  match mutate (E := E) fm c with HOk _ c' | HErr _ c' => keeps_payments c0 c' | HPanic => True end.
Proof.
  intros Hc Hs. pose proof (mutate_run (E := E) fm c) as Hm. destruct (mutate fm c); [|done..].
  rewrite Hc in Hm. intros Hok. by eapply Hs.
Qed.

Lemma create_payment_keeps x : preserves keeps_payments (control_create_payment (B := B) x).
Proof.
  intros c. unfold control_create_payment, hbind, get_state, hget.
  case_bool_decide as Hp; [by intros Hok|]. unfold rand_gen. destruct (rng_fill 32 (cx_rng c)) as [lock g].
  apply keeps_mutate; [done|]. intros s' Hok [= <-]. apply payments_ok_create; [done| |done|].
  - by destruct (payments (state_of c) !! cp_payment_id x) eqn:E; [destruct Hp; eexists|].
  - by split.
Qed.

Lemma request_close_keeps p : preserves keeps_payments (control_request_close_payment (B := B) p).
Proof.
  intros c. unfold control_request_close_payment, hbind, get_state, hget.
  destruct (payments (state_of c) !! p) as [pay|] eqn:Hpay; [|by intros Hok].
  destruct (stage_after_close (stage pay) c) as [[st status] c1|e c1|] eqn:Es; [|..|done].
  - assert (cx_state c1 = cx_state c /\ (stage_wf (stage pay) -> stage_count st = stage_count (stage pay) /\ stage_wf st))
      as [Hc1 Hst].
    { unfold stage_after_close, hret, hbind, rand_gen in Es. destruct (stage pay);
        repeat (case_match; simplify_eq); simplify_eq; (split; [done|]); intros [Hu Hpos]; simpl in *; unfold stage_wf; simpl;
        unfold u_ok in *; simpl in *; split; try done; try lia. }
    simpl. destruct (push_payment_status_run (E := HandleControlError) p status c1) as (c2 & -> & H2).
    assert (state_of c2 = state_of c) as E2 by (unfold state_of; by rewrite H2, Hc1).
    case_decide; [unfold hret, keeps_payments; by rewrite E2|].
    apply keeps_mutate; [done|]. intros s' Hok [= <-].
    destruct (proj1 Hok _ _ Hpay) as [_ Hwf]. destruct (Hst Hwf) as [Hc Hwf'].
    by apply (payments_ok_stage _ _ pay).
  - unfold stage_after_close, hret, hbind, rand_gen in Es. by destruct (stage pay); repeat (case_match; simplify_eq).
Qed.

Lemma ack_close_keeps x : preserves keeps_payments (control_ack_close_payment (B := B) x).
Proof.
  intros c. unfold control_ack_close_payment, hbind, get_state, hget, hok_or.
  destruct (payments (state_of c) !! acp_payment_id x) as [pay|] eqn:Hpay; [|by intros Hok]. simpl.
  destruct (stage pay) as [n|k|k rc ack|ack|k] eqn:Es; try (by intros Hok);
    (case_bool_decide; simpl; [|by intros Hok]).
  - destruct (0 <? k) eqn:Ek; (apply keeps_mutate; [done|]); intros s' Hok [= <-];
      destruct (proj1 Hok _ _ Hpay) as [_ [Hu _]]; rewrite Es in Hu; simpl in Hu.
    + apply (payments_ok_stage _ _ pay); [done..|by rewrite Es|]. split; [done|simpl; lia].
    + apply (payments_ok_drop _ _ pay (src_plain_lock pay)); [done..|]. rewrite Es. unfold u_ok in Hu. simpl. lia.
  - apply keeps_mutate; [done|]. intros s' Hok [= <-].
    apply (payments_ok_drop _ _ pay (src_plain_lock pay)); [done..|]. by rewrite Es.
Qed.

Lemma remove_friend_keeps pk : preserves keeps_payments (control_remove_friend (B := B) pk).
Proof.
  unfold control_remove_friend. preserves. intros c. apply keeps_mutate; [done|]. intros s' Hok Hs'.
  by eapply payments_ok_plain; [|exact Hs'|].
Qed.

(** Errors are found before anything is changed. *)
Lemma check_create_transaction_run x n k (c : Ctx B) :
  match check_create_transaction x n k c with HOk _ c' | HErr _ c' => c' = c | HPanic => True end.
Proof.
  unfold check_create_transaction, hbind, get_state, get_ephemeral, hget, hunwrap, hok_or, hret, herr, hpanic.
  repeat (case_match; simplify_eq); done.
Qed.

Lemma create_inner_keeps k x (c : Ctx B) :
  open_transactions (state_of c) !! ct_request_id x = None ->
  match control_create_transaction_inner k x c with HOk _ c' | HErr _ c' => keeps_payments c c' | HPanic => True end.
Proof.
  intros Hid. unfold control_create_transaction_inner. unfold hbind at 1.
  unfold new_transactions_payment, hbind at 1, get_state, hget, hok_or.
  unfold hbind at 1. destruct (payments (state_of c) !! ct_payment_id x) as [pay|] eqn:Hpay; [|by intros Hok]. simpl.
  destruct (stage pay) as [n| | | |] eqn:Es; try (by intros Hok). simpl. unfold hbind at 1.
  pose proof (check_create_transaction_run x n k c) as Hcheck.
  destruct (check_create_transaction x n k c) as [friend_pk c0|e c0|]; [|subst; by intros Hok|done]. subst c0.
  unfold hbind at 1. pose proof (mutate_run (E := HandleControlError) (FuAddTransaction (ct_request_id x) (ct_payment_id x)) c) as H1'.
  destruct (mutate _ c) as [[] c1|e c1|]; [|done..]. simpl in H1'. injection H1' as H1'.
  unfold hbind at 1, hunwrap. destruct (checked_u 64 (nt_num_transactions n + 1)) as [k'|] eqn:Ek; [|done]. simpl.
  apply checked_u_Some in Ek as [Hk' ->]. unfold hbind at 1.
  match goal with |- context [mutate ?fm c1] => pose proof (mutate_run (E := HandleControlError) fm c1) as H2';
    destruct (mutate fm c1) as [[] c2|e c2|]; [|done..] end.
  simpl in H2'. injection H2' as H2'. rewrite <- H1' in H2'.
  assert (keeps_payments c c2) as Hkeep.
  { intros Hok. rewrite <- H2'. apply (payments_ok_add (state_of c) _ _ pay (src_plain_lock pay)
      (StageNewTransactions (mkNewTransactions (nt_num_transactions n + 1) (nt_invoice_id n) (nt_currency n)
                               (nt_total_dest_payment n) (nt_dest_public_key n)))); try done.
    by rewrite Es. }
  match goal with |- match ?h c2 with _ => _ end => assert (preserves keeps_payments h) as Hp by preserves;
    specialize (Hp c2); destruct (h c2); try done; by etrans end.
Qed.

Lemma create_transaction_keeps k x : preserves keeps_payments (control_create_transaction (B := B) k x).
Proof.
  intros c. unfold control_create_transaction. unfold hbind at 1.
  unfold new_transactions_payment, hbind at 1, get_state, hget, hok_or.
  unfold hbind at 1. destruct (payments (state_of c) !! ct_payment_id x) as [pay|] eqn:Hpay; [|by intros Hok]. simpl.
  destruct (stage pay) as [n| | | |] eqn:Es; try (by intros Hok). simpl. unfold hbind at 1.
  destruct (open_transactions (state_of c) !! ct_request_id x) as [ot|] eqn:Hid.
  - match goal with |- match ?h c with _ => _ end => assert (preserves keeps_payments h) as Hp by preserves; apply Hp end.
  - pose proof (create_inner_keeps k x c Hid) as Hin. unfold on_error.
    destruct (control_create_transaction_inner k x c) as [[] c1|e c1|]; [done| |done]. simpl.
    intros Hok. by apply Hin.
Qed.

#[global] Instance keeps_payments_control : ControlInv keeps_payments.
Proof.
  split; [apply _|intros..].
  - apply remove_friend_keeps.
  - apply create_payment_keeps.
  - apply create_transaction_keeps.
  - apply request_close_keeps.
  - apply ack_close_keeps.
Qed.
End Preserved.

(** ** Theorems *)

(** The handler of one message keeps the accounting. *)
Lemma loop_step_payments `{CryptoOps} `{RngOps} {B : Type} `{CanonicalSerialize B} `{EqDecision B}
    (local_pk : PublicKey) `{!SignerOps local_pk} (k1 k2 k3 : nat) (st st' : FunderState B * Ephemeral * rng)
    m comms control :
  funder_loop_step local_pk k1 k2 k3 st m = Some (st', comms, control) ->
  payments_ok st.1.1 -> payments_ok st'.1.1.
Proof.
  destruct st as [[s e] g]. unfold funder_loop_step, funder_handle_message. intros Hst Hok.
  pose proof (handle_and_send_preserves local_pk k1 k2 k3 keeps_payments m (initial_ctx s e g)) as Hk.
  pose proof (handle_and_send_preserves local_pk k1 k2 k3 logged m (initial_ctx s e g)) as Hl.
  destruct (handle_and_send _ _ _ _ m (initial_ctx s e g)) as [[id msgs] c|er c|]; simpl in Hst; [| |done].
  - destruct Hl as (Hi & _ & ms & Hms & Hp & _). unfold state_of, m_state_done in *. simpl in *.
    inv_run. destruct (ms_unsigned_responses (cx_state c)); [|done]. injection H3 as <-.
    apply opt_bind_Some in H2 as (rms & _ & [= <-]). simpl in Hst. rewrite Hp in Hst. simpl in Hst.
    injection Hst as <- <- <-. by apply Hk.
  - by injection Hst as <- <- <-.
Qed.

(** C4. Payments account for their transactions: a fresh funder satisfies the
    invariant and every run of the funder's loop, over any messages from the
    user, the network and the friends, keeps it. In every reachable state the
    counter of each payment is the number of its open transactions, a payment
    in progress or acknowledged has at least one, a cancelled one has none,
    and every open transaction belongs to an existing payment. *)
Theorem payment_accounting `{CryptoOps} `{RngOps} {B : Type} `{CanonicalSerialize B} `{EqDecision B}
    (local_pk : PublicKey) `{!SignerOps local_pk} (max_relays max_ops max_user : nat)
    (rs : list (NamedRelayAddress B)) (ms : list (FunderIncoming B)) (g g' : rng) (s' : FunderState B)
    (e' : Ephemeral) comms control :
  funder_loop local_pk max_relays max_ops max_user (funder_new local_pk rs, ephemeral_new, g) ms
    = Some (s', e', g', comms, control) ->
  payments_ok s'.
Proof.
  assert (payments_ok (funder_new (B := B) local_pk rs)) as Hok
    by (split; simpl; intros ? ?; by rewrite lookup_empty).
  revert Hok. generalize (funder_new (B := B) local_pk rs) as s, ephemeral_new as e. intros s e Hok.
  revert s e g comms control Hok. induction ms as [|m ms IH]; intros s e g comms control Hok Hloop;
    cbn [funder_loop] in Hloop; [by simplify_eq|].
  apply opt_bind_Some in Hloop as ([[[[s1 e1] g1] comms1] control1] & Hst & Hloop).
  apply opt_bind_Some in Hloop as ([[st2 comms2] control2] & Hloop & [= -> <- <-]).
  eapply IH; [|exact Hloop]. eapply (loop_step_payments _ _ _ _ _ _ _ _ _ Hst Hok).
Qed.

(** Where the accounting holds, removing an open transaction never panics
    ([checked_sub(1).unwrap()] and the [unreachable!] of a cancelled payment are
    not reached): the transaction is gone, every other one is untouched, and
    the accounting still holds. *)
Theorem remove_transaction_never_panics `{CryptoOps} `{RngOps} {B : Type} `{CanonicalSerialize B} {E : Type}
    (c : Ctx B) (request_id : Uid) :
  payments_ok (state_of c) -> is_Some (open_transactions (state_of c) !! request_id) ->
  exists c', remove_transaction (E := E) request_id c = HOk tt c' /\ payments_ok (state_of c') /\
    open_transactions (state_of c') = delete request_id (open_transactions (state_of c)).
Proof.
  intros Hok [ot Hid]. destruct (proj2 Hok _ _ Hid) as [pay Hpay].
  destruct (remove_transaction_run (E := E) request_id c ot pay Hok Hid Hpay) as (opt & c' & Hr & Hst & Hs).
  exists c'. rewrite Hs. split_and!; [done| |by destruct opt]. by eapply payments_ok_remove.
Qed.

Module PaymentSamples.
Import Toy FunderSamples.

Lemma payment_accounting_witness :
  exists s' e' g' comms control,
    run_node alice (fresh_node alice 1) payment_messages = Some (s', e', g', comms, control) /\ payments_ok s'.
Proof.
  destruct (run_node alice (fresh_node alice 1) payment_messages) as [[[[[s' e'] g'] comms] control]|] eqn:Er.
  - exists s', e', g', comms, control. split; [done|].
    exact (payment_accounting alice 10 16 10 [] _ _ g' s' e' comms control Er).
  - assert (bool_decide (is_Some (run_node alice (fresh_node alice 1) payment_messages)) = true) as Hs
      by by vm_compute.
    by rewrite Er in Hs.
Defined.

(** A payment in progress with one transaction left. *)
Definition paying_state : FunderState string :=
  with_payments
    (with_transactions (funder_new alice []) {[ uid_of Byte.x05 := mkOpenTransaction (payment_of Byte.x03) None ]})
    {[ payment_of Byte.x03 := mkPayment (fixed_of_prefix 32 []) (StageInProgress 1) ]}.

Lemma paying_state_ok : payments_ok paying_state.
Proof.
  split; simpl.
  - intros p pay [<- <-]%lookup_singleton_Some. split; [|by split].
    unfold tx_count. rewrite <- insert_empty, map_sum_insert, map_sum_zero; [done|done|apply lookup_empty].
  - intros id ot [<- <-]%lookup_singleton_Some. by eexists.
Qed.

Definition paying_ctx : Ctx string := initial_ctx paying_state ephemeral_new (fresh_node alice 1).2.

Lemma remove_transaction_never_panics_witness :
  exists c', remove_transaction (B := string) (E := unit) (uid_of Byte.x05) paying_ctx
             = HOk tt c' /\ payments_ok (state_of c').
Proof.
  destruct (remove_transaction_never_panics (E := unit) paying_ctx
              (uid_of Byte.x05) paying_state_ok) as (c' & Hr & Hok & _); [by eexists|].
  by exists c'.
Defined.
End PaymentSamples.
