(* ===== verification/Scenario.v ===== *)
(** * Executions of several funders

    A network of nodes that exchange their messages in order, run on concrete
    inputs with the sample cryptography: a payment through a mediator from the
    first contact to the receipt, and the executions behind the defects found
    in the handlers. *)

From S2P Require Import Prelude Arith Bytes Messages Canonical MutualCredit TokenChannel Friend FunderState Report.
From S2P Require Import Handler Canceler HandleFriend Sender HandleControl FunderHandler.

Local Open Scope Z_scope.

Module Scenario.
Import Toy FunderSamples.

Record network := mkNetwork {
  nodes : gmap PublicKey node;
  in_flight : list (PublicKey * PublicKey * FriendMessage string);
  outputs : list (PublicKey * FunderOutgoingControl string)
}.

Definition addressed (src : PublicKey) (l : list (FunderOutgoingComm string))
    : list (PublicKey * PublicKey * FriendMessage string) :=
  omap (fun o => match o with OcFriendMessage dst m => Some (src, dst, m) | OcChannelerConfig _ => None end) l.

(** One message handled by one node; [None] when the node panics. *)
Definition handle_at (w : network) (pk : PublicKey) (m : FunderIncoming string) : option network :=
  let! n := nodes w !! pk in
  let! res := funder_loop_step pk 10 16 10 n m in
  let '(n', comms, control) := res in
  Some (mkNetwork (<[pk := n']> (nodes w)) (in_flight w ++ addressed pk comms)
          (outputs w ++ map (fun o => (pk, o)) control)).

Definition handle_all (w : network) (pk : PublicKey) (ms : list (FunderIncoming string)) : option network :=
  pfold (fun w m => handle_at w pk m) w ms.

(** Delivering messages until none is left, at most [fuel] of them. *)
Fixpoint deliver_all (fuel : nat) (w : network) : option network :=
  match fuel, in_flight w with
  | O, _ => Some w
  | S fuel', (src, dst, m) :: rest =>
      let! w' := handle_at (mkNetwork (nodes w) rest (outputs w)) dst (IncFriend src m) in
      deliver_all fuel' w'
  | S _, [] => Some w
  end.

(** The balance of a node with a friend: balance, local and remote pending debts. *)
Definition balance_with (w : network) (pk friend : PublicKey) (c : Currency) : option (Z * Z * Z) :=
  let! n := nodes w !! pk in
  let! f := friends n.1.1 !! friend in
  let! mc := friend_mc f c in
  let b := mc_balance mc in
  Some (balance b, local_pending_debt b, remote_pending_debt b).

Definition commits (w : network) (pk : PublicKey) : list Commit :=
  omap (fun p : PublicKey * FunderOutgoingControl string =>
    match p.2 with
    | OutTransactionResult (mkTransactionResult _ (RequestComplete c)) => if decide (p.1 = pk) then Some c else None
    | _ => None
    end) (outputs w).

Definition closed (w : network) (pk : PublicKey) : list (Receipt * Uid) :=
  omap (fun p : PublicKey * FunderOutgoingControl string =>
    match p.2 with
    | OutResponseClosePayment (mkResponseClosePayment _ (PaymentSuccess r u)) =>
        if decide (p.1 = pk) then Some (r, u) else None
    | _ => None
    end) (outputs w).

Definition charlie : PublicKey := fixed_of_prefix 32 [Byte.x03].
Definition snd_currency : Currency := mkCurrency "SND".

Definition network0 : network :=
  mkNetwork (<[alice := fresh_node alice 1]> (<[bob := fresh_node bob 60]> {[ charlie := fresh_node charlie 120 ]}))
    [] [].

Definition befriend (w : network) (x y : PublicKey) : option network :=
  let! w := handle_all w x (setup_messages y "friend") in
  let! w := handle_all w y (setup_messages x "friend") in
  deliver_all 20 w.

(** Alice and Charlie are friends of Bob, who asks [2 + dest / 2] credits. *)
Definition bob_rate : Rate := mkRate 2147483648 2.
Definition connected : option network :=
  let! w := befriend network0 alice bob in
  let! w := befriend w bob charlie in
  let! w := handle_at w bob (ctl (CtlSetFriendCurrencyRate (mkSetRate alice fst_currency bob_rate))) in
  deliver_all 20 w.

Definition the_invoice : InvoiceId := invoice_of Byte.x04.
Definition the_payment : PaymentId := payment_of Byte.x05.
Definition the_request : Uid := uid_of Byte.x06.

(** Alice pays 10 credits to Charlie through Bob. *)
Definition requested (fees : Z) : option network :=
  let! w := connected in
  let! w := handle_at w charlie (ctl (CtlAddInvoice (mkAddInvoice the_invoice fst_currency 10))) in
  let! w := handle_all w alice
    [ctl (CtlCreatePayment (mkCreatePayment the_payment the_invoice fst_currency 10 charlie));
     ctl (CtlCreateTransaction (mkCreateTransaction the_payment the_request (mkRoute [alice; bob; charlie]) 10 fees))] in
  deliver_all 20 w.

(** The seller commits, the buyer closes the payment and acknowledges. *)
Definition collected (fees : Z) : option network :=
  let! w := requested fees in
  let! c := head (commits w alice) in
  let! w := handle_at w charlie (ctl (CtlCommitInvoice c)) in
  let! w := deliver_all 20 w in
  let! w := handle_at w alice (ctl (CtlRequestClosePayment the_payment)) in
  let! r := head (closed w alice) in
  handle_at w alice (ctl (CtlAckClosePayment (mkAckClosePayment the_payment r.2))).

Definition payments_open (w : network) (pk : PublicKey) : nat :=
  match nodes w !! pk with
  | Some n => size (payments n.1.1) + size (open_transactions n.1.1) + size (open_invoices n.1.1)
  | None => 0
  end.

Definition summary (w : network) :=
  (balance_with w alice bob fst_currency, balance_with w bob alice fst_currency,
   balance_with w bob charlie fst_currency, balance_with w charlie bob fst_currency,
   (map (fun r => verify_receipt r.1 charlie) (closed w alice),
   payments_open w alice, payments_open w charlie, length (in_flight w))).

(** ** Executions behind defects *)

(** Alice offers a second currency to Bob, and Bob to Alice. *)
Definition open_currency (w : network) (x y : PublicKey) (c : Currency) : option network :=
  let msgs friend :=
    [ctl (CtlSetFriendCurrencyMaxDebt (mkSetMaxDebt friend c 100));
     ctl (CtlSetFriendCurrencyRequestsStatus (mkSetRequestsStatus friend c RequestsOpen))] in
  let! w := handle_all w x (msgs y) in
  let! w := handle_all w y (msgs x) in
  deliver_all 20 w.

Definition two_currencies : option network :=
  let! w := befriend network0 alice bob in
  open_currency w alice bob snd_currency.

(** Bob's invoice asks for the first currency, Alice pays in the second. *)
Definition pay_foreign (dest_payments : list (Uid * Z)) : option network :=
  let! w := two_currencies in
  let! w := handle_at w bob (ctl (CtlAddInvoice (mkAddInvoice the_invoice fst_currency 10))) in
  let! w := handle_at w alice
    (ctl (CtlCreatePayment (mkCreatePayment the_payment the_invoice snd_currency 10 bob))) in
  pfold (fun w (p : Uid * Z) =>
    let! w := handle_at w alice
      (ctl (CtlCreateTransaction (mkCreateTransaction the_payment p.1 (mkRoute [alice; bob]) p.2 0))) in
    deliver_all 20 w) w dest_payments.

(** Bob commits the invoice with the commit Alice obtained. *)
Definition commit_foreign : option network :=
  let! w := pay_foreign [(the_request, 10)] in
  let! c := head (commits w alice) in
  let! w := handle_at w bob (ctl (CtlCommitInvoice c)) in
  deliver_all 20 w.

(** Bob reports an inconsistency while Alice does not hold the token. *)
Definition sample_terms : ResetTerms := mkResetTerms (fixed_of_prefix 64 [Byte.x09]) 1 [].
Definition disputed : option network :=
  let! w := befriend network0 bob alice in
  let! w := handle_at w alice (IncFriend bob (MsgInconsistencyError sample_terms)) in
  handle_at w bob (IncFriend alice (MsgInconsistencyError sample_terms)).

(** Two friends of Bob use the same identifier for requests to Charlie. *)
Definition dave : PublicKey := fixed_of_prefix 32 [Byte.x07].
Definition same_request : option network :=
  let! w := requested 7 in
  let! w := befriend (mkNetwork (<[dave := fresh_node dave 180]> (nodes w)) (in_flight w) (outputs w)) bob dave in
  let! w := handle_all w dave
    [ctl (CtlCreatePayment (mkCreatePayment the_payment the_invoice fst_currency 10 charlie));
     ctl (CtlCreateTransaction (mkCreateTransaction the_payment the_request (mkRoute [dave; bob; charlie]) 10 7))] in
  Some w.

(** The next message in flight is for [pk], whose node panics on it. *)
Definition panics_next (w : network) (pk : PublicKey) : bool :=
  match in_flight w with
  | (src, dst, m) :: rest =>
      bool_decide (dst = pk) &&
      bool_decide (is_Some (nodes w !! pk)) &&
      bool_decide (handle_at (mkNetwork (nodes w) rest (outputs w)) dst (IncFriend src m) = None)
  | [] => false
  end.

(** A payment through a mediator, from fresh nodes to the acknowledged
    receipt: every message sent on the way is accepted, the mediator keeps
    exactly its fee, the two sides of each channel agree on opposite balances,
    the buyer gets a receipt that verifies under the seller's key, and no
    payment, transaction or invoice is left. With one credit less of fees the
    request is cancelled and nothing moves. *)
Theorem mediated_payment :
  summary <$> collected 7 =
    Some (Some (-17, 0, 0), Some (17, 0, 0), Some (-10, 0, 0), Some (10, 0, 0), ([true; true], 0, 0, 0)%nat) /\
  summary <$> requested 6 =
    Some (Some (0, 0, 0), Some (0, 0, 0), Some (0, 0, 0), Some (0, 0, 0), ([], 1, 1, 0)%nat) /\
  calc_fee bob_rate 10 = Some 7.
Proof. by vm_compute. Qed.

(** A request is matched with an invoice without comparing currencies: a
    node with an invoice in one currency accepts a partial payment in another
    one, and panics on the next request for this invoice. *)
Theorem foreign_currency_payment_panics :
  (fun w => balance_with w bob alice snd_currency) <$> pay_foreign [(the_request, 5)] = Some (Some (0, 0, 5)) /\
  pay_foreign [(the_request, 5); (uid_of Byte.x0a, 5)] = None.
Proof. split; by vm_compute. Qed.

(** Committing an invoice that was paid in another currency succeeds and
    removes the invoice, but collects nothing: the credits stay frozen. *)
Theorem foreign_currency_commit_collects_nothing :
  (fun w => (balance_with w bob alice fst_currency, balance_with w bob alice snd_currency, payments_open w bob))
    <$> commit_foreign = Some (Some (0, 0, 0), Some (0, 0, 10), 0%nat).
Proof. by vm_compute. Qed.

(** A user request to remove a currency of a friend panics when the
    channel with this friend is inconsistent. *)
Theorem remove_currency_panics :
  exists w, disputed = Some w /\
    handle_at w bob (ctl (CtlRemoveFriendCurrency (mkRemoveFriendCurrency alice fst_currency))) = None.
Proof.
  destruct disputed as [w|] eqn:E.
  - exists w. split; [done|].
    assert ((let! w := disputed in
      handle_at w bob (ctl (CtlRemoveFriendCurrency (mkRemoveFriendCurrency alice fst_currency)))) = None)
      as Hp by by vm_compute.
    by rewrite E in Hp.
  - assert (bool_decide (is_Some disputed) = true) as Hs by by vm_compute. by rewrite E in Hs.
Qed.

(** Two friends that route a request with the same identifier through a
    node make it panic when it sends the second one: the sender ignores that
    the request already exists and queues it again. *)
Theorem duplicate_request_panics :
  (fun w => panics_next w bob) <$> (let! w := same_request in deliver_all 2 w) = Some true.
Proof. by vm_compute. Qed.
End Scenario.
