(* ===== verification/Reset.v ===== *)
(** * Resetting a channel

    When the ends of a channel disagree, each offers reset terms computed from
    its own ledgers. The user of one node accepts the terms of the other:
    [apply_local_reset] ([sender.rs]) builds the reset token and
    [try_reset_channel] ([handle_friend.rs]) accepts it. Both ends then mirror
    each other again, and the protocol of [Channel] applies to them. *)

From S2P Require Import Prelude Arith Bytes Messages Canonical MutualCredit McTheory McPair TokenChannel TcTheory.
From S2P Require Import TcPair Channel Friend FunderState Report Handler Canceler HandleFriend Sender HandleControl.
From S2P Require Import FunderHandler.

Local Open Scope Z_scope.

(** ** Balances of reset terms *)

(** The balance a ledger is reset to: pending credits of the remote side are
    given to us. *)
Definition reset_balance (mc : MutualCredit) : Z := balance (mc_balance mc) + remote_pending_debt (mc_balance mc).

Definition cb_of (p : Currency * MutualCredit) : CurrencyBalance := mkCurrencyBalance p.1 (reset_balance p.2).

(** Sorted by currency, without repetitions, with balances that can be negated. *)
Record terms_ok (l : list CurrencyBalance) : Prop := {
  to_sorted : Sorted (fun x y => currency_le (cb_currency x) (cb_currency y)) l;
  to_nodup : NoDup (cb_currency <$> l);
  to_range : Forall (fun cb => i_ok 128 (cb_balance cb) /\ i_ok 128 (- cb_balance cb)) l
}.

Definition entries (l : list CurrencyBalance) : list (Currency * Z) :=
  (fun cb => (cb_currency cb, cb_balance cb)) <$> l.

Lemma mc_pair_reset mc :
  mc_pair mc (flip_mc mc) ->
  balance_for_reset mc = Some (reset_balance mc) /\ i_ok 128 (reset_balance mc) /\ i_ok 128 (- reset_balance mc).
Proof.
  intros ((Hb & _ & [Hr _] & Hm) & (Hb' & _) & _). unfold balance_for_reset, reset_balance. simpl in *.
  assert (i_ok 128 (balance (mc_balance mc) + remote_pending_debt (mc_balance mc)))
    by (unfold i_ok, i_min, i_max, u_ok, u_max in *; lia).
  rewrite SafeArithTheory.checked_add_unsigned_exact by done. rewrite checked_i_ok by done.
  split_and!; [done|done|]. unfold i_ok, i_min, i_max, u_ok, u_max in *; lia.
Qed.

Lemma sorted_fst_map {A} (f : Currency * A -> CurrencyBalance) l :
  (forall p, cb_currency (f p) = p.1) -> Sorted (@currency_entry_le A) l ->
  Sorted (fun x y => currency_le (cb_currency x) (cb_currency y)) (f <$> l).
Proof.
  intros Hf Hs. induction Hs as [|x l Hs IH Hd]; simpl; constructor; [done|].
  destruct Hd; simpl; constructor. by rewrite !Hf.
Qed.

(** The terms generated from the ledgers of a channel. *)
Lemma reset_balances_ok mcs :
  credits_pair mcs -> exists l, reset_balances mcs = Some l /\ terms_ok l /\
    list_to_map (entries l) = reset_balance <$> mcs.
Proof.
  intros Hp. exists (cb_of <$> merge_sort currency_entry_le (map_to_list mcs)).
  assert (Hperm := merge_sort_Permutation currency_entry_le (map_to_list mcs)).
  assert (forall p, p ∈ merge_sort currency_entry_le (map_to_list mcs) -> mc_pair p.2 (flip_mc p.2)) as Hin.
  { intros [c mc] Hi. rewrite Hperm, elem_of_map_to_list in Hi. exact (Hp c mc Hi). }
  split_and!.
  - unfold reset_balances. apply omap_all_Some. intros p Hi.
    destruct (mc_pair_reset _ (Hin p Hi)) as [-> _]. done.
  - split.
    + apply sorted_fst_map; [done|]. apply Sorted_merge_sort. intros x y. apply (total currency_le).
    + rewrite <- list_fmap_compose. change (NoDup ((fst : Currency * MutualCredit -> _) <$> merge_sort currency_entry_le (map_to_list mcs))).
      rewrite Hperm. apply NoDup_fst_map_to_list.
    + apply Forall_fmap, Forall_forall. intros p Hi. by destruct (mc_pair_reset _ (Hin p Hi)) as [_ ?].
  - unfold entries. rewrite <- list_fmap_compose.
    rewrite (list_to_map_proper _ ((fun p : Currency * MutualCredit => (p.1, reset_balance p.2)) <$> map_to_list mcs)).
    + rewrite <- (list_to_map_to_list (reset_balance <$> mcs)), map_to_list_fmap. done.
    + rewrite <- list_fmap_compose. change (NoDup ((fst : Currency * MutualCredit -> _) <$> merge_sort currency_entry_le (map_to_list mcs))).
      rewrite Hperm. apply NoDup_fst_map_to_list.
    + by rewrite Hperm.
Qed.

(** ** The two reset channels *)

Definition neg_cb (cb : CurrencyBalance) : CurrencyBalanceInfo :=
  mkCurrencyBalanceInfo (cb_currency cb) (mkBalanceInfo (- cb_balance cb) 0 0).

Lemma neg_reset_balances_ok l : terms_ok l -> neg_reset_balances l = Some (neg_cb <$> l).
Proof.
  intros Hok. apply omap_all_Some. intros cb Hin.
  destruct (proj1 (Forall_forall _ _) (to_range _ Hok) cb Hin) as [_ Hn]. by rewrite checked_i_ok.
Qed.

(** The ledgers of the side that offered the terms. *)
Definition reset_credits (l r : PublicKey) (cbs : list CurrencyBalance) : gmap Currency MutualCredit :=
  list_to_map ((fun cb => (cb_currency cb, mc_new l r (cb_currency cb) (cb_balance cb))) <$> cbs).

Lemma list_to_map_rev {A} (l : list (Currency * A)) :
  NoDup l.*1 -> list_to_map (M := gmap Currency A) (rev l) = list_to_map l.
Proof.
  intros Hn. symmetry. apply list_to_map_proper; [done|]. by rewrite reverse_Permutation || apply Permutation_rev.
Qed.

Lemma reset_credits_lookup l r cbs c mc :
  NoDup (cb_currency <$> cbs) ->
  reset_credits l r cbs !! c = Some mc <-> exists b, mkCurrencyBalance c b ∈ cbs /\ mc = mc_new l r c b.
Proof.
  intros Hn. unfold reset_credits. rewrite <- elem_of_list_to_map by by rewrite <- list_fmap_compose.
  rewrite list_elem_of_fmap. split.
  - intros ([c' b] & [= -> ->] & Hin). by exists b.
  - intros (b & Hin & ->). by exists (mkCurrencyBalance c b).
Qed.

Lemma flip_mc_new l r c b : flip_mc (mc_new l r c b) = mc_new r l c (- b).
Proof. done. Qed.

Section Channels.
Context `{CryptoOps} {B : Type} `{CanonicalSerialize B}.

(** The channel of the side that accepted the terms. *)
Lemma local_reset_credits l r cbs counter (mt : MoveToken B) opt_last :
  terms_ok cbs ->
  mutual_credits (new_from_local_reset mt (reset_token_info l r (neg_cb <$> cbs) counter) opt_last)
  = flip_mc <$> reset_credits r l cbs.
Proof.
  intros Hok. unfold new_from_local_reset. simpl. change (map ?f ?l) with (f <$> l).
  rewrite <- list_fmap_compose, list_to_map_rev.
  - unfold reset_credits. rewrite <- list_to_map_fmap. f_equal. rewrite <- list_fmap_compose.
    by apply list_fmap_ext.
  - rewrite <- list_fmap_compose. exact (to_nodup _ Hok).
Qed.

(** The channel of the side that offered them. *)
Lemma remote_reset_channel l r cbs counter (mt : MoveToken B) :
  terms_ok cbs ->
  new_from_remote_reset mt (reset_token_info r l (neg_cb <$> cbs) counter)
  = Some (mkTokenChannel
            (DirIncoming (mkTcIncoming (create_hashed mt (reset_token_info r l (neg_cb <$> cbs) counter))))
            (reset_credits l r cbs)
            (mkActiveCurrencies (dom (reset_credits l r cbs)) (dom (reset_credits l r cbs)))).
Proof.
  intros Hok. unfold new_from_remote_reset. simpl.
  rewrite (omap_all_Some _ (fun cbi => (cbi_currency cbi,
             mc_new l r (cbi_currency cbi) (- bi_balance (cbi_balance_info cbi))))).
  - simpl. rewrite <- list_fmap_compose, list_to_map_rev.
    + f_equal. unfold reset_credits.
      assert (forall X : list CurrencyBalance, ((fun cbi => (cbi_currency cbi,
         mc_new l r (cbi_currency cbi) (- bi_balance (cbi_balance_info cbi)))) ∘ neg_cb) <$> X
         = (fun cb => (cb_currency cb, mc_new l r (cb_currency cb) (cb_balance cb))) <$> X) as ->; [|done].
      intros X. apply list_fmap_ext. intros _ [c b] _. simpl. by rewrite Z.opp_involutive.
    + rewrite <- list_fmap_compose. exact (to_nodup _ Hok).
  - intros cbi Hin. apply list_elem_of_fmap in Hin as (cb & -> & Hin). simpl.
    destruct (proj1 (Forall_forall _ _) (to_range _ Hok) cb Hin) as [Hb _].
    rewrite Z.opp_involutive. by rewrite checked_i_ok.
Qed.

(** The canonical balances of the accepting side are the negated terms. *)
Lemma reset_balances_perm l r cbs :
  terms_ok cbs -> map cbi_of (map_to_list (flip_mc <$> reset_credits r l cbs)) ≡ₚ neg_cb <$> cbs.
Proof.
  intros Hok. change (map ?f ?x) with (f <$> x). unfold reset_credits.
  rewrite map_to_list_fmap, map_to_list_to_map by (rewrite <- list_fmap_compose; exact (to_nodup _ Hok)).
  rewrite <- !list_fmap_compose. apply Permutation_refl', list_fmap_ext. by intros _ [c b] _.
Qed.

Lemma reset_sorted_balances l r cbs :
  terms_ok cbs -> sorted_balances (flip_mc <$> reset_credits r l cbs) = neg_cb <$> cbs.
Proof.
  intros Hok. rewrite sorted_balances_alt. pose proof (reset_balances_perm l r cbs Hok) as Hperm.
  assert (Transitive cbi_le) by (intros x y z; apply (transitivity (R := currency_le))).
  apply (Sorted_unique_strong cbi_le); [| | |by rewrite merge_sort_Permutation].
  - intros x y Hx Hy Hxy Hyx. rewrite merge_sort_Permutation in Hx. rewrite <- Hperm in Hy.
    eapply cbi_keys_unique; [done..|]. by apply (anti_symm currency_le).
  - apply Sorted_merge_sort. intros x y. apply (total currency_le).
  - clear Hperm. destruct Hok as [Hs _ _]. induction Hs as [|x l' Hs IH Hd]; simpl; constructor; [done|].
    by destruct Hd; constructor.
Qed.

(** Accepted terms give two ends that mirror each other; the side that offered
    them holds the token. *)
Lemma reset_pair (pka pkb : PublicKey) cbs counter (mt : MoveToken B) opt_last :
  terms_ok cbs ->
  exists tcb, new_from_remote_reset mt (reset_token_info pka pkb (neg_cb <$> cbs) counter) = Some tcb /\
    mutual_credits tcb = reset_credits pkb pka cbs /\
    exists o, tc_pair pkb pka tcb
      (new_from_local_reset mt (reset_token_info pka pkb (neg_cb <$> cbs) counter) opt_last) o.
Proof.
  intros Hok. rewrite (remote_reset_channel pkb pka) by done. eexists. split; [done|]. split; [done|].
  pose proof (local_reset_credits pka pkb cbs counter mt opt_last Hok) as Hl.
  assert (dom (mutual_credits (new_from_local_reset mt (reset_token_info pka pkb (neg_cb <$> cbs) counter) opt_last))
          = dom (reset_credits pkb pka cbs)) as Hdom by by rewrite Hl, dom_fmap_L.
  eexists. constructor; [constructor|done|done|done|done| |done]; simpl.
  - exact Hl.
  - intros c mc Hc. apply reset_credits_lookup in Hc as (b & Hin & ->); [|apply Hok].
    destruct (proj1 (Forall_forall _ _) (to_range _ Hok) _ Hin) as [Hb Hb']. simpl in *.
    split_and!; [by apply mc_new_wf| |done]. rewrite flip_mc_new. by apply mc_new_wf.
  - intros c mc Hc. apply reset_credits_lookup in Hc as (b & Hin & ->); [done|apply Hok].
  - symmetry. exact Hdom.
  - symmetry. exact Hdom.
  - unfold calc_active. simpl. set_solver.
  - etrans; [symmetry; exact (reset_sorted_balances pka pkb cbs Hok)|]. f_equal. symmetry. exact Hl.
Qed.
End Channels.

(** ** The handlers *)

Section Handlers.
Context `{CryptoOps} `{RngOps} {B : Type} `{CanonicalSerialize B} `{EqDecision B} {E : Type}.

(** The channel status of a friend. *)
Definition status_with (c : Ctx B) (pk : PublicKey) : option (ChannelStatus B) :=
  channel_status <$> friends (state_of c) !! pk.

Lemma mutate_friend_run (c : Ctx B) pk f fm f' :
  friends (state_of c) !! pk = Some f -> friend_mutate f fm = Some f' ->
  exists c', mutate_friend (E := E) pk fm c = HOk tt c' /\ friends (state_of c') !! pk = Some f' /\
    state_of c' = with_friends (state_of c) (<[pk := f']> (friends (state_of c))) /\ cx_rng c' = cx_rng c.
Proof.
  unfold state_of, mutate_friend, mutate, m_mutate. simpl. intros -> . simpl. intros ->. simpl.
  eexists. split_and!; [done|simpl; apply lookup_insert_eq|done|done].
Qed.

(** Adding configurations does not change the channel. *)
Lemma add_missing_configs_run (c : Ctx B) pk l f :
  friends (state_of c) !! pk = Some f ->
  exists c' f', add_missing_configs (E := E) pk l c = HOk tt c' /\ friends (state_of c') !! pk = Some f' /\
    channel_status f' = channel_status f.
Proof.
  intros Hf. unfold add_missing_configs, hbind, get_state, hget, hunwrap. rewrite Hf. simpl.
  generalize (currency_configs f) as configs. intros configs. revert c f Hf.
  induction l as [|cb l IH]; intros c f Hf; simpl; [by exists c, f|]. unfold hbind at 1.
  case_bool_decide; simpl; [by apply IH|].
  destruct (mutate_friend_run c pk f (UpdateCurrencyConfig (cb_currency cb) currency_config_new) _ Hf eq_refl)
    as (c1 & -> & Hf1 & _). destruct (IH c1 _ Hf1) as (c' & f' & -> & Hf' & Hs). by exists c', f'.
Qed.

Lemma update_remote_relays_run (c : Ctx B) pk opt f :
  friends (state_of c) !! pk = Some f ->
  exists c' f', update_remote_relays (E := E) pk opt c = HOk tt c' /\ friends (state_of c') !! pk = Some f' /\
    channel_status f' = channel_status f.
Proof.
  intros Hf. unfold update_remote_relays, hbind, get_state, hget, hunwrap.
  destruct opt as [rs|]; [rewrite Hf; simpl|by exists c, f]. case_decide; [by exists c, f|].
  destruct (mutate_friend_run c pk f (SetRemoteRelays rs) _ Hf eq_refl) as (c1 & -> & Hf1 & _). by eexists _, _.
Qed.

(** Accepting terms: the channel becomes consistent, with the reset token out. *)
Lemma apply_local_reset_run (local_pk : PublicKey) `{!SignerOps local_pk} (c : Ctx B) pk ci f terms :
  friends (state_of c) !! pk = Some f -> opt_remote_reset_terms ci = Some terms ->
  terms_ok (rt_balance_for_reset terms) ->
  exists c' nonce,
    let ti := reset_token_info (fu_local_public_key (state_of c)) pk (neg_cb <$> rt_balance_for_reset terms)
                (rt_inconsistency_counter terms) in
    let mt := sign_move_token local_pk (create_unsigned_move_token []
                (Some (map relay_of_named (relays (state_of c)))) None ti (rt_reset_token terms) nonce) in
    apply_local_reset (E := E) local_pk pk ci c = HOk tt c' /\
    status_with c' pk = Some (Consistent (mkChannelConsistent
      (new_from_local_reset mt ti (opt_last_incoming_move_token ci)) [] [] [])).
Proof.
  intros Hf Ht Hok. unfold apply_local_reset, hbind, get_state, hget, hunwrap, rand_gen.
  rewrite Ht. simpl. rewrite Hf. simpl.
  match goal with |- context [mutate_friend pk ?fm c] =>
    destruct (mutate_friend_run c pk f fm _ Hf eq_refl) as (c1 & -> & Hf1 & _ & Hg) end.
  rewrite neg_reset_balances_ok by done. simpl. destruct (rng_fill 16 (cx_rng c1)) as [nonce g'].
  match goal with |- context [mutate_friend pk ?fm ?cx] =>
    destruct (mutate_friend_run cx pk _ fm _ Hf1 eq_refl) as (c2 & -> & Hf2 & _ & _) end.
  destruct (add_missing_configs_run c2 pk (rt_balance_for_reset terms) _ Hf2) as (c3 & f3 & -> & Hf3 & Hs).
  exists c3, nonce. split; [done|]. unfold status_with. rewrite Hf3. simpl. by rewrite Hs.
Qed.

(** The side that offered the terms accepts a matching reset token. *)
Lemma try_reset_channel_run (c : Ctx B) pk f terms (mt : MoveToken B) wanted tc :
  friends (state_of c) !! pk = Some f -> terms_ok (rt_balance_for_reset terms) ->
  let ti := reset_token_info pk (fu_local_public_key (state_of c)) (neg_cb <$> rt_balance_for_reset terms)
              (rt_inconsistency_counter terms) in
  mt_old_token mt = rt_reset_token terms -> mt_currencies_operations mt = [] ->
  mt_info_hash mt = hash_token_info ti -> verify_move_token mt pk = true ->
  new_from_remote_reset mt ti = Some tc ->
  exists c', try_reset_channel (E := E) pk terms (mkMoveTokenRequest mt wanted) c = HOk tt c' /\
    status_with c' pk = Some (Consistent (mkChannelConsistent tc [] [] [])).
Proof.
  intros Hf Hok ti Hold Hops Hhash Hv Htc. unfold try_reset_channel, hbind, get_state, hget.
  rewrite neg_reset_balances_ok by done. simpl. fold ti. rewrite Hold, Hops, Hhash, Hv, !bool_decide_true by done.
  simpl. rewrite Htc. simpl.
  destruct (mutate_friend_run c pk f (SetConsistent tc) _ Hf eq_refl) as (c1 & -> & Hf1 & _).
  destruct (add_missing_configs_run c1 pk (rt_balance_for_reset terms) _ Hf1) as (c2 & f2 & -> & Hf2 & Hs2).
  destruct (update_remote_relays_run c2 pk (mt_opt_local_relays mt) _ Hf2) as (c3 & f3 & -> & Hf3 & Hs3).
  simpl. assert (channel_status f3 = Consistent (mkChannelConsistent tc [] [] [])) as Hs by by rewrite Hs3, Hs2.
  destruct wanted; eexists; (split; [done|]); unfold status_with, state_of in *; simpl; by rewrite Hf3; simpl; rewrite Hs.
Qed.
End Handlers.

Lemma reset_credits_balance l r cbs c :
  NoDup (cb_currency <$> cbs) ->
  (fun mc => balance (mc_balance mc)) <$> reset_credits l r cbs !! c
  = (list_to_map (entries cbs) : gmap Currency Z) !! c.
Proof.
  intros Hn. unfold reset_credits, entries. rewrite <- lookup_fmap, <- list_to_map_fmap, <- list_fmap_compose. done.
Qed.

(** C3. Reset protocol. A node whose channel is inconsistent offers terms
    computed from its ledgers. When the other node accepts these terms, the
    token it creates is accepted by the node that offered them, both channels
    are consistent again, their ledgers mirror each other (so that the channel
    protocol goes on from there, the offering side holding the token), and the
    offering side keeps exactly its balances, the credits frozen for it by
    pending transactions included. Neither step panics. *)
Theorem reset_agreement `{CryptoOps} `{RngOps} {B : Type} `{CanonicalSerialize B} `{EqDecision B} {E : Type}
    (pka pkb : PublicKey) `{!SignerOps pka} `{!SignerOps pkb} (ca cb : Ctx B) fa fb cia cib mcs :
  fu_local_public_key (state_of ca) = pka -> fu_local_public_key (state_of cb) = pkb ->
  friends (state_of ca) !! pkb = Some fa -> friends (state_of cb) !! pka = Some fb ->
  channel_status fb = Inconsistent cib -> opt_remote_reset_terms cia = Some (local_reset_terms cib) ->
  credits_pair mcs -> reset_balances mcs = Some (rt_balance_for_reset (local_reset_terms cib)) ->
  exists ca' tca tob, apply_local_reset (E := E) pka pkb cia ca = HOk tt ca' /\
    status_with ca' pkb = Some (Consistent (mkChannelConsistent tca [] [] [])) /\ get_outgoing tca = Some tob /\
    forall wanted, exists cb' tcb,
      handle_move_token_request pka (mkMoveTokenRequest (create_outgoing_move_token tob) wanted) cb = HOk tt cb' /\
      status_with cb' pka = Some (Consistent (mkChannelConsistent tcb [] [] [])) /\
      chan_inv pka pkb (tca, tcb) /\ mirrored tca tcb /\
      forall c, (fun mc => balance (mc_balance mc)) <$> mutual_credits tcb !! c = reset_balance <$> mcs !! c.
Proof.
  intros Ha Hb Hfa Hfb Hst Hterms Hp Hbal. set (terms := local_reset_terms cib) in *.
  destruct (reset_balances_ok mcs Hp) as (l & Hl & Hok & Hmap). rewrite Hbal in Hl. injection Hl as <-.
  destruct (apply_local_reset_run (E := E) pka ca pkb cia fa terms Hfa Hterms Hok) as (ca' & nonce & Hrun & Hsa).
  rewrite Ha in Hsa.
  set (ti := reset_token_info pka pkb _ _) in Hsa. set (mt := sign_move_token pka _) in Hsa.
  destruct (reset_pair pka pkb (rt_balance_for_reset terms) (rt_inconsistency_counter terms) mt
    (opt_last_incoming_move_token cia) Hok) as (tcb & Htcb & Hmcb & o & Hpair).
  eexists ca', _, _. split_and!; [exact Hrun|exact Hsa|done|]. intros wanted.
  destruct (try_reset_channel_run (E := HandleFriendError) cb pka fb terms mt wanted tcb Hfb Hok)
    as (cb' & Hrunb & Hsb); try done; try (by rewrite Hb).
  { apply verify_signed_move_token. }
  exists cb', tcb. split_and!.
  - unfold handle_move_token_request, hbind, get_state, hget, hok_or. rewrite Hfb. simpl. rewrite Hst. exact Hrunb.
  - done.
  - right. left. by exists o.
  - eapply ledger_pair_mirrored_sym, tp_ledger, Hpair.
  - intros c. rewrite Hmcb, reset_credits_balance by apply Hok. by rewrite Hmap, lookup_fmap.
Qed.

Module ResetSamples.
Import Toy FunderSamples.

(** Bob's ledger with Alice, and the terms he offers. *)
Definition bob_credits : gmap Currency MutualCredit := {[ fst_currency := mc_new bob alice fst_currency 5 ]}.
Definition bob_terms : ResetTerms := mkResetTerms (fixed_of_prefix 64 [Byte.x09]) 1 [mkCurrencyBalance fst_currency 5].
Definition alice_terms : ResetTerms := mkResetTerms (fixed_of_prefix 64 [Byte.x0a]) 1 [].

Definition disputed_node (local remote : PublicKey) (own : ResetTerms) (other : option ResetTerms) : Ctx string :=
  initial_ctx
    (with_friends (funder_new local [])
       {[ remote := with_channel_status (friend_new local remote [] "friend")
                      (Inconsistent (mkChannelInconsistent None own other)) ]})
    ephemeral_new (fresh_node local 1).2.

Lemma bob_credits_pair : credits_pair bob_credits.
Proof. apply map_Forall_singleton. split_and!; [by apply mc_new_wf..|done]. Qed.

Lemma reset_agreement_witness :
  exists ca' tca, apply_local_reset (E := unit) alice bob (mkChannelInconsistent None alice_terms (Some bob_terms))
                    (disputed_node alice bob alice_terms (Some bob_terms)) = HOk tt ca' /\
    status_with ca' bob = Some (Consistent (mkChannelConsistent tca [] [] [])) /\
    exists tcb, chan_inv alice bob (tca, tcb) /\
      (fun mc => balance (mc_balance mc)) <$> mutual_credits tcb !! fst_currency = Some 5.
Proof.
  destruct (reset_agreement (E := unit) alice bob (disputed_node alice bob alice_terms (Some bob_terms))
    (disputed_node bob alice bob_terms None) _ _ (mkChannelInconsistent None alice_terms (Some bob_terms)) _
    bob_credits eq_refl eq_refl eq_refl eq_refl eq_refl eq_refl bob_credits_pair)
    as (ca' & tca & tob & Hr & Hs & _ & Hb); [by vm_compute|].
  destruct (Hb true) as (cb' & tcb & _ & _ & Hinv & _ & Hbal).
  exists ca', tca. split_and!; [done..|]. exists tcb. split; [done|]. exact (Hbal fst_currency).
Defined.
End ResetSamples.
