(* ===== verification/Requests.v ===== *)
(** * What a node does with a request

    The decision taken on an incoming request ([handle_friend.rs]): a mediator
    forwards it or cancels it, and a forwarded request carries the same payment
    and exactly this node's fee less; a seller accepts it while the invoice is
    not overpaid, and panics when a transaction of the invoice cannot be counted
    ([admissible], [countable] and [paid_for] say what this means). The searches over friends ([utils.rs]) find what they claim. *)

From S2P Require Import Prelude Arith Bytes Messages Canonical MutualCredit McTheory McPair TokenChannel TcTheory.
From S2P Require Import TcPair Channel Friend FunderState Report Handler Canceler HandleFriend Sender HandleControl.
From S2P Require Import FunderHandler Reset.

Local Open Scope Z_scope.

Section Requests.
Context `{CryptoOps} `{RngOps} {B : Type} `{CanonicalSerialize B} `{EqDecision B}.
Implicit Types s : FunderState B.

(** ** Searches *)

Lemma find_request_origin_Some s c id pk :
  find_request_origin s c id = Some pk ->
  exists f mc, friends s !! pk = Some f /\ friend_mc f c = Some mc /\ is_Some (pending_remote (mc_pending mc) !! id).
Proof.
  unfold find_request_origin. intros ([pk' f] & Hh & ->)%fmap_Some. simpl.
  apply head_Some_elem_of, list_elem_of_filter in Hh as [[p Hp] Hin]. simpl in Hp.
  apply elem_of_map_to_list in Hin. destruct (friend_mc f c) as [mc|] eqn:Em; [|done].
  exists f, mc. by split_and!; [..|exists p].
Qed.

Lemma find_request_origin_None s c id :
  find_request_origin s c id = None ->
  forall pk f mc, friends s !! pk = Some f -> friend_mc f c = Some mc -> pending_remote (mc_pending mc) !! id = None.
Proof.
  unfold find_request_origin. intros Hn pk f mc Hf Hmc.
  destruct (pending_remote (mc_pending mc) !! id) as [p|] eqn:Ep; [|done]. exfalso.
  assert ((pk, f) ∈ base.filter (fun q : PublicKey * FriendState B =>
    is_Some (mc ← friend_mc q.2 c; pending_remote (mc_pending mc) !! id)) (map_to_list (friends s))) as Hin.
  { apply list_elem_of_filter. split; [|by apply elem_of_map_to_list]. simpl. rewrite Hmc. by exists p. }
  destruct (base.filter _ _); [by apply not_elem_of_nil in Hin|done].
Qed.

(** ** Forwarding *)

(** The conditions under which a request from [remote] is forwarded to
    [next], and the request that is forwarded. *)
Record forwards s (e : Ephemeral) (remote : PublicKey) (c : Currency) (r : RequestSendFundsOp)
    (next : PublicKey) (rest : list PublicKey) (r' : RequestSendFundsOp) : Prop := {
  fw_source : exists f config fee, friends s !! remote = Some f /\ currency_configs f !! c = Some config /\
    cc_is_open config = true /\ calc_fee (cc_rate config) (rq_dest_payment r) = Some fee /\
    fee <= rq_left_fees r /\
    r' = mkRequest (rq_request_id r) (rq_src_hashed_lock r) (mkRoute rest) (rq_dest_payment r)
           (rq_total_dest_payment r) (rq_invoice_id r) (rq_left_fees r - fee);
  fw_dest : exists f config mc, friends s !! next = Some f /\ currency_configs f !! c = Some config /\
    cc_is_open config = true /\ is_online (liveness e) next = true /\ friend_mc f c = Some mc
}.

Lemma next_friend_ready_spec s e next c :
  (next_friend_ready s e next c = Some true <->
   exists f config mc, friends s !! next = Some f /\ currency_configs f !! c = Some config /\
     cc_is_open config = true /\ is_online (liveness e) next = true /\ friend_mc f c = Some mc) /\
  is_Some (next_friend_ready s e next c).
Proof.
  assert (forall P : Prop, ~ P -> (Some false = Some true <-> P) /\ is_Some (Some false)) as Hno
    by (intros P HP; split; [by split|by eexists]).
  unfold next_friend_ready, is_friend_ready. destruct (friends s !! next) as [f|] eqn:Ef; [|apply Hno; intros (f0 & cf & m & ? & ? & ? & ? & ?); congruence].
  destruct (currency_configs f !! c) as [config|] eqn:Ec; [|apply Hno; intros (f0 & cf & m & ? & ? & ? & ? & ?); congruence].
  destruct (cc_is_open config) eqn:Eo; [|apply Hno; intros (f0 & cf & m & ? & ? & ? & ? & ?); congruence]. simpl.
  destruct (is_online (liveness e) next) eqn:El; simpl; [|apply Hno; intros (f0 & cf & m & ? & ? & ? & ? & ?); congruence].
  destruct (friend_mc f c) as [mc|] eqn:Em.
  - split; [|by eexists]. split; [|done]. intros _. by exists f, config, mc.
  - rewrite bool_decide_false by by intros []. apply Hno. intros (f0 & cf & m & ? & ? & ? & ? & ?). congruence.
Qed.

Lemma take_fee_Some rate r r' :
  u_ok 128 (rq_left_fees r) ->
  take_fee rate r = Some r' <->
  exists fee, calc_fee rate (rq_dest_payment r) = Some fee /\ fee <= rq_left_fees r /\
    r' = mkRequest (rq_request_id r) (rq_src_hashed_lock r) (rq_route r) (rq_dest_payment r)
           (rq_total_dest_payment r) (rq_invoice_id r) (rq_left_fees r - fee).
Proof.
  intros Hl. unfold take_fee. destruct (calc_fee rate (rq_dest_payment r)) as [fee|] eqn:Ef; [|naive_solver].
  assert (0 <= fee) as Hfee by by apply checked_u_Some in Ef as [[Hf _] ->].
  unfold u_ok in Hl. destruct (checked_u 128 (rq_left_fees r - fee)) as [k|] eqn:Ek.
  - apply checked_u_Some in Ek as [[Hk _] ->]. split; [|naive_solver]. intros [= <-]. exists fee. split_and!; [done|lia|done].
  - split; [done|]. intros (fee' & [= <-] & Hle & _). rewrite checked_u_ok in Ek; [done|]. unfold u_ok. lia.
Qed.

(** The state after a push to the queue of a friend with a consistent channel. *)
Lemma push_run {E} (c : Ctx B) pk fm f cc :
  match fm with PushBackPendingRequest _ _ | PushBackPendingBackwardsOp _ _ => True | _ => False end ->
  friends (state_of c) !! pk = Some f -> channel_status f = Consistent cc ->
  exists c', (run! mutate_friend pk fm then send_command set_try_send pk) c = HOk (E := E) tt c' /\
    funder_mutate (state_of c) (FuFriendMutation pk fm) = Some (state_of c') /\
    cx_send c' = set_try_send (cx_send c) pk /\ cx_control c' = cx_control c.
Proof.
  intros Hfm Hf Hc. unfold hbind, mutate_friend, mutate, m_mutate, state_of in *. simpl. rewrite Hf. simpl.
  destruct fm; try done; simpl; unfold on_consistent; rewrite Hc; simpl; eexists; split_and!; done.
Qed.

(** A request was queued to a friend; nothing else happened. *)
Definition forwarded (cx cx' : Ctx B) (pk : PublicKey) (c : Currency) (r : RequestSendFundsOp) : Prop :=
  funder_mutate (state_of cx) (FuFriendMutation pk (PushBackPendingRequest c r)) = Some (state_of cx') /\
  cx_send cx' = set_try_send (cx_send cx) pk /\ cx_control cx' = cx_control cx.

(** A cancel was queued to a friend; nothing else happened. *)
Definition cancelled (cx cx' : Ctx B) (pk : PublicKey) (c : Currency) (request_id : Uid) : Prop :=
  funder_mutate (state_of cx)
    (FuFriendMutation pk (PushBackPendingBackwardsOp c (BackCancel (mkCancel request_id)))) = Some (state_of cx') /\
  cx_send cx' = set_try_send (cx_send cx) pk /\ cx_control cx' = cx_control cx.

Lemma reply_with_cancel_run {E} (cx : Ctx B) pk c id f cc :
  friends (state_of cx) !! pk = Some f -> channel_status f = Consistent cc ->
  exists cx', reply_with_cancel (E := E) pk c id cx = HOk tt cx' /\ cancelled cx cx' pk c id.
Proof.
  intros Hf Hc. exact (push_run cx pk (PushBackPendingBackwardsOp c (BackCancel (mkCancel id))) f cc I Hf Hc).
Qed.

Lemma forward_request_run {E} (cx : Ctx B) pk c r f mc :
  friends (state_of cx) !! pk = Some f -> friend_mc f c = Some mc ->
  exists cx', forward_request (E := E) c r pk cx = HOk tt cx' /\ forwarded cx cx' pk c r.
Proof.
  intros Hf Hc. unfold friend_mc in Hc. destruct (channel_status f) as [ci|cc] eqn:Es; [done|].
  exact (push_run cx pk (PushBackPendingRequest c r) f cc I Hf Es).
Qed.

(** The outcome of [handle_request_send_funds] for a request that is not for
    this node, as one decision. *)
Lemma handle_request_cases {E} (cx : Ctx B) remote c r next rest f :
  friends (state_of cx) !! remote = Some f -> u_ok 128 (rq_left_fees r) ->
  public_keys (rq_route r) = next :: rest ->
  let e := me_ephemeral (cx_ephemeral cx) in
  (exists r', forwards (state_of cx) e remote c r next rest r' /\
     handle_request_send_funds (E := E) remote c r cx = forward_request c r' next cx) \/
  ((forall r', ~ forwards (state_of cx) e remote c r next rest r') /\
     handle_request_send_funds (E := E) remote c r cx = reply_with_cancel remote c (rq_request_id r) cx).
Proof.
  intros Hf Hl Hroute e. unfold handle_request_send_funds, hbind, get_state, get_ephemeral, hget, hunwrap.
  rewrite Hroute, Hf. cbv beta iota delta [hret]. fold e. destruct (currency_configs f !! c) as [config|] eqn:Ec.
  2:{ right. split; [|done]. intros r' [(f' & ? & ? & ? & ? & _) _]. congruence. }
  destruct (cc_is_open config) eqn:Eo.
  2:{ right. split; [|done]. intros r' [(f' & ? & ? & ? & ? & ? & _) _]. congruence. }
  destruct (next_friend_ready_spec (state_of cx) e next c) as [Hr [ready Hready]]. rewrite Hready in *. cbv beta iota delta [hret].
  destruct ready.
  2:{ right. split; [|by case_match]. intros r' [_ Hd]. by apply Hr in Hd. }
  destruct (take_fee (cc_rate config) r) as [r1|] eqn:Et.
  - left. apply take_fee_Some in Et as (fee & Hfee & Hle & ->); [|done]. eexists. split; [|done]. split.
    + exists f, config, fee. split_and!; try done. unfold pop_route. simpl. by rewrite Hroute.
    + by apply Hr.
  - right. split; [|done]. intros r' [(f' & config' & fee & Hf' & Hc' & _ & Hfee & Hle & _) _].
    simplify_eq. assert (is_Some (take_fee (cc_rate config) r)) as [r2 Hs]; [|congruence].
    eexists. apply take_fee_Some; [done|]. by exists fee.
Qed.
End Requests.

(** C6. A mediator forwards a request or cancels it, and never panics. It is
    forwarded exactly when the currency is open with the friend that sent it,
    the fees left cover this node's fee for the payment, and the next friend of
    the route exists, is online and has the currency open and usable. The
    forwarded request is the same one with this node's fee taken from the fees
    left and this node removed from the route: the credits frozen on the
    incoming side exceed those frozen on the outgoing side by exactly the fee.
    Otherwise a cancel for the same request is queued to the friend. *)
Theorem request_forwarding `{CryptoOps} `{RngOps} {B : Type} `{CanonicalSerialize B} `{EqDecision B} {E : Type}
    (cx : Ctx B) (remote next : PublicKey) (rest : list PublicKey) (c : Currency) (r : RequestSendFundsOp) f cc :
  friends (state_of cx) !! remote = Some f -> channel_status f = Consistent cc ->
  u_ok 128 (rq_left_fees r) -> public_keys (rq_route r) = next :: rest ->
  let e := me_ephemeral (cx_ephemeral cx) in
  exists cx', handle_request_send_funds (E := E) remote c r cx = HOk tt cx' /\
    ((exists r' fee, forwards (state_of cx) e remote c r next rest r' /\ forwarded cx cx' next c r' /\ 0 <= fee /\
        frozen (create_pending_transaction r) = frozen (create_pending_transaction r') + fee) \/
     ((forall r', ~ forwards (state_of cx) e remote c r next rest r') /\
        cancelled cx cx' remote c (rq_request_id r))).
Proof.
  intros Hf Hcc Hl Hroute e.
  destruct (handle_request_cases (E := E) cx remote c r next rest f Hf Hl Hroute) as [(r' & Hfw & ->)|[Hno ->]].
  - destruct (fw_dest _ _ _ _ _ _ _ _ Hfw) as (nf & _ & mc & Hnf & _ & _ & _ & Hmc).
    destruct (forward_request_run (E := E) cx next c r' nf mc Hnf Hmc) as (cx' & -> & Hfd).
    exists cx'. split; [done|]. left.
    destruct (fw_source _ _ _ _ _ _ _ _ Hfw) as (_ & config & fee & _ & _ & _ & Hfee & _ & Hr').
    exists r', fee. split_and!; [done|done|by apply checked_u_Some in Hfee as [[? _] ->]|].
    rewrite Hr'. unfold frozen. simpl. lia.
  - destruct (reply_with_cancel_run (E := E) cx remote c (rq_request_id r) f cc Hf Hcc) as (cx' & -> & Hc).
    exists cx'. split; [done|]. by right.
Qed.

Section Seller.
Context `{CryptoOps} `{RngOps} {B : Type} `{CanonicalSerialize B} `{EqDecision B}.
Implicit Types s : FunderState B.

(** A request the seller may accept, when [paid] credits were paid before. *)
Definition acceptable (oi : OpenInvoice) (paid : Z) (r : RequestSendFundsOp) : Prop :=
  (oi_opt_src_hashed_lock oi = None \/ oi_opt_src_hashed_lock oi = Some (rq_src_hashed_lock r)) /\
  oi_total_dest_payment oi = rq_total_dest_payment r /\
  paid + rq_dest_payment r <= oi_total_dest_payment oi.

(** What a request must satisfy before the payments of the invoice are counted. *)
Definition admissible (oi : OpenInvoice) (r : RequestSendFundsOp) : Prop :=
  (oi_opt_src_hashed_lock oi = None \/ oi_opt_src_hashed_lock oi = Some (rq_src_hashed_lock r)) /\
  oi_total_dest_payment oi = rq_total_dest_payment r /\
  rq_dest_payment r <= rq_total_dest_payment r.

(** The amount of a transaction that a friend has pending with us. *)
Definition pending_amount s (c : Currency) (request_id : Uid) : Z :=
  match find_remote_pending_transaction s c request_id with
  | Some p => pt_dest_payment p
  | None => 0
  end.

Definition sum_amounts s (c : Currency) (ids : list Uid) : Z := fold_right (fun id acc => pending_amount s c id + acc) 0 ids.

(** The credits paid for an invoice by the transactions recorded in it. *)
Definition paid_for s (oi : OpenInvoice) : Z := sum_amounts s (oi_currency oi) (elements (oi_incoming_transactions oi)).

(** The transactions recorded in an invoice are pending in its currency, for
    its total, and their sum is a machine integer. *)
Definition counted s (oi : OpenInvoice) (request_id : Uid) : Prop :=
  exists p, find_remote_pending_transaction s (oi_currency oi) request_id = Some p /\
    pt_total_dest_payment p = oi_total_dest_payment oi.
Definition countable s (oi : OpenInvoice) : Prop :=
  (forall id, id ∈ oi_incoming_transactions oi -> counted s oi id) /\ paid_for s oi <= u_max 128.

(** Amounts of pending transactions are not negative. *)
Definition amounts_ok s (c : Currency) : Prop :=
  forall id p, find_remote_pending_transaction s c id = Some p -> 0 <= pt_dest_payment p.

Lemma pending_amount_nonneg s c id : amounts_ok s c -> 0 <= pending_amount s c id.
Proof. intros Ha. unfold pending_amount. destruct (find_remote_pending_transaction s c id) eqn:E; [by eapply Ha|lia]. Qed.

Lemma sum_amounts_nonneg s c ids : amounts_ok s c -> 0 <= sum_amounts s c ids.
Proof.
  intros Ha. induction ids as [|id ids IH]; simpl; [lia|]. pose proof (pending_amount_nonneg s c id Ha). lia.
Qed.

Lemma sum_amounts_perm s c ids ids' : ids ≡ₚ ids' -> sum_amounts s c ids = sum_amounts s c ids'.
Proof. induction 1; simpl; lia. Qed.

(** Counting stops at a transaction that is not pending, has another total or
    makes the sum overflow. *)
Lemma count_paid_spec s oi ids acc :
  amounts_ok s (oi_currency oi) -> 0 <= acc <= u_max 128 ->
  let count := pfold (fun acc request_id =>
    let! p := find_remote_pending_transaction s (oi_currency oi) request_id in
    if decide (pt_total_dest_payment p = oi_total_dest_payment oi)
    then checked_u 128 (acc + pt_dest_payment p) else None) acc ids in
  (count = Some (acc + sum_amounts s (oi_currency oi) ids) /\
     Forall (counted s oi) ids /\ acc + sum_amounts s (oi_currency oi) ids <= u_max 128) \/
  (count = None /\ ~ (Forall (counted s oi) ids /\ acc + sum_amounts s (oi_currency oi) ids <= u_max 128)).
Proof.
  intros Ha. revert acc. induction ids as [|id ids IH]; intros acc Hacc; simpl.
  { left. rewrite Z.add_0_r. split_and!; [done|by constructor|lia]. }
  destruct (find_remote_pending_transaction s (oi_currency oi) id) as [p|] eqn:Ef; simpl.
  2:{ right. split; [done|]. intros [(p & Hp & _)%Forall_inv _]. congruence. }
  assert (pending_amount s (oi_currency oi) id = pt_dest_payment p) as Hpa by (unfold pending_amount; by rewrite Ef).
  pose proof (Ha _ _ Ef) as Hp0. pose proof (sum_amounts_nonneg s (oi_currency oi) ids Ha) as Hs0.
  case_decide as Ht; simpl.
  2:{ right. split; [done|]. intros [(p' & Hp & Htt)%Forall_inv _]. congruence. }
  destruct (checked_u 128 (acc + pt_dest_payment p)) as [k|] eqn:Ek; simpl.
  - apply checked_u_Some in Ek as [Hk ->]. unfold u_ok in Hk.
    destruct (IH (acc + pt_dest_payment p) ltac:(lia)) as [(-> & Hall & Hle)|(-> & Hno)].
    + left. rewrite Hpa. split_and!; [f_equal; lia|constructor; [by exists p|done]|lia].
    + right. split; [done|]. intros [Hall Hle]. apply Hno. apply Forall_cons in Hall as [_ Hall]. split; [done|lia].
  - right. split; [done|]. intros [_ Hle]. rewrite checked_u_ok in Ek; [done|]. unfold u_ok. lia.
Qed.

Lemma countable_alt s oi :
  countable s oi <->
  Forall (counted s oi) (elements (oi_incoming_transactions oi)) /\
    0 + sum_amounts s (oi_currency oi) (elements (oi_incoming_transactions oi)) <= u_max 128.
Proof. unfold countable, paid_for. rewrite Forall_forall. setoid_rewrite elem_of_elements. by rewrite Z.add_0_l. Qed.

Lemma total_paid_spec s oi :
  amounts_ok s (oi_currency oi) ->
  (countable s oi /\ total_paid s oi = Some (paid_for s oi)) \/ (~ countable s oi /\ total_paid s oi = None).
Proof.
  intros Ha. rewrite countable_alt.
  destruct (count_paid_spec s oi (elements (oi_incoming_transactions oi)) 0 Ha ltac:(unfold u_max; lia))
    as [(Hc & Hok)|(Hc & Hno)]; [left|right]; (split; [done|]); exact Hc.
Qed.

Lemma check_request_spec s r oi :
  open_invoices s !! rq_invoice_id r = Some oi -> amounts_ok s (oi_currency oi) ->
  u_ok 128 (oi_total_dest_payment oi) -> u_ok 128 (rq_dest_payment r) ->
  (countable s oi /\ acceptable oi (paid_for s oi) r /\ check_request s r =
     Some (if paid_for s oi + rq_dest_payment r =? oi_total_dest_payment oi then CheckComplete else CheckSuccess)) \/
  ((admissible oi r -> countable s oi) /\ ~ acceptable oi (paid_for s oi) r /\ check_request s r = Some CheckFailure) \/
  (admissible oi r /\ ~ countable s oi /\ check_request s r = None).
Proof.
  intros Hoi Ha Ht Hd. pose proof (sum_amounts_nonneg s (oi_currency oi) (elements (oi_incoming_transactions oi)) Ha) as Hp0.
  change (0 <= paid_for s oi) in Hp0. unfold check_request, acceptable, admissible. rewrite Hoi.
  destruct (match oi_opt_src_hashed_lock oi with
            | Some l => negb (bool_decide (l = rq_src_hashed_lock r)) | None => false end) eqn:El.
  { right; left. assert (~ (oi_opt_src_hashed_lock oi = None \/ oi_opt_src_hashed_lock oi = Some (rq_src_hashed_lock r))) as Hno;
      [|by split_and!; [intros [? _]|intros [? _]|]].
    intros Hl. destruct (oi_opt_src_hashed_lock oi) as [l|]; [|done].
    apply negb_true_iff, bool_decide_eq_false in El. destruct Hl as [|Hl]; [done|]. congruence. }
  assert (oi_opt_src_hashed_lock oi = None \/ oi_opt_src_hashed_lock oi = Some (rq_src_hashed_lock r)) as Hlock.
  { destruct (oi_opt_src_hashed_lock oi) as [l|]; [right|by left].
    apply negb_false_iff, bool_decide_eq_true in El. by subst. }
  destruct (oi_total_dest_payment oi =? rq_total_dest_payment r) eqn:Et; simpl;
    [apply Z.eqb_eq in Et|right; left; split_and!; [intros (_ & Ht' & _); lia..|done]].
  unfold u_ok in *. destruct (rq_total_dest_payment r <? rq_dest_payment r) eqn:Ed;
    [right; left; split_and!; [intros (_ & _ & Hle); lia..|done]|].
  destruct (total_paid_spec s oi Ha) as [[Hco ->]|[Hno ->]]; simpl.
  2:{ right; right. split_and!; [done..|lia|done|done]. }
  destruct (checked_u 128 (paid_for s oi + rq_dest_payment r)) as [k|] eqn:Ek.
  - apply checked_u_Some in Ek as [Hk ->].
    destruct (Z.compare_spec (paid_for s oi + rq_dest_payment r) (oi_total_dest_payment oi)) as [E|E|E].
    + left. split_and!; [done..|lia|]. by rewrite (proj2 (Z.eqb_eq _ _) E).
    + left. split_and!; [done..|lia|]. rewrite (proj2 (Z.eqb_neq _ _)); [done|lia].
    + right; left. split_and!; [done| |done]. intros (_ & _ & Hle). lia.
  - right; left. split_and!; [done| |done]. intros (_ & _ & Hle). rewrite checked_u_ok in Ek; [done|]. unfold u_ok. lia.
Qed.

(** An accepted request is recorded in its invoice, and a response to it is
    queued for signing. *)
Definition accepted (cx cx' : Ctx B) (remote : PublicKey) (c : Currency) (r : RequestSendFundsOp)
    (oi : OpenInvoice) (is_complete : bool) : Prop :=
  state_of cx' = with_invoices (state_of cx)
    (<[rq_invoice_id r := mkOpenInvoice (oi_currency oi) (oi_total_dest_payment oi) (oi_dest_plain_lock oi)
         (Some (rq_src_hashed_lock r)) ({[rq_request_id r]} ∪ oi_incoming_transactions oi)]>
       (open_invoices (state_of cx))) /\
  ms_unsigned_responses (cx_state cx') =
    ms_unsigned_responses (cx_state cx) ++ [mkSemiResponse remote c (create_pending_transaction r) is_complete] /\
  cx_send cx' = set_try_send (cx_send cx) remote.

Lemma accept_request_run {E} (cx : Ctx B) remote c r oi paid b :
  open_invoices (state_of cx) !! rq_invoice_id r = Some oi -> acceptable oi paid r ->
  exists cx', accept_request (E := E) remote c r b cx = HOk tt cx' /\ accepted cx cx' remote c r oi b.
Proof.
  intros Hoi [Hlock _]. unfold accept_request, hbind, get_state, hget, hunwrap. rewrite Hoi.
  cbv beta iota delta [hret]. unfold accepted, mutate, m_mutate, state_of in *.
  destruct Hlock as [Hl|Hl]; rewrite Hl.
  - cbn [funder_mutate]. rewrite Hoi. cbv beta iota delta [opt_bind]. rewrite Hl. simpl.
    rewrite lookup_insert_eq. simpl. eexists. split_and!; [done| |done..]. simpl. unfold with_invoices. simpl.
    by rewrite insert_insert_eq.
  - cbn [funder_mutate ms_state cx_state]. rewrite Hoi. cbv beta iota delta [opt_bind]. simpl. rewrite Hl.
    eexists. split_and!; [done|done..].
Qed.
(** The invoice after an accepted request: it can be counted again when the
    request was made in its currency, and not otherwise. *)
Lemma accepted_countable cx cx' remote c r oi oi' b :
  accepted cx cx' remote c r oi b -> open_invoices (state_of cx') !! rq_invoice_id r = Some oi' ->
  u_ok 128 (oi_total_dest_payment oi) -> countable (state_of cx) oi -> acceptable oi (paid_for (state_of cx) oi) r ->
  rq_request_id r ∉ oi_incoming_transactions oi ->
  (find_remote_pending_transaction (state_of cx) (oi_currency oi) (rq_request_id r) =
     Some (create_pending_transaction r) ->
   countable (state_of cx') oi' /\
   paid_for (state_of cx') oi' = paid_for (state_of cx) oi + rq_dest_payment r) /\
  (find_remote_pending_transaction (state_of cx) (oi_currency oi) (rq_request_id r) = None ->
   ~ countable (state_of cx') oi').
Proof.
  intros (Hst & _) Hoi' Ht [Hall _] (_ & Htot & Hle) Hnew. rewrite Hst in Hoi' |- *. simpl in Hoi'.
  rewrite lookup_insert_eq in Hoi'. injection Hoi' as <-. unfold u_ok in Ht.
  split; intros Hfind.
  - assert (paid_for (with_invoices (state_of cx) (<[rq_invoice_id r := mkOpenInvoice (oi_currency oi) (oi_total_dest_payment oi)
      (oi_dest_plain_lock oi) (Some (rq_src_hashed_lock r)) ({[rq_request_id r]} ∪ oi_incoming_transactions oi)]>
      (open_invoices (state_of cx)))) (mkOpenInvoice (oi_currency oi) (oi_total_dest_payment oi)
      (oi_dest_plain_lock oi) (Some (rq_src_hashed_lock r)) ({[rq_request_id r]} ∪ oi_incoming_transactions oi))
      = paid_for (state_of cx) oi + rq_dest_payment r) as Hpaid.
    { unfold paid_for. simpl.
      rewrite (sum_amounts_perm _ _ _ _ (elements_union_singleton (oi_incoming_transactions oi) (rq_request_id r) Hnew)). simpl.
      assert (pending_amount (state_of cx) (oi_currency oi) (rq_request_id r) = rq_dest_payment r) as Hr
        by (unfold pending_amount; by rewrite Hfind).
      unfold sum_amounts, pending_amount, find_remote_pending_transaction in *. simpl. lia. }
    split; [split|exact Hpaid]; [|rewrite Hpaid; lia]. simpl.
    intros id [->%elem_of_singleton|Hid]%elem_of_union; [|by apply Hall].
    by exists (create_pending_transaction r).
  - intros [Hall' _]. destruct (Hall' (rq_request_id r)) as (p & Hp & _); [simpl; set_solver|].
    change (find_remote_pending_transaction (state_of cx) (oi_currency oi) (rq_request_id r) = Some p) in Hp. congruence.
Qed.
End Seller.

(** C7. What the destination of a request does with it, for any state of the
    invoice it names. It accepts the request exactly when the lock is the one
    of the payment, the total is the invoice's total, and the credits paid by
    the recorded transactions plus this payment do not exceed it; the request
    is then added to the invoice with the lock fixed, and a response is queued
    that is marked complete exactly when the invoice is fully paid. Otherwise a
    cancel is queued, and only an admissible request for an invoice with a
    transaction that cannot be counted panics. When an accepted request is
    pending in the currency of the invoice, its invoice can be counted again,
    with its amount added: an invoice whose requests are made in its currency
    is never overpaid. The currency of the request is not compared with that
    of the invoice: a request that is accepted in another currency cannot be
    counted afterwards. *)
Theorem request_at_seller `{CryptoOps} `{RngOps} {B : Type} `{CanonicalSerialize B} `{EqDecision B} {E : Type}
    (cx : Ctx B) (remote : PublicKey) (c : Currency) (r : RequestSendFundsOp) f cc oi :
  friends (state_of cx) !! remote = Some f -> channel_status f = Consistent cc ->
  public_keys (rq_route r) = [] -> open_invoices (state_of cx) !! rq_invoice_id r = Some oi ->
  amounts_ok (state_of cx) (oi_currency oi) -> u_ok 128 (oi_total_dest_payment oi) -> u_ok 128 (rq_dest_payment r) ->
  let s := state_of cx in
  match handle_request_send_funds (E := E) remote c r cx with
  | HOk _ cx' =>
      (acceptable oi (paid_for s oi) r /\ countable s oi /\
       accepted cx cx' remote c r oi (paid_for s oi + rq_dest_payment r =? oi_total_dest_payment oi) /\
       forall oi', open_invoices (state_of cx') !! rq_invoice_id r = Some oi' ->
         rq_request_id r ∉ oi_incoming_transactions oi ->
         (find_remote_pending_transaction s (oi_currency oi) (rq_request_id r) = Some (create_pending_transaction r) ->
          countable (state_of cx') oi' /\ paid_for (state_of cx') oi' = paid_for s oi + rq_dest_payment r) /\
         (find_remote_pending_transaction s (oi_currency oi) (rq_request_id r) = None ->
          ~ countable (state_of cx') oi')) \/
      (~ acceptable oi (paid_for s oi) r /\ (admissible oi r -> countable s oi) /\
       cancelled cx cx' remote c (rq_request_id r))
  | HErr _ _ => False
  | HPanic => admissible oi r /\ ~ countable s oi
  end.
Proof.
  intros Hf Hcc Hroute Hoi Ha Ht Hd s. subst s.
  unfold handle_request_send_funds, hbind, get_state, get_ephemeral, hget. rewrite Hroute.
  destruct (check_request_spec (state_of cx) r oi Hoi Ha Ht Hd) as [(Hco & Hacc & ->)|[(Hco & Hno & ->)|(Hadm & Hco & ->)]];
    cbv beta iota delta [hret hunwrap]; [..|done].
  - destruct (paid_for (state_of cx) oi + rq_dest_payment r =? oi_total_dest_payment oi);
      [destruct (accept_request_run (E := E) cx remote c r oi (paid_for (state_of cx) oi) true Hoi Hacc) as (cx' & -> & Hr)
      |destruct (accept_request_run (E := E) cx remote c r oi (paid_for (state_of cx) oi) false Hoi Hacc) as (cx' & -> & Hr)];
      left; refine (conj Hacc (conj Hco (conj Hr _))); intros oi' Hoi' Hnew; by eapply accepted_countable.
  - destruct (reply_with_cancel_run (E := E) cx remote c (rq_request_id r) f cc Hf Hcc) as (cx' & -> & Hc).
    by right.
Qed.

(** A cancel that comes back is routed to where the request came from: to
    a friend that has this request pending with us if there is one (and
    then nothing but its queue changes), and to the user, with the failure
    reported and the transaction removed from its payment, exactly when no
    friend has it pending. *)
Theorem cancel_routing `{CryptoOps} `{RngOps} {B : Type} `{CanonicalSerialize B} `{EqDecision B} {E : Type}
    (cx cx' : Ctx B) (c : Currency) (r : CancelSendFundsOp) (pending : PendingTransaction) :
  handle_cancel_send_funds (E := E) c r pending cx = HOk tt cx' ->
  (exists pk f mc, friends (state_of cx) !! pk = Some f /\ friend_mc f c = Some mc /\
     is_Some (pending_remote (mc_pending mc) !! cn_request_id r) /\ cancelled cx cx' pk c (cn_request_id r)) \/
  ((forall pk f mc, friends (state_of cx) !! pk = Some f -> friend_mc f c = Some mc ->
      pending_remote (mc_pending mc) !! cn_request_id r = None) /\
   exists cx1, remove_transaction (E := E) (cn_request_id r) cx = HOk tt cx1 /\ state_of cx' = state_of cx1 /\
     cx_control cx' = cx_control cx1 ++
       [OutTransactionResult (mkTransactionResult (pt_request_id pending) RequestFailure)]).
Proof.
  unfold handle_cancel_send_funds, hbind, get_state, hget.
  destruct (find_request_origin (state_of cx) c (cn_request_id r)) as [pk|] eqn:Eo.
  - apply find_request_origin_Some in Eo as (f & mc & Hf & Hmc & Hpend). intros Hrun. left. exists pk, f, mc.
    split_and!; [done..|]. pose proof Hmc as Hm. unfold friend_mc in Hm.
    destruct (channel_status f) as [|cc] eqn:Es; [done|].
    destruct (reply_with_cancel_run (E := E) cx pk c (cn_request_id r) f cc Hf Es) as (cx1 & Hr & Hc).
    unfold reply_with_cancel, create_cancel_send_funds, hbind in Hr. destruct r as [id]. simpl in *.
    rewrite Hr in Hrun. by injection Hrun as ->.
  - intros Hrun. right. split; [intros pk f mc; by eapply find_request_origin_None|].
    destruct (remove_transaction (cn_request_id r) cx) as [[] cx1|e cx1|]; [|done..].
    exists cx1. injection Hrun as <-. done.
Qed.

Module RequestSamples.
Import Toy FunderSamples.

Definition carol : PublicKey := fixed_of_prefix 32 [Byte.x03].

(** A friend whose channel is consistent with one usable currency. *)
Definition open_friend (local remote : PublicKey) (pending : gmap Uid PendingTransaction) : FriendState string :=
  with_currency_configs
    (with_channel_status (friend_new local remote [] "friend")
       (Consistent (mkChannelConsistent
          (mkTokenChannel (direction (tc_new local remote))
             {[ fst_currency := mkMutualCredit (mkMcIdents local remote) fst_currency (mkMcBalance 0 0 0)
                                  (mkMcPending ∅ pending) ]}
             (mkActiveCurrencies {[ fst_currency ]} {[ fst_currency ]})) [] [] [])))
    {[ fst_currency := mkCurrencyConfig (mkRate 0 3) 100 true ]}.

Definition sample_request (route : list PublicKey) : RequestSendFundsOp :=
  mkRequest (uid_of Byte.x05) (fixed_of_prefix 32 []) (mkRoute route) 10 10 (invoice_of Byte.x04) 7.

Definition mediator_ctx (invoices : gmap InvoiceId OpenInvoice) (pending : gmap Uid PendingTransaction) : Ctx string :=
  initial_ctx
    (with_invoices
       (with_friends (funder_new bob []) {[ alice := open_friend bob alice pending; carol := open_friend bob carol ∅ ]})
       invoices)
    (mkEphemeral (mkLiveness {[ alice; carol ]})) (fresh_node bob 1).2.

Lemma request_forwarding_witness :
  exists cx' r', handle_request_send_funds (E := unit) alice fst_currency (sample_request [carol]) (mediator_ctx ∅ ∅)
    = HOk tt cx' /\ rq_left_fees r' = 4 /\ forwarded (mediator_ctx ∅ ∅) cx' carol fst_currency r'.
Proof.
  destruct (request_forwarding (E := unit) (mediator_ctx ∅ ∅) alice carol [] fst_currency (sample_request [carol])
    (open_friend bob alice ∅) _ eq_refl eq_refl) as (cx' & Hrun & [(r' & fee & Hfw & Hfd & _)|[Hno _]]).
  - unfold u_ok. simpl. unfold u_max. lia.
  - done.
  - exists cx', r'. split_and!; [done| |done].
    destruct (fw_source _ _ _ _ _ _ _ _ Hfw) as (f & config & k & [= <-] & [= <-] & _ & Hk & _ & ->).
    vm_compute in Hk. injection Hk as <-. done.
  - exfalso. eapply Hno. split.
    + eexists _, _, 3. split_and!; [done..|vm_compute; discriminate|reflexivity].
    + eexists _, _, _. split_and!; done.
Defined.

Definition sample_invoice : OpenInvoice := mkOpenInvoice fst_currency 10 (fixed_of_prefix 32 []) None ∅.

Lemma sample_invoice_open :
  open_invoices (state_of (mediator_ctx {[ invoice_of Byte.x04 := sample_invoice ]} ∅)) !! rq_invoice_id (sample_request [])
  = Some sample_invoice.
Proof. apply lookup_singleton_eq. Qed.

Definition seller_ctx : Ctx string :=
  mediator_ctx {[ invoice_of Byte.x04 := sample_invoice ]}
    {[ uid_of Byte.x05 := create_pending_transaction (sample_request []) ]}.

Lemma seller_pending id p :
  find_remote_pending_transaction (state_of seller_ctx) fst_currency id = Some p ->
  p = create_pending_transaction (sample_request []).
Proof.
  intros Hp%head_Some_elem_of. apply list_elem_of_omap in Hp as ([pk f] & Hin & Hp).
  apply elem_of_map_to_list in Hin. simpl in Hin.
  apply lookup_insert_Some in Hin as [[_ <-]|[_ Hin]]; [|apply lookup_singleton_Some in Hin as [_ <-]];
    unfold friend_mc, open_friend in Hp; simpl in Hp; rewrite lookup_singleton_eq in Hp; simpl in Hp.
  - by apply lookup_singleton_Some in Hp as [_ <-].
  - by rewrite lookup_empty in Hp.
Qed.

Lemma seller_recorded :
  find_remote_pending_transaction (state_of seller_ctx) fst_currency (uid_of Byte.x05)
  = Some (create_pending_transaction (sample_request [])).
Proof. vm_compute. reflexivity. Qed.
Lemma seller_unpaid : paid_for (state_of seller_ctx) sample_invoice = 0.
Proof. vm_compute. reflexivity. Qed.

(** The whole invoice is paid by one request in its currency. *)
Lemma request_at_seller_witness :
  exists cx', handle_request_send_funds (E := Empty_set) alice fst_currency (sample_request []) seller_ctx = HOk tt cx' /\
    accepted seller_ctx cx' alice fst_currency (sample_request []) sample_invoice true /\
    exists oi', open_invoices (state_of cx') !! invoice_of Byte.x04 = Some oi' /\
      countable (state_of cx') oi' /\ paid_for (state_of cx') oi' = 10.
Proof.
  pose proof (request_at_seller (E := Empty_set) seller_ctx alice fst_currency (sample_request [])
    (open_friend bob alice {[ uid_of Byte.x05 := create_pending_transaction (sample_request []) ]}) _ sample_invoice
    eq_refl eq_refl eq_refl (lookup_singleton_eq _ _)) as Hsel. simpl in Hsel.
  assert (acceptable sample_invoice (paid_for (state_of seller_ctx) sample_invoice) (sample_request [])) as Hacc.
  { split_and!; [by left|done|vm_compute; discriminate]. }
  destruct (handle_request_send_funds (E := Empty_set) alice fst_currency (sample_request []) seller_ctx)
    as [[] cx'|e cx'|] eqn:Er.
  - exists cx'. split; [done|].
    destruct Hsel as [(_ & _ & Hin & Hafter)|[Hno _]]; [..|by destruct Hno].
    + intros id p ->%seller_pending. done.
    + unfold u_ok. simpl. unfold u_max. lia.
    + unfold u_ok. simpl. unfold u_max. lia.
    + split; [exact Hin|]. destruct Hin as (Hst & _). eexists.
      assert (open_invoices (state_of cx') !! invoice_of Byte.x04 = Some _) as Hoi
        by (rewrite Hst; apply lookup_insert_eq).
      split; [exact Hoi|].
      destruct (proj1 (Hafter _ Hoi (not_elem_of_empty _)) seller_recorded) as [Hcount Hpaid].
      split; [exact Hcount|]. by rewrite Hpaid, seller_unpaid.
  - destruct e.
  - exfalso. assert ((match handle_request_send_funds (E := Empty_set) alice fst_currency (sample_request []) seller_ctx
      with HPanic => false | _ => true end) = true) as Hp by by vm_compute.
    by rewrite Er in Hp.
Defined.

Definition waiting : gmap Uid PendingTransaction :=
  {[ uid_of Byte.x05 := create_pending_transaction (sample_request [carol]) ]}.

Lemma cancel_routing_witness :
  exists cx', handle_cancel_send_funds (E := Empty_set) fst_currency (mkCancel (uid_of Byte.x05))
                (create_pending_transaction (sample_request [])) (mediator_ctx ∅ waiting) = HOk tt cx' /\
    exists pk, cancelled (mediator_ctx ∅ waiting) cx' pk fst_currency (uid_of Byte.x05).
Proof.
  destruct (handle_cancel_send_funds (E := Empty_set) fst_currency (mkCancel (uid_of Byte.x05))
    (create_pending_transaction (sample_request [])) (mediator_ctx ∅ waiting)) as [[] cx'|e cx'|] eqn:Er.
  - exists cx'. split; [done|].
    destruct (cancel_routing (E := Empty_set) _ _ _ _ _ Er) as [(pk & f & mc & _ & _ & _ & Hc)|[Hno _]].
    + by exists pk.
    + specialize (Hno alice (open_friend bob alice waiting) _ eq_refl eq_refl). vm_compute in Hno. discriminate.
  - destruct e.
  - assert ((match handle_cancel_send_funds (E := Empty_set) fst_currency (mkCancel (uid_of Byte.x05))
      (create_pending_transaction (sample_request [])) (mediator_ctx ∅ waiting) with HPanic => false | _ => true end)
      = true) as Hp by by vm_compute.
    by rewrite Er in Hp.
Defined.
End RequestSamples.
