(* ===== verification/Batch.v ===== *)
(** * Batches of operations ([funder/src/handler/sender.rs])

    A move token carries a bounded batch of the operations that wait in the
    queues of a friend. Draining a queue moves a prefix of it into the batch:
    no operation is lost, repeated or reordered, and the bound is respected. *)

From S2P Require Import Prelude Arith Bytes Messages Canonical MutualCredit McTheory McPair TokenChannel TcTheory.
From S2P Require Import TcPair Channel Friend FunderState Report Handler Canceler HandleFriend Sender HandleControl.
From S2P Require Import FunderHandler Reset Requests.

Local Open Scope nat_scope.

(** The operations of a batch in one currency. *)
Definition ops_of {B} (p : PendingMoveToken B) (c : Currency) : list FriendTcOp :=
  match pm_pending_currencies p !! c with Some pc => pc_operations pc | None => [] end.

Definition total_ops {B} (p : PendingMoveToken B) : nat := num_operations (pm_pending_currencies p).

Lemma num_operations_insert (m : gmap Currency PendingCurrency) c pc :
  m !! c = None -> num_operations (<[c := pc]> m) = length (pc_operations pc) + num_operations m.
Proof.
  intros Hc. unfold num_operations. change (map ?f ?l) with (f <$> l). by rewrite map_to_list_insert.
Qed.

Lemma num_operations_push (m : gmap Currency PendingCurrency) c mc old op :
  old = match m !! c with Some pc => pc_operations pc | None => [] end ->
  num_operations (<[c := mkPendingCurrency mc (old ++ [op])]> m) = S (num_operations m).
Proof.
  intros ->. destruct (m !! c) as [pc|] eqn:Ec.
  - rewrite <- (insert_delete_id m c pc Ec) at 2. rewrite <- (insert_delete_eq m).
    rewrite !num_operations_insert by apply lookup_delete_eq. simpl. rewrite length_app. simpl. lia.
  - rewrite num_operations_insert by done. done.
Qed.

Section Batch.
Context `{CryptoOps} `{RngOps} {B : Type} `{CanonicalSerialize B} `{EqDecision B} {E : Type}.
Implicit Types p : PendingMoveToken B.

(** One operation added to a batch. *)
Definition adds p p' (c : Currency) (op : FriendTcOp) : Prop :=
  total_ops p < pm_max_operations_in_batch p /\ total_ops p' = S (total_ops p) /\
  pm_max_operations_in_batch p' = pm_max_operations_in_batch p /\
  forall c', ops_of p' c' = ops_of p c' ++ (if decide (c = c') then [op] else []).

Lemma sender_queue_run p c op (cx cx' : Ctx B) res :
  sender_queue_operation (E := E) p c op cx = HOk res cx' ->
  cx' = cx /\
  if snd res : bool then adds p (fst res) c op
  else pm_max_operations_in_batch p <= total_ops p /\ fst res = pm_set_token_wanted p.
Proof.
  unfold sender_queue_operation, pending_queue_operation. unfold hbind at 1.
  destruct (pm_max_operations_in_batch p <=? num_operations (pm_pending_currencies p)) eqn:Em.
  - intros [= <- <-]. simpl. split; [done|]. split; [|done]. by apply Nat.leb_le.
  - apply Nat.leb_gt in Em. unfold consistent_channel, hbind, get_state, hget, hunwrap, hret, hpanic.
    intros Hrun. repeat (case_match; simplify_eq; try done); simpl; (split; [done|]);
      (split_and!; [done|unfold total_ops; simpl; apply num_operations_push; by case_match|done|]);
      intros c'; unfold ops_of; simpl; (case_decide as Hc;
        [subst; rewrite lookup_insert_eq; simpl; by case_match|rewrite lookup_insert_ne by done; by rewrite app_nil_r]).
Qed.

(** The effect of draining a queue of a friend. *)
Record drained {A} (to_op : A -> FriendTcOp) p p' (queue taken rest : list (Currency * A)) (all : bool) : Prop := {
  dr_split : queue = taken ++ rest;
  dr_all : all = true <-> rest = [];
  dr_count : total_ops p' = total_ops p + length taken;
  dr_max : pm_max_operations_in_batch p' = pm_max_operations_in_batch p;
  dr_full : rest <> [] -> total_ops p' >= pm_max_operations_in_batch p;
  dr_bound : total_ops p <= pm_max_operations_in_batch p -> total_ops p' <= pm_max_operations_in_batch p;
  dr_ops : forall c, ops_of p' c = ops_of p c ++ map (fun x => to_op x.2) (base.filter (fun x => x.1 = c) taken)
}.

(** [pop] removes the head of the queue [q]. *)
Definition pops {A} (pop : FriendMutation B) (q : ChannelConsistent B -> list (Currency * A)) : Prop :=
  forall f cc f', channel_status f = Consistent cc -> friend_mutate f pop = Some f' ->
    exists cc', channel_status f' = Consistent cc' /\ q cc' = tail (q cc).

Lemma drained_step {A} (to_op : A -> FriendTcOp) p p1 p' c x queue taken rest all :
  adds p p1 c (to_op x) -> drained to_op p1 p' queue taken rest all ->
  drained to_op p p' ((c, x) :: queue) ((c, x) :: taken) rest all.
Proof.
  intros (Hlt & Ht & Hm & Hops) [Hs Ha Hc Hm' Hf Hb Ho]. split.
  - by rewrite Hs.
  - done.
  - simpl. lia.
  - by rewrite Hm'.
  - intros Hr. specialize (Hf Hr). lia.
  - intros _. rewrite <- Hm. apply Hb. lia.
  - intros c'. rewrite Ho, Hops, <- app_assoc. f_equal. rewrite filter_cons. simpl. by case_decide.
Qed.

Lemma drain_run {A} (to_op : A -> FriendTcOp) pop q pk queue :
  pops pop q -> forall p (cx cx' : Ctx B) res f cc,
  friends (state_of cx) !! pk = Some f -> channel_status f = Consistent cc -> q cc = queue ->
  drain (E := E) to_op pop pk queue p cx = HOk res cx' ->
  exists taken rest f' cc', friends (state_of cx') !! pk = Some f' /\ channel_status f' = Consistent cc' /\
    q cc' = rest /\ drained to_op p (fst res) queue taken rest (snd res).
Proof.
  intros Hpop. induction queue as [|[c x] queue IH]; intros p cx cx' res f cc Hf Hs Hq Hrun; simpl in Hrun.
  - injection Hrun as <- <-. exists [], [], f, cc. split_and!; [done..|]. split; try done; simpl; try lia.
    intros c. by rewrite app_nil_r.
  - unfold hbind at 1 in Hrun. destruct (sender_queue_operation p c (to_op x) cx) as [[p1 ok] cx1|e cx1|] eqn:Eq; [|done..].
    apply sender_queue_run in Eq as [-> Hadd]. simpl in *. destruct ok.
    + unfold hbind in Hrun. destruct (friend_mutate f pop) as [f1|] eqn:Ef.
      2:{ unfold mutate_friend, mutate, m_mutate, state_of in *. simpl in Hrun. rewrite Hf in Hrun. simpl in Hrun.
          by rewrite Ef in Hrun. }
      destruct (mutate_friend_run (E := E) cx pk f pop f1 Hf Ef) as (cx2 & Hm & Hf1 & _).
      rewrite Hm in Hrun. destruct (Hpop f cc f1 Hs Ef) as (cc1 & Hs1 & Hq1). rewrite Hq in Hq1. simpl in Hq1.
      destruct (IH _ _ _ _ _ _ Hf1 Hs1 Hq1 Hrun) as (taken & rest & f' & cc' & Hf' & Hs' & Hq' & Hd).
      exists ((c, x) :: taken), rest, f', cc'. split_and!; [done..|]. by eapply drained_step.
    + injection Hrun as <- <-. destruct Hadd as [Hle ->]. exists [], ((c, x) :: queue), f, cc.
      split_and!; [done..|]. split; try done; simpl; try lia. intros c'. by rewrite app_nil_r.
Qed.

Lemma pops_queues :
  pops PopFrontPendingBackwardsOp pending_backwards_ops /\ pops PopFrontPendingRequest pending_requests /\
  pops PopFrontPendingUserRequest pending_user_requests.
Proof.
  split_and!; intros f cc f' Hs Hm; simpl in Hm; unfold on_consistent in Hm; rewrite Hs in Hm; simpl in Hm;
    injection Hm as <-; by eexists.
Qed.
End Batch.

(** Appending the waiting responses, cancels and collects of a friend to a
    move token under construction takes a prefix of the friend's queue and
    leaves the rest in it: nothing is lost, repeated or reordered within a
    currency. The batch never exceeds its bound, and operations are left behind
    only when it is full. *)
Theorem append_takes_prefix `{CryptoOps} `{RngOps} {B : Type} `{CanonicalSerialize B} `{EqDecision B} {E : Type}
    (pk : PublicKey) (p p' : PendingMoveToken B) (cx cx' : Ctx B) f cc :
  friends (state_of cx) !! pk = Some f -> channel_status f = Consistent cc ->
  append_cancels_to_move_token (E := E) pk p cx = HOk p' cx' ->
  exists taken f' cc' all, friends (state_of cx') !! pk = Some f' /\ channel_status f' = Consistent cc' /\
    drained backwards_op_to_friend_tc_op p p' (pending_backwards_ops cc) taken (pending_backwards_ops cc') all.
Proof.
  intros Hf Hs Hrun. unfold append_cancels_to_move_token, hbind, consistent_channel, get_state, hget, hunwrap in Hrun.
  unfold hbind in Hrun. rewrite Hf in Hrun. simpl in Hrun. rewrite Hs in Hrun. simpl in Hrun.
  destruct (drain _ _ pk (pending_backwards_ops cc) p cx) as [res cx1|e cx1|] eqn:Ed; [|done..].
  injection Hrun as <- <-.
  destruct (drain_run _ _ _ _ _ (proj1 pops_queues) _ _ _ _ _ _ Hf Hs eq_refl Ed)
    as (taken & rest & f' & cc' & Hf' & Hs' & <- & Hd).
  by exists taken, f', cc', (snd res).
Qed.

Module BatchSamples.
Import Toy FunderSamples RequestSamples.

(** Two cancels wait, the batch has room for one. *)
Definition waiting_channel : ChannelConsistent string :=
  mkChannelConsistent
    (mkTokenChannel (direction (tc_new bob alice))
       {[ fst_currency := mkMutualCredit (mkMcIdents bob alice) fst_currency (mkMcBalance 0 0 17)
                            (mkMcPending ∅ {[ uid_of Byte.x05 := create_pending_transaction (sample_request []) ]}) ]}
       (mkActiveCurrencies {[ fst_currency ]} {[ fst_currency ]}))
    [] [(fst_currency, BackCancel (mkCancel (uid_of Byte.x05)));
        (fst_currency, BackCancel (mkCancel (uid_of Byte.x06)))] [].
Definition waiting_friend : FriendState string :=
  with_channel_status (open_friend bob alice ∅) (Consistent waiting_channel).
Definition waiting_ctx : Ctx string :=
  initial_ctx (with_friends (funder_new bob []) {[ alice := waiting_friend ]}) ephemeral_new (fresh_node bob 1).2.

Definition append_sample : hres string Empty_set (PendingMoveToken string) :=
  append_cancels_to_move_token alice (pending_new alice 1 false) waiting_ctx.

Lemma append_takes_prefix_witness :
  exists p' cx' (taken : list (Currency * BackwardsOp)), append_sample = HOk p' cx' /\ total_ops p' = length taken /\ length taken = 1 /\
    ops_of p' fst_currency = [CancelSendFunds (mkCancel (uid_of Byte.x05))].
Proof.
  destruct append_sample as [p' cx'|e cx'|] eqn:Er; [|destruct e|].
  - destruct (append_takes_prefix (E := Empty_set) alice (pending_new alice 1 false) p' waiting_ctx cx'
      waiting_friend waiting_channel eq_refl eq_refl Er) as (taken & f' & cc' & all & _ & _ & [Hs _ Hc _ Hf Hb Ho]).
    change (total_ops (pending_new alice 1 false)) with 0 in *. simpl in *. specialize (Hb ltac:(lia)).
    assert (length taken = 1) as Hlen.
    { destruct taken as [|x [|y taken]]; simpl in *; [|lia|lia]. rewrite <- Hs in Hf. specialize (Hf ltac:(discriminate)). lia. }
    exists p', cx', taken. split_and!; [exact eq_refl|exact Hc|exact Hlen|].
    destruct taken as [|x [|y taken]]; [discriminate Hlen| |discriminate Hlen].
    injection Hs as <- _. rewrite Ho. reflexivity.
  - assert ((match append_sample with HPanic => false | _ => true end) = true) as Hp by by vm_compute.
    by rewrite Er in Hp.
Defined.
End BatchSamples.
