(* ===== verification/Mediator.v ===== *)
(** * A mediator never loses

    A mediator has a ledger with the friend a request came from and one with the
    friend it was forwarded to. The answers of the latter are handled by
    [handle_incoming_message] of [funder/src/handler/handle_friend.rs], which looks for
    the friend that has the request pending ([find_request_origin] of [utils.rs]) and
    puts the answer in its queue; the sender takes the answers from this queue, in
    order. Both friends may be malicious: they send any operations that the ledgers
    accept, in any order. The theorem gives an invariant of the two ledgers and the queue
    that every one of these operations keeps, and shows that the mediator can always pass
    the next answer on, and that it either neither pays nor is paid, or earns exactly its
    fee. The search by identifier needs that no other friend has a request with the same
    identifier pending: without it an answer can go to the wrong friend. *)

From S2P Require Import Prelude Arith Bytes Messages Canonical MutualCredit McTheory McPair TokenChannel Friend.
From S2P Require Import FunderState Handler Canceler HandleFriend Sender FunderHandler Requests.

Local Open Scope Z_scope.

Definition op_request_id (op : FriendTcOp) : Uid :=
  match op with
  | RequestSendFunds r => rq_request_id r
  | ResponseSendFunds r => rs_request_id r
  | CancelSendFunds r => cn_request_id r
  | CollectSendFunds r => cl_request_id r
  end.
Definition is_request (op : FriendTcOp) : bool := match op with RequestSendFunds _ => true | _ => false end.

Notation remote_of mc := (pending_remote (mc_pending mc)).
Notation local_of mc := (pending_local (mc_pending mc)).
Notation balance_of mc := (balance (mc_balance mc)).

Section Ledger.
Context `{CryptoOps}.
Implicit Types (mc : MutualCredit) (op : FriendTcOp).

(** What operations leave alone. *)
Lemma queue_keeps mc op mc' ms :
  mc_wf mc -> queue_operation mc op = Ok (mc', ms) ->
  mc_idents mc' = mc_idents mc /\ mc_currency mc' = mc_currency mc /\
  forall id, op_request_id op <> id -> remote_of mc' !! id = remote_of mc !! id /\ local_of mc' !! id = local_of mc !! id.
Proof.
  intros Hwf. destruct op as [r|r|r|r]; simpl.
  - intros (_ & _ & _ & _ & -> & _)%queue_request_spec. split_and!; try done. intros id Hid. simpl. by rewrite lookup_insert_ne.
  - intros (p & _ & _ & _ & -> & _)%queue_response_spec. split_and!; try done. intros id Hid. simpl. by rewrite lookup_insert_ne.
  - intros (p & _ & _ & _ & -> & _)%queue_cancel_spec. split_and!; try done. intros id Hid. simpl. by rewrite lookup_delete_ne.
  - intros (p & _ & _ & -> & _)%(queue_collect_spec _ _ _ _ Hwf). split_and!; try done. intros id Hid. simpl. by rewrite lookup_delete_ne.
Qed.
Lemma process_keeps mc op rmd mc' out :
  mc_wf mc -> u_ok 128 rmd -> process_operation mc op rmd = Ok (mc', out) ->
  mc_idents mc' = mc_idents mc /\ mc_currency mc' = mc_currency mc /\
  (forall id p, remote_of mc !! id = Some p -> remote_of mc' !! id = Some p) /\
  forall id, op_request_id op <> id \/ is_request op = true -> local_of mc' !! id = local_of mc !! id.
Proof.
  intros Hwf Hrmd. pose proof Hwf as (Hb & _). destruct op as [r|r|r|r]; simpl.
  - intros (_ & Hn & _ & _ & _ & _ & -> & _)%(process_request_spec _ _ _ _ _ Hb Hrmd). split_and!; try done.
    intros id p Hp. simpl. rewrite lookup_insert_ne; [done|]. intros <-. simpl in Hp. congruence.
  - intros (p & _ & _ & _ & -> & _)%process_response_spec. split_and!; try done. intros id [Hid|]; [|done]. simpl. by rewrite lookup_insert_ne.
  - intros (p & _ & _ & _ & -> & _)%process_cancel_spec. split_and!; try done. intros id [Hid|]; [|done]. simpl. by rewrite lookup_delete_ne.
  - intros (p & _ & _ & _ & -> & _)%(process_collect_spec _ _ _ _ Hwf). split_and!; try done. intros id [Hid|]; [|done]. simpl. by rewrite lookup_delete_ne.
Qed.
End Ledger.

Section Mediator.
Context `{CryptoOps}.
(** The request that the mediator received, with the next node on its route, and the
    request it forwards. *)
Variables (r forward : RequestSendFundsOp) (next : PublicKey) (rest : list PublicKey) (fee : Z).
Notation id := (rq_request_id r).

(** The ledgers with the friends before and behind the mediator on the route, whether
    it has forwarded the request, the answers it still has to pass back, and what it has
    earned by this payment. *)
Record Mediation := mkMediation {
  md_before : MutualCredit; md_behind : MutualCredit;
  md_forwarded : bool; md_answers : list FriendTcOp; md_earned : Z
}.

Notation P0 := (create_pending_transaction r).
Notation D0 := (create_pending_transaction forward).

(** A response that the ledger before the mediator accepts. *)
Definition good_response (c : Currency) (resp : ResponseSendFundsOp) (lock : HashedLock) (complete : bool) : Prop :=
  rs_request_id resp = id /\ rs_dest_hashed_lock resp = lock /\ rs_is_complete resp = complete /\
  verify_signature (create_response_signature_buffer c (unsign_response resp) P0) (default next (last rest)) (rs_signature resp) = true.
(** The response is on its way back, or has been passed on. *)
Definition responding (c : Currency) (lock : HashedLock) (complete : bool) (answers : list FriendTcOp) (pending : option PendingTransaction) : Prop :=
  (exists resp, answers = [ResponseSendFunds resp] /\ pending = Some P0 /\ good_response c resp lock complete) \/
  (answers = [] /\ pending = Some (set_stage P0 (StageResponse lock complete))).

Inductive phase (c : Currency) (s : Mediation) : Prop :=
| ph_wait : md_forwarded s = false -> remote_of (md_before s) !! id = Some P0 -> local_of (md_behind s) !! id = None ->
    md_answers s = [] -> md_earned s = 0 -> phase c s
| ph_open : md_forwarded s = true -> remote_of (md_before s) !! id = Some P0 -> local_of (md_behind s) !! id = Some D0 ->
    md_answers s = [] -> md_earned s = 0 -> phase c s
| ph_response lock complete : md_forwarded s = true -> local_of (md_behind s) !! id = Some (set_stage D0 (StageResponse lock complete)) ->
    responding c lock complete (md_answers s) (remote_of (md_before s) !! id) -> md_earned s = 0 -> phase c s
| ph_cancel cn answers : md_forwarded s = true -> local_of (md_behind s) !! id = None -> cn_request_id cn = id ->
    md_answers s = answers ++ [CancelSendFunds cn] ->
    answers = [] /\ remote_of (md_before s) !! id = Some P0 \/
      (exists lock complete, responding c lock complete answers (remote_of (md_before s) !! id)) ->
    md_earned s = 0 -> phase c s
| ph_collect cl lock complete answers : md_forwarded s = true -> local_of (md_behind s) !! id = None -> cl_request_id cl = id ->
    hash_lock (cl_src_plain_lock cl) = rq_src_hashed_lock r -> hash_lock (cl_dest_plain_lock cl) = lock ->
    md_answers s = answers ++ [CollectSendFunds cl] -> responding c lock complete answers (remote_of (md_before s) !! id) ->
    md_earned s = - frozen D0 -> phase c s
| ph_done : md_forwarded s = true -> local_of (md_behind s) !! id = None -> md_answers s = [] ->
    md_earned s = 0 \/ md_earned s = frozen P0 - frozen D0 -> phase c s.

Definition mediation_inv (c : Currency) (s : Mediation) : Prop :=
  mc_wf (md_before s) /\ mc_wf (md_behind s) /\ mc_currency (md_before s) = c /\ mc_currency (md_behind s) = c /\
  remote_public_key (mc_idents (md_behind s)) = next /\ phase c s.

Context (Hroute : public_keys (rq_route r) = next :: rest) (Hrok : request_ok r).
Context (Hfee : 0 <= fee <= rq_left_fees r).
Context (Hforward : forward = mkRequest id (rq_src_hashed_lock r) (mkRoute rest) (rq_dest_payment r)
  (rq_total_dest_payment r) (rq_invoice_id r) (rq_left_fees r - fee)).

Lemma forward_ok : op_ok (RequestSendFunds forward).
Proof.
  rewrite Hforward. destruct Hrok as (Hl & Hd & Ht & Hf). unfold route_ok in *. rewrite Hroute in Hl. simpl in *.
  unfold request_ok, route_ok, u_ok in *. simpl. lia.
Qed.
Lemma frozen_fee : frozen P0 - frozen D0 = fee.
Proof. rewrite Hforward. unfold frozen. simpl. lia. Qed.

(** Where the response of the node at the end of the route is accepted. *)
Lemma last_next (d : MutualCredit) stage :
  remote_public_key (mc_idents d) = next -> incoming_dest_public_key d (set_stage D0 stage) = default next (last rest).
Proof.
  intros Hn. rewrite Hforward. unfold incoming_dest_public_key. simpl. rewrite Hn. by destruct (last rest).
Qed.
Lemma last_before (u : MutualCredit) : outgoing_dest_public_key u P0 = default next (last rest).
Proof.
  unfold outgoing_dest_public_key. simpl. rewrite Hroute, last_cons. by destruct (last rest).
Qed.

Notation inv := (mediation_inv).
Lemma fwd_id : rq_request_id forward = id.
Proof. by rewrite Hforward. Qed.
Lemma fwd_lock : pt_src_hashed_lock D0 = rq_src_hashed_lock r.
Proof. by rewrite Hforward. Qed.
Lemma fwd_buffer c resp stage :
  create_response_signature_buffer c resp (set_stage D0 stage) = create_response_signature_buffer c resp P0.
Proof. by rewrite Hforward. Qed.
Lemma D0_stage : set_stage D0 StageRequest = D0.
Proof. done. Qed.

(** The next answer can always be passed on, and what that changes. *)
Lemma pass_step c s op answers :
  mediation_inv c s -> md_answers s = op :: answers ->
  exists u ms, queue_operation (md_before s) op = Ok (u, ms) /\
    mediation_inv c (mkMediation u (md_behind s) (md_forwarded s) answers (md_earned s + (balance_of u - balance_of (md_before s)))).
Proof.
  intros (Hu & Hd & Hcu & Hcd & Hn & Hph) Hans.
  assert (forall u ms, queue_operation (md_before s) op = Ok (u, ms) -> op_ok op ->
    phase c (mkMediation u (md_behind s) (md_forwarded s) answers (md_earned s + (balance_of u - balance_of (md_before s)))) ->
    exists u ms, queue_operation (md_before s) op = Ok (u, ms) /\
      mediation_inv c (mkMediation u (md_behind s) (md_forwarded s) answers (md_earned s + (balance_of u - balance_of (md_before s))))) as Hgo.
  { intros u ms Hq Hok Hp. exists u, ms. split; [done|]. destruct (queue_keeps _ _ _ _ Hu Hq) as (_ & Hc & _).
    refine (conj _ (conj Hd (conj _ (conj Hcd (conj Hn Hp))))); simpl; [exact (queue_operation_wf _ _ _ _ Hok Hu Hq)|congruence]. }
  (* a response that waits goes first *)
  assert (forall lock complete more, responding c lock complete (op :: more) (remote_of (md_before s) !! id) ->
    exists u ms, queue_operation (md_before s) op = Ok (u, ms) /\ op_ok op /\ more = [] /\ balance_of u = balance_of (md_before s) /\
      responding c lock complete [] (remote_of u !! id)) as Hresp.
  { intros lock complete more [(resp & [= -> ->] & Hp & Hid & Hl & Hc & Hv)|[[=] _]].
    assert (queue_operation (md_before s) (ResponseSendFunds resp) = Ok
      (set_pending_remote (md_before s) (<[rs_request_id resp := set_stage P0 (StageResponse (rs_dest_hashed_lock resp) (rs_is_complete resp))]>
        (remote_of (md_before s))), [SetRemotePendingTransactionStage (rs_request_id resp) (StageResponse (rs_dest_hashed_lock resp) (rs_is_complete resp))])) as Hq.
    { apply queue_response_spec. exists P0. rewrite Hid, Hp, Hcu, last_before. by split_and!. }
    do 2 eexists. split; [exact Hq|]. split_and!; try done. right. split; [done|]. simpl. rewrite Hid, Hl, Hc. by rewrite lookup_insert_eq. }
  destruct Hph as [Hf Hp Hl Ha He|Hf Hp Hl Ha He|lock complete Hf Hl Hr He|cn an Hf Hl Hid Ha Hr He|cl lock complete an Hf Hl Hid Hk1 Hk2 Ha Hr He|Hf Hl Ha He];
    try (rewrite Hans in Ha; discriminate Ha).
  - rewrite Hans in Hr. destruct (Hresp _ _ _ Hr) as (u & ms & Hq & Hok & -> & Hb & Hr'). apply (Hgo u ms Hq Hok).
    eapply ph_response; simpl; [done|exact Hl|exact Hr'|lia].
  - rewrite Hans in Ha. destruct an as [|x an].
    + injection Ha as -> ->. assert (exists p, remote_of (md_before s) !! id = Some p) as [p Hp].
      { destruct Hr as [[_ Hp]|(lock & complete & [(resp & [=] & _)|[_ Hp]])]; eauto. }
      pose proof Hu as (_ & _ & Hled & _). destruct (ledger_release _ _ _ _ Hled Hp) as (Hfz & Hdz & _).
      eapply (Hgo (release_remote (md_before s) (cn_request_id cn) p)); [apply queue_cancel_spec; exists p; rewrite Hid; by split_and!|done|].
      apply ph_done; simpl; try done. left. lia.
    + injection Ha as <- ->. destruct Hr as [[[=] _]|(lock & complete & Hr)].
      destruct (Hresp _ _ _ Hr) as (u & ms & Hq & Hok & -> & Hb & Hr'). apply (Hgo u ms Hq Hok).
      eapply (ph_cancel _ _ cn []); simpl; try done; [|lia]. right. by exists lock, complete.
  - rewrite Hans in Ha. destruct an as [|x an].
    + injection Ha as -> ->. destruct Hr as [(resp & [=] & _)|[_ Hp]].
      eapply (Hgo (set_balance (release_remote (md_before s) (cl_request_id cl) (set_stage P0 (StageResponse lock complete)))
        (balance_of (md_before s) + frozen (set_stage P0 (StageResponse lock complete))))).
      * apply (queue_collect_spec _ _ _ _ Hu). exists (set_stage P0 (StageResponse lock complete)). rewrite Hid. split_and!; try done.
        exists complete. by rewrite Hk2.
      * done.
      * apply ph_done; simpl; try done. right. rewrite He. unfold frozen. simpl. lia.
    + injection Ha as <- ->. destruct (Hresp _ _ _ Hr) as (u & ms & Hq & Hok & -> & Hb & Hr'). apply (Hgo u ms Hq Hok).
      eapply (ph_collect _ _ cl lock complete []); simpl; try done. lia.
Qed.

Lemma phase_keep c s u d :
  phase c s -> (forall p, remote_of (md_before s) !! id = Some p -> remote_of u !! id = Some p) ->
  local_of d !! id = local_of (md_behind s) !! id ->
  phase c (mkMediation u d (md_forwarded s) (md_answers s) (md_earned s)).
Proof.
  intros Hph Hu Hd.
  assert (forall lock complete answers, responding c lock complete answers (remote_of (md_before s) !! id) ->
    responding c lock complete answers (remote_of u !! id)) as Hr.
  { intros lock complete answers [(resp & ? & ?%Hu & ?)|[? ?%Hu]]; [left; by exists resp|by right]. }
  destruct Hph as [Hf Hp Hl Ha He|Hf Hp Hl Ha He|lock complete Hf Hl Hresp He|cn an Hf Hl Hid Ha Hresp He|cl lock complete an Hf Hl Hid Hk1 Hk2 Ha Hresp He|Hf Hl Ha He].
  - apply ph_wait; simpl; try done; [by apply Hu|congruence].
  - apply ph_open; simpl; try done; [by apply Hu|congruence].
  - eapply ph_response; simpl; [done|rewrite Hd; exact Hl|by apply Hr|done].
  - eapply ph_cancel; simpl; [done|by rewrite Hd|exact Hid|exact Ha| |done].
    destruct Hresp as [[-> Hp]|(lock & complete & Hresp)]; [left; split; [done|by apply Hu]|right; eauto].
  - eapply ph_collect; simpl; [done|by rewrite Hd|exact Hid|done|exact Hk2|exact Ha|by apply Hr|done].
  - apply ph_done; simpl; try done. by rewrite Hd.
Qed.

(** An answer of the friend behind. *)
Lemma answer_step c s op rmd d out :
  mediation_inv c s -> process_operation (md_behind s) op rmd = Ok (d, out) -> op_request_id op = id -> is_request op = false ->
  phase c (mkMediation (md_before s) d (md_forwarded s) (md_answers s ++ [op]) (md_earned s + (balance_of d - balance_of (md_behind s)))).
Proof.
  intros (Hu & Hd & Hcu & Hcd & Hn & Hph) Hop Hid Hnr. destruct op as [q|resp|cn|cl]; [done|..]; simpl in Hid, Hop.
  - apply process_response_spec in Hop as (p & Hp & Hv & Hs & -> & _). rewrite Hid in Hp. simpl.
    destruct Hph; try congruence; [|rewrite Hp in *; simplify_eq; done]. rewrite Hp in *. simplify_eq.
    eapply (ph_response _ _ (rs_dest_hashed_lock resp) (rs_is_complete resp)); simpl; try done; [by rewrite Hid, lookup_insert_eq| |lia].
    left. exists resp. match goal with X : md_answers s = [] |- _ => rewrite X end. split; [done|]. split; [done|]. split_and!; try done.
    rewrite <- (last_next (md_behind s) StageRequest), D0_stage by done. rewrite <- (fwd_buffer _ _ StageRequest), D0_stage. by rewrite <- Hcd.
  - apply process_cancel_spec in Hop as (p & Hp & _ & _ & -> & _). rewrite Hid in Hp. simpl.
    destruct Hph; try congruence; (eapply (ph_cancel _ _ cn (md_answers s)); simpl; try done; [by rewrite Hid, lookup_delete_eq| |lia]).
    + left. by split.
    + right. eauto.
  - apply (process_collect_spec _ _ _ _ Hd) in Hop as (p & Hp & (ic & Hst & Hsrc) & _ & -> & _). rewrite Hid in Hp. simpl.
    destruct Hph; try congruence; rewrite Hp in *; simplify_eq/=.
    eapply (ph_collect _ _ cl _ _ (md_answers s)); simpl; try done; [by rewrite Hid, lookup_delete_eq|by rewrite Hsrc, <- fwd_lock|].
    match goal with X : md_earned s = 0 |- _ => rewrite X end. unfold frozen. simpl. lia.
Qed.

(** ** What keeps the invariant *)

Lemma other_before c s u :
  mediation_inv c s -> mc_wf u -> mc_currency u = mc_currency (md_before s) ->
  (forall p, remote_of (md_before s) !! id = Some p -> remote_of u !! id = Some p) ->
  mediation_inv c (mkMediation u (md_behind s) (md_forwarded s) (md_answers s) (md_earned s)).
Proof.
  intros (Hu & Hd & Hcu & Hcd & Hn & Hph) Hwf Hc Hrem.
  refine (conj Hwf (conj Hd (conj _ (conj Hcd (conj Hn _))))); simpl; [congruence|]. by apply phase_keep.
Qed.
Lemma other_behind c s d :
  mediation_inv c s -> mc_wf d -> mc_currency d = mc_currency (md_behind s) -> mc_idents d = mc_idents (md_behind s) ->
  local_of d !! id = local_of (md_behind s) !! id ->
  mediation_inv c (mkMediation (md_before s) d (md_forwarded s) (md_answers s) (md_earned s)).
Proof.
  intros (Hu & Hd & Hcu & Hcd & Hn & Hph) Hwf Hc Hi Hl.
  refine (conj Hu (conj Hwf (conj Hcu (conj _ (conj _ _))))); simpl; [congruence|by rewrite Hi|]. by apply phase_keep.
Qed.

(** Any operation of the friend before the mediator, any operation of the friend behind
    it that is no answer to the request, and anything else that the mediator sends. *)
Definition other_operation (s : Mediation) (u d : MutualCredit) : Prop :=
  (exists op rmd out, op_ok op /\ u_ok 128 rmd /\ process_operation (md_before s) op rmd = Ok (u, out) /\ d = md_behind s) \/
  (exists op rmd out, op_ok op /\ u_ok 128 rmd /\ process_operation (md_behind s) op rmd = Ok (d, out) /\
     (op_request_id op <> id \/ is_request op = true) /\ u = md_before s) \/
  (exists op ms, op_ok op /\ op_request_id op <> id /\ queue_operation (md_before s) op = Ok (u, ms) /\ d = md_behind s) \/
  (exists op ms, op_ok op /\ op_request_id op <> id /\ queue_operation (md_behind s) op = Ok (d, ms) /\ u = md_before s).

Lemma other_step c s u d :
  mediation_inv c s -> other_operation s u d ->
  mediation_inv c (mkMediation u d (md_forwarded s) (md_answers s) (md_earned s)).
Proof.
  intros Hinv Hop. pose proof Hinv as (Hu & Hd & _).
  destruct Hop as [(op & rmd & out & Hok & Hrmd & Hop & ->)|[(op & rmd & out & Hok & Hrmd & Hop & Hne & ->)
    |[(op & ms & Hok & Hne & Hq & ->)|(op & ms & Hok & Hne & Hq & ->)]]].
  - destruct (process_keeps _ _ _ _ _ Hu Hrmd Hop) as (_ & Hc & Hrem & _).
    apply other_before; auto. exact (process_operation_wf _ _ _ _ _ Hok Hrmd Hu Hop).
  - destruct (process_keeps _ _ _ _ _ Hd Hrmd Hop) as (Hi & Hc & _ & Hloc).
    apply other_behind; auto. exact (process_operation_wf _ _ _ _ _ Hok Hrmd Hd Hop).
  - destruct (queue_keeps _ _ _ _ Hu Hq) as (_ & Hc & Hrem). destruct (Hrem id Hne) as [Hr _].
    apply other_before; auto; [exact (queue_operation_wf _ _ _ _ Hok Hu Hq)|]. intros p Hp. by rewrite Hr.
  - destruct (queue_keeps _ _ _ _ Hd Hq) as (Hi & Hc & Hrem). destruct (Hrem id Hne) as [_ Hl].
    apply other_behind; auto. exact (queue_operation_wf _ _ _ _ Hok Hd Hq).
Qed.

Lemma forward_step c s d ms :
  mediation_inv c s -> md_forwarded s = false -> queue_operation (md_behind s) (RequestSendFunds forward) = Ok (d, ms) ->
  mediation_inv c (mkMediation (md_before s) d true (md_answers s) (md_earned s)).
Proof.
  intros (Hu & Hd & Hcu & Hcd & Hn & Hph) Hf Hq. destruct (queue_keeps _ _ _ _ Hd Hq) as (Hi & Hc & _).
  refine (conj Hu (conj _ (conj Hcu (conj _ (conj _ _))))); simpl;
    [exact (queue_operation_wf _ _ _ _ forward_ok Hd Hq)|congruence|by rewrite Hi|].
  apply queue_request_spec in Hq as (_ & _ & _ & _ & -> & _). destruct Hph; try congruence.
  apply ph_open; simpl; try done. by rewrite fwd_id, lookup_insert_eq.
Qed.

Lemma answer_inv c s op rmd d out :
  mediation_inv c s -> op_ok op -> u_ok 128 rmd -> process_operation (md_behind s) op rmd = Ok (d, out) ->
  op_request_id op = id -> is_request op = false ->
  mediation_inv c (mkMediation (md_before s) d (md_forwarded s) (md_answers s ++ [op])
    (md_earned s + (balance_of d - balance_of (md_behind s)))).
Proof.
  intros Hinv Hok Hrmd Hop Hid Hnr. pose proof Hinv as (Hu & Hd & Hcu & Hcd & Hn & Hph).
  destruct (process_keeps _ _ _ _ _ Hd Hrmd Hop) as (Hi & Hc & _ & _).
  refine (conj Hu (conj _ (conj Hcu (conj _ (conj _ _))))); simpl;
    [exact (process_operation_wf _ _ _ _ _ Hok Hrmd Hd Hop)|congruence|by rewrite Hi|].
  by eapply answer_step.
Qed.

(** An answer is accepted only while the friend before still has the request pending. *)
Lemma answer_pending c s op rmd d out :
  mediation_inv c s -> process_operation (md_behind s) op rmd = Ok (d, out) -> op_request_id op = id ->
  is_request op = false -> is_Some (remote_of (md_before s) !! id).
Proof.
  intros (Hu & Hd & Hcu & Hcd & Hn & Hph) Hop Hid Hnr.
  assert (is_Some (local_of (md_behind s) !! id)) as [p Hp].
  { destruct op as [q|resp|cn|cl]; [done|..]; simpl in Hid, Hop; rewrite <- Hid.
    - apply process_response_spec in Hop as (p & Hp & _). by eexists.
    - apply process_cancel_spec in Hop as (p & Hp & _). by eexists.
    - apply (process_collect_spec _ _ _ _ Hd) in Hop as (p & Hp & _). by eexists. }
  destruct Hph as [? ? ? ? ?|? Hp0 ? ? ?|? ? ? ? Hr ?|? ? ? ? ? ? ? ?|? ? ? ? ? ? ? ? ? ? ? ?|? ? ? ?]; try congruence.
  - by eexists.
  - destruct Hr as [(resp & _ & -> & _)|[_ ->]]; by eexists.
Qed.
End Mediator.

(** What the answers that a mediator still has to pass on will bring it. *)
Definition is_collect (op : FriendTcOp) : bool := match op with CollectSendFunds _ => true | _ => false end.
Definition owed (r : RequestSendFundsOp) (answers : list FriendTcOp) : Z :=
  if existsb is_collect answers then rq_dest_payment r + rq_left_fees r else 0.

Lemma phase_account `{CryptoOps} r forward next rest c s :
  phase r forward next rest c s ->
  md_earned s + owed r (md_answers s) = 0 \/
  md_earned s + owed r (md_answers s) = frozen (create_pending_transaction r) - frozen (create_pending_transaction forward).
Proof.
  intros [? ? ? Ha ->|? ? ? Ha ->|? ? ? ? Hr ->|? ? ? ? ? Ha Hr ->|? ? ? ? ? ? ? ? ? Ha Hr ->|? ? Ha He]; unfold owed.
  - rewrite Ha. by left.
  - rewrite Ha. by left.
  - destruct Hr as [(resp & -> & _)|[-> _]]; by left.
  - rewrite Ha, existsb_app. destruct Hr as [[-> _]|(? & ? & [(resp & -> & _)|[-> _]])]; by left.
  - rewrite Ha, existsb_app. simpl. rewrite orb_true_r. right. unfold frozen. simpl. lia.
  - rewrite Ha. simpl. rewrite Z.add_0_r. done.
Qed.
Lemma phase_collect `{CryptoOps} r forward next rest c s :
  phase r forward next rest c s -> existsb is_collect (md_answers s) = true ->
  md_earned s + owed r (md_answers s) = frozen (create_pending_transaction r) - frozen (create_pending_transaction forward).
Proof.
  intros [? ? ? Ha ->|? ? ? Ha ->|? ? ? ? Hr ->|? ? ? ? ? Ha Hr ->|? ? ? ? ? ? ? ? ? Ha Hr ->|? ? Ha He]; unfold owed.
  - by rewrite Ha.
  - by rewrite Ha.
  - by destruct Hr as [(resp & -> & _)|[-> _]].
  - rewrite Ha, existsb_app. by destruct Hr as [[-> _]|(? & ? & [(resp & -> & _)|[-> _]])].
  - rewrite Ha, existsb_app. simpl. rewrite orb_true_r. intros _. unfold frozen. simpl. lia.
  - by rewrite Ha.
Qed.

(** ** Where an answer goes *)

Section Routing.
Context `{CryptoOps} `{RngOps} {B : Type} `{CanonicalSerialize B} `{EqDecision B} {E : Type}.

(** The answers to a request that wait in the queue of a friend. *)
Definition waiting_answers (f : FriendState B) (c : Currency) (request_id : Uid) : list FriendTcOp :=
  match channel_status f with
  | Inconsistent _ => []
  | Consistent cc =>
      omap (fun e : Currency * BackwardsOp =>
        let op := backwards_op_to_friend_tc_op e.2 in
        if decide (e.1 = c /\ op_request_id op = request_id) then Some op else None) (pending_backwards_ops cc)
  end.

(** The configured currencies of a friend. *)
Definition currency_configs_of (s : FunderState B) (pk : PublicKey) : gmap Currency CurrencyConfig :=
  match friends s !! pk with Some f => currency_configs f | None => ∅ end.

(** No friend but [pk] has the request pending. *)
Definition only_origin (s : FunderState B) (c : Currency) (request_id : Uid) (pk : PublicKey) : Prop :=
  forall pk' f mc, friends s !! pk' = Some f -> friend_mc f c = Some mc ->
    is_Some (remote_of mc !! request_id) -> pk' = pk.

Lemma only_origin_found s c id pk f mc :
  only_origin s c id pk -> friends s !! pk = Some f -> friend_mc f c = Some mc -> is_Some (remote_of mc !! id) ->
  find_request_origin s c id = Some pk.
Proof.
  intros Hu Hf Hm [p Hp]. destruct (find_request_origin s c id) as [pk'|] eqn:Ho.
  - apply find_request_origin_Some in Ho as (f' & mc' & Hf' & Hm' & Hp'). f_equal. by eapply Hu.
  - pose proof (find_request_origin_None _ _ _ Ho _ _ _ Hf Hm). congruence.
Qed.

(** The handler puts an answer that a ledger accepted behind the answers that wait. *)
Lemma answer_queued (cx : Ctx B) c mc op rmd mc' out before behind f mcb :
  mc_wf mc -> process_operation mc op rmd = Ok (mc', out) -> is_request op = false ->
  friends (state_of cx) !! before = Some f -> friend_mc f c = Some mcb ->
  is_Some (remote_of mcb !! op_request_id op) -> only_origin (state_of cx) c (op_request_id op) before ->
  exists m cx' f', po_incoming_message out = Some m /\
    handle_incoming_message (E := E) behind c m cx = HOk tt cx' /\
    state_of cx' = with_friends (state_of cx) (<[before := f']> (friends (state_of cx))) /\
    friend_mc f' c = Some mcb /\
    waiting_answers f' c (op_request_id op) = waiting_answers f c (op_request_id op) ++ [op] /\
    cx_send cx' = set_try_send (cx_send cx) before /\ cx_control cx' = cx_control cx.
Proof.
  intros Hwf Hop Hnr Hf Hm Hp Hu. pose proof (only_origin_found _ _ _ _ _ _ Hu Hf Hm Hp) as Ho.
  pose proof Hm as Hm0. unfold friend_mc in Hm0. destruct (channel_status f) as [ci|cc] eqn:Es; [done|].
  assert (exists m bop, po_incoming_message out = Some m /\ backwards_op_to_friend_tc_op bop = op /\
    handle_incoming_message (E := E) behind c m cx =
      (run! mutate_friend before (PushBackPendingBackwardsOp c bop) then send_command set_try_send before) cx)
    as (m & bop & Hout & Hbop & Hrun).
  { destruct op as [q|resp|cn|cl]; [done|..]; simpl in Hop, Ho.
    - apply process_response_spec in Hop as (p & _ & _ & _ & _ & ->). exists (IncomingResponse p resp), (BackResponse resp).
      split_and!; [done..|]. simpl. unfold handle_response_send_funds, hbind at 1, get_state, hget. by rewrite Ho.
    - apply process_cancel_spec in Hop as (p & _ & _ & _ & _ & ->). exists (IncomingCancel p cn), (BackCancel cn).
      split_and!; [done..|]. simpl. unfold handle_cancel_send_funds, hbind at 1, get_state, hget. by rewrite Ho.
    - apply (process_collect_spec _ _ _ _ Hwf) in Hop as (p & _ & _ & _ & _ & ->).
      exists (IncomingCollect p cl), (BackCollect cl).
      split_and!; [done..|]. simpl. unfold handle_collect_send_funds, hbind at 1, get_state, hget. by rewrite Ho. }
  destruct (push_run (E := E) cx before (PushBackPendingBackwardsOp c bop) f cc I Hf Es) as (cx' & Hpush & Hst & Hsend & Hctl).
  simpl in Hst. rewrite Hf in Hst. simpl in Hst. unfold on_consistent in Hst. rewrite Es in Hst. simpl in Hst.
  injection Hst as Hst. eexists m, cx', _. split; [done|]. split; [by rewrite Hrun|]. split; [by rewrite <- Hst|].
  split; [unfold friend_mc; simpl; done|]. split; [|done].
  unfold waiting_answers. simpl. rewrite Es, omap_app. f_equal. simpl. rewrite Hbop. by rewrite decide_True.
Qed.
End Routing.


Module MediatorSamples.
Import Toy McSamples FunderSamples RequestSamples.

(** Bob mediates a payment of 10 from Alice to Carol, for a fee of 3. *)
Definition paid_request : RequestSendFundsOp :=
  mkRequest (uid_of Byte.x05) (hash_lock src_lock) (mkRoute [carol]) 10 10 (invoice_of Byte.x04) 7.
Definition forwarded_request : RequestSendFundsOp :=
  mkRequest (uid_of Byte.x05) (hash_lock src_lock) (mkRoute []) 10 10 (invoice_of Byte.x04) 4.
Definition before0 : MutualCredit := mc_new bob alice fst_currency 0.
Definition behind0 : MutualCredit := mc_new bob carol fst_currency 0.
Definition the_response : FriendTcOp := ResponseSendFunds (response_by carol forwarded_request).
Definition the_collect : FriendTcOp := CollectSendFunds (collect_of paid_request).
Definition processed (mc : MutualCredit) (op : FriendTcOp) : MutualCredit :=
  match process_operation mc op 1000 with Ok (mc', _) => mc' | _ => mc end.
Definition queued (mc : MutualCredit) (op : FriendTcOp) : MutualCredit * list McMutation :=
  match queue_operation mc op with Ok x => x | _ => (mc, []) end.
Definition before1 : MutualCredit := processed before0 (RequestSendFunds paid_request).
Definition behind1 : MutualCredit := (queued behind0 (RequestSendFunds forwarded_request)).1.
Definition behind2 : MutualCredit := processed behind1 the_response.
Definition behind3 : MutualCredit := processed behind2 the_collect.
Definition output_of (mc : MutualCredit) (op : FriendTcOp) : ProcessOperationOutput :=
  match process_operation mc op 1000 with Ok (_, out) => out | _ => mkProcessOutput None [] end.
Lemma processed_Ok mc op : is_ok (process_operation mc op 1000) = true -> process_operation mc op 1000 = Ok (processed mc op, output_of mc op).
Proof. unfold processed, output_of. by destruct (process_operation mc op 1000) as [[mc' out]|e|]. Qed.
Lemma queued_Ok mc op : is_ok (queue_operation mc op) = true -> queue_operation mc op = Ok ((queued mc op).1, (queued mc op).2).
Proof. unfold queued. by destruct (queue_operation mc op) as [[mc' ms]|e|]. Qed.
Lemma ok1000 : u_ok 128 1000.
Proof. by vm_compute. Qed.

(** A friend with the given ledger. *)
Definition ledger_friend (local remote : PublicKey) (mc : MutualCredit) : FriendState string :=
  with_channel_status (open_friend local remote ∅)
    (Consistent (mkChannelConsistent
       (mkTokenChannel (direction (tc_new local remote)) {[ fst_currency := mc ]}
          (mkActiveCurrencies {[ fst_currency ]} {[ fst_currency ]})) [] [] [])).
Definition mediating (mc_before mc_behind : MutualCredit) : Ctx string :=
  initial_ctx
    (with_friends (funder_new bob []) {[ alice := ledger_friend bob alice mc_before; carol := ledger_friend bob carol mc_behind ]})
    (mkEphemeral (mkLiveness {[ alice; carol ]})) (fresh_node bob 1).2.

Lemma mediating_alice a b : friends (state_of (mediating a b)) !! alice = Some (ledger_friend bob alice a).
Proof. reflexivity. Qed.
Lemma mediating_carol a b : friends (state_of (mediating a b)) !! carol = Some (ledger_friend bob carol b).
Proof. reflexivity. Qed.
Lemma ledger_friend_mc local remote mc : friend_mc (ledger_friend local remote mc) fst_currency = Some mc.
Proof. reflexivity. Qed.

Lemma sample_forwards :
  forwards (state_of (mediating before0 behind0)) (mkEphemeral (mkLiveness {[ alice; carol ]})) alice fst_currency
    paid_request carol [] forwarded_request.
Proof.
  split.
  - exists (ledger_friend bob alice before0), (mkCurrencyConfig (mkRate 0 3) 100 true), 3.
    split_and!; [reflexivity..|vm_compute; discriminate|reflexivity].
  - exists (ledger_friend bob carol behind0), (mkCurrencyConfig (mkRate 0 3) 100 true), behind0. split_and!; reflexivity.
Qed.
Lemma request_processed : is_ok (process_operation before0 (RequestSendFunds paid_request) 1000) = true.
Proof. vm_compute. reflexivity. Qed.
Lemma request_queued : is_ok (queue_operation behind0 (RequestSendFunds forwarded_request)) = true.
Proof. vm_compute. reflexivity. Qed.
Lemma response_processed : is_ok (process_operation behind1 the_response 1000) = true.
Proof. vm_compute. reflexivity. Qed.
Lemma collect_processed : is_ok (process_operation behind2 the_collect 1000) = true.
Proof. vm_compute. reflexivity. Qed.
Lemma nothing_pending : pending_remote (mc_pending behind2) !! uid_of Byte.x05 = None.
Proof. vm_compute. reflexivity. Qed.
Lemma mediating_origin : only_origin (state_of (mediating before1 behind2)) fst_currency (uid_of Byte.x05) alice.
Proof.
  intros pk f mc Hf Hm Hp. simpl in Hf.
  apply lookup_insert_Some in Hf as [[<- _]|[_ Hf]]; [done|]. apply lookup_singleton_Some in Hf as [<- <-].
  unfold friend_mc in Hm. simpl in Hm. rewrite lookup_singleton_eq in Hm. injection Hm as <-.
  rewrite nothing_pending in Hp. by destruct Hp.
Qed.


(** When two friends have a request with the same identifier pending, the search finds
    the same one of them, whichever the answered request came from. *)
Lemma equal_ids_misroute :
  exists pk, find_request_origin (state_of (mediating before1 before1)) fst_currency (uid_of Byte.x05) = Some pk /\
    (exists other, other <> pk /\ (exists f mc, friends (state_of (mediating before1 before1)) !! other = Some f /\
       friend_mc f fst_currency = Some mc /\ is_Some (pending_remote (mc_pending mc) !! uid_of Byte.x05))).
Proof.
  assert (is_Some (pending_remote (mc_pending before1) !! uid_of Byte.x05)) as Hp by (eexists; vm_compute; reflexivity).
  destruct (find_request_origin (state_of (mediating before1 before1)) fst_currency (uid_of Byte.x05)) as [pk|] eqn:Eo.
  - exists pk. split; [done|]. destruct (decide (pk = alice)) as [->|Hne].
    + exists carol. split; [by vm_compute|]. exists (ledger_friend bob carol before1), before1.
      exact (conj (mediating_carol _ _) (conj (ledger_friend_mc _ _ _) Hp)).
    + exists alice. split; [congruence|]. exists (ledger_friend bob alice before1), before1.
      exact (conj (mediating_alice _ _) (conj (ledger_friend_mc _ _ _) Hp)).
  - rewrite (find_request_origin_None _ _ _ Eo _ _ _ (mediating_alice _ _) (ledger_friend_mc _ _ _)) in Hp. destruct Hp as [p Hp]. discriminate Hp.
Qed.
End MediatorSamples.
