(* ===== verification/IndexMessages.v ===== *)
(** * Messages between nodes and index servers

    Models [proto/src/index_server/messages.rs] and
    [proto/src/index_client/messages.rs]: mutations of the capacities a node
    announces, requests for routes and their responses, the report of the index
    client, and the signature of a [MutationsUpdate] ([signature/src]). Net
    addresses of index servers are a type parameter [ISA], as in the code. *)

From S2P Require Import Prelude Arith Bytes Messages Canonical.
From Stdlib Require Import Strings.Byte.

(** ** Requests for routes *)

Record Edge := mkEdge { from_public_key : PublicKey; to_public_key : PublicKey }.

Inductive OptExclude := ExcludeEmpty | ExcludeEdge (edge : Edge).

Definition opt_exclude_from (opt : option Edge) : OptExclude :=
  match opt with Some edge => ExcludeEdge edge | None => ExcludeEmpty end.
Definition opt_exclude_into (o : OptExclude) : option Edge :=
  match o with ExcludeEdge edge => Some edge | ExcludeEmpty => None end.

Record RequestRoutes := mkRequestRoutes {
  rr_request_id : Uid;
  rr_currency : Currency;
  rr_capacity : Z;
  rr_source : PublicKey;
  rr_destination : PublicKey;
  rr_opt_exclude : option Edge
}.

Record RouteCapacityRate := mkRouteCapacityRate {
  rcr_route : FriendsRoute;
  rcr_capacity : Z;
  rcr_rate : Rate
}.

Record MultiRoute := mkMultiRoute { mr_routes : list RouteCapacityRate }.

Record ResponseRoutes := mkResponseRoutes {
  rp_request_id : Uid;
  rp_multi_routes : list MultiRoute
}.

(** ** Mutations announced by a node *)

Record UpdateFriendCurrency := mkUpdateFriendCurrency {
  uf_public_key : PublicKey;
  uf_currency : Currency;
  uf_recv_capacity : Z;
  uf_rate : Rate
}.

Record RemoveFriendCurrency := mkRemoveFriendCurrency {
  rf_public_key : PublicKey;
  rf_currency : Currency
}.

Inductive IndexMutation :=
| IndexUpdate (u : UpdateFriendCurrency)
| IndexRemove (r : RemoveFriendCurrency).

Record MutationsUpdate := mkMutationsUpdate {
  mu_node_public_key : PublicKey;
  mu_index_mutations : list IndexMutation;
  mu_time_hash : HashResult;
  mu_session_id : Uid;
  mu_counter : Z;
  mu_rand_nonce : RandValue;
  mu_signature : Signature
}.

Record TimeProofLink := mkTimeProofLink { tl_hashes : list HashResult }.

Record ForwardMutationsUpdate := mkForwardMutationsUpdate {
  fm_mutations_update : MutationsUpdate;
  fm_time_proof_chain : list TimeProofLink
}.

Inductive IndexServerToClient :=
| ToClientTimeHash (h : HashResult)
| ToClientResponseRoutes (r : ResponseRoutes).

Inductive IndexClientToServer :=
| ToServerMutationsUpdate (m : MutationsUpdate)
| ToServerRequestRoutes (r : RequestRoutes).

Inductive IndexServerToServer :=
| ServerTimeHash (h : HashResult)
| ServerForwardMutationsUpdate (f : ForwardMutationsUpdate).

#[global] Instance Edge_eq_dec : EqDecision Edge.
Proof. solve_decision. Defined.
#[global] Instance FriendsRoute_eq_dec : EqDecision FriendsRoute.
Proof. solve_decision. Defined.
#[global] Instance RouteCapacityRate_eq_dec : EqDecision RouteCapacityRate.
Proof. solve_decision. Defined.
#[global] Instance MultiRoute_eq_dec : EqDecision MultiRoute.
Proof. solve_decision. Defined.
#[global] Instance UpdateFriendCurrency_eq_dec : EqDecision UpdateFriendCurrency.
Proof. solve_decision. Defined.
#[global] Instance RemoveFriendCurrency_eq_dec : EqDecision RemoveFriendCurrency.
Proof. solve_decision. Defined.
#[global] Instance IndexMutation_eq_dec : EqDecision IndexMutation.
Proof. solve_decision. Defined.

(** ** Index servers and the report of the index client *)

Record NamedIndexServerAddress (ISA : Type) := mkNamedIndexServer {
  ni_public_key : PublicKey;
  ni_address : ISA;
  ni_name : string
}.
Arguments mkNamedIndexServer {ISA}.
Arguments ni_public_key {ISA}.
Arguments ni_address {ISA}.
Arguments ni_name {ISA}.

Record IndexServerAddress (ISA : Type) := mkIndexServer {
  is_public_key : PublicKey;
  is_address : ISA
}.
Arguments mkIndexServer {ISA}.
Arguments is_public_key {ISA}.
Arguments is_address {ISA}.

(** [From<NamedIndexServerAddress> for IndexServerAddress] *)
Definition index_server_of_named {ISA} (a : NamedIndexServerAddress ISA) : IndexServerAddress ISA :=
  mkIndexServer (ni_public_key a) (ni_address a).

Record FriendInfo := mkFriendInfo { fi_recv_capacity : Z; fi_rate : Rate }.
#[global] Instance FriendInfo_eq_dec : EqDecision FriendInfo.
Proof. solve_decision. Defined.

Record IndexClientState := mkIndexClientState { ics_friends : gmap (PublicKey * Currency) FriendInfo }.

Record IndexClientReport (ISA : Type) := mkIndexClientReport {
  icr_index_servers : list (NamedIndexServerAddress ISA);
  icr_opt_connected_server : option PublicKey
}.
Arguments mkIndexClientReport {ISA}.
Arguments icr_index_servers {ISA}.
Arguments icr_opt_connected_server {ISA}.

Inductive IndexClientReportMutation (ISA : Type) :=
| ReportAddIndexServer (a : NamedIndexServerAddress ISA)
| ReportRemoveIndexServer (pk : PublicKey)
| ReportSetConnectedServer (opt : option PublicKey).
Arguments ReportAddIndexServer {ISA}.
Arguments ReportRemoveIndexServer {ISA}.
Arguments ReportSetConnectedServer {ISA}.

Inductive ResponseRoutesResult :=
| RoutesSuccess (multi_routes : list MultiRoute)
| RoutesFailure.

Record ClientResponseRoutes := mkClientResponseRoutes {
  cr_request_id : Uid;
  cr_result : ResponseRoutesResult
}.

Record IndexClientReportMutations (ISA : Type) := mkIndexClientReportMutations {
  im_opt_app_request_id : option Uid;
  im_mutations : list (IndexClientReportMutation ISA)
}.
Arguments mkIndexClientReportMutations {ISA}.
Arguments im_opt_app_request_id {ISA}.
Arguments im_mutations {ISA}.

Inductive IndexClientToAppServer (ISA : Type) :=
| IcReportMutations (m : IndexClientReportMutations ISA)
| IcResponseRoutes (r : ClientResponseRoutes).
Arguments IcReportMutations {ISA}.
Arguments IcResponseRoutes {ISA}.

Inductive IndexClientRequest (ISA : Type) :=
| ReqAddIndexServer (a : NamedIndexServerAddress ISA)
| ReqRemoveIndexServer (pk : PublicKey)
| ReqRequestRoutes (r : RequestRoutes).
Arguments ReqAddIndexServer {ISA}.
Arguments ReqRemoveIndexServer {ISA}.
Arguments ReqRequestRoutes {ISA}.

Inductive AppServerToIndexClient (ISA : Type) :=
| AppRequestIndexClient (app_request_id : Uid) (r : IndexClientRequest ISA)
| ApplyIndexMutations (ms : list IndexMutation).
Arguments AppRequestIndexClient {ISA}.
Arguments ApplyIndexMutations {ISA}.

(** [self.index_servers.retain(|s| s.public_key != public_key)] *)
Definition retain_servers {ISA} (pk : PublicKey) (l : list (NamedIndexServerAddress ISA)) :
  list (NamedIndexServerAddress ISA) :=
  base.filter (fun s => ni_public_key s <> pk) l.

(** [IndexClientReport::mutate] *)
Definition icr_mutate {ISA} (r : IndexClientReport ISA) (m : IndexClientReportMutation ISA) :
  IndexClientReport ISA :=
  match m with
  | ReportAddIndexServer a =>
      mkIndexClientReport
        (retain_servers (ni_public_key a) (icr_index_servers r) ++
           [mkNamedIndexServer (ni_public_key a) (ni_address a) (ni_name a)])
        (icr_opt_connected_server r)
  | ReportRemoveIndexServer pk =>
      mkIndexClientReport (retain_servers pk (icr_index_servers r)) (icr_opt_connected_server r)
  | ReportSetConnectedServer opt => mkIndexClientReport (icr_index_servers r) opt
  end.

(** ** Signature of a [MutationsUpdate] *)

#[global] Instance ser_UpdateFriendCurrency : CanonicalSerialize UpdateFriendCurrency :=
  fun u => as_bytes (uf_public_key u) ++ canonical_serialize (uf_currency u)
    ++ write_u128 (uf_recv_capacity u).

#[global] Instance ser_RemoveFriendCurrency : CanonicalSerialize RemoveFriendCurrency :=
  fun r => as_bytes (rf_public_key r) ++ canonical_serialize (rf_currency r).

#[global] Instance ser_IndexMutation : CanonicalSerialize IndexMutation :=
  fun m => match m with
           | IndexUpdate u => x00 :: canonical_serialize u
           | IndexRemove r => x01 :: canonical_serialize r
           end.

Definition MUTATIONS_UPDATE_PREFIX : bytes := String.list_byte_of_string "MUTATIONS_UPDATE".

Section MutationsUpdateSignature.
Context `{CryptoOps}.

Definition create_mutations_update_signature_buff (m : MutationsUpdate) : bytes :=
  as_bytes (sha_512_256 MUTATIONS_UPDATE_PREFIX) ++ as_bytes (mu_node_public_key m)
    ++ write_u64 (Z.of_nat (length (mu_index_mutations m)))
    ++ concat (map canonical_serialize (mu_index_mutations m))
    ++ as_bytes (mu_time_hash m) ++ as_bytes (mu_session_id m)
    ++ write_u64 (mu_counter m) ++ as_bytes (mu_rand_nonce m).

Definition verify_mutations_update (m : MutationsUpdate) : bool :=
  verify_signature (create_mutations_update_signature_buff m) (mu_node_public_key m)
    (mu_signature m).

(** Replacing the signature, as the client does once it has signed. *)
Definition with_signature (m : MutationsUpdate) (s : Signature) : MutationsUpdate :=
  mkMutationsUpdate (mu_node_public_key m) (mu_index_mutations m) (mu_time_hash m)
    (mu_session_id m) (mu_counter m) (mu_rand_nonce m) s.

(** The signature does not sign itself. *)
Lemma with_signature_buff m s :
  create_mutations_update_signature_buff (with_signature m s) =
  create_mutations_update_signature_buff m.
Proof. done. Qed.
End MutationsUpdateSignature.

(** [m] with the rates of its updates replaced by [f]. *)
Definition reprice (f : UpdateFriendCurrency -> Rate) (m : IndexMutation) : IndexMutation :=
  match m with
  | IndexUpdate u =>
      IndexUpdate (mkUpdateFriendCurrency (uf_public_key u) (uf_currency u)
                     (uf_recv_capacity u) (f u))
  | IndexRemove r => IndexRemove r
  end.
Definition reprice_update (f : UpdateFriendCurrency -> Rate) (m : MutationsUpdate) : MutationsUpdate :=
  mkMutationsUpdate (mu_node_public_key m) (map (reprice f) (mu_index_mutations m))
    (mu_time_hash m) (mu_session_id m) (mu_counter m) (mu_rand_nonce m) (mu_signature m).

(** The rate of a friend is not covered by the signature of the
    announcement: whoever relays a [MutationsUpdate] can replace the rates in
    it by any others, and it still verifies under the key of the node. *)
Theorem mutations_rate_not_signed `{CryptoOps} (f : UpdateFriendCurrency -> Rate)
  (m : MutationsUpdate) :
  verify_mutations_update (reprice_update f m) = verify_mutations_update m.
Proof.
  unfold verify_mutations_update, create_mutations_update_signature_buff. simpl.
  rewrite length_map, map_map.
  assert (map (fun x => canonical_serialize (reprice f x)) (mu_index_mutations m) =
          map canonical_serialize (mu_index_mutations m)) as ->; [|done].
  apply map_ext. by intros [u|r].
Qed.
