(* ===== verification/MultiRoute.v ===== *)
(** * Choice of the amounts pushed along several routes

    Models [route/src/multi_route.rs]: a payment is split over the routes of a
    [MultiRoute]. [BigUint] values are plain integers; [Err tt] is the [None]
    the code returns when the routes cannot carry the amount, [Panic] a failed
    [unwrap]. *)

From S2P Require Import Prelude Arith Bytes Messages IndexMessages.

Local Open Scope Z_scope.

(** [(route_index, credits_to_push)] *)
Notation MultiRouteChoice := (list (nat * Z)).

(** The loop of [fill_amount]: [i] is the loop variable, [prev] is
    [sorted_routes[i - 1].1] and [rest] is [sorted_routes[i..]]. *)
Fixpoint fill_from (i : nat) (amount_left prev : Z) (rest : list (option nat * Z)) :
  outcome unit (nat * Z) :=
  match rest with
  | [] => Err tt
  | (_, cur) :: rest' =>
      let? diff := unwrap (checked_u 128 (prev - cur)) in
      let added_credits := diff * Z.of_nat i in
      if amount_left - added_credits <? 0 then Ok (i, amount_left)
      else if amount_left - added_credits =? 0 then Ok (i, amount_left)
      else fill_from (S i) (amount_left - added_credits) cur rest'
  end.

Definition fill_amount (amount : Z) (sorted_routes : list (option nat * Z)) : outcome unit (nat * Z) :=
  match sorted_routes with
  | [] => Err tt
  | (_, first) :: rest => fill_from 1 amount first rest
  end.

(** Stable insertion for [sort_by(|(_, a), (_, b)| b.cmp(a))]: largest first. *)
Fixpoint insert_route (x : option nat * Z) (l : list (option nat * Z)) : list (option nat * Z) :=
  match l with
  | [] => [x]
  | y :: l' => if snd x <? snd y then y :: insert_route x l' else x :: y :: l'
  end.

Definition sort_routes (l : list (option nat * Z)) : list (option nat * Z) := foldr insert_route [] l.

(** [route.rate.max_payable(route.capacity)] for each route, with its index. *)
Definition route_amounts (routes : list RouteCapacityRate) : option (list (option nat * Z)) :=
  let! amounts := omap_all (fun r => max_payable (rcr_rate r) (rcr_capacity r)) routes in
  Some (imap (fun j a => (Some j, a)) amounts).

(** The loop over [(0..num_routes).rev()]; [n] routes are left to choose. *)
Fixpoint push_routes (sorted_routes : list (option nat * Z)) (div_extra mod_extra : Z)
  (n : nat) (accum_credits : Z) (chosen_routes : MultiRouteChoice) : outcome unit MultiRouteChoice :=
  match n with
  | O => Ok chosen_routes
  | S i =>
      let? num_credits := unwrap (checked_u 128 (accum_credits + div_extra)) in
      let? num_credits :=
        (if Z.of_nat i <? mod_extra then unwrap (checked_u 128 (num_credits + 1)) else Ok num_credits) in
      let? route := unwrap (sorted_routes !! i) in
      let? index := unwrap (fst route) in
      let? accum_credits :=
        match i with
        | O => Ok accum_credits
        | S prev_i =>
            let? prev := unwrap (sorted_routes !! prev_i) in
            let? diff := unwrap (checked_u 128 (snd prev - snd route)) in
            unwrap (checked_u 128 (accum_credits + diff))
        end in
      push_routes sorted_routes div_extra mod_extra i accum_credits
        (chosen_routes ++ [(index, num_credits)])
  end.

Definition safe_multi_route_amounts (multi_route : MultiRoute) (amount : Z) :
  outcome unit MultiRouteChoice :=
  let? amounts := unwrap (route_amounts (mr_routes multi_route)) in
  let sorted_routes := sort_routes amounts ++ [(None, 0)] in
  let? (num_routes, amount_left) := fill_amount amount sorted_routes in
  let? div_extra := unwrap (checked_u 128 (amount_left / Z.of_nat num_routes)) in
  let? mod_extra := unwrap (checked_u 128 (amount_left mod Z.of_nat num_routes)) in
  push_routes sorted_routes div_extra mod_extra num_routes 0 [].

(** The loop of [choose_multi_route], [i] being the index of the first one. *)
Fixpoint choose_from (i : nat) (multi_routes : list MultiRoute) (amount : Z) :
  outcome unit (nat * MultiRouteChoice) :=
  match multi_routes with
  | [] => Err tt
  | multi_route :: rest =>
      match safe_multi_route_amounts multi_route amount with
      | Ok choice => Ok (i, choice)
      | Err _ => choose_from (S i) rest amount
      | Panic => Panic
      end
  end.

Definition choose_multi_route (multi_routes : list MultiRoute) (amount : Z) :
  outcome unit (nat * MultiRouteChoice) := choose_from 0 multi_routes amount.

(** ** Sorting *)

Definition sum_Z (l : list Z) : Z := foldr Z.add 0 l.

Lemma sum_Z_app l1 l2 : sum_Z (l1 ++ l2) = sum_Z l1 + sum_Z l2.
Proof. induction l1 as [|x l1 IH]; simpl in *; lia. Qed.
Lemma sum_Z_perm l1 l2 : l1 ≡ₚ l2 -> sum_Z l1 = sum_Z l2.
Proof. induction 1; simpl in *; lia. Qed.

Lemma insert_route_perm x l : insert_route x l ≡ₚ x :: l.
Proof.
  induction l as [|y l IH]; simpl; [done|]. destruct (_ <? _); [|done].
  rewrite IH. constructor.
Qed.
Lemma sort_routes_perm l : sort_routes l ≡ₚ l.
Proof. induction l as [|x l IH]; simpl; [done|]. by rewrite insert_route_perm, IH. Qed.

(** Adjacent amounts do not grow, and none is negative. *)
Fixpoint descending (l : list Z) : Prop :=
  match l with
  | [] => True
  | x :: l' => 0 <= x /\ (match l' with [] => True | y :: _ => y <= x end) /\ descending l'
  end.

Lemma descending_insert x l :
  0 <= snd x -> descending l.*2 -> descending (insert_route x l).*2.
Proof.
  intros Hx. induction l as [|y l IH]; intros Hd; simpl; [naive_solver|].
  simpl in Hd. destruct Hd as (Hy & Hl & Hd). destruct (Z.ltb_spec (snd x) (snd y)); simpl.
  - split; [done|]. split; [|auto]. destruct l as [|z l]; csimpl in *; [lia|]. destruct (snd x <? snd z); csimpl; lia.
  - naive_solver lia.
Qed.

Lemma descending_sort l : Forall (fun r => 0 <= snd r) l -> descending (sort_routes l).*2.
Proof. induction 1; simpl; [done|]. by apply descending_insert. Qed.

Lemma descending_snoc l : descending l -> descending (l ++ [0]).
Proof.
  induction l as [|x l IH]; simpl; [intros; split_and!; done || lia|].
  intros (Hx & Hl & Hd). split; [done|]. split; [|auto]. by destruct l; simpl in *.
Qed.

Lemma descending_lookup l i j x y :
  descending l -> l !! i = Some x -> l !! j = Some y -> (i <= j)%nat -> 0 <= y <= x.
Proof.
  revert i j x. induction l as [|z l IH]; intros i j x Hd Hi Hj Hij; [done|].
  destruct Hd as (Hz & Hl & Hd). destruct i as [|i], j as [|j]; simplify_eq/=; [lia| |lia|].
  - assert (exists w, l !! 0%nat = Some w) as [w Hw].
    { destruct l; [done|]. by eexists. }
    pose proof (IH 0%nat j w Hd Hw Hj ltac:(lia)). destruct l; simplify_eq/=; lia.
  - eapply (IH i j); eauto with lia.
Qed.

(** ** Filling the amount *)

(** What filling up to the level of entry [i - 1] has used: every larger entry
    is reduced to it. *)
Definition used (s : list Z) (i : nat) (level : Z) : Z := sum_Z (take i s) - Z.of_nat i * level.

Lemma used_step s i prev cur :
  s !! i = Some cur -> used s (S i) cur = used s i prev + (prev - cur) * Z.of_nat i.
Proof.
  intros Hi. unfold used. erewrite take_S_r by done. rewrite sum_Z_app. simpl. lia.
Qed.

Definition fill_post (s : list Z) (amount : Z) (n : nat) (left : Z) : Prop :=
  (1 <= n)%nat /\ exists a b, s !! (n - 1)%nat = Some a /\ s !! n = Some b /\ left = amount - used s n a /\ 0 <= left <= Z.of_nat n * (a - b) /\ (0 < amount -> 0 < left).

Lemma fill_from_spec (full : list (option nat * Z)) amount i left prev :
  descending full.*2 -> Forall (fun x => x <= u_max 128) full.*2 ->
  (1 <= i)%nat -> full.*2 !! (i - 1)%nat = Some prev ->
  left = amount - used full.*2 i prev -> 0 <= left -> (i = 1%nat \/ 0 < left) ->
  match fill_from i left prev (drop i full) with
  | Ok (n, left') => fill_post full.*2 amount n left'
  | Err _ => length full = 1%nat \/
             exists last, full.*2 !! (length full - 1)%nat = Some last /\
               used full.*2 (length full) last < amount
  | Panic => False
  end.
Proof.
  intros Hd Hmax. remember (length full - i)%nat as k eqn:Hk.
  revert i left prev Hk. induction k as [|k IH]; intros i left prev Hk Hi Hprev Hleft H0 Hpos.
  all: assert (i - 1 < length full)%nat by (apply lookup_lt_Some in Hprev; by rewrite length_fmap in Hprev).
  - rewrite drop_ge by lia. simpl. assert (i = length full) as -> by lia.
    destruct Hpos; [by left|]. right. exists prev. split; [done|lia].
  - destruct (full !! i) as [[o cur]|] eqn:Hcur; [|apply lookup_ge_None in Hcur; lia].
    erewrite drop_S by done. simpl.
    assert (full.*2 !! i = Some cur) as Hs by (by rewrite list_lookup_fmap, Hcur).
    pose proof (descending_lookup _ _ _ _ _ Hd Hprev Hs ltac:(lia)) as Hle.
    pose proof (proj1 (Forall_lookup _ _) Hmax _ _ Hprev) as Hpm.
    pose proof (used_step _ _ prev _ Hs) as Hu. simpl in Hpm.
    rewrite checked_u_ok by (unfold u_ok; lia). simpl.
    assert (0 <= (prev - cur) * Z.of_nat i) by nia.
    destruct (Z.ltb_spec (left - (prev - cur) * Z.of_nat i) 0);
      [|destruct (Z.eqb_spec (left - (prev - cur) * Z.of_nat i) 0)].
    1,2: split; [done|]; exists prev, cur; split_and!; try done; try lia; intros;
      destruct Hpos as [->|]; [|lia]; unfold used in Hleft; rewrite Hleft; simpl in Hprev;
      destruct full.*2; simplify_eq/=; lia.
    apply IH; [lia|lia| |lia|lia|lia].
    by replace (S i - 1)%nat with i by lia.
Qed.

(** ** Choosing the credits of each route *)

Definition extra (div_extra mod_extra : Z) (k : nat) : Z :=
  div_extra + if Z.of_nat k <? mod_extra then 1 else 0.

(** The choice made for entry [k] of the sorted routes, at level [a]. *)
Definition pushed (a div_extra mod_extra : Z) (k : nat) (r : option nat * Z) : nat * Z :=
  (default 0%nat (fst r), snd r - a + extra div_extra mod_extra k).
Arguments pushed : simpl never.

Lemma imap_take_S {A B} (f : nat -> A -> B) (l : list A) i x :
  l !! i = Some x -> imap f (take (S i) l) = imap f (take i l) ++ [f i x].
Proof.
  intros Hi. erewrite take_S_r by done. rewrite imap_app. simpl.
  rewrite length_take, Nat.min_l by (apply lookup_lt_Some in Hi; lia). by rewrite Nat.add_0_r.
Qed.

Lemma push_routes_spec (full : list (option nat * Z)) a div_extra mod_extra i accum chosen :
  descending full.*2 -> Forall (fun x => x <= u_max 128) full.*2 ->
  (forall k r, (k < i)%nat -> full !! k = Some r -> is_Some (fst r) /\ a <= snd r) ->
  (i <= length full)%nat -> 0 <= div_extra ->
  (forall k, extra div_extra mod_extra k <= a) ->
  (forall r, (1 <= i)%nat -> full !! (i - 1)%nat = Some r -> accum = snd r - a) ->
  push_routes full div_extra mod_extra i accum chosen =
    Ok (chosen ++ reverse (imap (pushed a div_extra mod_extra) (take i full))).
Proof.
  intros Hd Hmax. revert accum chosen.
  induction i as [|i IH]; intros accum chosen Hall Hlen Hdiv Hex Hacc.
  { rewrite take_0. simpl. by rewrite app_nil_r. }
  destruct (full !! i) as [[o c]|] eqn:Hi; [|apply lookup_ge_None in Hi; lia].
  pose proof (Hacc (o, c) ltac:(lia)) as Ha. rewrite Nat.sub_succ, Nat.sub_0_r in Ha.
  specialize (Ha Hi). simpl in Ha.
  destruct (Hall i _ ltac:(lia) Hi) as [[j Hj] Hac]. simpl in Hj, Hac. subst o.
  assert (full.*2 !! i = Some c) as Hs by (by rewrite list_lookup_fmap, Hi).
  pose proof (proj1 (Forall_lookup _ _) Hmax _ _ Hs) as Hcm. simpl in Hcm.
  pose proof (Hex i) as Hei. unfold extra in Hei.
  erewrite imap_take_S by done. rewrite reverse_app, reverse_singleton, (app_assoc chosen). simpl.
  rewrite checked_u_ok by (unfold u_ok; destruct (_ <? _) in Hei; lia). simpl.
  assert ((if Z.of_nat i <? mod_extra then unwrap (checked_u 128 (accum + div_extra + 1))
           else Ok (accum + div_extra)) =
          @Ok unit _ (accum + extra div_extra mod_extra i)) as ->.
  { unfold extra. destruct (_ <? _); [|f_equal; lia].
    rewrite checked_u_ok by (unfold u_ok; lia). simpl. f_equal. lia. }
  simpl. rewrite Hi. simpl.
  assert ((j, accum + extra div_extra mod_extra i) = pushed a div_extra mod_extra i (Some j, c)) as ->.
  { unfold pushed. simpl. f_equal. lia. }
  remember (push_routes full div_extra mod_extra i) as loop eqn:Hloop.
  destruct i as [|p]; simpl obind.
  - subst loop. rewrite take_0. simpl. by rewrite app_nil_r.
  - destruct (full !! p) as [[o' c']|] eqn:Hp; [|apply lookup_ge_None in Hp; lia]. cbn [unwrap obind snd fst].
    assert (full.*2 !! p = Some c') as Hs' by (by rewrite list_lookup_fmap, Hp).
    pose proof (descending_lookup _ _ _ _ _ Hd Hs' Hs ltac:(lia)) as Hle.
    pose proof (proj1 (Forall_lookup _ _) Hmax _ _ Hs') as Hcm'. simpl in Hcm'.
    assert (0 <= a) by (pose proof (Hex 0%nat); unfold extra in *; destruct (_ <? _); lia).
    rewrite checked_u_ok by (unfold u_ok; lia). cbn [unwrap obind].
    rewrite checked_u_ok by (unfold u_ok; lia). cbn [unwrap obind]. subst loop. apply IH; try done; try lia.
    + intros k r Hk. apply Hall. lia.
    + intros r _. rewrite Nat.sub_succ, Nat.sub_0_r. intros. simplify_eq/=. lia.
Qed.

(** ** Correctness of the choice *)

Definition routes_ok (m : MultiRoute) : Prop :=
  Forall (fun r => rate_ok (rcr_rate r) /\ u_ok 128 (rcr_capacity r)) (mr_routes m).

(** The most that can be paid along a route, 0 when its fee does not fit. *)
Definition payable (r : RouteCapacityRate) : Z := default 0 (max_payable (rcr_rate r) (rcr_capacity r)).

(** A payment that fits in a route together with its fee. *)
Definition fits (r : RouteCapacityRate) (c : Z) : Prop :=
  exists fee, calc_fee (rcr_rate r) c = Some fee /\ c + fee <= rcr_capacity r.

Lemma payable_spec r :
  rate_ok (rcr_rate r) -> u_ok 128 (rcr_capacity r) ->
  max_payable (rcr_rate r) (rcr_capacity r) = Some (payable r) /\ 0 <= payable r <= u_max 128 /\
  (forall c, 0 <= c <= payable r -> 0 < payable r -> fits r c).
Proof.
  intros Hr Hc. destruct (max_payable_correct _ _ Hr Hc) as (x & Hx & Hu & Hle & Hlt).
  unfold payable. rewrite Hx. simpl. split; [done|]. split; [exact Hu|]. intros c Hcx Hx0.
  destruct Hle as [(fee & Hfee & Hsum) _]; [lia|]. unfold fits, calc_fee in *.
  destruct Hr as [[Hm _] [Ha _]]. destruct Hc as [_ Hc]. unfold u_ok in *.
  apply checked_u_Some in Hfee as [_ ->]. rewrite !Z.shiftr_div_pow2 in * by lia.
  assert (c * rate_mul (rcr_rate r) / 2 ^ 32 <= x * rate_mul (rcr_rate r) / 2 ^ 32)
    by (apply Z.div_le_mono; nia).
  assert (0 <= c * rate_mul (rcr_rate r) / 2 ^ 32) by (apply Z.div_pos; nia).
  eexists. rewrite checked_u_ok by (unfold u_ok; lia). split; [done|]. lia.
Qed.

Lemma route_amounts_ok m :
  routes_ok m ->
  route_amounts (mr_routes m) = Some (imap (fun j a => (Some j, a)) (payable <$> mr_routes m)).
Proof.
  intros Hok. unfold route_amounts. rewrite (omap_all_Some _ payable); [done|].
  intros r Hr. apply (proj1 (Forall_forall _ _) Hok) in Hr as [Hr Hc]. by apply payable_spec.
Qed.

Lemma elem_of_indexed (l : list Z) o c :
  (o, c) ∈ imap (fun j a => (Some j, a)) l <-> exists j, o = Some j /\ l !! j = Some c.
Proof. rewrite list_elem_of_lookup. setoid_rewrite list_lookup_imap_Some. naive_solver. Qed.

Lemma indexed_keys (l : list Z) :
  NoDup (imap (fun j a => (Some j, a)) l).*1 /\ (imap (fun j a => (Some j, a)) l).*2 = l.
Proof.
  split; [|rewrite fmap_imap; etrans; [apply imap_const|apply list_fmap_id]].
  apply NoDup_alt. intros i j x. rewrite !list_lookup_fmap.
  intros (p & Hp & ->)%fmap_Some (q & Hq & Heq)%fmap_Some.
  apply list_lookup_imap_Some in Hp as (? & ? & ->), Hq as (? & ? & ->). naive_solver.
Qed.

Lemma sum_pushed a div_extra mod_extra (l : list (option nat * Z)) :
  0 <= mod_extra ->
  sum_Z (imap (pushed a div_extra mod_extra) l).*2 =
    used l.*2 (length l) a + Z.of_nat (length l) * div_extra + Z.min (Z.of_nat (length l)) mod_extra.
Proof.
  intros Hm. unfold used. rewrite (take_ge l.*2) by (rewrite length_fmap; lia).
  induction l as [|x l IH] using rev_ind; [simpl; lia|].
  rewrite imap_app, !fmap_app, !sum_Z_app, IH, length_app. simpl. unfold pushed, extra. simpl.
  rewrite Nat.add_0_r. destruct (Z.ltb_spec (Z.of_nat (length l)) mod_extra); lia.
Qed.

Lemma sum_take_le s n : Forall (fun x => 0 <= x) s -> sum_Z (take n s) <= sum_Z s.
Proof.
  intros Hs. rewrite <- (take_drop n s) at 2. rewrite sum_Z_app.
  assert (0 <= sum_Z (drop n s)); [|lia].
  apply (Forall_drop _ n) in Hs. induction Hs; simpl in *; lia.
Qed.

Section Choice.
Context (m : MultiRoute) (Hok : routes_ok m).

Let indexed : list (option nat * Z) := imap (fun j a => (Some j, a)) (payable <$> mr_routes m).
Let full : list (option nat * Z) := sort_routes indexed ++ [(None, 0)].

Lemma elem_of_sorted r :
  r ∈ sort_routes indexed ->
  exists j route, r = (Some j, payable route) /\ mr_routes m !! j = Some route /\
    rate_ok (rcr_rate route) /\ u_ok 128 (rcr_capacity route).
Proof.
  rewrite sort_routes_perm. destruct r as [o c]. intros (j & -> & Hj)%elem_of_indexed.
  rewrite list_lookup_fmap in Hj. apply fmap_Some in Hj as (route & Hr & ->).
  exists j, route. split; [done|]. split; [done|].
  by apply (proj1 (Forall_lookup _ _) Hok) in Hr.
Qed.

Lemma sorted_bounds r : r ∈ full -> 0 <= snd r <= u_max 128.
Proof.
  intros [Hr| ->%list_elem_of_singleton]%elem_of_app; [|by vm_compute].
  apply elem_of_sorted in Hr as (j & route & -> & _ & Hr & Hc). by apply payable_spec.
Qed.

Lemma full_descending : descending full.*2.
Proof.
  unfold full. rewrite fmap_app. apply descending_snoc, descending_sort, Forall_forall.
  intros r Hr. apply sorted_bounds, elem_of_app. left. by rewrite sort_routes_perm.
Qed.

Lemma full_bounded : Forall (fun x => x <= u_max 128) full.*2.
Proof. apply Forall_fmap, Forall_forall. intros r Hr. simpl. by apply sorted_bounds. Qed.

Lemma full_nonneg : Forall (fun x => 0 <= x) full.*2.
Proof. apply Forall_fmap, Forall_forall. intros r Hr. simpl. by apply sorted_bounds. Qed.

Lemma full_length : length full = S (length (mr_routes m)).
Proof.
  unfold full. rewrite length_app, sort_routes_perm. unfold indexed.
  rewrite length_imap, length_fmap. simpl. lia.
Qed.

Lemma full_sum : sum_Z full.*2 = sum_Z (payable <$> mr_routes m).
Proof.
  unfold full. rewrite fmap_app, sum_Z_app. simpl. rewrite Z.add_0_r.
  rewrite <- (proj2 (indexed_keys (payable <$> mr_routes m))). apply sum_Z_perm.
  by rewrite sort_routes_perm.
Qed.

(** The entries before [n] are real routes when [n] is still an entry. *)
Lemma full_before n r x k : full !! n = Some x -> (k < n)%nat -> full !! k = Some r -> r ∈ sort_routes indexed.
Proof.
  intros Hn Hk Hr. apply lookup_lt_Some in Hn. unfold full in *. rewrite length_app in Hn. simpl in Hn.
  rewrite lookup_app_l in Hr by lia. by eapply list_elem_of_lookup_2.
Qed.

Lemma fill_full amount :
  u_ok 128 amount ->
  match fill_amount amount full with
  | Ok (n, todo) => fill_post full.*2 amount n todo
  | Err _ => mr_routes m = [] \/ sum_Z (payable <$> mr_routes m) < amount
  | Panic => False
  end.
Proof.
  intros Ha.
  assert (exists first, full.*2 !! 0%nat = Some first /\
            fill_amount amount full = fill_from 1 amount first (drop 1 full)) as (first & H0 & ->).
  { pose proof full_length as Hl. destruct full as [|[o first] rest]; [done|]. by exists first. }
  pose proof (fill_from_spec full amount 1 amount first full_descending full_bounded
    ltac:(lia) H0) as Hs.
  assert (amount = amount - used full.*2 1 first) as Hu.
  { unfold used. destruct full.*2; simplify_eq/=. lia. }
  specialize (Hs Hu (proj1 Ha) (or_introl eq_refl)). revert Hs.
  destruct (fill_from _ _ _ _) as [[n todo]|[]|]; [done| |done].
  rewrite full_length. intros [Hl|(last & Hlast & Hlt)].
  - left. destruct (mr_routes m); [done|]. simpl in Hl. lia.
  - right. rewrite Nat.sub_succ, Nat.sub_0_r in Hlast.
    assert (last = 0) as ->.
    { assert (length (sort_routes indexed).*2 = length (mr_routes m)) as El.
      { rewrite length_fmap, sort_routes_perm. unfold indexed. by rewrite length_imap, length_fmap. }
      unfold full in Hlast. rewrite fmap_app, lookup_app_r, El, Nat.sub_diag in Hlast by lia.
      by simplify_eq/=. }
    unfold used in Hlt. rewrite <- full_length, take_ge in Hlt by (rewrite length_fmap; lia).
    rewrite full_sum in Hlt. lia.
Qed.

(** A choice that carries [amount] over distinct routes, within what each can pay. *)
Definition good_choice (amount : Z) (choice : MultiRouteChoice) : Prop :=
  sum_Z choice.*2 = amount /\ NoDup choice.*1 /\ amount <= sum_Z (payable <$> mr_routes m) /\
  forall j c, (j, c) ∈ choice ->
    exists route, mr_routes m !! j = Some route /\ 0 <= c <= payable route /\
      (0 < amount -> fits route c).

Lemma pushed_good amount n a b todo :
  (1 <= n)%nat -> full.*2 !! (n - 1)%nat = Some a -> full.*2 !! n = Some b ->
  todo = amount - used full.*2 n a -> 0 <= todo <= Z.of_nat n * (a - b) ->
  (0 < amount -> 0 < todo) ->
  good_choice amount
    (reverse (imap (pushed a (todo / Z.of_nat n) (todo mod Z.of_nat n)) (take n full))).
Proof.
  intros Hn Ha Hb Htodo Hle Hpos.
  pose proof (lookup_lt_Some _ _ _ Hb) as Hlen. rewrite length_fmap in Hlen.
  pose proof (Z.div_mod todo (Z.of_nat n) ltac:(lia)) as Hdm.
  pose proof (Z.mod_pos_bound todo (Z.of_nat n) ltac:(lia)) as Hmod.
  assert (0 <= b) by (pose proof full_nonneg as Hnn; by eapply (Forall_lookup_1 _ _ _ _ Hnn) in Hb).
  set (q := todo / Z.of_nat n) in *. set (r := todo mod Z.of_nat n) in *.
  assert (0 <= q) by (apply Z.div_pos; lia).
  assert (forall k, extra q r k <= a - b) as Hex.
  { intros k. unfold extra. destruct (Z.ltb_spec (Z.of_nat k) r); nia. }
  assert (length (take n full) = n) as Hln by (rewrite length_take; lia).
  split_and!.
  - rewrite fmap_reverse, (sum_Z_perm _ _ (reverse_Permutation _)), sum_pushed by lia.
    rewrite Hln. unfold used in *. rewrite fmap_take, take_take, Nat.min_id in *. lia.
  - rewrite fmap_reverse, reverse_Permutation. apply (NoDup_fmap_1 Some).
    assert (Some <$> (imap (pushed a q r) (take n full)).*1 = (take n (sort_routes indexed)).*1) as ->.
    { apply list_eq. intros k. rewrite !list_lookup_fmap, list_lookup_imap.
      destruct (decide (k < n)%nat); [|by rewrite !lookup_take_ge by lia].
      rewrite !lookup_take_lt by lia. rewrite list_lookup_fmap in Hb; apply fmap_Some in Hb as ([o' x'] & Hb & ->).
      assert (full !! k = sort_routes indexed !! k) as Hk.
      { unfold full in *. apply lookup_app_l. apply lookup_lt_Some in Hb.
        rewrite length_app in Hb. simpl in Hb. lia. }
      rewrite Hk. destruct (sort_routes indexed !! k) as [x|] eqn:Hx; [|done]. simpl.
      apply list_elem_of_lookup_2, elem_of_sorted in Hx as (j & route & -> & _). done. }
    rewrite fmap_take. eapply sublist_NoDup; [|apply sublist_take].
    rewrite sort_routes_perm. apply indexed_keys.
  - rewrite <- full_sum. pose proof (sum_take_le full.*2 n full_nonneg). unfold used in *. nia.
  - intros j c Hjc. rewrite reverse_Permutation in Hjc.
    apply list_elem_of_lookup in Hjc as [k Hk]. apply list_lookup_imap_Some in Hk as (x & Hx & Heq).
    destruct (decide (k < n)%nat); [|by rewrite lookup_take_ge in Hx by lia].
    rewrite lookup_take_lt in Hx by done. pose proof Hb as Hb'.
    rewrite list_lookup_fmap in Hb'; apply fmap_Some in Hb' as ([o' x'] & Hb' & ->).
    pose proof (full_before n _ _ k Hb' ltac:(lia) Hx) as Hin.
    apply elem_of_sorted in Hin as (j' & route & -> & Hr & Hrate & Hcap).
    assert (full.*2 !! k = Some (payable route)) as Hk by (by rewrite list_lookup_fmap, Hx).
    pose proof (descending_lookup _ _ _ _ _ full_descending Hk Ha ltac:(lia)).
    unfold pushed in Heq. simpl in Heq. simplify_eq. exists route. split; [done|].
    pose proof (Hex k). destruct (payable_spec route Hrate Hcap) as (_ & _ & Hfit).
    assert (0 <= extra q r k) by (unfold extra; destruct (_ <? _); lia). simpl in *.
    split; [lia|]. intros Hamount. specialize (Hpos Hamount). apply Hfit; [lia|nia].
Qed.

Lemma safe_multi_route_correct amount :
  u_ok 128 amount ->
  match safe_multi_route_amounts m amount with
  | Ok choice => good_choice amount choice
  | Err _ => mr_routes m = [] \/ sum_Z (payable <$> mr_routes m) < amount
  | Panic => False
  end.
Proof.
  intros Ha. unfold safe_multi_route_amounts. rewrite route_amounts_ok by done. cbn [unwrap obind].
  fold indexed full. pose proof (fill_full amount Ha) as Hf.
  destruct (fill_amount amount full) as [[n todo]|[]|]; cbn [obind]; [|done|done].
  destruct Hf as (Hn & a & b & Hla & Hlb & Htodo & Hle & Hpos).
  assert (0 <= b) by (pose proof full_nonneg as Hnn; by eapply (Forall_lookup_1 _ _ _ _ Hnn) in Hlb).
  assert (a <= u_max 128) by (pose proof full_bounded as Hnn; by eapply (Forall_lookup_1 _ _ _ _ Hnn) in Hla).
  pose proof (Z.div_mod todo (Z.of_nat n) ltac:(lia)) as Hdm.
  pose proof (Z.mod_pos_bound todo (Z.of_nat n) ltac:(lia)) as Hmod.
  assert (0 <= todo / Z.of_nat n) by (apply Z.div_pos; lia).
  assert (todo <= u_max 128).
  { destruct Ha as [_ Ha]. unfold used in Htodo.
    assert (0 <= sum_Z (take n full.*2) - Z.of_nat n * a); [|lia].
    assert (forall k, (k <= n)%nat -> Z.of_nat k * a <= sum_Z (take k full.*2)) as Hk.
    { induction k as [|k IH]; intros Hk; [simpl; lia|].
      destruct (full.*2 !! k) as [x|] eqn:Hx; [|apply lookup_ge_None in Hx; apply lookup_lt_Some in Hlb; lia].
      erewrite take_S_r by done. rewrite sum_Z_app. simpl.
      pose proof (descending_lookup _ _ _ _ _ full_descending Hx Hla ltac:(lia)). lia. }
    specialize (Hk n). lia. }
  rewrite checked_u_ok by (unfold u_ok; nia). cbn [unwrap obind].
  rewrite checked_u_ok by (unfold u_ok; nia). cbn [unwrap obind].
  rewrite (push_routes_spec full a).
  - simpl. by apply (pushed_good amount n a b).
  - apply full_descending.
  - apply full_bounded.
  - intros k r Hk Hr. pose proof Hlb as Hb'. rewrite list_lookup_fmap in Hb'; apply fmap_Some in Hb' as (x & Hb' & ->).
    assert (full.*2 !! k = Some (snd r)) as Hk2 by (by rewrite list_lookup_fmap, Hr).
    pose proof (descending_lookup _ _ _ _ _ full_descending Hk2 Hla ltac:(lia)). split; [|lia].
    eapply full_before in Hr; [|done|done]. by apply elem_of_sorted in Hr as (j & route & -> & _).
  - apply lookup_lt_Some in Hlb. rewrite length_fmap in Hlb. lia.
  - done.
  - intros k. unfold extra. destruct (Z.ltb_spec (Z.of_nat k) (todo mod Z.of_nat n)); nia.
  - intros r _ Hr. rewrite list_lookup_fmap, Hr in Hla. simplify_eq/=. lia.
Qed.
End Choice.

Definition cannot_carry (amount : Z) (m : MultiRoute) : Prop :=
  mr_routes m = [] \/ sum_Z (payable <$> mr_routes m) < amount.

Lemma choose_from_spec i multi_routes amount :
  Forall routes_ok multi_routes -> u_ok 128 amount ->
  match choose_from i multi_routes amount with
  | Ok (k, choice) =>
      exists d m, k = (i + d)%nat /\ multi_routes !! d = Some m /\ good_choice m amount choice /\
        Forall (cannot_carry amount) (take d multi_routes)
  | Err _ => Forall (cannot_carry amount) multi_routes
  | Panic => False
  end.
Proof.
  intros Hok Ha. revert i. induction Hok as [|m l Hm Hl IH]; intros i; simpl; [constructor|].
  pose proof (safe_multi_route_correct m Hm amount Ha) as Hs.
  destruct (safe_multi_route_amounts m amount) as [choice|[]|]; [|..|done].
  - exists 0%nat, m. rewrite take_0. split_and!; [lia|done|done|constructor].
  - specialize (IH (S i)). destruct (choose_from (S i) l amount) as [[k choice]|[]|]; [|by constructor|done].
    destruct IH as (d & m' & -> & Hd & Hgood & Hall). exists (S d), m'. simpl.
    split_and!; [lia|done|done|by constructor].
Qed.

(** C18. The split of a payment over routes never panics. It fails exactly when
    no multi-route can carry the amount with its fees; otherwise it takes the
    first one that can, uses each route at most once, the credits add up to the
    amount, and what is pushed along a route fits in its capacity together with
    the fee. *)
Theorem choose_multi_route_correct (multi_routes : list MultiRoute) (amount : Z)
  (Hok : Forall routes_ok multi_routes) (Ha : u_ok 128 amount) :
  match choose_multi_route multi_routes amount with
  | Ok (k, choice) =>
      exists m, multi_routes !! k = Some m /\ good_choice m amount choice /\
        Forall (cannot_carry amount) (take k multi_routes)
  | Err _ => Forall (cannot_carry amount) multi_routes
  | Panic => False
  end.
Proof.
  pose proof (choose_from_spec 0 multi_routes amount Hok Ha) as H.
  unfold choose_multi_route. destruct (choose_from 0 multi_routes amount) as [[k choice]|[]|]; [|done|done].
  destruct H as (d & m & -> & H). by exists m.
Qed.

Module MultiRouteSamples.
Definition pk (i : Z) : PublicKey := fixed_of_prefix 32 (be_bytes 1 i).
Definition route (l : list Z) (capacity : Z) (r : Rate) : RouteCapacityRate :=
  mkRouteCapacityRate (mkRoute (map pk l)) capacity r.
(** The routes of [test_safe_multi_route_amounts]. *)
Definition sample : MultiRoute := mkMultiRoute
  [route [0; 1; 2; 3; 4] 100 (mkRate 0x12345678 1);
   route [0; 5; 6; 4] 200 (mkRate 0x00100000 5);
   route [0; 7; 8; 9; 4] 300 (mkRate 0x20000000 20)].

Lemma choose_multi_route_correct_witness :
  exists choice, choose_multi_route [mkMultiRoute []; sample] 300 = Ok (1%nat, choice) /\
    good_choice sample 300 choice.
Proof.
  pose proof (choose_multi_route_correct [mkMultiRoute []; sample] 300) as H.
  destruct (choose_multi_route [mkMultiRoute []; sample] 300) as [[k choice]|[]|] eqn:E.
  - assert (k = 1%nat) as -> by (revert E; vm_compute; congruence).
    exists choice. split; [done|]. destruct H as (m & Hm & Hg & _).
    + repeat constructor; vm_compute; discriminate.
    + split; vm_compute; discriminate.
    + simpl in Hm. by injection Hm as <-.
  - exfalso. revert E. vm_compute. discriminate.
  - exfalso. revert E. vm_compute. discriminate.
Defined.

Example sample_choice :
  choose_multi_route [sample] 300 = Ok (0%nat, [(0%nat, 14); (1%nat, 116); (2%nat, 170)]) /\
  choose_multi_route [sample] 601 = Err tt.
Proof. split; reflexivity. Qed.
End MultiRouteSamples.
