(* ===== verification/SeqMap.v ===== *)
(** * The sequential map of the index client

    Models [index_client/src/seq_map.rs] and the state kept by
    [index_client/src/seq_friends.rs]: a map whose pairs are announced one after
    the other, in a cycle that survives insertions and removals. *)

From S2P Require Import Prelude Arith Bytes Messages Canonical IndexMessages.

(** ** [SeqMap] *)

Section SeqMap.
Context {K V : Type} `{Countable K}.

(** [queue] holds the keys in the order in which they will be announced. *)
Record SeqMap := mkSeqMap {
  sm_map : gmap K V;
  sm_queue : list K;
  sm_cycle_countdown : nat
}.

Definition sm_new (map : gmap K V) : SeqMap :=
  let queue := (map_to_list map).*1 in
  mkSeqMap map queue (length queue).

(** [self.queue.retain(|cur_key| cur_key != &key)] *)
Definition retain_ne (key : K) (queue : list K) : list K := base.filter (fun k => k <> key) queue.

Definition sm_update (s : SeqMap) (key : K) (value : V) : SeqMap * option V :=
  (mkSeqMap (<[key := value]> (sm_map s)) (retain_ne key (sm_queue s) ++ [key])
     (sm_cycle_countdown s), sm_map s !! key).

Definition sm_remove (s : SeqMap) (key : K) : SeqMap * option V :=
  (mkSeqMap (delete key (sm_map s)) (retain_ne key (sm_queue s)) (sm_cycle_countdown s),
   sm_map s !! key).

Definition sm_reset_countdown (s : SeqMap) : SeqMap :=
  mkSeqMap (sm_map s) (sm_queue s) (length (sm_queue s)).

(** [next]: the outer [None] is the panic of [self.map.get(&key).unwrap()]. *)
Definition sm_next (s : SeqMap) : option (SeqMap * option (nat * (K * V))) :=
  match sm_queue s with
  | [] => Some (s, None)
  | key :: rest =>
      let! value := sm_map s !! key in
      let countdown := (sm_cycle_countdown s - 1)%nat in
      Some (mkSeqMap (sm_map s) (rest ++ [key]) countdown, Some (countdown, (key, value)))
  end.

(** ** Well-formedness *)

(** The queue holds exactly the keys of the map, each once. *)
Definition sm_ok (s : SeqMap) : Prop :=
  NoDup (sm_queue s) /\ forall k, k ∈ sm_queue s <-> is_Some (sm_map s !! k).

Lemma elem_of_retain_ne k key q : k ∈ retain_ne key q <-> k <> key /\ k ∈ q.
Proof. unfold retain_ne. by rewrite list_elem_of_filter. Qed.

Lemma sm_new_ok m : sm_ok (sm_new m).
Proof.
  split; [apply NoDup_fst_map_to_list|]. intros k. simpl. rewrite list_elem_of_fmap. split.
  - intros ([k' v] & -> & Hv%elem_of_map_to_list). by exists v.
  - intros [v Hv]. exists (k, v). by rewrite elem_of_map_to_list.
Qed.

Lemma sm_update_ok s k v : sm_ok s -> sm_ok (fst (sm_update s k v)).
Proof.
  intros [Hn Hk]. split; simpl.
  - apply NoDup_app. split_and!; [by apply NoDup_filter| |apply NoDup_singleton].
    intros x [Hx _]%elem_of_retain_ne ->%list_elem_of_singleton. done.
  - intros x. rewrite elem_of_app, elem_of_retain_ne, list_elem_of_singleton, Hk.
    destruct (decide (x = k)) as [->|Hne]; [rewrite lookup_insert_eq; naive_solver|].
    rewrite lookup_insert_ne by done. naive_solver.
Qed.

Lemma sm_remove_ok s k : sm_ok s -> sm_ok (fst (sm_remove s k)).
Proof.
  intros [Hn Hk]. split; simpl; [by apply NoDup_filter|].
  intros x. rewrite elem_of_retain_ne, Hk.
  destruct (decide (x = k)) as [->|Hne]; [rewrite lookup_delete_eq; split; [naive_solver|intros []; done]|].
  rewrite lookup_delete_ne by done. naive_solver.
Qed.

Lemma sm_reset_ok s : sm_ok s -> sm_ok (sm_reset_countdown s).
Proof. done. Qed.

Lemma sm_next_ok s :
  sm_ok s ->
  match sm_queue s with
  | [] => sm_next s = Some (s, None)
  | k :: rest => exists v, sm_map s !! k = Some v /\
      sm_next s = Some (mkSeqMap (sm_map s) (rest ++ [k]) (sm_cycle_countdown s - 1),
                        Some ((sm_cycle_countdown s - 1)%nat, (k, v)))
  end /\
  forall s' o, sm_next s = Some (s', o) -> sm_ok s' /\ sm_map s' = sm_map s.
Proof.
  intros [Hn Hk]. unfold sm_next. destruct (sm_queue s) as [|k rest] eqn:Hq.
  - split; [done|]. intros s' o [= <- <-]. split; [|done]. split; rewrite ?Hq; [constructor|done].
  - destruct (proj1 (Hk k)) as [v Hv]; [left|]. rewrite Hv. simpl. split; [by exists v|].
    intros s' o [= <- <-]. split; [|done].
    assert (k :: rest ≡ₚ rest ++ [k]) as Hp by by rewrite Permutation_app_comm.
    split; simpl; [by rewrite <- Hp|]. intros x. rewrite <- Hp, Hk. done.
Qed.
End SeqMap.
Arguments SeqMap K V {_ _}.

(** ** The service of [seq_friends.rs] *)

Notation SeqFriends := (SeqMap (PublicKey * Currency) FriendInfo).

Inductive SeqFriendsRequest :=
| SfMutate (m : IndexMutation)
| SfResetCountdown
| SfNextUpdate.

Inductive SeqFriendsResponse :=
| SfDone
| SfUpdate (o : option (nat * UpdateFriendCurrency)).

Definition apply_index_mutation (s : SeqFriends) (m : IndexMutation) : SeqFriends :=
  match m with
  | IndexUpdate u =>
      fst (sm_update s (uf_public_key u, uf_currency u)
             (mkFriendInfo (uf_recv_capacity u) (uf_rate u)))
  | IndexRemove r => fst (sm_remove s (rf_public_key r, rf_currency r))
  end.

(** The update announced for a pair of the map. *)
Definition update_of (kv : (PublicKey * Currency) * FriendInfo) : UpdateFriendCurrency :=
  mkUpdateFriendCurrency (fst (fst kv)) (snd (fst kv)) (fi_recv_capacity (snd kv)) (fi_rate (snd kv)).

(** One iteration of [seq_friends_loop]; [None] is a panic. *)
Definition seq_friends_step (s : SeqFriends) (r : SeqFriendsRequest) :
  option (SeqFriends * SeqFriendsResponse) :=
  match r with
  | SfMutate m => Some (apply_index_mutation s m, SfDone)
  | SfResetCountdown => Some (sm_reset_countdown s, SfDone)
  | SfNextUpdate =>
      let! (s', o) := sm_next s in
      Some (s', SfUpdate (option_map (fun '(countdown, kv) => (countdown, update_of kv)) o))
  end.

Fixpoint seq_friends_loop (s : SeqFriends) (rs : list SeqFriendsRequest) :
  option (SeqFriends * list SeqFriendsResponse) :=
  match rs with
  | [] => Some (s, [])
  | r :: rs' =>
      let! (s', o) := seq_friends_step s r in
      let! (s'', os) := seq_friends_loop s' rs' in
      Some (s'', o :: os)
  end.

(** ** What a listener of the announcements knows

    [announced] is what a server is told during a request: the mutation
    itself, or the pair chosen by [next]. [learn] applies it to the listener's
    copy of the friends of the node. *)
Definition announced (r : SeqFriendsRequest) (o : SeqFriendsResponse) : list IndexMutation :=
  match r, o with
  | SfMutate m, _ => [m]
  | SfNextUpdate, SfUpdate (Some (_, u)) => [IndexUpdate u]
  | _, _ => []
  end.

Definition learn (known : gmap (PublicKey * Currency) FriendInfo) (m : IndexMutation) :
  gmap (PublicKey * Currency) FriendInfo :=
  match m with
  | IndexUpdate u =>
      <[(uf_public_key u, uf_currency u) := mkFriendInfo (uf_recv_capacity u) (uf_rate u)]> known
  | IndexRemove r => delete (rf_public_key r, rf_currency r) known
  end.

Fixpoint learn_all (known : gmap (PublicKey * Currency) FriendInfo)
  (rs : list SeqFriendsRequest) (os : list SeqFriendsResponse) :=
  match rs, os with
  | r :: rs', o :: os' => learn_all (foldl learn known (announced r o)) rs' os'
  | _, _ => known
  end.

(** A response that tells that a full cycle was announced. *)
Definition cycle_done (o : SeqFriendsResponse) : bool :=
  match o with SfUpdate (Some (O, _)) => true | SfUpdate None => true | _ => false end.

Definition is_reset (r : SeqFriendsRequest) : bool :=
  match r with SfResetCountdown => true | _ => false end.

Lemma apply_index_mutation_map s m : sm_map (apply_index_mutation s m) = learn (sm_map s) m.
Proof. by destruct m. Qed.

Lemma apply_index_mutation_ok s m : sm_ok s -> sm_ok (apply_index_mutation s m).
Proof. destruct m; intros; [by apply sm_update_ok|by apply sm_remove_ok]. Qed.

Definition mutation_key (m : IndexMutation) : PublicKey * Currency :=
  match m with
  | IndexUpdate u => (uf_public_key u, uf_currency u)
  | IndexRemove r => (rf_public_key r, rf_currency r)
  end.

Lemma learn_eq k1 k2 m : learn k1 m !! mutation_key m = learn k2 m !! mutation_key m.
Proof. destruct m; simpl; by rewrite ?lookup_insert_eq, ?lookup_delete_eq. Qed.
Lemma learn_ne k m key : key <> mutation_key m -> learn k m !! key = k !! key.
Proof.
  destruct m; simpl; intros; by rewrite ?lookup_insert_ne, ?lookup_delete_ne by done.
Qed.

(** [todo], the keys still to be announced in this cycle, is a prefix of the
    queue, at most as long as the countdown; the listener knows the others. The
    number of announcements that are surely enough is [b]. *)
Definition cycle_inv (b : nat) (s : SeqFriends) (known : gmap (PublicKey * Currency) FriendInfo) : Prop :=
  exists todo rest, sm_queue s = todo ++ rest /\
    (length todo <= sm_cycle_countdown s)%nat /\ (length todo <= b)%nat /\
    forall k, k ∉ todo -> is_Some (sm_map s !! k) -> known !! k = sm_map s !! k.

(** The listener knows all that the map holds. *)
Definition knows (known : gmap (PublicKey * Currency) FriendInfo) (s : SeqFriends) : Prop :=
  forall k, is_Some (sm_map s !! k) -> known !! k = sm_map s !! k.

Lemma cycle_inv_knows s known : cycle_inv 0 s known <-> knows known s.
Proof.
  split.
  - intros (todo & rest & _ & _ & Hlen & Hknown) k. apply Hknown.
    destruct todo; [apply not_elem_of_nil|simpl in Hlen; lia].
  - intros Hk. exists [], (sm_queue s). split_and!; simpl; [done|lia|lia|auto].
Qed.

Lemma cycle_inv_reset s known : sm_ok s -> cycle_inv (length (sm_queue s)) (sm_reset_countdown s) known.
Proof.
  intros [_ Hk]. exists (sm_queue s), []. simpl. split_and!; [by rewrite app_nil_r|lia|lia|].
  intros k Hn Hs. by apply Hk in Hs.
Qed.

Lemma cycle_inv_mutate b s known m :
  cycle_inv b s known -> cycle_inv b (apply_index_mutation s m) (learn known m).
Proof.
  intros (todo & rest & Hq & Hlen & Hb & Hknown).
  exists (retain_ne (mutation_key m) todo).
  assert (exists rest', sm_queue (apply_index_mutation s m) = retain_ne (mutation_key m) todo ++ rest')
    as [rest' ->].
  { destruct m; simpl; rewrite Hq; unfold retain_ne; rewrite filter_app, <- ?app_assoc; by eexists. }
  assert (length (retain_ne (mutation_key m) todo) <= length todo)%nat by apply length_filter.
  assert (sm_cycle_countdown (apply_index_mutation s m) = sm_cycle_countdown s) as -> by by destruct m.
  exists rest'. split_and!; [done|lia|lia|].
  intros k Hk. rewrite apply_index_mutation_map.
  destruct (decide (k = mutation_key m)) as [->|Hne]; [intros _; apply learn_eq|].
  rewrite !learn_ne by done. apply Hknown. rewrite elem_of_retain_ne in Hk. naive_solver.
Qed.

Lemma cycle_inv_next b s known s' o :
  sm_ok s -> cycle_inv b s known -> seq_friends_step s SfNextUpdate = Some (s', o) ->
  cycle_inv (b - 1) s' (foldl learn known (announced SfNextUpdate o)) /\
  (cycle_done o = true -> cycle_inv 0 s' (foldl learn known (announced SfNextUpdate o))).
Proof.
  intros Hok (todo & rest & Hq & Hlen & Hb & Hknown) H. simpl in H.
  destruct (sm_next_ok s Hok) as [Hnext _]. destruct (sm_queue s) as [|key queue] eqn:Hsq.
  - destruct todo; [|done]. rewrite Hnext in H. injection H as <- <-. simpl.
    assert (knows known s) as Hkn by (intros k; apply Hknown, not_elem_of_nil).
    split; [|intros _; by apply cycle_inv_knows].
    exists [], []. rewrite Hsq. split_and!; simpl; [done|lia|lia|auto].
  - destruct Hnext as (v & Hv & Hnext). rewrite Hnext in H. injection H as <- <-. simpl.
    destruct v as [c r]. simpl.
    assert (forall k, k ∉ tail todo -> is_Some (sm_map s !! k) ->
              <[(key.1, key.2) := mkFriendInfo c r]> known !! k = sm_map s !! k) as Hkn.
    { intros k Hk Hs. destruct key as [pk cur]. simpl.
      destruct (decide (k = (pk, cur))) as [->|Hne]; [by rewrite lookup_insert_eq|].
      rewrite lookup_insert_ne by done. apply Hknown; [|done].
      destruct todo as [|x todo]; [apply not_elem_of_nil|]. simplify_eq/=. set_solver. }
    split.
    + exists (tail todo). destruct todo as [|x todo]; simplify_eq/=.
      * exists (queue ++ [key]). split_and!; [done|lia|lia|done].
      * exists (rest ++ [x]). rewrite app_assoc. split_and!; [done|lia|lia|done].
    + intros Hd. apply cycle_inv_knows. intros k. apply Hkn.
      destruct (sm_cycle_countdown s - 1)%nat eqn:Hc; [|done].
      destruct todo as [|x todo]; [apply not_elem_of_nil|]. simpl in *.
      destruct todo; [apply not_elem_of_nil|simpl in *; lia].
Qed.

(** How many announcements a list of requests asks for. *)
Definition is_next (r : SeqFriendsRequest) : bool :=
  match r with SfNextUpdate => true | _ => false end.
Definition num_next (rs : list SeqFriendsRequest) : nat := length (base.filter is_next rs).

Lemma cycle_inv_weaken b b' s known : (b <= b')%nat -> cycle_inv b s known -> cycle_inv b' s known.
Proof. intros Hb (todo & rest & H1 & H2 & H3 & H4). exists todo, rest. split_and!; [done|done|lia|done]. Qed.

Lemma seq_friends_loop_inv rs b s known :
  sm_ok s -> cycle_inv b s known -> forallb (negb ∘ is_reset) rs = true ->
  exists s' os, seq_friends_loop s rs = Some (s', os) /\ sm_ok s' /\
    ((b <= num_next rs)%nat \/ existsb cycle_done os = true -> knows (learn_all known rs os) s').
Proof.
  revert b s known. induction rs as [|r rs IH]; intros b s known Hok Hinv Hr; cbn [seq_friends_loop forallb] in *.
  { exists s, []. split_and!; [done|done|]. intros [Hb|]; [|done]. apply cycle_inv_knows.
    by eapply cycle_inv_weaken. }
  apply andb_true_iff in Hr as [Hr Hrs]. destruct r as [m| |]; [|done|].
  - destruct (IH b (apply_index_mutation s m) (learn known m)) as (s' & os & Hl & Hok' & Hk);
      [by apply apply_index_mutation_ok|by apply cycle_inv_mutate|done|].
    simpl. rewrite Hl. simpl. by exists s', (SfDone :: os).
  - destruct (seq_friends_step s SfNextUpdate) as [[s1 o]|] eqn:Hstep.
    2:{ exfalso. simpl in Hstep. destruct (sm_next_ok s Hok) as [Hn _].
        destruct (sm_queue s); [by rewrite Hn in Hstep|]. destruct Hn as (v & _ & Hn). by rewrite Hn in Hstep. }
    destruct (cycle_inv_next b s known s1 o Hok Hinv Hstep) as [Hinv1 Hdone].
    assert (sm_ok s1) as Hok1.
    { simpl in Hstep. apply opt_bind_Some in Hstep as ([s2 o2] & Hn & [= <- <-]).
      destruct (sm_next_ok s Hok) as [_ Hok1]. by destruct (Hok1 _ _ Hn). }
    set (known1 := foldl learn known (announced SfNextUpdate o)) in *.
    destruct (IH (b - 1)%nat s1 known1 Hok1 Hinv1 Hrs) as (s' & os & Hl & Hok' & Hk).
    cbn [opt_bind]. rewrite Hl. simpl. exists s', (o :: os). split_and!; [done|done|]. fold known1.
    unfold num_next. rewrite filter_cons_True by done. simpl. intros [Hb|He].
    + apply Hk. left. unfold num_next. lia.
    + apply orb_true_iff in He as [Hd|He]; [|by apply Hk; right].
      destruct (IH 0%nat s1 known1 Hok1 (Hdone Hd) Hrs) as (s2 & os2 & Hl2 & _ & Hk2).
      rewrite Hl in Hl2. injection Hl2 as <- <-. apply Hk2. left. lia.
Qed.

(** A node that announces its friends in cycles tells a server everything:
    from a reset of the countdown, whatever mutations arrive in between, once
    as many pairs were asked for as the queue held, or once an announcement
    came with countdown 0, a server that applied the announcements and the
    mutations in order, from any earlier knowledge, knows every friend with its
    current capacity and rate. The service never panics. *)
Theorem full_state_announced (s : SeqFriends) (known : gmap (PublicKey * Currency) FriendInfo)
  (rs : list SeqFriendsRequest) (Hok : sm_ok s) (Hrs : forallb (negb ∘ is_reset) rs = true) :
  exists s' os, seq_friends_loop s (SfResetCountdown :: rs) = Some (s', os) /\ sm_ok s' /\
    ((length (sm_queue s) <= num_next rs)%nat \/ existsb cycle_done os = true ->
     knows (learn_all known (SfResetCountdown :: rs) os) s').
Proof.
  destruct (seq_friends_loop_inv rs (length (sm_queue s)) (sm_reset_countdown s) known)
    as (s' & os & Hl & Hok' & Hk); [done|by apply cycle_inv_reset|done|].
  simpl. rewrite Hl. simpl. by exists s', (SfDone :: os).
Qed.

Module SeqMapSamples.
Definition usd : Currency := mkCurrency "USD".
Definition pk (i : Z) : PublicKey := fixed_of_prefix 32 (be_bytes 1 i).
Definition friend (i c : Z) : IndexMutation := IndexUpdate (mkUpdateFriendCurrency (pk i) usd c rate_new).
Definition three : SeqFriends :=
  foldl apply_index_mutation (sm_new ∅) [friend 1 10; friend 2 20; friend 3 30].
Definition busy : list SeqFriendsRequest :=
  [SfNextUpdate; SfMutate (friend 2 25); SfNextUpdate;
   SfMutate (IndexRemove (mkRemoveFriendCurrency (pk 3) usd)); SfNextUpdate].

Lemma full_state_announced_witness :
  exists s' os, seq_friends_loop three (SfResetCountdown :: busy) = Some (s', os) /\
    knows (learn_all ∅ (SfResetCountdown :: busy) os) s'.
Proof.
  destruct (full_state_announced three ∅ busy) as (s' & os & Hl & _ & Hk).
  - unfold three. cbn [foldl]. do 3 apply apply_index_mutation_ok. apply sm_new_ok.
  - reflexivity.
  - exists s', os. split; [exact Hl|]. apply Hk. left. vm_compute. lia.
Defined.

(** The comment of [SeqMap::next] promises that the [n] calls after a reset
    cover all pairs that existed at the reset, even if [update] is invoked in
    between. An updated pair goes to the end of the queue and can be missed: of
    three pairs, the three calls announce the first one twice and the second
    one never. *)
Example next_misses_updated_pair :
  length (sm_queue three) = 3%nat /\
  option_map snd
    (seq_friends_loop three [SfResetCountdown; SfNextUpdate; SfMutate (friend 2 25); SfNextUpdate;
                             SfNextUpdate]) =
  Some [SfDone; SfUpdate (Some (2%nat, mkUpdateFriendCurrency (pk 1) usd 10 rate_new)); SfDone;
        SfUpdate (Some (1%nat, mkUpdateFriendCurrency (pk 3) usd 30 rate_new));
        SfUpdate (Some (0%nat, mkUpdateFriendCurrency (pk 1) usd 10 rate_new))].
Proof. split; vm_compute; reflexivity. Qed.
End SeqMapSamples.
