(* ===== verification/Bfs.v ===== *)
(** * Breadth-first search

    Models [index_server/src/graph/bfs.rs]. The two [while] loops get a bound
    on their iterations; running out of it is the outer [None], and the theorems
    show that the bound used by [bfs] is always enough. *)

From S2P Require Import Prelude.

Section Bfs.
Context {N : Type} `{Countable N}.
Variables (src dst : N) (get_neighbors : N -> list N).

Record BfsState := mkBfs {
  backtrack : gmap N (option N);
  visited : gset N;
  queue : list N
}.

(** The [for] loop over the neighbors of [node]; [true] is the early return. *)
Fixpoint visit (node : N) (neighbors : list N) (s : BfsState) : bool * BfsState :=
  match neighbors with
  | [] => (false, s)
  | neighbor :: rest =>
      if decide (neighbor ∈ visited s) then visit node rest s
      else
        let backtrack' := <[neighbor := Some node]> (backtrack s) in
        if decide (neighbor = dst) then (true, mkBfs backtrack' (visited s) (queue s))
        else visit node rest
               (mkBfs backtrack' ({[neighbor]} ∪ visited s) (queue s ++ [neighbor]))
  end.

Definition bfs_init : BfsState := mkBfs {[src := None]} {[src]} [src].

(** The [while let Some(node) = queue.pop_front()] loop. *)
Fixpoint bfs_while (fuel : nat) (s : BfsState) : option (option (gmap N (option N))) :=
  match fuel with
  | O => None
  | S fuel' =>
      match queue s with
      | [] => Some None
      | node :: rest =>
          match visit node (get_neighbors node) (mkBfs (backtrack s) (visited s) rest) with
          | (true, s') => Some (Some (backtrack s'))
          | (false, s') => bfs_while fuel' s'
          end
      end
  end.

Definition bfs_loop (fuel : nat) : option (option (gmap N (option N))) := bfs_while fuel bfs_init.

(** The [while let Some(new_node) = backtrack.get(node)?] loop. *)
Fixpoint backtrack_while (fuel : nat) (bt : gmap N (option N)) (node : N) (route : list N) :
  option (option (list N)) :=
  match fuel with
  | O => None
  | S fuel' =>
      match bt !! node with
      | None => Some None
      | Some None => Some (Some (reverse route))
      | Some (Some new_node) => backtrack_while fuel' bt new_node (route ++ [new_node])
      end
  end.

Definition bfs_backtrack (bt : gmap N (option N)) : option (option (list N)) :=
  backtrack_while (S (size bt)) bt dst [dst].

(** [bfs] for a graph of at most [num_nodes] nodes. *)
Definition bfs (num_nodes : nat) : option (option (list N)) :=
  match bfs_loop (S num_nodes) with
  | None => None
  | Some None => Some None
  | Some (Some bt) => bfs_backtrack bt
  end.

(** ** Paths *)

(** [path a l b]: following edges from [a] through [l] ends in [b]. *)
Inductive path : N -> list N -> N -> Prop :=
| path_nil a : path a [] a
| path_cons a b l c : b ∈ get_neighbors a -> path b l c -> path a (b :: l) c.

Lemma path_snoc a l b c : path a l b -> c ∈ get_neighbors b -> path a (l ++ [c]) c.
Proof. induction 1; intros; simpl; eauto using path. Qed.

(** ** Depth in the tree of [backtrack] *)

Inductive depth (bt : gmap N (option N)) : N -> nat -> Prop :=
| depth_root v : bt !! v = Some None -> depth bt v 0
| depth_child v u n : bt !! v = Some (Some u) -> depth bt u n -> depth bt v (S n).

Lemma depth_det bt v n m : depth bt v n -> depth bt v m -> n = m.
Proof. intros Hn. revert m. induction Hn; inversion 1; simplify_eq; [done|]. f_equal. auto. Qed.

Lemma depth_insert bt v n k u : bt !! k = None -> depth bt v n -> depth (<[k := Some u]> bt) v n.
Proof.
  intros Hk. induction 1.
  - constructor. rewrite lookup_insert_ne; [done|congruence].
  - econstructor; [|done]. rewrite lookup_insert_ne; [done|congruence].
Qed.

Lemma depth_dom bt v n : depth bt v n -> is_Some (bt !! v).
Proof. destruct 1; eauto. Qed.

(** ** Invariant of the search

    [cur] is the node whose neighbors are being visited, at depth [k]. *)
Definition processed (s : BfsState) (v : N) : Prop :=
  forall w, w ∈ get_neighbors v ->
    w ∈ visited s /\ forall n m, depth (backtrack s) v n -> depth (backtrack s) w m -> m <= S n.

Record bfs_inv (k : nat) (cur : option N) (s : BfsState) : Prop := {
  bi_dom : forall v, v ∈ visited s <-> is_Some (backtrack s !! v);
  bi_src : backtrack s !! src = Some None;
  bi_root : forall v, backtrack s !! v = Some None -> v = src;
  bi_dst : dst ∉ visited s;
  bi_depth : forall v, v ∈ visited s -> exists n, depth (backtrack s) v n /\ n <= S k;
  bi_edge : forall v u, backtrack s !! v = Some (Some u) -> v ∈ get_neighbors u /\ u ∈ visited s;
  bi_queue : exists near far, queue s = near ++ far /\
    (forall v, v ∈ near -> depth (backtrack s) v k) /\
    (forall v, v ∈ far -> depth (backtrack s) v (S k));
  bi_cur : forall c, cur = Some c -> depth (backtrack s) c k;
  bi_seen : forall v, v ∈ visited s -> v ∈ queue s \/ cur = Some v \/ processed s v
}.

Lemma bfs_inv_init : src <> dst -> bfs_inv 0 None bfs_init.
Proof.
  intros Hne. assert (depth {[src := None]} src 0) by (constructor; apply lookup_singleton_eq).
  constructor; simpl.
  - intros v. rewrite elem_of_singleton, lookup_singleton_is_Some. naive_solver.
  - apply lookup_singleton_eq.
  - intros v Hv. by apply lookup_singleton_Some in Hv as [-> _].
  - set_solver.
  - intros v ->%elem_of_singleton. eauto.
  - intros v u Hv. by apply lookup_singleton_Some in Hv as [_ Hv].
  - exists [src], []. split; [done|]. split; [by intros v ->%list_elem_of_singleton|].
    intros v Hv. by apply elem_of_nil in Hv.
  - done.
  - intros v ->%elem_of_singleton. left. by left.
Qed.

(** Queueing a new neighbor [w] of the current node. *)
Lemma bfs_inv_push k c w s :
  bfs_inv k (Some c) s -> w ∈ get_neighbors c -> w ∉ visited s -> w <> dst ->
  bfs_inv k (Some c)
    (mkBfs (<[w := Some c]> (backtrack s)) ({[w]} ∪ visited s) (queue s ++ [w])).
Proof.
  intros Hinv Hw Hnew Hne.
  assert (backtrack s !! w = None) as Hwn.
  { apply eq_None_not_Some. by rewrite <- (bi_dom _ _ _ Hinv). }
  pose proof (bi_cur _ _ _ Hinv c eq_refl) as Hc.
  assert (depth (<[w := Some c]> (backtrack s)) w (S k)) as Hdw.
  { econstructor; [apply lookup_insert_eq|]. by apply depth_insert. }
  assert (c ∈ visited s) as Hcv by (eapply (bi_dom _ _ _ Hinv), depth_dom; done).
  constructor; simpl.
  - intros v. rewrite elem_of_union, elem_of_singleton, lookup_insert_is_Some, (bi_dom _ _ _ Hinv).
    destruct (decide (w = v)); naive_solver.
  - rewrite lookup_insert_ne; [apply Hinv|]. intros ->. rewrite (bi_src _ _ _ Hinv) in Hwn. done.
  - intros v. rewrite lookup_insert_Some. intros [[_ ?]|[_ Hv]]; [done|]. by apply Hinv.
  - pose proof (bi_dst _ _ _ Hinv). set_solver.
  - intros v [->%elem_of_singleton|Hv]%elem_of_union; [by exists (S k)|].
    destruct (bi_depth _ _ _ Hinv v Hv) as (n & Hn & Hle). exists n. split; [by apply depth_insert|done].
  - intros v u. rewrite lookup_insert_Some. intros [[<- [= <-]]|[_ Hv]]; [set_solver|].
    apply Hinv in Hv. set_solver.
  - destruct (bi_queue _ _ _ Hinv) as (near & far & -> & Hnear & Hfar).
    exists near, (far ++ [w]). split; [by rewrite app_assoc|].
    split; [intros v Hv; apply depth_insert; auto|].
    intros v [Hv| ->%list_elem_of_singleton]%elem_of_app; [|done]. apply depth_insert; auto.
  - intros ? [= <-]. by apply depth_insert.
  - intros v [->%elem_of_singleton|Hv]%elem_of_union; [left; set_solver|].
    destruct (bi_seen _ _ _ Hinv v Hv) as [?|[?|Hp]]; [left; set_solver|by right; left|].
    right; right. intros x Hx. destruct (Hp x Hx) as [Hxv Hd]. split; [set_solver|].
    intros n m Hn Hm.
    destruct (bi_depth _ _ _ Hinv v Hv) as (n' & Hn' & _), (bi_depth _ _ _ Hinv x Hxv) as (m' & Hm' & _).
    rewrite (depth_det _ _ _ _ Hn (depth_insert _ _ _ w c Hwn Hn')).
    rewrite (depth_det _ _ _ _ Hm (depth_insert _ _ _ w c Hwn Hm')). auto.
Qed.

(** The result of visiting the neighbors [ns] of [c]. *)
Lemma visit_inv k c ns s :
  bfs_inv k (Some c) s -> (forall w, w ∈ ns -> w ∈ get_neighbors c) ->
  match visit c ns s with
  | (false, s') =>
      bfs_inv k (Some c) s' /\ (forall w, w ∈ ns -> w ∈ visited s') /\ visited s ⊆ visited s' /\
      length (queue s') + size (visited s) = length (queue s) + size (visited s') /\
      (forall v, v ∈ visited s' -> v ∈ visited s \/ v ∈ ns)
  | (true, s') =>
      dst ∈ get_neighbors c /\
      exists s1, bfs_inv k (Some c) s1 /\ backtrack s' = <[dst := Some c]> (backtrack s1)
  end.
Proof.
  revert s. induction ns as [|w ns IH]; intros s Hinv Hns; simpl.
  { split_and!; [done|set_solver|done|lia|auto]. }
  destruct (decide (w ∈ visited s)) as [Hv|Hv].
  - specialize (IH s Hinv). destruct (visit c ns s) as [[] s'].
    + apply IH. set_solver.
    + destruct IH as (H1 & H2 & H3 & H4 & H5); [set_solver|]. split_and!; [done|set_solver|done|done|set_solver].
  - destruct (decide (w = dst)) as [->|Hne]; [split; [set_solver|]; by exists s|].
    pose proof (bfs_inv_push k c w s Hinv ltac:(set_solver) Hv Hne) as Hinv'.
    specialize (IH _ Hinv'). destruct (visit c ns _) as [[] s'].
    + apply IH. set_solver.
    + destruct IH as (H1 & H2 & H3 & H4 & H5); [set_solver|]. simpl in *.
      rewrite length_app in H4. simpl in H4. rewrite size_union, size_singleton in H4 by set_solver.
      split_and!; [done|set_solver|set_solver|lia|set_solver].
Qed.

Lemma bfs_inv_finish k c s :
  bfs_inv k (Some c) s -> (forall w, w ∈ get_neighbors c -> w ∈ visited s) -> bfs_inv k None s.
Proof.
  intros Hinv Hall. constructor; try apply Hinv; [done|].
  intros v Hv. destruct (bi_seen _ _ _ Hinv v Hv) as [?|[[= ->]|?]]; [by left| |by right; right].
  right; right. intros w Hw. split; [auto|]. intros n m Hn Hm.
  rewrite (depth_det _ _ _ _ Hn (bi_cur _ _ _ Hinv v eq_refl)).
  destruct (bi_depth _ _ _ Hinv w (Hall w Hw)) as (m' & Hm' & Hle).
  by rewrite (depth_det _ _ _ _ Hm Hm').
Qed.

Lemma bfs_inv_pop k c rest s :
  bfs_inv k None s -> queue s = c :: rest ->
  exists k', bfs_inv k' (Some c) (mkBfs (backtrack s) (visited s) rest).
Proof.
  intros Hinv Hq. destruct (bi_queue _ _ _ Hinv) as (near & far & Hq' & Hnear & Hfar).
  rewrite Hq in Hq'.
  assert (forall v, v ∈ visited s ->
    v ∈ rest \/ Some c = Some v \/ processed (mkBfs (backtrack s) (visited s) rest) v) as Hseen.
  { intros v Hv. destruct (bi_seen _ _ _ Hinv v Hv) as [Hin|[?|?]]; [|done|by right; right].
    rewrite Hq in Hin. apply elem_of_cons in Hin as [->|?]; auto. }
  destruct near as [|x near]; simplify_eq/=.
  - exists (S k). constructor; try apply Hinv; simpl.
    + intros v Hv. destruct (bi_depth _ _ _ Hinv v Hv) as (n & Hn & Hle). exists n. split; [done|lia].
    + exists rest, []. split; [by rewrite app_nil_r|]. split; [intros v Hv; apply Hfar; by right|].
      intros v Hv. by apply elem_of_nil in Hv.
    + intros ? [= <-]. apply Hfar. by left.
    + done.
  - exists k. constructor; try apply Hinv; simpl.
    + exists near, far. split; [done|]. split; [intros v Hv; apply Hnear; by right|done].
    + intros ? [= <-]. apply Hnear. by left.
    + done.
Qed.

(** ** Shortest paths *)

(** Nodes at less than the current depth are processed. *)
Lemma shallow_processed k c s v n :
  bfs_inv k (Some c) s -> depth (backtrack s) v n -> n < k -> processed s v.
Proof.
  intros Hinv Hv Hn. assert (v ∈ visited s) as Hvis by (eapply (bi_dom _ _ _ Hinv), depth_dom; done).
  destruct (bi_seen _ _ _ Hinv v Hvis) as [Hin|[[= ->]|?]]; [| |done]; exfalso.
  - destruct (bi_queue _ _ _ Hinv) as (near & far & Hq & Hnear & Hfar). rewrite Hq in Hin.
    apply elem_of_app in Hin as [Hin|Hin]; [apply Hnear in Hin|apply Hfar in Hin];
      pose proof (depth_det _ _ _ _ Hv Hin); lia.
  - pose proof (depth_det _ _ _ _ Hv (bi_cur _ _ _ Hinv v eq_refl)). lia.
Qed.

Lemma short_path_visited k c s a l b n :
  bfs_inv k (Some c) s -> path a l b -> depth (backtrack s) a n -> n + length l <= k ->
  b ∈ visited s.
Proof.
  intros Hinv Hp. revert n. induction Hp as [a|a w l b Hw Hp IH]; intros n Ha Hn.
  - eapply (bi_dom _ _ _ Hinv), depth_dom; done.
  - simpl in Hn. destruct (shallow_processed k c s a n Hinv Ha ltac:(lia) w Hw) as [Hwv Hd].
    destruct (bi_depth _ _ _ Hinv w Hwv) as (m & Hm & _). specialize (Hd n m Ha Hm).
    apply (IH m Hm). lia.
Qed.

Lemma closed_path_visited s a l b :
  (forall v, v ∈ visited s -> processed s v) -> a ∈ visited s -> path a l b -> b ∈ visited s.
Proof. intros Hall Ha. induction 1 as [|a w l b Hw Hp IH]; [done|]. apply IH. by apply (Hall a Ha w). Qed.

(** ** Following the tree back *)

(** [l] are the ancestors of [v], nearest first. *)
Inductive ancestors (bt : gmap N (option N)) : N -> list N -> Prop :=
| anc_root v : bt !! v = Some None -> ancestors bt v []
| anc_child v u l : bt !! v = Some (Some u) -> ancestors bt u l -> ancestors bt v (u :: l).

Lemma depth_ancestors bt v n : depth bt v n -> exists l, ancestors bt v l /\ length l = n.
Proof.
  induction 1 as [|v u n Hv Hu (l & Hl & Hlen)]; [exists []; eauto using ancestors|].
  exists (u :: l). simpl. eauto using ancestors.
Qed.

Lemma ancestors_length bt v l : ancestors bt v l -> depth bt v (length l).
Proof. induction 1; simpl; eauto using depth. Qed.

Lemma ancestors_depth bt v l x :
  ancestors bt v l -> x ∈ v :: l -> exists n, depth bt x n /\ n <= length l.
Proof.
  intros Ha Hx. apply elem_of_cons in Hx as [->|Hx]; [eauto using ancestors_length|].
  induction Ha as [v Hv|v u l Hv Hu IH]; [by apply elem_of_nil in Hx|]. simpl.
  apply elem_of_cons in Hx as [->|Hx]; [eauto using ancestors_length|].
  destruct (IH Hx) as (n & Hn & Hle). eauto.
Qed.

Lemma ancestors_NoDup bt v l : ancestors bt v l -> NoDup (v :: l).
Proof.
  induction 1 as [v Hv|v u l Hv Hu IH]; [apply NoDup_singleton|]. constructor; [|done]. intros Hin.
  destruct (ancestors_depth _ _ _ _ Hu Hin) as (n & Hn & Hle).
  assert (ancestors bt v (u :: l)) as Hd%ancestors_length by (by econstructor).
  pose proof (depth_det _ _ _ _ Hd Hn). simpl in *. lia.
Qed.

Lemma ancestors_size bt v l : ancestors bt v l -> length l < size bt.
Proof.
  intros Ha. pose proof (ancestors_NoDup _ _ _ Ha) as Hn.
  assert (list_to_set (v :: l) ⊆ dom bt) as Hsub.
  { intros x Hx%elem_of_list_to_set. apply elem_of_dom.
    destruct (ancestors_depth _ _ _ _ Ha Hx) as (n & Hd & _). by eapply depth_dom. }
  apply subseteq_size in Hsub. rewrite size_list_to_set, size_dom in Hsub by done. simpl in Hsub. lia.
Qed.

Lemma backtrack_while_spec bt v l fuel route :
  ancestors bt v l -> length l < fuel ->
  backtrack_while fuel bt v route = Some (Some (reverse (route ++ l))).
Proof.
  intros Ha. revert fuel route.
  induction Ha as [v Hv|v u l Hv Hu IH]; intros [|fuel] route Hf; simpl in *; [lia| |lia|]; rewrite Hv.
  - by rewrite app_nil_r.
  - rewrite IH by lia. by rewrite <- app_assoc.
Qed.

(** The tree holds a path from the root to each node. *)
Lemma ancestors_path bt v l :
  (forall x, bt !! x = Some None -> x = src) ->
  (forall x u, bt !! x = Some (Some u) -> x ∈ get_neighbors u) ->
  ancestors bt v l -> exists p, reverse (v :: l) = src :: p /\ path src p v /\ length p = length l.
Proof.
  intros Hroot Hedge. induction 1 as [v Hv|v u l Hv Hu IH].
  - rewrite (Hroot v Hv). exists []. split_and!; [done|constructor|done].
  - destruct IH as (p & Hp & Hpath & Hlen). exists (p ++ [v]). rewrite reverse_cons, Hp. split_and!.
    + done.
    + eapply path_snoc; [done|]. by apply Hedge.
    + rewrite length_app. simpl. lia.
Qed.

(** ** Correctness *)

(** A finite set of nodes that the search cannot leave. *)
Definition closed (U : gset N) : Prop :=
  src ∈ U /\ forall u w, u ∈ U -> w ∈ get_neighbors u -> w ∈ U.

Lemma bfs_while_spec (U : gset N) fuel k s :
  closed U -> bfs_inv k None s -> visited s ⊆ U ->
  size U + length (queue s) < fuel + size (visited s) ->
  match bfs_while fuel s with
  | None => False
  | Some None => forall l, ~ path src l dst
  | Some (Some bt) => exists k c s1, bfs_inv k (Some c) s1 /\ bt = <[dst := Some c]> (backtrack s1) /\
                        dst ∈ get_neighbors c
  end.
Proof.
  intros HU. revert k s. induction fuel as [|fuel IH]; intros k s Hinv Hsub Hm; simpl.
  { apply subseteq_size in Hsub. lia. }
  destruct (queue s) as [|c rest] eqn:Hq.
  - intros l Hp. apply (bi_dst _ _ _ Hinv). eapply closed_path_visited; [| |done].
    + intros v Hv. destruct (bi_seen _ _ _ Hinv v Hv) as [Hin|[?|?]]; [|done|done].
      rewrite Hq in Hin. by apply elem_of_nil in Hin.
    + apply (bi_dom _ _ _ Hinv). rewrite (bi_src _ _ _ Hinv). eauto.
  - destruct (bfs_inv_pop k c rest s Hinv Hq) as [k' Hpop].
    pose proof (visit_inv k' c (get_neighbors c) _ Hpop ltac:(auto)) as Hv.
    destruct (visit c (get_neighbors c) _) as [[] s'].
    + destruct Hv as (Hd & s1 & Hs1 & ->). by exists k', c, s1.
    + destruct Hv as (Hs' & Hall & Hmono & Hsize & Hnew). simpl in *.
      assert (c ∈ visited s) as Hcv.
      { pose proof (bi_cur _ _ _ Hpop c eq_refl) as Hc. eapply (bi_dom _ _ _ Hinv), depth_dom. apply Hc. }
      apply (IH k'); [by eapply bfs_inv_finish| |simpl in *; lia].
      intros v [Hv|Hv]%Hnew; [set_solver|]. apply HU in Hv; [done|set_solver].
Qed.

(** When the two ends are the same node nothing is found. *)
Lemma visit_self c ns s :
  dst ∈ visited s ->
  exists s', visit c ns s = (false, s') /\ visited s ⊆ visited s' /\
    length (queue s') + size (visited s) = length (queue s) + size (visited s') /\
    (forall v, v ∈ queue s' -> v ∈ queue s \/ v ∈ ns) /\
    (forall v, v ∈ visited s' -> v ∈ visited s \/ v ∈ ns).
Proof.
  revert s. induction ns as [|w ns IH]; intros s Hd; simpl.
  { exists s. split_and!; [done|done|lia|auto|auto]. }
  destruct (decide (w ∈ visited s)) as [Hv|Hv].
  - destruct (IH s Hd) as (s' & -> & H1 & H2 & H3 & H4). exists s'. split_and!; [done|done|done|set_solver|set_solver].
  - rewrite decide_False by congruence.
    destruct (IH (mkBfs (<[w := Some c]> (backtrack s)) ({[w]} ∪ visited s) (queue s ++ [w])))
      as (s' & -> & H1 & H2 & H3 & H4); [set_solver|]. simpl in *. exists s'.
    rewrite length_app in H2. simpl in H2. rewrite size_union, size_singleton in H2 by set_solver.
    split_and!; [done|set_solver|lia|set_solver|set_solver].
Qed.

Lemma bfs_while_self (U : gset N) fuel s :
  closed U -> dst ∈ visited s -> visited s ⊆ U -> (forall v, v ∈ queue s -> v ∈ U) ->
  size U + length (queue s) < fuel + size (visited s) -> bfs_while fuel s = Some None.
Proof.
  intros HU. revert s. induction fuel as [|fuel IH]; intros s Hd Hsub Hqs Hm; simpl.
  { apply subseteq_size in Hsub. lia. }
  destruct (queue s) as [|c rest] eqn:Hq; [done|].
  destruct (visit_self c (get_neighbors c) (mkBfs (backtrack s) (visited s) rest) Hd)
    as (s' & -> & H1 & H2 & H3 & H4). simpl in *.
  assert (forall v, v ∈ get_neighbors c -> v ∈ U) as Hn.
  { intros v Hv. apply HU in Hv; [done|]. apply Hqs. by left. }
  apply IH; [set_solver|set_solver| |simpl in *; lia].
  intros v [Hv|Hv]%H3; [apply Hqs; by right|auto].
Qed.

Lemma bfs_init_size : size (visited bfs_init) = length (queue bfs_init).
Proof. unfold bfs_init. cbn [visited queue length]. by rewrite size_singleton. Qed.

(** What a search promises: a shortest route without repetitions. *)
Definition shortest_route (route : list N) : Prop :=
  exists p, route = src :: p /\ p <> [] /\ path src p dst /\ NoDup route /\
    forall q, path src q dst -> length p <= length q.

Lemma bfs_spec (U : gset N) :
  closed U -> src <> dst ->
  match bfs (size U) with
  | None => False
  | Some None => forall l, ~ path src l dst
  | Some (Some route) => shortest_route route
  end.
Proof.
  intros HU Hne. unfold bfs, bfs_loop.
  pose proof (bfs_while_spec U (S (size U)) 0 bfs_init HU (bfs_inv_init Hne)) as Hw.
  specialize (Hw ltac:(simpl; destruct HU; set_solver) ltac:(rewrite bfs_init_size; lia)).
  destruct (bfs_while (S (size U)) bfs_init) as [[bt|]|]; [|done|done].
  destruct Hw as (k & c & s1 & Hinv & -> & Hdst).
  assert (backtrack s1 !! dst = None) as Hdn.
  { apply eq_None_not_Some. rewrite <- (bi_dom _ _ _ Hinv). apply Hinv. }
  set (bt := <[dst := Some c]> (backtrack s1)).
  assert (depth bt dst (S k)) as Hdepth.
  { econstructor; [apply lookup_insert_eq|]. apply depth_insert; [done|]. by apply Hinv. }
  destruct (depth_ancestors _ _ _ Hdepth) as (l & Hanc & Hlen).
  unfold bfs_backtrack. rewrite (backtrack_while_spec bt dst l); [|done|apply ancestors_size in Hanc; lia].
  destruct (ancestors_path bt dst l) as (p & Hp & Hpath & Hlp); [| |done|].
  { intros x. unfold bt. rewrite lookup_insert_Some. intros [[_ ?]|[_ ?]]; [done|]. by apply Hinv. }
  { intros x u. unfold bt. rewrite lookup_insert_Some. intros [[<- [= <-]]|[_ Hx]]; [done|].
    by destruct (bi_edge _ _ _ Hinv _ _ Hx). }
  exists p. simpl. split; [exact Hp|]. split; [intros ->; simpl in *; lia|]. split; [done|]. split.
  - replace ([dst] ++ l) with (dst :: l) by done. rewrite Hp, <- Hp, reverse_Permutation.
    by eapply ancestors_NoDup.
  - intros q Hq. destruct (decide (length q <= k)); [|lia]. exfalso.
    apply (bi_dst _ _ _ Hinv). eapply short_path_visited; [done|done| |].
    + constructor. apply Hinv.
    + simpl. done.
Qed.

Lemma bfs_self (U : gset N) : closed U -> src = dst -> bfs (size U) = Some None.
Proof.
  intros HU <-. unfold bfs, bfs_loop. rewrite (bfs_while_self U); [done|done|simpl; set_solver| | |].
  - simpl. destruct HU; set_solver.
  - simpl. intros v ->%list_elem_of_singleton. apply HU.
  - rewrite bfs_init_size. lia.
Qed.
End Bfs.
