(* ===== verification/CapacityGraph.v ===== *)
(** * The capacity graph of the index server

    Models [index_server/src/graph]: [capacity_graph.rs] (edges, routes and the
    trait of rates), [simple_capacity_graph.rs], [utils.rs] and the requests of
    [graph_service.rs]. A directed edge from [a] to [b] is what node [a]
    announced about its friend [b]: how much [a] can receive from [b], and the
    rate [a] charges [b] for forwarding. *)

From S2P Require Import Prelude Arith Bytes Messages IndexMessages Bfs.

Local Open Scope Z_scope.

(** ** Rates *)

(** The trait [LinearRate], with credits [u128]. *)
Class LinearRate (T : Type) : Type := {
  lr_zero : T;
  lr_calc_fee : T -> Z -> option Z;
  lr_checked_add : T -> T -> option T
}.

(** [impl LinearRate for Rate] ([server_loop.rs]) *)
Definition rate_checked_add (self other : Rate) : option Rate :=
  match checked_u 32 (rate_mul self + rate_mul other), checked_u 32 (rate_add self + rate_add other) with
  | Some m, Some a => Some (mkRate m a)
  | _, _ => None
  end.
#[global] Instance rate_linear : LinearRate Rate := {|
  lr_zero := mkRate 0 0;
  lr_calc_fee := calc_fee;
  lr_checked_add := rate_checked_add
|}.

Record CapacityEdge (T : Type) := mkCapacityEdge { ce_recv_capacity : Z; ce_rate : T }.
Arguments mkCapacityEdge {T}.
Arguments ce_recv_capacity {T}.
Arguments ce_rate {T}.

Record CapacityRoute (N T : Type) := mkCapacityRoute {
  cr_route : list N;
  cr_capacity : Z;
  cr_rate : T
}.
Arguments mkCapacityRoute {N T}.
Arguments cr_route {N T}.
Arguments cr_capacity {N T}.
Arguments cr_rate {N T}.

Record CapacityMultiRoute (N T : Type) := mkCapacityMultiRoute { cm_routes : list (CapacityRoute N T) }.
Arguments mkCapacityMultiRoute {N T}.
Arguments cm_routes {N T}.

(** ** [SimpleCapacityGraph] *)

Definition BASE_MAX_EDGE_AGE : Z := 16.

(** The [Edge] of [simple_capacity_graph.rs]: a capacity edge and its age. *)
Record GraphEdge (T : Type) := mkGraphEdge { ge_capacity_edge : CapacityEdge T; ge_age : Z }.
Arguments mkGraphEdge {T}.
Arguments ge_capacity_edge {T}.
Arguments ge_age {T}.

(** [Edge::new] *)
Definition edge_new {T} (c : CapacityEdge T) : GraphEdge T := mkGraphEdge c 0.

Definition max_edge_age (num_edges : nat) : Z := BASE_MAX_EDGE_AGE + 3 * Z.of_nat num_edges.

Section Graph.
Context {N T : Type} `{Countable N} `{!LinearRate T}.

Notation NodeEdges := (gmap N (GraphEdge T)).
Notation SimpleCapacityGraph := (gmap N NodeEdges).

(** The body of the [retain] in [NodeEdges::tick]: an edge grows older and may expire. *)
Definition age_edge (limit : Z) (edge : GraphEdge T) : option (GraphEdge T) :=
  let age := saturate_u 128 (ge_age edge + 1) in
  if age <? limit then Some (mkGraphEdge (ge_capacity_edge edge) age) else None.

Definition node_edges_tick (edges : NodeEdges) : NodeEdges :=
  omap (age_edge (max_edge_age (size edges))) edges.

Definition get_edge (g : SimpleCapacityGraph) (a b : N) : option (GraphEdge T) :=
  match g !! a with
  | None => None
  | Some a_edges => a_edges !! b
  end.

Definition get_send_capacity (g : SimpleCapacityGraph) (a b : N) : Z :=
  match get_edge g a b with
  | None => 0
  | Some _ =>
      match get_edge g b a with
      | Some b_a_edge => ce_recv_capacity (ge_capacity_edge b_a_edge)
      | None => 0
      end
  end.

Definition neighbors_with_send_capacity (g : SimpleCapacityGraph) (a : N) (capacity : Z) : list N :=
  match g !! a with
  | Some a_edges => base.filter (fun b => capacity <= get_send_capacity g a b) (map_to_list a_edges).*1
  | None => []
  end.

(** The pairs of consecutive nodes of a route. *)
Fixpoint hops (route : list N) : list (N * N) :=
  match route with
  | x :: (y :: _) as rest => (x, y) :: hops rest
  | _ => []
  end.

(** [.min()] of an iterator. *)
Fixpoint min_of (l : list Z) : option Z :=
  match l with
  | [] => None
  | x :: l' => match min_of l' with None => Some x | Some y => Some (Z.min x y) end
  end.

Definition get_route_capacity (g : SimpleCapacityGraph) (route : list N) : option Z :=
  match route with
  | [] => None
  | _ => min_of (map (fun '(x, y) => get_send_capacity g x y) (hops route))
  end.

(** One iteration of [get_route_rate]; [None] leaves the function. *)
Definition add_hop_rate (g : SimpleCapacityGraph) (total_rate : T) (hop : N * N) : option T :=
  let! edge := get_edge g (fst hop) (snd hop) in
  lr_checked_add total_rate (ce_rate (ge_capacity_edge edge)).

(** The rate of the last hop is left out; shorter routes have no rate. *)
Definition get_route_rate (g : SimpleCapacityGraph) (route : list N) : option T :=
  if (length route <? 2)%nat then None
  else pfold (add_hop_rate g) lr_zero (take (length route - 2) (hops route)).

(** The closure [get_neighbors] of [get_multi_route]. *)
Definition route_neighbors (g : SimpleCapacityGraph) (capacity : Z) (opt_exclude : option (N * N))
    (cur_node : N) : list N :=
  base.filter (fun next_node => opt_exclude <> Some (cur_node, next_node))
    (neighbors_with_send_capacity g cur_node capacity).

(** The nodes a search from [a] can meet. *)
Definition graph_nodes (g : SimpleCapacityGraph) (a : N) : gset N :=
  {[a]} ∪ dom g ∪ ⋃ ((fun '(_, edges) => dom edges) <$> map_to_list g).

(** [get_multi_route]: [Panic] is the failed [unwrap] of the capacity, or a
    search that does not end. *)
Definition get_multi_route (g : SimpleCapacityGraph) (a b : N) (capacity : Z)
    (opt_exclude : option (N * N)) : outcome unit (CapacityMultiRoute N T) :=
  match bfs a b (route_neighbors g capacity opt_exclude) (size (graph_nodes g a)) with
  | None => Panic
  | Some None => Err tt
  | Some (Some route) =>
      let? capacity := unwrap (get_route_capacity g route) in
      let? rate := ok_or (get_route_rate g route) tt in
      Ok (mkCapacityMultiRoute [mkCapacityRoute route capacity rate])
  end.

(** ** The trait [CapacityGraph] *)

Definition graph_new : SimpleCapacityGraph := ∅.

Definition update_edge (g : SimpleCapacityGraph) (a b : N) (capacity_edge : CapacityEdge T) :
  SimpleCapacityGraph * option (CapacityEdge T) :=
  let a_entry := default ∅ (g !! a) in
  (<[a := <[b := edge_new capacity_edge]> a_entry]> g, ge_capacity_edge <$> a_entry !! b).

Definition remove_edge (g : SimpleCapacityGraph) (a b : N) :
  SimpleCapacityGraph * option (CapacityEdge T) :=
  match g !! a with
  | None => (g, None)
  | Some a_edges =>
      match a_edges !! b with
      | None => (g, None)
      | Some old_edge =>
          let a_edges' := delete b a_edges in
          (if decide (a_edges' = ∅) then delete a g else <[a := a_edges']> g,
           Some (ge_capacity_edge old_edge))
      end
  end.

(** Also tells whether the graph is now empty. *)
Definition remove_node (g : SimpleCapacityGraph) (a : N) : SimpleCapacityGraph * bool :=
  let g' := delete a g in (g', bool_decide (g' = ∅)).

Definition option_to_vec {A} (o : option A) : list A := match o with Some t => [t] | None => [] end.

(** [None] is a panic. *)
Definition get_multi_routes (g : SimpleCapacityGraph) (a b : N) (capacity : Z)
    (opt_exclude : option (N * N)) : option (list (CapacityMultiRoute N T)) :=
  match get_multi_route g a b capacity opt_exclude with
  | Ok m => Some (option_to_vec (Some m))
  | Err _ => Some (option_to_vec None)
  | Panic => None
  end.

Definition graph_tick (g : SimpleCapacityGraph) (a : N) : SimpleCapacityGraph :=
  match g !! a with
  | Some node_edges => <[a := node_edges_tick node_edges]> g
  | None => g
  end.
End Graph.

Notation NodeEdges N T := (gmap N (GraphEdge T)).
Notation SimpleCapacityGraph N T := (gmap N (gmap N (GraphEdge T))).

(** ** Correctness of the search for routes *)

Section RouteTheory.
Context {N T : Type} `{Countable N} `{!LinearRate T}.
Implicit Types (g : SimpleCapacityGraph N T) (a b : N) (route : list N).

(** A hop that can carry [capacity] and is not excluded. *)
Definition usable_hop g (capacity : Z) (opt_exclude : option (N * N)) (hop : N * N) : Prop :=
  is_Some (get_edge g (fst hop) (snd hop)) /\
  capacity <= get_send_capacity g (fst hop) (snd hop) /\ opt_exclude <> Some hop.

(** A route of at least one hop, all of them usable. *)
Definition usable_route g (capacity : Z) (opt_exclude : option (N * N)) a b route : Prop :=
  head route = Some a /\ last route = Some b /\ (2 <= length route)%nat /\
  Forall (usable_hop g capacity opt_exclude) (hops route).

Lemma elem_of_route_neighbors g capacity opt_exclude x y :
  y ∈ route_neighbors g capacity opt_exclude x <-> usable_hop g capacity opt_exclude (x, y).
Proof.
  unfold route_neighbors, usable_hop, neighbors_with_send_capacity, get_edge. simpl.
  rewrite list_elem_of_filter. destruct (g !! x) as [edges|].
  - rewrite list_elem_of_filter, list_elem_of_fmap. split.
    + intros (He & Hc & ([k e] & -> & Hk%elem_of_map_to_list)). simpl in *. eauto.
    + intros ([e He] & Hc & Hx). split; [done|]. split; [done|]. exists (y, e).
      by rewrite elem_of_map_to_list.
  - split; [intros [_ Hy]; by apply elem_of_nil in Hy|intros [[] _]; done].
Qed.

Lemma path_usable g capacity opt_exclude a l b :
  path (route_neighbors g capacity opt_exclude) a l b <->
  last (a :: l) = Some b /\ Forall (usable_hop g capacity opt_exclude) (hops (a :: l)).
Proof.
  split.
  - induction 1 as [a|a c l b Hc Hp [IHl IHh]]; [done|].
    split; [done|]. constructor; [by apply elem_of_route_neighbors|done].
  - revert a. induction l as [|c l IH]; intros a [Hlast Hh].
    + injection Hlast as <-. constructor.
    + apply Forall_cons in Hh as [Hc Hh]. econstructor; [by apply elem_of_route_neighbors|]. by apply IH.
Qed.

Lemma usable_route_path g capacity opt_exclude a b route :
  usable_route g capacity opt_exclude a b route <->
  exists p, route = a :: p /\ p <> [] /\ path (route_neighbors g capacity opt_exclude) a p b.
Proof.
  setoid_rewrite path_usable. split.
  - intros (Hh & Hl & Hlen & Hf). destruct route as [|x p]; simplify_eq/=. exists p.
    split; [done|]. split; [intros ->; simpl in *; lia|done].
  - intros (p & -> & Hp & Hl & Hf). split; [done|]. split; [done|]. split; [|done].
    destruct p; simpl in *; [done|lia].
Qed.

Lemma graph_nodes_closed g capacity opt_exclude a :
  closed a (route_neighbors g capacity opt_exclude) (graph_nodes g a).
Proof.
  split; [unfold graph_nodes; set_solver|]. intros u w _ Hw.
  apply elem_of_route_neighbors in Hw as ([e He] & _). unfold get_edge in He. simpl in He.
  destruct (g !! u) as [edges|] eqn:Hu; [|done]. unfold graph_nodes. apply elem_of_union_r.
  apply elem_of_union_list. exists (dom edges). split; [|by apply elem_of_dom].
  apply list_elem_of_fmap. exists (u, edges). by rewrite elem_of_map_to_list.
Qed.

Lemma min_of_spec l c :
  min_of l = Some c <-> c ∈ l /\ Forall (fun x => c <= x) l.
Proof.
  revert c. induction l as [|x l IH]; intros c; simpl.
  - split; [done|]. intros [Hc _]. by apply elem_of_nil in Hc.
  - rewrite elem_of_cons, Forall_cons. destruct (min_of l) as [y|] eqn:Hm.
    + destruct (proj1 (IH y) eq_refl) as [Hy Hall]. rewrite Forall_forall in Hall. split.
      * intros [= <-]. rewrite Forall_forall. split; [|split; [lia|intros z Hz; specialize (Hall z Hz); lia]].
        destruct (Z.min_spec x y) as [[_ ->]|[_ ->]]; auto.
      * rewrite Forall_forall. intros (Hc & Hx & Hl). f_equal. specialize (Hl y Hy).
        destruct Hc as [->|Hc]; [lia|]. specialize (Hall c Hc). lia.
    + assert (l = []) as ->.
      { destruct l as [|z l]; [done|]. simpl in Hm. destruct (min_of l); done. }
      rewrite elem_of_nil, Forall_nil. split.
      * intros [= <-]. split; [by left|]. split; [lia|done].
      * by intros ([->|[]] & _).
Qed.

Lemma min_of_total l : l <> [] -> is_Some (min_of l).
Proof. destruct l as [|x l]; [done|]. simpl. destruct (min_of l); eauto. Qed.

(** [c] is the capacity of the narrowest hop. *)
Definition bottleneck g route (c : Z) : Prop :=
  (exists hop, hop ∈ hops route /\ c = get_send_capacity g (fst hop) (snd hop)) /\
  forall hop, hop ∈ hops route -> c <= get_send_capacity g (fst hop) (snd hop).

Lemma get_route_capacity_spec g route :
  (2 <= length route)%nat -> exists c, get_route_capacity g route = Some c /\ bottleneck g route c.
Proof.
  intros Hlen. destruct route as [|x [|y route]]; [simpl in Hlen; lia|simpl in Hlen; lia|].
  unfold get_route_capacity.
  destruct (min_of_total (map (fun '(x, y) => get_send_capacity g x y) (hops (x :: y :: route)))) as [c Hc];
    [done|]. exists c. split; [done|].
  apply min_of_spec in Hc as [Hin Hall]. apply list_elem_of_fmap in Hin as ([u v] & -> & Hin).
  split; [by exists (u, v)|]. rewrite Forall_forall in Hall. intros [u' v'] Hhop.
  apply Hall, list_elem_of_fmap. by exists (u', v').
Qed.

(** Routes found are usable, and the search never panics. *)
Lemma get_multi_route_ok g a b (capacity : Z) (opt_exclude : option (N * N)) :
  match get_multi_route g a b capacity opt_exclude with
  | Ok _ => exists route, usable_route g capacity opt_exclude a b route
  | Err _ => True
  | Panic => False
  end.
Proof.
  unfold get_multi_route. pose proof (graph_nodes_closed g capacity opt_exclude a) as Hcl.
  destruct (decide (a = b)) as [Hab|Hab]; [by rewrite (bfs_self _ _ _ _ Hcl Hab)|].
  pose proof (bfs_spec _ _ _ _ Hcl Hab) as Hb.
  destruct (bfs a b _ _) as [[route|]|]; [|done|done].
  destruct Hb as (p & -> & Hp0 & Hp & _).
  assert (usable_route g capacity opt_exclude a b (a :: p)) as Hu by (apply usable_route_path; eauto).
  destruct (get_route_capacity_spec g (a :: p)) as (c & -> & _); [apply Hu|]. simpl unwrap. simpl obind.
  destruct (get_route_rate g (a :: p)); simpl; eauto.
Qed.

Lemma get_multi_route_spec g a b (capacity : Z) (opt_exclude : option (N * N)) :
  match get_multi_route g a b capacity opt_exclude with
  | Ok m => exists route c rate, m = mkCapacityMultiRoute [mkCapacityRoute route c rate] /\ a <> b /\
      usable_route g capacity opt_exclude a b route /\ NoDup route /\
      (forall route', usable_route g capacity opt_exclude a b route' -> (length route <= length route')%nat) /\
      bottleneck g route c /\ capacity <= c /\ get_route_rate g route = Some rate
  | Err _ => a = b \/ (forall route, ~ usable_route g capacity opt_exclude a b route) \/
      exists route, usable_route g capacity opt_exclude a b route /\
        (forall route', usable_route g capacity opt_exclude a b route' -> (length route <= length route')%nat) /\
        get_route_rate g route = None
  | Panic => False
  end.
Proof.
  unfold get_multi_route. pose proof (graph_nodes_closed g capacity opt_exclude a) as Hcl.
  destruct (decide (a = b)) as [Hab|Hab]; [rewrite (bfs_self _ _ _ _ Hcl Hab); by left|].
  pose proof (bfs_spec _ _ _ _ Hcl Hab) as Hb.
  destruct (bfs a b _ _) as [[route|]|]; [| |done].
  2:{ right; left. intros route (p & _ & _ & Hp)%usable_route_path. by apply (Hb p). }
  destruct Hb as (p & -> & Hp0 & Hp & Hnd & Hmin).
  assert (usable_route g capacity opt_exclude a b (a :: p)) as Hu by (apply usable_route_path; eauto).
  destruct (get_route_capacity_spec g (a :: p)) as (c & -> & Hc); [apply Hu|]. simpl unwrap. simpl obind.
  assert (forall route', usable_route g capacity opt_exclude a b route' -> (length (a :: p) <= length route')%nat) as Hshort.
  { intros route' (q & -> & _ & Hq)%usable_route_path. simpl. apply le_n_S. by apply Hmin. }
  destruct (get_route_rate g (a :: p)) as [rate|] eqn:Hr; simpl; [|right; right; eauto 6].
  exists (a :: p), c, rate. split_and!; try done.
  - destruct Hc as [(hop & Hin & ->) _]. destruct Hu as (_ & _ & _ & Hf).
    rewrite Forall_forall in Hf. by apply Hf.
Qed.
End RouteTheory.

(** ** The rate of a route *)

Section RouteRate.
Context {N : Type} `{Countable N}.
Implicit Types (g : SimpleCapacityGraph N Rate) (a b : N) (route : list N).

(** The rate that the first node of a hop announced for the second. *)
Definition announced_rate g (hop : N * N) : Rate :=
  match get_edge g (fst hop) (snd hop) with
  | Some edge => ce_rate (ge_capacity_edge edge)
  | None => mkRate 0 0
  end.
Definition sum_over (f : Rate -> Z) g (l : list (N * N)) : Z :=
  fold_right (fun hop acc => f (announced_rate g hop) + acc) 0 l.
(** The sum of the rates of all hops but the last. *)
Definition mul_sum g route : Z := sum_over rate_mul g (removelast (hops route)).
Definition add_sum g route : Z := sum_over rate_add g (removelast (hops route)).

(** Announced rates are pairs of machine integers. *)
Definition rates_ok g : Prop :=
  forall x y edge, get_edge g x y = Some edge ->
    u_ok 32 (rate_mul (ce_rate (ge_capacity_edge edge))) /\ u_ok 32 (rate_add (ce_rate (ge_capacity_edge edge))).

Lemma sum_over_nonneg f g l : (forall hop, 0 <= f (announced_rate g hop)) -> 0 <= sum_over f g l.
Proof. intros Hf. induction l as [|hop l IH]; simpl; [lia|]. specialize (Hf hop). lia. Qed.
Lemma announced_rate_nonneg g hop : rates_ok g -> 0 <= rate_mul (announced_rate g hop) /\ 0 <= rate_add (announced_rate g hop).
Proof.
  intros Hg. unfold announced_rate. destruct (get_edge g _ _) eqn:He; [|simpl; lia].
  destruct (Hg _ _ _ He) as [[? _] [? _]]. done.
Qed.

Lemma add_rates_spec g l m0 k0 :
  rates_ok g -> Forall (fun hop => is_Some (get_edge g (fst hop) (snd hop))) l ->
  0 <= m0 <= u_max 32 -> 0 <= k0 <= u_max 32 ->
  pfold (add_hop_rate g) (mkRate m0 k0) l =
    if decide (m0 + sum_over rate_mul g l <= u_max 32 /\ k0 + sum_over rate_add g l <= u_max 32)
    then Some (mkRate (m0 + sum_over rate_mul g l) (k0 + sum_over rate_add g l)) else None.
Proof.
  intros Hg Hl. revert m0 k0. induction Hl as [|hop l [edge He] Hl IH]; intros m0 k0 Hm Ha.
  { simpl. rewrite !Z.add_0_r, decide_True by lia. done. }
  pose proof (announced_rate_nonneg g hop Hg) as [H1 H2].
  pose proof (sum_over_nonneg rate_mul g l (fun hop => proj1 (announced_rate_nonneg g hop Hg))) as H3.
  pose proof (sum_over_nonneg rate_add g l (fun hop => proj2 (announced_rate_nonneg g hop Hg))) as H4.
  assert (announced_rate g hop = ce_rate (ge_capacity_edge edge)) as Hr by (unfold announced_rate; by rewrite He).
  cbn [pfold sum_over fold_right]. unfold add_hop_rate at 1. rewrite He. simpl. unfold rate_checked_add. simpl. rewrite <- Hr.
  fold (sum_over rate_mul g l) (sum_over rate_add g l).
  destruct (checked_u 32 (m0 + rate_mul (announced_rate g hop))) as [m1|] eqn:E1; simpl.
  2:{ rewrite decide_False; [done|]. intros [Hle _]. rewrite checked_u_ok in E1; [done|]. unfold u_ok. lia. }
  destruct (checked_u 32 (k0 + rate_add (announced_rate g hop))) as [k1|] eqn:E2; simpl.
  2:{ rewrite decide_False; [done|]. intros [_ Hle]. rewrite checked_u_ok in E2; [done|]. unfold u_ok. lia. }
  apply checked_u_Some in E1 as [E1 ->]. apply checked_u_Some in E2 as [E2 ->]. unfold u_ok in E1, E2.
  rewrite IH, <- !Z.add_assoc by lia. done.
Qed.

Lemma hops_length {A : Type} (route : list A) : length (hops route) = pred (length route).
Proof. induction route as [|x [|y route] IH]; [done..|]. simpl. f_equal. exact IH. Qed.

Lemma route_rate_spec g capacity opt_exclude a b route :
  rates_ok g -> usable_route g capacity opt_exclude a b route ->
  get_route_rate g route =
    if decide (mul_sum g route <= u_max 32 /\ add_sum g route <= u_max 32)
    then Some (mkRate (mul_sum g route) (add_sum g route)) else None.
Proof.
  intros Hg (_ & _ & Hlen & Hf). unfold get_route_rate, mul_sum, add_sum.
  rewrite (proj2 (Nat.ltb_ge _ _) Hlen).
  assert (take (length route - 2) (hops route) = removelast (hops route)) as ->.
  { rewrite removelast_firstn_len, hops_length. f_equal. lia. }
  change (lr_zero : Rate) with (mkRate 0 0). rewrite add_rates_spec; [by rewrite !Z.add_0_l|done| |unfold u_max; lia..].
  rewrite removelast_firstn_len. apply Forall_take. eapply Forall_impl; [exact Hf|]. intros hop [? _]. done.
Qed.

(** C15. The search for a route never panics and always ends. A route it returns leads
    from the source to the destination, which are different, over hops that carry the
    wanted capacity and avoid the excluded edge, repeats no node, is shortest among such
    routes, and comes with the capacity of its narrowest hop (at least the wanted one)
    and with the sum of the rates that its nodes announced for their next hops, the
    last hop left out. For different ends it finds nothing only when no such route
    exists or the sum of the rates along a shortest one does not fit its type; for equal
    ends it finds nothing. *)
Theorem get_multi_route_correct g a b (capacity : Z) (opt_exclude : option (N * N)) :
  rates_ok g ->
  match get_multi_route g a b capacity opt_exclude with
  | Ok m => exists route c, m = mkCapacityMultiRoute [mkCapacityRoute route c (mkRate (mul_sum g route) (add_sum g route))] /\
      a <> b /\ usable_route g capacity opt_exclude a b route /\ NoDup route /\
      (forall route', usable_route g capacity opt_exclude a b route' -> (length route <= length route')%nat) /\
      bottleneck g route c /\ capacity <= c /\ mul_sum g route <= u_max 32 /\ add_sum g route <= u_max 32
  | Err _ => a = b \/ (forall route, ~ usable_route g capacity opt_exclude a b route) \/
      exists route, usable_route g capacity opt_exclude a b route /\
        (forall route', usable_route g capacity opt_exclude a b route' -> (length route <= length route')%nat) /\
        (u_max 32 < mul_sum g route \/ u_max 32 < add_sum g route)
  | Panic => False
  end.
Proof.
  intros Hg. pose proof (get_multi_route_spec g a b capacity opt_exclude) as Hs.
  destruct (get_multi_route g a b capacity opt_exclude) as [m|e|]; [| |done].
  - destruct Hs as (route & c & rate & -> & Hab & Hu & Hnd & Hmin & Hb & Hc & Hr).
    rewrite (route_rate_spec g _ _ _ _ _ Hg Hu) in Hr. case_decide as Hfit; [|done]. injection Hr as <-.
    exists route, c. destruct Hfit. by split_and!.
  - destruct Hs as [|[|(route & Hu & Hmin & Hr)]]; [by left|by right; left|]. right; right. exists route.
    split; [done|]. split; [done|]. rewrite (route_rate_spec g _ _ _ _ _ Hg Hu) in Hr. case_decide; [done|]. lia.
Qed.
End RouteRate.

Module CapacityGraphSamples.

(** Three nodes in a row, each of which announces its edges. *)
Definition edge (capacity mul add : Z) : GraphEdge Rate := edge_new (mkCapacityEdge capacity (mkRate mul add)).
Definition line : SimpleCapacityGraph nat Rate :=
  {[ 1%nat := {[ 2%nat := edge 5 1 2 ]};
     2%nat := {[ 1%nat := edge 20 3 4; 3%nat := edge 6 5 6 ]};
     3%nat := {[ 2%nat := edge 30 7 8; 4%nat := edge 6 9 1 ]};
     4%nat := {[ 3%nat := edge 25 0 1 ]} ]}.
Lemma line_rates_ok : rates_ok line.
Proof.
  assert (map_Forall (fun _ edges => map_Forall (fun _ e =>
    (0 <= rate_mul (ce_rate (ge_capacity_edge e)) <= u_max 32) /\
    (0 <= rate_add (ce_rate (ge_capacity_edge e)) <= u_max 32)) edges) line) as Hall
    by (apply (bool_decide_unpack _); vm_compute; exact I).
  intros x y e He. unfold get_edge in He. destruct (line !! x) as [edges|] eqn:Hx; [|done]. exact (Hall _ _ Hx _ _ He).
Qed.

(** The route from the first node to the last carries 20 for a rate of 6 and 8. *)
Lemma get_multi_route_correct_witness :
  match get_multi_route line 1%nat 4%nat 10 None with
  | Ok m => exists route c, m = mkCapacityMultiRoute [mkCapacityRoute route c (mkRate (mul_sum line route) (add_sum line route))] /\
      NoDup route /\ bottleneck line route c /\ 10 <= c
  | _ => False
  end /\
  get_multi_route line 1%nat 4%nat 10 None =
    Ok (mkCapacityMultiRoute [mkCapacityRoute [1; 2; 3; 4]%nat 20 (mkRate 6 8)]).
Proof.
  pose proof (get_multi_route_correct line 1%nat 4%nat 10 None line_rates_ok) as Hc.
  assert (get_multi_route line 1%nat 4%nat 10 None =
    Ok (mkCapacityMultiRoute [mkCapacityRoute [1; 2; 3; 4]%nat 20 (mkRate 6 8)])) as Hrun by (vm_compute; reflexivity).
  split; [|exact Hrun].
  destruct (get_multi_route line 1%nat 4%nat 10 None) as [m|e|]; [|discriminate Hrun..].
  destruct Hc as (route & c & -> & _ & _ & Hnd & _ & Hb & Hc & _). by exists route, c.
Defined.
End CapacityGraphSamples.
