(* ===== verification/GraphService.v ===== *)
(** * The graph service of the index server

    Models the requests of [index_server/src/graph/graph_service.rs]: one
    capacity graph per currency, requests processed one at a time. A request
    carries a channel for its response; the response [None] is a channel that
    is dropped without an answer, which the client sees as an error. *)

From S2P Require Import Prelude Arith Bytes Messages IndexMessages Bfs CapacityGraph.

Local Open Scope Z_scope.

Inductive GraphRequest (G N T : Type) :=
| GrUpdateEdge (g : G) (a b : N) (capacity_edge : CapacityEdge T)
| GrRemoveEdge (g : G) (a b : N)
| GrRemoveNode (a : N)
| GrGetMultiRoutes (g : G) (a b : N) (capacity : Z) (opt_exclude : option (N * N))
| GrTick (a : N).
Arguments GrUpdateEdge {G N T}.
Arguments GrRemoveEdge {G N T}.
Arguments GrRemoveNode {G N T}.
Arguments GrGetMultiRoutes {G N T}.
Arguments GrTick {G N T}.

Inductive GraphResponse (N T : Type) :=
| GsEdge (o : option (CapacityEdge T))
| GsRoutes (routes : list (CapacityMultiRoute N T))
| GsDone.
Arguments GsEdge {N T}.
Arguments GsRoutes {N T}.
Arguments GsDone {N T}.

Inductive GraphClientError := SendRequestError | ResponseReceiverClosed.

Section Service.
Context {G N T : Type} `{Countable G} `{Countable N} `{!LinearRate T}.

Notation graphs := (gmap G (SimpleCapacityGraph N T)).

(** [capacity_graphs.retain(|_g, capacity_graph| capacity_graph.remove_node(&a))] *)
Definition retain_node (a : N) (cg : SimpleCapacityGraph N T) : option (SimpleCapacityGraph N T) :=
  let (cg', keep) := remove_node cg a in if keep then Some cg' else None.

(** The outer [None] is a panic, the inner one a response channel dropped. *)
Definition process_request (capacity_graphs : graphs) (r : GraphRequest G N T) :
  option (graphs * option (GraphResponse N T)) :=
  match r with
  | GrUpdateEdge g a b capacity_edge =>
      let (cg, old) := update_edge (default graph_new (capacity_graphs !! g)) a b capacity_edge in
      Some (<[g := cg]> capacity_graphs, Some (GsEdge old))
  | GrRemoveEdge g a b =>
      match capacity_graphs !! g with
      | Some cg =>
          let (cg', old) := remove_edge cg a b in
          Some (<[g := cg']> capacity_graphs, Some (GsEdge old))
      | None => Some (capacity_graphs, None)
      end
  | GrRemoveNode a => Some (omap (retain_node a) capacity_graphs, Some GsDone)
  | GrGetMultiRoutes g a b capacity opt_exclude =>
      match capacity_graphs !! g with
      | Some cg =>
          let! routes := get_multi_routes cg a b capacity opt_exclude in
          Some (capacity_graphs, Some (GsRoutes routes))
      | None => Some (capacity_graphs, Some (GsRoutes []))
      end
  | GrTick a => Some ((fun cg => graph_tick cg a) <$> capacity_graphs, Some GsDone)
  end.

(** A call of the [GraphClient] while the service runs: the state of the
    service afterwards, and what the caller gets. *)
Definition graph_call (capacity_graphs : graphs) (r : GraphRequest G N T) :
  option (graphs * outcome GraphClientError (GraphResponse N T)) :=
  let! (capacity_graphs', response) := process_request capacity_graphs r in
  Some (capacity_graphs', ok_or response ResponseReceiverClosed).

(** The loop of [graph_service_loop]. *)
Fixpoint graph_service_loop (capacity_graphs : graphs) (rs : list (GraphRequest G N T)) :
  option (graphs * list (option (GraphResponse N T))) :=
  match rs with
  | [] => Some (capacity_graphs, [])
  | r :: rs' =>
      let! (capacity_graphs', o) := process_request capacity_graphs r in
      let! (capacity_graphs'', os) := graph_service_loop capacity_graphs' rs' in
      Some (capacity_graphs'', o :: os)
  end.

(** ** Theorems *)

Implicit Types gs : graphs.

Lemma get_multi_routes_total (cg : SimpleCapacityGraph N T) a b capacity opt_exclude :
  is_Some (get_multi_routes cg a b capacity opt_exclude).
Proof.
  unfold get_multi_routes. pose proof (get_multi_route_ok cg a b capacity opt_exclude) as Hm.
  destruct (get_multi_route cg a b capacity opt_exclude); eauto. done.
Qed.

Lemma process_request_total gs r : is_Some (process_request gs r).
Proof.
  destruct r; simpl; eauto.
  - destruct (gs !! g) as [cg|]; [|eauto]. destruct (remove_edge cg a b). eauto.
  - destruct (gs !! g) as [cg|]; [|eauto].
    destruct (get_multi_routes_total cg a b capacity opt_exclude) as [routes ->]. simpl. eauto.
Qed.

Lemma graph_service_loop_total gs rs : is_Some (graph_service_loop gs rs).
Proof.
  revert gs. induction rs as [|r rs IH]; intros gs; simpl; [eauto|].
  destruct (process_request_total gs r) as [[gs' o] ->]. simpl.
  destruct (IH gs') as [[gs'' os] ->]. simpl. eauto.
Qed.

(** What [RemoveNode] leaves of the graph of a currency. *)
Lemma remove_node_lookup gs a g :
  omap (retain_node a) gs !! g =
    match gs !! g with
    | Some cg => if bool_decide (delete a cg = ∅) then Some ∅ else None
    | None => None
    end.
Proof.
  rewrite lookup_omap. destruct (gs !! g) as [cg|]; [|done]. unfold retain_node, remove_node. simpl.
  case_bool_decide as He; [by rewrite He|done].
Qed.

Lemma empty_graph_no_routes a b capacity opt_exclude :
  get_multi_routes (∅ : SimpleCapacityGraph N T) a b capacity opt_exclude = Some [].
Proof.
  unfold get_multi_routes. pose proof (get_multi_route_ok (∅ : SimpleCapacityGraph N T) a b capacity opt_exclude) as Hm.
  destruct (get_multi_route _ a b capacity opt_exclude); [|done|done].
  destruct Hm as (route & (Hh & _ & Hlen & Hf)). exfalso.
  destruct route as [|x [|y route]]; simpl in Hlen; [lia|lia|].
  simpl in Hf. apply Forall_cons in Hf as [([e He] & _) _]. unfold get_edge in He. simpl in He.
  by rewrite lookup_empty in He.
Qed.

(** Removing one node that went silent erases the whole index: the graphs
    of all currencies that still hold any node are dropped, only empty graphs
    survive, so that every later request for routes, between any two nodes and
    in any currency, finds nothing until edges are announced again. *)
Theorem remove_node_erases_index gs (removed : N) :
  exists gs', process_request gs (GrRemoveNode removed) = Some (gs', Some GsDone) /\
    (forall g cg, gs' !! g = Some cg -> cg = ∅) /\
    (forall g cg, gs !! g = Some cg -> delete removed cg <> ∅ -> gs' !! g = None) /\
    (forall g a b capacity opt_exclude,
       process_request gs' (GrGetMultiRoutes g a b capacity opt_exclude) =
         Some (gs', Some (GsRoutes []))).
Proof.
  exists (omap (retain_node removed) gs). split; [done|]. 
  assert (forall g cg, omap (retain_node removed) gs !! g = Some cg -> cg = ∅) as Hempty.
  { intros g cg. rewrite remove_node_lookup. destruct (gs !! g); [|done]. case_bool_decide; congruence. }
  split; [done|]. split.
  - intros g cg Hg Hne. rewrite remove_node_lookup, Hg. by rewrite bool_decide_false.
  - intros g a b capacity opt_exclude. simpl.
    destruct (omap (retain_node removed) gs !! g) as [cg|] eqn:Hg; [|done].
    rewrite (Hempty g cg Hg), empty_graph_no_routes. done.
Qed.
End Service.
Notation graphs G N T := (gmap G (SimpleCapacityGraph N T)).
