(* ===== verification/Verifier.v ===== *)
(** * Freshness of announcements: hash clock, ratchets and verifier

    Models [index_server/src/verifier]: [hash_clock.rs] (a clock whose ticks
    are hashes that commit to the ticks of the neighbors), [ratchet.rs]
    (counters against messages out of order), [simple_verifier.rs] and the trait
    of [verifier.rs]. Random values are arguments of [tick]; usize and u64
    counters that only grow by received values stay integers. *)

From S2P Require Import Prelude Arith Bytes Messages Canonical.
From Stdlib Require Import Strings.Byte.

Definition HASH_CLOCK_PREFIX : bytes := String.list_byte_of_string "HASH_CLOCK".

Section Verifier.
Context `{CryptoOps} {N B U : Type} `{Countable N} `{Countable B} `{EqDecision U}.

(** ** Hash clock *)

Record HashClock := mkHashClock {
  neighbor_hashes : gmap B HashResult;
  last_ticks_max_len : nat;
  last_ticks : list HashResult;
  last_ticks_map : gmap HashResult (list HashResult)
}.

Definition hash_hashes (hashes : list HashResult) : HashResult :=
  sha_512_256 (as_bytes (sha_512_256 HASH_CLOCK_PREFIX) ++ concat (map as_bytes hashes)).

(** [HashClock::new]; [None] is the failed assertion. *)
Definition hc_new (max_len : nat) : option HashClock :=
  if (0 <? max_len)%nat then Some (mkHashClock ∅ max_len [] ∅) else None.

(** [insert_tick_hash]; [None] is a failed assertion. *)
Definition insert_tick_hash (c : HashClock) (tick_hash : HashResult) (expansion : list HashResult) :
  option HashClock :=
  if negb (0 <? last_ticks_max_len c)%nat then None else
  let ticks := last_ticks c ++ [tick_hash] in
  let (ticks, ticks_map) :=
    if (last_ticks_max_len c <? length ticks)%nat then
      match ticks with
      | popped :: rest => (rest, delete popped (last_ticks_map c))
      | [] => (ticks, last_ticks_map c)
      end
    else (ticks, last_ticks_map c) in
  if negb (length ticks <=? last_ticks_max_len c)%nat then None else
  Some (mkHashClock (neighbor_hashes c) (last_ticks_max_len c) ticks
          (<[tick_hash := expansion]> ticks_map)).

Definition hc_neighbor_tick (c : HashClock) (neighbor : B) (tick_hash : HashResult) :
  HashClock * option HashResult :=
  (mkHashClock (<[neighbor := tick_hash]> (neighbor_hashes c)) (last_ticks_max_len c) (last_ticks c)
     (last_ticks_map c), neighbor_hashes c !! neighbor).

Definition hc_remove_neighbor (c : HashClock) (neighbor : B) : HashClock * option HashResult :=
  (mkHashClock (delete neighbor (neighbor_hashes c)) (last_ticks_max_len c) (last_ticks c)
     (last_ticks_map c), neighbor_hashes c !! neighbor).

(** The expansion of a tick: the hashed random value, then the neighbors' hashes. *)
Definition tick_expansion (c : HashClock) (rand_value : RandValue) : list HashResult :=
  sha_512_256 (as_bytes rand_value) :: (map_to_list (neighbor_hashes c)).*2.

Definition hc_tick (c : HashClock) (rand_value : RandValue) : option (HashClock * HashResult) :=
  let expansion := tick_expansion c rand_value in
  let tick_hash := hash_hashes expansion in
  let! c' := insert_tick_hash c tick_hash expansion in
  Some (c', tick_hash).

Definition get_expansion (c : HashClock) (tick_hash : HashResult) : option (list HashResult) :=
  last_ticks_map c !! tick_hash.

Definition get_neighbor_hash (c : HashClock) (neighbor : B) : option HashResult :=
  neighbor_hashes c !! neighbor.

(** The first loop of [verify_expansion_chain]: the hash of every list occurs in
    the list before it, [prev] being the first of these. *)
Fixpoint chain_linked (prev : list HashResult) (chain : list (list HashResult)) : bool :=
  match chain with
  | [] => true
  | hashes :: rest => bool_decide (hash_hashes hashes ∈ prev) && chain_linked hashes rest
  end.

(** The second loop: the first of the hashes that is a recent tick. *)
Definition find_tick (c : HashClock) (hashes : list HashResult) : option HashResult :=
  head (base.filter (fun h => is_Some (last_ticks_map c !! h)) hashes).

Definition verify_expansion_chain (c : HashClock) (origin_tick_hash : HashResult)
    (expansion_chain : list (list HashResult)) : option HashResult :=
  if chain_linked [origin_tick_hash] expansion_chain then
    find_tick c (List.last expansion_chain [origin_tick_hash])
  else None.

(** ** Ratchets *)

Record Ratchet := mkRatchet {
  rt_session_id : U;
  rt_counter : Z;
  rt_ticks_to_live : nat;
  rt_cur_ticks_to_live : nat
}.

Definition ratchet_new (session_id : U) (counter : Z) (ticks_to_live : nat) : Ratchet :=
  mkRatchet session_id counter ticks_to_live ticks_to_live.

Definition inner_update (r : Ratchet) (session_id : U) (counter : Z) : Ratchet * bool :=
  if decide (rt_session_id r <> session_id) then
    (mkRatchet session_id counter (rt_ticks_to_live r) (rt_cur_ticks_to_live r), true)
  else if (rt_counter r <? counter)%Z then
    (mkRatchet (rt_session_id r) counter (rt_ticks_to_live r) (rt_cur_ticks_to_live r), true)
  else (r, false).

Definition ratchet_update (r : Ratchet) (session_id : U) (counter : Z) : Ratchet * bool :=
  let (r', moved) := inner_update r session_id counter in
  if negb moved then (r', false)
  else (mkRatchet (rt_session_id r') (rt_counter r') (rt_ticks_to_live r') (rt_ticks_to_live r'), true).

Definition ratchet_tick (r : Ratchet) : Ratchet * nat :=
  let cur := (rt_cur_ticks_to_live r - 1)%nat in
  (mkRatchet (rt_session_id r) (rt_counter r) (rt_ticks_to_live r) cur, cur).

Record RatchetPool := mkRatchetPool {
  ratchets : gmap N Ratchet;
  ratchet_ticks_to_live : nat
}.

Definition rp_new (ticks_to_live : nat) : RatchetPool := mkRatchetPool ∅ ticks_to_live.

(** [RatchetPool::tick]: every ratchet ticks, those that reach 0 are removed. *)
Definition rp_tick (p : RatchetPool) : RatchetPool * list N :=
  let ticked := (fun r => ratchet_tick r) <$> ratchets p in
  let removed_nodes := (base.filter (fun nr => snd (snd nr) = 0%nat) (map_to_list ticked)).*1 in
  (mkRatchetPool (foldr delete (fst <$> ticked) removed_nodes) (ratchet_ticks_to_live p),
   removed_nodes).

Definition rp_update (p : RatchetPool) (node : N) (session_id : U) (counter : Z) : RatchetPool * bool :=
  match ratchets p !! node with
  | None =>
      (mkRatchetPool
         (<[node := ratchet_new session_id counter (ratchet_ticks_to_live p)]> (ratchets p))
         (ratchet_ticks_to_live p), true)
  | Some ratchet =>
      let (ratchet', moved) := ratchet_update ratchet session_id counter in
      (mkRatchetPool (<[node := ratchet']> (ratchets p)) (ratchet_ticks_to_live p), moved)
  end.

(** ** The verifier *)

Record SimpleVerifier := mkSimpleVerifier {
  hash_clock : HashClock;
  ratchet_pool : RatchetPool
}.

Definition sv_new (ticks_to_live : nat) : option SimpleVerifier :=
  if (0 <? ticks_to_live)%nat then
    let! clock := hc_new ticks_to_live in
    Some (mkSimpleVerifier clock (rp_new ticks_to_live))
  else None.

(** [verify]: the outer [None] is a panic, the inner one a rejected message. *)
Definition sv_verify (v : SimpleVerifier) (origin_tick_hash : HashResult)
    (expansion_chain : list (list HashResult)) (node : N) (session_id : U) (counter : Z) :
  option (SimpleVerifier * option (list HashResult)) :=
  match verify_expansion_chain (hash_clock v) origin_tick_hash expansion_chain with
  | None => Some (v, None)
  | Some tick_hash =>
      let (pool, moved) := rp_update (ratchet_pool v) node session_id counter in
      let v' := mkSimpleVerifier (hash_clock v) pool in
      if negb moved then Some (v', None)
      else
        let! hashes := get_expansion (hash_clock v') tick_hash in
        Some (v', Some hashes)
  end.

Definition sv_tick (v : SimpleVerifier) (rand_value : RandValue) :
  option (SimpleVerifier * (HashResult * list N)) :=
  let! (clock, tick_hash) := hc_tick (hash_clock v) rand_value in
  let (pool, removed) := rp_tick (ratchet_pool v) in
  Some (mkSimpleVerifier clock pool, (tick_hash, removed)).

Definition sv_neighbor_tick (v : SimpleVerifier) (neighbor : B) (tick_hash : HashResult) :
  SimpleVerifier * option HashResult :=
  let (clock, old) := hc_neighbor_tick (hash_clock v) neighbor tick_hash in
  (mkSimpleVerifier clock (ratchet_pool v), old).

Definition sv_remove_neighbor (v : SimpleVerifier) (neighbor : B) : SimpleVerifier * option HashResult :=
  let (clock, old) := hc_remove_neighbor (hash_clock v) neighbor in
  (mkSimpleVerifier clock (ratchet_pool v), old).

(** ** Runs of the verifier *)

Inductive VerifierEvent :=
| EvVerify (origin_tick_hash : HashResult) (expansion_chain : list (list HashResult))
    (node : N) (session_id : U) (counter : Z)
| EvTick (rand_value : RandValue)
| EvNeighborTick (neighbor : B) (tick_hash : HashResult)
| EvRemoveNeighbor (neighbor : B).

Inductive VerifierOutput :=
| OutVerified (hashes : option (list HashResult))
| OutTick (tick_hash : HashResult) (removed : list N)
| OutNeighbor (old : option HashResult).

Definition verifier_step (v : SimpleVerifier) (e : VerifierEvent) : option (SimpleVerifier * VerifierOutput) :=
  match e with
  | EvVerify origin chain node session counter =>
      let! (v', o) := sv_verify v origin chain node session counter in Some (v', OutVerified o)
  | EvTick rand_value =>
      let! (v', (h, removed)) := sv_tick v rand_value in Some (v', OutTick h removed)
  | EvNeighborTick b h => let (v', o) := sv_neighbor_tick v b h in Some (v', OutNeighbor o)
  | EvRemoveNeighbor b => let (v', o) := sv_remove_neighbor v b in Some (v', OutNeighbor o)
  end.

Fixpoint verifier_run (v : SimpleVerifier) (es : list VerifierEvent) :
  option (SimpleVerifier * list VerifierOutput) :=
  match es with
  | [] => Some (v, [])
  | e :: es' =>
      let! (v', o) := verifier_step v e in
      let! (v'', os) := verifier_run v' es' in
      Some (v'', o :: os)
  end.

(** The clock keeps the ticks of its map in its queue, each expansion hashes to
    its tick; clock and ratchets live for the same [L > 0] ticks. *)
Definition clock_ok (c : HashClock) : Prop :=
  (0 < last_ticks_max_len c)%nat /\ (length (last_ticks c) <= last_ticks_max_len c)%nat /\
  forall h e, last_ticks_map c !! h = Some e -> h ∈ last_ticks c /\ hash_hashes e = h.

Definition pool_ok (p : RatchetPool) : Prop :=
  forall n r, ratchets p !! n = Some r -> rt_ticks_to_live r = ratchet_ticks_to_live p.

Definition verifier_ok (v : SimpleVerifier) : Prop :=
  clock_ok (hash_clock v) /\ pool_ok (ratchet_pool v) /\
  last_ticks_max_len (hash_clock v) = ratchet_ticks_to_live (ratchet_pool v).

(** *** Clock *)

(** A tick pushes its hash and, when the queue is full, drops the oldest one. *)
Lemma hc_tick_ok c rand :
  clock_ok c ->
  exists c', hc_tick c rand = Some (c', hash_hashes (tick_expansion c rand)) /\ clock_ok c' /\
    last_ticks_max_len c' = last_ticks_max_len c /\
    last_ticks c' = (if (last_ticks_max_len c <? S (length (last_ticks c)))%nat
                     then tail (last_ticks c ++ [hash_hashes (tick_expansion c rand)])
                     else last_ticks c ++ [hash_hashes (tick_expansion c rand)]).
Proof.
  intros (Hpos & Hlen & Hmap). unfold hc_tick, insert_tick_hash.
  set (h := hash_hashes (tick_expansion c rand)). set (e := tick_expansion c rand).
  rewrite (proj2 (Nat.ltb_lt 0 _) Hpos). cbn [negb].
  assert (length (last_ticks c ++ [h]) = S (length (last_ticks c))) as Hl by (rewrite length_app; simpl; lia).
  rewrite Hl. destruct (Nat.ltb_spec (last_ticks_max_len c) (S (length (last_ticks c)))) as [Hov|Hov].
  - destruct (last_ticks c) as [|x ticks] eqn:Ht; [simpl in Hov; lia|]. simpl app. simpl tail in *.
    simpl in Hl, Hlen, Hov. injection Hl as Hl. cbn beta iota. rewrite Hl. rewrite (proj2 (Nat.leb_le _ _)) by lia.
    cbn [negb opt_bind]. eexists. split; [done|]. split; [|done].
    split_and!; simpl; [done|lia|]. intros h' e'. rewrite lookup_insert_Some.
    intros [[<- <-]|[Hne Hd]]; [split; [set_solver|done]|].
    apply lookup_delete_Some in Hd as [Hx Hd]. apply Hmap in Hd as [Hin He]. split; [set_solver|done].
  - rewrite Hl, (proj2 (Nat.leb_le _ _)) by lia. cbn [negb opt_bind]. eexists. split; [done|].
    split; [|done]. split_and!; simpl; [done|lia|]. intros h' e'. rewrite lookup_insert_Some.
    intros [[<- <-]|[Hne Hd]]; [split; [set_solver|done]|].
    apply Hmap in Hd as [Hin He]. split; [set_solver|done].
Qed.

(** A hash found by the clock is a recent tick among the candidates. *)
Lemma find_tick_Some c hashes h :
  find_tick c hashes = Some h -> h ∈ hashes /\ is_Some (last_ticks_map c !! h).
Proof.
  unfold find_tick. intros Hh. assert (h ∈ base.filter (fun h => is_Some (last_ticks_map c !! h)) hashes) as Hin.
  { destruct (base.filter _ _); simplify_eq/=. by left. }
  by apply list_elem_of_filter in Hin as [? ?].
Qed.

(** *** Ratchets *)

Lemma rp_update_lookup p node session counter n :
  n <> node -> ratchets (fst (rp_update p node session counter)) !! n = ratchets p !! n.
Proof.
  intros Hn. unfold rp_update. destruct (ratchets p !! node) as [r|].
  - destruct (ratchet_update r session counter). simpl. by rewrite lookup_insert_ne.
  - simpl. by rewrite lookup_insert_ne.
Qed.

Lemma rp_update_ttl p node session counter :
  ratchet_ticks_to_live (fst (rp_update p node session counter)) = ratchet_ticks_to_live p.
Proof.
  unfold rp_update. destruct (ratchets p !! node) as [r|]; [|done].
  by destruct (ratchet_update r session counter).
Qed.

(** What an update does to the ratchet of its node. *)
Lemma rp_update_node p node session counter :
  pool_ok p ->
  let (p', moved) := rp_update p node session counter in
  if moved then
    ratchets p' !! node =
      Some (mkRatchet session counter (ratchet_ticks_to_live p) (ratchet_ticks_to_live p)) /\
    (forall r, ratchets p !! node = Some r -> rt_session_id r = session -> (rt_counter r < counter)%Z)
  else exists r, ratchets p !! node = Some r /\ ratchets p' !! node = Some r /\
    rt_session_id r = session /\ (counter <= rt_counter r)%Z.
Proof.
  intros Hok. unfold rp_update. destruct (ratchets p !! node) as [r|] eqn:Hr.
  - pose proof (Hok _ _ Hr) as Httl. unfold ratchet_update, inner_update.
    destruct (decide (rt_session_id r <> session)) as [Hs|Hs]; simpl.
    { rewrite lookup_insert_eq, Httl. split; [done|]. intros r' [= <-] ?. done. }
    apply dec_stable in Hs. destruct (Z.ltb_spec (rt_counter r) counter); simpl; rewrite lookup_insert_eq.
    + rewrite Httl, Hs. split; [done|]. intros r' [= <-] _. done.
    + exists r. done.
  - simpl. rewrite lookup_insert_eq. split; [done|]. by intros.
Qed.

Lemma rp_update_ok p node session counter : pool_ok p -> pool_ok (fst (rp_update p node session counter)).
Proof.
  intros Hok n r Hr. rewrite rp_update_ttl. destruct (decide (n = node)) as [->|Hne].
  - pose proof (rp_update_node p node session counter Hok) as Hn.
    destruct (rp_update p node session counter) as [p' []]; simpl in *.
    + destruct Hn as [Hn _]. rewrite Hn in Hr. by simplify_eq.
    + destruct Hn as (r' & Hp & Hp' & _). rewrite Hp' in Hr. simplify_eq. by apply (Hok node).
  - rewrite rp_update_lookup in Hr by done. by apply (Hok n).
Qed.

Lemma rp_tick_lookup p n :
  ratchets (fst (rp_tick p)) !! n =
    match ratchets p !! n with
    | Some r => if decide ((rt_cur_ticks_to_live r - 1)%nat = 0%nat) then None else Some (fst (ratchet_tick r))
    | None => None
    end.
Proof.
  unfold rp_tick. simpl. set (ticked := (fun r => ratchet_tick r) <$> ratchets p).
  assert (n ∈ (base.filter (fun nr => snd (snd nr) = 0%nat) (map_to_list ticked)).*1 <->
    exists r, ratchets p !! n = Some r /\ (rt_cur_ticks_to_live r - 1)%nat = 0%nat) as Hin.
  { rewrite list_elem_of_fmap. split.
    - intros ([n' [r k]] & -> & [Hk Hr%elem_of_map_to_list]%list_elem_of_filter). simpl in *.
      unfold ticked in Hr. rewrite lookup_fmap_Some in Hr. destruct Hr as (r' & Heq & Hr).
      unfold ratchet_tick in Heq. simplify_eq. eauto.
    - intros (r & Hr & Hk). exists (n, ratchet_tick r). split; [done|].
      apply list_elem_of_filter. split; [done|]. apply elem_of_map_to_list. unfold ticked.
      by rewrite lookup_fmap, Hr. }
  destruct (decide (n ∈ (base.filter (fun nr => snd (snd nr) = 0%nat) (map_to_list ticked)).*1)) as [Hn|Hn].
  - rewrite lookup_foldr_delete by done. apply Hin in Hn as (r & -> & Hk). by rewrite decide_True.
  - rewrite lookup_foldr_delete_not_elem_of by done. unfold ticked. rewrite !lookup_fmap.
    destruct (ratchets p !! n) as [r|] eqn:Hr; [|done]. simpl. rewrite decide_False; [done|].
    intros Hk. apply Hn, Hin. eauto.
Qed.

Lemma rp_tick_ok p : pool_ok p -> pool_ok (fst (rp_tick p)).
Proof.
  intros Hok n r. rewrite rp_tick_lookup. destruct (ratchets p !! n) as [r'|] eqn:Hr; [|done].
  destruct (decide _); [done|]. intros [= <-]. simpl. by apply (Hok n).
Qed.

(** *** Steps preserve well-formedness and never panic *)

Lemma sv_verify_total v origin chain node session counter :
  exists v' o, sv_verify v origin chain node session counter = Some (v', o) /\
    hash_clock v' = hash_clock v /\
    (v' = v /\ o = None \/
     ratchet_pool v' = fst (rp_update (ratchet_pool v) node session counter) /\
     (is_Some o <-> snd (rp_update (ratchet_pool v) node session counter) = true)) /\
    (is_Some o -> exists h, verify_expansion_chain (hash_clock v) origin chain = Some h /\
                    last_ticks_map (hash_clock v) !! h = o).
Proof.
  unfold sv_verify. destruct (verify_expansion_chain (hash_clock v) origin chain) as [h|] eqn:Hh.
  2:{ exists v, None. split_and!; [done|done|by left|by intros []]. }
  destruct (rp_update (ratchet_pool v) node session counter) as [p moved] eqn:Hu.
  destruct moved; simpl.
  - unfold verify_expansion_chain in Hh. destruct (chain_linked _ _); [|done].
    apply find_tick_Some in Hh as [_ [e He]]. unfold get_expansion. rewrite He. simpl.
    exists (mkSimpleVerifier (hash_clock v) p), (Some e). split_and!; [done|done| |eauto].
    right. simpl. by split.
  - eexists _, None. split_and!; [done|done| |by intros []]. right. simpl. split; [done|].
    split; [by intros []|done].
Qed.

Lemma verifier_step_ok v e :
  verifier_ok v -> exists v' o, verifier_step v e = Some (v', o) /\ verifier_ok v'.
Proof.
  intros (Hc & Hp & Hl). destruct e as [origin chain node session counter|rand|b h|b]; simpl.
  - destruct (sv_verify_total v origin chain node session counter) as (v' & o & -> & Hcl & Hpool & _).
    eexists _, _. split; [done|]. destruct Hpool as [[-> ->]|[Hpool _]]; [done|].
    unfold verifier_ok. rewrite Hcl, Hpool, rp_update_ttl. split_and!; [done|by apply rp_update_ok|done].
  - unfold sv_tick. destruct (hc_tick_ok (hash_clock v) rand Hc) as (c' & -> & Hc' & Hmax & _).
    simpl. eexists _, _. split; [done|]. split_and!; [done|by apply rp_tick_ok|simpl; by rewrite Hmax].
  - eexists _, _. split; [done|]. done.
  - eexists _, _. split; [done|]. done.
Qed.

Lemma verifier_run_ok v es :
  verifier_ok v -> exists v' os, verifier_run v es = Some (v', os) /\ verifier_ok v'.
Proof.
  revert v. induction es as [|e es IH]; intros v Hv; cbn [verifier_run]; [by exists v, []|].
  destruct (verifier_step_ok v e Hv) as (v' & o & -> & Hv'). simpl.
  destruct (IH v' Hv') as (v'' & os & -> & Hv''). simpl. eauto.
Qed.

Lemma verifier_run_Forall2 (P : VerifierEvent -> VerifierOutput -> Prop) v es v' os :
  Forall (fun e => forall o, P e o) es -> verifier_run v es = Some (v', os) -> Forall2 P es os.
Proof.
  intros HP. revert v os. induction HP as [|e es He HP IH]; intros v os Hrun; cbn [verifier_run] in Hrun.
  { injection Hrun as <- <-. constructor. }
  apply opt_bind_Some in Hrun as ([v1 o] & _ & Hrun).
  apply opt_bind_Some in Hrun as ([v2 os'] & Hrun & [= <- <-]). constructor; eauto.
Qed.

(** ** No replay *)

(** The tick hashes a run emits. *)
Definition emitted (os : list VerifierOutput) : list HashResult :=
  omap (fun o => match o with OutTick h _ => Some h | _ => None end) os.

(** A step that accepts a message of [node] from another session. *)
Definition switches_session (node : N) (session : U) (e : VerifierEvent) (o : VerifierOutput) : Prop :=
  match e, o with
  | EvVerify _ _ n s _, OutVerified (Some _) => n = node /\ s <> session
  | _, _ => False
  end.

(** What is known [n] ticks after a message was accepted: the ticks older than
    it leave the clock one by one, and while any of them is left the ratchet
    remembers the counter. *)
Definition remembers (node : N) (session : U) (counter : Z) (em : list HashResult) (v : SimpleVerifier) : Prop :=
  verifier_ok v /\
  (exists old new, last_ticks (hash_clock v) = old ++ new /\ Forall (fun h => h ∈ em) new /\
     (old = [] \/ length new = length em)) /\
  ((length em < ratchet_ticks_to_live (ratchet_pool v))%nat ->
   exists r, ratchets (ratchet_pool v) !! node = Some r /\ rt_session_id r = session /\
     (counter <= rt_counter r)%Z /\
     (ratchet_ticks_to_live (ratchet_pool v) <= rt_cur_ticks_to_live r + length em)%nat).

Lemma remembers_tick node session counter em v rand v' h removed :
  remembers node session counter em v -> sv_tick v rand = Some (v', (h, removed)) ->
  remembers node session counter (em ++ [h]) v'.
Proof.
  intros (Hok & (old & new & Hticks & Hnew & Hlen) & Hr) Ht. pose proof Hok as (Hc & Hp & Hl).
  unfold sv_tick in Ht. destruct (hc_tick_ok (hash_clock v) rand Hc) as (c' & Hc' & Hcok & Hmax & Hlast).
  rewrite Hc' in Ht. cbn [opt_bind] in Ht.
  pose proof (rp_tick_lookup (ratchet_pool v) node) as Hlook. pose proof (rp_tick_ok _ Hp) as Hpok.
  assert (ratchet_ticks_to_live (fst (rp_tick (ratchet_pool v))) = ratchet_ticks_to_live (ratchet_pool v))
    as Httl by done.
  destruct (rp_tick (ratchet_pool v)) as [pool gone]. cbn [fst] in *. injection Ht as <- <- _.
  set (h := hash_hashes (tick_expansion (hash_clock v) rand)) in *.
  assert (Forall (fun x => x ∈ em ++ [h]) (new ++ [h])) as Hnew'.
  { rewrite Forall_forall in *. intros x [Hx|Hx]%elem_of_app; apply elem_of_app; auto. }
  assert (length (em ++ [h]) = S (length em)) as Hem by (rewrite length_app; simpl; lia).
  split_and!.
  - split_and!; [done|done|simpl; by rewrite Hmax, Httl].
  - simpl. destruct (_ <? _)%nat in Hlast; rewrite Hlast, Hticks.
    + destruct old as [|x old]; simpl.
      * exists [], (tail (new ++ [h])). split_and!; [done| |by left]. by apply Forall_tail.
      * exists old, (new ++ [h]). split_and!; [by rewrite app_assoc|done|]. right.
        destruct Hlen as [?|Hlen]; [done|]. rewrite Hem, length_app. simpl. lia.
    + exists old, (new ++ [h]). split_and!; [by rewrite app_assoc|done|].
      destruct Hlen as [->|Hlen]; [by left|right]. rewrite Hem, length_app. simpl. lia.
  - cbn [ratchet_pool]. rewrite Hem, Httl. intros Hlt. destruct Hr as (r & Hr & Hs & Hcnt & Hcur); [lia|].
    rewrite Hlook, Hr. rewrite decide_False by lia. eexists. split; [done|]. simpl.
    split_and!; [done|done|lia].
Qed.

Lemma remembers_verify node session counter em v origin chain n s c v' o :
  remembers node session counter em v -> sv_verify v origin chain n s c = Some (v', o) ->
  ~ switches_session node session (EvVerify origin chain n s c) (OutVerified o) ->
  remembers node session counter em v'.
Proof.
  intros (Hok & Hticks & Hr) Hv Hsw. pose proof Hok as (Hc & Hp & Hl).
  destruct (sv_verify_total v origin chain n s c) as (v2 & o2 & Hv2 & Hcl & Hpool & _).
  rewrite Hv in Hv2. injection Hv2 as <- <-.
  destruct Hpool as [[-> ->]|[Hpool Ho]]; [done|].
  split_and!.
  - unfold verifier_ok. rewrite Hcl, Hpool, rp_update_ttl. split_and!; [done|by apply rp_update_ok|done].
  - by rewrite Hcl.
  - rewrite Hpool, rp_update_ttl. intros Hlt. destruct (Hr Hlt) as (r & Hrn & Hs & Hcnt & Hcur).
    destruct (decide (n = node)) as [->|Hne]; [|rewrite rp_update_lookup by done; eauto].
    pose proof (rp_update_node (ratchet_pool v) node s c Hp) as Hn.
    destruct (rp_update (ratchet_pool v) node s c) as [p' []]; simpl in *.
    + destruct Hn as [Hn Hgt]. rewrite Hn. eexists. split; [done|]. simpl.
      assert (s = session) as ->.
      { apply dec_stable. intros Hne. apply Hsw. destruct (proj2 Ho eq_refl) as [e ->]. done. }
      specialize (Hgt r Hrn Hs). split_and!; [done|lia|lia].
    + destruct Hn as (r' & Hr1 & Hr2 & _). rewrite Hrn in Hr1. simplify_eq. eauto.
Qed.

Lemma remembers_run node session counter em v es v' os :
  remembers node session counter em v -> verifier_run v es = Some (v', os) ->
  Forall2 (fun e o => ~ switches_session node session e o) es os ->
  remembers node session counter (em ++ emitted os) v'.
Proof.
  revert em v os. induction es as [|e es IH]; intros em v os Hrem Hrun Hsw; cbn [verifier_run] in Hrun.
  { injection Hrun as <- <-. simpl. by rewrite app_nil_r. }
  apply opt_bind_Some in Hrun as ([v1 o] & Hstep & Hrun).
  apply opt_bind_Some in Hrun as ([v2 os'] & Hrun & [= <- <-]).
  apply Forall2_cons in Hsw as [Hsw Hsws].
  destruct e as [origin chain n s c|rand|b h|b]; simpl in Hstep.
  - apply opt_bind_Some in Hstep as ([v1' o'] & Hv & [= <- <-]).
    simpl. eapply IH; [|done|done]. by eapply remembers_verify.
  - apply opt_bind_Some in Hstep as ([v1' [h removed]] & Hv & [= <- <-]).
    replace (em ++ emitted (OutTick h removed :: os')) with ((em ++ [h]) ++ emitted os')
      by (simpl; by rewrite <- app_assoc).
    eapply IH; [|done|done]. by eapply remembers_tick.
  - injection Hstep as <- <-. simpl. eapply IH; [|exact Hrun|exact Hsws]. exact Hrem.
  - injection Hstep as <- <-. simpl. eapply IH; [|exact Hrun|exact Hsws]. exact Hrem.
Qed.

(** A message that [remembers] covers is rejected. *)
Lemma remembers_rejects node session counter em v origin chain counter' :
  remembers node session counter em v -> (counter' <= counter)%Z ->
  (forall h, h ∈ em -> h ∉ List.last chain [origin]) ->
  exists v', sv_verify v origin chain node session counter' = Some (v', None).
Proof.
  intros (Hok & (old & new & Hticks & Hnew & Hlen) & Hr) Hle Hem. pose proof Hok as (Hc & Hp & Hl).
  destruct (sv_verify_total v origin chain node session counter') as (v' & o & Hv & _ & Hpool & Hacc).
  exists v'. rewrite Hv. destruct o as [hs|]; [exfalso|done].
  destruct Hacc as (h & Hh & Hmap); [eauto|].
  destruct (decide (length em < ratchet_ticks_to_live (ratchet_pool v))%nat) as [Hlt|Hge].
  - destruct (Hr Hlt) as (r & Hrn & Hs & Hcnt & _). destruct Hpool as [[_ ?]|[_ Ho]]; [done|].
    pose proof (rp_update_node (ratchet_pool v) node session counter' Hp) as Hn.
    destruct (rp_update (ratchet_pool v) node session counter') as [p' moved]; simpl in Ho.
    assert (moved = true) as -> by (apply Ho; eauto). destruct Hn as [_ Hgt].
    specialize (Hgt r Hrn Hs). lia.
  - assert (old = []) as ->.
    { destruct Hlen as [?|Hlen]; [done|]. destruct Hc as (_ & Hlen' & _).
      rewrite Hticks, length_app in Hlen'. destruct old; [done|]. simpl in Hlen'. lia. }
    unfold verify_expansion_chain in Hh. destruct (chain_linked _ _); [|done].
    apply find_tick_Some in Hh as [Hin _]. destruct Hc as (_ & _ & Hmap').
    apply Hmap' in Hmap as [Hin' _]. rewrite Hticks in Hin'. simpl in Hin'.
    rewrite Forall_forall in Hnew. by apply (Hem h (Hnew h Hin')).
Qed.

(** C17. No replay. Once a message of a node is accepted, no message of the same
    session with the same or a smaller counter is accepted later, for as long
    as the run goes on and however many ticks pass, provided that no message of
    another session of this node was accepted in between and that the time
    proof presented does not contain tick hashes generated after the acceptance.
    The clock and the ratchets may live for the same number of ticks: the
    ratchet of a message never expires before the hashes that made it fresh. *)
Theorem no_replay (v0 v1 v2 : SimpleVerifier) origin chain node session counter hashes es os
  origin' chain' counter'
  (Hok : verifier_ok v0)
  (Haccept : sv_verify v0 origin chain node session counter = Some (v1, Some hashes))
  (Hrun : verifier_run v1 es = Some (v2, os))
  (Hsession : Forall2 (fun e o => ~ switches_session node session e o) es os)
  (Hcounter : (counter' <= counter)%Z)
  (Hunpredictable : forall h, h ∈ emitted os -> h ∉ List.last chain' [origin']) :
  exists v3, sv_verify v2 origin' chain' node session counter' = Some (v3, None).
Proof.
  assert (remembers node session counter [] v1) as Hrem.
  { destruct Hok as (Hc & Hp & Hl).
    destruct (sv_verify_total v0 origin chain node session counter) as (v & o & Hv & Hcl & Hpool & _).
    rewrite Haccept in Hv. injection Hv as <- <-. destruct Hpool as [[_ ?]|[Hpool Ho]]; [done|].
    split_and!.
    - unfold verifier_ok. rewrite Hcl, Hpool, rp_update_ttl. split_and!; [done|by apply rp_update_ok|done].
    - exists (last_ticks (hash_clock v1)), []. split_and!; [by rewrite app_nil_r|done|by right].
    - intros _. pose proof (rp_update_node (ratchet_pool v0) node session counter Hp) as Hn.
      rewrite Hpool, rp_update_ttl.
      destruct (rp_update (ratchet_pool v0) node session counter) as [p' moved]; simpl in *.
      assert (moved = true) as -> by (apply Ho; eauto). destruct Hn as [Hn _].
      eexists. split; [done|]. simpl. split_and!; [done|lia|lia]. }
  eapply remembers_rejects; [by eapply remembers_run| |]; done.
Qed.

(** ** Time proofs extend along the path of a message *)

Lemma last_nonempty {A} (l : list A) x a b : List.last (x :: l) a = List.last (x :: l) b.
Proof. revert x. induction l as [|y l IH]; intros x; [done|]. apply (IH y). Qed.

Lemma chain_linked_snoc prev chain hashes :
  chain_linked prev chain = true -> hash_hashes hashes ∈ List.last chain prev ->
  chain_linked prev (chain ++ [hashes]) = true.
Proof.
  revert prev. induction chain as [|c chain IH]; intros prev Hc Hin; simpl in *.
  - by rewrite bool_decide_true.
  - apply andb_true_iff in Hc as [-> Hc]. simpl. apply IH; [done|].
    destruct chain as [|x chain]; [done|]. rewrite (last_nonempty _ _ _ prev). exact Hin.
Qed.

(** What an accepted message proves, and what it passes on: its origin commits
    through the chain to a tick of this clock, and appending the expansion
    returned by the verifier gives a chain that any clock accepts which made
    one of the hashes of the expansion recently. *)
Lemma accepted_chain_extends v v' origin chain node session counter hashes :
  verifier_ok v -> sv_verify v origin chain node session counter = Some (v', Some hashes) ->
  (exists h, h ∈ last_ticks (hash_clock v) /\ h ∈ List.last chain [origin] /\ hash_hashes hashes = h) /\
  forall c : HashClock, (exists h, h ∈ hashes /\ is_Some (last_ticks_map c !! h)) ->
    is_Some (verify_expansion_chain c origin (chain ++ [hashes])).
Proof.
  intros (Hc & _ & _) Hv.
  destruct (sv_verify_total v origin chain node session counter) as (v2 & o & Hv2 & _ & _ & Hacc).
  rewrite Hv in Hv2. injection Hv2 as <- <-. destruct Hacc as (h & Hh & Hmap); [eauto|].
  unfold verify_expansion_chain in Hh. destruct (chain_linked [origin] chain) eqn:Hlink; [|done].
  apply find_tick_Some in Hh as [Hin _]. destruct Hc as (_ & _ & Hm). apply Hm in Hmap as [Hlt Hhash].
  split; [eauto|]. intros c (x & Hx & Hrecent). unfold verify_expansion_chain.
  rewrite (chain_linked_snoc _ _ _ Hlink) by (by rewrite Hhash). rewrite List.last_last.
  unfold find_tick. assert (x ∈ base.filter (fun h => is_Some (last_ticks_map c !! h)) hashes) as Hf.
  { by apply list_elem_of_filter. }
  destruct (base.filter _ _); [by apply elem_of_nil in Hf|]. simpl. eauto.
Qed.
End Verifier.
Arguments HashClock B {_ _}.
Arguments RatchetPool N U {_ _}.
Arguments SimpleVerifier N B U {_ _ _ _}.
Arguments VerifierEvent N B U : clear implicits.
Arguments VerifierOutput N : clear implicits.

Lemma sv_new_ok `{CryptoOps} {N B U} `{Countable N} `{Countable B} ticks_to_live
  (v : SimpleVerifier N B U) : sv_new ticks_to_live = Some v -> verifier_ok v.
Proof.
  unfold sv_new, hc_new. destruct (Nat.ltb_spec 0 ticks_to_live); [|done]. simpl. intros [= <-].
  split_and!; simpl; [|done|done]. split_and!; simpl; [done|lia|]. intros h e. by rewrite lookup_empty.
Qed.

Module VerifierSamples.
Import Toy.
Definition pk (i : Z) : PublicKey := fixed_of_prefix 32 (be_bytes 1 i).
Definition uid (i : Z) : Uid := fixed_of_prefix 16 (be_bytes 1 i).
Definition rand (i : Z) : RandValue := fixed_of_prefix 16 (be_bytes 2 i).

Notation event := (VerifierEvent PublicKey PublicKey Uid).
Notation verifier := (SimpleVerifier PublicKey PublicKey Uid).
Definition fresh : verifier := mkSimpleVerifier (mkHashClock ∅ 2 [] ∅) (rp_new 2).
Definition after (v : verifier) (es : list event) : verifier := default v (fst <$> verifier_run v es).
Definition outputs (v : verifier) (es : list event) : list (VerifierOutput PublicKey) :=
  default [] (snd <$> verifier_run v es).

Lemma fresh_ok : verifier_ok fresh.
Proof. apply (sv_new_ok 2). reflexivity. Qed.
Lemma after_ok v es : verifier_ok v -> verifier_ok (after v es).
Proof. intros Hv. unfold after. by destruct (verifier_run_ok v es Hv) as (v' & os & -> & Hv'). Qed.

(** A verifier after one tick, and the hash of this tick. *)
Definition start : verifier := after fresh [EvTick (rand 7)].
Definition tick0 : HashResult := List.last (last_ticks (hash_clock start)) (fixed_of_prefix 32 []).
(** Message number [counter] of session [session] of node 1, made after this tick. *)
Definition message (session counter : Z) : event := EvVerify tick0 [] (pk 1) (uid session) counter.
Definition accepted (o : VerifierOutput PublicKey) : bool :=
  match o with OutVerified (Some _) => true | _ => false end.

Definition ticks : list event := [EvTick (rand 8); EvTick (rand 9)].

Lemma first_accepted : map accepted (outputs start [message 1 5]) = [true].
Proof. vm_compute. reflexivity. Qed.
Lemma ticks_unpredictable :
  forallb (fun h => bool_decide (h ∉ [tick0])) (emitted (outputs (after start [message 1 5]) ticks)) = true.
Proof. vm_compute. reflexivity. Qed.

Lemma no_replay_witness :
  exists v3, sv_verify (after (after start [message 1 5]) ticks) tick0 [] (pk 1) (uid 1) 5 = Some (v3, None).
Proof.
  pose proof (after_ok fresh [EvTick (rand 7)] fresh_ok : verifier_ok start) as Hs0.
  pose proof first_accepted as Hacc. unfold outputs, message in Hacc. cbn [verifier_run verifier_step] in Hacc.
  pose proof (after_ok start [message 1 5] Hs0) as Hs1.
  pose proof ticks_unpredictable as Hun. remember (after start [message 1 5]) as v1' eqn:Hv1'.
  unfold after, message in Hv1'. cbn [verifier_run verifier_step] in Hv1'.
  destruct (sv_verify start tick0 [] (pk 1) (uid 1) 5) as [[v1 [hashes|]]|] eqn:Ha.
  2,3: exfalso; simpl in Hacc; discriminate Hacc.
  simpl in Hv1'. subst v1'.
  destruct (verifier_run_ok v1 ticks Hs1) as (v2 & os & Hrun & _).
  assert (after v1 ticks = v2 /\ outputs v1 ticks = os) as [-> Hos]
    by (unfold after, outputs; rewrite Hrun; done).
  rewrite Hos in Hun.
  apply (no_replay start v1 v2 tick0 [] (pk 1) (uid 1) 5 hashes ticks os tick0 [] 5).
  - exact Hs0.
  - exact Ha.
  - exact Hrun.
  - eapply verifier_run_Forall2; [|exact Hrun].
    apply Forall_cons. split; [intros o []|]. apply Forall_cons. split; [intros o []|constructor].
  - lia.
  - intros h Hh. rewrite forallb_forall in Hun. simpl.
    apply list_elem_of_In, Hun, bool_decide_eq_true in Hh. exact Hh.
Defined.

(** The restriction to one session is needed: a ratchet accepts any counter of a
    session other than the last one, so that two sessions of a node let its old
    messages be replayed in turn while their hash is recent. *)
Example sessions_allow_replay :
  map accepted (outputs start [message 1 5; message 1 5; message 2 0; message 1 5; message 2 0]) =
    [true; false; true; true; true].
Proof. vm_compute. reflexivity. Qed.
End VerifierSamples.
