(* ===== verification/IndexServer.v ===== *)
(** * The loop of the index server

    Models [index_server/src/server_loop.rs]: announcements from clients and
    from other servers, time ticks, connections to servers and clients, and the
    answers to requests for routes; and [verifier/dummy_verifier.rs].

    The server is one step function over events. The graph service, a task of
    its own in the code, is called and awaited one request at a time, so its
    state is a field. What the environment decides is an argument: the random
    value of a tick, and [send], the result of each [try_send] on the bounded
    channel of a remote entity. *)

From S2P Require Import Prelude Arith Bytes Messages Canonical IndexMessages SeqMap Bfs CapacityGraph GraphService Verifier.

(** ** The interface to verifiers *)

(** The trait [Verifier], with its random generator as an argument of [tick]. *)
Class VerifierOps (V : Type) : Type := {
  v_verify : V -> HashResult -> list (list HashResult) -> PublicKey -> Uid -> Z ->
             option (V * option (list HashResult));
  v_tick : V -> RandValue -> option (V * (HashResult * list PublicKey));
  v_neighbor_tick : V -> PublicKey -> HashResult -> V * option HashResult;
  v_remove_neighbor : V -> PublicKey -> V * option HashResult
}.

(** What the server relies on: an invariant under which nothing panics. *)
Class VerifierLaws (V : Type) `{VerifierOps V} : Type := {
  v_ok : V -> Prop;
  v_verify_ok v o chain n s c : v_ok v ->
    exists v' r, v_verify v o chain n s c = Some (v', r) /\ v_ok v';
  v_tick_ok v rand : v_ok v -> exists v' r, v_tick v rand = Some (v', r) /\ v_ok v';
  v_neighbor_tick_ok v b h : v_ok v -> v_ok (fst (v_neighbor_tick v b h));
  v_remove_neighbor_ok v b : v_ok v -> v_ok (fst (v_remove_neighbor v b))
}.

#[global] Instance simple_verifier_ops `{CryptoOps} : VerifierOps (SimpleVerifier PublicKey PublicKey Uid) := {|
  v_verify := sv_verify;
  v_tick := sv_tick;
  v_neighbor_tick := sv_neighbor_tick;
  v_remove_neighbor := sv_remove_neighbor
|}.

#[global] Instance simple_verifier_laws `{CryptoOps} : VerifierLaws (SimpleVerifier PublicKey PublicKey Uid).
Proof.
  refine {| v_ok := verifier_ok |}.
  - intros v o chain n s c Hv. destruct (verifier_step_ok v (EvVerify o chain n s c) Hv) as (v' & out & Hs & Hv').
    simpl in Hs. apply opt_bind_Some in Hs as ([v2 r] & Hs & [= <- <-]). simpl. eauto.
  - intros v rand Hv. destruct (verifier_step_ok v (EvTick rand) Hv) as (v' & out & Hs & Hv').
    simpl in Hs. apply opt_bind_Some in Hs as ([v2 [h removed]] & Hs & [= <- <-]). simpl. eauto.
  - intros v b h Hv. exact Hv.
  - intros v b Hv. exact Hv.
Defined.

(** [DummyVerifier]: accepts everything. *)
Inductive DummyVerifier := Dummy.
Definition hash_of_byte (b : Z) : HashResult := fixed_of_prefix 32 (replicate 32 (byte_of_Z b)).
Definition dummy_hash_vec : list HashResult := [hash_of_byte 0; hash_of_byte 1; hash_of_byte 2].
#[global] Instance dummy_verifier_ops : VerifierOps DummyVerifier := {|
  v_verify v _ _ _ _ _ := Some (v, Some dummy_hash_vec);
  v_tick v _ := Some (v, (hash_of_byte 0, []));
  v_neighbor_tick v _ _ := (v, None);
  v_remove_neighbor v _ := (v, None)
|}.
#[global] Instance dummy_verifier_laws : VerifierLaws DummyVerifier.
Proof. refine {| v_ok _ := True |}; simpl; eauto. Defined.

(** ** State *)

Inductive ServerLoopError :=
| SpawnError | GraphClientErrorS | ClientEventSenderError | ClientSenderError | RemoteSendError.

(** The result of a [try_send]. *)
Inductive SendResult := Sent | Full | Disconnected.

(** [Connected]: [true] while the sender is kept. *)
Record Connected := mkConnected { opt_sender : bool }.

(** [Connected::try_send]: the connection after, whether the message was queued,
    and the error. *)
Definition try_send (c : Connected) (r : SendResult) : Connected * bool * outcome ServerLoopError unit :=
  if opt_sender c then
    match r with
    | Sent => (mkConnected true, true, Ok tt)
    | Full => (mkConnected true, false, Ok tt)
    | Disconnected => (mkConnected false, false, Err RemoteSendError)
    end
  else (c, false, Ok tt).

Inductive RemoteServerState :=
| ServerConnected (c : Connected)
| ServerInitiating
| ServerListening.

Record RemoteServer (A : Type) := mkRemoteServer { rs_address : A; rs_state : RemoteServerState }.
Arguments mkRemoteServer {A}.
Arguments rs_address {A}.
Arguments rs_state {A}.

Inductive IndexServerEvent :=
| EvServerConnection (pk : PublicKey)
| EvFromServer (pk : PublicKey) (msg : option IndexServerToServer)
| EvClientConnection (pk : PublicKey)
| EvClientClosed (pk : PublicKey)
| EvClientMutationsUpdate (m : MutationsUpdate)
| EvTimerTick (rand_value : RandValue)
| EvTimerClosed
| EvClientListenerClosed
| EvServerListenerClosed.

(** What the server does outwards: messages queued, attempts to connect,
    handlers started for a client. *)
Inductive ServerAction (A : Type) :=
| ActServer (pk : PublicKey) (msg : IndexServerToServer)
| ActClient (pk : PublicKey) (msg : IndexServerToClient)
| ActConnect (pk : PublicKey) (address : A)
| ActStartClient (pk : PublicKey).
Arguments ActServer {A}.
Arguments ActClient {A}.
Arguments ActConnect {A}.
Arguments ActStartClient {A}.

Notation currency_graphs := (graphs Currency PublicKey Rate).

Section IndexServer.
Context `{CryptoOps} {A V : Type} `{!VerifierOps V}.
Context (compare : PublicKey -> PublicKey -> comparison).

Record IndexServer := mkIndexServerState {
  xs_local_public_key : PublicKey;
  xs_graphs : currency_graphs;
  xs_verifier : V;
  xs_remote_servers : gmap PublicKey (RemoteServer A);
  xs_clients : gmap PublicKey Connected
}.

Definition set_graphs (s : IndexServer) (g : currency_graphs) : IndexServer :=
  mkIndexServerState (xs_local_public_key s) g (xs_verifier s) (xs_remote_servers s) (xs_clients s).
Definition set_verifier (s : IndexServer) (v : V) : IndexServer :=
  mkIndexServerState (xs_local_public_key s) (xs_graphs s) v (xs_remote_servers s) (xs_clients s).
Definition set_remote_servers (s : IndexServer) (r : gmap PublicKey (RemoteServer A)) : IndexServer :=
  mkIndexServerState (xs_local_public_key s) (xs_graphs s) (xs_verifier s) r (xs_clients s).
Definition set_clients (s : IndexServer) (c : gmap PublicKey Connected) : IndexServer :=
  mkIndexServerState (xs_local_public_key s) (xs_graphs s) (xs_verifier s) (xs_remote_servers s) c.

(** ** Connections *)

(** [spawn_server] *)
Definition spawn_server (local_public_key public_key : PublicKey) (address : A) :
  RemoteServer A * list (ServerAction A) :=
  match compare local_public_key public_key with
  | Lt => (mkRemoteServer address ServerListening, [])
  | _ => (mkRemoteServer address ServerInitiating, [ActConnect public_key address])
  end.

(** [IndexServer::new] *)
Definition index_server_new (local_public_key : PublicKey) (trusted_servers : gmap PublicKey A)
    (g : currency_graphs) (v : V) : IndexServer * list (ServerAction A) :=
  (mkIndexServerState local_public_key g v
     (map_imap (fun pk address => Some (fst (spawn_server local_public_key pk address))) trusted_servers) ∅,
   concat (map (fun '(pk, address) => snd (spawn_server local_public_key pk address))
             (map_to_list trusted_servers))).

(** The filter on incoming connections of servers. *)
Definition is_listen_server (s : IndexServer) (pk : PublicKey) : bool :=
  match compare (xs_local_public_key s) pk with Lt => true | _ => false end.

(** The connection of a server after [try_send], and the messages queued. *)
Definition server_try_send (send : PublicKey -> SendResult) (msg : IndexServerToServer)
    (skip : option PublicKey) (pk : PublicKey) (r : RemoteServer A) : RemoteServer A :=
  match rs_state r with
  | ServerConnected c =>
      if decide (Some pk = skip) then r
      else mkRemoteServer (rs_address r) (ServerConnected (fst (fst (try_send c (send pk)))))
  | _ => r
  end.

Definition server_queued (send : PublicKey -> SendResult) (skip : option PublicKey)
    (pk : PublicKey) (r : RemoteServer A) : bool :=
  match rs_state r with
  | ServerConnected c => negb (bool_decide (Some pk = skip)) && snd (fst (try_send c (send pk)))
  | _ => false
  end.

(** The loop over [iter_connected_servers] that sends [msg] to every connected
    server but [skip]; errors of [try_send] are ignored. *)
Definition send_to_servers (send : PublicKey -> SendResult) (msg : IndexServerToServer)
    (skip : option PublicKey) (s : IndexServer) : IndexServer * list (ServerAction A) :=
  (set_remote_servers s
     (map_imap (fun pk r => Some (server_try_send send msg skip pk r)) (xs_remote_servers s)),
   map (fun '(pk, _) => ActServer pk msg)
     (base.filter (fun '(pk, r) => server_queued send skip pk r) (map_to_list (xs_remote_servers s)))).

(** The loop over [self.clients.values_mut()]. *)
Definition send_to_clients (send : PublicKey -> SendResult) (msg : IndexServerToClient)
    (s : IndexServer) : IndexServer * list (ServerAction A) :=
  (set_clients s (map_imap (fun pk c => Some (fst (fst (try_send c (send pk))))) (xs_clients s)),
   map (fun '(pk, _) => ActClient pk msg)
     (base.filter (fun '(pk, c) => snd (fst (try_send c (send pk)))) (map_to_list (xs_clients s)))).

(** ** Announcements *)

(** [graph_client.<call>(...).await?]: an error of the client ends the loop. *)
Definition graph_request (g : currency_graphs) (r : GraphRequest Currency PublicKey Rate) :
  outcome ServerLoopError currency_graphs :=
  let? (g', response) := unwrap (graph_call g r) in
  let? _ := map_err (fun _ => GraphClientErrorS) response in
  Ok g'.

(** One iteration of the loop over [index_mutations]. *)
Definition apply_announced (node : PublicKey) (g : currency_graphs) (m : IndexMutation) :
  outcome ServerLoopError currency_graphs :=
  match m with
  | IndexUpdate u =>
      graph_request g (GrUpdateEdge (uf_currency u) node (uf_public_key u)
                         (mkCapacityEdge (uf_recv_capacity u) (uf_rate u)))
  | IndexRemove r => graph_request g (GrRemoveEdge (rf_currency r) node (rf_public_key r))
  end.

Definition handle_forward_mutations_update (send : PublicKey -> SendResult)
    (opt_server_public_key : option PublicKey) (f : ForwardMutationsUpdate) (s : IndexServer) :
  outcome ServerLoopError (IndexServer * list (ServerAction A)) :=
  let m := fm_mutations_update f in
  if negb (verify_mutations_update m) then Ok (s, []) else
  let expansion_chain := map tl_hashes (fm_time_proof_chain f) in
  let? (v, verified) := unwrap (v_verify (xs_verifier s) (mu_time_hash m) expansion_chain
                                  (mu_node_public_key m) (mu_session_id m) (mu_counter m)) in
  let s := set_verifier s v in
  match verified with
  | None => Ok (s, [])
  | Some hashes =>
      let? g := graph_request (xs_graphs s) (GrTick (mu_node_public_key m)) in
      let f' := mkForwardMutationsUpdate m (fm_time_proof_chain f ++ [mkTimeProofLink hashes]) in
      let? g := ofold (apply_announced (mu_node_public_key m)) g (mu_index_mutations m) in
      Ok (send_to_servers send (ServerForwardMutationsUpdate f') opt_server_public_key (set_graphs s g))
  end.

Definition handle_from_server (send : PublicKey -> SendResult) (public_key : PublicKey)
    (msg : IndexServerToServer) (s : IndexServer) :
  outcome ServerLoopError (IndexServer * list (ServerAction A)) :=
  match msg with
  | ServerTimeHash time_hash =>
      Ok (set_verifier s (fst (v_neighbor_tick (xs_verifier s) public_key time_hash)), [])
  | ServerForwardMutationsUpdate f => handle_forward_mutations_update send (Some public_key) f s
  end.

Definition server_timer_tick (send : PublicKey -> SendResult) (rand_value : RandValue) (s : IndexServer) :
  outcome ServerLoopError (IndexServer * list (ServerAction A)) :=
  let? (v, (time_hash, removed_nodes)) := unwrap (v_tick (xs_verifier s) rand_value) in
  let (s, to_servers) := send_to_servers send (ServerTimeHash time_hash) None (set_verifier s v) in
  let (s, to_clients) := send_to_clients send (ToClientTimeHash time_hash) s in
  let? g := ofold (fun g node => graph_request g (GrRemoveNode node)) (xs_graphs s) removed_nodes in
  Ok (set_graphs s g, to_servers ++ to_clients).

(** ** The event loop *)

(** One iteration of the [while] loop of [server_loop]; no next state is a
    [break]. *)
Definition server_step (send : PublicKey -> SendResult) (s : IndexServer) (e : IndexServerEvent) :
  outcome ServerLoopError (option IndexServer * list (ServerAction A)) :=
  match e with
  | EvServerConnection pk =>
      match xs_remote_servers s !! pk with
      | None => Ok (Some s, [])
      | Some remote_server =>
          match rs_state remote_server with
          | ServerConnected _ => Ok (Some s, [])
          | ServerInitiating | ServerListening =>
              Ok (Some (set_remote_servers s
                    (<[pk := mkRemoteServer (rs_address remote_server) (ServerConnected (mkConnected true))]>
                       (xs_remote_servers s))), [])
          end
      end
  | EvFromServer pk (Some msg) =>
      let? (s', acts) := handle_from_server send pk msg s in Ok (Some s', acts)
  | EvFromServer pk None =>
      match xs_remote_servers s !! pk with
      | None => Ok (Some s, [])
      | Some old_server =>
          let s := set_verifier s (fst (v_remove_neighbor (xs_verifier s) pk)) in
          let (server, acts) := spawn_server (xs_local_public_key s) pk (rs_address old_server) in
          Ok (Some (set_remote_servers s (<[pk := server]> (xs_remote_servers s))), acts)
      end
  | EvClientConnection pk =>
      match xs_clients s !! pk with
      | Some _ => Ok (Some s, [])
      | None => Ok (Some (set_clients s (<[pk := mkConnected true]> (xs_clients s))), [ActStartClient pk])
      end
  | EvClientMutationsUpdate m =>
      let? (s', acts) := handle_forward_mutations_update send None (mkForwardMutationsUpdate m []) s in
      Ok (Some s', acts)
  | EvClientClosed pk => Ok (Some (set_clients s (delete pk (xs_clients s))), [])
  | EvTimerTick rand_value =>
      let? (s', acts) := server_timer_tick send rand_value s in Ok (Some s', acts)
  | EvTimerClosed | EvClientListenerClosed | EvServerListenerClosed => Ok (None, [])
  end.

(** The loop over events, each with the results of its sends; [None] is a loop
    that was left by [break]. *)
Fixpoint server_loop (s : IndexServer) (es : list (IndexServerEvent * (PublicKey -> SendResult))) :
  outcome ServerLoopError (option IndexServer * list (ServerAction A)) :=
  match es with
  | [] => Ok (Some s, [])
  | (e, send) :: es' =>
      let? (o, acts) := server_step send s e in
      match o with
      | None => Ok (None, acts)
      | Some s' => let? (o', acts') := server_loop s' es' in Ok (o', acts ++ acts')
      end
  end.

(** ** Requests for routes ([client_handler]) *)

Definition multi_route_of (m : CapacityMultiRoute PublicKey Rate) : MultiRoute :=
  mkMultiRoute (map (fun r => mkRouteCapacityRate (mkRoute (cr_route r)) (cr_capacity r) (cr_rate r))
                  (cm_routes m)).

(** The handling of one message of a client: an event for the loop, or an
    answer. *)
Definition client_handler_step (g : currency_graphs) (msg : IndexClientToServer) :
  outcome ServerLoopError (list IndexServerEvent * list IndexServerToClient) :=
  match msg with
  | ToServerMutationsUpdate m => Ok ([EvClientMutationsUpdate m], [])
  | ToServerRequestRoutes r =>
      let opt_exclude_edge :=
        option_map (fun e => (from_public_key e, to_public_key e)) (rr_opt_exclude r) in
      let? (_, response) := unwrap (graph_call g (GrGetMultiRoutes (rr_currency r) (rr_source r)
                                      (rr_destination r) (rr_capacity r) opt_exclude_edge)) in
      let? response := map_err (fun _ => GraphClientErrorS) response in
      match response with
      | GsRoutes routes =>
          Ok ([], [ToClientResponseRoutes (mkResponseRoutes (rr_request_id r) (map multi_route_of routes))])
      | _ => Panic
      end
  end.
End IndexServer.
Arguments IndexServer A V : clear implicits.
