(* ===== verification/IndexServerTheory.v ===== *)
(** * Theorems about announcements at the index server

    What one announcement changes in the graphs, that it is authenticated, how
    it travels on, and when it ends the server. *)

From S2P Require Import Prelude Arith Bytes Messages Canonical IndexMessages SeqMap Bfs CapacityGraph GraphService Verifier IndexServer.

Local Open Scope Z_scope.

(** ** Edges after graph operations *)

Section Edges.
Context {N T : Type} `{Countable N} `{!LinearRate T}.
Implicit Types g : SimpleCapacityGraph N T.

Lemma get_edge_update g a b e x y :
  get_edge (fst (update_edge g a b e)) x y =
    if decide (x = a /\ y = b) then Some (edge_new e) else get_edge g x y.
Proof.
  unfold get_edge, update_edge. simpl. destruct (decide (x = a)) as [->|Hx].
  - rewrite lookup_insert_eq. destruct (decide (y = b)) as [->|Hy].
    + rewrite lookup_insert_eq. by rewrite decide_True.
    + rewrite lookup_insert_ne by done. rewrite decide_False by naive_solver.
      destruct (g !! a); simpl; [done|]. by rewrite lookup_empty.
  - rewrite lookup_insert_ne by done. by rewrite decide_False by naive_solver.
Qed.

Lemma get_edge_remove g a b x y :
  get_edge (fst (remove_edge g a b)) x y = if decide (x = a /\ y = b) then None else get_edge g x y.
Proof.
  unfold remove_edge. destruct (g !! a) as [edges|] eqn:Ha; simpl.
  2:{ case_decide as Hd; [|done]. destruct Hd as [-> ->]. unfold get_edge. by rewrite Ha. }
  destruct (edges !! b) as [old|] eqn:Hb; simpl.
  2:{ case_decide as Hd; [|done]. destruct Hd as [-> ->]. unfold get_edge. by rewrite Ha. }
  unfold get_edge. destruct (decide (x = a)) as [->|Hx].
  - assert (match (if decide (delete b edges = ∅) then delete a g else <[a:=delete b edges]> g) !! a with
            | Some a_edges => a_edges !! y | None => None end = delete b edges !! y) as ->.
    { case_decide as He; [rewrite lookup_delete_eq, He; by rewrite lookup_empty|by rewrite lookup_insert_eq]. }
    rewrite Ha. destruct (decide (y = b)) as [->|Hy].
    + rewrite lookup_delete_eq. by rewrite decide_True.
    + rewrite lookup_delete_ne by done. by rewrite decide_False by naive_solver.
  - rewrite (decide_False (P := x = a /\ y = b)) by naive_solver.
    case_decide; [by rewrite lookup_delete_ne|by rewrite lookup_insert_ne].
Qed.

Lemma get_edge_tick g a x y :
  get_edge (graph_tick g a) x y =
    if decide (x = a) then
      let! edges := g !! a in let! e := edges !! y in age_edge (max_edge_age (size edges)) e
    else get_edge g x y.
Proof.
  unfold get_edge, graph_tick. destruct (g !! a) as [edges|] eqn:Ha.
  - destruct (decide (x = a)) as [->|Hx]; [|by rewrite lookup_insert_ne].
    rewrite lookup_insert_eq. unfold node_edges_tick. rewrite lookup_omap. simpl. by destruct (edges !! y).
  - destruct (decide (x = a)) as [->|Hx]; [by rewrite Ha|done].
Qed.
End Edges.

(** ** The view of a node *)

Definition info_of (e : GraphEdge Rate) : FriendInfo :=
  mkFriendInfo (ce_recv_capacity (ge_capacity_edge e)) (ce_rate (ge_capacity_edge e)).

(** What the server holds about friend [k.1] of [node] in currency [k.2]. *)
Definition edge_of (g : currency_graphs) (node : PublicKey) (k : PublicKey * Currency) :
  option (GraphEdge Rate) := let! cg := g !! snd k in get_edge cg node (fst k).
Definition view (g : currency_graphs) (node : PublicKey) (k : PublicKey * Currency) : option FriendInfo :=
  info_of <$> edge_of g node k.

Lemma edge_of_insert g c cg node k :
  edge_of (<[c := cg]> g) node k =
    if decide (snd k = c) then get_edge cg node (fst k) else edge_of g node k.
Proof.
  unfold edge_of. destruct (decide (snd k = c)) as [->|Hne]; [by rewrite lookup_insert_eq|].
  by rewrite lookup_insert_ne.
Qed.

(** A request that the service answers. *)
Lemma graph_request_Ok g r g' :
  graph_request g r = Ok g' -> exists o, process_request g r = Some (g', Some o).
Proof.
  unfold graph_request, graph_call. destruct (process_request g r) as [[g1 [o|]]|]; simpl; naive_solver.
Qed.

Lemma graph_request_no_panic g r : graph_request g r <> Panic.
Proof.
  unfold graph_request, graph_call. destruct (process_request_total g r) as [[g1 o] ->]. simpl.
  by destruct o.
Qed.

(** The changes of one announced mutation, edge by edge. *)
Definition announce (node : PublicKey) (m : IndexMutation) (x : PublicKey) (k : PublicKey * Currency)
    (old : option (GraphEdge Rate)) : option (GraphEdge Rate) :=
  if decide (x = node /\ k = mutation_key m) then
    match m with
    | IndexUpdate u => Some (edge_new (mkCapacityEdge (uf_recv_capacity u) (uf_rate u)))
    | IndexRemove _ => None
    end
  else old.

Lemma apply_announced_edges node g m g' :
  apply_announced node g m = Ok g' ->
  forall x k, edge_of g' x k = announce node m x k (edge_of g x k).
Proof.
  intros Hg x k. destruct k as [f cur]. unfold announce. destruct m as [u|r]; simpl in Hg;
    apply graph_request_Ok in Hg as (o & Hp); cbn [process_request] in Hp.
  - pose proof (get_edge_update (default graph_new (g !! uf_currency u)) node (uf_public_key u)
      (mkCapacityEdge (uf_recv_capacity u) (uf_rate u)) x f) as Hupd.
    destruct (update_edge _ node (uf_public_key u) _) as [cg old]. injection Hp as <- _. simpl in Hupd.
    rewrite edge_of_insert. simpl fst. simpl snd. simpl mutation_key. rewrite Hupd.
    destruct (decide (cur = uf_currency u)) as [->|Hc]; [|by rewrite decide_False by naive_solver].
    unfold edge_of. simpl. destruct (decide (x = node /\ f = uf_public_key u)) as [[-> ->]|Hn].
    + by rewrite decide_True.
    + rewrite decide_False by naive_solver. destruct (g !! uf_currency u); simpl; [done|].
      unfold get_edge, graph_new. by rewrite lookup_empty.
  - destruct (g !! rf_currency r) as [cg|] eqn:Hcg; [|done].
    pose proof (get_edge_remove cg node (rf_public_key r) x f) as Hrem.
    destruct (remove_edge cg node (rf_public_key r)) as [cg' old]. injection Hp as <- _. simpl in Hrem.
    rewrite edge_of_insert. simpl fst. simpl snd. simpl mutation_key.
    destruct (decide (cur = rf_currency r)) as [->|Hc]; [|by rewrite decide_False by naive_solver].
    rewrite Hrem. unfold edge_of. simpl. rewrite Hcg. simpl.
    destruct (decide (x = node /\ f = rf_public_key r)) as [[-> ->]|Hn].
    + by rewrite decide_True.
    + by rewrite decide_False by naive_solver.
Qed.

(** An announced mutation fails only when it removes from an unknown currency. *)
Lemma apply_announced_result node g m :
  match apply_announced node g m with
  | Ok _ => True
  | Err e => e = GraphClientErrorS /\ exists r, m = IndexRemove r /\ g !! rf_currency r = None
  | Panic => False
  end.
Proof.
  destruct m as [u|r]; simpl; unfold graph_request, graph_call; simpl.
  - done.
  - destruct (g !! rf_currency r) as [cg|] eqn:Hcg; simpl; [|eauto].
    by destruct (remove_edge cg node (rf_public_key r)).
Qed.

Lemma view_learn node g m g' known :
  apply_announced node g m = Ok g' ->
  (forall k, known !! k = view g node k) -> forall k, learn known m !! k = view g' node k.
Proof.
  intros Hg Hk k. unfold view. rewrite (apply_announced_edges node g m g' Hg). unfold announce.
  destruct (decide (k = mutation_key m)) as [->|Hne].
  - rewrite decide_True by done. destruct m; simpl; by rewrite ?lookup_insert_eq, ?lookup_delete_eq.
  - rewrite decide_False by naive_solver. rewrite learn_ne by done. apply Hk.
Qed.

(** No graph of a currency is dropped. *)
Lemma apply_announced_unknown node g m g' c : apply_announced node g m = Ok g' -> g' !! c = None -> g !! c = None.
Proof.
  intros Hg. destruct m as [u|r]; simpl in Hg; apply graph_request_Ok in Hg as (o & Hp); cbn [process_request] in Hp.
  - destruct (update_edge _ node (uf_public_key u) _) as [cg old]. injection Hp as <- _. intros Hn.
    by apply lookup_insert_None in Hn as [? _].
  - destruct (g !! rf_currency r) as [cg|] eqn:Hcg; [|done].
    destruct (remove_edge cg node (rf_public_key r)) as [cg' old]. injection Hp as <- _. intros Hn.
    by apply lookup_insert_None in Hn as [? _].
Qed.

Lemma announced_fold node ms g :
  match ofold (apply_announced node) g ms with
  | Ok g' =>
      (forall x k, x <> node -> edge_of g' x k = edge_of g x k) /\
      (forall known, (forall k, known !! k = view g node k) ->
         forall k, foldl learn known ms !! k = view g' node k)
  | Err e => e = GraphClientErrorS /\ exists r, IndexRemove r ∈ ms /\ g !! rf_currency r = None
  | Panic => False
  end.
Proof.
  revert g. induction ms as [|m ms IH]; intros g; simpl; [naive_solver|].
  pose proof (apply_announced_result node g m) as Hr.
  destruct (apply_announced node g m) as [g1|e|] eqn:Hg; simpl; [|destruct Hr as (-> & r & -> & Hnone)|done].
  - specialize (IH g1). destruct (ofold (apply_announced node) g1 ms) as [g'|e|]; [| |done].
    + destruct IH as [Ho Hv]. split.
      * intros x k Hx. rewrite Ho by done. rewrite (apply_announced_edges _ _ _ _ Hg). unfold announce.
        by rewrite decide_False by naive_solver.
      * intros known Hk k. apply Hv. by eapply view_learn.
    + destruct IH as (-> & r & Hr' & Hn). split; [done|]. exists r. split; [by right|]. by eapply apply_announced_unknown.
  - split; [done|]. exists r. split; [by left|done].
Qed.

(** Ticking a node ages its edges only, and drops those that are too old. *)
Lemma tick_edges g node g' :
  graph_request g (GrTick node) = Ok g' ->
  (forall x k, x <> node -> edge_of g' x k = edge_of g x k) /\
  (forall k, edge_of g' node k =
     let! cg := g !! snd k in let! edges := cg !! node in let! e := edges !! fst k in
     age_edge (max_edge_age (size edges)) e).
Proof.
  intros Hg. apply graph_request_Ok in Hg as (o & [= <- _]). unfold edge_of.
  split; intros; rewrite lookup_fmap; destruct (g !! snd k) as [cg|]; simpl; try done;
    rewrite get_edge_tick; [by rewrite decide_False|by rewrite decide_True].
Qed.

(** An edge of a node after the node was ticked. *)
Definition aged_edge (g : currency_graphs) (node : PublicKey) (k : PublicKey * Currency) : option (GraphEdge Rate) :=
  let! cg := g !! snd k in
  let! edges := cg !! node in
  let! e := edges !! fst k in
  age_edge (max_edge_age (size edges)) e.

Lemma tick_unknown g node g' c : graph_request g (GrTick node) = Ok g' -> g' !! c = None -> g !! c = None.
Proof. intros Hg. apply graph_request_Ok in Hg as (o & [= <- _]). rewrite lookup_fmap. by destruct (g !! c). Qed.

Lemma age_edge_info limit e e' : age_edge limit e = Some e' -> info_of e' = info_of e.
Proof. unfold age_edge. destruct (_ <? _); [|done]. by intros [= <-]. Qed.

Lemma tick_view g node g' k i :
  graph_request g (GrTick node) = Ok g' -> view g' node k = Some i -> view g node k = Some i.
Proof.
  intros Hg. unfold view. rewrite (proj2 (tick_edges g node g' Hg)). unfold edge_of, get_edge.
  destruct (g !! snd k) as [cg|]; simpl; [|done]. destruct (cg !! node) as [edges|]; simpl; [|done].
  destruct (edges !! fst k) as [e|]; simpl; [|done].
  destruct (age_edge _ e) as [e'|] eqn:He; simpl; [|done]. by rewrite (age_edge_info _ _ _ He).
Qed.

(** ** One announcement *)

Section Announcement.
Context `{CryptoOps} {A V : Type} `{!VerifierOps V} `{!VerifierLaws V}.
Implicit Types s : IndexServer A V.

(** The server [pk] is connected and takes a message that is sent to it. *)
Definition takes_message (send : PublicKey -> SendResult) s (pk : PublicKey) : Prop :=
  exists r, xs_remote_servers s !! pk = Some r /\ rs_state r = ServerConnected (mkConnected true) /\ send pk = Sent.

Lemma send_to_servers_acts send msg skip s act :
  act ∈ snd (send_to_servers send msg skip s) <->
  exists pk, act = ActServer pk msg /\ Some pk <> skip /\ takes_message send s pk.
Proof.
  simpl. rewrite list_elem_of_fmap. split.
  - intros ([pk r] & -> & [Hq Hin]%list_elem_of_filter). apply elem_of_map_to_list in Hin.
    exists pk. split; [done|]. unfold server_queued in Hq. destruct (rs_state r) as [[o]| |] eqn:Hst; [|done|done].
    apply andb_True in Hq as [Hne Hq]. split; [intros Heq; by rewrite bool_decide_true in Hne|].
    unfold try_send in Hq. simpl in Hq. destruct o; [|done]. destruct (send pk) eqn:Hsend; try done. by exists r.
  - intros (pk & -> & Hne & r & Hr & Hst & Hsend). exists (pk, r). split; [done|]. apply list_elem_of_filter.
    split; [|by apply elem_of_map_to_list]. unfold server_queued. rewrite Hst, bool_decide_false by done.
    unfold try_send. simpl. by rewrite Hsend.
Qed.

(** What a fresh announcement leads to; [hashes] is what the verifier adds to its proof. *)
Definition announcement_effect (send : PublicKey -> SendResult) (s : IndexServer A V) (origin : option PublicKey)
    (f : ForwardMutationsUpdate) (hashes : list HashResult) (s' : IndexServer A V) (acts : list (ServerAction A)) : Prop :=
  let m := fm_mutations_update f in
  let node := mu_node_public_key m in
  (forall x k, x <> node -> edge_of (xs_graphs s') x k = edge_of (xs_graphs s) x k) /\
  (forall known, (forall k, known !! k = info_of <$> aged_edge (xs_graphs s) node k) ->
     forall k, foldl learn known (mu_index_mutations m) !! k = view (xs_graphs s') node k) /\
  (forall act, act ∈ acts <-> exists pk,
     act = ActServer pk (ServerForwardMutationsUpdate
             (mkForwardMutationsUpdate m (fm_time_proof_chain f ++ [mkTimeProofLink hashes]))) /\
     Some pk <> origin /\ takes_message send s pk).

(** C16. The effect of an announcement. When the signature of the node does not verify,
    nothing changes and nothing is sent; when it verifies and the verifier does not
    accept the message as fresh, nothing but the verifier changes and nothing is
    sent. A message that is signed and fresh is applied: the edges of all other nodes
    stay as they are, the edges of the node become what remains after ageing with the
    announced mutations applied in order, and the message is passed on, with the time
    proof extended, to exactly the connected servers other than the one it came from
    that take it. The server fails only on a signed and fresh message that removes
    from a currency it has no graph of; it never panics. *)
Theorem announcement_correct (send : PublicKey -> SendResult) (origin : option PublicKey)
  (f : ForwardMutationsUpdate) s (Hok : v_ok (xs_verifier s)) :
  let m := fm_mutations_update f in
  exists v verified, v_ok v /\
    v_verify (xs_verifier s) (mu_time_hash m) (map tl_hashes (fm_time_proof_chain f)) (mu_node_public_key m)
      (mu_session_id m) (mu_counter m) = Some (v, verified) /\
    match handle_forward_mutations_update send origin f s with
    | Ok (s', acts) =>
        if verify_mutations_update m then
          xs_verifier s' = v /\
          match verified with
          | Some hashes => announcement_effect send s origin f hashes s' acts
          | None => s' = set_verifier s v /\ acts = []
          end
        else s' = s /\ acts = []
    | Err e => e = GraphClientErrorS /\ verify_mutations_update m = true /\ is_Some verified /\
        exists r, IndexRemove r ∈ mu_index_mutations m /\ xs_graphs s !! rf_currency r = None
    | Panic => False
    end.
Proof.
  intros m. unfold handle_forward_mutations_update. fold m.
  destruct (v_verify_ok (xs_verifier s) (mu_time_hash m) (map tl_hashes (fm_time_proof_chain f))
    (mu_node_public_key m) (mu_session_id m) (mu_counter m) Hok) as (v & verified & Hv & Hvok).
  exists v, verified. split; [done|]. split; [done|].
  destruct (verify_mutations_update m) eqn:Hsig; simpl negb; cbn match; [|done].
  rewrite Hv. cbn [unwrap obind]. destruct verified as [hashes|]; [|done].
  pose proof (graph_request_no_panic (xs_graphs (set_verifier s v)) (GrTick (mu_node_public_key m))) as Hnp.
  destruct (graph_request _ (GrTick (mu_node_public_key m))) as [g|e|] eqn:Htick; [|done|done].
  cbn [obind]. pose proof (announced_fold (mu_node_public_key m) (mu_index_mutations m) g) as Hf.
  destruct (tick_edges _ _ _ Htick) as [Hother Haged].
  destruct (ofold _ g (mu_index_mutations m)) as [g'|e|]; cbn [obind].
  - split; [done|]. destruct Hf as [Hfo Hfv]. split; [|split].
    + intros x k Hx. simpl. rewrite Hfo by done. by apply Hother.
    + intros known Hk. apply Hfv. intros k. unfold view. rewrite Hk, Haged. done.
    + intros act. exact (send_to_servers_acts _ _ _ (set_graphs (set_verifier s v) g') act).
  - destruct Hf as (-> & r & Hr & Hn). split_and!; [done..|by eexists|]. exists r. split; [done|].
    by eapply (tick_unknown (xs_graphs s)).
  - done.
Qed.

(** Any node can stop an index server: a fresh, properly signed
    announcement that removes a friend in a currency the server has no graph of
    makes the graph service drop the request, and the server leaves its loop
    with an error. *)
Theorem unknown_currency_stops_server compare (send : PublicKey -> SendResult) s (m : MutationsUpdate)
  (r : RemoveFriendCurrency) (rest : list IndexMutation) (v : V) hashes
  (Hsig : verify_mutations_update m = true)
  (Hfresh : v_verify (xs_verifier s) (mu_time_hash m) [] (mu_node_public_key m) (mu_session_id m)
              (mu_counter m) = Some (v, Some hashes))
  (Hms : mu_index_mutations m = IndexRemove r :: rest)
  (Hunknown : xs_graphs s !! rf_currency r = None) :
  server_step compare send s (EvClientMutationsUpdate m) = Err GraphClientErrorS.
Proof.
  simpl. unfold handle_forward_mutations_update. simpl. rewrite Hsig, Hfresh. simpl. rewrite Hms. simpl.
  unfold graph_request, graph_call. simpl. by rewrite lookup_fmap, Hunknown.
Qed.
End Announcement.

Module IndexServerSamples.
Import Toy VerifierSamples.
Definition usd : Currency := mkCurrency "USD".
Definition unsigned (node counter : Z) (ms : list IndexMutation) : MutationsUpdate :=
  mkMutationsUpdate (pk node) ms tick0 (uid 1) counter (rand 1) (fixed_of_prefix 64 []).
(** An announcement of node [node], made after the first tick of [start]. *)
Definition announcement (node counter : Z) (ms : list IndexMutation) : MutationsUpdate :=
  let m := unsigned node counter ms in
  with_signature m (request_signature (public_key := pk node) (create_mutations_update_signature_buff m)).
Definition server : IndexServer unit verifier :=
  mkIndexServerState (pk 0) ∅ start {[pk 9 := mkRemoteServer tt (ServerConnected (mkConnected true))]} ∅.
Definition update (friend capacity : Z) (c : Currency) : IndexMutation :=
  IndexUpdate (mkUpdateFriendCurrency (pk friend) c capacity rate_new).
Definition all_sent (_ : PublicKey) : SendResult := Sent.

Lemma start_verifier_ok : v_ok (VerifierLaws := simple_verifier_laws) start.
Proof. apply after_ok, fresh_ok. Qed.

(** The announcement is accepted and forwarded to the connected server. *)
Definition forwarded (r : outcome ServerLoopError (IndexServer unit verifier * list (ServerAction unit))) : nat :=
  match r with Ok (_, acts) => length acts | _ => 0 end.
Example sample_forwarded :
  forwarded (handle_forward_mutations_update all_sent None
    (mkForwardMutationsUpdate (announcement 1 0 [update 2 10 usd]) []) server) = 1%nat.
Proof. vm_compute. reflexivity. Qed.

Lemma announcement_correct_witness :
  exists s' acts hashes,
    handle_forward_mutations_update all_sent None
      (mkForwardMutationsUpdate (announcement 1 0 [update 2 10 usd]) []) server = Ok (s', acts) /\ length acts = 1%nat /\
    announcement_effect all_sent server None (mkForwardMutationsUpdate (announcement 1 0 [update 2 10 usd]) []) hashes s' acts.
Proof.
  destruct (announcement_correct (VerifierLaws0 := simple_verifier_laws) all_sent None
    (mkForwardMutationsUpdate (announcement 1 0 [update 2 10 usd]) []) server start_verifier_ok)
    as (v & verified & _ & _ & Ha).
  pose proof sample_forwarded as Hf.
  destruct (handle_forward_mutations_update _ _ _ _) as [[s' acts]|e|]; [|discriminate Hf|discriminate Hf].
  simpl in Hf. destruct (verify_mutations_update _); [|destruct Ha as [_ ->]; discriminate Hf].
  destruct Ha as [_ Ha]. destruct verified as [hashes|]; [|destruct Ha as [_ ->]; discriminate Hf].
  exists s', acts, hashes. split; [reflexivity|]. split; [exact Hf|exact Ha].
Defined.

Definition removal : MutationsUpdate := announcement 1 0 [IndexRemove (mkRemoveFriendCurrency (pk 2) usd)].

Lemma unknown_currency_stops_server_witness :
  server_step compare_public_key all_sent server (EvClientMutationsUpdate removal) = Err GraphClientErrorS.
Proof.
  assert (forallb accepted (outputs start [EvVerify tick0 [] (pk 1) (uid 1) 0]) = true) as Hacc
    by (vm_compute; reflexivity).
  unfold outputs in Hacc. cbn [verifier_run verifier_step] in Hacc.
  destruct (sv_verify start tick0 [] (pk 1) (uid 1) 0) as [[v [hashes|]]|] eqn:Hv.
  - eapply unknown_currency_stops_server with (rest := []).
    + unfold removal, announcement, verify_mutations_update. rewrite with_signature_buff.
      apply request_signature_verifies.
    + exact Hv.
    + reflexivity.
    + reflexivity.
  - exfalso. simpl in Hacc. discriminate Hacc.
  - exfalso. 
    destruct (verifier_step_ok start (EvVerify tick0 [] (pk 1) (uid 1) 0) (after_ok _ _ fresh_ok)) as (v & o & Hs & _).
    simpl in Hs. rewrite Hv in Hs. discriminate Hs.
Defined.
End IndexServerSamples.
