(* ===== verification/IndexClient.v ===== *)
(** * The index client

    Models [index_client/src/single_client.rs] (one session with an index
    server) and [index_client/src/index_client.rs] (choice of a server,
    announcements, requests for routes, reports to the app server).

    A handler returns the new state and the actions it takes, in order; an
    error ends the loop. The outcome of sending on a channel is decided by the
    environment and is an argument. A oneshot sender for a response is named by
    an identifier of type [R]. *)

From S2P Require Import Prelude Arith Bytes Messages Canonical IndexMessages SeqMap.

(** ** A session with a server ([single_client.rs]) *)

Inductive SingleClientControl (R : Type) :=
| CtlRequestRoutes (r : RequestRoutes) (response_sender : R)
| CtlSendMutations (ms : list IndexMutation).
Arguments CtlRequestRoutes {R}.
Arguments CtlSendMutations {R}.

Inductive SingleClientError :=
| ControlClosed | ServerClosed | SendToServerError | RequestSignatureFailed | CounterOverflow.

Inductive SingleClientEvent (R : Type) :=
| ScFromServer (msg : IndexServerToClient)
| ScServerClosed
| ScControl (c : SingleClientControl R) (rand_nonce : RandValue) (send_ok : bool)
| ScControlClosed.
Arguments ScFromServer {R}.
Arguments ScServerClosed {R}.
Arguments ScControl {R}.
Arguments ScControlClosed {R}.

(** What a session does: messages to the server, responses through oneshots,
    and oneshots dropped unanswered. *)
Inductive SingleClientAction (R : Type) :=
| ScSend (msg : IndexClientToServer)
| ScReply (response_sender : R) (multi_routes : list MultiRoute)
| ScDrop (response_sender : R).
Arguments ScSend {R}.
Arguments ScReply {R}.
Arguments ScDrop {R}.

Section SingleClient.
Context `{CryptoOps} {R : Type}.

Record SingleClient := mkSingleClient {
  sc_local_public_key : PublicKey;
  sc_session_id : Uid;
  sc_counter : Z;
  sc_server_time_hash : HashResult;
  sc_open_requests : gmap Uid R
}.

Definition single_client_new (local_public_key : PublicKey) (session_id : Uid) (server_time_hash : HashResult) :
  SingleClient := mkSingleClient local_public_key session_id 0 server_time_hash ∅.

Definition handle_server_message (s : SingleClient) (msg : IndexServerToClient) :
  SingleClient * list (SingleClientAction R) :=
  match msg with
  | ToClientTimeHash time_hash =>
      (mkSingleClient (sc_local_public_key s) (sc_session_id s) (sc_counter s) time_hash (sc_open_requests s), [])
  | ToClientResponseRoutes r =>
      match sc_open_requests s !! rp_request_id r with
      | Some request_sender =>
          (mkSingleClient (sc_local_public_key s) (sc_session_id s) (sc_counter s) (sc_server_time_hash s)
             (delete (rp_request_id r) (sc_open_requests s)),
           [ScReply request_sender (rp_multi_routes r)])
      | None => (s, [])
      end
  end.

(** The signed update of [SendMutations]. *)
Definition make_mutations_update (s : SingleClient) `{!SignerOps (sc_local_public_key s)}
    (index_mutations : list IndexMutation) (rand_nonce : RandValue) : MutationsUpdate :=
  let m := mkMutationsUpdate (sc_local_public_key s) index_mutations (sc_server_time_hash s)
             (sc_session_id s) (sc_counter s) rand_nonce (fixed_of_prefix 64 []) in
  with_signature m (request_signature (public_key := sc_local_public_key s)
                      (create_mutations_update_signature_buff m)).

Definition handle_control_message (s : SingleClient) `{!SignerOps (sc_local_public_key s)}
    (c : SingleClientControl R) (rand_nonce : RandValue) (send_ok : bool) :
  outcome SingleClientError (SingleClient * list (SingleClientAction R)) :=
  match c with
  | CtlRequestRoutes request_routes response_sender =>
      let dropped := match sc_open_requests s !! rr_request_id request_routes with
                     | Some old => [ScDrop old]
                     | None => []
                     end in
      let s := mkSingleClient (sc_local_public_key s) (sc_session_id s) (sc_counter s)
                 (sc_server_time_hash s)
                 (<[rr_request_id request_routes := response_sender]> (sc_open_requests s)) in
      let? _ := guard_or send_ok SendToServerError in
      Ok (s, dropped ++ [ScSend (ToServerRequestRoutes request_routes)])
  | CtlSendMutations index_mutations =>
      let mutations_update := make_mutations_update s index_mutations rand_nonce in
      let? counter := ok_or (checked_u 64 (sc_counter s + 1)) CounterOverflow in
      let s := mkSingleClient (sc_local_public_key s) (sc_session_id s) counter
                 (sc_server_time_hash s) (sc_open_requests s) in
      let? _ := guard_or send_ok SendToServerError in
      Ok (s, [ScSend (ToServerMutationsUpdate mutations_update)])
  end.

(** [first_server_time_hash]: waiting for the first time hash, on the messages
    received before the connection closes. *)
Fixpoint first_server_time_hash (msgs : list IndexServerToClient) :
  outcome SingleClientError (HashResult * list IndexServerToClient) :=
  match msgs with
  | [] => Err ServerClosed
  | ToClientTimeHash time_hash :: rest => Ok (time_hash, rest)
  | _ :: rest => first_server_time_hash rest
  end.

(** One iteration of [single_client_loop]; the signer is the same in all of them. *)
Definition single_client_step (signer : forall pk, SignerOps pk) (s : SingleClient) (e : SingleClientEvent R) :
  outcome SingleClientError (SingleClient * list (SingleClientAction R)) :=
  match e with
  | ScFromServer msg => Ok (handle_server_message s msg)
  | ScServerClosed => Err ServerClosed
  | ScControl c rand_nonce send_ok =>
      handle_control_message s (SignerOps0 := signer (sc_local_public_key s)) c rand_nonce send_ok
  | ScControlClosed => Err ControlClosed
  end.
End SingleClient.
Arguments SingleClient R : clear implicits.

(** ** Configuration *)

Record IndexClientConfig (ISA : Type) := mkIndexClientConfig { icc_index_servers : list (NamedIndexServerAddress ISA) }.
Arguments mkIndexClientConfig {ISA}.
Arguments icc_index_servers {ISA}.

Inductive IndexClientConfigMutation (ISA : Type) :=
| ConfigAddIndexServer (a : NamedIndexServerAddress ISA)
| ConfigRemoveIndexServer (pk : PublicKey).
Arguments ConfigAddIndexServer {ISA}.
Arguments ConfigRemoveIndexServer {ISA}.

(** [IndexClientConfig::mutate] *)
Definition icc_mutate {ISA} (c : IndexClientConfig ISA) (m : IndexClientConfigMutation ISA) :
  IndexClientConfig ISA :=
  match m with
  | ConfigAddIndexServer a =>
      mkIndexClientConfig (retain_servers (ni_public_key a) (icc_index_servers c) ++ [a])
  | ConfigRemoveIndexServer pk => mkIndexClientConfig (retain_servers pk (icc_index_servers c))
  end.

(** ** State of the index client *)

Inductive IndexClientError :=
| AppServerClosed | SendToAppServerFailed | IcSpawnError | RequestTimerStreamError | SeqFriendsError
| DatabaseError.

(** Oneshot and control senders are [true] while they are kept. *)
Inductive ConnStatus (ISA : Type) :=
| StatusEmpty (ticks_to_reconnect : nat)
| StatusConnecting (index_server : IndexServerAddress ISA) (opt_cancel_sender : bool)
| StatusConnected (index_server : IndexServerAddress ISA) (opt_control_sender opt_cancel_sender : bool)
    (ticks_to_send_keepalive : nat).
Arguments StatusEmpty {ISA}.
Arguments StatusConnecting {ISA}.
Arguments StatusConnected {ISA}.

Record IndexClient (ISA : Type) := mkIndexClient {
  ic_index_servers : list (IndexServerAddress ISA);
  ic_seq_friends : SeqFriends;
  ic_max_open_requests : nat;
  ic_num_open_requests : nat;
  ic_keepalive_ticks : nat;
  ic_backoff_ticks : nat;
  ic_conn_status : ConnStatus ISA
}.
Arguments mkIndexClient {ISA}.
Arguments ic_index_servers {ISA}.
Arguments ic_seq_friends {ISA}.
Arguments ic_max_open_requests {ISA}.
Arguments ic_num_open_requests {ISA}.
Arguments ic_keepalive_ticks {ISA}.
Arguments ic_backoff_ticks {ISA}.
Arguments ic_conn_status {ISA}.

Inductive IndexClientEvent (ISA : Type) :=
| IcFromAppServer (msg : AppServerToIndexClient ISA)
| IcAppServerClosed
| IcIndexServerConnected
| IcIndexServerClosed
| IcRoutes (request_id : Uid) (result : ResponseRoutesResult)
| IcTimerTick.
Arguments IcFromAppServer {ISA}.
Arguments IcAppServerClosed {ISA}.
Arguments IcIndexServerConnected {ISA}.
Arguments IcIndexServerClosed {ISA}.
Arguments IcRoutes {ISA}.
Arguments IcTimerTick {ISA}.

Inductive IndexClientAction (ISA : Type) :=
| IcaToAppServer (msg : IndexClientToAppServer ISA)
| IcaDatabase (ms : list (IndexClientConfigMutation ISA))
| IcaConnect (index_server : IndexServerAddress ISA)     (* start a connection task *)
| IcaCancel                                              (* end the connection task *)
| IcaControl (c : SingleClientControl Uid)               (* to the session *)
| IcaSpawnRequest (request_id : Uid).                    (* wait for a response *)
Arguments IcaToAppServer {ISA}.
Arguments IcaDatabase {ISA}.
Arguments IcaConnect {ISA}.
Arguments IcaCancel {ISA}.
Arguments IcaControl {ISA}.
Arguments IcaSpawnRequest {ISA}.

(** What the environment answers during one event. *)
Record IcEnv := mkIcEnv { env_db_ok : bool; env_app_ok : bool; env_control_ok : bool }.

Section IndexClient.
Context {ISA : Type}.
Notation result := (outcome IndexClientError (IndexClient ISA * list (IndexClientAction ISA))).

Definition set_conn_status (s : IndexClient ISA) (c : ConnStatus ISA) : IndexClient ISA :=
  mkIndexClient (ic_index_servers s) (ic_seq_friends s) (ic_max_open_requests s)
    (ic_num_open_requests s) (ic_keepalive_ticks s) (ic_backoff_ticks s) c.
Definition set_index_servers (s : IndexClient ISA) (l : list (IndexServerAddress ISA)) : IndexClient ISA :=
  mkIndexClient l (ic_seq_friends s) (ic_max_open_requests s) (ic_num_open_requests s)
    (ic_keepalive_ticks s) (ic_backoff_ticks s) (ic_conn_status s).
Definition set_seq_friends (s : IndexClient ISA) (f : SeqFriends) : IndexClient ISA :=
  mkIndexClient (ic_index_servers s) f (ic_max_open_requests s) (ic_num_open_requests s)
    (ic_keepalive_ticks s) (ic_backoff_ticks s) (ic_conn_status s).
Definition set_num_open (s : IndexClient ISA) (n : nat) : IndexClient ISA :=
  mkIndexClient (ic_index_servers s) (ic_seq_friends s) (ic_max_open_requests s) n
    (ic_keepalive_ticks s) (ic_backoff_ticks s) (ic_conn_status s).

(** [IndexClient::new] *)
Definition index_client_new (config : IndexClientConfig ISA) (seq_friends : SeqFriends)
    (max_open_requests keepalive_ticks backoff_ticks : nat) : IndexClient ISA :=
  mkIndexClient (map index_server_of_named (icc_index_servers config)) seq_friends max_open_requests 0
    keepalive_ticks backoff_ticks (StatusEmpty backoff_ticks).

(** [try_connect_to_server]; called with another status than empty it is
    [unreachable!]. *)
Definition try_connect_to_server (s : IndexClient ISA) : result :=
  match ic_conn_status s with
  | StatusEmpty _ =>
      match ic_index_servers s with
      | index_server :: rest =>
          Ok (set_conn_status (set_index_servers s (rest ++ [index_server]))
                (StatusConnecting index_server true), [IcaConnect index_server])
      | [] => Ok (set_conn_status s (StatusEmpty 0), [])
      end
  | _ => Panic
  end.

(** [self.to_app_server.send(msg).await.map_err(..)] *)
Definition app_send (env : IcEnv) (msg : IndexClientToAppServer ISA) :
  outcome IndexClientError (list (IndexClientAction ISA)) :=
  let? _ := guard_or (env_app_ok env) SendToAppServerFailed in Ok [IcaToAppServer msg].

Definition report (opt_app_request_id : option Uid) (ms : list (IndexClientReportMutation ISA)) :
  IndexClientToAppServer ISA := IcReportMutations (mkIndexClientReportMutations opt_app_request_id ms).

Definition return_response_routes_failure (env : IcEnv) (request_id : Uid) :
  outcome IndexClientError (list (IndexClientAction ISA)) :=
  app_send env (IcResponseRoutes (mkClientResponseRoutes request_id RoutesFailure)).

Definition handle_add_index_server (env : IcEnv) (s : IndexClient ISA) (app_request_id : Uid)
    (named : NamedIndexServerAddress ISA) : result :=
  let? _ := guard_or (env_db_ok env) DatabaseError in
  let db := IcaDatabase [ConfigAddIndexServer named] in
  let s := set_index_servers s
             (base.filter (fun x => is_public_key x <> ni_public_key named) (ic_index_servers s)
                ++ [index_server_of_named named]) in
  let? acts := app_send env (report (Some app_request_id) [ReportAddIndexServer named]) in
  match ic_conn_status s with
  | StatusEmpty _ => let? (s', acts') := try_connect_to_server s in Ok (s', db :: acts ++ acts')
  | _ => Ok (s, db :: acts)
  end.

Definition handle_remove_index_server (env : IcEnv) (s : IndexClient ISA) (app_request_id : Uid)
    (public_key : PublicKey) : result :=
  let? _ := guard_or (env_db_ok env) DatabaseError in
  let db := IcaDatabase [ConfigRemoveIndexServer public_key] in
  let s := set_index_servers s
             (base.filter (fun x => is_public_key x <> public_key) (ic_index_servers s)) in
  let? acts := app_send env (report (Some app_request_id) [ReportRemoveIndexServer public_key]) in
  match ic_conn_status s with
  | StatusEmpty _ => Ok (s, db :: acts)
  | StatusConnecting index_server opt_cancel_sender =>
      if decide (is_public_key index_server = public_key) then
        if opt_cancel_sender
        then Ok (set_conn_status s (StatusConnecting index_server false), db :: acts ++ [IcaCancel])
        else Ok (s, db :: acts)
      else Ok (s, db :: acts)
  | StatusConnected index_server opt_control_sender opt_cancel_sender ticks =>
      if decide (is_public_key index_server = public_key) then
        Ok (set_conn_status s (StatusConnected index_server false false ticks),
            db :: acts ++ (if opt_cancel_sender then [IcaCancel] else []))
      else Ok (s, db :: acts)
  end.

Definition handle_request_routes (env : IcEnv) (s : IndexClient ISA) (app_request_id : Uid)
    (request_routes : RequestRoutes) : result :=
  let? acts := app_send env (report (Some app_request_id) []) in
  let failure s := let? acts' := return_response_routes_failure env (rr_request_id request_routes) in
                   Ok (s, acts ++ acts') in
  if (ic_max_open_requests s <=? ic_num_open_requests s)%nat then failure s else
  match ic_conn_status s with
  | StatusEmpty _ | StatusConnecting _ _ => failure s
  | StatusConnected index_server opt_control_sender opt_cancel_sender ticks =>
      if opt_control_sender then
        if env_control_ok env then
          Ok (set_num_open s (S (ic_num_open_requests s)),
              acts ++ [IcaControl (CtlRequestRoutes request_routes (rr_request_id request_routes));
                       IcaSpawnRequest (rr_request_id request_routes)])
        else failure (set_conn_status s (StatusConnected index_server false opt_cancel_sender ticks))
      else failure s
  end.

(** [self.seq_friends_client.next_update()] as a mutation to append. *)
Definition next_mutation (f : SeqFriends) : option (SeqFriends * list IndexMutation) :=
  let! (f', o) := seq_friends_step f SfNextUpdate in
  match o with
  | SfUpdate (Some (_, u)) => Some (f', [IndexUpdate u])
  | _ => Some (f', [])
  end.

(** Sending mutations through the control sender, which is lost on failure;
    [ticks] is the new keepalive counter. *)
Definition send_mutations (env : IcEnv) (s : IndexClient ISA) (index_server : IndexServerAddress ISA)
    (opt_cancel_sender : bool) (ticks : nat) (mutations : list IndexMutation) :
  IndexClient ISA * list (IndexClientAction ISA) :=
  (set_conn_status s (StatusConnected index_server (env_control_ok env) opt_cancel_sender ticks),
   if env_control_ok env then [IcaControl (CtlSendMutations mutations)] else []).

Definition handle_apply_mutations (env : IcEnv) (s : IndexClient ISA) (mutations : list IndexMutation) : result :=
  let s := set_seq_friends s (foldl apply_index_mutation (ic_seq_friends s) mutations) in
  match ic_conn_status s with
  | StatusConnected index_server true opt_cancel_sender _ =>
      let? (f, extra) := unwrap (next_mutation (ic_seq_friends s)) in
      Ok (send_mutations env (set_seq_friends s f) index_server opt_cancel_sender (ic_keepalive_ticks s)
            (mutations ++ extra))
  | _ => Ok (s, [])
  end.

Definition handle_from_app_server (env : IcEnv) (s : IndexClient ISA) (msg : AppServerToIndexClient ISA) : result :=
  match msg with
  | AppRequestIndexClient id (ReqAddIndexServer a) => handle_add_index_server env s id a
  | AppRequestIndexClient id (ReqRemoveIndexServer pk) => handle_remove_index_server env s id pk
  | AppRequestIndexClient id (ReqRequestRoutes r) => handle_request_routes env s id r
  | ApplyIndexMutations ms => handle_apply_mutations env s ms
  end.

Definition handle_index_server_connected (env : IcEnv) (s : IndexClient ISA) : result :=
  match ic_conn_status s with
  | StatusConnecting index_server opt_cancel_sender =>
      let s := set_conn_status s
                 (StatusConnected index_server true opt_cancel_sender (ic_keepalive_ticks s)) in
      let? acts := app_send env (report None [ReportSetConnectedServer (Some (is_public_key index_server))]) in
      Ok (s, acts)
  | _ => Ok (s, [])
  end.

Definition handle_index_server_closed (env : IcEnv) (s : IndexClient ISA) : result :=
  let? acts := match ic_conn_status s with
               | StatusConnected _ _ _ _ => app_send env (report None [ReportSetConnectedServer None])
               | _ => Ok []
               end in
  Ok (set_conn_status s (StatusEmpty (ic_backoff_ticks s)), acts).

Definition handle_response_routes (env : IcEnv) (s : IndexClient ISA) (request_id : Uid)
    (response_routes_result : ResponseRoutesResult) : result :=
  match ic_num_open_requests s with
  | O => Panic
  | S n =>
      let? acts := app_send env (IcResponseRoutes (mkClientResponseRoutes request_id response_routes_result)) in
      Ok (set_num_open s n, acts)
  end.

Definition ic_handle_timer_tick (env : IcEnv) (s : IndexClient ISA) : result :=
  match ic_conn_status s with
  | StatusEmpty ticks_to_reconnect =>
      let ticks_to_reconnect := (ticks_to_reconnect - 1)%nat in
      let s := set_conn_status s (StatusEmpty ticks_to_reconnect) in
      if (ticks_to_reconnect =? 0)%nat then try_connect_to_server s else Ok (s, [])
  | StatusConnecting _ _ => Ok (s, [])
  | StatusConnected index_server opt_control_sender opt_cancel_sender ticks =>
      if opt_control_sender then
        let ticks := (ticks - 1)%nat in
        if negb (ticks =? 0)%nat then
          Ok (set_conn_status s (StatusConnected index_server true opt_cancel_sender ticks), [])
        else
          let? (f, mutations) := unwrap (next_mutation (ic_seq_friends s)) in
          Ok (send_mutations env (set_seq_friends s f) index_server opt_cancel_sender
                (ic_keepalive_ticks s) mutations)
      else Ok (s, [])
  end.

(** One iteration of the loop of [index_client_loop]. *)
Definition index_client_step (env : IcEnv) (s : IndexClient ISA) (e : IndexClientEvent ISA) : result :=
  match e with
  | IcFromAppServer msg => handle_from_app_server env s msg
  | IcAppServerClosed => Err AppServerClosed
  | IcIndexServerConnected => handle_index_server_connected env s
  | IcIndexServerClosed => handle_index_server_closed env s
  | IcRoutes request_id r => handle_response_routes env s request_id r
  | IcTimerTick => ic_handle_timer_tick env s
  end.

(** [send_full_state] against the service, for at most [fuel] iterations of its
    loop; [control_ok i] tells whether the [i]-th send succeeds. Returns the
    service and the mutations sent, [None] when the bound was too small. *)
Fixpoint send_full_state_loop (control_ok : nat -> bool) (fuel : nat) (f : SeqFriends) :
  option (SeqFriends * list (list IndexMutation)) :=
  match fuel with
  | O => None
  | S fuel' =>
      let! (f', o) := seq_friends_step f SfNextUpdate in
      match o with
      | SfUpdate (Some (cyclic_countdown, u)) =>
          if control_ok fuel' then
            if (cyclic_countdown =? 0)%nat then Some (f', [[IndexUpdate u]])
            else let! (f'', sent) := send_full_state_loop control_ok fuel' f' in
                 Some (f'', [IndexUpdate u] :: sent)
          else Some (f', [])
      | _ => Some (f', [])
      end
  end.

Definition send_full_state (control_ok : nat -> bool) (f : SeqFriends) :
  option (SeqFriends * list (list IndexMutation)) :=
  let f := sm_reset_countdown f in
  send_full_state_loop control_ok (S (length (sm_queue f))) f.
End IndexClient.
