(* ===== verification/IndexClientTheory.v ===== *)
(** * Invariants of the index client

    The index client together with what its actions start: the connection task,
    the tasks that wait for routes, the report kept by the app server and the
    configuration kept by the database. *)

From S2P Require Import Prelude Arith Bytes Messages Canonical IndexMessages SeqMap IndexClient.

(** ** The client and its surroundings *)

(** The connection task: none, connecting, or connected. At most one event
    [IndexServerConnected] and then one [IndexServerClosed] come from it. *)
Inductive ConnTask := NoTask | TaskConnecting | TaskConnected.

Section System.
Context {ISA : Type}.

Record IcSystem := mkIcSystem {
  sys_client : IndexClient ISA;
  sys_task : ConnTask;
  sys_pending : list Uid;                       (* requests whose task still waits *)
  sys_asked : list Uid;                         (* requests for routes received *)
  sys_answered : list Uid;                      (* requests for routes answered *)
  sys_report : IndexClientReport ISA;
  sys_config : IndexClientConfig ISA
}.

(** The effect of an action outside of the client; [None] is an action that the
    surroundings do not expect: a second connection task. *)
Definition apply_action (y : IcSystem) (a : IndexClientAction ISA) : option IcSystem :=
  match a with
  | IcaToAppServer (IcReportMutations ms) =>
      Some (mkIcSystem (sys_client y) (sys_task y) (sys_pending y) (sys_asked y) (sys_answered y)
              (foldl icr_mutate (sys_report y) (im_mutations ms)) (sys_config y))
  | IcaToAppServer (IcResponseRoutes r) =>
      Some (mkIcSystem (sys_client y) (sys_task y) (sys_pending y) (sys_asked y)
              (cr_request_id r :: sys_answered y) (sys_report y) (sys_config y))
  | IcaDatabase ms =>
      Some (mkIcSystem (sys_client y) (sys_task y) (sys_pending y) (sys_asked y) (sys_answered y)
              (sys_report y) (foldl icc_mutate (sys_config y) ms))
  | IcaConnect _ =>
      match sys_task y with
      | NoTask => Some (mkIcSystem (sys_client y) TaskConnecting (sys_pending y) (sys_asked y)
                          (sys_answered y) (sys_report y) (sys_config y))
      | _ => None
      end
  | IcaSpawnRequest id =>
      Some (mkIcSystem (sys_client y) (sys_task y) (id :: sys_pending y) (sys_asked y) (sys_answered y)
              (sys_report y) (sys_config y))
  | IcaCancel | IcaControl _ => Some y
  end.

(** Which events may come, and what they do to the tasks. *)
Inductive event_from : IcSystem -> IndexClientEvent ISA -> IcSystem -> Prop :=
| ev_request c t p q a r f id rr :
    event_from (mkIcSystem c t p q a r f) (IcFromAppServer (AppRequestIndexClient id (ReqRequestRoutes rr)))
      (mkIcSystem c t p (rr_request_id rr :: q) a r f)
| ev_add y id s : event_from y (IcFromAppServer (AppRequestIndexClient id (ReqAddIndexServer s))) y
| ev_remove y id pk : event_from y (IcFromAppServer (AppRequestIndexClient id (ReqRemoveIndexServer pk))) y
| ev_mutations y ms : event_from y (IcFromAppServer (ApplyIndexMutations ms)) y
| ev_connected c p q a r f :
    event_from (mkIcSystem c TaskConnecting p q a r f) IcIndexServerConnected
      (mkIcSystem c TaskConnected p q a r f)
| ev_closed c t p q a r f :
    t <> NoTask -> event_from (mkIcSystem c t p q a r f) IcIndexServerClosed (mkIcSystem c NoTask p q a r f)
| ev_routes c t p p' q a r f id res :
    p ≡ₚ id :: p' ->
    event_from (mkIcSystem c t p q a r f) (IcRoutes id res) (mkIcSystem c t p' q a r f)
| ev_tick y : event_from y IcTimerTick y.

Definition set_client (y : IcSystem) (c : IndexClient ISA) : IcSystem :=
  mkIcSystem c (sys_task y) (sys_pending y) (sys_asked y) (sys_answered y) (sys_report y) (sys_config y).

(** One event, the step of the client and the effects of its actions. *)
Inductive sys_step : IcSystem -> IcSystem -> Prop :=
| sys_step_event y e y1 env c acts y2 :
    event_from y e y1 -> index_client_step env (sys_client y) e = Ok (c, acts) ->
    pfold apply_action (set_client y1 c) acts = Some y2 -> sys_step y y2.

(** The state at the start of [index_client_loop], before and after the first
    attempt to connect. *)
Inductive sys_init : IcSystem -> Prop :=
| sys_init_intro config friends max keepalive backoff c acts y :
    sm_ok friends ->
    try_connect_to_server (index_client_new config friends max keepalive backoff) = Ok (c, acts) ->
    pfold apply_action
      (mkIcSystem c NoTask [] [] [] (mkIndexClientReport (icc_index_servers config) None) config) acts = Some y ->
    sys_init y.

Definition sys_reachable (y : IcSystem) : Prop := exists y0, sys_init y0 /\ rtc sys_step y0 y.

(** ** The invariant *)

Definition task_matches (c : ConnStatus ISA) (t : ConnTask) : Prop :=
  match c, t with
  | StatusEmpty _, NoTask | StatusConnecting _ _, TaskConnecting | StatusConnected _ _ _ _, TaskConnected => True
  | _, _ => False
  end.

Definition connected_server (c : ConnStatus ISA) : option PublicKey :=
  match c with StatusConnected s _ _ _ => Some (is_public_key s) | _ => None end.

Record sys_inv (y : IcSystem) : Prop := {
  si_open : ic_num_open_requests (sys_client y) = length (sys_pending y);
  si_max : length (sys_pending y) <= ic_max_open_requests (sys_client y);
  si_asked : sys_asked y ≡ₚ sys_answered y ++ sys_pending y;
  si_task : task_matches (ic_conn_status (sys_client y)) (sys_task y);
  si_connected : icr_opt_connected_server (sys_report y) = connected_server (ic_conn_status (sys_client y));
  si_config : icr_index_servers (sys_report y) = icc_index_servers (sys_config y);
  si_servers : ic_index_servers (sys_client y) ≡ₚ map index_server_of_named (icc_index_servers (sys_config y));
  si_friends : sm_ok (ic_seq_friends (sys_client y))
}.

Lemma filter_named (pk : PublicKey) (l : list (NamedIndexServerAddress ISA)) :
  base.filter (fun x => is_public_key x <> pk) (map index_server_of_named l) =
  map index_server_of_named (retain_servers pk l).
Proof.
  induction l as [|x l IH]; [done|]. unfold retain_servers in *. simpl.
  rewrite !filter_cons. simpl. case_decide; simpl; by rewrite IH.
Qed.

Lemma servers_after_retain (pk : PublicKey) l (named : list (NamedIndexServerAddress ISA)) :
  l ≡ₚ map index_server_of_named named ->
  base.filter (fun x => is_public_key x <> pk) l ≡ₚ map index_server_of_named (retain_servers pk named).
Proof. intros ->. by rewrite filter_named. Qed.

Lemma next_mutation_ok f :
  sm_ok f -> exists f' ms, next_mutation f = Some (f', ms) /\ sm_ok f'.
Proof.
  intros Hok. unfold next_mutation. destruct (sm_next_ok f Hok) as [Hn Hok']. simpl.
  destruct (sm_next f) as [[f' o]|] eqn:Hf.
  - simpl. destruct (Hok' f' o eq_refl) as [Hf' _]. destruct o as [[n kv]|]; simpl; eauto.
  - exfalso. destruct (sm_queue f); [done|]. destruct Hn as (v & _ & Hn). done.
Qed.

Lemma foldl_mutations_ok f ms : sm_ok f -> sm_ok (foldl apply_index_mutation f ms).
Proof. revert f. induction ms as [|m ms IH]; intros f Hf; simpl; [done|]. by apply IH, apply_index_mutation_ok. Qed.

(** What a step has to establish: no panic, and the invariant again. *)
Definition step_post (y1 : IcSystem) (r : outcome IndexClientError (IndexClient ISA * list (IndexClientAction ISA))) : Prop :=
  match r with
  | Ok (c, acts) => exists y2, pfold apply_action (set_client y1 c) acts = Some y2 /\ sys_inv y2
  | Err _ => True
  | Panic => False
  end.

(** Reports and configuration change in the same way. *)
Ltac post_ok := eexists; split; [reflexivity|]; constructor; simpl in *; try done; try lia.

(** Attempting to connect when nothing is connected. *)
Lemma try_connect_post y servers n :
  sys_inv y -> ic_conn_status (sys_client y) = StatusEmpty n -> servers ≡ₚ ic_index_servers (sys_client y) ->
  step_post y (try_connect_to_server
    (set_conn_status (set_index_servers (sys_client y) servers) (StatusEmpty n))).
Proof.
  destruct y as [[l fr mx num ka bo st] t p q a r f]. intros [H1 H2 H3 H4 H5 H6 H7 H8] Hst Hl.
  simpl in *. subst st. destruct t; simpl in H4; try done. destruct servers as [|s rest]; simpl.
  - post_ok. by rewrite Hl.
  - post_ok. by rewrite <- H7, <- Hl, Permutation_app_comm.
Qed.

Lemma add_server_post y env id s :
  sys_inv y -> step_post y (handle_add_index_server env (sys_client y) id s).
Proof.
  destruct y as [[l fr mx num ka bo st] t p q a r f]. intros [H1 H2 H3 H4 H5 H6 H7 H8].
  unfold handle_add_index_server, app_send. simpl in *.
  destruct (env_db_ok env); simpl; [|done]. destruct (env_app_ok env); simpl; [|done].
  set (servers := base.filter _ l ++ [index_server_of_named s]).
  assert (servers ≡ₚ map index_server_of_named (retain_servers (ni_public_key s) (icc_index_servers f) ++ [s])) as Hs.
  { rewrite map_app. unfold servers. by rewrite (servers_after_retain _ _ _ H7). }
  assert (retain_servers (ni_public_key s) (icr_index_servers r) ++
            [mkNamedIndexServer (ni_public_key s) (ni_address s) (ni_name s)] =
          retain_servers (ni_public_key s) (icc_index_servers f) ++ [s]) as Hr by (rewrite H6; by destruct s).
  destruct st as [n|sv b|sv ctl cn tk]; [|post_ok|post_ok].
  destruct t; try done. unfold try_connect_to_server. simpl. destruct servers as [|x rest]; simpl.
  - post_ok.
  - post_ok. by rewrite Permutation_app_comm.
Qed.

Lemma remove_server_post y env id pk :
  sys_inv y -> step_post y (handle_remove_index_server env (sys_client y) id pk).
Proof.
  destruct y as [[l fr mx num ka bo st] t p q a r f]. intros [H1 H2 H3 H4 H5 H6 H7 H8].
  unfold handle_remove_index_server, app_send. simpl in *.
  destruct (env_db_ok env); simpl; [|done]. destruct (env_app_ok env); simpl; [|done].
  pose proof (servers_after_retain pk _ _ H7) as Hs.
  assert (retain_servers pk (icr_index_servers r) = retain_servers pk (icc_index_servers f)) as Hr by by rewrite H6.
  destruct st as [n|sv b|sv ctl cn tk]; [post_ok| |].
  - case_decide; [destruct b|]; post_ok.
  - case_decide; [destruct cn|]; post_ok.
Qed.

Lemma step_inv y e y1 env :
  sys_inv y -> event_from y e y1 -> step_post y1 (index_client_step env (sys_client y) e).
Proof.
  intros Hinv Hev. pose proof Hinv as [H1 H2 H3 H4 H5 H6 H7 H8].
  destruct Hev as [c t p q a r f id rr|y id s|y id pk|y ms|c p q a r f|c t p q a r f Ht|c t p p' q a r f id res Hp|y];
    simpl.
  - unfold handle_request_routes, app_send, return_response_routes_failure, app_send. simpl in *.
    destruct (env_app_ok env); simpl; [|done].
    destruct (Nat.leb_spec (ic_max_open_requests c) (ic_num_open_requests c)).
    { post_ok. by rewrite H3. }
    destruct (ic_conn_status c) as [|s b|s ctl cn tk] eqn:Hst.
    1,2: post_ok; rewrite ?Hst; try done; by rewrite H3.
    destruct ctl; [|post_ok; rewrite ?Hst; try done; by rewrite H3].
    destruct (env_control_ok env); simpl.
    + post_ok; rewrite ?Hst; try done. rewrite H3. by rewrite Permutation_middle.
    + post_ok. by rewrite H3.
  - by apply add_server_post.
  - by apply remove_server_post.
  - destruct y as [c t p q a r f]. unfold handle_apply_mutations, send_mutations. simpl in *.
    pose proof (foldl_mutations_ok _ ms H8) as Hok.
    destruct (ic_conn_status c) as [|s b|s ctl cn tk] eqn:Hst; try (post_ok; rewrite ?Hst; done).
    destruct ctl; [|post_ok; rewrite ?Hst; done].
    destruct (next_mutation_ok _ Hok) as (f' & ms' & -> & Hf'). simpl.
    destruct (env_control_ok env); post_ok.
  - unfold handle_index_server_connected, app_send. simpl in *.
    destruct (ic_conn_status c) as [|s b|s ctl cn tk] eqn:Hst; try done.
    destruct (env_app_ok env); simpl; [|done]. post_ok.
  - unfold handle_index_server_closed, app_send. simpl in *.
    destruct (ic_conn_status c) as [|s b|s ctl cn tk] eqn:Hst; destruct t; try done; simpl.
    + post_ok.
    + destruct (env_app_ok env); simpl; [|done]. post_ok.
  - unfold handle_response_routes, app_send. simpl in *. rewrite Hp in H1, H2, H3. simpl in *. rewrite H1.
    destruct (env_app_ok env); simpl; [|done]. post_ok. by rewrite H3, Permutation_middle.
  - unfold ic_handle_timer_tick, send_mutations.
    destruct (ic_conn_status (sys_client y)) as [n|s b|s ctl cn tk] eqn:Hst.
    + case_match; [|destruct y as [c t p q a r f]; simpl in *; by post_ok].
      apply (try_connect_post (set_client y (set_conn_status (sys_client y) (StatusEmpty (n - 1)))) _ (n - 1));
        [|done|done]. destruct y as [c t p q a r f]; simpl in *. by constructor.
    + destruct y as [c t p q a r f]. post_ok; by rewrite ?Hst.
    + destruct y as [c t p q a r f]. simpl in *. destruct ctl; [|post_ok; by rewrite ?Hst].
      destruct (tk - 1 =? 0)%nat; simpl; [|post_ok].
      destruct (next_mutation_ok _ H8) as (f' & ms' & -> & Hf'). simpl. destruct (env_control_ok env); post_ok.
Qed.

Lemma init_inv y : sys_init y -> sys_inv y.
Proof.
  intros [config friends max ka bo c acts y' Hf Hc Hp]. unfold try_connect_to_server in Hc. simpl in Hc.
  destruct (map index_server_of_named (icc_index_servers config)) as [|s rest] eqn:Hl;
    injection Hc as <- <-; simpl in Hp; injection Hp as <-; constructor; simpl; try done; try lia; rewrite ?Hl; try done.
  by rewrite Permutation_app_comm.
Qed.

(** C34. In every state the index client can reach: the number of open requests
    is the number of tasks waiting for routes and at most the maximum, every
    request for routes was answered once or is still waiting, there is at most
    one connection task and the status matches it, the report of the app
    server shows the connected server, and report, database and memory agree on
    the list of servers. No event leads to a panic or to a second connection. *)
Theorem index_client_invariant (y : IcSystem) (Hy : sys_reachable y) :
  sys_inv y /\
  forall env e y1, event_from y e y1 ->
    match index_client_step env (sys_client y) e with
    | Ok (c, acts) => exists y2, pfold apply_action (set_client y1 c) acts = Some y2 /\ sys_step y y2
    | Err _ => True
    | Panic => False
    end.
Proof.
  assert (sys_inv y) as Hinv.
  { destruct Hy as (y0 & Hi & Hs). apply init_inv in Hi. induction Hs as [|y0 y1 y2 Hstep Hs IH]; [done|].
    apply IH. destruct Hstep as [y e y' env c acts y'' Hev Hc Hp].
    pose proof (step_inv y e y' env Hi Hev) as Hpost. rewrite Hc in Hpost.
    destruct Hpost as (y2' & Hp' & Hi'). rewrite Hp in Hp'. by injection Hp' as <-. }
  split; [done|]. intros env e y1 Hev. pose proof (step_inv y e y1 env Hinv Hev) as Hpost.
  destruct (index_client_step env (sys_client y) e) as [[c acts]|err|] eqn:Hc; [|done|done].
  destruct Hpost as (y2 & Hp & _). exists y2. split; [done|]. by econstructor.
Qed.
End System.

(** ** Announcing the full state *)

Lemma send_full_state_loop_spec control_ok fuel f b known :
  sm_ok f -> cycle_inv b f known -> (sm_cycle_countdown f < fuel)%nat ->
  exists f' sent, send_full_state_loop control_ok fuel f = Some (f', sent) /\ sm_ok f' /\
    sm_map f' = sm_map f /\
    ((forall i, control_ok i = true) -> knows (foldl learn known (concat sent)) f').
Proof.
  revert f b known. induction fuel as [|fuel IH]; intros f b known Hok Hinv Hfuel; [lia|].
  destruct (sm_next_ok f Hok) as [Hn Hok'].
  destruct (sm_next f) as [[f1 o]|] eqn:Hf; [|destruct (sm_queue f); [done|]; destruct Hn as (v & _ & Hn); done].
  destruct (Hok' f1 o eq_refl) as [Hok1 Hmap].
  assert (seq_friends_step f SfNextUpdate =
    Some (f1, SfUpdate (option_map (fun '(countdown, kv) => (countdown, update_of kv)) o))) as Hstep
    by (simpl; by rewrite Hf).
  destruct (cycle_inv_next b f known f1 _ Hok Hinv Hstep) as [Hinv1 Hdone].
  cbn [send_full_state_loop]. rewrite Hstep. cbn [opt_bind].
  destruct o as [[countdown kv]|]; simpl option_map in *; cbn match.
  - assert (countdown = sm_cycle_countdown f1 /\ sm_cycle_countdown f1 = (sm_cycle_countdown f - 1)%nat) as [Hc1 Hc2].
    { destruct (sm_queue f); [by simplify_eq|]. destruct Hn as (v & _ & Hn). by simplify_eq/=. }
    destruct (control_ok fuel) eqn:Hctl.
    2:{ exists f1, []. split_and!; try done. intros Hall. by rewrite Hall in Hctl. }
    destruct (Nat.eqb_spec countdown 0) as [Hz|Hz].
    + exists f1, [[IndexUpdate (update_of kv)]]. split_and!; try done. intros _.
      apply cycle_inv_knows. apply (Hdone ltac:(by rewrite Hz)).
    + destruct (IH f1 (b - 1)%nat _ Hok1 Hinv1 ltac:(lia)) as (f' & sent & -> & Hok2 & Hmap2 & Hk).
      simpl. eexists _, _. split; [reflexivity|]. split_and!; [done|congruence|]. intros Hall. by apply Hk.
  - exists f1, []. split_and!; try done. intros _. apply cycle_inv_knows. by apply Hdone.
Qed.

(** After a connection, sending the full state ends, whatever the control
    channel does; when all of it could be sent, the server knows every friend
    with its current capacity and rate. *)
Theorem send_full_state_complete (control_ok : nat -> bool) (f : SeqFriends)
  (known : gmap (PublicKey * Currency) FriendInfo) (Hok : sm_ok f) :
  exists f' sent, send_full_state control_ok f = Some (f', sent) /\ sm_map f' = sm_map f /\
    ((forall i, control_ok i = true) -> knows (foldl learn known (concat sent)) f').
Proof.
  destruct (send_full_state_loop_spec control_ok (S (length (sm_queue f))) (sm_reset_countdown f) _ known Hok
    (cycle_inv_reset f known Hok)) as (f' & sent & Hs & _ & Hm & Hk); [simpl; lia|].
  exists f', sent. done.
Qed.

Module IndexClientSamples.
Import SeqMapSamples.
Lemma send_full_state_complete_witness :
  exists f' sent, send_full_state (fun _ => true) three = Some (f', sent) /\
    knows (foldl learn ∅ (concat sent)) f'.
Proof.
  destruct (send_full_state_complete (fun _ => true) three ∅) as (f' & sent & Hs & _ & Hk).
  - unfold three. cbn [foldl]. do 3 apply apply_index_mutation_ok. apply sm_new_ok.
  - exists f', sent. split; [exact Hs|]. by apply Hk.
Defined.

(** A client with one server that connects. *)
Definition config : IndexClientConfig nat := mkIndexClientConfig [mkNamedIndexServer (pk 5) 7%nat "server"].
Definition first : IndexServerAddress nat := mkIndexServer (pk 5) 7%nat.
Definition connecting : @IcSystem nat :=
  mkIcSystem (mkIndexClient [first] three 2 0 4 4 (StatusConnecting first true)) TaskConnecting [] [] []
    (mkIndexClientReport (icc_index_servers config) None) config.
Definition connected : @IcSystem nat :=
  mkIcSystem (mkIndexClient [first] three 2 0 4 4 (StatusConnected first true true 4)) TaskConnected [] [] []
    (mkIndexClientReport (icc_index_servers config) (Some (pk 5))) config.

Lemma index_client_invariant_witness : sys_inv connected.
Proof.
  apply index_client_invariant. exists connecting. split.
  - apply (sys_init_intro config three 2 4 4 (mkIndexClient [first] three 2 0 4 4 (StatusConnecting first true))
             [IcaConnect first]); [|reflexivity|reflexivity].
    unfold three. cbn [foldl]. do 3 apply apply_index_mutation_ok. apply sm_new_ok.
  - apply rtc_once. eapply (sys_step_event connecting IcIndexServerConnected _ (mkIcEnv true true true));
      [constructor|reflexivity|reflexivity].
Defined.
End IndexClientSamples.
