(* ===== verification/IndexConvert.v ===== *)
(** * From reports of the funder to announcements of the index client

    Models [proto/src/report/convert.rs]: the capacities a node announces to
    index servers are computed from its funder report, and a mutation of the
    report becomes mutations of what is announced. [None] is a panic. The theorems
    relate the announced capacity to what the ledger takes. *)

From S2P Require Import Prelude Arith Bytes Messages Canonical IndexMessages SeqMap MutualCredit McTheory McPair TokenChannel Friend FunderState Report.

Local Open Scope Z_scope.

(** [.collect()] into a [HashMap]: a later pair replaces an earlier one. *)
Definition collect {K V} `{Countable K} (l : list (K * V)) : gmap K V :=
  foldl (fun m kv => <[fst kv := snd kv]> m) ∅ l.

Section Convert.
Context {B : Type}.

(** The map [remote_max_debts] of [calc_friend_capacities]. *)
Definition config_max_debts (friend_report : FriendReport B) : gmap Currency (Z * bool) :=
  collect (map (fun c => (ccfr_currency c, (ccfr_remote_max_debt c, ccfr_is_open c)))
             (fr_currency_configs friend_report)).

(** The closure over [currency_reports]. *)
Definition currency_capacity (debts : gmap Currency (Z * bool)) (currency_report : CurrencyReport) :
  option (Currency * (bool * Z)) :=
  let balance := cr_balance currency_report in
  let (remote_max_debt, is_open) := default (0, false) (debts !! cr_currency currency_report) in
  let! recv_capacity :=
    (if negb is_open then Some 0
     else let! exposure := SafeArith.checked_add_unsigned 128 (mbr_balance balance)
                             (mbr_remote_pending_debt balance) in
          SafeArith.saturating_sub_signed 128 remote_max_debt exposure) in
  Some (cr_currency currency_report, (is_open, recv_capacity)).

Definition calc_friend_capacities (friend_report : FriendReport B) : option (gmap Currency (bool * Z)) :=
  match fr_status friend_report, fr_liveness friend_report, fr_channel_status friend_report with
  | ReportEnabled, ReportOnline, ReportConsistent channel_consistent_report =>
      let! capacities := omap_all (currency_capacity (config_max_debts friend_report))
                           (ccr_currency_reports channel_consistent_report) in
      Some (collect capacities)
  | _, _, _ => Some ∅
  end.

(** The rate of the first configuration of a currency. *)
Definition config_rate (friend_report : FriendReport B) (currency : Currency) : Rate :=
  match list_find (fun c => ccfr_currency c = currency) (fr_currency_configs friend_report) with
  | Some (_, c) => ccfr_rate c
  | None => rate_new
  end.

(** What one friend contributes to [calc_friends_info]. *)
Definition friend_infos (friend_public_key : PublicKey) (friend_report : FriendReport B) :
  option (list ((PublicKey * Currency) * FriendInfo)) :=
  let! capacities := calc_friend_capacities friend_report in
  Some (omap (fun '(currency, (is_open, recv_capacity)) =>
                if is_open : bool
                then Some ((friend_public_key, currency),
                           mkFriendInfo recv_capacity (config_rate friend_report currency))
                else None) (map_to_list capacities)).

Definition calc_friends_info (funder_report : FunderReport B) :
  option (list ((PublicKey * Currency) * FriendInfo)) :=
  let! infos := omap_all (fun '(pk, fr) => friend_infos pk fr) (map_to_list (rp_friends funder_report)) in
  Some (concat infos).

Definition funder_report_to_index_client_state (funder_report : FunderReport B) : option IndexClientState :=
  let! infos := calc_friends_info funder_report in Some (mkIndexClientState (collect infos)).

(** [calc_index_mutations], from the two maps of information. *)
Definition index_mutations_of (old_info new_info : gmap (PublicKey * Currency) FriendInfo) : list IndexMutation :=
  map (fun '(pk, currency) => IndexRemove (mkRemoveFriendCurrency pk currency))
    (elements (dom old_info ∖ dom new_info)) ++
  omap (fun '((pk, currency), info) =>
          if decide (old_info !! (pk, currency) = Some info) then None
          else Some (IndexUpdate (mkUpdateFriendCurrency pk currency (fi_recv_capacity info) (fi_rate info))))
    (map_to_list new_info).

Definition calc_index_mutations (old_report new_report : FunderReport B) : option (list IndexMutation) :=
  let! old_infos := calc_friends_info old_report in
  let! new_infos := calc_friends_info new_report in
  Some (index_mutations_of (collect old_infos) (collect new_infos)).

Definition funder_report_mutation_to_index_mutation (funder_report : FunderReport B)
    (m : FunderReportMutation B) : option (list IndexMutation) :=
  match funder_report_mutate funder_report m with
  | Ok new_funder_report => calc_index_mutations funder_report new_funder_report
  | _ => None
  end.
End Convert.

(** ** The announcements follow the report *)

Lemma learn_removes known ks k :
  foldl learn known (map (fun '(pk, currency) => IndexRemove (mkRemoveFriendCurrency pk currency)) ks) !! k =
    if decide (k ∈ ks) then None else known !! k.
Proof.
  revert known. induction ks as [|[pk c] ks IH]; intros known; simpl; [done|]. rewrite IH.
  destruct (decide (k ∈ ks)) as [Hk|Hk].
  - rewrite decide_True; [done|]. by right.
  - destruct (decide (k = (pk, c))) as [->|Hne].
    + rewrite lookup_delete_eq, decide_True; [done|]. by left.
    + rewrite lookup_delete_ne by done. rewrite decide_False; [done|]. set_solver.
Qed.

(** Updates of [changed], for a list of pairs without repeated keys. *)
Lemma learn_updates (old_info known : gmap (PublicKey * Currency) FriendInfo)
  (l : list ((PublicKey * Currency) * FriendInfo)) k :
  NoDup l.*1 ->
  foldl learn known
    (omap (fun '((pk, currency), info) =>
       if decide (old_info !! (pk, currency) = Some info) then None
       else Some (IndexUpdate (mkUpdateFriendCurrency pk currency (fi_recv_capacity info) (fi_rate info)))) l) !! k =
  match (list_to_map l : gmap (PublicKey * Currency) FriendInfo) !! k with
  | Some info => if decide (old_info !! k = Some info) then known !! k else Some info
  | None => known !! k
  end.
Proof.
  revert known. induction l as [|[[pk c] info] l IH]; intros known Hnd; simpl in *.
  { by rewrite lookup_empty. }
  apply NoDup_cons in Hnd as [Hni Hnd].
  assert ((list_to_map l : gmap _ _) !! (pk, c) = None) as Hnone by (by apply not_elem_of_list_to_map_1).
  destruct (decide (k = (pk, c))) as [->|Hne].
  - rewrite lookup_insert_eq. destruct (decide (old_info !! (pk, c) = Some info)) as [Ho|Ho].
    + rewrite IH by done. by rewrite Hnone.
    + simpl. rewrite IH by done. rewrite Hnone, lookup_insert_eq. by destruct info.
  - rewrite lookup_insert_ne by done. destruct (decide (old_info !! (pk, c) = Some info)) as [Ho|Ho].
    + by apply IH.
    + simpl. rewrite IH by done. rewrite lookup_insert_ne by done. done.
Qed.

Lemma index_mutations_learn old_info new_info :
  foldl learn old_info (index_mutations_of old_info new_info) = new_info.
Proof.
  apply map_eq. intros k. unfold index_mutations_of. rewrite foldl_app.
  rewrite learn_updates by apply NoDup_fst_map_to_list. rewrite list_to_map_to_list.
  rewrite learn_removes. destruct (new_info !! k) as [info|] eqn:Hn.
  - case_decide as Ho; [|done]. rewrite Ho. rewrite decide_False; [done|].
    rewrite elem_of_elements, elem_of_difference, !elem_of_dom, Hn. naive_solver.
  - destruct (decide (k ∈ elements (dom old_info ∖ dom new_info))) as [Hk|Hk]; [done|].
    rewrite elem_of_elements, elem_of_difference, !elem_of_dom, Hn in Hk.
    destruct (old_info !! k); [|done]. exfalso. apply Hk. split; [eauto|by intros []].
Qed.

(** A mutation of the funder report gives exactly the announcements that
    turn what was announced for the old report into what is announced for the
    new one: friends that closed are removed, changed capacities and rates are
    updated, nothing else is touched. *)
Theorem index_mutations_track_report {B} (old new : FunderReport B) (m : FunderReportMutation B)
  (old_state new_state : IndexClientState)
  (Hm : funder_report_mutate old m = Ok new)
  (Hold : funder_report_to_index_client_state old = Some old_state)
  (Hnew : funder_report_to_index_client_state new = Some new_state) :
  exists ms, funder_report_mutation_to_index_mutation old m = Some ms /\
    foldl learn (ics_friends old_state) ms = ics_friends new_state.
Proof.
  unfold funder_report_mutation_to_index_mutation, calc_index_mutations, funder_report_to_index_client_state in *.
  rewrite Hm. destruct (calc_friends_info old) as [o|]; [|done]. destruct (calc_friends_info new) as [n|]; [|done].
  simpl in *. injection Hold as <-. injection Hnew as <-. eexists. split; [done|]. apply index_mutations_learn.
Qed.

(** ** The announced capacity is what the ledger accepts *)

Lemma foldl_collect {K V} `{Countable K} (l : list (K * V)) (m : gmap K V) :
  NoDup l.*1 -> foldl (fun m kv => <[fst kv := snd kv]> m) m l = list_to_map l ∪ m.
Proof.
  revert m. induction l as [|[k v] l IH]; intros m Hnd; simpl in *; [by rewrite map_empty_union|].
  apply NoDup_cons in Hnd as [Hk Hnd]. rewrite IH by done.
  rewrite <- insert_union_l. symmetry. apply insert_union_r. by apply not_elem_of_list_to_map_1.
Qed.

Lemma collect_lookup {K V} `{Countable K} (l : list (K * V)) k v :
  NoDup l.*1 -> (k, v) ∈ l -> collect l !! k = Some v.
Proof.
  intros Hnd Hin. unfold collect. rewrite foldl_collect by done. rewrite map_union_empty.
  by apply elem_of_list_to_map_1.
Qed.

Section Capacity.
Context `{CryptoOps} {B : Type}.

(** An enabled friend with a consistent channel of well-formed ledgers. *)
Definition friend_ready (f : FriendState B) (tc : TokenChannel B) : Prop :=
  fs_status f = FriendEnabled /\ (exists ci, channel_status f = Consistent ci /\ token_channel ci = tc) /\
  map_Forall (fun _ mc => mc_wf mc) (mutual_credits tc) /\
  map_Forall (fun _ cc => u_ok 128 (cc_remote_max_debt cc)) (currency_configs f).

(** The capacity announced for a currency: what is left of the credit limit. *)
Definition capacity_of (f : FriendState B) (c : Currency) (mc : MutualCredit) : bool * Z :=
  match currency_configs f !! c with
  | Some cc => (cc_is_open cc,
                if cc_is_open cc then saturate_u 128 (cc_remote_max_debt cc - exposure mc) else 0)
  | None => (false, 0)
  end.

Lemma debts_lookup (f : FriendState B) l c :
  config_max_debts (create_friend_report f l) !! c =
    (fun cc => (cc_remote_max_debt cc, cc_is_open cc)) <$> currency_configs f !! c.
Proof.
  unfold config_max_debts. simpl. rewrite map_map. simpl.
  set (g := fun x : Currency * CurrencyConfig => (x.1, (cc_remote_max_debt x.2, cc_is_open x.2))).
  assert ((map g (map_to_list (currency_configs f))).*1 = (map_to_list (currency_configs f)).*1) as Hk.
  { induction (map_to_list (currency_configs f)); simpl; [done|]. by f_equal. }
  unfold collect. rewrite foldl_collect by (rewrite Hk; apply NoDup_fst_map_to_list).
  rewrite map_union_empty. destruct (currency_configs f !! c) as [cc|] eqn:Hc; simpl.
  - apply elem_of_list_to_map_1; [rewrite Hk; apply NoDup_fst_map_to_list|].
    apply list_elem_of_fmap. exists (c, cc). split; [done|]. by apply elem_of_map_to_list.
  - apply not_elem_of_list_to_map_1. rewrite Hk. intros ([c' cc] & -> & Hin)%list_elem_of_fmap.
    apply elem_of_map_to_list in Hin. simpl in *. congruence.
Qed.

Lemma currency_capacity_ok (f : FriendState B) l c mc :
  mc_wf mc -> map_Forall (fun _ cc => u_ok 128 (cc_remote_max_debt cc)) (currency_configs f) ->
  currency_capacity (config_max_debts (create_friend_report f l)) (currency_report_of (c, mc)) =
    Some (c, capacity_of f c mc).
Proof.
  intros (Hb & _ & Hr & Hsum) Hcc. unfold currency_capacity, capacity_of. simpl. rewrite debts_lookup.
  destruct (currency_configs f !! c) as [cc|] eqn:Hc; simpl; [|done].
  destruct (cc_is_open cc); simpl; [|done]. pose proof (Hcc _ _ Hc) as Hrmd. simpl in Hrmd.
  destruct Hr as [[Hr0 Hr1] _]. destruct Hb as [Hb0 Hb1].
  rewrite SafeArithTheory.checked_add_unsigned_exact; [|lia|split; lia|split; lia].
  rewrite checked_i_ok by (split; lia). simpl.
  destruct (SafeArithTheory.unsigned_signed_exact 128 ltac:(lia) (cc_remote_max_debt cc) (exposure mc))
    as (_ & _ & _ & Hs); [unfold exposure; split; lia|]. unfold exposure in *. rewrite Hs. done.
Qed.

Lemma friend_capacities_ok (f : FriendState B) tc :
  friend_ready f tc ->
  exists caps, calc_friend_capacities (create_friend_report f ReportOnline) = Some caps /\
    forall c mc, mutual_credits tc !! c = Some mc -> caps !! c = Some (capacity_of f c mc).
Proof.
  intros (Hst & (ci & Hch & <-) & Hwf & Hcc). unfold calc_friend_capacities. simpl. rewrite Hst, Hch. simpl.
  set (l := map_to_list (mutual_credits (token_channel ci))).
  assert (omap_all (currency_capacity (config_max_debts (create_friend_report f ReportOnline)))
            (map currency_report_of l) = Some (map (fun p => (p.1, capacity_of f p.1 p.2)) l)) as ->.
  { assert (forall p, p ∈ l -> mc_wf p.2) as Hl.
    { intros [c mc] Hp%elem_of_map_to_list. by apply (Hwf c). }
    induction l as [|[c mc] l IH]; simpl; [done|].
    rewrite currency_capacity_ok by (try done; apply (Hl (c, mc)); by left). simpl.
    rewrite IH; [done|]. intros p Hp. apply Hl. by right. }
  simpl. eexists. split; [done|]. intros c mc Hmc. apply collect_lookup.
  - assert ((map (fun p => (p.1, capacity_of f p.1 p.2)) l).*1 = l.*1) as ->.
    { induction l; simpl; [done|]. by f_equal. }
    apply NoDup_fst_map_to_list.
  - apply list_elem_of_fmap. exists (c, mc). split; [done|]. by apply elem_of_map_to_list.
Qed.

(** What the signed arithmetic of the ledger can represent: the exposure after a
    request, and its distance to the credit limit. *)
Definition representable (mc : MutualCredit) (r : RequestSendFundsOp) (rmd : Z) : Prop :=
  let after := exposure mc + frozen (create_pending_transaction r) in
  after <= i_max 128 /\ i_min 128 <= after - rmd.

Lemma process_request_cases (mc : MutualCredit) (r : RequestSendFundsOp) (rmd : Z) :
  mc_wf mc -> u_ok 128 rmd -> request_valid r = true -> pending_remote (mc_pending mc) !! rq_request_id r = None ->
  0 < frozen (create_pending_transaction r) ->
  match process_request_send_funds mc r rmd with
  | Ok (mc', out) =>
      representable mc r rmd /\ mc' = freeze_remote mc r /\
      po_incoming_message out = Some (if frozen (create_pending_transaction r) <=? rmd - exposure mc
                                      then IncomingRequest r else IncomingRequestCancel r)
  | Err e => e = PCreditsCalcOverflow /\ ~ representable mc r rmd
  | Panic => False
  end.
Proof.
  intros Hwf Hrmd Hr Hnew Hpos. pose proof Hwf as (Hb & _ & [[Hr0 Hr1] _] & Hsum).
  assert (2 ^ 128 = 2 * 2 ^ (128 - 1)) as H2 by reflexivity.
  destruct (process_request_send_funds mc r rmd) as [[mc' out]|e|] eqn:Hp.
  - apply (process_request_spec mc r _ _ _ Hb Hrmd) in Hp as (_ & _ & _ & _ & He & Hs & -> & ->). unfold representable, exposure.
    unfold i_ok in *. split; [lia|]. split; [done|]. cbn. do 2 f_equal.
    destruct (Z.ltb_spec 0 (balance (mc_balance mc) + (remote_pending_debt (mc_balance mc) + frozen (create_pending_transaction r)) - rmd)),
      (Z.leb_spec (frozen (create_pending_transaction r)) (rmd - (balance (mc_balance mc) + remote_pending_debt (mc_balance mc)))); (done || lia).
  - split; [|intros [Ha Hs]].
    + revert Hp. apply andb_true_iff in Hr as [Hv Hd]. unfold process_request_send_funds. rewrite Hv. simpl. rewrite Hd. simpl.
      rewrite bool_decide_eq_true_2 by done. simpl.
      destruct (checked_u 128 _); simpl; [|congruence]. destruct (checked_u 128 _); simpl; [|congruence].
      destruct (SafeArith.checked_add_unsigned _ _ _); simpl; [|congruence]. destruct (SafeArith.checked_sub_unsigned _ _ _); simpl; congruence.
    + assert (exists out, process_request_send_funds mc r rmd = Ok (freeze_remote mc r, out)) as [out Hok]; [|by rewrite Hok in Hp].
      eexists. apply (process_request_spec mc r _ _ _ Hb Hrmd). unfold exposure, u_ok, i_ok in *.
      assert (u_max 128 = i_max 128 - i_min 128) by reflexivity. assert (0 <= i_max 128) by by vm_compute. split_and!; try done; try lia.
  - revert Hp. unfold process_request_send_funds. no_panic. done.
Qed.

(** C36. What the capacity announced for an open currency of a ready friend is worth:
    the ledger takes a well-formed new request of the friend exactly when the exposure
    after it, and its distance to the credit limit, are numbers of the signed type, and
    fails with an overflow otherwise. A request it takes is passed on exactly when the
    frozen credits fit in the announced capacity, and cancelled otherwise. When the
    credit limit is at most half of the range, and so is what is left of it, the
    announced capacity is therefore exactly what the friend can use. *)
Theorem announced_capacity_usable (f : FriendState B) (tc : TokenChannel B) (c : Currency)
  (cc : CurrencyConfig) (mc : MutualCredit) (r : RequestSendFundsOp)
  (Hf : friend_ready f tc) (Hcc : currency_configs f !! c = Some cc) (Hopen : cc_is_open cc = true)
  (Hmc : mutual_credits tc !! c = Some mc) (Hr : request_valid r = true)
  (Hnew : pending_remote (mc_pending mc) !! rq_request_id r = None)
  (Hpos : 0 < frozen (create_pending_transaction r)) :
  let rmd := cc_remote_max_debt cc in
  exists capacities recv_capacity,
    calc_friend_capacities (create_friend_report f ReportOnline) = Some capacities /\
    capacities !! c = Some (true, recv_capacity) /\
    match process_request_send_funds mc r rmd with
    | Ok (mc', out) =>
        representable mc r rmd /\ mc' = freeze_remote mc r /\
        po_incoming_message out = Some (if frozen (create_pending_transaction r) <=? recv_capacity
                                        then IncomingRequest r else IncomingRequestCancel r)
    | Err e => e = PCreditsCalcOverflow /\ ~ representable mc r rmd
    | Panic => False
    end /\
    (rmd <= i_max 128 -> rmd - exposure mc <= i_max 128 ->
     (frozen (create_pending_transaction r) <= recv_capacity <->
      exists mc' ms, process_request_send_funds mc r rmd = Ok (mc', mkProcessOutput (Some (IncomingRequest r)) ms))).
Proof.
  intros rmd. destruct (friend_capacities_ok f tc Hf) as (caps & Hcaps & Hlk). exists caps, (snd (capacity_of f c mc)).
  split; [done|]. rewrite (Hlk _ _ Hmc). unfold capacity_of. rewrite Hcc, Hopen. fold rmd. cbn [snd]. split; [done|].
  destruct Hf as (_ & _ & Hwf & Hrs). pose proof (Hwf _ _ Hmc) as Hm. pose proof (Hrs _ _ Hcc) as Hrmd. cbn in Hm, Hrmd. fold rmd in Hrmd.
  pose proof (process_request_cases mc r rmd Hm Hrmd Hr Hnew Hpos) as Hcases.
  assert (representable mc r rmd -> (frozen (create_pending_transaction r) <=? saturate_u 128 (rmd - exposure mc)) =
          (frozen (create_pending_transaction r) <=? rmd - exposure mc)) as Hsat.
  { intros [Hhi _]. destruct Hm as ([Hb0 _] & _ & [[Hr0 _] _] & _). unfold saturate_u, exposure in *.
    assert (u_max 128 = i_max 128 - i_min 128) as -> by reflexivity.
    destruct (Z.leb_spec (frozen (create_pending_transaction r)) (rmd - (balance (mc_balance mc) + remote_pending_debt (mc_balance mc))));
      [apply Z.leb_le|apply Z.leb_gt]; lia. }
  destruct (process_request_send_funds mc r rmd) as [[mc' out]|e|]; [| |done].
  - destruct Hcases as (Hrep & -> & Hout). rewrite (Hsat Hrep). split; [by split_and!|]. intros _ _. rewrite <-Z.leb_le, (Hsat Hrep).
    destruct out as [im ms]. cbn in Hout. subst im. split.
    + intros ->. by eexists _, _.
    + intros (mc1 & ms1 & [= _ Him _]). by case_match.
  - split; [done|]. destruct Hcases as [-> Hrep]. intros Hlow Hroom. split; [|by intros (? & ? & ?)]. intros Hle. destruct Hrep.
    unfold saturate_u in Hle. unfold representable. assert (i_min 128 = - i_max 128 - 1) as -> by reflexivity. lia.
Qed.

(** A credit limit of more than half of the range is announced in full, but
    the ledger rejects every request of the friend as an overflow, which makes
    the channel inconsistent. *)
Theorem announced_but_unusable (mc : MutualCredit) (r : RequestSendFundsOp) (rmd : Z)
  (Hwf : mc_wf mc) (Hrmd : u_ok 128 rmd) (Hr : request_valid r = true)
  (Hnew : pending_remote (mc_pending mc) !! rq_request_id r = None)
  (Hpos : 0 < frozen (create_pending_transaction r))
  (Hfit : exposure mc + frozen (create_pending_transaction r) < rmd - 2 ^ 127) :
  process_request_send_funds mc r rmd = Err PCreditsCalcOverflow.
Proof.
  pose proof (process_request_cases mc r rmd Hwf Hrmd Hr Hnew Hpos) as Hc.
  destruct (process_request_send_funds mc r rmd) as [[mc' out]|e|]; [|by destruct Hc as [-> _]|done].
  destruct Hc as ([_ Hlow] & _). change (i_min 128) with (- 2 ^ 127) in Hlow. lia.
Qed.
End Capacity.

(** ** Concrete runs *)
Module ConvertSamples.
Import Toy McSamples.

Definition friend_a (open : bool) (rmd : Z) : FriendState string :=
  mkFriendState pk_b pk_a [] NeverSent "alice"
    {[ fst_currency := mkCurrencyConfig rate_new rmd open ]} FriendEnabled
    (Consistent (mkChannelConsistent
       (mkTokenChannel (direction (tc_new pk_b pk_a)) {[ fst_currency := mc_b ]}
          (active_currencies (tc_new (B := string) pk_b pk_a))) [] [] [])).
Definition report_of (l : FriendLivenessReport) : FunderReport string :=
  mkFunderReport pk_b [] {[ pk_a := create_friend_report (friend_a true 100) l ]}.
Definition state_of (l : FriendLivenessReport) : IndexClientState :=
  default (mkIndexClientState ∅) (funder_report_to_index_client_state (report_of l)).
Definition offline : FunderReportMutation string := RpFriendMutation pk_a (FrSetLiveness ReportOffline).

(** The capacity of the friend is announced, and withdrawn once it is offline. *)
Lemma index_mutations_track_report_witness :
  exists ms, funder_report_mutation_to_index_mutation (report_of ReportOnline) offline = Some ms /\
    foldl learn (ics_friends (state_of ReportOnline)) ms = ics_friends (state_of ReportOffline).
Proof.
  apply (index_mutations_track_report (report_of ReportOnline) (report_of ReportOffline) offline).
  - unfold offline, report_of. simpl. rewrite lookup_singleton_eq. simpl. by rewrite insert_singleton_eq.
  - reflexivity.
  - reflexivity.
Defined.

Lemma friend_a_ready open rmd : u_ok 128 rmd ->
  friend_ready (friend_a open rmd)
    (mkTokenChannel (direction (tc_new pk_b pk_a)) {[ fst_currency := mc_b ]}
       (active_currencies (tc_new (B := string) pk_b pk_a))).
Proof.
  intros Hrmd. split; [done|]. split; [by eexists|]. split.
  - apply map_Forall_singleton. apply mc_new_wf. split; vm_compute; discriminate.
  - by apply map_Forall_singleton.
Qed.

Lemma announced_capacity_usable_witness :
  exists capacities recv_capacity,
    calc_friend_capacities (create_friend_report (friend_a true 100) ReportOnline) = Some capacities /\
    capacities !! fst_currency = Some (true, recv_capacity) /\
    match process_request_send_funds mc_b (request_of 10 1) 100 with
    | Ok (mc', out) =>
        representable mc_b (request_of 10 1) 100 /\ mc' = freeze_remote mc_b (request_of 10 1) /\
        po_incoming_message out = Some (if 11 <=? recv_capacity
                                        then IncomingRequest (request_of 10 1) else IncomingRequestCancel (request_of 10 1))
    | Err e => e = PCreditsCalcOverflow /\ ~ representable mc_b (request_of 10 1) 100
    | Panic => False
    end /\
    (100 <= i_max 128 -> 100 - exposure mc_b <= i_max 128 ->
     (11 <= recv_capacity <-> exists mc' ms, process_request_send_funds mc_b (request_of 10 1) 100 =
       Ok (mc', mkProcessOutput (Some (IncomingRequest (request_of 10 1))) ms))).
Proof.
  apply (announced_capacity_usable (friend_a true 100) _ fst_currency (mkCurrencyConfig rate_new 100 true) mc_b
           (request_of 10 1) (friend_a_ready true 100 ltac:(split; vm_compute; discriminate))); reflexivity.
Defined.

Lemma announced_but_unusable_witness :
  process_request_send_funds mc_b (request_of 10 1) (u_max 128) = Err PCreditsCalcOverflow.
Proof.
  apply announced_but_unusable; try reflexivity; [|split; vm_compute; discriminate..].
  apply mc_new_wf. split; vm_compute; discriminate.
Defined.
End ConvertSamples.
