(* ===== verification/AppServer.v ===== *)
(** * The application server ([app_server/src/server.rs])

    The application server stands between the applications, the funder and the
    index client: it gives every new application the report of the node,
    broadcasts the mutations of the report, checks permissions, passes requests
    on, and returns responses to the application that asked. It also turns the
    mutations of the funder report into announcements for the index client.

    The server is a state machine over the events of its loop. What the
    environment decides (whether a message can be delivered) is an argument of
    the steps; every message sent is an action of the step. *)

From S2P Require Import Prelude Arith Bytes Messages Canonical MutualCredit McTheory McPair TokenChannel Friend FunderState Report Handler HandleControl FunderHandler IndexMessages SeqMap IndexConvert.

Local Open Scope Z_scope.

(** ** Messages ([proto/src/app_server/messages.rs]) *)

Record NodeReport (B : Type) := mkNodeReport {
  funder_report : FunderReport B;
  index_client_report : IndexClientReport B
}.
Arguments mkNodeReport {B}. Arguments funder_report {B}. Arguments index_client_report {B}.

Inductive NodeReportMutation (B : Type) :=
| NodeFunder (m : FunderReportMutation B)
| NodeIndexClient (m : IndexClientReportMutation B).
Arguments NodeFunder {B}. Arguments NodeIndexClient {B}.

Record ReportMutations (B : Type) := mkReportMutations {
  rm_opt_app_request_id : option Uid;
  rm_mutations : list (NodeReportMutation B)
}.
Arguments mkReportMutations {B}. Arguments rm_opt_app_request_id {B}. Arguments rm_mutations {B}.

Inductive AppServerToApp (B : Type) :=
| ToAppTransactionResult (r : TransactionResult)
| ToAppResponseClosePayment (r : ResponseClosePayment)
| ToAppReportMutations (r : ReportMutations B)
| ToAppResponseRoutes (r : ClientResponseRoutes).
Arguments ToAppTransactionResult {B}. Arguments ToAppResponseClosePayment {B}.
Arguments ToAppReportMutations {B}. Arguments ToAppResponseRoutes {B}.

Record OpenFriendCurrency := mkOpenFriendCurrency { ofc_friend_public_key : PublicKey; ofc_currency : Currency }.
Record CloseFriendCurrency := mkCloseFriendCurrency { cfc_friend_public_key : PublicKey; cfc_currency : Currency }.

Inductive AppRequest (B : Type) :=
| AppAddRelay (r : NamedRelayAddress B)
| AppRemoveRelay (pk : PublicKey)
| AppAddFriend (a : AddFriend B)
| AppSetFriendRelays (x : SetFriendRelays B)
| AppSetFriendName (x : SetFriendName)
| AppRemoveFriend (pk : PublicKey)
| AppEnableFriend (pk : PublicKey)
| AppDisableFriend (pk : PublicKey)
| AppOpenFriendCurrency (x : OpenFriendCurrency)
| AppCloseFriendCurrency (x : CloseFriendCurrency)
| AppSetFriendCurrencyMaxDebt (x : SetFriendCurrencyMaxDebt)
| AppSetFriendCurrencyRate (x : SetFriendCurrencyRate)
| AppRemoveFriendCurrency (x : HandleControl.RemoveFriendCurrency)
| AppResetFriendChannel (x : ResetFriendChannel)
| AppCreatePayment (x : CreatePayment)
| AppCreateTransaction (x : CreateTransaction)
| AppRequestClosePayment (payment_id : PaymentId)
| AppAckClosePayment (x : AckClosePayment)
| AppAddInvoice (x : AddInvoice)
| AppCancelInvoice (invoice_id : InvoiceId)
| AppCommitInvoice (c : Commit)
| AppRequestRoutes (r : RequestRoutes)
| AppAddIndexServer (a : NamedIndexServerAddress B)
| AppRemoveIndexServer (pk : PublicKey).
Arguments AppAddRelay {B}. Arguments AppRemoveRelay {B}. Arguments AppAddFriend {B}. Arguments AppSetFriendRelays {B}.
Arguments AppSetFriendName {B}. Arguments AppRemoveFriend {B}. Arguments AppEnableFriend {B}.
Arguments AppDisableFriend {B}. Arguments AppOpenFriendCurrency {B}. Arguments AppCloseFriendCurrency {B}.
Arguments AppSetFriendCurrencyMaxDebt {B}. Arguments AppSetFriendCurrencyRate {B}.
Arguments AppRemoveFriendCurrency {B}. Arguments AppResetFriendChannel {B}. Arguments AppCreatePayment {B}.
Arguments AppCreateTransaction {B}. Arguments AppRequestClosePayment {B}. Arguments AppAckClosePayment {B}.
Arguments AppAddInvoice {B}. Arguments AppCancelInvoice {B}. Arguments AppCommitInvoice {B}.
Arguments AppRequestRoutes {B}. Arguments AppAddIndexServer {B}. Arguments AppRemoveIndexServer {B}.

Record AppToAppServer (B : Type) := mkAppToAppServer { app_request_id : Uid; app_request : AppRequest B }.
Arguments mkAppToAppServer {B}. Arguments app_request_id {B}. Arguments app_request {B}.

Record AppPermissions := mkAppPermissions {
  perm_routes : bool;
  perm_buyer : bool;
  perm_seller : bool;
  perm_config : bool
}.

(** [NodeReport::mutate] *)
Definition node_report_mutate {B} (r : NodeReport B) (m : NodeReportMutation B) : outcome unit (NodeReport B) :=
  match m with
  | NodeFunder m =>
      let? fr := map_err (fun _ => tt) (funder_report_mutate (funder_report r) m) in
      Ok (mkNodeReport fr (index_client_report r))
  | NodeIndexClient m => Ok (mkNodeReport (funder_report r) (icr_mutate (index_client_report r) m))
  end.

(** ** The server *)

Inductive AppServerError :=
| AsFunderClosed | AsSpawnError | AsIndexClientClosed | AsSendToFunderError | AsSendToIndexClientError
| AsAllAppsClosed | AsObtainConnPairError | AsSendNodeReportError.

(** What becomes of a new connection: the application is gone before it gets
    the report, or before it returns its streams, or it is connected. *)
Inductive ConnectionResult := ReportRefused | StreamsRefused | StreamsObtained.

Inductive AppServerEvent (B : Type) :=
| EvIncomingConnection (permissions : AppPermissions) (result : ConnectionResult)
| EvIncomingConnectionsClosed
| EvFromFunder (m : FunderOutgoingControl B)
| EvFunderClosed
| EvFromIndexClient (m : IndexClientToAppServer B)
| EvIndexClientClosed
| EvFromApp (app_id : Z) (opt_app_message : option (AppToAppServer B)).
Arguments EvIncomingConnection {B}. Arguments EvIncomingConnectionsClosed {B}. Arguments EvFromFunder {B}.
Arguments EvFunderClosed {B}. Arguments EvFromIndexClient {B}. Arguments EvIndexClientClosed {B}.
Arguments EvFromApp {B}.

(** [opt_sender] is false once a message could not be delivered. *)
Record App := mkApp { app_permissions : AppPermissions; app_sender : bool }.

Record AppServer (B : Type) := mkAppServer {
  node_report : NodeReport B;
  incoming_connections_closed : bool;
  app_counter : Z;
  apps : gmap Z App;
  route_requests : gmap Uid Z;
  close_payment_requests : gmap PaymentId Z;
  transactions : gmap Uid Z
}.
Arguments mkAppServer {B}. Arguments node_report {B}. Arguments incoming_connections_closed {B}.
Arguments app_counter {B}. Arguments apps {B}. Arguments route_requests {B}.
Arguments close_payment_requests {B}. Arguments transactions {B}.

(** What the server sends. *)
Inductive AppServerAction (B : Type) :=
| ActNewApp (app_id : Z) (report : NodeReport B)
| ActToApp (app_id : Z) (m : AppServerToApp B)
| ActToFunder (app_request_id : Uid) (m : FunderControl B)
| ActToIndexClient (m : AppServerToIndexClient B).
Arguments ActNewApp {B}. Arguments ActToApp {B}. Arguments ActToFunder {B}. Arguments ActToIndexClient {B}.

(** Which deliveries succeed. *)
Record AsEnv := mkAsEnv { to_app_ok : Z -> bool; to_funder_ok : bool; to_index_client_ok : bool }.

Definition check_request_permissions {B} (p : AppPermissions) (r : AppRequest B) : bool :=
  match r with
  | AppAddRelay _ => perm_config p
  | AppRemoveRelay _ => perm_config p
  | AppCreatePayment _ => perm_buyer p
  | AppCreateTransaction _ => perm_buyer p
  | AppRequestClosePayment _ => perm_buyer p
  | AppAckClosePayment _ => perm_buyer p
  | AppAddInvoice _ => perm_seller p
  | AppCancelInvoice _ => perm_seller p
  | AppCommitInvoice _ => perm_seller p
  | AppAddFriend _ => perm_config p
  | AppSetFriendRelays _ => perm_config p
  | AppSetFriendName _ => perm_config p
  | AppRemoveFriend _ => perm_config p
  | AppEnableFriend _ => perm_config p
  | AppDisableFriend _ => perm_config p
  | AppOpenFriendCurrency _ => perm_config p
  | AppCloseFriendCurrency _ => perm_config p
  | AppSetFriendCurrencyMaxDebt _ => perm_config p
  | AppSetFriendCurrencyRate _ => perm_config p
  | AppRemoveFriendCurrency _ => perm_config p
  | AppResetFriendChannel _ => perm_config p
  | AppRequestRoutes _ => perm_routes p
  | AppAddIndexServer _ => perm_config p
  | AppRemoveIndexServer _ => perm_config p
  end.

Section AppServer.
Context {B : Type}.
Implicit Types (s : AppServer B) (env : AsEnv).

Notation result := (outcome AppServerError (AppServer B * list (AppServerAction B))).

Definition set_apps s (a : gmap Z App) : AppServer B :=
  mkAppServer (node_report s) (incoming_connections_closed s) (app_counter s) a (route_requests s)
    (close_payment_requests s) (transactions s).
Definition set_node_report s (r : NodeReport B) : AppServer B :=
  mkAppServer r (incoming_connections_closed s) (app_counter s) (apps s) (route_requests s)
    (close_payment_requests s) (transactions s).
Definition set_requests s (routes : gmap Uid Z) (closes : gmap PaymentId Z) (trs : gmap Uid Z) : AppServer B :=
  mkAppServer (node_report s) (incoming_connections_closed s) (app_counter s) (apps s) routes closes trs.

Definition app_server_new (r : NodeReport B) : AppServer B := mkAppServer r false 0 ∅ ∅ ∅ ∅.

(** [App::send] *)
Definition app_after_send env (id : Z) (a : App) : App :=
  mkApp (app_permissions a) (app_sender a && to_app_ok env id).
Definition app_send_to env s (id : Z) (m : AppServerToApp B) : AppServer B * list (AppServerAction B) :=
  match apps s !! id with
  | Some a => (set_apps s (<[id := app_after_send env id a]> (apps s)),
               if app_sender a && to_app_ok env id then [ActToApp id m] else [])
  | None => (s, [])
  end.

Definition handle_incoming_connection s (permissions : AppPermissions) (r : ConnectionResult) : result :=
  match r with
  | ReportRefused => Err AsSendNodeReportError
  | StreamsRefused => Err AsObtainConnPairError
  | StreamsObtained =>
      Ok (mkAppServer (node_report s) (incoming_connections_closed s) (cast_u 128 (app_counter s + 1))
            (<[app_counter s := mkApp permissions true]> (apps s)) (route_requests s)
            (close_payment_requests s) (transactions s),
          [ActNewApp (app_counter s) (node_report s)])
  end.

Definition handle_incoming_connections_closed s : result :=
  let s := mkAppServer (node_report s) true (app_counter s) (apps s) (route_requests s)
             (close_payment_requests s) (transactions s) in
  if bool_decide (apps s = ∅) then Err AsAllAppsClosed else Ok (s, []).

Definition broadcast_node_report_mutations env s (rm : ReportMutations B) : AppServer B * list (AppServerAction B) :=
  (set_apps s (map_imap (fun id a => Some (app_after_send env id a)) (apps s)),
   omap (fun '(id, a) => if app_sender a && to_app_ok env id then Some (ActToApp id (ToAppReportMutations rm)) else None)
     (map_to_list (apps s))).

(** The loop that mutates the report of the node; the mutations are unwrapped. *)
Definition apply_report_mutations s (ms : list (NodeReportMutation B)) : outcome AppServerError (AppServer B) :=
  let? r := unwrap_res (ofold node_report_mutate (node_report s) ms) in Ok (set_node_report s r).

(** The loop over [funder_report_mutations.mutations]: every mutation is
    compared with the report the server holds before the batch. *)
Definition batch_index_mutations (r : FunderReport B) (ms : list (FunderReportMutation B)) :
  option (list IndexMutation) :=
  let! ls := omap_all (funder_report_mutation_to_index_mutation r) ms in Some (concat ls).

Definition handle_from_funder env s (m : FunderOutgoingControl B) : result :=
  match m with
  | OutTransactionResult tr =>
      match transactions s !! tr_request_id tr with
      | None => Ok (s, [])
      | Some id =>
          Ok (app_send_to env (set_requests s (route_requests s) (close_payment_requests s)
                                 (delete (tr_request_id tr) (transactions s)))
                id (ToAppTransactionResult tr))
      end
  | OutResponseClosePayment rc =>
      match close_payment_requests s !! rcp_payment_id rc with
      | None => Ok (s, [])
      | Some id =>
          Ok (app_send_to env (set_requests s (route_requests s)
                                 (delete (rcp_payment_id rc) (close_payment_requests s)) (transactions s))
                id (ToAppResponseClosePayment rc))
      end
  | OutReportMutations frm =>
      let? index_mutations := unwrap (batch_index_mutations (funder_report (node_report s)) (frm_mutations frm)) in
      let? out :=
        match index_mutations with
        | [] => Ok []
        | _ => if to_index_client_ok env then Ok [ActToIndexClient (ApplyIndexMutations index_mutations)]
               else Err AsSendToIndexClientError
        end in
      let ms := map NodeFunder (frm_mutations frm) in
      let? s := apply_report_mutations s ms in
      let (s, sent) := broadcast_node_report_mutations env s (mkReportMutations (frm_opt_app_request_id frm) ms) in
      Ok (s, out ++ sent)
  end.

Definition handle_from_index_client env s (m : IndexClientToAppServer B) : result :=
  match m with
  | IcReportMutations im =>
      let ms := map NodeIndexClient (im_mutations im) in
      let? s := apply_report_mutations s ms in
      Ok (broadcast_node_report_mutations env s (mkReportMutations (im_opt_app_request_id im) ms))
  | IcResponseRoutes rr =>
      match route_requests s !! cr_request_id rr with
      | None => Ok (s, [])
      | Some id =>
          Ok (app_send_to env (set_requests s (delete (cr_request_id rr) (route_requests s))
                                 (close_payment_requests s) (transactions s))
                id (ToAppResponseRoutes rr))
      end
  end.

Definition check_app_permissions s (id : Z) (m : AppToAppServer B) : bool :=
  match apps s !! id with
  | Some a => check_request_permissions (app_permissions a) (app_request m)
  | None => false
  end.

(** The macros [to_funder!] and [to_index_client!]. *)
Definition to_funder env s (id : Uid) (c : FunderControl B) : result :=
  if to_funder_ok env then Ok (s, [ActToFunder id c]) else Err AsSendToFunderError.
Definition to_index_client env s (id : Uid) (r : IndexClientRequest B) : result :=
  if to_index_client_ok env then Ok (s, [ActToIndexClient (AppRequestIndexClient id r)])
  else Err AsSendToIndexClientError.

Definition handle_app_message env s (app_id : Z) (m : AppToAppServer B) : result :=
  if negb (check_app_permissions s app_id m) then Ok (set_apps s (delete app_id (apps s)), [])
  else
    let fwd := to_funder env s (app_request_id m) in
    let idx := to_index_client env s (app_request_id m) in
    match app_request m with
    | AppAddRelay x => fwd (CtlAddRelay x)
    | AppRemoveRelay x => fwd (CtlRemoveRelay x)
    | AppCreatePayment x => fwd (CtlCreatePayment x)
    | AppRequestClosePayment payment_id =>
        to_funder env (set_requests s (route_requests s) (<[payment_id := app_id]> (close_payment_requests s))
                         (transactions s)) (app_request_id m) (CtlRequestClosePayment payment_id)
    | AppAckClosePayment x => fwd (CtlAckClosePayment x)
    | AppAddInvoice x => fwd (CtlAddInvoice x)
    | AppCancelInvoice x => fwd (CtlCancelInvoice x)
    | AppCommitInvoice x => fwd (CtlCommitInvoice x)
    | AppAddFriend x => fwd (CtlAddFriend x)
    | AppSetFriendRelays x => fwd (CtlSetFriendRelays x)
    | AppSetFriendName x => fwd (CtlSetFriendName x)
    | AppSetFriendCurrencyMaxDebt x => fwd (CtlSetFriendCurrencyMaxDebt x)
    | AppSetFriendCurrencyRate x => fwd (CtlSetFriendCurrencyRate x)
    | AppRemoveFriendCurrency x => fwd (CtlRemoveFriendCurrency x)
    | AppResetFriendChannel x => fwd (CtlResetFriendChannel x)
    | AppCreateTransaction x =>
        to_funder env (set_requests s (route_requests s) (close_payment_requests s)
                         (<[ct_request_id x := app_id]> (transactions s)))
          (app_request_id m) (CtlCreateTransaction x)
    | AppRemoveFriend pk => fwd (CtlRemoveFriend pk)
    | AppEnableFriend pk => fwd (CtlSetFriendStatus (mkSetFriendStatus pk FriendEnabled))
    | AppDisableFriend pk => fwd (CtlSetFriendStatus (mkSetFriendStatus pk FriendDisabled))
    | AppOpenFriendCurrency x =>
        fwd (CtlSetFriendCurrencyRequestsStatus
               (mkSetRequestsStatus (ofc_friend_public_key x) (ofc_currency x) RequestsOpen))
    | AppCloseFriendCurrency x =>
        fwd (CtlSetFriendCurrencyRequestsStatus
               (mkSetRequestsStatus (cfc_friend_public_key x) (cfc_currency x) RequestsClosed))
    | AppAddIndexServer x => idx (ReqAddIndexServer x)
    | AppRemoveIndexServer x => idx (ReqRemoveIndexServer x)
    | AppRequestRoutes r =>
        to_index_client env (set_requests s (<[rr_request_id r := app_id]> (route_requests s))
                               (close_payment_requests s) (transactions s))
          (app_request_id m) (ReqRequestRoutes r)
    end.

Definition handle_from_app env s (app_id : Z) (opt : option (AppToAppServer B)) : result :=
  match opt with
  | None =>
      let? _ := unwrap (apps s !! app_id) in
      let s := set_apps s (delete app_id (apps s)) in
      if bool_decide (apps s = ∅) && incoming_connections_closed s then Err AsAllAppsClosed else Ok (s, [])
  | Some m => handle_app_message env s app_id m
  end.

(** One turn of [app_server_loop]. *)
Definition app_server_step env s (e : AppServerEvent B) : result :=
  match e with
  | EvIncomingConnection p r => handle_incoming_connection s p r
  | EvIncomingConnectionsClosed => handle_incoming_connections_closed s
  | EvFromFunder m => handle_from_funder env s m
  | EvFunderClosed => Err AsFunderClosed
  | EvFromIndexClient m => handle_from_index_client env s m
  | EvIndexClientClosed => Err AsIndexClientClosed
  | EvFromApp id m => handle_from_app env s id m
  end.

(** [app_server_loop]: the actions of a run, with the outcome. *)
Fixpoint app_server_loop s (es : list (AsEnv * AppServerEvent B)) : result :=
  match es with
  | [] => Ok (s, [])
  | (env, e) :: rest =>
      let? (s', acts) := app_server_step env s e in
      let? (s'', acts') := app_server_loop s' rest in
      Ok (s'', acts ++ acts')
  end.
End AppServer.
