(* ===== verification/AppServerTheory.v ===== *)
(** * What applications can rely on

    Theorems about the application server of [AppServer]: applications that
    apply the mutations they receive hold the report of the node, which follows
    the state of the funder; requests pass only with permission and responses
    go back to the application that asked. *)

From S2P Require Import Prelude Arith Bytes Messages Canonical MutualCredit McTheory McPair TokenChannel Friend FunderState Report Handler HandleControl FunderHandler IndexMessages SeqMap IndexConvert AppServer.

Local Open Scope Z_scope.

(** ** The reports applications hold *)

Section Views.
Context {B : Type}.
Implicit Types (s : AppServer B) (env : AsEnv) (v : gmap Z (NodeReport B)).

(** An application starts with the report it is given and applies the
    mutations it receives. *)
Definition update_view (rm : ReportMutations B) (r : NodeReport B) : option (NodeReport B) :=
  match ofold node_report_mutate r (rm_mutations rm) with Ok r' => Some r' | _ => None end.
Definition view_action v (a : AppServerAction B) : gmap Z (NodeReport B) :=
  match a with
  | ActNewApp id r => <[id := r]> v
  | ActToApp id (ToAppReportMutations rm) => partial_alter (fun o => o ≫= update_view rm) id v
  | _ => v
  end.
Definition views v (acts : list (AppServerAction B)) : gmap Z (NodeReport B) := foldl view_action v acts.

(** Connected applications that can be reached hold the report of the server. *)
Definition views_ok s v : Prop :=
  forall id a, apps s !! id = Some a -> app_sender a = true -> v !! id = Some (node_report s).

Lemma views_app v l l' : views v (l ++ l') = views (views v l) l'.
Proof. apply foldl_app. Qed.

Lemma views_silent v l :
  Forall (fun a => match a with ActNewApp _ _ | ActToApp _ (ToAppReportMutations _) => False | _ => True end) l ->
  views v l = v.
Proof.
  intros Hl. revert v. induction Hl as [|a l Ha Hl IH]; intros v; [done|]. simpl. rewrite IH.
  by destruct a as [| ? []| |].
Qed.

Lemma views_broadcast env rm (l : list (Z * App)) v id :
  NoDup l.*1 ->
  views v (omap (fun '(id, a) => if app_sender a && to_app_ok env id
                                 then Some (ActToApp id (ToAppReportMutations rm)) else None) l) !! id =
    match (list_to_map l : gmap Z App) !! id with
    | Some a => if app_sender a && to_app_ok env id then v !! id ≫= update_view rm else v !! id
    | None => v !! id
    end.
Proof.
  revert v. induction l as [|[i a] l IH]; intros v Hnd; simpl in *; [by rewrite lookup_empty|].
  apply NoDup_cons in Hnd as [Hi Hnd].
  assert ((list_to_map l : gmap Z App) !! i = None) as Hnone by (by apply not_elem_of_list_to_map_1).
  destruct (app_sender a && to_app_ok env i) eqn:Hok; simpl; rewrite IH by done.
  - destruct (decide (id = i)) as [->|Hne].
    + rewrite Hnone, lookup_insert_eq, Hok. by rewrite lookup_partial_alter_eq.
    + rewrite lookup_insert_ne by done. by rewrite lookup_partial_alter_ne by done.
  - destruct (decide (id = i)) as [->|Hne].
    + by rewrite Hnone, lookup_insert_eq, Hok.
    + by rewrite lookup_insert_ne.
Qed.

Lemma broadcast_views_ok env s s1 v rm s' acts :
  views_ok s v -> ofold node_report_mutate (node_report s) (rm_mutations rm) = Ok (node_report s1) ->
  apps s1 = apps s -> broadcast_node_report_mutations env s1 rm = (s', acts) ->
  views_ok s' (views v acts).
Proof.
  intros Hok Hm Ha [= <- <-] id a Hid Hs. simpl in *. rewrite map_lookup_imap in Hid.
  rewrite views_broadcast by apply NoDup_fst_map_to_list. rewrite list_to_map_to_list.
  destruct (apps s1 !! id) as [a0|] eqn:Ha0; simplify_eq/=. rewrite Hs.
  apply andb_true_iff in Hs as [Hs _]. rewrite Ha in Ha0. rewrite (Hok _ _ Ha0 Hs). simpl.
  unfold update_view. by rewrite Hm.
Qed.

Lemma send_to_views_ok env s v id m s' acts :
  views_ok s v -> (match m with ToAppReportMutations _ => False | _ => True end) ->
  app_send_to env s id m = (s', acts) -> views_ok s' (views v acts) /\ node_report s' = node_report s.
Proof.
  intros Hok Hm Hs. unfold app_send_to in Hs. destruct (apps s !! id) as [a|] eqn:Ha; simplify_eq/=; [|done].
  rewrite views_silent.
  2:{ destruct (app_sender a && to_app_ok env id); [|constructor]. constructor; [|constructor]. by destruct m. }
  split; [|done]. intros i b Hi Hb. simpl in *. destruct (decide (i = id)) as [->|Hne].
  - rewrite lookup_insert_eq in Hi. simplify_eq/=. apply andb_true_iff in Hb as [Hb _]. by apply (Hok id a).
  - rewrite lookup_insert_ne in Hi by done. by apply (Hok i b).
Qed.

Lemma apply_report_mutations_ok s ms s1 :
  apply_report_mutations s ms = Ok s1 ->
  ofold node_report_mutate (node_report s) ms = Ok (node_report s1) /\ s1 = set_node_report s (node_report s1).
Proof.
  unfold apply_report_mutations. destruct (ofold _ _ _) as [r| |] eqn:Hr; simpl; try done. by intros [= <-].
Qed.

Lemma funder_reports_inv env s frm s' acts :
  handle_from_funder env s (OutReportMutations frm) = Ok (s', acts) ->
  exists s1 out sent, apply_report_mutations s (map NodeFunder (frm_mutations frm)) = Ok s1 /\
    Forall (fun a => match a with ActToIndexClient (ApplyIndexMutations _) => True | _ => False end) out /\
    broadcast_node_report_mutations env s1
      (mkReportMutations (frm_opt_app_request_id frm) (map NodeFunder (frm_mutations frm))) = (s', sent) /\
    acts = out ++ sent.
Proof.
  simpl. destruct (batch_index_mutations _ _) as [ims|]; cbn [unwrap obind]; [|done].
  destruct ims as [|im ims]; [|destruct (to_index_client_ok env)]; cbn [obind]; try done;
    (destruct (apply_report_mutations s _) as [s1| |]; cbn [obind]; try done); intros [= <- <-].
  - exists s1, []. by eexists.
  - exists s1, [ActToIndexClient (ApplyIndexMutations (im :: ims))]. eexists. by repeat constructor.
Qed.

Lemma app_message_quiet env s id m s' acts :
  handle_app_message env s id m = Ok (s', acts) ->
  node_report s' = node_report s /\
  (forall i a, apps s' !! i = Some a -> apps s !! i = Some a) /\
  Forall (fun a => match a with ActToFunder _ _ | ActToIndexClient _ => True | _ => False end) acts.
Proof.
  unfold handle_app_message. destruct (check_app_permissions s id m); simpl.
  - intros Hr. destruct (app_request m); unfold to_funder, to_index_client in Hr;
      repeat case_match; simplify_eq/=; (split_and!; [done|done|by repeat constructor]).
  - intros [= <- <-]. simpl. split_and!; [done| |constructor]. by intros i a [_ Hi]%lookup_delete_Some.
Qed.

Lemma app_server_step_views env s v e s' acts :
  views_ok s v -> app_server_step env s e = Ok (s', acts) -> views_ok s' (views v acts).
Proof.
  intros Hok. destruct e as [p r| |m| |m| |id o]; simpl; try done.
  - destruct r; try done. intros [= <- <-] i a Hi Ha. simpl in *. destruct (decide (i = app_counter s)) as [->|Hne].
    + by rewrite lookup_insert_eq.
    + rewrite lookup_insert_ne in Hi by done. rewrite lookup_insert_ne by done. by apply (Hok i a).
  - unfold handle_incoming_connections_closed. case_bool_decide; try done. intros [= <- <-]. exact Hok.
  - destruct m as [tr|rc|frm]; simpl.
    + destruct (transactions s !! _) as [id|]; [|by intros [= <- <-]].
      intros Hs. injection Hs as Hs. by eapply send_to_views_ok in Hs as [? _].
    + destruct (close_payment_requests s !! _) as [id|]; [|by intros [= <- <-]].
      intros Hs. injection Hs as Hs. by eapply send_to_views_ok in Hs as [? _].
    + intros (s1 & out & sent & (Hm & Hs1)%apply_report_mutations_ok & Hout & Hb & ->)%funder_reports_inv.
      rewrite views_app, (views_silent _ out).
      * eapply broadcast_views_ok; [exact Hok| | |exact Hb]; [done|]. by rewrite Hs1.
      * eapply Forall_impl; [exact Hout|]. by intros [].
  - destruct m as [im|rr]; simpl.
    + destruct (apply_report_mutations s _) as [s1| |] eqn:Hm; simpl; try done.
      apply apply_report_mutations_ok in Hm as [Hm Hs1]. intros [= <- <-].
      eapply (broadcast_views_ok env s s1 v (mkReportMutations (im_opt_app_request_id im) _));
        [exact Hok|exact Hm|by rewrite Hs1|reflexivity].
    + destruct (route_requests s !! _) as [id|]; [|by intros [= <- <-]].
      intros Hs. injection Hs as Hs. by eapply send_to_views_ok in Hs as [? _].
  - destruct o as [m|]; simpl.
    + intros (Hr & Ha & Hq)%app_message_quiet. rewrite views_silent.
      * intros i a Hi Hs. rewrite Hr. apply (Hok i a); [|done]. by apply Ha.
      * eapply Forall_impl; [exact Hq|]. by intros [].
    + destruct (apps s !! id) as [a|]; simpl; [|done]. case_match; [done|]. intros [= <- <-].
      intros i b Hi Hs. simpl in Hi. apply lookup_delete_Some in Hi as [_ Hi]. by apply (Hok i b).
Qed.

Lemma app_server_loop_views s v es s' acts :
  views_ok s v -> app_server_loop s es = Ok (s', acts) -> views_ok s' (views v acts).
Proof.
  revert s v acts. induction es as [|[env e] es IH]; intros s v acts Hok; simpl; [by intros [= <- <-]|].
  destruct (app_server_step env s e) as [[s1 acts1]| |] eqn:Hst; simpl; try done.
  destruct (app_server_loop s1 es) as [[s2 acts2]| |] eqn:Hl; simpl; try done. intros [= <- <-].
  rewrite views_app. eapply IH; [|done]. by eapply app_server_step_views.
Qed.

(** *** At every moment *)

Lemma take_omap {A C} (f : A -> option C) l k : exists j, take k (omap f l) = omap f (take j l).
Proof.
  revert k. induction l as [|x l IH]; intros k; [exists 0%nat; by destruct k|]. simpl.
  destruct (f x) as [y|] eqn:Hy.
  - destruct k as [|k]; [by exists 0%nat|]. destruct (IH k) as [j Hj]. exists (S j). simpl. rewrite Hy. simpl. f_equal. exact Hj.
  - destruct (IH k) as [j Hj]. exists (S j). simpl. rewrite Hy. exact Hj.
Qed.

Lemma prefix_take {A} (l l1 l2 : list A) : l = l1 ++ l2 -> l1 = take (length l1) l.
Proof. intros ->. by rewrite take_app_length. Qed.

(** While a broadcast is under way, an application holds the old or the new report. *)
Lemma broadcast_prefix_views env s s1 v rm s' acts l l2 id r :
  views_ok s v -> ofold node_report_mutate (node_report s) (rm_mutations rm) = Ok (node_report s1) ->
  apps s1 = apps s -> broadcast_node_report_mutations env s1 rm = (s', acts) -> acts = l ++ l2 ->
  views v l !! id = Some r -> v !! id = Some r \/ r = node_report s'.
Proof.
  intros Hok Hm Ha [= <- <-] Hl%prefix_take Hv. simpl. destruct (take_omap (fun '(id, a) =>
    if app_sender a && to_app_ok env id then Some (ActToApp id (ToAppReportMutations rm)) else None)
    (map_to_list (apps s1)) (length l)) as [j Hj]. rewrite Hl, Hj in Hv.
  assert (NoDup (take j (map_to_list (apps s1))).*1) as Hnd.
  { rewrite fmap_take. eapply sublist_NoDup; [apply (NoDup_fst_map_to_list (apps s1))|apply sublist_take]. }
  rewrite views_broadcast in Hv by done.
  destruct ((list_to_map (take j (map_to_list (apps s1))) : gmap Z App) !! id) as [a|] eqn:Hid; [|by left].
  destruct (app_sender a && to_app_ok env id) eqn:Hs; [|by left]. apply andb_true_iff in Hs as [Hs _].
  apply elem_of_list_to_map in Hid; [|done]. apply elem_of_take in Hid as (i & Hid & _).
  apply list_elem_of_lookup_2, elem_of_map_to_list in Hid. rewrite Ha in Hid. rewrite (Hok _ _ Hid Hs) in Hv.
  simpl in Hv. unfold update_view in Hv. rewrite Hm in Hv. injection Hv as <-. by right.
Qed.

Definition silent (a : AppServerAction B) : Prop :=
  match a with ActNewApp _ _ | ActToApp _ (ToAppReportMutations _) => False | _ => True end.
Lemma silent_prefix v acts l l2 id r :
  Forall silent acts -> acts = l ++ l2 -> views v l !! id = Some r -> v !! id = Some r.
Proof. intros Hs ->. apply Forall_app in Hs as [Hs _]. by rewrite views_silent. Qed.
Lemma send_to_silent env s id m s' acts :
  (match m with ToAppReportMutations _ => False | _ => True end) -> app_send_to env s id m = (s', acts) -> Forall silent acts.
Proof.
  intros Hm. unfold app_send_to. destruct (apps s !! id) as [a|]; intros [= <- <-]; [|constructor].
  destruct (app_sender a && to_app_ok env id); [|constructor]. constructor; [|constructor]. by destruct m.
Qed.

Lemma app_server_step_prefix env s v e s' acts l l2 id r :
  views_ok s v -> app_server_step env s e = Ok (s', acts) -> acts = l ++ l2 -> views v l !! id = Some r ->
  v !! id = Some r \/ r = node_report s \/ r = node_report s'.
Proof.
  intros Hok Hst Hl Hv.
  assert (Forall silent acts -> v !! id = Some r \/ r = node_report s \/ r = node_report s') as Hsil.
  { intros Hs. left. by eapply silent_prefix. }
  destruct e as [p c| |m| |m| |i o]; simpl in Hst; try done.
  - destruct c; try done. injection Hst as <- <-. destruct l as [|a l]; [by left|]. injection Hl as <- Hl.
    symmetry in Hl. apply app_nil in Hl as [-> ->]. simpl in Hv. destruct (decide (id = app_counter s)) as [->|Hne].
    + rewrite lookup_insert_eq in Hv. injection Hv as <-. by right; left.
    + rewrite lookup_insert_ne in Hv by done. by left.
  - unfold handle_incoming_connections_closed in Hst. case_bool_decide; try done. injection Hst as <- <-. by apply Hsil.
  - destruct m as [tr|rc|frm]; [simpl in Hst..|].
    + destruct (transactions s !! _) as [j|]; [|injection Hst as <- <-; by apply Hsil].
      injection Hst as Hst. apply Hsil. by eapply send_to_silent in Hst.
    + destruct (close_payment_requests s !! _) as [j|]; [|injection Hst as <- <-; by apply Hsil].
      injection Hst as Hst. apply Hsil. by eapply send_to_silent in Hst.
    + apply funder_reports_inv in Hst as (s1 & out & sent & (Hm & Hs1)%apply_report_mutations_ok & Hout & Hb & ->).
      assert (Forall silent out) as Hso by (eapply Forall_impl; [exact Hout|]; by intros []).
      symmetry in Hl. apply app_eq_app in Hl as (k & [[-> Hk]|[-> Hk]]).
      * rewrite views_app, (views_silent v out Hso) in Hv.
        destruct (broadcast_prefix_views env s s1 v (mkReportMutations (frm_opt_app_request_id frm) _) s' sent k l2 id r
          Hok Hm ltac:(by rewrite Hs1) Hb Hk Hv) as [?|?]; [by left|by right; right].
      * left. eapply silent_prefix; [exact Hso|reflexivity|exact Hv].
  - destruct m as [im|rr]; simpl in Hst.
    + destruct (apply_report_mutations s _) as [s1| |] eqn:Hm; simpl in Hst; try done.
      apply apply_report_mutations_ok in Hm as [Hm Hs1]. injection Hst as Hst.
      destruct (broadcast_prefix_views env s s1 v (mkReportMutations (im_opt_app_request_id im) _) s' acts l l2 id r
        Hok Hm ltac:(by rewrite Hs1) ltac:(unfold broadcast_node_report_mutations; congruence) Hl Hv) as [?|?]; [by left|by right; right].
    + destruct (route_requests s !! _) as [j|]; [|injection Hst as <- <-; by apply Hsil].
      injection Hst as Hst. apply Hsil. by eapply send_to_silent in Hst.
  - destruct o as [m|]; simpl in Hst.
    + apply app_message_quiet in Hst as (_ & _ & Hq). apply Hsil. eapply Forall_impl; [exact Hq|]. by intros [].
    + destruct (apps s !! i) as [a|]; simpl in Hst; [|done]. case_match; [done|]. injection Hst as <- <-. by apply Hsil.
Qed.

(** The server had this report after some of its events. *)
Definition server_had s (es : list (AsEnv * AppServerEvent B)) (r : NodeReport B) : Prop :=
  exists es1 es2 s1 acts1, es = es1 ++ es2 /\ app_server_loop s es1 = Ok (s1, acts1) /\ node_report s1 = r.

Lemma app_server_loop_prefix s v es s' acts l l2 id r :
  views_ok s v -> app_server_loop s es = Ok (s', acts) -> acts = l ++ l2 -> views v l !! id = Some r ->
  v !! id = Some r \/ server_had s es r.
Proof.
  revert s v acts l. induction es as [|[env e] es IH]; intros s v acts l Hok; cbn [app_server_loop].
  { intros [= <- <-] Hl Hv. symmetry in Hl. apply app_nil in Hl as [-> ->]. by left. }
  destruct (app_server_step env s e) as [[s1 acts1]| |] eqn:Hst; cbn [obind]; try done.
  destruct (app_server_loop s1 es) as [[s2 acts2]| |] eqn:Hl1; cbn [obind]; try done. intros [= <- <-] Hl Hv.
  assert (forall l l2, acts1 = l ++ l2 -> views v l !! id = Some r -> v !! id = Some r \/ server_had s ((env, e) :: es) r) as Hstep.
  { intros l' l2' Hl' Hv'. destruct (app_server_step_prefix _ _ _ _ _ _ _ _ _ _ Hok Hst Hl' Hv') as [|[->| ->]]; [by left|right..].
    - by exists [], ((env, e) :: es), s, [].
    - exists [(env, e)], es, s1, (acts1 ++ []). split_and!; try done. cbn [app_server_loop]. by rewrite Hst. }
  symmetry in Hl. apply app_eq_app in Hl as (k & [[-> Hk]|[Hk ->]]).
  - rewrite views_app in Hv. destruct (IH s1 (views v acts1) acts2 k) as [Hv'|(es1 & es2 & s3 & acts3 & -> & Hrun & Hr)];
      [by eapply app_server_step_views|done|done|done| |].
    + apply (Hstep acts1 []); [by rewrite app_nil_r|done].
    + right. exists ((env, e) :: es1), es2, s3, (acts1 ++ acts3). split_and!; try done.
      cbn [app_server_loop]. rewrite Hst. cbn [obind]. by rewrite Hrun.
  - by eapply Hstep.
Qed.

(** ** The report of the server follows the funder *)

Definition ev_funder (ee : AsEnv * AppServerEvent B) : option (FunderOutgoingControl B) :=
  match snd ee with EvFromFunder m => Some m | _ => None end.

Lemma ofold_node_funder ms (r : NodeReport B) r' :
  ofold node_report_mutate r (map NodeFunder ms) = Ok r' ->
  ofold funder_report_mutate (funder_report r) ms = Ok (funder_report r').
Proof.
  revert r. induction ms as [|m ms IH]; intros r; simpl; [by intros [= <-]|].
  destruct (funder_report_mutate (funder_report r) m) as [fr| |]; simpl; try done. by intros ?%IH.
Qed.

Lemma ofold_node_index_client ms (r : NodeReport B) r' :
  ofold node_report_mutate r (map NodeIndexClient ms) = Ok r' -> funder_report r' = funder_report r.
Proof. revert r. induction ms as [|m ms IH]; intros r; simpl; [by intros [= <-]|]. by intros ->%IH. Qed.

Lemma app_send_to_report env s id m s' acts :
  app_send_to env s id m = (s', acts) -> node_report s' = node_report s.
Proof. unfold app_send_to. case_match; by intros [= <- <-]. Qed.

Lemma app_server_step_report env s e s' acts :
  app_server_step env s e = Ok (s', acts) ->
  ofold funder_report_mutate (funder_report (node_report s))
    (reported (option_list (ev_funder (env, e)))) = Ok (funder_report (node_report s')).
Proof.
  destruct e as [p r| |m| |m| |id o]; simpl; try done.
  - destruct r; try done. by intros [= <- <-].
  - unfold handle_incoming_connections_closed. case_bool_decide; try done. by intros [= <- <-].
  - destruct m as [tr|rc|frm].
    + simpl. case_match; [|by intros [= <- <-]]. intros Hs. injection Hs as ->%app_send_to_report. done.
    + simpl. case_match; [|by intros [= <- <-]]. intros Hs. injection Hs as ->%app_send_to_report. done.
    + intros (s1 & out & sent & (Hm & _)%apply_report_mutations_ok & _ & [= <- <-] & ->)%funder_reports_inv.
      unfold reported. simpl. rewrite app_nil_r. by apply ofold_node_funder.
  - destruct m as [im|rr]; simpl.
    + destruct (apply_report_mutations s _) as [s1| |] eqn:Hm; simpl; try done.
      apply apply_report_mutations_ok in Hm as [Hm _]. intros [= <- <-]. simpl. f_equal. symmetry.
      by eapply ofold_node_index_client.
    + case_match; [|by intros [= <- <-]]. intros Hs. injection Hs as ->%app_send_to_report. done.
  - destruct o as [m|]; simpl; [by intros (-> & _)%app_message_quiet|].
    destruct (apps s !! id) as [a|]; simpl; [|done]. case_match; [done|]. by intros [= <- <-].
Qed.

Lemma app_server_loop_report s es s' acts :
  app_server_loop s es = Ok (s', acts) ->
  ofold funder_report_mutate (funder_report (node_report s)) (reported (omap ev_funder es)) =
    Ok (funder_report (node_report s')).
Proof.
  revert s acts. induction es as [|[env e] es IH]; intros s acts; cbn [app_server_loop]; [by intros [= <- <-]|].
  destruct (app_server_step env s e) as [[s1 acts1]| |] eqn:Hst; cbn [obind]; try done.
  destruct (app_server_loop s1 es) as [[s2 acts2]| |] eqn:Hl; cbn [obind]; try done. intros [= <- <-].
  assert (omap ev_funder ((env, e) :: es) = option_list (ev_funder (env, e)) ++ omap ev_funder es) as ->
    by (simpl; by destruct (ev_funder (env, e))).
  rewrite reported_app, ofold_app, (app_server_step_report _ _ _ _ _ Hst). cbn [obind]. by eapply IH.
Qed.
End Views.

Lemma connected_views {B : Type} (r : NodeReport B) es s acts id a :
  app_server_loop (app_server_new r) es = Ok (s, acts) -> apps s !! id = Some a -> app_sender a = true ->
  views ∅ acts !! id = Some (node_report s).
Proof. intros Hs Ha Hsend. eapply (app_server_loop_views (app_server_new _) ∅); [|done|done|done]. by intros i x Hi. Qed.
Lemma server_report_matches `{CryptoOps} `{RngOps} {B : Type} `{CanonicalSerialize B} `{EqDecision B}
    (local_pk : PublicKey) `{!SignerOps local_pk} (max_relays max_ops max_user : nat)
    (f f' : FunderState B) (e e' : Ephemeral) (g g' : rng) (ms : list (FunderIncoming B)) comms control
    (r : IndexClientReport B) (es : list (AsEnv * AppServerEvent B)) (s : AppServer B) acts :
  funder_loop local_pk max_relays max_ops max_user (f, e, g) ms = Some (f', e', g', comms, control) ->
  omap ev_funder es = control ->
  app_server_loop (app_server_new (mkNodeReport (create_report f e) r)) es = Ok (s, acts) ->
  report_matches f' (funder_report (node_report s)).
Proof.
  intros Hfunder Hcontrol Hserver.
  destruct (loop_followed local_pk max_relays max_ops max_user _ _ _ _ _ (create_report f e) Hfunder)
    as (r' & Hr' & Hm & _); [apply create_report_matches|].
  apply app_server_loop_report in Hserver. simpl in Hserver. rewrite Hcontrol, Hr' in Hserver. by injection Hserver as <-.
Qed.

(** Whatever the order in which the server handles the messages of the
    funder, the index client and the applications: an application that starts
    from the report it was given and applies the mutations it receives holds,
    as long as it can be reached, a report that matches the state of the
    funder. *)
Theorem applications_follow_funder `{CryptoOps} `{RngOps} {B : Type} `{CanonicalSerialize B} `{EqDecision B}
    (local_pk : PublicKey) `{!SignerOps local_pk} (max_relays max_ops max_user : nat)
    (f f' : FunderState B) (e e' : Ephemeral) (g g' : rng) (ms : list (FunderIncoming B))
    (comms : list (FunderOutgoingComm B)) (control : list (FunderOutgoingControl B))
    (r : IndexClientReport B) (es : list (AsEnv * AppServerEvent B)) (s : AppServer B)
    (acts : list (AppServerAction B)) (id : Z) (a : App)
    (Hfunder : funder_loop local_pk max_relays max_ops max_user (f, e, g) ms = Some (f', e', g', comms, control))
    (Hcontrol : omap ev_funder es = control)
    (Hserver : app_server_loop (app_server_new (mkNodeReport (create_report f e) r)) es = Ok (s, acts))
    (Happ : apps s !! id = Some a) (Hsender : app_sender a = true) :
  exists report, views ∅ acts !! id = Some report /\ report_matches f' (funder_report report).
Proof.
  exists (node_report s). split; [by eapply connected_views|by eapply server_report_matches].
Qed.

(** ** Requests and responses *)

Section Mediation.
Context {B : Type}.
Implicit Types (s : AppServer B) (es : list (AsEnv * AppServerEvent B)).

(** The permissions of the connections of a run; the number of an application
    is its position. *)
Definition connection_of (ee : AsEnv * AppServerEvent B) : option AppPermissions :=
  match snd ee with EvIncomingConnection p StreamsObtained => Some p | _ => None end.
Definition connections es : list AppPermissions := omap connection_of es.

(** The permission a command needs. *)
Definition control_permission (p : AppPermissions) (c : FunderControl B) : bool :=
  match c with
  | CtlCreatePayment _ | CtlCreateTransaction _ | CtlRequestClosePayment _ | CtlAckClosePayment _ => perm_buyer p
  | CtlAddInvoice _ | CtlCancelInvoice _ | CtlCommitInvoice _ => perm_seller p
  | _ => perm_config p
  end.
Definition index_permission (p : AppPermissions) (r : IndexClientRequest B) : bool :=
  match r with ReqRequestRoutes _ => perm_routes p | _ => perm_config p end.

(** Application [id] sent this request in the run, and was allowed to. *)
Definition asked es (id : Z) (rid : Uid) (r : AppRequest B) : Prop :=
  exists env p, (env, EvFromApp id (Some (mkAppToAppServer rid r))) ∈ es /\
    connections es !! Z.to_nat id = Some p /\ check_request_permissions p r = true.

Definition responds (r : AppRequest B) (m : AppServerToApp B) : Prop :=
  match r, m with
  | AppCreateTransaction x, ToAppTransactionResult tr => ct_request_id x = tr_request_id tr
  | AppRequestClosePayment payment_id, ToAppResponseClosePayment rc => payment_id = rcp_payment_id rc
  | AppRequestRoutes q, ToAppResponseRoutes rr => rr_request_id q = cr_request_id rr
  | _, _ => False
  end.

(** Every message is justified by an event of the run. *)
Definition justified es (a : AppServerAction B) : Prop :=
  match a with
  | ActNewApp _ _ => True
  | ActToApp _ (ToAppReportMutations _) => True
  | ActToApp id m => exists rid r, asked es id rid r /\ responds r m
  | ActToFunder rid c => exists id r p, asked es id rid r /\
      connections es !! Z.to_nat id = Some p /\ control_permission p c = true
  | ActToIndexClient (ApplyIndexMutations _) => True
  | ActToIndexClient (AppRequestIndexClient rid q) => exists id r p, asked es id rid r /\
      connections es !! Z.to_nat id = Some p /\ index_permission p q = true
  end.

Record mediated es s : Prop := {
  md_counter : app_counter s = Z.of_nat (length (connections es));
  md_apps id a : apps s !! id = Some a ->
    0 <= id /\ connections es !! Z.to_nat id = Some (app_permissions a);
  md_transactions rid id : transactions s !! rid = Some id ->
    exists q x, asked es id q (AppCreateTransaction x) /\ ct_request_id x = rid;
  md_closes payment_id id : close_payment_requests s !! payment_id = Some id ->
    exists q, asked es id q (AppRequestClosePayment payment_id);
  md_routes rid id : route_requests s !! rid = Some id ->
    exists q x, asked es id q (AppRequestRoutes x) /\ rr_request_id x = rid
}.

Lemma connections_app es l : connections (es ++ l) = connections es ++ connections l.
Proof. apply omap_app. Qed.

Lemma asked_mono es l id rid r : asked es id rid r -> asked (es ++ l) id rid r.
Proof.
  intros (env & p & Hin & Hp & Hc). exists env, p. rewrite connections_app.
  split_and!; [set_solver| |done]. by apply lookup_app_l_Some.
Qed.

Lemma justified_mono es l a : justified es a -> justified (es ++ l) a.
Proof.
  assert (forall id p, connections es !! Z.to_nat id = Some p -> connections (es ++ l) !! Z.to_nat id = Some p) as Hc.
  { intros id p Hp. rewrite connections_app. by apply lookup_app_l_Some. }
  destruct a as [|id []| |[]]; simpl; try done; naive_solver eauto using asked_mono.
Qed.

(** An event that leaves the connections alone keeps what was known. *)
Lemma mediated_mono es ee s :
  mediated es s -> connection_of ee = None -> mediated (es ++ [ee]) s.
Proof.
  intros [Hc Ha Ht Hp Hr] Hee. assert (connections (es ++ [ee]) = connections es) as Heq.
  { rewrite connections_app. unfold connections. simpl. by rewrite Hee, app_nil_r. }
  split; rewrite ?Heq; try done.
  - intros rid id (q & x & Hq & Hx)%Ht. exists q, x. split; [by apply asked_mono|done].
  - intros pid id (q & Hq)%Hp. exists q. by apply asked_mono.
  - intros rid id (q & x & Hq & Hx)%Hr. exists q, x. split; [by apply asked_mono|done].
Qed.

(** Changing senders, dropping applications and finished requests is harmless. *)
Lemma mediated_shrink es s s' :
  mediated es s -> app_counter s' = app_counter s ->
  (forall id a, apps s' !! id = Some a ->
     exists a0, apps s !! id = Some a0 /\ app_permissions a0 = app_permissions a) ->
  transactions s' ⊆ transactions s -> close_payment_requests s' ⊆ close_payment_requests s ->
  route_requests s' ⊆ route_requests s -> mediated es s'.
Proof.
  intros [Hc Ha Ht Hp Hr] Hcnt Happs Hts Hps Hrs. split.
  - by rewrite Hcnt.
  - intros id a (a0 & Ha0 & <-)%Happs. by apply Ha.
  - intros rid id Hl. apply Ht. by eapply lookup_weaken.
  - intros pid id Hl. apply Hp. by eapply lookup_weaken.
  - intros rid id Hl. apply Hr. by eapply lookup_weaken.
Qed.

Lemma send_to_mediated es env s id m s' acts :
  mediated es s -> justified es (ActToApp id m) -> app_send_to env s id m = (s', acts) ->
  mediated es s' /\ Forall (justified es) acts.
Proof.
  intros Hm Hj Hs. unfold app_send_to in Hs. destruct (apps s !! id) as [a|] eqn:Ha; simplify_eq/=; [|done].
  split; [|destruct (app_sender a && to_app_ok env id); [constructor; [exact Hj|]|]; constructor].
  eapply mediated_shrink; [exact Hm|done| |done..]. intros i b Hi. simpl in Hi. destruct (decide (i = id)) as [->|Hne].
  - rewrite lookup_insert_eq in Hi. simplify_eq/=. by eexists.
  - rewrite lookup_insert_ne in Hi by done. by eexists.
Qed.

Lemma broadcast_mediated es env s rm s' acts :
  mediated es s -> broadcast_node_report_mutations env s rm = (s', acts) ->
  mediated es s' /\ Forall (justified es) acts.
Proof.
  intros Hm [= <- <-]. split.
  - eapply mediated_shrink; [exact Hm|done| |done..]. intros i b Hi. simpl in Hi. rewrite map_lookup_imap in Hi.
    destruct (apps s !! i) as [a|]; simplify_eq/=. by eexists.
  - apply Forall_forall. intros a ([i b] & _ & Hb)%list_elem_of_omap. simpl in Hb. case_match; by simplify_eq.
Qed.

(** A request that passes is recorded under the application that sent it. *)
Lemma app_message_mediated es env s id rid r s' acts :
  let ee := (env, EvFromApp id (Some (mkAppToAppServer rid r))) in
  mediated es s -> handle_app_message env s id (mkAppToAppServer rid r) = Ok (s', acts) ->
  mediated (es ++ [ee]) s' /\ Forall (justified (es ++ [ee])) acts.
Proof.
  intros ee Hm. apply (mediated_mono es ee) in Hm; [|done]. unfold handle_app_message.
  destruct (check_app_permissions s id _) eqn:Hc; simpl.
  - unfold check_app_permissions in Hc. destruct (apps s !! id) as [a|] eqn:Ha; [|done]. simpl in Hc.
    destruct (md_apps _ _ Hm _ _ Ha) as [_ Hp].
    assert (asked (es ++ [ee]) id rid r) as Hq.
    { exists env, (app_permissions a). split_and!; [|done|done]. apply elem_of_app. right. by apply list_elem_of_singleton. }
    intros Hr. destruct r; unfold to_funder, to_index_client in Hr;
      destruct (to_funder_ok env), (to_index_client_ok env); simplify_eq/=;
      (split; [|constructor; [exists id; do 2 eexists; split_and!; eassumption|constructor]]); try exact Hm;
      destruct Hm as [H1 H2 H3 H4 H5]; split; simpl; try done; intros k i Hi;
      (apply lookup_insert_Some in Hi as [[<- <-]|[_ Hi]]; eauto).
  - intros [= <- <-]. split; [|constructor]. eapply mediated_shrink; [exact Hm|done| |done..].
    intros i a Hi. simpl in Hi. apply lookup_delete_Some in Hi as [_ Hi]. by eexists.
Qed.

Lemma app_server_step_mediated es env s e s' acts :
  let es' := es ++ [(env, e)] in
  mediated es s -> Z.of_nat (length (connections es')) < 2 ^ 128 ->
  app_server_step env s e = Ok (s', acts) -> mediated es' s' /\ Forall (justified es') acts.
Proof.
  intros es' Hm Hlen. destruct (connection_of (env, e)) as [p|] eqn:Hconn.
  - destruct e as [p' []| | | | | | ]; try done. injection Hconn as ->. intros [= <- <-]. split; [|by repeat constructor].
    assert (connections es' = connections es ++ [p]) as Heq by apply connections_app.
    pose proof Hm as [Hc Ha Ht Hp Hr]. rewrite Heq, length_app in Hlen. simpl in Hlen. split; simpl.
    + rewrite Heq, length_app, Hc. unfold cast_u. rewrite Z.mod_small; simpl; lia.
    + intros i a [[<- <-]|[_ Hi]]%lookup_insert_Some.
      * rewrite Hc, Heq, Nat2Z.id. split; [lia|]. by rewrite list_lookup_middle.
      * apply Ha in Hi as [Hi Hl]. split; [done|]. rewrite Heq. by apply lookup_app_l_Some.
    + intros rid id (q & x & Hq & Hx)%Ht. exists q, x. split; [by apply asked_mono|done].
    + intros pid id (q & Hq)%Hp. exists q. by apply asked_mono.
    + intros rid id (q & x & Hq & Hx)%Hr. exists q, x. split; [by apply asked_mono|done].
  - pose proof (mediated_mono es (env, e) s Hm Hconn) as Hm'.
    destruct e as [p r| |m| |m| |id o]; simpl; try done.
    + by destruct r.
    + unfold handle_incoming_connections_closed. case_bool_decide; try done. intros [= <- <-].
      split; [|constructor]. by eapply (mediated_shrink _ s); eauto.
    + destruct m as [tr|rc|frm].
      * simpl. destruct (transactions s !! _) as [id|] eqn:Hl; [|by intros [= <- <-]]. intros Hs. injection Hs as Hs.
        eapply send_to_mediated; [| |exact Hs].
        -- eapply mediated_shrink; [exact Hm'|done|by eauto| |done..]. apply delete_subseteq.
        -- destruct (md_transactions _ _ Hm' _ _ Hl) as (q & x & Hq & Hx). by exists q, (AppCreateTransaction x).
      * simpl. destruct (close_payment_requests s !! _) as [id|] eqn:Hl; [|by intros [= <- <-]]. intros Hs. injection Hs as Hs.
        eapply send_to_mediated; [| |exact Hs].
        -- eapply mediated_shrink; [exact Hm'|done|by eauto|done| |done]. apply delete_subseteq.
        -- destruct (md_closes _ _ Hm' _ _ Hl) as (q & Hq). by eexists q, _.
      * intros (s1 & out & sent & (_ & Hs1)%apply_report_mutations_ok & Hout & Hb & ->)%funder_reports_inv.
        eapply broadcast_mediated in Hb as [Hm1 Hsent].
        -- split; [exact Hm1|]. apply Forall_app. split; [|done]. eapply Forall_impl; [exact Hout|]. by intros [| | |[]].
        -- rewrite Hs1. by eapply (mediated_shrink _ s); eauto.
    + destruct m as [im|rr]; simpl.
      * destruct (apply_report_mutations s _) as [s1| |] eqn:Hap; simpl; try done. intros [= <- <-].
        apply apply_report_mutations_ok in Hap as [_ Hs1]. eapply broadcast_mediated; [|reflexivity].
        rewrite Hs1. by eapply (mediated_shrink _ s); eauto.
      * destruct (route_requests s !! _) as [id|] eqn:Hl; [|by intros [= <- <-]]. intros Hs. injection Hs as Hs.
        eapply send_to_mediated; [| |exact Hs].
        -- eapply mediated_shrink; [exact Hm'|done|by eauto|done|done|]. apply delete_subseteq.
        -- destruct (md_routes _ _ Hm' _ _ Hl) as (q & x & Hq & Hx). by exists q, (AppRequestRoutes x).
    + destruct o as [[rid r]|]; simpl; [by apply app_message_mediated|].
      destruct (apps s !! id) as [a|]; simpl; [|done]. case_match; [done|]. intros [= <- <-].
      split; [|constructor]. eapply mediated_shrink; [exact Hm'|done| |done..].
      intros i b Hi. simpl in Hi. apply lookup_delete_Some in Hi as [_ Hi]. by eexists.
Qed.

Lemma app_server_loop_mediated h s es s' acts :
  mediated h s -> Z.of_nat (length (connections (h ++ es))) < 2 ^ 128 ->
  app_server_loop s es = Ok (s', acts) -> Forall (justified (h ++ es)) acts.
Proof.
  revert h s acts. induction es as [|[env e] es IH]; intros h s acts Hm Hlen; simpl; [by intros [= <- <-]|].
  destruct (app_server_step env s e) as [[s1 acts1]| |] eqn:Hst; simpl; try done.
  destruct (app_server_loop s1 es) as [[s2 acts2]| |] eqn:Hl; simpl; try done. intros [= <- <-].
  assert (h ++ (env, e) :: es = (h ++ [(env, e)]) ++ es) as Heq by (by rewrite <- app_assoc).
  rewrite Heq in *. apply app_server_step_mediated with (es := h) in Hst as [Hm1 Hj]; [|done|].
  - apply Forall_app. split; [|by eapply IH]. eapply Forall_impl; [exact Hj|]. intros a. apply justified_mono.
  - rewrite connections_app, length_app in Hlen. lia.
Qed.
End Mediation.

(** C13. In every run of the server, a command reaches the funder or the index
    client only because a connected application with the permission for it
    asked, and a response is delivered only to an application that sent, with
    permission, a request the response answers. (Applications are numbered by
    a 128-bit counter, which must not wrap.) *)
Theorem app_requests_mediated {B : Type} (r : NodeReport B) (es : list (AsEnv * AppServerEvent B))
  (s : AppServer B) (acts : list (AppServerAction B))
  (Hlen : Z.of_nat (length (connections es)) < 2 ^ 128)
  (Hrun : app_server_loop (app_server_new r) es = Ok (s, acts)) :
  Forall (justified es) acts.
Proof. eapply (app_server_loop_mediated []); [|exact Hlen|exact Hrun]. by split. Qed.

(** An application that sends a request it has no permission for is
    dropped; when its connection then closes, the server panics, as it
    assumes that the application is still there. *)
Theorem rejected_app_stops_server {B : Type} (s : AppServer B) (env env' : AsEnv) (id : Z) (a : App)
  (m : AppToAppServer B)
  (Ha : apps s !! id = Some a) (Hp : check_request_permissions (app_permissions a) (app_request m) = false) :
  app_server_loop s [(env, EvFromApp id (Some m)); (env', EvFromApp id None)] = Panic.
Proof.
  simpl. unfold handle_app_message, check_app_permissions. rewrite Ha, Hp. simpl. by rewrite lookup_delete_eq.
Qed.

(** ** Announcements *)

(** A report of one mutation gives the index client exactly the change of what
    is announced. *)
Lemma single_report_announced {B} (r r' : FunderReport B) m o n :
  funder_report_mutate r m = Ok r' -> funder_report_to_index_client_state r = Some o ->
  funder_report_to_index_client_state r' = Some n ->
  exists ims, batch_index_mutations r [m] = Some ims /\ foldl learn (ics_friends o) ims = ics_friends n.
Proof.
  intros Hm Ho Hn. unfold batch_index_mutations, funder_report_mutation_to_index_mutation, calc_index_mutations,
    funder_report_to_index_client_state in *. simpl. rewrite Hm.
  destruct (calc_friends_info r); [|done]. destruct (calc_friends_info r'); [|done]. simplify_eq/=.
  eexists. split; [done|]. rewrite app_nil_r. apply index_mutations_learn.
Qed.

(** ** A concrete run *)
Module AppServerSamples.
Import Toy FunderSamples.

Definition all_ok : AsEnv := mkAsEnv (fun _ => true) true true.
Definition buyer : AppPermissions := mkAppPermissions true true false false.
Definition start : AppServer string :=
  app_server_new (mkNodeReport (create_report (funder_new alice []) ephemeral_new) (mkIndexClientReport [] None)).
Definition the_control : list (FunderOutgoingControl string) :=
  match run_node alice (fresh_node alice 1) payment_messages with Some (_, control) => control | None => [] end.

(** A buyer connects and asks for a payment while the funder reports. *)
Definition pay : AppToAppServer string :=
  mkAppToAppServer (uid_of Byte.x0e)
    (AppCreatePayment (mkCreatePayment (payment_of Byte.x03) (invoice_of Byte.x04) fst_currency 10 bob)).
Definition add_friend : AppToAppServer string :=
  mkAppToAppServer (uid_of Byte.x0e) (AppAddFriend (mkAddFriend bob [] "bob")).
Definition sample_events (control : list (FunderOutgoingControl string)) : list (AsEnv * AppServerEvent string) :=
  (all_ok, EvIncomingConnection buyer StreamsObtained) :: (all_ok, EvFromApp 0 (Some pay)) ::
  map (fun c => (all_ok, EvFromFunder c)) control.

Lemma sample_events_funder control : omap ev_funder (sample_events control) = control.
Proof. simpl. induction control as [|c control IH]; [done|]. simpl. by rewrite IH. Qed.

Definition final : AppServer string :=
  match app_server_loop start (sample_events the_control) with Ok (s, _) => s | _ => start end.
Definition sent : list (AppServerAction string) :=
  match app_server_loop start (sample_events the_control) with Ok (_, acts) => acts | _ => [] end.

Lemma sample_loop : app_server_loop start (sample_events the_control) = Ok (final, sent).
Proof.
  unfold final, sent. destruct (app_server_loop start (sample_events the_control)) as [[s acts]| |] eqn:E; [done|..];
    (assert (is_ok (app_server_loop start (sample_events the_control)) = true) as Hok by (by vm_compute));
    by rewrite E in Hok.
Qed.

Lemma applications_follow_funder_witness :
  exists f' e' g' comms control report,
    run_node alice (fresh_node alice 1) payment_messages = Some (f', e', g', comms, control) /\
    views ∅ sent !! 0 = Some report /\ report_matches f' (funder_report report).
Proof.
  destruct (run_node alice (fresh_node alice 1) payment_messages) as [[[[[f' e'] g'] comms] control]|] eqn:E.
  2:{ assert (bool_decide (is_Some (run_node alice (fresh_node alice 1) payment_messages)) = true) as Hs by (by vm_compute).
      by rewrite E in Hs. }
  assert (the_control = control) as Hc by (unfold the_control; by rewrite E).
  destruct (apps final !! 0) as [a|] eqn:Ha.
  2:{ assert (bool_decide (is_Some (apps final !! 0)) = true) as Hs by (by vm_compute). by rewrite Ha in Hs. }
  destruct (applications_follow_funder alice 10 16 10 _ f' _ e' _ g' _ _ _ (mkIndexClientReport [] None)
              (sample_events the_control) final sent 0 a E) as (report & Hv & Hm).
  - by rewrite sample_events_funder.
  - exact sample_loop.
  - exact Ha.
  - assert (app_sender <$> apps final !! 0 = Some true) as Hs by (by vm_compute). rewrite Ha in Hs. by injection Hs.
  - exists f', e', g', comms, control, report. split; [reflexivity|]. split; [exact Hv|exact Hm].
Defined.

Lemma app_requests_mediated_witness : Forall (justified (sample_events the_control)) sent.
Proof. eapply app_requests_mediated; [|exact sample_loop]. by vm_compute. Defined.

(** The buyer tries to add a friend, and leaves. *)
Lemma rejected_app_stops_server_witness :
  app_server_loop start
    [(all_ok, EvIncomingConnection buyer StreamsObtained); (all_ok, EvFromApp 0 (Some add_friend));
     (all_ok, EvFromApp 0 None)] = Panic.
Proof.
  assert (forall (s : AppServer string) acts es, app_server_loop s es = Panic ->
    (let? (s'', acts') := app_server_loop s es in Ok (s'', acts ++ acts')) = (Panic : outcome AppServerError _)) as Hp.
  { by intros s acts es ->. }
  apply Hp, (rejected_app_stops_server _ all_ok all_ok 0 (mkApp buyer true) add_friend); reflexivity.
Defined.
End AppServerSamples.
