(* ===== verification/IndexScenario.v ===== *)
(** * Executions of the index

    The announcements of a node that runs the funder and the application
    server, and what an index server makes of them, on concrete inputs: the
    executions behind the defects found where the components meet. *)

From S2P Require Import Prelude Arith Bytes Messages Canonical MutualCredit TokenChannel Friend FunderState Report.
From S2P Require Import Handler HandleFriend HandleControl FunderHandler Scenario IndexMessages SeqMap CapacityGraph GraphService IndexServer IndexClient IndexConvert AppServer AppServerTheory.

Local Open Scope Z_scope.

Module IndexScenario.
Import Toy FunderSamples Scenario.

(** ** Announcements of a mediator that cancels a request *)

Definition all_ok : AsEnv := mkAsEnv (fun _ => true) true true.
Definition control_of (w : network) (pk : PublicKey) : list (FunderOutgoingControl string) :=
  omap (fun p => if decide (p.1 = pk) then Some p.2 else None) (outputs w).

(** The application server of a node over all its funder said. *)
Definition serve (pk : PublicKey) (controls : list (FunderOutgoingControl string)) :
  outcome AppServerError (AppServer string * list (AppServerAction string)) :=
  app_server_loop (app_server_new (mkNodeReport (create_report (funder_new pk []) ephemeral_new) (mkIndexClientReport [] None)))
    (map (fun c => (all_ok, EvFromFunder c)) controls).

Definition index_mutations (acts : list (AppServerAction string)) : list IndexMutation :=
  concat (map (fun a => match a with ActToIndexClient (ApplyIndexMutations ms) => ms | _ => [] end) acts).

(** The capacity announced for a friend, and the one its report gives. *)
Definition capacities (w : network) (pk friend : PublicKey) (c : Currency) : option (option Z * option Z) :=
  match serve pk (control_of w pk) with
  | Ok (s, acts) =>
      let! st := funder_report_to_index_client_state (funder_report (node_report s)) in
      Some (fi_recv_capacity <$> foldl learn ∅ (index_mutations acts) !! (friend, c),
            fi_recv_capacity <$> ics_friends st !! (friend, c))
  | _ => None
  end.

(** ** The route an index server returns *)

Definition announcements (w : network) (pk : PublicKey) : list (PublicKey * IndexMutation) :=
  match serve pk (control_of w pk) with
  | Ok (_, acts) => map (fun m => (pk, m)) (index_mutations acts)
  | _ => []
  end.

Definition index_of (w : network) : outcome ServerLoopError currency_graphs :=
  ofold (fun g '(pk, m) => apply_announced pk g m) ∅
    (announcements w alice ++ announcements w bob ++ announcements w charlie).

Definition offered_route (w : network) : option (list PublicKey * Rate) :=
  match index_of w with
  | Ok gs =>
      let! g := gs !! fst_currency in
      match get_multi_route g alice charlie 10 None with
      | Ok (mkCapacityMultiRoute [r]) => Some (cr_route r, cr_rate r)
      | _ => None
      end
  | _ => None
  end.

(** ** The age of edges *)

Definition usd : Currency := mkCurrency "USD".
Definition eur : Currency := mkCurrency "EUR".
Definition friend (i : Z) : PublicKey := fixed_of_prefix 32 (be_bytes 1 i).

(** A node with one friend for dollars and [n] friends for euros. *)
Definition friends_of (n : nat) : SeqFriends :=
  foldl apply_index_mutation (sm_new ∅)
    (IndexUpdate (mkUpdateFriendCurrency (friend 0) usd 10 rate_new) ::
     map (fun i => IndexUpdate (mkUpdateFriendCurrency (friend (Z.of_nat i)) eur 10 rate_new)) (seq 1 n)).

(** The server handles a message of the node: a tick, then its mutations. *)
Definition receive (node : PublicKey) (g : currency_graphs) (ms : list IndexMutation) :
  outcome ServerLoopError currency_graphs :=
  let? g := graph_request g (GrTick node) in ofold (apply_announced node) g ms.

(** The edges of the node that are in the index after its whole state has been
    sent once: dollars and euros. *)
Definition edges_after_full_state (n : nat) : option (nat * nat) :=
  match send_full_state (fun _ => true) (friends_of n) with
  | Some (_, sent) =>
      match ofold (receive alice) ∅ sent with
      | Ok gs =>
          let edges c := match gs !! c with Some g => size (default ∅ (g !! alice)) | None => 0%nat end in
          Some (edges usd, edges eur)
      | _ => None
      end
  | None => None
  end.

(** The application server compares every mutation of a report with the
    report before the whole batch, so that a capacity that changes twice in a
    batch is announced as it was in between: after a request that a mediator
    cancels, it announces less than the ledger allows, and after a payment it
    forwarded is collected, it announces more. *)
Theorem announcements_go_stale :
  (let! w := requested 6 in capacities w bob alice fst_currency) = Some (Some 84, Some 100) /\
  (let! w := collected 7 in capacities w bob alice fst_currency) = Some (Some 100, Some 83).
Proof. split; by vm_compute. Qed.

(** The rate an index server computes for a route adds the rates its nodes
    announced for the next hop, but a mediator charges the rate it announced
    for the previous one: the route through Bob is offered for free, while Bob
    cancels every request with less than 7 credits of fees. *)
Theorem offered_rate_misses_fee :
  (let! w := connected in let! r := offered_route w in
   Some (bool_decide (r.1 = [alice; bob; charlie]), r.2)) = Some (true, rate_new) /\
  calc_fee rate_new 10 = Some 0 /\ calc_fee bob_rate 10 = Some 7 /\
  (fun w => balance_with w charlie bob fst_currency) <$> requested 6 = Some (Some (0, 0, 0)) /\
  (fun w => balance_with w charlie bob fst_currency) <$> requested 7 = Some (Some (0, 0, 10)).
Proof. split_and!; by vm_compute. Qed.

(** The age at which an edge expires depends on the number of edges of its
    currency, but the node announces the edges of all currencies in one cycle:
    a node with one friend for dollars and 20 for euros is dropped from the
    index of dollars before it has announced its whole state. *)
Theorem edge_expires_while_announced :
  edges_after_full_state 10 = Some (1, 10)%nat /\ edges_after_full_state 20 = Some (0, 20)%nat.
Proof. split; by vm_compute. Qed.
End IndexScenario.
