(* ===== verification/SecureChannel.v ===== *)
(** * The secure channel

    Models [crypto/src/sym_encrypt.rs], [crypto/src/dh.rs],
    [secure_channel/src/state.rs] and [secure_channel/src/secure_channel.rs]:
    two sides exchange random nonces and signed Diffie-Hellman keys, then
    encrypt their messages with counters as nonces, and change keys from time
    to time.

    x25519, HKDF, ChaCha20-Poly1305 and the Cap'n Proto encoding are
    third-party or generated code: they are the operations of [ScCryptoOps] and
    [ProtoSerialize], and what the channel relies on are the classes
    [ScCryptoLaws] and [ProtoSerializeLaws]. *)

From S2P Require Import Prelude Arith Bytes Canonical Handler.

Local Open Scope Z_scope.

Notation Salt := (fixed_bytes 32).
Notation DhPublicKey := (fixed_bytes 32).
Notation SymmetricKey := (fixed_bytes 32).

(** ** The interface to cryptography and encodings *)

Class ScCryptoOps `{RngOps} : Type := {
  DhPrivateKey : Type;
  (** [x25519_dalek::EphemeralSecret::new] *)
  dh_private_key_new : rng -> DhPrivateKey * rng;
  compute_public_key : DhPrivateKey -> DhPublicKey;
  diffie_hellman : DhPrivateKey -> DhPublicKey -> bytes;
  (** [Hkdf::new(Some(salt), secret).expand(&[], key)] *)
  hkdf_sha512_256 : Salt -> bytes -> SymmetricKey;
  chacha_encrypt : SymmetricKey -> bytes -> bytes -> option bytes;
  chacha_decrypt : SymmetricKey -> bytes -> bytes -> option bytes
}.

Class ScCryptoLaws `{ScCryptoOps} : Prop := {
  diffie_hellman_agree a b :
    diffie_hellman a (compute_public_key b) = diffie_hellman b (compute_public_key a);
  chacha_round_trip key nonce plain cipher :
    chacha_encrypt key nonce plain = Some cipher -> chacha_decrypt key nonce cipher = Some plain
}.

(** [ProtoSerialize] and [ProtoDeserialize] *)
Class ProtoSerialize (A : Type) : Type := {
  proto_serialize : A -> bytes;
  proto_deserialize : bytes -> option A
}.
Class ProtoSerializeLaws (A : Type) `{ProtoSerialize A} : Prop := {
  proto_round_trip (x : A) : proto_deserialize (proto_serialize x) = Some x
}.

(** ** Messages ([proto/src/secure_channel/messages.rs]) *)

Record ExchangeRandNonce := mkExchangeRandNonce {
  ern_rand_nonce : RandValue;
  ern_src_public_key : PublicKey;
  ern_opt_dest_public_key : option PublicKey
}.

Record ExchangeDh := mkExchangeDh {
  ed_dh_public_key : DhPublicKey;
  ed_rand_nonce : RandValue;
  ed_key_salt : Salt;
  ed_signature : Signature
}.

Definition signature_buffer (e : ExchangeDh) : bytes :=
  as_bytes (ed_dh_public_key e) ++ as_bytes (ed_rand_nonce e) ++ as_bytes (ed_key_salt e).

Record Rekey := mkRekey { rk_dh_public_key : DhPublicKey; rk_key_salt : Salt }.

Inductive ChannelContent :=
| ContentRekey (r : Rekey)
| ContentUser (data : bytes).

Record ChannelMessage := mkChannelMessage { cm_rand_padding : bytes; cm_content : ChannelContent }.

(** ** Symmetric encryption ([crypto/src/sym_encrypt.rs]) *)

Definition ENC_NONCE_LEN : nat := 12.

(** [increase_nonce]: the loop over the bytes, with the carry [c]. *)
Fixpoint increase_nonce_from (c : Z) (nonce : bytes) : bytes :=
  match nonce with
  | [] => []
  | i :: rest =>
      let c := c + Z.of_N (Byte.to_N i) in
      byte_of_Z c :: increase_nonce_from (Z.shiftr c 8) rest
  end.
Definition increase_nonce (nonce : bytes) : bytes := increase_nonce_from 1 nonce.

(** [EncryptNonceCounter] *)
Definition nonce_counter_new : bytes := replicate ENC_NONCE_LEN Byte.x00.
Definition next_nonce (counter : bytes) : bytes * bytes := (counter, increase_nonce counter).

Record Encryptor := mkEncryptor { en_key : SymmetricKey; en_nonce_counter : bytes }.
Record Decryptor := mkDecryptor { de_key : SymmetricKey; de_nonce_counter : bytes }.
Definition encryptor_new (key : SymmetricKey) : Encryptor := mkEncryptor key nonce_counter_new.
Definition decryptor_new (key : SymmetricKey) : Decryptor := mkDecryptor key nonce_counter_new.

Section SymEncrypt.
Context `{ScCryptoOps}.

Definition encrypt (e : Encryptor) (plain_msg : bytes) : outcome unit (Encryptor * bytes) :=
  let (nonce, counter) := next_nonce (en_nonce_counter e) in
  let? raw_ciphertext := ok_or (chacha_encrypt (en_key e) nonce plain_msg) tt in
  Ok (mkEncryptor (en_key e) counter, nonce ++ raw_ciphertext).

(** The slice [cipher_msg[..ENC_NONCE_LEN]] of a shorter message panics. *)
Definition decrypt (d : Decryptor) (cipher_msg : bytes) : outcome unit (Decryptor * bytes) :=
  if (length cipher_msg <? ENC_NONCE_LEN)%nat then Panic
  else
    let enc_nonce := take ENC_NONCE_LEN cipher_msg in
    if decide (enc_nonce = de_nonce_counter d) then
      let? plain := ok_or (chacha_decrypt (de_key d) enc_nonce (drop ENC_NONCE_LEN cipher_msg)) tt in
      Ok (mkDecryptor (de_key d) (snd (next_nonce (de_nonce_counter d))), plain)
    else Err tt.

(** ** Diffie-Hellman ([crypto/src/dh.rs]) *)

Definition derive_symmetric_key (k : DhPrivateKey) (remote : DhPublicKey) (send_salt recv_salt : Salt) :
  SymmetricKey * SymmetricKey :=
  let shared_secret := diffie_hellman k remote in
  (hkdf_sha512_256 send_salt shared_secret, hkdf_sha512_256 recv_salt shared_secret).
End SymEncrypt.

(** ** The state of the channel ([secure_channel/src/state.rs]) *)

Inductive ScStateError :=
| UnexpectedRemotePublicKey | IncorrectRandNonce | InvalidSignature | DecryptionFailure
| ScProtoSerializeError | RekeyInProgress.

Definition MAX_RAND_PADDING : Z := 256.

Record ScStateInitial := mkScStateInitial {
  si_local_public_key : PublicKey;
  si_opt_remote_public_key : option PublicKey;
  si_local_rand_nonce : RandValue
}.

Section State.
Context `{ScCryptoOps} `{CryptoOps} `{ProtoSerialize ChannelMessage}.

Record ScStateHalf := mkScStateHalf {
  sh_remote_public_key : PublicKey;
  sh_local_public_key : PublicKey;
  sh_local_rand_nonce : RandValue;
  sh_dh_private_key : DhPrivateKey;
  sh_local_salt : Salt
}.

Record PendingRekey := mkPendingRekey { pr_local_dh_private_key : DhPrivateKey; pr_local_salt : Salt }.

Record ScState := mkScState {
  sc_local_public_key : PublicKey;
  sc_remote_public_key : PublicKey;
  sc_sender : Encryptor;
  sc_receiver : Decryptor;
  sc_opt_old_receiver : option Decryptor;
  sc_opt_pending_rekey : option PendingRekey
}.

Definition with_sender (s : ScState) (e : Encryptor) : ScState :=
  mkScState (sc_local_public_key s) (sc_remote_public_key s) e (sc_receiver s) (sc_opt_old_receiver s)
    (sc_opt_pending_rekey s).
Definition with_receivers (s : ScState) (d : Decryptor) (old : option Decryptor) : ScState :=
  mkScState (sc_local_public_key s) (sc_remote_public_key s) (sc_sender s) d old (sc_opt_pending_rekey s).
Definition with_pending_rekey (s : ScState) (p : option PendingRekey) : ScState :=
  mkScState (sc_local_public_key s) (sc_remote_public_key s) (sc_sender s) (sc_receiver s)
    (sc_opt_old_receiver s) p.

(** [ScStateInitial::new] *)
Definition sc_state_initial_new (local_public_key : PublicKey) (opt_remote_public_key : option PublicKey)
    (g : rng) : ScStateInitial * ExchangeRandNonce * rng :=
  let (local_rand_nonce, g) := rng_fill 16 g in
  (mkScStateInitial local_public_key opt_remote_public_key local_rand_nonce,
   mkExchangeRandNonce local_rand_nonce local_public_key opt_remote_public_key, g).

Definition zero_signature : Signature := fixed_of_prefix 64 [].

Definition handle_exchange_rand_nonce (s : ScStateInitial) `{!SignerOps (si_local_public_key s)}
    (m : ExchangeRandNonce) (g : rng) : outcome ScStateError (ScStateHalf * ExchangeDh * rng) :=
  let? _ :=
    match si_opt_remote_public_key s with
    | Some expected => guard_or (bool_decide (expected = ern_src_public_key m)) UnexpectedRemotePublicKey
    | None => Ok tt
    end in
  let (dh_private_key, g) := dh_private_key_new g in
  let dh_public_key := compute_public_key dh_private_key in
  let (local_salt, g) := rng_fill 32 g in
  let half := mkScStateHalf (ern_src_public_key m) (si_local_public_key s) (si_local_rand_nonce s)
                dh_private_key local_salt in
  let unsigned := mkExchangeDh dh_public_key (ern_rand_nonce m) local_salt zero_signature in
  Ok (half, mkExchangeDh dh_public_key (ern_rand_nonce m) local_salt
              (request_signature (signature_buffer unsigned)), g).

Definition verify_exchange_dh (s : ScStateHalf) (m : ExchangeDh) : outcome ScStateError unit :=
  let? _ := guard_or (bool_decide (sh_local_rand_nonce s = ed_rand_nonce m)) IncorrectRandNonce in
  guard_or (verify_signature (signature_buffer m) (sh_remote_public_key s) (ed_signature m)) InvalidSignature.

Definition handle_exchange_dh (s : ScStateHalf) (m : ExchangeDh) : outcome ScStateError ScState :=
  let? _ := verify_exchange_dh s m in
  let (send_key, recv_key) :=
    derive_symmetric_key (sh_dh_private_key s) (ed_dh_public_key m) (sh_local_salt s) (ed_key_salt m) in
  Ok (mkScState (sh_local_public_key s) (sh_remote_public_key s) (encryptor_new send_key)
        (decryptor_new recv_key) None None).

(** [gen_rand_padding]: the length is any 16-bit number. *)
Definition gen_rand_padding (g : rng) : bytes * rng :=
  let (len_bytes, g) := rng_fill 2 g in
  let padding_len := match as_bytes len_bytes with
                     | [a; b] => (N.to_nat (Byte.to_N a) * 256 + N.to_nat (Byte.to_N b))%nat
                     | _ => 0%nat
                     end in
  let (rand_padding, g) := rng_fill padding_len g in (as_bytes rand_padding, g).

(** [encrypt_outgoing]: [None] is the panic of a failed encryption. *)
Definition encrypt_outgoing (s : ScState) (content : ChannelContent) (g : rng) : option (ScState * bytes * rng) :=
  let (rand_padding, g) := gen_rand_padding g in
  match encrypt (sc_sender s) (proto_serialize (mkChannelMessage rand_padding content)) with
  | Ok (e, data) => Some (with_sender s e, data, g)
  | _ => None
  end.

Definition try_decrypt (s : ScState) (enc_data : bytes) : outcome ScStateError (ScState * bytes) :=
  match sc_opt_old_receiver s with
  | Some old_receiver =>
      match decrypt old_receiver enc_data with
      | Ok (old_receiver', data) => Ok (with_receivers s (sc_receiver s) (Some old_receiver'), data)
      | Panic => Panic
      | Err _ =>
          let? (d, data) := map_err (fun _ => DecryptionFailure) (decrypt (sc_receiver s) enc_data) in
          Ok (with_receivers s d None, data)
      end
  | None =>
      let? (d, data) := map_err (fun _ => DecryptionFailure) (decrypt (sc_receiver s) enc_data) in
      Ok (with_receivers s d None, data)
  end.

Definition decrypt_incoming (s : ScState) (enc_data : bytes) : outcome ScStateError (ScState * ChannelContent) :=
  let? (s, data) := try_decrypt s enc_data in
  let? channel_message := ok_or (proto_deserialize data) ScProtoSerializeError in
  Ok (s, cm_content channel_message).

Definition create_outgoing (s : ScState) (plain_data : bytes) (g : rng) : option (ScState * bytes * rng) :=
  encrypt_outgoing s (ContentUser plain_data) g.

Definition create_rekey (s : ScState) (g : rng) : outcome ScStateError (ScState * bytes * rng) :=
  match sc_opt_pending_rekey s with
  | Some _ => Err RekeyInProgress
  | None =>
      let (dh_private_key, g) := dh_private_key_new g in
      let (local_salt, g) := rng_fill 32 g in
      let s := with_pending_rekey s (Some (mkPendingRekey dh_private_key local_salt)) in
      unwrap (encrypt_outgoing s (ContentRekey (mkRekey (compute_public_key dh_private_key) local_salt)) g)
  end.

Record HandleIncomingOutput := mkHandleIncomingOutput {
  hi_rekey_occurred : bool;
  hi_opt_send_message : option bytes;
  hi_opt_incoming_message : option bytes
}.

Definition handle_incoming_rekey (s : ScState) (r : Rekey) (g : rng) :
  outcome ScStateError (ScState * HandleIncomingOutput * rng) :=
  match sc_opt_pending_rekey s with
  | None =>
      let (dh_private_key, g) := dh_private_key_new g in
      let (local_salt, g) := rng_fill 32 g in
      let dh_public_key := compute_public_key dh_private_key in
      let (send_key, recv_key) :=
        derive_symmetric_key dh_private_key (rk_dh_public_key r) local_salt (rk_key_salt r) in
      let s := with_receivers s (decryptor_new recv_key) (Some (sc_receiver s)) in
      let? (s, rekey_data, g) := unwrap (encrypt_outgoing s (ContentRekey (mkRekey dh_public_key local_salt)) g) in
      Ok (with_sender s (encryptor_new send_key), mkHandleIncomingOutput true (Some rekey_data) None, g)
  | Some pending_rekey =>
      let s := with_pending_rekey s None in
      let (send_key, recv_key) :=
        derive_symmetric_key (pr_local_dh_private_key pending_rekey) (rk_dh_public_key r)
          (pr_local_salt pending_rekey) (rk_key_salt r) in
      let s := with_sender s (encryptor_new send_key) in
      let s := with_receivers s (decryptor_new recv_key) (Some (sc_receiver s)) in
      Ok (s, mkHandleIncomingOutput true None None, g)
  end.

Definition handle_incoming (s : ScState) (enc_data : bytes) (g : rng) :
  outcome ScStateError (ScState * HandleIncomingOutput * rng) :=
  let? (s, content) := decrypt_incoming s enc_data in
  match content with
  | ContentRekey rekey => handle_incoming_rekey s rekey g
  | ContentUser data => Ok (s, mkHandleIncomingOutput false None (Some data), g)
  end.
End State.

(** ** The tasks ([secure_channel/src/secure_channel.rs]) *)

Inductive SecureChannelError :=
| ScWriterError | ScReaderClosed | ScMessageError
| HandleExchangeRandNonceError (e : ScStateError) | HandleExchangeScStateError (e : ScStateError)
| ScUnexpectedRemotePublicKey | HandleIncomingError.

Inductive SecureChannelEvent :=
| ScReader (data : bytes)
| ScUser (data : bytes)
| ScTimerTick
| ScReceiverClosed.

(** What the loop sends: to the other side, or to the user. *)
Inductive SecureChannelAction := ScWrite (data : bytes) | ScToUser (data : bytes).

Section Tasks.
Context `{ScCryptoOps} `{CryptoOps} `{ProtoSerialize ChannelMessage}.
Context `{ProtoSerialize ExchangeRandNonce} `{ProtoSerialize ExchangeDh}.

(** [reader.next()] *)
Definition reader_next (reader : list bytes) : outcome SecureChannelError (bytes * list bytes) :=
  match reader with [] => Err ScReaderClosed | m :: rest => Ok (m, rest) end.
Definition writer_send (ok : bool) : outcome SecureChannelError unit := guard_or ok ScWriterError.

(** [initial_exchange]: the two messages it writes, given what it reads. *)
Definition initial_exchange (local_public_key : PublicKey) `{!SignerOps local_public_key}
    (opt_expected_remote : option PublicKey) (writer_ok : bool * bool) (reader : list bytes) (g : rng) :
  outcome SecureChannelError (ScState * list bytes * list bytes) :=
  let '(initial, exchange_rand_nonce, g) := sc_state_initial_new local_public_key opt_expected_remote g in
  let first := proto_serialize exchange_rand_nonce in
  let? _ := writer_send (fst writer_ok) in
  let? (reader_message, reader) := reader_next reader in
  let? exchange_rand_nonce := ok_or (proto_deserialize reader_message) ScMessageError in
  let? (half, exchange_dh, _) :=
    map_err HandleExchangeRandNonceError
      (handle_exchange_rand_nonce (mkScStateInitial local_public_key (si_opt_remote_public_key initial)
                                     (si_local_rand_nonce initial)) exchange_rand_nonce g) in
  let? _ :=
    match opt_expected_remote with
    | Some expected => guard_or (bool_decide (expected = sh_remote_public_key half)) ScUnexpectedRemotePublicKey
    | None => Ok tt
    end in
  let second := proto_serialize exchange_dh in
  let? _ := writer_send (snd writer_ok) in
  let? (reader_message, reader) := reader_next reader in
  let? exchange_dh := ok_or (proto_deserialize reader_message) ScMessageError in
  let? dh_state := map_err HandleExchangeScStateError (handle_exchange_dh half exchange_dh) in
  Ok (dh_state, [first; second], reader).

Record ScLoop := mkScLoop { sl_dh_state : ScState; sl_cur_ticks_to_rekey : nat; sl_rng : rng }.

(** One turn of [secure_channel_loop]; [None] in the result is the end of the
    loop, [send_ok] whether what the turn sends can be delivered. *)
Definition secure_channel_step (ticks_to_rekey : nat) (send_ok : bool) (s : ScLoop) (e : SecureChannelEvent) :
  outcome SecureChannelError (option ScLoop * list SecureChannelAction) :=
  match e with
  | ScReader data =>
      let? (dh_state, out, g) :=
        map_err (fun _ => HandleIncomingError) (handle_incoming (sl_dh_state s) data (sl_rng s)) in
      let ticks := if hi_rekey_occurred out then ticks_to_rekey else sl_cur_ticks_to_rekey s in
      let sent := match hi_opt_send_message out with Some m => [ScWrite m] | None => [] end ++
                  match hi_opt_incoming_message out with Some m => [ScToUser m] | None => [] end in
      let? _ := match sent with [] => Ok tt | _ => writer_send send_ok end in
      Ok (Some (mkScLoop dh_state ticks g), sent)
  | ScUser data =>
      let? (dh_state, enc_data, g) := unwrap (create_outgoing (sl_dh_state s) data (sl_rng s)) in
      let? _ := writer_send send_ok in
      Ok (Some (mkScLoop dh_state (sl_cur_ticks_to_rekey s) g), [ScWrite enc_data])
  | ScTimerTick =>
      match sl_cur_ticks_to_rekey s with
      | S new_cur_ticks => Ok (Some (mkScLoop (sl_dh_state s) new_cur_ticks (sl_rng s)), [])
      | O =>
          match create_rekey (sl_dh_state s) (sl_rng s) with
          | Ok (dh_state, enc_data, g) =>
              let? _ := writer_send send_ok in
              Ok (Some (mkScLoop dh_state ticks_to_rekey g), [ScWrite enc_data])
          | Err RekeyInProgress => Ok (Some s, [])
          | _ => Panic
          end
      end
  | ScReceiverClosed => Ok (None, [])
  end.
End Tasks.
