(* ===== verification/SecureChannelTheory.v ===== *)
(** * The secure channel is a pair of queues

    Two honest sides of [SecureChannel]: the handshake ends with the same keys
    on both sides and with the identity of the other side, and from there, for
    any interleaving of messages of the users, changes of keys and deliveries,
    every message that arrives is accepted, and each user receives what the
    other sent, in order. *)

From S2P Require Import Prelude Arith Bytes Canonical Handler FunderHandler SecureChannel.

Local Open Scope Z_scope.

(** ** Nonces count *)

(** A number as little-endian bytes. *)
Fixpoint le_bytes (n : nat) (z : Z) : bytes :=
  match n with
  | O => []
  | S n' => byte_of_Z z :: le_bytes n' (Z.shiftr z 8)
  end.

Definition nonce_of (z : Z) : bytes := le_bytes ENC_NONCE_LEN z.

Lemma le_bytes_length n z : length (le_bytes n z) = n.
Proof. revert z. induction n as [|n IH]; intros z; simpl; [done|]. by rewrite IH. Qed.

Lemma Z_of_byte_of_Z z : Z.of_N (Byte.to_N (byte_of_Z z)) = z mod 256.
Proof.
  unfold byte_of_Z. pose proof (Z.mod_pos_bound z 256 ltac:(lia)) as Hb.
  destruct (Byte.of_N (Z.to_N (z mod 256))) as [b|] eqn:Hof; simpl.
  - apply Byte.to_of_N in Hof. rewrite Hof. lia.
  - apply Byte.of_N_None_iff in Hof. lia.
Qed.

Lemma byte_of_Z_mod a b : a mod 256 = b mod 256 -> byte_of_Z a = byte_of_Z b.
Proof. unfold byte_of_Z. by intros ->. Qed.

Lemma increase_nonce_from_le n c z : increase_nonce_from c (le_bytes n z) = le_bytes n (z + c).
Proof.
  revert c z. induction n as [|n IH]; intros c z; simpl; [done|]. rewrite Z_of_byte_of_Z. f_equal.
  - apply byte_of_Z_mod. rewrite Z.add_mod_idemp_r by lia. f_equal. lia.
  - rewrite IH. f_equal. rewrite !Z.shiftr_div_pow2 by lia. change (2 ^ 8) with 256.
    rewrite (Z.div_mod z 256) at 3 by lia. rewrite Z.mul_comm, <- Z.add_assoc, Z.div_add_l by lia. f_equal. f_equal. lia.
Qed.

Lemma increase_nonce_of z : increase_nonce (nonce_of z) = nonce_of (z + 1).
Proof. apply increase_nonce_from_le. Qed.

Lemma le_bytes_inj n a b :
  0 <= a < 2 ^ (8 * Z.of_nat n) -> 0 <= b < 2 ^ (8 * Z.of_nat n) -> le_bytes n a = le_bytes n b -> a = b.
Proof.
  revert a b. induction n as [|n IH]; intros a b Ha Hb; simpl; [simpl in *; lia|].
  intros [= Hh Ht]. apply byte_of_Z_inj in Hh.
  assert (2 ^ (8 * Z.of_nat (S n)) = 256 * 2 ^ (8 * Z.of_nat n)) as Hp.
  { rewrite <- (Z.pow_add_r 2 8) by lia. f_equal. lia. }
  rewrite Hp in *. apply IH in Ht; rewrite ?Z.shiftr_div_pow2 in * by lia; change (2 ^ 8) with 256 in *.
  - rewrite (Z.div_mod a 256), (Z.div_mod b 256), Hh, Ht by lia. done.
  - split; [apply Z.div_pos; lia|]. apply Z.div_lt_upper_bound; lia.
  - split; [apply Z.div_pos; lia|]. apply Z.div_lt_upper_bound; lia.
Qed.

Lemma nonce_of_inj a b : 0 <= a < 2 ^ 96 -> 0 <= b < 2 ^ 96 -> nonce_of a = nonce_of b -> a = b.
Proof. apply (le_bytes_inj ENC_NONCE_LEN). Qed.

Lemma nonce_counter_new_of : nonce_counter_new = nonce_of 0.
Proof. reflexivity. Qed.

Section Pair.
Context `{ScCryptoOps} `{!ScCryptoLaws} `{CryptoOps} `{ProtoSerialize ChannelMessage} `{!ProtoSerializeLaws ChannelMessage}.

(** ** Sequences of encrypted messages *)

(** [sealed key n contents msgs n']: the messages carry the contents under the
    key, with the nonces [n], ..., [n' - 1]. *)
Inductive sealed (key : SymmetricKey) : Z -> list ChannelContent -> list bytes -> Z -> Prop :=
| sealed_nil n : sealed key n [] [] n
| sealed_cons n c cs pad raw msgs n' :
    chacha_encrypt key (nonce_of n) (proto_serialize (mkChannelMessage pad c)) = Some raw ->
    sealed key (n + 1) cs msgs n' ->
    sealed key n (c :: cs) ((nonce_of n ++ raw) :: msgs) n'.

Lemma sealed_le key n cs msgs n' : sealed key n cs msgs n' -> n <= n'.
Proof. induction 1; lia. Qed.

Lemma sealed_snoc key n cs msgs n' c pad raw :
  sealed key n cs msgs n' ->
  chacha_encrypt key (nonce_of n') (proto_serialize (mkChannelMessage pad c)) = Some raw ->
  sealed key n (cs ++ [c]) (msgs ++ [nonce_of n' ++ raw]) (n' + 1).
Proof.
  induction 1 as [n|n c' cs pad' raw' msgs n' Hc Hs IH]; intros Hr; simpl; [|by econstructor; eauto].
  econstructor; [done|constructor].
Qed.

Definition dec (key : SymmetricKey) (n : Z) : Decryptor := mkDecryptor key (nonce_of n).
Definition enc (key : SymmetricKey) (n : Z) : Encryptor := mkEncryptor key (nonce_of n).

Lemma split_nonce n raw :
  (length (nonce_of n ++ raw) <? ENC_NONCE_LEN)%nat = false /\
  take ENC_NONCE_LEN (nonce_of n ++ raw) = nonce_of n /\ drop ENC_NONCE_LEN (nonce_of n ++ raw) = raw.
Proof.
  pose proof (le_bytes_length ENC_NONCE_LEN n) as Hl. unfold nonce_of in *. split_and!.
  - apply Nat.ltb_ge. rewrite length_app. lia.
  - by apply take_app_length'.
  - by apply drop_app_length'.
Qed.

(** The receiver accepts the next message, and refuses one with another nonce. *)
Lemma decrypt_next key n c pad raw :
  chacha_encrypt key (nonce_of n) (proto_serialize (mkChannelMessage pad c)) = Some raw ->
  decrypt (dec key n) (nonce_of n ++ raw) = Ok (dec key (n + 1), proto_serialize (mkChannelMessage pad c)).
Proof.
  intros Hr. destruct (split_nonce n raw) as (Hl & Ht & Hd). unfold decrypt. rewrite Hl, Ht, Hd. simpl.
  rewrite decide_True by done. erewrite chacha_round_trip by exact Hr. simpl. by rewrite increase_nonce_of.
Qed.

Lemma decrypt_other key n n' raw :
  0 <= n < 2 ^ 96 -> 0 <= n' < 2 ^ 96 -> n <> n' -> decrypt (dec key n') (nonce_of n ++ raw) = Err tt.
Proof.
  intros Hn Hn' Hne. destruct (split_nonce n raw) as (Hl & Ht & Hd). unfold decrypt. rewrite Hl, Ht. simpl.
  rewrite decide_False; [done|]. intros Heq. apply Hne. by apply nonce_of_inj.
Qed.

(** ** One direction *)

(** Who has already changed to the next keys. *)
Inductive phase := Same | SenderAhead (key : SymmetricKey) | ReceiverAhead.

(** The messages on their way from a sender to a receiver: first those for the
    receiver's previous key, then those for its current key, then those for a
    key it does not have yet. [T] bounds the nonces. *)
Record flow (T : Z) (ph : phase) (snd : Encryptor) (old : option Decryptor) (rcv : Decryptor)
  (c0 c1 c2 : list ChannelContent) (msgs : list bytes) : Prop := mkFlow {
  fl_parts : exists m0 m1 m2 k kr nr n1,
    msgs = m0 ++ m1 ++ m2 /\ rcv = dec kr nr /\ 0 <= nr /\ sealed kr nr c1 m1 n1 /\ n1 <= T /\
    ((old = None /\ c0 = [] /\ m0 = [] /\ ph <> ReceiverAhead) \/
     (exists ko no, old = Some (dec ko no) /\ 1 <= no /\ nr = 0 /\ sealed ko no c0 m0 k /\ k <= T /\
        (ph = ReceiverAhead -> snd = enc ko k))) /\
    match ph with
    | Same => c2 = [] /\ m2 = [] /\ snd = enc kr n1
    | SenderAhead kn => exists ns, sealed kn 0 c2 m2 ns /\ ns <= T /\ snd = enc kn ns
    | ReceiverAhead => c1 = [] /\ m1 = [] /\ c2 = [] /\ m2 = []
    end
}.

(** Where a new message goes. *)
Definition push0 (ph : phase) (c : ChannelContent) (c0 : list ChannelContent) :=
  match ph with ReceiverAhead => c0 ++ [c] | _ => c0 end.
Definition push1 (ph : phase) (c : ChannelContent) (c1 : list ChannelContent) :=
  match ph with Same => c1 ++ [c] | _ => c1 end.
Definition push2 (ph : phase) (c : ChannelContent) (c2 : list ChannelContent) :=
  match ph with SenderAhead _ => c2 ++ [c] | _ => c2 end.

Lemma encrypt_outgoing_inv (s s' : ScState) c g m g' :
  encrypt_outgoing s c g = Some (s', m, g') ->
  exists pad raw, chacha_encrypt (en_key (sc_sender s)) (en_nonce_counter (sc_sender s))
      (proto_serialize (mkChannelMessage pad c)) = Some raw /\
    m = en_nonce_counter (sc_sender s) ++ raw /\
    s' = with_sender s (mkEncryptor (en_key (sc_sender s)) (increase_nonce (en_nonce_counter (sc_sender s)))).
Proof.
  unfold encrypt_outgoing, encrypt. destruct (gen_rand_padding g) as [pad g1]. simpl.
  destruct (chacha_encrypt _ _ _) as [raw|] eqn:Hr; simpl; [|done]. intros [= <- <- <-]. eauto.
Qed.

Lemma flow_send T ph (s s' : ScState) old rcv c0 c1 c2 msgs c g m g' :
  flow T ph (sc_sender s) old rcv c0 c1 c2 msgs -> encrypt_outgoing s c g = Some (s', m, g') ->
  flow (T + 1) ph (sc_sender s') old rcv (push0 ph c c0) (push1 ph c c1) (push2 ph c c2) (msgs ++ [m]).
Proof.
  intros [(m0 & m1 & m2 & k & kr & nr & n1 & -> & -> & Hnr & Hs1 & Hn1 & Hold & Hph)] Henc.
  apply encrypt_outgoing_inv in Henc as (pad & raw & Hr & -> & ->). split. destruct ph as [|kn|]; simpl in *.
  - destruct Hph as (-> & -> & Hsnd). rewrite Hsnd in *. simpl in *.
    exists m0, (m1 ++ [nonce_of n1 ++ raw]), [], k, kr, nr, (n1 + 1). rewrite increase_nonce_of.
    split_and!; try done; [by rewrite !app_nil_r, <- app_assoc|by eapply sealed_snoc|lia|].
    destruct Hold as [?|(ko & no & -> & ? & ? & ? & ? & ?)]; [by left|]. right. exists ko, no. split_and!; (done || lia).
  - destruct Hph as (ns & Hs2 & Hns & Hsnd). rewrite Hsnd in *. simpl in *.
    exists m0, m1, (m2 ++ [nonce_of ns ++ raw]), k, kr, nr, n1. rewrite increase_nonce_of.
    split_and!; try done; [by rewrite <- !app_assoc|lia| |].
    + destruct Hold as [?|(ko & no & -> & ? & ? & ? & ? & ?)]; [by left|]. right. exists ko, no. split_and!; (done || lia).
    + exists (ns + 1). split_and!; [by eapply sealed_snoc|lia|done].
  - destruct Hph as (-> & -> & -> & ->). destruct Hold as [(_ & _ & _ & ?)|(ko & no & -> & Hno & -> & Hs0 & Hk & Hsnd)]; [done|].
    specialize (Hsnd eq_refl). rewrite Hsnd in *. simpl in *.
    exists (m0 ++ [nonce_of k ++ raw]), [], [], (k + 1), kr, 0, n1. rewrite increase_nonce_of.
    split_and!; try done; [by rewrite !app_nil_r|lia|]. right. exists ko, no.
    split_and!; [done|done|done|by eapply sealed_snoc|lia|done].
Qed.

(** The next message is accepted: by the previous receiver, or by the current
    one, which then forgets the previous one. *)
Lemma decrypt_with_old (s : ScState) ko no c pad raw :
  sc_opt_old_receiver s = Some (dec ko no) ->
  chacha_encrypt ko (nonce_of no) (proto_serialize (mkChannelMessage pad c)) = Some raw ->
  decrypt_incoming s (nonce_of no ++ raw) = Ok (with_receivers s (sc_receiver s) (Some (dec ko (no + 1))), c).
Proof.
  intros Ho Hr. unfold decrypt_incoming, try_decrypt. rewrite Ho, (decrypt_next _ _ _ _ _ Hr). simpl.
  by rewrite proto_round_trip.
Qed.

Lemma decrypt_with_current (s : ScState) kr nr c pad raw :
  sc_receiver s = dec kr nr -> 0 <= nr < 2 ^ 96 ->
  match sc_opt_old_receiver s with
  | None => True
  | Some o => exists ko no, o = dec ko no /\ 0 <= no < 2 ^ 96 /\ no <> nr
  end ->
  chacha_encrypt kr (nonce_of nr) (proto_serialize (mkChannelMessage pad c)) = Some raw ->
  decrypt_incoming s (nonce_of nr ++ raw) = Ok (with_receivers s (dec kr (nr + 1)) None, c).
Proof.
  intros Hs Hnr Ho Hr. unfold decrypt_incoming, try_decrypt. rewrite Hs.
  destruct (sc_opt_old_receiver s) as [o|]; [destruct Ho as (ko & no & -> & Hno & Hne)|].
  - rewrite decrypt_other by done. rewrite (decrypt_next _ _ _ _ _ Hr). simpl. by rewrite proto_round_trip.
  - rewrite (decrypt_next _ _ _ _ _ Hr). simpl. by rewrite proto_round_trip.
Qed.

Lemma flow_deliver T ph sdr (s : ScState) c0 c1 c2 m msgs :
  flow T ph sdr (sc_opt_old_receiver s) (sc_receiver s) c0 c1 c2 (m :: msgs) -> T < 2 ^ 96 ->
  ((exists k, ph = SenderAhead k) -> c1 <> []) ->
  exists c d old, decrypt_incoming s m = Ok (with_receivers s d old, c) /\
    ((exists c0', c0 = c :: c0' /\ d = sc_receiver s /\ flow T ph sdr old d c0' c1 c2 msgs) \/
     (exists c1' kr n, c0 = [] /\ c1 = c :: c1' /\ old = None /\ d = dec kr n /\ 1 <= n <= T /\ ph <> ReceiverAhead /\
        flow T ph sdr None d [] c1' c2 msgs)).
Proof.
  intros [(m0 & m1 & m2 & k & kr & nr & n1 & Hm & Hrcv & Hnr & Hs1 & Hn1 & Hold & Hph)] HT Hne.
  destruct c0 as [|c c0].
  - (* for the current receiver *)
    assert (m0 = []) as ->.
    { destruct Hold as [(_ & _ & -> & _)|(ko & no & _ & _ & _ & Hs0 & _)]; [done|]. by inversion Hs0. }
    simpl in Hm. destruct c1 as [|c c1].
    { exfalso. inversion Hs1; subst. simpl in Hm. destruct ph as [|kn|].
      - by destruct Hph as (_ & -> & _).
      - by apply Hne; [eexists|].
      - by destruct Hph as (_ & _ & _ & ->). }
    inversion Hs1 as [|? ? ? pad raw msgs1 ? Hr Hs1']; subst. simpl in Hm. injection Hm as -> ->.
    pose proof (sealed_le _ _ _ _ _ Hs1') as Hle.
    exists c, (dec kr (nr + 1)), None. split.
    + eapply decrypt_with_current; [done|lia| |exact Hr].
      destruct Hold as [(-> & _)|(ko & no & -> & ? & -> & Hs0 & Hk & _)]; [done|].
      apply sealed_le in Hs0. exists ko, no. split_and!; (done || lia).
    + right. exists c1, kr, (nr + 1). assert (ph <> ReceiverAhead) as Hra.
      { destruct ph; try done. by destruct Hph as (? & _). }
      split_and!; try done; [lia..|]. split. exists [], msgs1, m2, k, kr, (nr + 1), n1.
      split_and!; try done; [lia|by left|]. by destruct ph.
  - (* for the previous receiver *)
    destruct Hold as [(_ & ? & _)|(ko & no & Hold & Hno & -> & Hs0 & Hk & Hra)]; [done|].
    inversion Hs0 as [|? ? ? pad raw msgs0 ? Hr Hs0']; subst. simpl in Hm. injection Hm as -> ->.
    exists c, (sc_receiver s), (Some (dec ko (no + 1))). split; [by eapply decrypt_with_old|].
    left. exists c0. split; [done|]. split; [done|]. split. exists msgs0, m1, m2, k, kr, 0, n1. split_and!; try done.
    right. exists ko, (no + 1). split_and!; (done || lia).
Qed.

Lemma flow_weaken T T' ph sdr old rcv c0 c1 c2 msgs :
  T <= T' -> flow T ph sdr old rcv c0 c1 c2 msgs -> flow T' ph sdr old rcv c0 c1 c2 msgs.
Proof.
  intros HT [(m0 & m1 & m2 & k & kr & nr & n1 & -> & -> & Hnr & Hs1 & Hn1 & Hold & Hph)]. split.
  exists m0, m1, m2, k, kr, nr, n1. split_and!; try done; [lia| |].
  - destruct Hold as [?|(ko & no & -> & ? & ? & ? & ? & ?)]; [by left|]. right. exists ko, no. split_and!; (done || lia).
  - destruct ph as [|kn|]; try done. destruct Hph as (ns & ? & ? & ?). exists ns. split_and!; (done || lia).
Qed.

(** ** Changes of keys in one direction *)

(** The receiver changes first: what is on its way is for its previous key. *)
Lemma flow_receiver_changes T sdr kr n c1 msgs key :
  flow T Same sdr None (dec kr n) [] c1 [] msgs -> 1 <= n <= T -> T < 2 ^ 96 ->
  flow T ReceiverAhead sdr (Some (dec kr n)) (decryptor_new key) c1 [] [] msgs.
Proof.
  intros [(m0 & m1 & m2 & k & kr' & nr & n1 & -> & Hrcv & Hnr & Hs1 & Hn1 & Hold & (_ & -> & ->))] Hn HT.
  destruct Hold as [(_ & _ & -> & _)|(ko & no & ? & _)]; [|done]. pose proof (sealed_le _ _ _ _ _ Hs1) as Hle.
  assert (n = nr /\ kr = kr') as [<- <-].
  { split; [|exact (f_equal de_key Hrcv)]. apply nonce_of_inj; [lia|lia|]. exact (f_equal de_nonce_counter Hrcv). }
  split. exists m1, [], [], n1, key, 0, 0. rewrite !app_nil_r. simpl.
  split_and!; try done; [constructor|lia|]. right. exists kr, n. split_and!; (done || lia).
Qed.

(** The sender changes first. *)
Lemma flow_sender_changes T sdr old rcv c0 c1 msgs key :
  0 <= T -> flow T Same sdr old rcv c0 c1 [] msgs -> flow T (SenderAhead key) (encryptor_new key) old rcv c0 c1 [] msgs.
Proof.
  intros HT [(m0 & m1 & m2 & k & kr & nr & n1 & -> & -> & Hnr & Hs1 & Hn1 & Hold & (_ & -> & _))]. split.
  exists m0, m1, [], k, kr, nr, n1. split_and!; try done.
  - destruct Hold as [(? & ? & ? & _)|(ko & no & -> & ? & ? & ? & ? & ?)]; [by left|]. right. by exists ko, no.
  - exists 0. split_and!; [constructor|done|done].
Qed.

(** The receiver follows, after it accepted a message with its current key. *)
Lemma flow_receiver_follows T key sdr kr n c1 c2 msgs :
  flow T (SenderAhead key) sdr None (dec kr n) [] c1 c2 msgs -> 1 <= n <= T -> T < 2 ^ 96 ->
  flow T Same sdr (Some (dec kr n)) (decryptor_new key) c1 c2 [] msgs.
Proof.
  intros [(m0 & m1 & m2 & k & kr' & nr & n1 & -> & Hrcv & Hnr & Hs1 & Hn1 & Hold & (ns & Hs2 & Hns & ->))] Hn HT.
  destruct Hold as [(_ & _ & -> & _)|(ko & no & ? & _)]; [|done]. pose proof (sealed_le _ _ _ _ _ Hs1) as Hle.
  assert (n = nr /\ kr = kr') as [<- <-].
  { split; [|exact (f_equal de_key Hrcv)]. apply nonce_of_inj; [lia|lia|]. exact (f_equal de_nonce_counter Hrcv). }
  split. exists m1, m2, [], n1, key, 0, ns. rewrite !app_nil_r. split_and!; try done. right. exists kr, n.
  split_and!; (done || lia).
Qed.

(** The sender follows. *)
Lemma flow_sender_follows T sdr old rcv c0 msgs :
  flow T ReceiverAhead sdr old rcv c0 [] [] msgs ->
  flow T Same (encryptor_new (de_key rcv)) old rcv c0 [] [] msgs.
Proof.
  intros [(m0 & m1 & m2 & k & kr & nr & n1 & -> & -> & Hnr & Hs1 & Hn1 & Hold & (_ & -> & _ & ->))]. split.
  destruct Hold as [(_ & _ & _ & ?)|(ko & no & -> & ? & -> & ? & ? & ?)]; [done|].
  inversion Hs1; subst. exists m0, [], [], k, kr, 0, 0. split_and!; try done. right. by exists ko, no.
Qed.

(** ** Both directions *)

Definition rekeys (cs : list ChannelContent) : list Rekey :=
  omap (fun c => match c with ContentRekey r => Some r | ContentUser _ => None end) cs.
Definition users (cs : list ChannelContent) : list bytes :=
  omap (fun c => match c with ContentUser d => Some d | ContentRekey _ => None end) cs.

Lemma rekeys_app cs cs' : rekeys (cs ++ cs') = rekeys cs ++ rekeys cs'.
Proof. apply omap_app. Qed.
Lemma users_app cs cs' : users (cs ++ cs') = users cs ++ users cs'.
Proof. apply omap_app. Qed.

Definition rekey_of (p : PendingRekey) : Rekey :=
  mkRekey (compute_public_key (pr_local_dh_private_key p)) (pr_local_salt p).
Definition pending_rekeys (s : ScState) : list Rekey := option_list (rekey_of <$> sc_opt_pending_rekey s).

(** The keys a side will use once it gets the answer [r] to its pending change. *)
Definition completed (p : PendingRekey) (r : Rekey) : SymmetricKey * SymmetricKey :=
  derive_symmetric_key (pr_local_dh_private_key p) (rk_dh_public_key r) (pr_local_salt p) (rk_key_salt r).

Lemma completed_agree p q send_key recv_key :
  completed p (rekey_of q) = (send_key, recv_key) -> completed q (rekey_of p) = (recv_key, send_key).
Proof.
  unfold completed, derive_symmetric_key. simpl. rewrite (diffie_hellman_agree (pr_local_dh_private_key q)).
  by intros [= <- <-].
Qed.

(** [a] has changed its keys, [b] waits for the answer. *)
Record ahead (T : Z) (a b : ScState) (ab ba : list bytes) (qab qba : list bytes) : Prop := mkAhead {
  ah_parts : exists key rx p c0 c1 c2 d0,
    flow T (SenderAhead key) (sc_sender a) (sc_opt_old_receiver b) (sc_receiver b) c0 c1 c2 ab /\
    flow T ReceiverAhead (sc_sender b) (sc_opt_old_receiver a) (sc_receiver a) d0 [] [] ba /\
    rekeys c0 = [] /\ rekeys c1 = [rx] /\ rekeys c2 = pending_rekeys a /\ rekeys d0 = [] /\
    sc_opt_pending_rekey b = Some p /\ completed p rx = (de_key (sc_receiver a), key) /\
    qab = users (c0 ++ c1 ++ c2) /\ qba = users d0
}.

(** The two sides and the messages on their way; [qab] and [qba] are the
    messages of the users among them. *)
Inductive linked (T : Z) (a b : ScState) (ab ba qab qba : list bytes) : Prop :=
| linked_same c0 c1 d0 d1
    (Hab : flow T Same (sc_sender a) (sc_opt_old_receiver b) (sc_receiver b) c0 c1 [] ab)
    (Hba : flow T Same (sc_sender b) (sc_opt_old_receiver a) (sc_receiver a) d0 d1 [] ba)
    (Hc0 : rekeys c0 = []) (Hc1 : rekeys c1 = pending_rekeys a)
    (Hd0 : rekeys d0 = []) (Hd1 : rekeys d1 = pending_rekeys b)
    (Hqab : qab = users (c0 ++ c1)) (Hqba : qba = users (d0 ++ d1))
| linked_a_ahead (Ha : ahead T a b ab ba qab qba)
| linked_b_ahead (Hb : ahead T b a ba ab qba qab).

Lemma linked_swap T a b ab ba qab qba : linked T a b ab ba qab qba -> linked T b a ba ab qba qab.
Proof. intros [c0 c1 d0 d1|Ha|Hb]; [|by apply linked_b_ahead|by apply linked_a_ahead]. by eapply linked_same. Qed.

(** [a] emits a message: of its user, or the start of a change of keys. *)
Lemma emit_linked T a a1 a' b ab ba qab qba c g m g' :
  linked T a b ab ba qab qba -> encrypt_outgoing a1 c g = Some (a', m, g') ->
  sc_sender a1 = sc_sender a -> sc_receiver a1 = sc_receiver a -> sc_opt_old_receiver a1 = sc_opt_old_receiver a ->
  pending_rekeys a1 = pending_rekeys a ++ rekeys [c] ->
  (is_Some (sc_opt_pending_rekey a) -> sc_opt_pending_rekey a1 = sc_opt_pending_rekey a /\ rekeys [c] = []) ->
  linked (T + 1) a' b (ab ++ [m]) ba (qab ++ users [c]) qba.
Proof.
  intros Hl Henc Hs Hr Ho Hp Hsome. pose proof (encrypt_outgoing_inv _ _ _ _ _ _ Henc) as (_ & _ & _ & _ & Ha').
  assert (sc_receiver a' = sc_receiver a /\ sc_opt_old_receiver a' = sc_opt_old_receiver a /\
          sc_opt_pending_rekey a' = sc_opt_pending_rekey a1) as (Hr' & Ho' & Hp').
  { rewrite Ha'. simpl. by rewrite Hr, Ho. }
  assert (pending_rekeys a' = pending_rekeys a ++ rekeys [c]) as Hpr.
  { unfold pending_rekeys in *. by rewrite Hp'. }
  destruct Hl as [c0 c1 d0 d1 Hab Hba Hc0 Hc1 Hd0 Hd1 -> ->|[(key & rx & p & c0 & c1 & c2 & d0 & Hab & Hba & Hc0 & Hc1 & Hc2 & Hd0 & Hpb & Hk & -> & ->)]|[(key & rx & p & c0 & c1 & c2 & d0 & Hba & Hab & Hc0 & Hc1 & Hc2 & Hd0 & Hpb & Hk & -> & ->)]].
  - rewrite <- Hs in Hab. eapply flow_send in Hab; [|exact Henc]. simpl in Hab.
    eapply (linked_same _ _ _ _ _ _ _ c0 (c1 ++ [c]) d0 d1); try done.
    + rewrite Hr', Ho'. eapply flow_weaken; [|done]. lia.
    + by rewrite rekeys_app, Hc1, Hpr.
    + by rewrite app_assoc, (users_app _ [c]).
  - rewrite <- Hs in Hab. eapply flow_send in Hab; [|exact Henc]. simpl in Hab. apply linked_a_ahead. split.
    exists key, rx, p, c0, c1, (c2 ++ [c]), d0. split_and!; try done.
    + rewrite Hr', Ho'. eapply flow_weaken; [|done]. lia.
    + by rewrite rekeys_app, Hc2, Hpr.
    + by rewrite Hr'.
    + by rewrite !app_assoc, (users_app _ [c]).
  - rewrite <- Hs in Hab. eapply flow_send in Hab; [|exact Henc]. simpl in Hab. apply linked_b_ahead. split.
    destruct (Hsome ltac:(by rewrite Hpb)) as [Hsame Hnil].
    exists key, rx, p, c0, c1, c2, (d0 ++ [c]). split_and!; try done.
    + rewrite Hr', Ho'. eapply flow_weaken; [|done]. lia.
    + by rewrite rekeys_app, Hd0, Hnil.
    + by rewrite Hp', Hsame.
    + by rewrite users_app.
Qed.

(** A message of the user is taken from the front of one part of a flow. *)
Lemma handle_incoming_user (s : ScState) m d old data g :
  decrypt_incoming s m = Ok (with_receivers s d old, ContentUser data) ->
  handle_incoming s m g = Ok (with_receivers s d old, mkHandleIncomingOutput false None (Some data), g).
Proof. unfold handle_incoming. by intros ->. Qed.

(** A reply to a change of keys can be encrypted. *)
Definition rekey_encrypts : Prop := forall key nonce pad r,
  is_Some (chacha_encrypt key nonce (proto_serialize (mkChannelMessage pad (ContentRekey r)))).

Lemma encrypt_rekey (s : ScState) r g :
  rekey_encrypts -> exists s' m g', encrypt_outgoing s (ContentRekey r) g = Some (s', m, g').
Proof.
  intros Henc. unfold encrypt_outgoing, encrypt. destruct (gen_rand_padding g) as [pad g1]. simpl.
  destruct (Henc (en_key (sc_sender s)) (en_nonce_counter (sc_sender s)) pad r) as [raw ->]. simpl. eauto.
Qed.

Lemma rekeys_cons_inv c cs : rekeys (c :: cs) = [] -> exists data, c = ContentUser data /\ rekeys cs = [].
Proof. destruct c as [r|data]; [done|]. intros Hr. by exists data. Qed.

Lemma pending_rekeys_inv s r rs :
  r :: rs = pending_rekeys s -> exists p, sc_opt_pending_rekey s = Some p /\ r = rekey_of p /\ rs = [].
Proof. unfold pending_rekeys. destruct (sc_opt_pending_rekey s) as [p|]; [|done]. intros [= -> ->]. eauto. Qed.

(** The outcome of the next message of [b] at [a]: it is accepted, and what it
    carries is the next message of the user of [b], if it is one. *)
Definition reads T a b ab ba qab qba (m : bytes) (g : rng) : Prop :=
  exists a' out g' qba', handle_incoming a m g = Ok (a', out, g') /\
    linked (T + Z.of_nat (length (option_list (hi_opt_send_message out)))) a' b
      (ab ++ option_list (hi_opt_send_message out)) ba qab qba' /\
    qba = option_list (hi_opt_incoming_message out) ++ qba' /\
    (hi_opt_send_message out = None \/ hi_opt_incoming_message out = None).

Lemma reads_user T a b ab ba qab qba' m g d old data :
  decrypt_incoming a m = Ok (with_receivers a d old, ContentUser data) ->
  linked T (with_receivers a d old) b ab ba qab qba' -> reads T a b ab ba qab (data :: qba') m g.
Proof.
  intros Hdec Hl. unfold reads. rewrite (handle_incoming_user _ _ _ _ _ _ Hdec). eexists _, _, _, qba'.
  split_and!; [done| |done|by left]. simpl. by rewrite Z.add_0_r, app_nil_r.
Qed.

Lemma reads_rekey T a b ab ba qab qba m g a' d old r g' :
  decrypt_incoming a m = Ok (with_receivers a d old, ContentRekey r) ->
  handle_incoming_rekey (with_receivers a d old) r g = Ok (a', mkHandleIncomingOutput true None None, g') ->
  linked T a' b ab ba qab qba -> reads T a b ab ba qab qba m g.
Proof.
  intros Hdec Hr Hl. unfold reads, handle_incoming. rewrite Hdec. cbn [obind]. rewrite Hr. eexists _, _, _, qba.
  split_and!; [done| |done|by left]. simpl. by rewrite Z.add_0_r, app_nil_r.
Qed.

(** Both sides had started a change: [a] completes its own. *)
Lemma read_crossing T a b ab ba c0 c1 d1 kr n p q m g :
  0 <= T -> T < 2 ^ 96 ->
  decrypt_incoming a m = Ok (with_receivers a (dec kr n) None, ContentRekey (rekey_of p)) -> 1 <= n <= T ->
  flow T Same (sc_sender a) (sc_opt_old_receiver b) (sc_receiver b) c0 c1 [] ab ->
  flow T Same (sc_sender b) None (dec kr n) [] d1 [] ba ->
  rekeys c0 = [] -> rekeys c1 = [rekey_of q] -> rekeys d1 = [] ->
  sc_opt_pending_rekey b = Some p -> sc_opt_pending_rekey a = Some q ->
  reads T a b ab ba (users (c0 ++ c1)) (users d1) m g.
Proof.
  intros HT0 HT Hdec Hn Hab Hba Hc0 Hc1 Hd1 Hpb Hq.
  destruct (completed q (rekey_of p)) as [send_key recv_key] eqn:Hk.
  eapply reads_rekey; [exact Hdec| |].
  - unfold handle_incoming_rekey. cbn [sc_opt_pending_rekey with_receivers]. rewrite Hq.
    unfold completed in Hk. rewrite Hk. reflexivity.
  - apply linked_a_ahead. split. exists send_key, (rekey_of q), p, c0, c1, [], d1. simpl. split_and!; try done.
    + by eapply flow_sender_changes.
    + by apply flow_receiver_changes.
    + by apply completed_agree.
    + by rewrite app_nil_r.
Qed.

(** [b] started a change: [a] answers. *)
Lemma read_start T a b ab ba c0 c1 d1 kr n p m g :
  rekey_encrypts -> 0 <= T -> T < 2 ^ 96 ->
  decrypt_incoming a m = Ok (with_receivers a (dec kr n) None, ContentRekey (rekey_of p)) -> 1 <= n <= T ->
  flow T Same (sc_sender a) (sc_opt_old_receiver b) (sc_receiver b) c0 c1 [] ab ->
  flow T Same (sc_sender b) None (dec kr n) [] d1 [] ba ->
  rekeys c0 = [] -> rekeys c1 = [] -> rekeys d1 = [] ->
  sc_opt_pending_rekey b = Some p -> sc_opt_pending_rekey a = None ->
  reads T a b ab ba (users (c0 ++ c1)) (users d1) m g.
Proof.
  intros Henc HT0 HT Hdec Hn Hab Hba Hc0 Hc1 Hd1 Hpb Hq.
  unfold reads, handle_incoming. rewrite Hdec. cbn [obind]. unfold handle_incoming_rekey.
  cbn [sc_opt_pending_rekey with_receivers]. rewrite Hq.
  destruct (dh_private_key_new g) as [k g1]. destruct (rng_fill 32 g1) as [salt g2].
  destruct (derive_symmetric_key _ _ _ _) as [send_key recv_key] eqn:Hk. simpl.
  set (r := mkRekey (compute_public_key k) salt).
  destruct (encrypt_rekey (with_receivers (with_receivers a (dec kr n) None) (decryptor_new recv_key) (Some (dec kr n)))
              r g2 Henc) as (s' & data & g' & He).
  cbn [sc_receiver with_receivers] in He |- *. rewrite He. simpl. eexists _, _, _, (users d1).
  split_and!; [done| |done|by right]. simpl. pose proof (encrypt_outgoing_inv _ _ _ _ _ _ He) as (_ & _ & _ & _ & ->).
  apply linked_a_ahead. split. exists send_key, r, p, c0, (c1 ++ [ContentRekey r]), [], d1. simpl. split_and!; try done.
  - eapply flow_sender_changes; [lia|]. by eapply (flow_send _ Same); [|exact He].
  - eapply flow_weaken; [|by apply flow_receiver_changes]. lia.
  - by rewrite rekeys_app, Hc1.
  - unfold pending_rekeys. simpl. by rewrite Hq.
  - by apply (completed_agree (mkPendingRekey k salt)).
  - by rewrite app_nil_r, app_assoc, (users_app _ [_]), app_nil_r.
Qed.

(** [b] had changed first: [a] follows. *)
Lemma read_completion T a b ab ba d1 d2 c0 key kr n rx p m g :
  T < 2 ^ 96 ->
  decrypt_incoming a m = Ok (with_receivers a (dec kr n) None, ContentRekey rx) -> 1 <= n <= T ->
  flow T (SenderAhead key) (sc_sender b) None (dec kr n) [] d1 d2 ba ->
  flow T ReceiverAhead (sc_sender a) (sc_opt_old_receiver b) (sc_receiver b) c0 [] [] ab ->
  rekeys c0 = [] -> rekeys d1 = [] -> rekeys d2 = pending_rekeys b ->
  sc_opt_pending_rekey a = Some p -> completed p rx = (de_key (sc_receiver b), key) ->
  reads T a b ab ba (users c0) (users (d1 ++ d2)) m g.
Proof.
  intros HT Hdec Hn Hba Hab Hc0 Hd1 Hd2 Hpa Hk. eapply reads_rekey; [exact Hdec| |].
  - unfold handle_incoming_rekey. cbn [sc_opt_pending_rekey with_receivers]. rewrite Hpa.
    unfold completed in Hk. rewrite Hk. reflexivity.
  - eapply (linked_same _ _ _ _ _ _ _ c0 [] d1 d2); simpl; try done.
    + by eapply flow_sender_follows.
    + by apply flow_receiver_follows.
    + by rewrite app_nil_r.
Qed.

(** [a] handles the next message from [b]. *)
Lemma read_linked T a b ab ba qab qba m g :
  rekey_encrypts -> 0 <= T -> T < 2 ^ 96 -> linked T a b ab (m :: ba) qab qba -> reads T a b ab ba qab qba m g.
Proof.
  intros Henc HT0 HT Hl.
  destruct Hl as [c0 c1 d0 d1 Hab Hba Hc0 Hc1 Hd0 Hd1 -> ->|[(key & rx & p & c0 & c1 & c2 & d0 & Hab & Hba & Hc0 & Hc1 & Hc2 & Hd0 & Hpb & Hk & -> & ->)]|[(key & rx & p & d0 & d1 & d2 & c0 & Hba & Hab & Hd0 & Hd1 & Hd2 & Hc0 & Hpa & Hk & -> & ->)]].
  - destruct (flow_deliver _ _ _ _ _ _ _ _ _ Hba HT ltac:(by intros [? ?])) as (c & d & old & Hdec & Hcase).
    destruct Hcase as [(d0' & -> & -> & Hfl)|(d1' & kr & n & -> & -> & -> & -> & Hn & _ & Hfl)].
    + apply rekeys_cons_inv in Hd0 as (data & -> & Hd0). eapply reads_user; [exact Hdec|].
      by eapply (linked_same _ _ _ _ _ _ _ c0 c1 d0' d1).
    + destruct c as [r|data].
      * apply pending_rekeys_inv in Hd1 as (p & Hpb & -> & Hd1'). unfold pending_rekeys in Hc1.
        change (users ([] ++ ContentRekey (rekey_of p) :: d1')) with (users d1').
        destruct (sc_opt_pending_rekey a) as [q|] eqn:Hq; simpl in Hc1; [by eapply read_crossing|by eapply read_start].
      * eapply reads_user; [exact Hdec|]. by eapply (linked_same _ _ _ _ _ _ _ c0 c1 [] d1').
  - destruct (flow_deliver _ _ _ _ _ _ _ _ _ Hba HT ltac:(by intros [? ?])) as (c & d & old & Hdec & Hcase).
    destruct Hcase as [(d0' & -> & -> & Hfl)|(d1' & kr & n & _ & ? & _)]; [|done].
    apply rekeys_cons_inv in Hd0 as (data & -> & Hd0). eapply reads_user; [exact Hdec|].
    apply linked_a_ahead. split. by exists key, rx, p, c0, c1, c2, d0'.
  - destruct (flow_deliver _ _ _ _ _ _ _ _ _ Hba HT) as (c & d & old & Hdec & Hcase); [by intros _ ->|].
    destruct Hcase as [(d0' & -> & -> & Hfl)|(d1' & kr & n & -> & -> & -> & -> & Hn & _ & Hfl)].
    + apply rekeys_cons_inv in Hd0 as (data & -> & Hd0). eapply reads_user; [exact Hdec|].
      apply linked_b_ahead. split. by exists key, rx, p, d0', d1, d2, c0.
    + destruct c as [r|data].
      * injection Hd1 as -> Hd1'. change (users ([] ++ (ContentRekey rx :: d1') ++ d2)) with (users (d1' ++ d2)).
        by eapply read_completion.
      * eapply reads_user; [exact Hdec|]. apply linked_b_ahead. split. by exists key, rx, p, [], d1', d2, c0.
Qed.

(** ** Runs of the two tasks *)

(** The tasks of both sides, the messages on their way, what the users sent
    and received, and the number of messages sent. *)
Record pair := mkPair {
  pr_a : ScLoop; pr_b : ScLoop;
  pr_ab : list bytes; pr_ba : list bytes;
  sent_a : list bytes; recv_b : list bytes;
  sent_b : list bytes; recv_a : list bytes;
  pr_total : Z
}.

Definition swap (p : pair) : pair :=
  mkPair (pr_b p) (pr_a p) (pr_ba p) (pr_ab p) (sent_b p) (recv_a p) (sent_a p) (recv_b p) (pr_total p).

Definition writes (acts : list SecureChannelAction) : list bytes :=
  omap (fun x => match x with ScWrite m => Some m | ScToUser _ => None end) acts.
Definition to_users (acts : list SecureChannelAction) : list bytes :=
  omap (fun x => match x with ScToUser m => Some m | ScWrite _ => None end) acts.

(** An event of side [a], with the messages to [a] that are left and what its
    user sends. *)
Inductive side_event (p : pair) : SecureChannelEvent -> list bytes -> list bytes -> Prop :=
| side_user d : side_event p (ScUser d) (pr_ba p) [d]
| side_tick : side_event p ScTimerTick (pr_ba p) []
| side_read m rest : pr_ba p = m :: rest -> side_event p (ScReader m) rest [].

Inductive side_step (ticks : nat) (p : pair) : pair -> Prop :=
| side_step_intro e ba d l acts :
    side_event p e ba d -> secure_channel_step ticks true (pr_a p) e = Ok (Some l, acts) ->
    side_step ticks p
      (mkPair l (pr_b p) (pr_ab p ++ writes acts) ba (sent_a p ++ d) (recv_b p) (sent_b p)
         (recv_a p ++ to_users acts) (pr_total p + Z.of_nat (length (writes acts)))).

Inductive pair_step (ticks : nat) (p : pair) : pair -> Prop :=
| step_a p' : side_step ticks p p' -> pair_step ticks p p'
| step_b p' : side_step ticks (swap p) p' -> pair_step ticks p (swap p').

(** What users sent is what was received, followed by what is on its way. *)
Definition pair_inv (p : pair) : Prop :=
  0 <= pr_total p /\ exists qab qba,
    linked (pr_total p) (sl_dh_state (pr_a p)) (sl_dh_state (pr_b p)) (pr_ab p) (pr_ba p) qab qba /\
    sent_a p = recv_b p ++ qab /\ sent_b p = recv_a p ++ qba.

Lemma pair_inv_swap p : pair_inv p -> pair_inv (swap p).
Proof.
  intros (HT & qab & qba & Hl & Ha & Hb). split; [done|]. exists qba, qab. split_and!; try done. by apply linked_swap.
Qed.

Lemma read_step ticks p m rest :
  rekey_encrypts -> pair_inv p -> pr_total p < 2 ^ 96 -> pr_ba p = m :: rest ->
  exists l acts, secure_channel_step ticks true (pr_a p) (ScReader m) = Ok (Some l, acts) /\
    pair_inv (mkPair l (pr_b p) (pr_ab p ++ writes acts) rest (sent_a p ++ []) (recv_b p) (sent_b p)
      (recv_a p ++ to_users acts) (pr_total p + Z.of_nat (length (writes acts)))).
Proof.
  intros Henc (HT & qab & qba & Hl & Ha & Hb) Hlt Hm. rewrite Hm in Hl.
  destruct (read_linked _ _ _ _ _ _ _ _ (sl_rng (pr_a p)) Henc HT Hlt Hl) as (a' & out & g' & qba' & Hh & Hl' & -> & Hone).
  simpl. rewrite Hh. simpl. destruct out as [rk os oi]. simpl in *. rewrite app_nil_r.
  destruct os as [x|], oi as [y|]; simpl in *; try (destruct Hone; done);
    (eexists _, _; split; [reflexivity|]); split; simpl; try lia; exists qab; eexists; (split; [exact Hl'|]); (split; [exact Ha|]);
    rewrite Hb; by rewrite ?app_nil_r, <- ?app_assoc.
Qed.

Lemma side_step_inv ticks p p' :
  rekey_encrypts -> pair_inv p -> pr_total p' < 2 ^ 96 -> side_step ticks p p' -> pair_inv p'.
Proof.
  intros Henc Hinv Hlt Hstep. destruct Hstep as [e ba d l acts He Hst]. simpl in Hlt.
  destruct He as [d| |m rest Hm].
  - destruct Hinv as (HT & qab & qba & Hl & Ha & Hb). simpl in Hst.
    destruct (create_outgoing _ _ _) as [[[a' m] g']|] eqn:Hc; simplify_eq/=. split; [simpl; lia|].
    exists (qab ++ [d]), qba. simpl. split_and!; [|by rewrite Ha, app_assoc|by rewrite app_nil_r].
    eapply (emit_linked _ _ _ _ _ _ _ _ _ (ContentUser d)); [exact Hl|exact Hc|done..| |done]. simpl. by rewrite app_nil_r.
  - simpl in Hst. destruct (sl_cur_ticks_to_rekey (pr_a p)) as [|k]; [|simplify_eq/=; by rewrite Z.add_0_r, !app_nil_r].
    unfold create_rekey in Hst. destruct (sc_opt_pending_rekey _) as [q|] eqn:Hq;
      [simplify_eq/=; by rewrite Z.add_0_r, !app_nil_r|].
    destruct (dh_private_key_new _) as [k g1]. destruct (rng_fill 32 g1) as [salt g2].
    destruct (encrypt_outgoing _ _ _) as [[[a' m] g']|] eqn:Hc; simplify_eq/=.
    destruct Hinv as (HT & qab & qba & Hl & Ha & Hb). split; [simpl; lia|].
    exists qab, qba. simpl. rewrite !app_nil_r. split_and!; try done.
    rewrite <- (app_nil_r qab). eapply (emit_linked _ _ _ _ _ _ _ _ _ (ContentRekey (mkRekey (compute_public_key k) salt)));
      [exact Hl|exact Hc|done..| |].
    + unfold pending_rekeys. simpl. by rewrite Hq.
    + rewrite Hq. by intros [].
  - destruct (read_step ticks p m rest Henc Hinv) as (l' & acts' & Hst' & Hinv'); [lia|done|].
    rewrite Hst in Hst'. by simplify_eq.
Qed.

Lemma pair_step_total ticks p p' : pair_step ticks p p' -> pr_total p <= pr_total p'.
Proof. intros [? [? ? ? ? ? ? ?]|? [? ? ? ? ? ? ?]]; simpl; lia. Qed.

Lemma pair_steps_inv ticks p p' :
  rekey_encrypts -> pair_inv p -> rtc (pair_step ticks) p p' -> pr_total p' < 2 ^ 96 -> pair_inv p'.
Proof.
  intros Henc Hinv Hs. revert Hinv. induction Hs as [p|p p1 p' Hs1 Hs IH]; intros Hinv Hlt; [done|]. apply IH; [|done].
  assert (pr_total p1 <= pr_total p').
  { clear -Hs. induction Hs as [|? ? ? H1 _ IH]; [lia|]. apply pair_step_total in H1. lia. }
  destruct Hs1 as [p1 Hs1|p1 Hs1].
  - eapply side_step_inv; eauto; lia.
  - apply pair_inv_swap. eapply side_step_inv; [done|by apply pair_inv_swap|simpl in *; lia|done].
Qed.

(** ** The handshake *)

(** Two sides that share keys and have exchanged nothing yet. *)
Definition joined (a b : ScState) : Prop :=
  sc_remote_public_key a = sc_local_public_key b /\ sc_remote_public_key b = sc_local_public_key a /\
  (exists ka kb, sc_sender a = encryptor_new ka /\ sc_receiver b = decryptor_new ka /\
     sc_sender b = encryptor_new kb /\ sc_receiver a = decryptor_new kb) /\
  sc_opt_old_receiver a = None /\ sc_opt_old_receiver b = None /\
  sc_opt_pending_rekey a = None /\ sc_opt_pending_rekey b = None.

Definition fresh_pair (a b : ScLoop) : pair := mkPair a b [] [] [] [] [] [] 0.

Lemma joined_inv a b : joined (sl_dh_state a) (sl_dh_state b) -> pair_inv (fresh_pair a b).
Proof.
  intros (_ & _ & (ka & kb & Hsa & Hrb & Hsb & Hra) & Hoa & Hob & Hpa & Hpb). split; [done|]. exists [], [].
  split_and!; [|done|done]. simpl. eapply (linked_same _ _ _ _ _ _ _ [] [] [] []); try done.
  - split. exists [], [], [], 0, ka, 0, 0. rewrite Hrb, Hsa, Hob. split_and!; try done; [constructor|by left].
  - split. exists [], [], [], 0, kb, 0, 0. rewrite Hra, Hsb, Hoa. split_and!; try done; [constructor|by left].
  - unfold pending_rekeys. by rewrite Hpa.
  - unfold pending_rekeys. by rewrite Hpb.
Qed.
End Pair.

Section Theorems.
Context `{ScCryptoOps} `{!ScCryptoLaws} `{CryptoOps} `{ProtoSerialize ChannelMessage} `{!ProtoSerializeLaws ChannelMessage}.
Context `{ProtoSerialize ExchangeRandNonce} `{!ProtoSerializeLaws ExchangeRandNonce}.
Context `{ProtoSerialize ExchangeDh} `{!ProtoSerializeLaws ExchangeDh}.

Lemma sealed_empty key n cs n' : sealed key n cs [] n' -> cs = [].
Proof. by inversion 1. Qed.

Lemma flow_empty T ph sdr old rcv c0 c1 c2 : flow T ph sdr old rcv c0 c1 c2 [] -> c0 = [] /\ c1 = [] /\ c2 = [].
Proof.
  intros [(m0 & m1 & m2 & k & kr & nr & n1 & Hm & -> & Hnr & Hs1 & Hn1 & Hold & Hph)].
  symmetry in Hm. apply app_nil in Hm as [-> [-> ->]%app_nil]. apply sealed_empty in Hs1 as ->. split_and!; [|done|].
  - destruct Hold as [(_ & -> & _)|(ko & no & _ & _ & _ & Hs0 & _)]; [done|]. by apply sealed_empty in Hs0.
  - destruct ph as [|kn|]; [by destruct Hph as (-> & _)| |by destruct Hph as (_ & _ & -> & _)].
    destruct Hph as (ns & Hs2 & _). by apply sealed_empty in Hs2.
Qed.

Lemma linked_empty T a b ba qab qba : linked T a b [] ba qab qba -> qab = [].
Proof.
  intros [c0 c1 d0 d1 Hab _ _ _ _ _ -> _|[(key & rx & p & c0 & c1 & c2 & d0 & Hab & _ & _ & _ & _ & _ & _ & _ & -> & _)]|[(key & rx & p & c0 & c1 & c2 & d0 & _ & Hab & _ & _ & _ & _ & _ & _ & _ & ->)]].
  - apply flow_empty in Hab as (-> & -> & _). done.
  - apply flow_empty in Hab as (-> & -> & ->). done.
  - apply flow_empty in Hab as (-> & _). done.
Qed.

(** C11. Once two sides are joined, the channel is a pair of queues: for any
    interleaving of messages of the users, timer ticks (changes of keys, also
    started by both sides at once) and deliveries, each user has received a
    prefix of what the other sent, everything when nothing is on its way, and
    the next message on its way is always accepted. (No nonce is repeated
    while fewer than [2 ^ 96] messages are sent.) *)
Theorem secure_channel_fifo (ticks : nat) (a b : ScLoop) (p : pair)
  (Henc : rekey_encrypts) (Hjoined : joined (sl_dh_state a) (sl_dh_state b))
  (Hrun : rtc (pair_step ticks) (fresh_pair a b) p) (Hlt : pr_total p < 2 ^ 96) :
  (recv_b p `prefix_of` sent_a p /\ (pr_ab p = [] -> recv_b p = sent_a p) /\
   forall m rest, pr_ab p = m :: rest ->
     exists l acts, secure_channel_step ticks true (pr_b p) (ScReader m) = Ok (Some l, acts)) /\
  (recv_a p `prefix_of` sent_b p /\ (pr_ba p = [] -> recv_a p = sent_b p) /\
   forall m rest, pr_ba p = m :: rest ->
     exists l acts, secure_channel_step ticks true (pr_a p) (ScReader m) = Ok (Some l, acts)).
Proof.
  assert (forall q, pair_inv q -> pr_total q < 2 ^ 96 ->
    recv_a q `prefix_of` sent_b q /\ (pr_ba q = [] -> recv_a q = sent_b q) /\
    forall m rest, pr_ba q = m :: rest ->
      exists l acts, secure_channel_step ticks true (pr_a q) (ScReader m) = Ok (Some l, acts)) as Hside.
  { intros q Hq Hltq. pose proof Hq as (_ & qab & qba & Hl & _ & Hb). split_and!.
    - rewrite Hb. by apply prefix_app_r.
    - intros Hba. rewrite Hba in Hl. apply linked_swap, linked_empty in Hl as ->. by rewrite Hb, app_nil_r.
    - intros m rest Hm. destruct (read_step ticks q m rest) as (l & acts & Hst & _); eauto. }
  assert (pair_inv p) as Hp by (eapply pair_steps_inv; eauto using joined_inv).
  split; [|by apply Hside]. by apply (Hside (swap p)); [apply pair_inv_swap|].
Qed.

(** The second message of a side. *)
Definition signed_dh {pk : PublicKey} (sg : SignerOps pk) (k : DhPrivateKey) (remote_nonce : RandValue) (salt : Salt) :
  ExchangeDh :=
  mkExchangeDh (compute_public_key k) remote_nonce salt
    (request_signature (signature_buffer (mkExchangeDh (compute_public_key k) remote_nonce salt zero_signature))).

Lemma signed_dh_verifies {pk} (sg : SignerOps pk) k n salt :
  verify_signature (signature_buffer (signed_dh sg k n salt)) pk (ed_signature (signed_dh sg k n salt)) = true.
Proof. apply request_signature_verifies. Qed.

(** The randomness a side draws. *)
Definition drawn (g : rng) : RandValue * DhPrivateKey * Salt :=
  let (n, g) := rng_fill 16 g in let (k, g) := dh_private_key_new g in (n, k, fst (rng_fill 32 g)).

(** A side succeeds with messages of the expected identity that sign its nonce. *)
Lemma initial_exchange_ok (pk : PublicKey) (sg : SignerOps pk) (o : option PublicKey) (g : rng) n k salt
  (m1 : ExchangeRandNonce) (m2 : ExchangeDh) :
  drawn g = (n, k, salt) -> o = None \/ o = Some (ern_src_public_key m1) -> ed_rand_nonce m2 = n ->
  verify_signature (signature_buffer m2) (ern_src_public_key m1) (ed_signature m2) = true ->
  let keys := derive_symmetric_key k (ed_dh_public_key m2) salt (ed_key_salt m2) in
  initial_exchange pk o (true, true) [proto_serialize m1; proto_serialize m2] g =
    Ok (mkScState pk (ern_src_public_key m1) (encryptor_new (fst keys)) (decryptor_new (snd keys)) None None,
        [proto_serialize (mkExchangeRandNonce n pk o); proto_serialize (signed_dh sg k (ern_rand_nonce m1) salt)], []).
Proof.
  unfold drawn, initial_exchange, sc_state_initial_new. intros Hd Ho Hn Hv.
  destruct (rng_fill 16 g) as [n' g1]. simpl. rewrite !proto_round_trip. simpl. unfold handle_exchange_rand_nonce. simpl.
  destruct (dh_private_key_new g1) as [k' g2]. destruct (rng_fill 32 g2) as [salt' g3]. simpl in Hd. injection Hd as -> -> ->.
  destruct Ho as [->| ->]; simpl; repeat (rewrite bool_decide_eq_true_2 by done; simpl); rewrite ?proto_round_trip; simpl;
    unfold handle_exchange_dh, verify_exchange_dh; simpl; rewrite bool_decide_eq_true_2 by done; simpl; by rewrite Hv.
Qed.

(** Two honest sides that run the handshake with each other, each
    expecting the other or anyone, succeed, and are joined: each knows the
    identity of the other, and the sending key of one is the receiving key of
    the other. *)
Theorem handshake_agreement (pk_a pk_b : PublicKey) (sa : SignerOps pk_a) (sb : SignerOps pk_b)
  (oa ob : option PublicKey) (ga gb : rng)
  (Hoa : oa = None \/ oa = Some pk_b) (Hob : ob = None \/ ob = Some pk_a) :
  exists a b msgs_a msgs_b,
    initial_exchange pk_a oa (true, true) msgs_b ga = Ok (a, msgs_a, []) /\
    initial_exchange pk_b ob (true, true) msgs_a gb = Ok (b, msgs_b, []) /\
    sc_local_public_key a = pk_a /\ sc_local_public_key b = pk_b /\ joined a b.
Proof.
  destruct (drawn ga) as [[na ka] salt_a] eqn:Hda. destruct (drawn gb) as [[nb kb] salt_b] eqn:Hdb.
  pose proof (initial_exchange_ok pk_a sa oa ga na ka salt_a (mkExchangeRandNonce nb pk_b ob) (signed_dh sb kb na salt_b)
    Hda Hoa eq_refl (signed_dh_verifies _ _ _ _)) as Ha.
  pose proof (initial_exchange_ok pk_b sb ob gb nb kb salt_b (mkExchangeRandNonce na pk_a oa) (signed_dh sa ka nb salt_a)
    Hdb Hob eq_refl (signed_dh_verifies _ _ _ _)) as Hb.
  eexists _, _, _, _. split; [exact Ha|]. split; [exact Hb|].
  split; [done|]. split; [done|]. split; [done|]. split; [done|]. split; [|done]. do 2 eexists.
  split_and!; try reflexivity; simpl; by rewrite diffie_hellman_agree.
Qed.

(** The signed message of the handshake names neither side. [e], whom [a]
    connects to, can therefore relay the handshake to [b] under the name of
    [a], signing the key of [b] as its own: [a] ends in a session with [e] and
    [b] in a session with [a], and they share the keys. *)
Theorem handshake_misbinding (pk_a pk_b pk_e : PublicKey) (sa : SignerOps pk_a) (sb : SignerOps pk_b)
  (se : SignerOps pk_e) (ga gb : rng) :
  exists a b m1 m2 m1' m2' msgs_b,
    initial_exchange pk_a (Some pk_e) (true, true) [m1; m2] ga = Ok (a, [m1'; m2'], []) /\
    initial_exchange pk_b None (true, true) [m1'; m2'] gb = Ok (b, msgs_b, []) /\
    sc_remote_public_key a = pk_e /\ sc_remote_public_key b = pk_a /\
    en_key (sc_sender a) = de_key (sc_receiver b) /\ en_key (sc_sender b) = de_key (sc_receiver a).
Proof.
  destruct (drawn ga) as [[na ka] salt_a] eqn:Hda. destruct (drawn gb) as [[nb kb] salt_b] eqn:Hdb.
  pose proof (initial_exchange_ok pk_a sa (Some pk_e) ga na ka salt_a (mkExchangeRandNonce nb pk_e None)
    (signed_dh se kb na salt_b) Hda (or_intror eq_refl) eq_refl (signed_dh_verifies _ _ _ _)) as Ha.
  pose proof (initial_exchange_ok pk_b sb None gb nb kb salt_b (mkExchangeRandNonce na pk_a (Some pk_e))
    (signed_dh sa ka nb salt_a) Hdb (or_introl eq_refl) eq_refl (signed_dh_verifies _ _ _ _)) as Hb.
  eexists _, _, _, _, _, _, _. split; [exact Ha|]. split; [exact Hb|].
  split_and!; simpl; try done; by rewrite diffie_hellman_agree.
Qed.

(** A message shorter than a nonce panics: the nonce is sliced off before the
    message is checked. *)
Theorem short_message_panics (ticks : nat) (ok : bool) (l : ScLoop) (data : bytes) (Hs : (length data < 12)%nat) :
  secure_channel_step ticks ok l (ScReader data) = Panic.
Proof.
  simpl. unfold handle_incoming, decrypt_incoming, try_decrypt, decrypt, ENC_NONCE_LEN.
  rewrite (proj2 (Nat.ltb_lt _ _) Hs). by destruct (sc_opt_old_receiver _).
Qed.
End Theorems.

(** ** A concrete channel *)
Module ScToy.
Import Toy FunderSamples.

Definition add_bytes (a b : bytes) : bytes :=
  zip_with (fun x y => byte_of_Z (Z.of_N (Byte.to_N x) + Z.of_N (Byte.to_N y))) a b.

Lemma add_bytes_comm a b : add_bytes a b = add_bytes b a.
Proof.
  revert b. induction a as [|x a IH]; intros [|y b]; simpl; try done. unfold add_bytes in *. simpl.
  rewrite IH. by rewrite Z.add_comm.
Qed.

(** The cipher of the sample prefixes the key and the nonce. *)
#[export] Instance toy_sc : ScCryptoOps := {|
  DhPrivateKey := fixed_bytes 32;
  dh_private_key_new g := rng_fill 32 g;
  compute_public_key k := k;
  diffie_hellman k p := add_bytes (as_bytes k) (as_bytes p);
  hkdf_sha512_256 salt secret := toy_hash (secret ++ as_bytes salt);
  chacha_encrypt key nonce plain := Some (as_bytes key ++ nonce ++ plain);
  chacha_decrypt key nonce cipher :=
    if decide (take (32 + length nonce) cipher = as_bytes key ++ nonce) then Some (drop (32 + length nonce) cipher)
    else None
|}.

#[export] Instance toy_sc_laws : ScCryptoLaws.
Proof.
  split; simpl.
  - intros a b. apply add_bytes_comm.
  - intros key nonce plain cipher [= <-]. rewrite app_assoc.
    assert (length (as_bytes key ++ nonce) = (32 + length nonce)%nat) as Hl by (by rewrite length_app, as_bytes_length).
    rewrite take_app_length', drop_app_length' by done. by rewrite decide_True.
Qed.

(** Encoding by the numbering of a countable type, as bits. *)
Fixpoint bits_of (p : positive) : bytes :=
  match p with xH => [] | xO p => Byte.x00 :: bits_of p | xI p => Byte.x01 :: bits_of p end.
Fixpoint of_bits (l : bytes) : positive :=
  match l with [] => xH | Byte.x00 :: l => xO (of_bits l) | _ :: l => xI (of_bits l) end.
Lemma of_bits_of p : of_bits (bits_of p) = p.
Proof. induction p as [p IH|p IH|]; simpl; by rewrite ?IH. Qed.

#[export] Instance countable_proto `{Countable A} : ProtoSerialize A := {|
  proto_serialize x := bits_of (encode x);
  proto_deserialize l := decode (of_bits l)
|}.
#[export] Instance countable_proto_laws `{Countable A} : ProtoSerializeLaws A.
Proof. split. intros x. simpl. rewrite of_bits_of. apply decode_encode. Qed.

#[export] Instance Rekey_eq_dec : EqDecision Rekey.
Proof. solve_decision. Defined.
#[export] Instance ChannelContent_eq_dec : EqDecision ChannelContent.
Proof. solve_decision. Defined.
#[export] Instance ChannelMessage_eq_dec : EqDecision ChannelMessage.
Proof. solve_decision. Defined.
#[export] Program Instance ChannelMessage_countable : Countable ChannelMessage :=
  inj_countable' (fun m => (cm_rand_padding m,
      match cm_content m with
      | ContentRekey r => inl (rk_dh_public_key r, rk_key_salt r)
      | ContentUser d => inr d
      end))
    (fun '(pad, c) => mkChannelMessage pad (match c with inl (k, s) => ContentRekey (mkRekey k s) | inr d => ContentUser d end)) _.
Next Obligation. by intros [pad [[]|]]. Qed.
#[export] Instance ExchangeRandNonce_eq_dec : EqDecision ExchangeRandNonce.
Proof. solve_decision. Defined.
#[export] Program Instance ExchangeRandNonce_countable : Countable ExchangeRandNonce :=
  inj_countable' (fun m => (ern_rand_nonce m, ern_src_public_key m, ern_opt_dest_public_key m))
    (fun '(n, s, d) => mkExchangeRandNonce n s d) _.
Next Obligation. by intros []. Qed.
#[export] Instance ExchangeDh_eq_dec : EqDecision ExchangeDh.
Proof. solve_decision. Defined.
#[export] Program Instance ExchangeDh_countable : Countable ExchangeDh :=
  inj_countable' (fun m => (ed_dh_public_key m, ed_rand_nonce m, ed_key_salt m, ed_signature m))
    (fun '(k, n, s, sg) => mkExchangeDh k n s sg) _.
Next Obligation. by intros []. Qed.

Definition seed (z : Z) : rng := z.

Lemma handshake_agreement_witness :
  exists a b msgs_a msgs_b,
    initial_exchange alice (Some bob) (true, true) msgs_b (seed 0) = Ok (a, msgs_a, []) /\
    initial_exchange bob None (true, true) msgs_a (seed 7) = Ok (b, msgs_b, []) /\
    sc_local_public_key a = alice /\ sc_local_public_key b = bob /\ joined a b.
Proof.
  apply (handshake_agreement alice bob _ _ (Some bob) None (seed 0) (seed 7)); [by right|by left].
Defined.

(** The padding is not bounded by [MAX_RAND_PADDING]. *)
Lemma padding_exceeds_maximum : MAX_RAND_PADDING < Z.of_nat (length (fst (gen_rand_padding (seed 2)))).
Proof. by vm_compute. Qed.

(** Two joined sides; the user of the first sends a byte, which arrives. *)
Definition key (b : Byte.byte) : SymmetricKey := fixed_of_prefix 32 [b].
Definition side (local remote : PublicKey) (send recv : SymmetricKey) : ScLoop :=
  mkScLoop (mkScState local remote (encryptor_new send) (decryptor_new recv) None None) 0 (seed 0).
Definition side_a : ScLoop := side alice bob (key Byte.x01) (key Byte.x02).
Definition side_b : ScLoop := side bob alice (key Byte.x02) (key Byte.x01).

Lemma secure_channel_fifo_witness :
  exists p, rtc (pair_step 5) (fresh_pair side_a side_b) p /\ sent_a p = [[Byte.x2a]] /\
    recv_b p `prefix_of` sent_a p.
Proof.
  eexists. split.
  - apply rtc_once, step_a. eapply side_step_intro; [apply (side_user _ [Byte.x2a])|reflexivity].
  - split; [reflexivity|].
    eapply (secure_channel_fifo 5 side_a side_b).
    + intros k n pad r. by eexists.
    + split; [done|]. split; [done|]. split; [|done]. by exists (key Byte.x01), (key Byte.x02).
    + apply rtc_once, step_a. eapply side_step_intro; [apply (side_user _ [Byte.x2a])|reflexivity].
    + by vm_compute.
Defined.
End ScToy.
