(* ===== verification/Effects.v ===== *)
(** * Tasks that send messages

    The tasks around the core (compact node, channeler, relay) keep a state and
    write to channels, sockets and files. A task is a function from its state and
    the log of what it did to an outcome that keeps both: after an error or a
    crash the log says what the others have seen. Whether an effect succeeds is
    decided by the environment, a function of its position in the log. [wp] is the
    weakest precondition of a task for a postcondition, a condition on errors,
    and whether it may panic. *)

From S2P Require Import Prelude.

Inductive eres (S E Act A : Type) : Type :=
| EOk (a : A) (s : S) (log : list Act)
| EErr (e : E) (s : S) (log : list Act)
| EPanic.
Arguments EOk {S E Act A}. Arguments EErr {S E Act A}. Arguments EPanic {S E Act A}.

Definition Eff (S E Act A : Type) : Type := S -> list Act -> eres S E Act A.

Section Eff.
Context {S E Act : Type}.
Notation M := (Eff S E Act).

Definition eret {A} (a : A) : M A := fun s l => EOk a s l.
Definition ebind {A A'} (m : M A) (k : A -> M A') : M A' := fun s l =>
  match m s l with
  | EOk a s' l' => k a s' l'
  | EErr e s' l' => EErr e s' l'
  | EPanic => EPanic
  end.
Definition eget : M S := fun s l => EOk s s l.
Definition eput (s : S) : M unit := fun _ l => EOk tt s l.
Definition epanic {A} : M A := fun _ _ => EPanic.
Definition efail {A} (e : E) : M A := fun s l => EErr e s l.
Definition eunwrap {A} (o : option A) : M A := match o with Some a => eret a | None => epanic end.

(** An effect: it succeeds or fails with [e], as the environment decides. *)
Definition emit (ok : nat -> bool) (e : E) (a : Act) : M unit := fun s l =>
  if ok (length l) then EOk tt s (l ++ [a]) else EErr e s l.

(** A [for] loop. *)
Fixpoint efor {A} (l : list A) (body : A -> M unit) : M unit :=
  match l with
  | [] => eret tt
  | x :: l' => ebind (body x) (fun _ => efor l' body)
  end.
End Eff.

Notation "'let*' x ':=' c 'in' k" := (ebind c (fun x => k))
  (at level 10, x pattern, c at level 100, k at level 200,
   format "'[v' 'let*'  x  ':='  c  'in' '/' k ']'") : rust_scope.

(** ** Weakest preconditions *)
Section Wp.
Context {S E Act : Type}.
Notation M := (Eff S E Act).
Implicit Types (X : S -> list Act -> Prop) (Pn : Prop).

Definition wp {A} Pn X (m : M A) (Q : A -> S -> list Act -> Prop) (s : S) (l : list Act) : Prop :=
  match m s l with
  | EOk a s' l' => Q a s' l'
  | EErr _ s' l' => X s' l'
  | EPanic => Pn
  end.

Lemma wp_ret {A} Pn X (a : A) Q s l : Q a s l -> wp Pn X (eret a) Q s l.
Proof. done. Qed.
Lemma wp_bind {A A'} Pn X (m : M A) (k : A -> M A') Q s l :
  wp Pn X m (fun a => wp Pn X (k a) Q) s l -> wp Pn X (ebind m k) Q s l.
Proof. unfold wp, ebind. by destruct (m s l). Qed.
Lemma wp_get Pn X Q s l : Q s s l -> wp Pn X eget Q s l.
Proof. done. Qed.
Lemma wp_put Pn X s' Q s l : Q tt s' l -> wp Pn X (eput s') Q s l.
Proof. done. Qed.
Lemma wp_emit ok Pn X e a Q s l : X s l -> Q tt s (l ++ [a]) -> wp Pn X (emit ok e a) Q s l.
Proof. unfold wp, emit. by destruct (ok (length l)). Qed.
Lemma wp_emit_env (ok : nat -> bool) Pn X e a Q s l :
  (ok (length l) = false -> X s l) -> (ok (length l) = true -> Q tt s (l ++ [a])) -> wp Pn X (emit ok e a) Q s l.
Proof. unfold wp, emit. destruct (ok (length l)); auto. Qed.
Lemma wp_unwrap {A} Pn X (o : option A) Q s l :
  (o = None -> Pn) -> (forall a, o = Some a -> Q a s l) -> wp Pn X (eunwrap o) Q s l.
Proof. destruct o; simpl; intros Hn Hs; [by apply Hs|by apply Hn]. Qed.
Lemma wp_mono {A} Pn X (m : M A) (Q Q' : A -> S -> list Act -> Prop) s l :
  (forall a s' l', Q a s' l' -> Q' a s' l') -> wp Pn X m Q s l -> wp Pn X m Q' s l.
Proof. unfold wp. destruct (m s l); auto. Qed.
Lemma wp_conseq {A} Pn Pn' X X' (m : M A) (Q Q' : A -> S -> list Act -> Prop) s l :
  (Pn -> Pn') -> (forall s' l', X s' l' -> X' s' l') -> (forall a s' l', Q a s' l' -> Q' a s' l') ->
  wp Pn X m Q s l -> wp Pn' X' m Q' s l.
Proof. unfold wp. destruct (m s l); auto. Qed.

(** A loop whose body keeps an invariant. *)
Lemma wp_for {A} Pn X (I : list A -> S -> list Act -> Prop) (body : A -> M unit) xs s l :
  (forall x xs' s l, I (x :: xs') s l -> wp Pn X (body x) (fun _ => I xs') s l) ->
  I xs s l -> wp Pn X (efor xs body) (fun _ => I []) s l.
Proof.
  intros Hb. revert s l. induction xs as [|x xs IH]; intros s l HI; [by apply wp_ret|].
  cbn [efor]. apply wp_bind. eapply wp_mono; [|by apply Hb]. intros [] s' l' H'. by apply IH.
Qed.
End Wp.

Create HintDb effects discriminated.
#[export] Hint Resolve wp_ret wp_get wp_put : effects.

(** One step through straight-line code. *)
Ltac wp_step :=
  match goal with
  | |- wp _ _ (ebind _ _) _ _ _ => apply wp_bind
  | |- wp _ _ (eret _) _ _ _ => apply wp_ret
  | |- wp _ _ eget _ _ _ => apply wp_get
  | |- wp _ _ (eput _) _ _ _ => apply wp_put
  end; cbn beta.
