(* ===== verification/Database.v ===== *)
(** * The database ([database/src], [common/src/mutable_state.rs])

    A state that is changed by mutations is kept in a file: a batch of mutations
    is applied in memory and the whole state is written atomically. The service
    handles one batch after another and acknowledges each one after the write.

    [serde_json] and the file system are outside of the repository: the former is
    a class with the law that reading undoes writing, the latter a map from paths
    to contents, in which a write happens entirely or not at all, as the crate
    [atomicwrites] documents. *)

From S2P Require Import Prelude.

(** [MutableState] *)
Class MutableState (S Mutation MutateError : Type) := mutate : S -> Mutation -> outcome MutateError S.

(** [Serialize] and [DeserializeOwned], through [serde_json]. *)
Class Serde (S : Type) := {
  to_string_pretty : S -> option string;
  from_str : string -> option S
}.
Class SerdeLaws (S : Type) `{Serde S} : Prop := {
  from_to_string s t : to_string_pretty s = Some t -> from_str t = Some s
}.

Notation FileSystem := (gmap string string).

(** ** [file_db.rs] *)

Inductive FileDbError (ME : Type) :=
| OpenError | ReadError | WriteError | SerdeJsonError | MutateError (e : ME) | FileAlreadyExists.
Arguments OpenError {ME}. Arguments ReadError {ME}. Arguments WriteError {ME}. Arguments SerdeJsonError {ME}.
Arguments MutateError {ME}. Arguments FileAlreadyExists {ME}.

Record FileDb (S : Type) := mkFileDb { path_buf : string; fdb_state : S }.
Arguments mkFileDb {S}. Arguments path_buf {S}. Arguments fdb_state {S}.

Section FileDb.
Context {S Mut ME : Type} `{MutableState S Mut ME} `{Serde S}.
Implicit Types (fs : FileSystem) (db : FileDb S).

(** [write_ok] is whether the file system carries out the write. *)
Definition file_db_create (write_ok : bool) fs (path : string) (initial_state : S) :
  outcome (FileDbError ME) (FileSystem * FileDb S) :=
  let? _ := guard_or (bool_decide (fs !! path = None)) FileAlreadyExists in
  let? ser_string := ok_or (to_string_pretty initial_state) SerdeJsonError in
  let? _ := guard_or write_ok WriteError in
  let fs := <[path := ser_string]> fs in
  let? state := ok_or (from_str ser_string) SerdeJsonError in
  Ok (fs, mkFileDb path state).

Definition file_db_load fs (path : string) : outcome (FileDbError ME) (FileDb S) :=
  let? ser_string := ok_or (fs !! path) OpenError in
  let? state := ok_or (from_str ser_string) SerdeJsonError in
  Ok (mkFileDb path state).

Definition mutate_db (write_ok : bool) fs db (mutations : list Mut) :
  outcome (FileDbError ME) (FileSystem * FileDb S) :=
  let? state := ofold (fun s m => map_err MutateError (mutate s m)) (fdb_state db) mutations in
  let? ser_string := ok_or (to_string_pretty state) SerdeJsonError in
  let? _ := guard_or write_ok WriteError in
  Ok (<[path_buf db := ser_string]> fs, mkFileDb (path_buf db) state).

(** ** [database.rs] *)

(** [database_loop] over the requests it receives, each with whether its write
    succeeds; it returns the file system, the acknowledged batches, and whether it
    is still running. An error drops the request without an acknowledgement. *)
Fixpoint database_loop fs db (requests : list (list Mut * bool)) : FileSystem * list (list Mut) * bool :=
  match requests with
  | [] => (fs, [], true)
  | (mutations, write_ok) :: rest =>
      match mutate_db write_ok fs db mutations with
      | Ok (fs, db) =>
          let '(fs, acked, alive) := database_loop fs db rest in (fs, mutations :: acked, alive)
      | _ => (fs, [], false)
      end
  end.

(** ** Theory *)
Context `{!SerdeLaws S}.

(** The state after acknowledged batches. *)
Definition replay (s : S) (batches : list (list Mut)) : outcome ME S := ofold mutate s (concat batches).

Lemma ofold_map_err s ms (f : ME -> FileDbError ME) :
  ofold (fun s m => map_err f (mutate s m)) s ms = map_err f (ofold mutate s ms).
Proof. revert s. induction ms as [|m ms IH]; intros s; simpl; [done|]. destruct (mutate s m); simpl; auto. Qed.

Lemma mutate_db_Ok write_ok fs db ms fs' db' :
  mutate_db write_ok fs db ms = Ok (fs', db') ->
  path_buf db' = path_buf db /\ ofold mutate (fdb_state db) ms = Ok (fdb_state db') /\
  (exists t, fs' = <[path_buf db := t]> fs /\ to_string_pretty (fdb_state db') = Some t).
Proof.
  unfold mutate_db. rewrite ofold_map_err. intros Hm.
  destruct (ofold mutate (fdb_state db) ms) as [s| |]; simpl in Hm; try done.
  destruct (to_string_pretty s) as [t|] eqn:Ht; simpl in Hm; [|done].
  destruct write_ok; simpl in Hm; [|done]. injection Hm as <- <-. eauto.
Qed.

Lemma database_loop_spec fs db requests fs' acked alive t :
  fs !! path_buf db = Some t -> to_string_pretty (fdb_state db) = Some t ->
  database_loop fs db requests = (fs', acked, alive) ->
  acked `prefix_of` requests.*1 /\
  (alive = true -> acked = requests.*1) /\
  (forall path, path <> path_buf db -> fs' !! path = fs !! path) /\
  exists s t', replay (fdb_state db) acked = Ok s /\ fs' !! path_buf db = Some t' /\ to_string_pretty s = Some t'.
Proof.
  revert fs db t acked. induction requests as [|[ms write_ok] requests IH]; intros fs db t acked Hfs Ht Hrun; simpl in Hrun.
  - injection Hrun as <- <- <-. split_and!; [done..|]. by exists (fdb_state db), t.
  - destruct (mutate_db write_ok fs db ms) as [[fs1 db1]|e|] eqn:Hm.
    + destruct (database_loop fs1 db1 requests) as [[fs2 acked2] alive2] eqn:Hl. injection Hrun as <- <- <-.
      apply mutate_db_Ok in Hm as (Hpath & Hs & t1 & -> & Ht1).
      destruct (IH _ _ t1 _ (ltac:(by rewrite Hpath, lookup_insert_eq)) Ht1 Hl) as (Hpre & Hal & Hother & s & t' & Hr & Hf & Hst).
      split_and!.
      * simpl. by apply prefix_cons.
      * intros ->. simpl. by rewrite Hal.
      * intros path Hne. rewrite Hother by congruence. by rewrite lookup_insert_ne.
      * exists s, t'. split_and!; [|by rewrite <- Hpath|done]. unfold replay in *. cbn [concat].
        rewrite ofold_app, Hs. exact Hr.
    + injection Hrun as <- <- <-. split_and!; [apply prefix_nil|done|done|]. by exists (fdb_state db), t.
    + injection Hrun as <- <- <-. split_and!; [apply prefix_nil|done|done|]. by exists (fdb_state db), t.
Qed.

Lemma file_db_load_of fs path s t :
  fs !! path = Some t -> to_string_pretty s = Some t -> file_db_load fs path = Ok (mkFileDb path s).
Proof.
  intros Hf Ht. unfold file_db_load. rewrite Hf. simpl. by rewrite (from_to_string s t Ht).
Qed.

Lemma file_db_create_Ok write_ok fs path s0 fs' db :
  file_db_create write_ok fs path s0 = Ok (fs', db) ->
  db = mkFileDb path s0 /\ fs !! path = None /\
  exists t, fs' = <[path := t]> fs /\ to_string_pretty s0 = Some t.
Proof.
  unfold file_db_create. case_bool_decide as Hn; simpl; [|done].
  destruct (to_string_pretty s0) as [t|] eqn:Ht; simpl; [|done]. destruct write_ok; simpl; [|done].
  rewrite (from_to_string _ _ Ht). simpl. intros Hx. injection Hx as <- <-. eauto.
Qed.
End FileDb.

(** What the database acknowledged is what a later load finds: after creating a
    database and handling any requests, of which any write may fail, the
    acknowledged batches are a prefix of the requests, loading the file gives the
    initial state with exactly these batches applied, and other files are
    untouched. *)
Theorem acknowledged_is_durable {S Mut ME : Type} `{MutableState S Mut ME} `{Serde S} `{!SerdeLaws S}
  (fs fs1 fs2 : FileSystem) (path : string) (s0 : S) (db : FileDb S) (requests : list (list Mut * bool))
  (acked : list (list Mut)) (alive : bool)
  (Hcreate : file_db_create (ME := ME) true fs path s0 = Ok (fs1, db))
  (Hloop : database_loop fs1 db requests = (fs2, acked, alive)) :
  acked `prefix_of` requests.*1 /\ (alive = true -> acked = requests.*1) /\
  (exists s, replay s0 acked = Ok s /\ file_db_load (ME := ME) fs2 path = Ok (mkFileDb path s)) /\
  forall other, other <> path -> fs2 !! other = fs !! other.
Proof.
  apply file_db_create_Ok in Hcreate as (-> & Hn & t & -> & Ht).
  destruct (database_loop_spec _ (mkFileDb path s0) _ _ _ _ t (lookup_insert_eq _ _ _) Ht Hloop)
    as (Hpre & Hal & Hother & s & t' & Hr & Hf & Hs).
  split_and!; [done|done| |].
  - exists s. split; [done|]. by eapply file_db_load_of.
  - intros other Hne. rewrite Hother by done. by rewrite lookup_insert_ne.
Qed.

Module DatabaseSamples.
(** A state of one bit, flipped by its mutations; it cannot be cleared twice. *)
Definition bit_mutate (s m : bool) : outcome unit bool :=
  if m then Ok (negb s) else if s then Ok false else Err tt.
#[export] Instance bit_mutable : MutableState bool bool unit := bit_mutate.
#[export] Instance bit_serde : Serde bool := {|
  to_string_pretty (s : bool) := Some (if s then "1" else "0")%string;
  from_str (t : string) := if decide (t = "1"%string) then Some true else if decide (t = "0"%string) then Some false else None
|}.
#[export] Instance bit_serde_laws : SerdeLaws bool.
Proof. split. by intros [] t [= <-]. Qed.

Definition requests : list (list bool * bool) := [([true], true); ([true; true], true); ([true], false); ([true], true)].
Definition created : FileSystem := {["db"%string := "0"%string]}.
Definition handled : FileSystem := {["db"%string := "1"%string]}.

Lemma acknowledged_is_durable_witness :
  exists s, replay (Mut := bool) (ME := unit) false [[true]; [true; true]] = Ok s /\
    file_db_load (ME := unit) handled "db" = Ok (mkFileDb "db"%string s).
Proof.
  destruct (acknowledged_is_durable (ME := unit) ∅ created handled "db" false (mkFileDb "db"%string false) requests
    [[true]; [true; true]] false) as (_ & _ & H & _); [reflexivity|vm_compute; reflexivity|exact H].
Defined.
End DatabaseSamples.
