(* ===== verification/AppConn.v ===== *)
(** * Requests of an application ([app/src/app_conn])

    The functions applications use to build requests for the application
    server; each module of the source is a [Module] here. *)

From S2P Require Import Prelude Bytes Messages FunderState HandleControl IndexMessages AppServer.

Module buyer.
Section Buyer.
Context {B : Type}.
Definition create_payment (payment_id : PaymentId) (invoice_id : InvoiceId) (currency : Currency)
    (total_dest_payment : Z) (dest_public_key : PublicKey) : AppRequest B :=
  AppCreatePayment (mkCreatePayment payment_id invoice_id currency total_dest_payment dest_public_key).
Definition create_transaction (payment_id : PaymentId) (request_id : Uid) (route : FriendsRoute)
    (dest_payment fees : Z) : AppRequest B :=
  AppCreateTransaction (mkCreateTransaction payment_id request_id route dest_payment fees).
Definition request_close_payment (payment_id : PaymentId) : AppRequest B := AppRequestClosePayment payment_id.
Definition ack_close_payment (payment_id : PaymentId) (ack_uid : Uid) : AppRequest B :=
  AppAckClosePayment (mkAckClosePayment payment_id ack_uid).
End Buyer.
End buyer.

Module config.
Section Config.
Context {B : Type}.
Definition add_relay (named_relay_address : NamedRelayAddress B) : AppRequest B := AppAddRelay named_relay_address.
Definition remove_relay (relay_public_key : PublicKey) : AppRequest B := AppRemoveRelay relay_public_key.
Definition add_friend (friend_public_key : PublicKey) (relays : list (RelayAddress B)) (name : string) : AppRequest B :=
  AppAddFriend (mkAddFriend friend_public_key relays name).
Definition set_friend_relays (friend_public_key : PublicKey) (relays : list (RelayAddress B)) : AppRequest B :=
  AppSetFriendRelays (mkSetFriendRelays friend_public_key relays).
Definition set_friend_name (friend_public_key : PublicKey) (name : string) : AppRequest B :=
  AppSetFriendName (mkSetFriendName friend_public_key name).
Definition remove_friend (friend_public_key : PublicKey) : AppRequest B := AppRemoveFriend friend_public_key.
Definition enable_friend (friend_public_key : PublicKey) : AppRequest B := AppEnableFriend friend_public_key.
Definition disable_friend (friend_public_key : PublicKey) : AppRequest B := AppDisableFriend friend_public_key.
Definition remove_friend_currency (friend_public_key : PublicKey) (currency : Currency) : AppRequest B :=
  AppRemoveFriendCurrency (HandleControl.mkRemoveFriendCurrency friend_public_key currency).
Definition open_friend_currency (friend_public_key : PublicKey) (currency : Currency) : AppRequest B :=
  AppOpenFriendCurrency (mkOpenFriendCurrency friend_public_key currency).
Definition close_friend_currency (friend_public_key : PublicKey) (currency : Currency) : AppRequest B :=
  AppCloseFriendCurrency (mkCloseFriendCurrency friend_public_key currency).
Definition set_friend_currency_max_debt (friend_public_key : PublicKey) (currency : Currency)
    (remote_max_debt : Z) : AppRequest B :=
  AppSetFriendCurrencyMaxDebt (mkSetMaxDebt friend_public_key currency remote_max_debt).
Definition set_friend_currency_rate (friend_public_key : PublicKey) (currency : Currency) (rate : Rate) : AppRequest B :=
  AppSetFriendCurrencyRate (mkSetRate friend_public_key currency rate).
Definition reset_friend_channel (friend_public_key : PublicKey) (reset_token : Signature) : AppRequest B :=
  AppResetFriendChannel (mkResetFriendChannel friend_public_key reset_token).
Definition add_index_server (named_index_server : NamedIndexServerAddress B) : AppRequest B :=
  AppAddIndexServer named_index_server.
Definition remove_index_server (index_public_key : PublicKey) : AppRequest B := AppRemoveIndexServer index_public_key.
End Config.
End config.

Module routes.
Definition request_routes {B : Type} (request_routes_id : Uid) (currency : Currency) (capacity : Z)
    (source destination : PublicKey) (opt_exclude : option (PublicKey * PublicKey)) : AppRequest B :=
  AppRequestRoutes (mkRequestRoutes request_routes_id currency capacity source destination
    (option_map (fun '(from_public_key, to_public_key) => mkEdge from_public_key to_public_key) opt_exclude)).
End routes.

Module seller.
Section Seller.
Context {B : Type}.
Definition add_invoice (invoice_id : InvoiceId) (currency : Currency) (total_dest_payment : Z) : AppRequest B :=
  AppAddInvoice (mkAddInvoice invoice_id currency total_dest_payment).
Definition cancel_invoice (invoice_id : InvoiceId) : AppRequest B := AppCancelInvoice invoice_id.
Definition commit_invoice (commit : Commit) : AppRequest B := AppCommitInvoice commit.
End Seller.
End seller.
