(* ===== verification/CompactMessages.v ===== *)
(** * Messages between a user and the compact node

    Models [stcompact/src/compact_node/messages.rs] and [permission.rs]. The
    types carry the names of the source, and hide those of the same names that
    belong to the funder and to the application server, from which
    [CompactNode] converts. *)

From S2P Require Import Prelude Arith Bytes Messages IndexMessages AppServer.

Local Open Scope Z_scope.

(** [Generation]; [None] is the panic after [2 ^ 64] items. *)
Record Generation := mkGeneration { generation_value : Z }.
Definition generation_new : Generation := mkGeneration 0.
Definition advance (g : Generation) : option (Generation * Generation) :=
  let! next := checked_u 64 (generation_value g + 1) in Some (g, mkGeneration next).

Record Commit := mkCommit {
  ccm_response_hash : HashResult;
  ccm_src_plain_lock : PlainLock;
  ccm_dest_hashed_lock : HashedLock;
  ccm_dest_payment : Z;
  ccm_total_dest_payment : Z;
  ccm_invoice_id : InvoiceId;
  ccm_currency : Currency;
  ccm_signature : Signature
}.

(** ** Configuration *)

Record OpenFriendCurrency := mkOpenFriendCurrency { of_friend_public_key : PublicKey; of_currency : Currency }.
Record CloseFriendCurrency := mkCloseFriendCurrency { cf_friend_public_key : PublicKey; cf_currency : Currency }.
Record AddFriend (B : Type) := mkAddFriend {
  adf_friend_public_key : PublicKey; adf_relays : list (RelayAddress B); adf_name : string }.
Arguments mkAddFriend {B}. Arguments adf_friend_public_key {B}. Arguments adf_relays {B}. Arguments adf_name {B}.
Record SetFriendRelays (B : Type) := mkSetFriendRelays {
  sfl_friend_public_key : PublicKey; sfl_relays : list (RelayAddress B) }.
Arguments mkSetFriendRelays {B}. Arguments sfl_friend_public_key {B}. Arguments sfl_relays {B}.
Record SetFriendName := mkSetFriendName { sfm_friend_public_key : PublicKey; sfm_name : string }.
Record SetFriendCurrencyMaxDebt := mkSetFriendCurrencyMaxDebt {
  sfd_friend_public_key : PublicKey; sfd_currency : Currency; sfd_remote_max_debt : Z }.
Record RemoveFriendCurrency := mkRemoveFriendCurrency { rmc_friend_public_key : PublicKey; rmc_currency : Currency }.
Record ResetFriendChannel := mkResetFriendChannel { rsc_friend_public_key : PublicKey; rsc_reset_token : Signature }.
Record SetFriendCurrencyRate := mkSetFriendCurrencyRate {
  sfa_friend_public_key : PublicKey; sfa_currency : Currency; sfa_rate : Rate }.

(** ** Buyer, seller and verification *)

Record InitPayment := mkInitPayment {
  ip_payment_id : PaymentId;
  ip_invoice_id : InvoiceId;
  ip_currency : Currency;
  ip_dest_public_key : PublicKey;
  ip_dest_payment : Z;
  ip_description : string
}.

Inductive PaymentFeesResponse :=
| Unreachable
| Fees (fees : Z) (confirm_id : Uid).
Record PaymentFees := mkPaymentFees { pf_payment_id : PaymentId; pf_response : PaymentFeesResponse }.

Inductive PaymentDoneStatus :=
| DoneFailure (ack_uid : Uid)
| DoneSuccess (receipt : Receipt) (fees : Z) (ack_uid : Uid).
Record PaymentDone := mkPaymentDone { pd_payment_id : PaymentId; pd_status : PaymentDoneStatus }.

Record PaymentCommit := mkPaymentCommit { pc_payment_id : PaymentId; pc_commit : Commit }.

Record RequestVerifyCommit := mkRequestVerifyCommit { rvc_request_id : Uid; rvc_commit : Commit }.
Inductive VerifyCommitStatus := VerifyFailure | VerifySuccess.
Record ResponseVerifyCommit := mkResponseVerifyCommit { rsv_request_id : Uid; rsv_status : VerifyCommitStatus }.

Record ConfirmPaymentFees := mkConfirmPaymentFees { cpf_payment_id : PaymentId; cpf_confirm_id : Uid }.

Record AddInvoice := mkAddInvoice {
  adi_invoice_id : InvoiceId;
  adi_currency : Currency;
  adi_total_dest_payment : Z;
  adi_description : string
}.

(** ** Reports *)

Inductive RequestsStatusReport := StatusOpen | StatusClosed.

Record ConfigReport := mkConfigReport { cfr_rate : Rate; cfr_remote_max_debt : Z; cfr_is_open : bool }.

Inductive FriendLivenessReport := LiveOnline | LiveOffline.

Record ResetTermsReport := mkResetTermsReport {
  crt_reset_token : Signature; crt_balance_for_reset : gmap Currency Z }.
Record ChannelInconsistentReport := mkChannelInconsistentReport {
  cci_local_reset_terms : gmap Currency Z; cci_opt_remote_reset_terms : option ResetTermsReport }.
Record CurrencyReport := mkCurrencyReport {
  ccu_balance : Z; ccu_local_pending_debt : Z; ccu_remote_pending_debt : Z }.
Record ChannelConsistentReport := mkChannelConsistentReport { ccc_currency_reports : gmap Currency CurrencyReport }.
Inductive ChannelStatusReport :=
| StatusInconsistent (r : ChannelInconsistentReport)
| StatusConsistent (r : ChannelConsistentReport).

Inductive FriendStatusReport := StatusEnabled | StatusDisabled.

Record BalanceInfo := mkBalanceInfo {
  cbn_balance : Z; cbn_local_pending_debt : Z; cbn_remote_pending_debt : Z }.
Record McInfo := mkMcInfo {
  cmi_local_public_key : PublicKey; cmi_remote_public_key : PublicKey; cmi_balances : gmap Currency BalanceInfo }.
Record CountersInfo := mkCountersInfo { cco_inconsistency_counter : Z; cco_move_token_counter : Z }.
Record TokenInfo := mkTokenInfo { cti_mc : McInfo; cti_counters : CountersInfo }.
Record MoveTokenHashedReport := mkMoveTokenHashedReport {
  cmt_prefix_hash : HashResult; cmt_token_info : TokenInfo; cmt_rand_nonce : RandValue; cmt_new_token : Signature }.

Record FriendReport := mkFriendReport {
  cfp_name : string;
  cfp_currency_configs : gmap Currency ConfigReport;
  cfp_opt_last_incoming_move_token : option MoveTokenHashedReport;
  cfp_liveness : FriendLivenessReport;
  cfp_channel_status : ChannelStatusReport;
  cfp_status : FriendStatusReport
}.

Record OpenInvoice := mkOpenInvoice {
  coi_currency : Currency;
  coi_total_dest_payment : Z;
  coi_description : string;
  coi_is_committed : bool;
  coi_generation : Generation
}.

Inductive OpenPaymentStatus :=
| RepSearchingRoute (request_routes_id : Uid)
| RepFoundRoute (confirm_id : Uid) (fees : Z)
| RepSending (fees : Z)
| RepCommit (commit : Commit) (fees : Z)
| RepSuccess (receipt : Receipt) (fees : Z) (ack_uid : Uid)
| RepFailure (ack_uid : Uid).

Record OpenPayment := mkOpenPayment {
  cop_invoice_id : InvoiceId;
  cop_currency : Currency;
  cop_dest_public_key : PublicKey;
  cop_dest_payment : Z;
  cop_description : string;
  cop_generation : Generation;
  cop_status : OpenPaymentStatus
}.

Record CompactReport (B : Type) := mkCompactReport {
  crp_local_public_key : PublicKey;
  crp_index_servers : list (NamedIndexServerAddress B);
  crp_opt_connected_index_server : option PublicKey;
  crp_relays : list (NamedRelayAddress B);
  crp_friends : gmap PublicKey FriendReport;
  crp_open_invoices : gmap InvoiceId OpenInvoice;
  crp_open_payments : gmap PaymentId OpenPayment
}.
Arguments mkCompactReport {B}. Arguments crp_local_public_key {B}. Arguments crp_index_servers {B}.
Arguments crp_opt_connected_index_server {B}. Arguments crp_relays {B}. Arguments crp_friends {B}.
Arguments crp_open_invoices {B}. Arguments crp_open_payments {B}.

(** ** The two directions *)

Inductive CompactToUser (B : Type) :=
| CuPaymentFees (x : PaymentFees)
| CuPaymentCommit (x : PaymentCommit)
| CuPaymentDone (x : PaymentDone)
| CuReport (r : CompactReport B)
| CuResponseVerifyCommit (x : ResponseVerifyCommit).
Arguments CuPaymentFees {B}. Arguments CuPaymentCommit {B}. Arguments CuPaymentDone {B}.
Arguments CuReport {B}. Arguments CuResponseVerifyCommit {B}.

Inductive CompactToUserAck (B : Type) :=
| Ack (request_id : Uid)
| ToUser (m : CompactToUser B).
Arguments Ack {B}. Arguments ToUser {B}.

Inductive UserToCompact (B : Type) :=
| UcAddRelay (r : NamedRelayAddress B)
| UcRemoveRelay (pk : PublicKey)
| UcAddIndexServer (a : NamedIndexServerAddress B)
| UcRemoveIndexServer (pk : PublicKey)
| UcAddFriend (a : AddFriend B)
| UcSetFriendRelays (x : SetFriendRelays B)
| UcSetFriendName (x : SetFriendName)
| UcRemoveFriend (pk : PublicKey)
| UcEnableFriend (pk : PublicKey)
| UcDisableFriend (pk : PublicKey)
| UcOpenFriendCurrency (x : OpenFriendCurrency)
| UcCloseFriendCurrency (x : CloseFriendCurrency)
| UcSetFriendCurrencyMaxDebt (x : SetFriendCurrencyMaxDebt)
| UcSetFriendCurrencyRate (x : SetFriendCurrencyRate)
| UcRemoveFriendCurrency (x : RemoveFriendCurrency)
| UcResetFriendChannel (x : ResetFriendChannel)
| UcInitPayment (x : InitPayment)
| UcConfirmPaymentFees (x : ConfirmPaymentFees)
| UcCancelPayment (payment_id : PaymentId)
| UcAckPaymentDone (payment_id : PaymentId) (ack_uid : Uid)
| UcAddInvoice (x : AddInvoice)
| UcCancelInvoice (invoice_id : InvoiceId)
| UcRequestVerifyCommit (x : RequestVerifyCommit)
| UcCommitInvoice (invoice_id : InvoiceId).
Arguments UcAddRelay {B}. Arguments UcRemoveRelay {B}. Arguments UcAddIndexServer {B}.
Arguments UcRemoveIndexServer {B}. Arguments UcAddFriend {B}. Arguments UcSetFriendRelays {B}.
Arguments UcSetFriendName {B}. Arguments UcRemoveFriend {B}. Arguments UcEnableFriend {B}.
Arguments UcDisableFriend {B}. Arguments UcOpenFriendCurrency {B}. Arguments UcCloseFriendCurrency {B}.
Arguments UcSetFriendCurrencyMaxDebt {B}. Arguments UcSetFriendCurrencyRate {B}.
Arguments UcRemoveFriendCurrency {B}. Arguments UcResetFriendChannel {B}. Arguments UcInitPayment {B}.
Arguments UcConfirmPaymentFees {B}. Arguments UcCancelPayment {B}. Arguments UcAckPaymentDone {B}.
Arguments UcAddInvoice {B}. Arguments UcCancelInvoice {B}. Arguments UcRequestVerifyCommit {B}.
Arguments UcCommitInvoice {B}.

Record UserToCompactAck (B : Type) := mkUserToCompactAck { user_request_id : Uid; inner : UserToCompact B }.
Arguments mkUserToCompactAck {B}. Arguments user_request_id {B}. Arguments inner {B}.

(** [permission.rs] *)
Definition check_permission {B} (user_request : UserToCompact B) (p : AppPermissions) : bool :=
  match user_request with
  | UcAddRelay _ | UcRemoveRelay _ | UcAddIndexServer _ | UcRemoveIndexServer _ | UcAddFriend _
  | UcSetFriendRelays _ | UcSetFriendName _ | UcRemoveFriend _ | UcEnableFriend _ | UcDisableFriend _
  | UcOpenFriendCurrency _ | UcCloseFriendCurrency _ | UcSetFriendCurrencyMaxDebt _
  | UcSetFriendCurrencyRate _ | UcRemoveFriendCurrency _ | UcResetFriendChannel _ => perm_config p
  | UcInitPayment _ | UcConfirmPaymentFees _ | UcCancelPayment _ | UcAckPaymentDone _ _ => perm_buyer p
  | UcAddInvoice _ | UcCancelInvoice _ | UcCommitInvoice _ => perm_seller p
  | UcRequestVerifyCommit _ => true
  end.
