(* ===== verification/CompactConvert.v ===== *)
(** * Reports for the user of the compact node

    Models the state the compact node keeps ([compact_node/persist.rs]) and its
    conversions ([compact_node/convert.rs]): the report a user sees is made from
    this state and from the report of the node. *)

From S2P Require Import Prelude Arith Bytes Messages MutualCredit FunderState Report Handler IndexMessages MultiRoute IndexConvert AppServer CompactMessages.

Local Open Scope Z_scope.

(** ** The persistent state ([persist.rs]) *)

Record OpenInvoice := mkOpenInvoice {
  oi_currency : Currency;
  oi_total_dest_payment : Z;
  oi_description : string;
  oi_opt_commit : option Messages.Commit;
  oi_generation : Generation
}.

Record OpenPaymentStatusSending := mkSending {
  sd_fees : Z;
  sd_open_transactions : gset Uid
}.

Record OpenPaymentStatusFoundRoute := mkFoundRoute {
  fd_confirm_id : Uid;
  fd_multi_route : MultiRoute;
  fd_multi_route_choice : MultiRouteChoice;
  fd_fees : Z
}.

Inductive OpenPaymentStatus :=
| SearchingRoute (request_routes_id : Uid)
| FoundRoute (found_route : OpenPaymentStatusFoundRoute)
| Sending (sending : OpenPaymentStatusSending)
| StCommit (commit : Messages.Commit) (fees : Z)
| StSuccess (receipt : Receipt) (fees : Z) (ack_uid : Uid)
| StFailure (ack_uid : Uid).

Record OpenPayment := mkOpenPayment {
  op_invoice_id : InvoiceId;
  op_currency : Currency;
  op_dest_public_key : PublicKey;
  op_dest_payment : Z;
  op_description : string;
  op_generation : Generation;
  op_status : OpenPaymentStatus
}.

Record CompactState := mkCompactState {
  open_invoices : gmap InvoiceId OpenInvoice;
  open_payments : gmap PaymentId OpenPayment;
  cs_generation : Generation
}.

Definition compact_state_new : CompactState := mkCompactState ∅ ∅ (mkGeneration 0).

(** [MutableState for CompactState]: the whole state is the mutation. *)
Definition compact_state_mutate (self mutation : CompactState) : CompactState := mutation.

#[global] Instance Generation_eq_dec : EqDecision Generation.
Proof. solve_decision. Defined.
#[global] Instance Commit_eq_dec : EqDecision Messages.Commit.
Proof. solve_decision. Defined.
#[global] Instance OpenInvoice_eq_dec : EqDecision OpenInvoice.
Proof. solve_decision. Defined.
#[global] Instance Sending_eq_dec : EqDecision OpenPaymentStatusSending.
Proof. solve_decision. Defined.
#[global] Instance FoundRoute_eq_dec : EqDecision OpenPaymentStatusFoundRoute.
Proof. solve_decision. Defined.
#[global] Instance OpenPaymentStatus_eq_dec : EqDecision OpenPaymentStatus.
Proof. solve_decision. Defined.
#[global] Instance OpenPayment_eq_dec : EqDecision OpenPayment.
Proof. solve_decision. Defined.
#[global] Instance CompactState_eq_dec : EqDecision CompactState.
Proof. solve_decision. Defined.

(** ** The report of the node *)

#[global] Instance MoveTokenHashedReport_eq_dec : EqDecision Report.MoveTokenHashedReport.
Proof. solve_decision. Defined.
#[global] Instance FriendStatusReport_eq_dec : EqDecision Report.FriendStatusReport.
Proof. solve_decision. Defined.
#[global] Instance FriendLivenessReport_eq_dec : EqDecision Report.FriendLivenessReport.
Proof. solve_decision. Defined.
#[global] Instance McBalanceReport_eq_dec : EqDecision Report.McBalanceReport.
Proof. solve_decision. Defined.
#[global] Instance CurrencyReport_eq_dec : EqDecision Report.CurrencyReport.
Proof. solve_decision. Defined.
#[global] Instance CurrencyBalance_eq_dec : EqDecision CurrencyBalance.
Proof. solve_decision. Defined.
#[global] Instance ResetTermsReport_eq_dec : EqDecision Report.ResetTermsReport.
Proof. solve_decision. Defined.
#[global] Instance ChannelInconsistentReport_eq_dec : EqDecision Report.ChannelInconsistentReport.
Proof. solve_decision. Defined.
#[global] Instance ChannelConsistentReport_eq_dec : EqDecision Report.ChannelConsistentReport.
Proof. solve_decision. Defined.
#[global] Instance ChannelStatusReport_eq_dec : EqDecision Report.ChannelStatusReport.
Proof. solve_decision. Defined.
#[global] Instance CurrencyConfigReport_eq_dec : EqDecision Report.CurrencyConfigReport.
Proof. solve_decision. Defined.
#[global] Instance FriendReport_eq_dec {B} `{EqDecision B} : EqDecision (Report.FriendReport B).
Proof. solve_decision. Defined.
#[global] Instance FunderReport_eq_dec {B} `{EqDecision B} : EqDecision (FunderReport B).
Proof. solve_decision. Defined.
#[global] Instance NamedIndexServerAddress_eq_dec {B} `{EqDecision B} : EqDecision (NamedIndexServerAddress B).
Proof. solve_decision. Defined.
#[global] Instance IndexClientReport_eq_dec {B} `{EqDecision B} : EqDecision (IndexClientReport B).
Proof. solve_decision. Defined.
#[global] Instance NodeReport_eq_dec {B} `{EqDecision B} : EqDecision (NodeReport B).
Proof. solve_decision. Defined.

(** The [From] instances of [convert.rs], one per type. *)
Definition convert_currency_report (r : Report.CurrencyReport) : Currency * CurrencyReport :=
  (cr_currency r, mkCurrencyReport (mbr_balance (cr_balance r)) (mbr_local_pending_debt (cr_balance r))
                    (mbr_remote_pending_debt (cr_balance r))).
Definition convert_channel_consistent (r : Report.ChannelConsistentReport) : ChannelConsistentReport :=
  mkChannelConsistentReport (collect (map convert_currency_report (ccr_currency_reports r))).
Definition convert_currency_balance (b : CurrencyBalance) : Currency * Z := (cb_currency b, cb_balance b).
Definition convert_reset_terms (r : Report.ResetTermsReport) : ResetTermsReport :=
  mkResetTermsReport (rtr_reset_token r) (collect (map convert_currency_balance (rtr_balance_for_reset r))).
Definition convert_channel_inconsistent (r : Report.ChannelInconsistentReport) : ChannelInconsistentReport :=
  mkChannelInconsistentReport (collect (map convert_currency_balance (cir_local_reset_terms r)))
    (option_map convert_reset_terms (cir_opt_remote_reset_terms r)).
Definition convert_channel_status (r : Report.ChannelStatusReport) : ChannelStatusReport :=
  match r with
  | ReportConsistent c => StatusConsistent (convert_channel_consistent c)
  | ReportInconsistent i => StatusInconsistent (convert_channel_inconsistent i)
  end.
Definition convert_balance_info (c : CurrencyBalanceInfo) : Currency * BalanceInfo :=
  (cbi_currency c, mkBalanceInfo (bi_balance (cbi_balance_info c)) (bi_local_pending_debt (cbi_balance_info c))
                     (bi_remote_pending_debt (cbi_balance_info c))).
Definition convert_mc_info (m : Messages.McInfo) : McInfo :=
  mkMcInfo (mi_local_public_key m) (mi_remote_public_key m) (collect (map convert_balance_info (mi_balances m))).
Definition convert_counters_info (c : Messages.CountersInfo) : CountersInfo :=
  mkCountersInfo (inconsistency_counter c) (move_token_counter c).
Definition convert_token_info (t : Messages.TokenInfo) : TokenInfo :=
  mkTokenInfo (convert_mc_info (ti_mc t)) (convert_counters_info (ti_counters t)).
Definition convert_move_token_hashed (m : Report.MoveTokenHashedReport) : MoveTokenHashedReport :=
  mkMoveTokenHashedReport (mthr_prefix_hash m) (convert_token_info (mthr_token_info m)) (mthr_rand_nonce m)
    (mthr_new_token m).
Definition convert_friend_status (s : Report.FriendStatusReport) : FriendStatusReport :=
  match s with ReportEnabled => StatusEnabled | ReportDisabled => StatusDisabled end.
Definition convert_friend_liveness (l : Report.FriendLivenessReport) : FriendLivenessReport :=
  match l with ReportOnline => LiveOnline | ReportOffline => LiveOffline end.
Definition convert_currency_config (c : CurrencyConfigReport) : Currency * ConfigReport :=
  (ccfr_currency c, mkConfigReport (ccfr_rate c) (ccfr_remote_max_debt c) (ccfr_is_open c)).
Definition convert_friend_report {B} (r : Report.FriendReport B) : FriendReport :=
  mkFriendReport (fr_name r) (collect (map convert_currency_config (fr_currency_configs r)))
    (option_map convert_move_token_hashed (fr_opt_last_incoming_move_token r))
    (convert_friend_liveness (fr_liveness r)) (convert_channel_status (fr_channel_status r))
    (convert_friend_status (fr_status r)).

Definition convert_commit (c : Messages.Commit) : Commit :=
  mkCommit (cm_response_hash c) (cm_src_plain_lock c) (cm_dest_hashed_lock c) (cm_dest_payment c)
    (cm_total_dest_payment c) (cm_invoice_id c) (cm_currency c) (cm_signature c).
Definition convert_commit_back (c : Commit) : Messages.Commit :=
  Messages.mkCommit (ccm_response_hash c) (ccm_src_plain_lock c) (ccm_dest_hashed_lock c) (ccm_dest_payment c)
    (ccm_total_dest_payment c) (ccm_invoice_id c) (ccm_currency c) (ccm_signature c).

Definition convert_payment_status (s : OpenPaymentStatus) : CompactMessages.OpenPaymentStatus :=
  match s with
  | SearchingRoute request_routes_id => RepSearchingRoute request_routes_id
  | FoundRoute found_route => RepFoundRoute (fd_confirm_id found_route) (fd_fees found_route)
  | Sending sending => RepSending (sd_fees sending)
  | StCommit commit fees => RepCommit (convert_commit commit) fees
  | StSuccess receipt fees ack_uid => RepSuccess receipt fees ack_uid
  | StFailure ack_uid => RepFailure ack_uid
  end.
Definition convert_open_payment (p : OpenPayment) : CompactMessages.OpenPayment :=
  CompactMessages.mkOpenPayment (op_invoice_id p) (op_currency p) (op_dest_public_key p) (op_dest_payment p)
    (op_description p) (op_generation p) (convert_payment_status (op_status p)).
Definition convert_open_invoice (i : OpenInvoice) : CompactMessages.OpenInvoice :=
  CompactMessages.mkOpenInvoice (oi_currency i) (oi_total_dest_payment i) (oi_description i)
    (bool_decide (is_Some (oi_opt_commit i))) (oi_generation i).

Definition create_compact_report {B} (compact_state : CompactState) (node_report : NodeReport B) : CompactReport B :=
  mkCompactReport
    (rp_local_public_key (funder_report node_report))
    (icr_index_servers (index_client_report node_report))
    (icr_opt_connected_server (index_client_report node_report))
    (rp_relays (funder_report node_report))
    (convert_friend_report <$> rp_friends (funder_report node_report))
    (convert_open_invoice <$> open_invoices compact_state)
    (convert_open_payment <$> open_payments compact_state).

(** A commit survives the way to the user and back. *)
Lemma convert_commit_roundtrip (c : Messages.Commit) : convert_commit_back (convert_commit c) = c.
Proof. by destruct c. Qed.
Lemma convert_commit_back_roundtrip (c : Commit) : convert_commit (convert_commit_back c) = c.
Proof. by destruct c. Qed.
