(* ===== verification/CompactNode.v ===== *)
(** * The compact node ([stcompact/src/compact_node])

    The compact node stands between a user and a node: it turns the requests of
    the user into requests of an application, follows payments and invoices in a
    state of its own that it writes to a database, and reports to the user.

    The handlers are tasks of [Effects]: every message to the user, every request
    to the node and every write of the database is an action of the log, in the
    order of the code. The environment [ok] decides which of them succeed. *)

From S2P Require Import Prelude Arith Bytes Messages Canonical MutualCredit FunderState Report Handler HandleControl IndexMessages MultiRoute IndexConvert AppServer AppConn Effects CompactMessages CompactConvert.

Local Open Scope Z_scope.

(** ** State and actions ([types.rs]) *)

Inductive CompactNodeError := AppSenderError | UserSenderError | ReportMutationError | DatabaseMutateError.

Inductive CompactServerEvent (B : Type) :=
| EvUser (m : UserToCompactAck B)
| EvUserClosed
| EvNode (m : AppServerToApp B)
| EvNodeClosed.
Arguments EvUser {B}. Arguments EvUserClosed {B}. Arguments EvNode {B}. Arguments EvNodeClosed {B}.

(** [CompactServerState], with the generator of identifiers. *)
Record CompactServerState `{RngOps} (B : Type) := mkCompactServerState {
  cn_node_report : NodeReport B;
  cn_compact_state : CompactState;
  cn_pending_user_requests : gset Uid;
  cn_compact_gen : rng
}.
Arguments mkCompactServerState {_ B}. Arguments cn_node_report {_ B}. Arguments cn_compact_state {_ B}.
Arguments cn_pending_user_requests {_ B}. Arguments cn_compact_gen {_ B}.

Inductive CompactAction (B : Type) :=
| ActDatabase (mutation : CompactState)
| ActUser (m : CompactToUserAck B)
| ActApp (m : AppToAppServer B).
Arguments ActDatabase {B}. Arguments ActUser {B}. Arguments ActApp {B}.

(** ** Updates of the state *)

Definition set_status (p : OpenPayment) (s : OpenPaymentStatus) : OpenPayment :=
  mkOpenPayment (op_invoice_id p) (op_currency p) (op_dest_public_key p) (op_dest_payment p) (op_description p)
    (op_generation p) s.
Definition put_payment (cs : CompactState) (payment_id : PaymentId) (p : OpenPayment) : CompactState :=
  mkCompactState (open_invoices cs) (<[payment_id := p]> (open_payments cs)) (cs_generation cs).
Definition set_payment_status (cs : CompactState) (payment_id : PaymentId) (p : OpenPayment)
    (s : OpenPaymentStatus) : CompactState := put_payment cs payment_id (set_status p s).
Definition set_payments (cs : CompactState) (ps : gmap PaymentId OpenPayment) : CompactState :=
  mkCompactState (open_invoices cs) ps (cs_generation cs).
Definition set_invoices (cs : CompactState) (invoices : gmap InvoiceId OpenInvoice) : CompactState :=
  mkCompactState invoices (open_payments cs) (cs_generation cs).

(** ** Routes of a payment ([handle_node.rs]) *)

(** The loop of [calc_multi_route_fees]; an index out of range panics. *)
Fixpoint calc_multi_route_fees_from (total_fees : Z) (routes : list RouteCapacityRate)
    (multi_route_choice : MultiRouteChoice) : outcome unit Z :=
  match multi_route_choice with
  | [] => Ok total_fees
  | (route_index, dest_payment) :: rest =>
      let? route := unwrap (routes !! route_index) in
      let? fee := ok_or (calc_fee (rcr_rate route) dest_payment) tt in
      let? total_fees := ok_or (checked_u 128 (total_fees + fee)) tt in
      calc_multi_route_fees_from total_fees routes rest
  end.
Definition calc_multi_route_fees (multi_route : MultiRoute) (multi_route_choice : MultiRouteChoice) : outcome unit Z :=
  calc_multi_route_fees_from 0 (mr_routes multi_route) multi_route_choice.

Definition obtain_multi_route (r : ClientResponseRoutes) (dest_payment : Z) :
  outcome unit (MultiRoute * MultiRouteChoice * Z) :=
  let? multi_routes := match cr_result r with RoutesSuccess multi_routes => Ok multi_routes | RoutesFailure => Err tt end in
  let? (route_index, multi_route_choice) := choose_multi_route multi_routes dest_payment in
  let? multi_route := unwrap (multi_routes !! route_index) in
  let? fees := calc_multi_route_fees multi_route multi_route_choice in
  Ok (multi_route, multi_route_choice, fees).

(** The loop of [TransactionResult] over the open payments: every payment that
    waits for the transaction forgets it, and the last one is found, with its
    transactions from before. *)
Definition forget_transaction (request_id : Uid) (p : OpenPayment) : OpenPayment :=
  match op_status p with
  | Sending s => set_status p (Sending (mkSending (sd_fees s) (sd_open_transactions s ∖ {[request_id]})))
  | _ => p
  end.
Definition find_transaction (request_id : Uid) (ps : gmap PaymentId OpenPayment) :
  option (PaymentId * OpenPayment * OpenPaymentStatusSending) :=
  foldl (fun found '(payment_id, p) =>
    match op_status p with
    | Sending s => if decide (request_id ∈ sd_open_transactions s) then Some (payment_id, p, s) else found
    | _ => found
    end) None (map_to_list ps).

(** The loop of [ResponseRoutes] over the open payments. *)
Definition find_searching (request_id : Uid) (ps : gmap PaymentId OpenPayment) : option (PaymentId * OpenPayment) :=
  foldl (fun found '(payment_id, p) =>
    match op_status p with
    | SearchingRoute request_routes_id =>
        if decide (request_routes_id = request_id) then Some (payment_id, p) else found
    | _ => found
    end) None (map_to_list ps).

Section CompactNode.
Context `{CryptoOps} `{RngOps} {B : Type} `{EqDecision B}.
Context (ok : nat -> bool).
Notation M := (Eff (CompactServerState B) CompactNodeError (CompactAction B)).

(** ** Effects *)

Definition gen_uid : M Uid :=
  let* s := eget in
  let (uid, g) := rng_fill 16 (cn_compact_gen s) in
  let* _ := eput (mkCompactServerState (cn_node_report s) (cn_compact_state s) (cn_pending_user_requests s) g) in
  eret uid.
Definition compact_state : M CompactState := let* s := eget in eret (cn_compact_state s).
Definition put_compact_state (cs : CompactState) : M unit :=
  let* s := eget in
  eput (mkCompactServerState (cn_node_report s) cs (cn_pending_user_requests s) (cn_compact_gen s)).
Definition update_node_report (r : NodeReport B) : M unit :=
  let* s := eget in
  eput (mkCompactServerState r (cn_compact_state s) (cn_pending_user_requests s) (cn_compact_gen s)).
Definition set_pending (f : gset Uid -> gset Uid) : M unit :=
  let* s := eget in
  eput (mkCompactServerState (cn_node_report s) (cn_compact_state s) (f (cn_pending_user_requests s)) (cn_compact_gen s)).

Definition to_user (m : CompactToUserAck B) : M unit := emit ok UserSenderError (ActUser m).
Definition tell (m : CompactToUser B) : M unit := to_user (ToUser m).
Definition ack (request_id : Uid) : M unit := to_user (Ack request_id).
Definition to_app (id : Uid) (r : AppRequest B) : M unit :=
  emit ok AppSenderError (ActApp (mkAppToAppServer id r)).

(** [update_compact_state] *)
Definition update_compact_state (cs : CompactState) : M unit :=
  let* _ := put_compact_state cs in emit ok DatabaseMutateError (ActDatabase cs).

(** [utils.rs] *)
Definition update_send_compact_state (cs : CompactState) : M unit :=
  let* s := eget in
  if decide (cn_compact_state s <> cs) then
    let* _ := update_compact_state cs in
    tell (CuReport (create_compact_report cs (cn_node_report s)))
  else eret tt.

(** The payment becomes a failure, and the user is told that it is done. *)
Definition fail_payment (cs : CompactState) (payment_id : PaymentId) (p : OpenPayment) (ack_uid : Uid) : M unit :=
  let* _ := update_send_compact_state (set_payment_status cs payment_id p (StFailure ack_uid)) in
  tell (CuPaymentDone (mkPaymentDone payment_id (DoneFailure ack_uid))).

(** ** Requests of the user ([handle_user.rs]) *)

Definition handle_init_payment (id : Uid) (x : InitPayment) : M unit :=
  let* cs := compact_state in
  match open_payments cs !! ip_payment_id x with
  | Some p =>
      match op_status p with
      | SearchingRoute _ => eret tt
      | FoundRoute found_route =>
          let* _ := ack id in
          tell (CuPaymentFees (mkPaymentFees (ip_payment_id x) (Fees (fd_fees found_route) (fd_confirm_id found_route))))
      | Sending _ | StCommit _ _ | StSuccess _ _ _ | StFailure _ => ack id
      end
  | None =>
      let* request_routes_id := gen_uid in
      let* s := eget in
      let* _ := to_app id (routes.request_routes request_routes_id (ip_currency x) (ip_dest_payment x)
                             (rp_local_public_key (funder_report (cn_node_report s))) (ip_dest_public_key x) None) in
      let* (generation, next) := eunwrap (advance (cs_generation cs)) in
      let p := mkOpenPayment (ip_invoice_id x) (ip_currency x) (ip_dest_public_key x) (ip_dest_payment x)
                 (ip_description x) generation (SearchingRoute request_routes_id) in
      update_send_compact_state (mkCompactState (open_invoices cs) (<[ip_payment_id x := p]> (open_payments cs)) next)
  end.

(** The identifiers of the transactions. *)
Fixpoint gen_uids {A} (l : list A) : M (list Uid) :=
  match l with
  | [] => eret []
  | _ :: l' => let* uid := gen_uid in let* uids := gen_uids l' in eret (uid :: uids)
  end.

(** The loop over the routes of the choice. *)
Definition create_transactions (payment_id : PaymentId) (multi_route : MultiRoute)
    (l : list (nat * Z * Uid)) : M unit :=
  efor l (fun '(route_index, dest_payment, request_id) =>
    let* route := eunwrap (mr_routes multi_route !! route_index) in
    let* fee := eunwrap (calc_fee (rcr_rate route) dest_payment) in
    let* app_request_id := gen_uid in
    to_app app_request_id (buyer.create_transaction payment_id request_id (rcr_route route) dest_payment fee)).

Definition handle_confirm_payment_fees (id : Uid) (x : ConfirmPaymentFees) : M unit :=
  let* cs := compact_state in
  let opt_inner :=
    match open_payments cs !! cpf_payment_id x with
    | Some p =>
        match op_status p with
        | SearchingRoute _ => None
        | FoundRoute f =>
            if decide (cpf_confirm_id x = fd_confirm_id f)
            then Some (p, fd_multi_route f, fd_multi_route_choice f, fd_fees f) else None
        | Sending _ | StCommit _ _ | StSuccess _ _ _ | StFailure _ => None
        end
    | None => None
    end in
  match opt_inner with
  | None => ack id
  | Some (p, multi_route, multi_route_choice, fees) =>
      let* open_transactions := gen_uids multi_route_choice in
      let sending := mkSending fees (list_to_set open_transactions) in
      let* _ := update_send_compact_state (set_payment_status cs (cpf_payment_id x) p (Sending sending)) in
      let* app_request_id := gen_uid in
      let* _ := to_app app_request_id (buyer.create_payment (cpf_payment_id x) (op_invoice_id p) (op_currency p)
                                         (op_dest_payment p) (op_dest_public_key p)) in
      let* _ := create_transactions (cpf_payment_id x) multi_route (zip multi_route_choice open_transactions) in
      to_app id (buyer.request_close_payment (cpf_payment_id x))
  end.

Definition handle_cancel_payment (id : Uid) (payment_id : PaymentId) : M unit :=
  let* cs := compact_state in
  match open_payments cs !! payment_id with
  | None => ack id
  | Some p =>
      match op_status p with
      | SearchingRoute _ | FoundRoute _ | Sending _ =>
          let* ack_uid := gen_uid in
          let* _ := update_send_compact_state (set_payment_status cs payment_id p (StFailure ack_uid)) in
          let* _ := ack id in
          tell (CuPaymentDone (mkPaymentDone payment_id (DoneFailure ack_uid)))
      | StCommit _ _ => ack id
      | StSuccess _ _ _ | StFailure _ => ack id
      end
  end.

Definition handle_ack_payment_done (id : Uid) (payment_id : PaymentId) (ack_uid : Uid) : M unit :=
  let* cs := compact_state in
  match open_payments cs !! payment_id with
  | None => ack id
  | Some p =>
      match op_status p with
      | SearchingRoute _ | FoundRoute _ | Sending _ | StCommit _ _ => ack id
      | StSuccess _ _ stored_ack_uid | StFailure stored_ack_uid =>
          let* _ := (if decide (stored_ack_uid = ack_uid)
                     then update_send_compact_state (set_payments cs (delete payment_id (open_payments cs)))
                     else eret tt) in
          ack id
      end
  end.

Definition handle_add_invoice (id : Uid) (x : AddInvoice) : M unit :=
  let* cs := compact_state in
  if decide (is_Some (open_invoices cs !! adi_invoice_id x)) then ack id
  else
    let* (generation, next) := eunwrap (advance (cs_generation cs)) in
    let invoice := mkOpenInvoice (adi_currency x) (adi_total_dest_payment x) (adi_description x) None generation in
    let* _ := update_send_compact_state
                (mkCompactState (<[adi_invoice_id x := invoice]> (open_invoices cs)) (open_payments cs) next) in
    to_app id (seller.add_invoice (adi_invoice_id x) (adi_currency x) (adi_total_dest_payment x)).

Definition handle_cancel_invoice (id : Uid) (invoice_id : InvoiceId) : M unit :=
  let* cs := compact_state in
  if decide (is_Some (open_invoices cs !! invoice_id)) then
    let* _ := to_app id (seller.cancel_invoice invoice_id) in
    update_send_compact_state (set_invoices cs (delete invoice_id (open_invoices cs)))
  else ack id.

Definition handle_commit_invoice (id : Uid) (invoice_id : InvoiceId) : M unit :=
  let* cs := compact_state in
  let* s := eget in
  let opt_commit := match open_invoices cs !! invoice_id with Some i => oi_opt_commit i | None => None end in
  match opt_commit with
  | None => ack id
  | Some commit =>
      if negb (verify_commit commit (rp_local_public_key (funder_report (cn_node_report s)))) then ack id
      else
        let* _ := to_app id (seller.commit_invoice commit) in
        update_send_compact_state (set_invoices cs (delete (cm_invoice_id commit) (open_invoices cs)))
  end.

Definition set_opt_commit (i : OpenInvoice) (c : Messages.Commit) : OpenInvoice :=
  mkOpenInvoice (oi_currency i) (oi_total_dest_payment i) (oi_description i) (Some c) (oi_generation i).

Definition handle_request_verify_commit (id : Uid) (x : RequestVerifyCommit) : M unit :=
  let* _ := ack id in
  let* cs := compact_state in
  let* s := eget in
  let invoice_id := ccm_invoice_id (rvc_commit x) in
  match open_invoices cs !! invoice_id with
  | None => tell (CuResponseVerifyCommit (mkResponseVerifyCommit (rvc_request_id x) VerifyFailure))
  | Some open_invoice =>
      let status :=
        if verify_commit (convert_commit_back (rvc_commit x)) (rp_local_public_key (funder_report (cn_node_report s)))
           && bool_decide (oi_opt_commit open_invoice = None)
        then VerifySuccess else VerifyFailure in
      let* _ := tell (CuResponseVerifyCommit (mkResponseVerifyCommit (rvc_request_id x) status)) in
      update_send_compact_state
        (set_invoices cs (<[invoice_id := set_opt_commit open_invoice (convert_commit_back (rvc_commit x))]>
                            (open_invoices cs)))
  end.

Definition handle_user (m : UserToCompactAck B) : M unit :=
  let id := user_request_id m in
  let* _ := set_pending (fun pending => {[id]} ∪ pending) in
  match inner m with
  | UcAddRelay x => to_app id (config.add_relay x)
  | UcRemoveRelay pk => to_app id (config.remove_relay pk)
  | UcAddIndexServer x => to_app id (config.add_index_server x)
  | UcRemoveIndexServer pk => to_app id (config.remove_index_server pk)
  | UcAddFriend x => to_app id (config.add_friend (adf_friend_public_key x) (adf_relays x) (adf_name x))
  | UcSetFriendRelays x => to_app id (config.set_friend_relays (sfl_friend_public_key x) (sfl_relays x))
  | UcSetFriendName x => to_app id (config.set_friend_name (sfm_friend_public_key x) (sfm_name x))
  | UcRemoveFriend pk => to_app id (config.remove_friend pk)
  | UcEnableFriend pk => to_app id (config.enable_friend pk)
  | UcDisableFriend pk => to_app id (config.disable_friend pk)
  | UcOpenFriendCurrency x => to_app id (config.open_friend_currency (of_friend_public_key x) (of_currency x))
  | UcCloseFriendCurrency x => to_app id (config.close_friend_currency (cf_friend_public_key x) (cf_currency x))
  | UcSetFriendCurrencyMaxDebt x =>
      to_app id (config.set_friend_currency_max_debt (sfd_friend_public_key x) (sfd_currency x) (sfd_remote_max_debt x))
  | UcSetFriendCurrencyRate x =>
      to_app id (config.set_friend_currency_rate (sfa_friend_public_key x) (sfa_currency x) (sfa_rate x))
  | UcRemoveFriendCurrency x => to_app id (config.remove_friend_currency (rmc_friend_public_key x) (rmc_currency x))
  | UcResetFriendChannel x => to_app id (config.reset_friend_channel (rsc_friend_public_key x) (rsc_reset_token x))
  | UcInitPayment x => handle_init_payment id x
  | UcConfirmPaymentFees x => handle_confirm_payment_fees id x
  | UcCancelPayment payment_id => handle_cancel_payment id payment_id
  | UcAckPaymentDone payment_id ack_uid => handle_ack_payment_done id payment_id ack_uid
  | UcAddInvoice x => handle_add_invoice id x
  | UcCancelInvoice invoice_id => handle_cancel_invoice id invoice_id
  | UcCommitInvoice invoice_id => handle_commit_invoice id invoice_id
  | UcRequestVerifyCommit x => handle_request_verify_commit id x
  end.

(** ** Messages of the node ([handle_node.rs]) *)

Definition ack_close_payment (r : ResponseClosePayment) : M unit :=
  let opt_ack_uid :=
    match rcp_status r with
    | PaymentNotFound => None
    | PaymentSuccess _ ack_uid => Some ack_uid
    | PaymentCanceled ack_uid => Some ack_uid
    end in
  match opt_ack_uid with
  | Some ack_uid =>
      let* app_request_id := gen_uid in
      to_app app_request_id (buyer.ack_close_payment (rcp_payment_id r) ack_uid)
  | None => eret tt
  end.

Definition handle_transaction_result (r : TransactionResult) : M unit :=
  let* cs := compact_state in
  match find_transaction (tr_request_id r) (open_payments cs) with
  | None => eret tt
  | Some (payment_id, p, sending) =>
      let cs := set_payments cs (forget_transaction (tr_request_id r) <$> open_payments cs) in
      match tr_result r, bool_decide (sd_open_transactions sending = ∅) with
      | RequestComplete commit, _ =>
          let* _ := update_send_compact_state (set_payment_status cs payment_id p (StCommit commit (sd_fees sending))) in
          tell (CuPaymentCommit (mkPaymentCommit payment_id (convert_commit commit)))
      | RequestFailure, _ | RequestSuccess, true =>
          let* ack_uid := gen_uid in fail_payment cs payment_id p ack_uid
      | RequestSuccess, false => eret tt
      end
  end.

Definition handle_response_close_payment (r : ResponseClosePayment) : M unit :=
  let* cs := compact_state in
  let payment_id := rcp_payment_id r in
  match open_payments cs !! payment_id with
  | None => ack_close_payment r
  | Some p =>
      let* _ :=
        match op_status p with
        | SearchingRoute _ | FoundRoute _ => eret tt
        | Sending _ => let* ack_uid := gen_uid in fail_payment cs payment_id p ack_uid
        | StCommit _ fees =>
            match rcp_status r with
            | PaymentNotFound | PaymentCanceled _ => let* ack_uid := gen_uid in fail_payment cs payment_id p ack_uid
            | PaymentSuccess receipt _ =>
                let* ack_uid := gen_uid in
                let* _ := update_send_compact_state (set_payment_status cs payment_id p (StSuccess receipt fees ack_uid)) in
                tell (CuPaymentDone (mkPaymentDone payment_id (DoneSuccess receipt fees ack_uid)))
            end
        | StFailure _ => eret tt
        | StSuccess _ _ _ => eret tt
        end in
      ack_close_payment r
  end.

Definition handle_report_mutations (rm : ReportMutations B) : M unit :=
  let* s := eget in
  let* node_report :=
    match ofold node_report_mutate (cn_node_report s) (rm_mutations rm) with
    | Ok r => eret r
    | Err _ => efail ReportMutationError
    | Panic => epanic
    end in
  let* _ :=
    (if decide (node_report <> cn_node_report s) then
       let* _ := update_node_report node_report in
       tell (CuReport (create_compact_report (cn_compact_state s) node_report))
     else eret tt) in
  match rm_opt_app_request_id rm with
  | None => eret tt
  | Some app_request_id =>
      if decide (app_request_id ∈ cn_pending_user_requests s) then
        let* _ := set_pending (fun pending => pending ∖ {[app_request_id]}) in
        ack app_request_id
      else eret tt
  end.

Definition handle_response_routes (r : ClientResponseRoutes) : M unit :=
  let* cs := compact_state in
  match find_searching (cr_request_id r) (open_payments cs) with
  | None => eret tt
  | Some (payment_id, p) =>
      match obtain_multi_route r (op_dest_payment p) with
      | Panic => epanic
      | Err _ =>
          let* ack_uid := gen_uid in
          let* _ := update_send_compact_state (set_payment_status cs payment_id p (StFailure ack_uid)) in
          tell (CuPaymentFees (mkPaymentFees payment_id Unreachable))
      | Ok (multi_route, multi_route_choice, fees) =>
          let* confirm_id := gen_uid in
          let found_route := mkFoundRoute confirm_id multi_route multi_route_choice fees in
          let* _ := update_send_compact_state (set_payment_status cs payment_id p (FoundRoute found_route)) in
          tell (CuPaymentFees (mkPaymentFees payment_id (Fees fees confirm_id)))
      end
  end.

Definition handle_node (m : AppServerToApp B) : M unit :=
  match m with
  | ToAppTransactionResult r => handle_transaction_result r
  | ToAppResponseClosePayment r => handle_response_close_payment r
  | ToAppReportMutations rm => handle_report_mutations rm
  | ToAppResponseRoutes r => handle_response_routes r
  end.

(** ** Start and loop ([server_init.rs], [server_loop.rs]) *)

(** One payment of [compact_node_init]. *)
Definition init_payment (payment_id : PaymentId) : M unit :=
  let* cs := compact_state in
  let* p := eunwrap (open_payments cs !! payment_id) in
  let done status := tell (CuPaymentDone (mkPaymentDone payment_id status)) in
  let close :=
    let* app_request_id := gen_uid in to_app app_request_id (buyer.request_close_payment payment_id) in
  let fail :=
    let* ack_uid := gen_uid in
    let* _ := update_compact_state (set_payment_status cs payment_id p (StFailure ack_uid)) in
    done (DoneFailure ack_uid) in
  match op_status p with
  | SearchingRoute _ | FoundRoute _ => fail
  | Sending _ => let* _ := close in fail
  | StCommit commit _ =>
      let* _ := close in tell (CuPaymentCommit (mkPaymentCommit payment_id (convert_commit commit)))
  | StSuccess receipt fees ack_uid => done (DoneSuccess receipt fees ack_uid)
  | StFailure ack_uid => done (DoneFailure ack_uid)
  end.

Definition compact_node_init : M unit :=
  let* cs := compact_state in efor (map_to_list (open_payments cs)).*1 init_payment.

(** One turn of the loop; [false] ends it. *)
Definition compact_node_step (p : AppPermissions) (e : CompactServerEvent B) : M bool :=
  match e with
  | EvUser from_user =>
      if check_permission (inner from_user) p then let* _ := handle_user from_user in eret true else eret false
  | EvUserClosed => eret false
  | EvNode m => let* _ := handle_node m in eret true
  | EvNodeClosed => eret false
  end.

Fixpoint compact_node_loop (p : AppPermissions) (events : list (CompactServerEvent B)) : M unit :=
  match events with
  | [] => eret tt
  | e :: rest =>
      let* continue := compact_node_step p e in
      if continue then compact_node_loop p rest else eret tt
  end.

(** [server.rs] *)
Definition compact_node (p : AppPermissions) (events : list (CompactServerEvent B)) : M unit :=
  let* _ := compact_node_init in compact_node_loop p events.

End CompactNode.
