(* ===== verification/CompactTheory.v ===== *)
(** * Theory of the compact node

    What the database holds at any point of the log decides what a crash leaves
    behind. The theorems show that every message is backed by the database or by what happened before, that
    payments and invoices follow their life cycles, that the node does not panic,
    and that the user sees the current state. *)

From S2P Require Import Prelude Arith Bytes Messages Canonical MutualCredit FunderState Report Handler HandleControl IndexMessages MultiRoute IndexConvert AppServer AppConn Effects CompactMessages CompactConvert CompactNode.

Local Open Scope Z_scope.

(** ** Life cycles *)

Definition found_ok (dest_payment : Z) (f : OpenPaymentStatusFoundRoute) : Prop :=
  good_choice (fd_multi_route f) dest_payment (fd_multi_route_choice f) /\
  calc_multi_route_fees (fd_multi_route f) (fd_multi_route_choice f) = Ok (fd_fees f).

(** The steps of an open payment of [dest_payment] credits. *)
Inductive status_step (dest_payment : Z) : OpenPaymentStatus -> OpenPaymentStatus -> Prop :=
| step_found id f : found_ok dest_payment f -> status_step dest_payment (SearchingRoute id) (FoundRoute f)
| step_unreachable id ack : status_step dest_payment (SearchingRoute id) (StFailure ack)
| step_confirmed f txs :
    (size txs <= length (fd_multi_route_choice f))%nat ->
    status_step dest_payment (FoundRoute f) (Sending (mkSending (fd_fees f) txs))
| step_refused f ack : status_step dest_payment (FoundRoute f) (StFailure ack)
| step_answered s txs :
    txs ⊆ sd_open_transactions s ->
    status_step dest_payment (Sending s) (Sending (mkSending (sd_fees s) txs))
| step_committed s c : status_step dest_payment (Sending s) (StCommit c (sd_fees s))
| step_canceled s ack : status_step dest_payment (Sending s) (StFailure ack)
| step_paid c fees receipt ack : status_step dest_payment (StCommit c fees) (StSuccess receipt fees ack)
| step_lost c fees ack : status_step dest_payment (StCommit c fees) (StFailure ack).

Definition done_status (s : OpenPaymentStatus) : Prop :=
  match s with StSuccess _ _ _ | StFailure _ => True | _ => False end.

Inductive payment_step : option OpenPayment -> option OpenPayment -> Prop :=
| payment_same o : payment_step o o
| payment_opened p id : op_status p = SearchingRoute id -> payment_step None (Some p)
| payment_moved p s : status_step (op_dest_payment p) (op_status p) s -> payment_step (Some p) (Some (set_status p s))
| payment_closed p : done_status (op_status p) -> payment_step (Some p) None.

Inductive invoice_step (id : InvoiceId) : option OpenInvoice -> option OpenInvoice -> Prop :=
| invoice_same o : invoice_step id o o
| invoice_opened i : oi_opt_commit i = None -> invoice_step id None (Some i)
| invoice_commit i c : cm_invoice_id c = id -> invoice_step id (Some i) (Some (set_opt_commit i c))
| invoice_closed i : invoice_step id (Some i) None.

Definition state_step (cs cs' : CompactState) : Prop :=
  (forall payment_id, payment_step (open_payments cs !! payment_id) (open_payments cs' !! payment_id)) /\
  (forall invoice_id, invoice_step invoice_id (open_invoices cs !! invoice_id) (open_invoices cs' !! invoice_id)).

(** ** The invariant of the state *)

Definition generation_of (cs : CompactState) (k : InvoiceId + PaymentId) : option Z :=
  match k with
  | inl id => generation_value ∘ oi_generation <$> open_invoices cs !! id
  | inr id => generation_value ∘ op_generation <$> open_payments cs !! id
  end.

(** Every item has a generation of its own, older than the next one. *)
Definition generations_ok (cs : CompactState) : Prop :=
  (forall k g, generation_of cs k = Some g -> 0 <= g < generation_value (cs_generation cs)) /\
  (forall k k' g, generation_of cs k = Some g -> generation_of cs k' = Some g -> k = k').

Record compact_ok (cs : CompactState) : Prop := mkCompactOk {
  co_next : u_ok 64 (generation_value (cs_generation cs));
  co_generations : generations_ok cs;
  co_amounts id p : open_payments cs !! id = Some p -> u_ok 128 (op_dest_payment p);
  co_found id p f : open_payments cs !! id = Some p -> op_status p = FoundRoute f -> found_ok (op_dest_payment p) f;
  co_commits id i c : open_invoices cs !! id = Some i -> oi_opt_commit i = Some c -> cm_invoice_id c = id
}.

Lemma generations_shrink cs cs' :
  cs_generation cs' = cs_generation cs ->
  (forall k g, generation_of cs' k = Some g -> generation_of cs k = Some g) ->
  generations_ok cs -> generations_ok cs'.
Proof.
  intros Hg Hk [Hr Hi]. split; [rewrite Hg|]; naive_solver.
Qed.

Lemma generations_add cs cs' k0 :
  generation_value (cs_generation cs') = generation_value (cs_generation cs) + 1 ->
  0 <= generation_value (cs_generation cs) ->
  (forall k g, generation_of cs' k = Some g ->
     k = k0 /\ g = generation_value (cs_generation cs) \/ generation_of cs k = Some g) ->
  generations_ok cs -> generations_ok cs'.
Proof.
  intros Hg H0 Hk [Hr Hi]. split.
  - intros k g Hl. rewrite Hg. destruct (Hk k g Hl) as [[-> ->]|Ho]; [lia|]. specialize (Hr _ _ Ho). lia.
  - intros k k' g Hl Hl'. destruct (Hk k g Hl) as [[-> ->]|Ho], (Hk k' _ Hl') as [[-> Hx]|Ho']; try done.
    + specialize (Hr _ _ Ho'). lia.
    + specialize (Hr _ _ Ho). lia.
    + by eapply Hi.
Qed.

(** ** The updates of the handlers *)

(** The statuses change as they may, and nothing else does. *)
Lemma statuses_ok cs ps :
  compact_ok cs ->
  (forall id p', ps !! id = Some p' ->
     exists p, open_payments cs !! id = Some p /\
       (p' = p \/ exists s, p' = set_status p s /\ status_step (op_dest_payment p) (op_status p) s)) ->
  (forall id p, open_payments cs !! id = Some p -> is_Some (ps !! id) \/ done_status (op_status p)) ->
  compact_ok (set_payments cs ps) /\ state_step cs (set_payments cs ps).
Proof.
  intros [Hn Hg Ha Hf Hc] Hps Hdel. split; [split; simpl; try done|split; simpl].
  - apply (generations_shrink cs); [done| |done]. intros [id|id] g; simpl; [done|].
    intros (p' & Hp' & Hl)%fmap_Some. destruct (Hps _ _ Hp') as (p & Hlp & Hcase).
    rewrite Hlp. subst g. by destruct Hcase as [->|(s & -> & _)].
  - intros id p' Hp'. destruct (Hps _ _ Hp') as (p & Hlp & [->|(s & -> & _)]); exact (Ha _ _ Hlp).
  - intros id p' f Hp' Hst. destruct (Hps _ _ Hp') as (p & Hlp & [->|(s & -> & Hs)]); [by eapply Hf|].
    simpl in *. subst s. by inversion Hs.
  - intros id. destruct (ps !! id) as [p'|] eqn:Hp'.
    + destruct (Hps _ _ Hp') as (p & -> & [->|(s & -> & Hs)]); [constructor|by constructor].
    + destruct (open_payments cs !! id) as [p|] eqn:Hlp; [|constructor].
      constructor. destruct (Hdel _ _ Hlp) as [[x Hx]|Hd]; [congruence|done].
  - intros id. constructor.
Qed.

Lemma set_payment_ok cs id p s :
  compact_ok cs -> open_payments cs !! id = Some p -> status_step (op_dest_payment p) (op_status p) s ->
  compact_ok (set_payment_status cs id p s) /\ state_step cs (set_payment_status cs id p s).
Proof.
  intros Hok Hp Hs. apply statuses_ok; [done| |].
  - intros id' p'. rewrite lookup_insert. case_decide as Hd; [subst|eauto].
    intros [= <-]. exists p. split; [done|right]. eauto.
  - intros id' p' Hp'. left. rewrite lookup_insert. case_decide; eauto.
Qed.

Lemma forget_transaction_step request_id p :
  forget_transaction request_id p = p \/
  exists s, forget_transaction request_id p = set_status p s /\ status_step (op_dest_payment p) (op_status p) s.
Proof.
  unfold forget_transaction. destruct (op_status p); try by left.
  right. eexists. split; [done|]. constructor. set_solver.
Qed.

Lemma set_payment_forget_ok cs request_id id p s :
  compact_ok cs -> open_payments cs !! id = Some p -> status_step (op_dest_payment p) (op_status p) s ->
  let cs' := set_payment_status (set_payments cs (forget_transaction request_id <$> open_payments cs)) id p s in
  compact_ok cs' /\ state_step cs cs'.
Proof.
  intros Hok Hp Hs cs'.
  change cs' with (set_payments cs (<[id := set_status p s]> (forget_transaction request_id <$> open_payments cs))).
  apply statuses_ok; [done| |].
  - intros id' p'. rewrite lookup_insert. case_decide as Hd; [subst|].
    + intros [= <-]. exists p. split; [done|right]. eauto.
    + rewrite lookup_fmap. intros (p0 & Hp0 & ->)%fmap_Some. exists p0. split; [done|].
      apply forget_transaction_step.
  - intros id' p' Hp'. left. rewrite lookup_insert. case_decide; [eauto|].
    rewrite lookup_fmap, Hp'. eauto.
Qed.

Lemma delete_payment_ok cs id p :
  compact_ok cs -> open_payments cs !! id = Some p -> done_status (op_status p) ->
  compact_ok (set_payments cs (delete id (open_payments cs))) /\
  state_step cs (set_payments cs (delete id (open_payments cs))).
Proof.
  intros Hok Hp Hd. apply statuses_ok; [done| |].
  - intros id' p' [Hne Hp']%lookup_delete_Some. eauto.
  - intros id' p' Hp'. destruct (decide (id' = id)) as [->|Hne]; [right; by simplify_eq|left].
    rewrite lookup_delete_ne by done. eauto.
Qed.

Lemma advance_Some g g1 next :
  advance g = Some (g1, next) ->
  g1 = g /\ generation_value next = generation_value g + 1 /\ u_ok 64 (generation_value g + 1).
Proof.
  unfold advance. intros (z & Hz & Heq)%opt_bind_Some. apply checked_u_Some in Hz as [Hok ->]. by simplify_eq/=.
Qed.

Lemma open_payment_ok cs id p next request_id :
  compact_ok cs -> open_payments cs !! id = None -> advance (cs_generation cs) = Some (op_generation p, next) ->
  op_status p = SearchingRoute request_id -> u_ok 128 (op_dest_payment p) ->
  let cs' := mkCompactState (open_invoices cs) (<[id := p]> (open_payments cs)) next in
  compact_ok cs' /\ state_step cs cs'.
Proof.
  intros [Hn Hg Ha Hf Hc] Hp (Hgen & Hnext & Hu)%advance_Some Hst Hd. split; [split; simpl|split; simpl].
  - by rewrite Hnext.
  - apply (generations_add cs _ (inr id)); [done|unfold u_ok in Hn; lia| |done].
    intros [id'|id'] g; simpl; [by right|]. rewrite lookup_insert. case_decide as Hx; [subst|by right].
    intros [= <-]. left. simpl. by rewrite Hgen.
  - intros id' p'. rewrite lookup_insert. case_decide; [naive_solver|by apply Ha].
  - intros id' p' f. rewrite lookup_insert. case_decide; [|by apply Hf]. intros [= <-]. by rewrite Hst.
  - done.
  - intros id'. rewrite lookup_insert. case_decide as Hx; [subst|constructor]. rewrite Hp. by econstructor.
  - constructor.
Qed.

(** Changes of the invoices that keep the generations. *)
Lemma invoices_ok cs invoices :
  compact_ok cs ->
  (forall id i', invoices !! id = Some i' ->
     exists i, open_invoices cs !! id = Some i /\ (i' = i \/ exists c, i' = set_opt_commit i c /\ cm_invoice_id c = id)) ->
  compact_ok (set_invoices cs invoices) /\ state_step cs (set_invoices cs invoices).
Proof.
  intros [Hn Hg Ha Hf Hc] His. split; [split; simpl; try done|split; simpl].
  - apply (generations_shrink cs); [done| |done]. intros [id|id] g; simpl; [|done].
    intros (i' & Hi' & Hl)%fmap_Some. destruct (His _ _ Hi') as (i & Hli & Hcase).
    rewrite Hli. subst g. by destruct Hcase as [->|(c & -> & _)].
  - intros id i' c Hi' Hco. destruct (His _ _ Hi') as (i & Hli & [->|(c' & -> & Hid)]); [by eapply Hc|].
    simpl in Hco. by simplify_eq.
  - intros id. constructor.
  - intros id. destruct (invoices !! id) as [i'|] eqn:Hi'.
    + destruct (His _ _ Hi') as (i & -> & [->|(c & -> & Hid)]); by constructor.
    + destruct (open_invoices cs !! id); constructor.
Qed.

Lemma delete_invoice_ok cs id :
  compact_ok cs ->
  compact_ok (set_invoices cs (delete id (open_invoices cs))) /\
  state_step cs (set_invoices cs (delete id (open_invoices cs))).
Proof. intros Hok. apply invoices_ok; [done|]. intros id' i' [_ Hi']%lookup_delete_Some. eauto. Qed.

Lemma commit_invoice_ok cs id i c :
  compact_ok cs -> open_invoices cs !! id = Some i -> cm_invoice_id c = id ->
  compact_ok (set_invoices cs (<[id := set_opt_commit i c]> (open_invoices cs))) /\
  state_step cs (set_invoices cs (<[id := set_opt_commit i c]> (open_invoices cs))).
Proof.
  intros Hok Hi Hc. apply invoices_ok; [done|]. intros id' i'. rewrite lookup_insert.
  case_decide as Hx; [subst|eauto]. intros [= <-]. exists i. split; [done|right]. eauto.
Qed.

Lemma open_invoice_ok cs id i next :
  compact_ok cs -> open_invoices cs !! id = None -> advance (cs_generation cs) = Some (oi_generation i, next) ->
  oi_opt_commit i = None ->
  let cs' := mkCompactState (<[id := i]> (open_invoices cs)) (open_payments cs) next in
  compact_ok cs' /\ state_step cs cs'.
Proof.
  intros [Hn Hg Ha Hf Hc] Hi (Hgen & Hnext & Hu)%advance_Some Hco. split; [split; simpl|split; simpl].
  - by rewrite Hnext.
  - apply (generations_add cs _ (inl id)); [done|unfold u_ok in Hn; lia| |done].
    intros [id'|id'] g; simpl; [|by right]. rewrite lookup_insert. case_decide as Hx; [subst|by right].
    intros [= <-]. left. simpl. by rewrite Hgen.
  - done.
  - done.
  - intros id' i' c. rewrite lookup_insert. case_decide; [|by apply Hc]. intros [= <-]. by rewrite Hco.
  - intros id'. constructor.
  - intros id'. rewrite lookup_insert. case_decide as Hx; [subst|constructor]. rewrite Hi. by constructor.
Qed.

(** ** Routes and searches *)

Lemma size_list_to_set_le {A} `{Countable A} (l : list A) : (size (list_to_set l : gset A) <= length l)%nat.
Proof.
  induction l as [|x l IH]; cbn [list_to_set length]; [by rewrite size_empty|]. rewrite size_union_alt, size_singleton.
  assert (size (list_to_set l ∖ {[x]} : gset A) <= size (list_to_set l : gset A))%nat; [|lia].
  apply subseteq_size. set_solver.
Qed.

Lemma calc_fees_from_no_panic total routes choice :
  (forall j c, (j, c) ∈ choice -> is_Some (routes !! j)) -> calc_multi_route_fees_from total routes choice <> Panic.
Proof.
  revert total. induction choice as [|[j c] choice IH]; intros total Hj; cbn [calc_multi_route_fees_from]; [done|].
  destruct (Hj j c) as [route ->]; [by left|]. cbn [unwrap obind].
  destruct (calc_fee _ _) as [fee|]; cbn [ok_or obind]; [|done].
  destruct (checked_u _ _); cbn [ok_or obind]; [|done]. apply IH. intros j' c' Hin. apply (Hj j' c'). by right.
Qed.

(** The fee of each route is defined, and the total is their sum. *)
Lemma calc_fees_from_Ok total routes choice fees :
  calc_multi_route_fees_from total routes choice = Ok fees ->
  exists each, fees = total + sum_Z each /\
    Forall2 (fun '(j, c) fee => exists route, routes !! j = Some route /\ calc_fee (rcr_rate route) c = Some fee)
      choice each.
Proof.
  revert total. induction choice as [|[j c] choice IH]; intros total Hok; cbn [calc_multi_route_fees_from] in Hok.
  - injection Hok as <-. exists []. split; [simpl; lia|constructor].
  - apply obind_Ok in Hok as (route & Hroute%unwrap_Ok & Hok).
    apply obind_Ok in Hok as (fee & Hfee%ok_or_Ok & Hok).
    apply obind_Ok in Hok as (total' & [_ ->]%ok_or_Ok%checked_u_Some & Hok).
    destruct (IH _ Hok) as (each & -> & Hall). exists (fee :: each). split; [simpl; lia|].
    constructor; [eauto|done].
Qed.

Lemma obtain_multi_route_spec r amount :
  (forall ms, cr_result r = RoutesSuccess ms -> Forall routes_ok ms) -> u_ok 128 amount ->
  match obtain_multi_route r amount with
  | Ok (m, choice, fees) => forall id, found_ok amount (mkFoundRoute id m choice fees)
  | Err _ => True
  | Panic => False
  end.
Proof.
  intros Hr Ha. unfold obtain_multi_route. destruct (cr_result r) as [ms|] eqn:Hres; simpl; [|done].
  pose proof (choose_from_spec 0 ms amount (Hr _ eq_refl) Ha) as Hc. unfold choose_multi_route.
  destruct (choose_from 0 ms amount) as [[k choice]|[]|]; simpl; [|done..].
  destruct Hc as (d & m & -> & Hm & Hgood & _). simpl. rewrite Hm. simpl.
  destruct (calc_multi_route_fees m choice) as [fees|[]|] eqn:Hf; simpl; [done|done|].
  apply (calc_fees_from_no_panic 0 (mr_routes m) choice); [|done].
  intros j c Hin. destruct Hgood as (_ & _ & _ & Hj). destruct (Hj j c Hin) as (route & -> & _). eauto.
Qed.

Lemma foldl_find {A X} (f : A -> option X) (l : list A) (start : option X) x :
  foldl (fun found a => match f a with Some y => Some y | None => found end) start l = Some x ->
  start = Some x \/ exists a, a ∈ l /\ f a = Some x.
Proof.
  revert start. induction l as [|a l IH]; intros start Hf; simpl in Hf; [by left|].
  apply IH in Hf as [Hf|(b & Hb & Hx)].
  - destruct (f a) as [y|] eqn:Ha; [|by left]. right. exists a. split; [by left|congruence].
  - right. exists b. split; [by right|done].
Qed.

Lemma foldl_ext {A X} (f g : X -> A -> X) l x : (forall x a, f x a = g x a) -> foldl f x l = foldl g x l.
Proof. intros Hfg. revert x. induction l as [|a l IH]; intros x; simpl; [done|]. by rewrite Hfg. Qed.

Lemma find_transaction_Some request_id ps id p s :
  find_transaction request_id ps = Some (id, p, s) ->
  ps !! id = Some p /\ op_status p = Sending s /\ request_id ∈ sd_open_transactions s.
Proof.
  unfold find_transaction. intros Hf.
  rewrite (foldl_ext _ (fun found a => match (match op_status a.2 with
    | Sending s => if decide (request_id ∈ sd_open_transactions s) then Some (a.1, a.2, s) else None
    | _ => None end) with Some y => Some y | None => found end)) in Hf.
  - apply foldl_find in Hf as [Hf|([id' p'] & Hin%elem_of_map_to_list & Hf)]; [done|].
    simpl in Hf. destruct (op_status p') eqn:Hs; try done. case_decide; [|done]. naive_solver.
  - intros x [id' p']. simpl. destruct (op_status p'); try done. by case_decide.
Qed.

Lemma find_searching_Some request_id ps id p :
  find_searching request_id ps = Some (id, p) ->
  ps !! id = Some p /\ op_status p = SearchingRoute request_id.
Proof.
  unfold find_searching. intros Hf.
  rewrite (foldl_ext _ (fun found a => match (match op_status a.2 with
    | SearchingRoute id => if decide (id = request_id) then Some (a.1, a.2) else None
    | _ => None end) with Some y => Some y | None => found end)) in Hf.
  - apply foldl_find in Hf as [Hf|([id' p'] & Hin%elem_of_map_to_list & Hf)]; [done|].
    simpl in Hf. destruct (op_status p') eqn:Hs; try done. case_decide; [|done]. naive_solver.
  - intros x [id' p']. simpl. destruct (op_status p'); try done. by case_decide.
Qed.

(** ** What the log says *)

Section Log.
Context `{CryptoOps} {B : Type}.
(** The events of the run. *)
Context (happened : CompactServerEvent B -> Prop).
Implicit Types (log : list (CompactAction B)) (d : CompactState).

(** The state in the database after the effects of a log. *)
Definition durable d log : CompactState :=
  foldl (fun d a => match a with ActDatabase m => compact_state_mutate d m | _ => d end) d log.

(** The report the user saw last. *)
Definition user_view (r : CompactReport B) log : CompactReport B :=
  foldl (fun r a => match a with ActUser (ToUser (CuReport r')) => r' | _ => r end) r log.

Definition payment_has d (payment_id : PaymentId) (P : OpenPayment -> Prop) : Prop :=
  exists p, open_payments d !! payment_id = Some p /\ P p.

(** The user sent a request with this identifier. *)
Definition user_asked (request_id : Uid) : Prop :=
  exists m, happened (EvUser m) /\ user_request_id m = request_id.

(** A payment that is neither being sent nor waits for its receipt. *)
Definition not_in_progress (st : OpenPaymentStatus) : bool :=
  match st with Sending _ | StCommit _ _ => false | _ => true end.

(** What the user is told holds in the database. *)
Definition told_backed d (m : CompactToUser B) : Prop :=
  match m with
  | CuPaymentFees x =>
      payment_has d (pf_payment_id x) (fun p =>
        match pf_response x with
        | Unreachable => exists ack_uid, op_status p = StFailure ack_uid
        | Fees fees confirm_id =>
            exists f, op_status p = FoundRoute f /\ fd_fees f = fees /\ fd_confirm_id f = confirm_id
        end)
  | CuPaymentCommit x =>
      payment_has d (pc_payment_id x) (fun p =>
        exists fees, op_status p = StCommit (convert_commit_back (pc_commit x)) fees)
  | CuPaymentDone x =>
      payment_has d (pd_payment_id x) (fun p =>
        op_status p = match pd_status x with
                      | DoneFailure ack_uid => StFailure ack_uid
                      | DoneSuccess receipt fees ack_uid => StSuccess receipt fees ack_uid
                      end)
  | CuReport r =>
      crp_open_invoices r = convert_open_invoice <$> open_invoices d /\
      crp_open_payments r = convert_open_payment <$> open_payments d
  | CuResponseVerifyCommit x =>
      exists m y, happened (EvUser m) /\ inner m = UcRequestVerifyCommit y /\ rsv_request_id x = rvc_request_id y /\
        (rsv_status x = VerifySuccess -> exists i local_pk,
           open_invoices d !! ccm_invoice_id (rvc_commit y) = Some i /\ oi_opt_commit i = None /\
           verify_commit (convert_commit_back (rvc_commit y)) local_pk = true)
  end.

(** The requests of the user that are passed on as they are. *)
Definition config_request (u : UserToCompact B) : option (AppRequest B) :=
  match u with
  | UcAddRelay x => Some (AppAddRelay x)
  | UcRemoveRelay pk => Some (AppRemoveRelay pk)
  | UcAddIndexServer x => Some (AppAddIndexServer x)
  | UcRemoveIndexServer pk => Some (AppRemoveIndexServer pk)
  | UcAddFriend x => Some (AppAddFriend (FunderState.mkAddFriend (adf_friend_public_key x) (adf_relays x) (adf_name x)))
  | UcSetFriendRelays x => Some (AppSetFriendRelays (HandleControl.mkSetFriendRelays (sfl_friend_public_key x) (sfl_relays x)))
  | UcSetFriendName x => Some (AppSetFriendName (HandleControl.mkSetFriendName (sfm_friend_public_key x) (sfm_name x)))
  | UcRemoveFriend pk => Some (AppRemoveFriend pk)
  | UcEnableFriend pk => Some (AppEnableFriend pk)
  | UcDisableFriend pk => Some (AppDisableFriend pk)
  | UcOpenFriendCurrency x =>
      Some (AppOpenFriendCurrency (AppServer.mkOpenFriendCurrency (of_friend_public_key x) (of_currency x)))
  | UcCloseFriendCurrency x =>
      Some (AppCloseFriendCurrency (AppServer.mkCloseFriendCurrency (cf_friend_public_key x) (cf_currency x)))
  | UcSetFriendCurrencyMaxDebt x =>
      Some (AppSetFriendCurrencyMaxDebt
              (HandleControl.mkSetMaxDebt (sfd_friend_public_key x) (sfd_currency x) (sfd_remote_max_debt x)))
  | UcSetFriendCurrencyRate x =>
      Some (AppSetFriendCurrencyRate (HandleControl.mkSetRate (sfa_friend_public_key x) (sfa_currency x) (sfa_rate x)))
  | UcRemoveFriendCurrency x =>
      Some (AppRemoveFriendCurrency (HandleControl.mkRemoveFriendCurrency (rmc_friend_public_key x) (rmc_currency x)))
  | UcResetFriendChannel x =>
      Some (AppResetFriendChannel (HandleControl.mkResetFriendChannel (rsc_friend_public_key x) (rsc_reset_token x)))
  | _ => None
  end.

(** The database knows of what the node is asked to do, or the user has just asked for
    it: routes are requested for a payment that is not stored yet, and configuration is
    passed on. The close of a payment is acknowledged when the node has announced it
    and the payment is not stored as one in progress. *)
Definition asked_backed d (app_request_id : Uid) (r : AppRequest B) : Prop :=
  match r with
  | AppAckClosePayment x =>
      (exists c, happened (EvNode (ToAppResponseClosePayment c)) /\ rcp_payment_id c = acp_payment_id x /\
         match rcp_status c with
         | PaymentNotFound => False
         | PaymentSuccess _ ack_uid | PaymentCanceled ack_uid => acp_ack_uid x = ack_uid
         end) /\
      forall p, open_payments d !! acp_payment_id x = Some p -> not_in_progress (op_status p) = true
  | AppRequestRoutes x =>
      exists m y, happened (EvUser m) /\ user_request_id m = app_request_id /\ inner m = UcInitPayment y /\
        open_payments d !! ip_payment_id y = None /\ rr_currency x = ip_currency y /\
        rr_capacity x = ip_dest_payment y /\ rr_destination x = ip_dest_public_key y
  | AppCreatePayment x =>
      payment_has d (cp_payment_id x) (fun p =>
        (exists s, op_status p = Sending s) /\ cp_invoice_id x = op_invoice_id p /\ cp_currency x = op_currency p /\
        cp_total_dest_payment x = op_dest_payment p /\ cp_dest_public_key x = op_dest_public_key p)
  | AppCreateTransaction x =>
      payment_has d (ct_payment_id x) (fun p =>
        exists s, op_status p = Sending s /\ ct_request_id x ∈ sd_open_transactions s)
  | AppRequestClosePayment payment_id =>
      payment_has d payment_id (fun p =>
        (exists s, op_status p = Sending s) \/ exists c fees, op_status p = StCommit c fees)
  | AppAddInvoice x =>
      exists i, open_invoices d !! ai_invoice_id x = Some i /\ oi_currency i = ai_currency x /\
        oi_total_dest_payment i = ai_total_dest_payment x
  | AppCancelInvoice invoice_id => is_Some (open_invoices d !! invoice_id)
  | AppCommitInvoice c => exists i, open_invoices d !! cm_invoice_id c = Some i /\ oi_opt_commit i = Some c
  | _ => exists m, happened (EvUser m) /\ user_request_id m = app_request_id /\ config_request (inner m) = Some r
  end.

Definition backed d (a : CompactAction B) : Prop :=
  match a with
  | ActDatabase d' => state_step d d' /\ compact_ok d'
  | ActUser (Ack request_id) => user_asked request_id
  | ActUser (ToUser m) => told_backed d m
  | ActApp m => asked_backed d (app_request_id m) (app_request m)
  end.

Definition log_backed d log : Prop :=
  forall before a after, log = before ++ a :: after -> backed (durable d before) a.

Lemma durable_snoc d log a :
  durable d (log ++ [a]) = match a with ActDatabase m => m | _ => durable d log end.
Proof. unfold durable. rewrite foldl_app. by destruct a. Qed.
Lemma user_view_snoc r log a :
  user_view r (log ++ [a]) = match a with ActUser (ToUser (CuReport r')) => r' | _ => user_view r log end.
Proof. unfold user_view. by rewrite foldl_app. Qed.

Lemma log_backed_prefix d l1 l2 : log_backed d (l1 ++ l2) -> log_backed d l1.
Proof. intros Hl before a after ->. apply (Hl before a (after ++ l2)). by rewrite <- app_assoc. Qed.
Lemma log_backed_ok d log : compact_ok d -> log_backed d log -> compact_ok (durable d log).
Proof.
  intros Hd. induction log as [|a log IH] using rev_ind; intros Hl; [done|]. rewrite durable_snoc.
  destruct a as [d'|m|m]; [|by eapply IH, log_backed_prefix..]. apply (Hl log (ActDatabase d') []). done.
Qed.

Lemma log_backed_nil d : log_backed d [].
Proof. by intros [|? ?] a after. Qed.
Lemma log_backed_snoc d log a : log_backed d log -> backed (durable d log) a -> log_backed d (log ++ [a]).
Proof.
  intros Hl Ha before b after Heq.
  destruct after as [|c after _] using rev_ind.
  - apply app_inj_tail in Heq as [-> ->]. done.
  - rewrite app_comm_cons, app_assoc in Heq. apply app_inj_tail in Heq as [-> _]. by apply (Hl before b after).
Qed.
End Log.

(** ** The invariant of the task *)

Section Inv.
Context `{CryptoOps} `{RngOps} {B : Type} `{EqDecision B}.
Context (ok : nat -> bool) (happened : CompactServerEvent B -> Prop).
(** Whether the user follows the reports, the state at the start and the first report. *)
Context (V : Prop) (d0 : CompactState) (r0 : CompactReport B).
Notation user_asked := (user_asked happened).
Notation told_backed := (told_backed happened).
Notation asked_backed := (asked_backed happened).
Notation backed := (backed happened).
Notation log_backed := (log_backed happened).
Notation M := (Eff (CompactServerState B) CompactNodeError (CompactAction B)).
Notation log := (list (CompactAction B)).
Implicit Types (s : CompactServerState B) (l : log) (n : Z).

Record inv n s l : Prop := mkInv {
  inv_durable : durable d0 l = cn_compact_state s;
  inv_backed : log_backed d0 l;
  inv_ok : compact_ok (cn_compact_state s);
  inv_view : V -> user_view r0 l = create_compact_report (cn_compact_state s) (cn_node_report s);
  inv_next : generation_value (cs_generation (cn_compact_state s)) <= n;
  inv_pending : forall id, id ∈ cn_pending_user_requests s -> user_asked id
}.

Notation wpi n := (wp (S := CompactServerState B) (E := CompactNodeError) (Act := CompactAction B)
  (u_max 64 <= n) (fun _ => log_backed d0)).

Lemma inv_weaken n n' s l : n <= n' -> inv n s l -> inv n' s l.
Proof. intros Hn []. split; try done. lia. Qed.

(** Effects that do not write the database or report. *)
Definition plain (a : CompactAction B) : bool :=
  match a with ActDatabase _ | ActUser (ToUser (CuReport _)) => false | _ => true end.

Lemma inv_plain n s l a : inv n s l -> plain a = true -> backed (cn_compact_state s) a -> inv n s (l ++ [a]).
Proof.
  intros [Hd Hb Hok Hv Hn Hpe] Hp Ha. split; try done.
  - rewrite durable_snoc. by destruct a.
  - apply log_backed_snoc; [done|]. by rewrite Hd.
  - intros HV. rewrite user_view_snoc. destruct a as [|[|[]]|]; try done; by apply Hv.
Qed.

Lemma wp_plain n N e a Q s l :
  inv n s l -> plain a = true -> backed (cn_compact_state s) a ->
  (inv n s (l ++ [a]) -> Q tt s (l ++ [a])) -> wpi N (emit ok e a) Q s l.
Proof. intros Hi Hp Ha HQ. apply wp_emit; [apply Hi|]. by apply HQ, inv_plain. Qed.

Lemma wp_gen_uid n N (Q : Uid -> _) s l :
  inv n s l ->
  (forall uid s', inv n s' l -> cn_compact_state s' = cn_compact_state s -> cn_node_report s' = cn_node_report s ->
     Q uid s' l) -> wpi N gen_uid Q s l.
Proof.
  intros [Hd Hb Hok Hv Hn Hpe] HQ. unfold gen_uid. wp_step. wp_step. destruct (rng_fill 16 (cn_compact_gen s)) as [uid g].
  wp_step. wp_step. wp_step. by apply HQ.
Qed.

Lemma wp_update n N e cs s l (Q : unit -> _) :
  inv n s l -> compact_ok cs -> state_step (cn_compact_state s) cs ->
  (forall l', durable d0 l' = cs -> log_backed d0 l' ->
     Q tt (mkCompactServerState (cn_node_report s) cs (cn_pending_user_requests s) (cn_compact_gen s)) l') ->
  wpi N (let* _ := put_compact_state cs in emit ok e (ActDatabase cs)) Q s l.
Proof.
  intros [Hd Hb Hok Hv Hn Hpe] Hcs Hst HQ. wp_step. unfold put_compact_state. wp_step. wp_step. wp_step.
  apply wp_emit; [done|]. apply HQ; [by rewrite durable_snoc|]. apply log_backed_snoc; [done|]. by rewrite Hd.
Qed.

Lemma wp_update_send n N P cs s l (Q : unit -> _) :
  inv n s l -> compact_ok cs -> state_step (cn_compact_state s) cs -> generation_value (cs_generation cs) <= N ->
  (forall s' l', inv N s' l' -> cn_compact_state s' = cs -> cn_node_report s' = cn_node_report s -> Q tt s' l') ->
  wpi P (update_send_compact_state ok cs) Q s l.
Proof.
  intros Hi Hcs Hst HN HQ. unfold update_send_compact_state. wp_step. wp_step. case_decide as Hd.
  - wp_step. unfold update_compact_state. eapply wp_update; [done..|]. intros l' Hl' Hb'.
    apply wp_emit; [done|]. apply HQ; [|done..]. split; simpl; try done.
    + by rewrite durable_snoc.
    + apply log_backed_snoc; [done|]. simpl. by rewrite Hl'.
    + intros _. by rewrite user_view_snoc.
    + apply Hi.
  - wp_step. apply HQ; [|done..]. destruct Hi. split; try done. by rewrite Hd.
Qed.

(** Postcondition of the handlers. *)
Notation handled n := (fun _ : unit => inv (n + 1)).

Ltac plain_step := eapply wp_plain; [eassumption|reflexivity| |let Hi := fresh "Hi" in intros Hi].
Ltac uid_step := wp_step; eapply wp_gen_uid; [eassumption|];
  let uid := fresh "uid" in let s' := fresh "s'" in let Hi := fresh "Hi" in let Hs := fresh "Hs" in
  let Hr := fresh "Hr" in intros uid s' Hi Hs Hr.

Lemma wp_read n N s l (Q : CompactState -> _) :
  inv n s l -> Q (cn_compact_state s) s l -> wpi N compact_state Q s l.
Proof. done. Qed.

Lemma wp_ack n id s l : inv n s l -> user_asked id -> wpi n (ack ok id) (handled n) s l.
Proof. intros Hi Ha. plain_step; [done|]. eapply inv_weaken; [|done]. lia. Qed.
Lemma wp_forward n id r s l :
  inv n s l -> asked_backed (cn_compact_state s) id r -> wpi n (to_app ok id r) (handled n) s l.
Proof. intros Hi Hr. plain_step; [done|]. eapply inv_weaken; [|done]. lia. Qed.
Lemma wp_tell n m s l :
  inv n s l -> plain (ActUser (ToUser m)) = true -> told_backed (cn_compact_state s) m ->
  wpi n (tell ok m) (handled n) s l.
Proof. intros Hi Hp Hm. eapply wp_plain; [done..|]. intros ?. eapply inv_weaken; [|done]. lia. Qed.

Lemma inv_fields n s s' l :
  inv n s l -> cn_compact_state s' = cn_compact_state s -> cn_node_report s' = cn_node_report s ->
  (forall id, id ∈ cn_pending_user_requests s' -> user_asked id) -> inv n s' l.
Proof. intros [] Hc Hr Hp. split; rewrite ?Hc, ?Hr; done. Qed.

(** A new status is written and the user is told. *)
Lemma wp_move_tell n cs' id p st m s l :
  inv n s l -> compact_ok cs' -> state_step (cn_compact_state s) cs' ->
  cs_generation cs' = cs_generation (cn_compact_state s) ->
  open_payments cs' !! id = Some (set_status p st) -> plain (ActUser (ToUser m)) = true -> told_backed cs' m ->
  wpi n (let* _ := update_send_compact_state ok cs' in tell ok m) (handled n) s l.
Proof.
  intros Hi Hok Hst Hg Hp Hpl Hm. wp_step. apply (wp_update_send n n); [done..| |].
  - rewrite Hg. apply Hi.
  - intros s' l' Hi' Hs' _. apply wp_tell; [done..|]. by rewrite Hs'.
Qed.

(** *** Requests of the user *)

Lemma put_payment_lookup cs id p : open_payments (put_payment cs id p) !! id = Some p.
Proof. simpl. by rewrite lookup_insert_eq. Qed.

Lemma wp_init_payment n id x s l :
  inv n s l -> u_ok 128 (ip_dest_payment x) ->
  (exists m, happened (EvUser m) /\ user_request_id m = id /\ inner m = UcInitPayment x) ->
  wpi n (handle_init_payment ok id x) (handled n) s l.
Proof.
  intros Hi Hx (msg & Hmsg & Hid & Hinner). assert (user_asked id) as Hask by (by exists msg). unfold handle_init_payment. wp_step. apply (wp_read n); [done|].
  destruct (open_payments (cn_compact_state s) !! ip_payment_id x) as [p|] eqn:Hp.
  - destruct (op_status p) as [rid|f|sd|c fees|rc fees a|a] eqn:Hst; try (by apply wp_ack).
    + wp_step. eapply inv_weaken; [|done]. lia.
    + wp_step. plain_step; [done|]. apply wp_tell; [done..|]. exists p. split; [done|]. simpl. eauto.
  - uid_step. wp_step. wp_step. wp_step. plain_step; [rewrite Hs; by exists msg, x|]. wp_step. apply wp_unwrap.
    + intros Hn. destruct Hi0 as [_ _ [Hok] _ Hle _]. rewrite Hs in *. unfold advance in Hn.
      destruct (Z.leb_spec (u_max 64) n) as [|Hlt]; [done|].
      rewrite checked_u_ok in Hn; [done|]. unfold u_ok in *. lia.
    + intros [g next] Hadv. destruct (advance_Some _ _ _ Hadv) as (-> & Hnext & _).
      destruct (open_payment_ok (cn_compact_state s) (ip_payment_id x)
        (mkOpenPayment (ip_invoice_id x) (ip_currency x) (ip_dest_public_key x) (ip_dest_payment x)
           (ip_description x) (cs_generation (cn_compact_state s)) (SearchingRoute uid)) next uid) as [Hok Hst];
        [apply Hi|done..|].
      eapply (wp_update_send n (n + 1)); [done|done|by rewrite Hs| |by intros].
      cbn [cs_generation]. rewrite Hnext. pose proof (inv_next _ _ _ Hi). lia.
Qed.

Lemma wp_gen_uids {A} n P (xs : list A) (Q : list Uid -> _) s l :
  inv n s l ->
  (forall uids s', inv n s' l -> length uids = length xs -> cn_compact_state s' = cn_compact_state s ->
     cn_node_report s' = cn_node_report s -> Q uids s' l) -> wpi P (gen_uids xs) Q s l.
Proof.
  revert s Q. induction xs as [|x xs IH]; intros s Q Hi HQ; cbn [gen_uids].
  - wp_step. by apply HQ.
  - uid_step. wp_step. apply IH; [done|]. intros uids s2 Hi2 Hlen Hs2 Hr2. wp_step.
    apply HQ; [done|simpl; lia|congruence..].
Qed.

Lemma wp_create_transactions n P payment_id m txs p sd s l (Q : unit -> _) :
  inv n s l -> open_payments (cn_compact_state s) !! payment_id = Some p -> op_status p = Sending sd ->
  Forall (fun '(j, c, uid) => uid ∈ sd_open_transactions sd /\
    exists route fee, mr_routes m !! j = Some route /\ calc_fee (rcr_rate route) c = Some fee) txs ->
  (forall s' l', inv n s' l' -> cn_compact_state s' = cn_compact_state s -> Q tt s' l') ->
  wpi P (create_transactions ok payment_id m txs) Q s l.
Proof.
  intros Hi Hp Hsd. revert s l Hi Hp. unfold create_transactions.
  induction txs as [|[[j c] uid] txs IH]; intros s l Hi Hp Hall HQ; cbn [efor].
  - wp_step. by apply HQ.
  - apply Forall_cons in Hall as [(Hin & route & fee & Hroute & Hfee) Hall].
    wp_step. rewrite Hroute. cbn [eunwrap]. wp_step. wp_step. rewrite Hfee. cbn [eunwrap]. wp_step. wp_step.
    uid_step. plain_step.
    + rewrite Hs. exists p. split; [done|]. eauto.
    + apply IH; [done|by rewrite Hs|done|]. intros s2 l2 Hi2 Hs2. apply HQ; [done|congruence].
Qed.

Lemma wp_confirm n id x s l : inv n s l -> user_asked id -> wpi n (handle_confirm_payment_fees ok id x) (handled n) s l.
Proof.
  intros Hi Hask. unfold handle_confirm_payment_fees. wp_step. apply (wp_read n); [done|].
  destruct (open_payments (cn_compact_state s) !! cpf_payment_id x) as [p|] eqn:Hp; [|by apply wp_ack].
  destruct (op_status p) as [rid|f|sd|c fees|rc fees a|a] eqn:Hst; try (by apply wp_ack).
  case_decide as Hc; [|by apply wp_ack].
  destruct (co_found _ (inv_ok _ _ _ Hi) _ _ _ Hp Hst) as [Hgood Hfees].
  wp_step. apply (wp_gen_uids n); [done|]. intros uids s1 Hi1 Hlen Hs1 Hr1.
  set (sd := mkSending (fd_fees f) (list_to_set uids)).
  destruct (set_payment_ok (cn_compact_state s) (cpf_payment_id x) p (Sending sd)) as [Hok Hstep];
    [apply Hi|done|rewrite Hst; apply step_confirmed; rewrite <- Hlen; apply size_list_to_set_le|].
  wp_step. apply (wp_update_send n n); [done|done|by rewrite Hs1|apply Hi|]. intros s2 l2 Hi2 Hs2 Hr2.
  assert (open_payments (cn_compact_state s2) !! cpf_payment_id x = Some (set_status p (Sending sd))) as Hp2
    by (rewrite Hs2; apply put_payment_lookup).
  uid_step. wp_step. plain_step.
  { rewrite Hs. eexists. split; [exact Hp2|]. simpl. split_and!; eauto. }
  wp_step. eapply (wp_create_transactions n); [done|by rewrite Hs|done| |].
  - apply calc_fees_from_Ok in Hfees as (each & _ & Hall).
    apply Forall_forall. intros [[j c] uid'] Hin. split.
    + simpl. apply elem_of_list_to_set. by eapply elem_of_zip_r.
    + apply elem_of_zip_l in Hin. apply list_elem_of_lookup in Hin as [k Hk].
      destruct (Forall2_lookup_l _ _ _ _ _ Hall Hk) as (fee & _ & route & ? & ?). eauto.
  - intros s5 l5 Hi5 Hs5. apply wp_forward; [done|]. rewrite Hs5, Hs. eexists. split; [exact Hp2|]. left. simpl. eauto.
Qed.

(** The payment fails and the user is told. *)
Lemma wp_fail_tell n payment_id p ack_uid m s l :
  inv n s l -> open_payments (cn_compact_state s) !! payment_id = Some p ->
  status_step (op_dest_payment p) (op_status p) (StFailure ack_uid) -> plain (ActUser (ToUser m)) = true ->
  told_backed (set_payment_status (cn_compact_state s) payment_id p (StFailure ack_uid)) m ->
  wpi n (let* _ := update_send_compact_state ok (set_payment_status (cn_compact_state s) payment_id p (StFailure ack_uid))
         in tell ok m) (handled n) s l.
Proof.
  intros Hi Hp Hst Hm Ht. destruct (set_payment_ok _ _ _ _ (inv_ok _ _ _ Hi) Hp Hst) as [Hok Hstep].
  eapply wp_move_tell; [done..|apply put_payment_lookup|done|done].
Qed.

Lemma wp_cancel_payment n id payment_id s l :
  inv n s l -> user_asked id -> wpi n (handle_cancel_payment ok id payment_id) (handled n) s l.
Proof.
  intros Hi Hask. unfold handle_cancel_payment. wp_step. apply (wp_read n); [done|].
  destruct (open_payments (cn_compact_state s) !! payment_id) as [p|] eqn:Hp; [|by apply wp_ack].
  destruct (op_status p) as [rid|f|sd|c fees|rc fees a|a] eqn:Hst; try (by apply wp_ack);
    (uid_step; wp_step;
     destruct (set_payment_ok (cn_compact_state s) payment_id p (StFailure uid)) as [Hok Hstep];
       [apply Hi|done|rewrite Hst; constructor|];
     apply (wp_update_send n n); [done|done|by rewrite Hs|apply Hi|]; intros s2 l2 Hi2 Hs2 Hr2;
     wp_step; plain_step; [done|]; apply wp_tell; [done..|]; rewrite Hs2; eexists;
     split; [apply put_payment_lookup|done]).
Qed.

Lemma wp_ack_payment_done n id payment_id ack_uid s l :
  inv n s l -> user_asked id -> wpi n (handle_ack_payment_done ok id payment_id ack_uid) (handled n) s l.
Proof.
  intros Hi Hask. unfold handle_ack_payment_done. wp_step. apply (wp_read n); [done|].
  destruct (open_payments (cn_compact_state s) !! payment_id) as [p|] eqn:Hp; [|by apply wp_ack].
  destruct (op_status p) as [rid|f|sd|c fees|rc fees a|a] eqn:Hst; try (by apply wp_ack);
    (wp_step; case_decide; [|wp_step; by apply wp_ack];
     destruct (delete_payment_ok (cn_compact_state s) payment_id p) as [Hok Hstep];
       [apply Hi|done|by rewrite Hst|];
     apply (wp_update_send n n); [done|done|done|apply Hi|]; intros s2 l2 Hi2 Hs2 Hr2; by apply wp_ack).
Qed.

Lemma wp_add_invoice n id x s l : inv n s l -> user_asked id -> wpi n (handle_add_invoice ok id x) (handled n) s l.
Proof.
  intros Hi Hask. unfold handle_add_invoice. wp_step. apply (wp_read n); [done|].
  case_decide as Hd; [by apply wp_ack|]. wp_step. apply wp_unwrap.
  - intros Hn. destruct Hi as [_ _ [Hok] _ Hle _]. unfold advance in Hn.
    destruct (Z.leb_spec (u_max 64) n) as [|Hlt]; [done|]. rewrite checked_u_ok in Hn; [done|]. unfold u_ok in *. lia.
  - intros [g next] Hadv. destruct (advance_Some _ _ _ Hadv) as (-> & Hnext & _).
    set (i := mkOpenInvoice (adi_currency x) (adi_total_dest_payment x) (adi_description x) None
                (cs_generation (cn_compact_state s))).
    destruct (open_invoice_ok (cn_compact_state s) (adi_invoice_id x) i next) as [Hok Hst];
      [apply Hi|by apply eq_None_not_Some|done..|].
    wp_step. apply (wp_update_send n (n + 1)); [done..| |].
    { cbn [cs_generation]. rewrite Hnext. pose proof (inv_next _ _ _ Hi). lia. }
    intros s2 l2 Hi2 Hs2 _. plain_step; [|done]. rewrite Hs2. exists i. split; [|done]. simpl. by rewrite lookup_insert_eq.
Qed.

Lemma wp_cancel_invoice n id invoice_id s l :
  inv n s l -> user_asked id -> wpi n (handle_cancel_invoice ok id invoice_id) (handled n) s l.
Proof.
  intros Hi Hask. unfold handle_cancel_invoice. wp_step. apply (wp_read n); [done|].
  case_decide as Hd; [|by apply wp_ack]. wp_step. plain_step; [done|].
  destruct (delete_invoice_ok (cn_compact_state s) invoice_id (inv_ok _ _ _ Hi)) as [Hok Hst].
  apply (wp_update_send n n); [done|done|done|apply Hi|]. intros s2 l2 Hi2 _ _. eapply inv_weaken; [|done]. lia.
Qed.

Lemma wp_commit_invoice n id invoice_id s l :
  inv n s l -> user_asked id -> wpi n (handle_commit_invoice ok id invoice_id) (handled n) s l.
Proof.
  intros Hi Hask. unfold handle_commit_invoice. wp_step. apply (wp_read n); [done|]. wp_step. wp_step.
  destruct (open_invoices (cn_compact_state s) !! invoice_id) as [i|] eqn:Hinv; [|by apply wp_ack].
  destruct (oi_opt_commit i) as [c|] eqn:Hc; [|by apply wp_ack].
  destruct (negb _); [by apply wp_ack|].
  assert (cm_invoice_id c = invoice_id) as Hid by (by eapply (co_commits _ (inv_ok _ _ _ Hi))).
  wp_step. plain_step; [exists i; by rewrite Hid|].
  destruct (delete_invoice_ok (cn_compact_state s) (cm_invoice_id c) (inv_ok _ _ _ Hi)) as [Hok Hst].
  apply (wp_update_send n n); [done|done|done|apply Hi|]. intros s2 l2 Hi2 _ _. eapply inv_weaken; [|done]. lia.
Qed.

Lemma wp_verify_commit n id x s l :
  inv n s l -> (exists m, happened (EvUser m) /\ user_request_id m = id /\ inner m = UcRequestVerifyCommit x) ->
  wpi n (handle_request_verify_commit ok id x) (handled n) s l.
Proof.
  intros Hi (msg & Hmsg & Hid & Hinner). assert (user_asked id) as Hask by (by exists msg). unfold handle_request_verify_commit. wp_step. plain_step; [done|]. wp_step.
  apply (wp_read n); [done|]. wp_step. wp_step.
  destruct (open_invoices (cn_compact_state s) !! _) as [i|] eqn:Hinv;
    [|apply wp_tell; [done..|by exists msg, x]].
  wp_step. plain_step.
  { exists msg, x. split_and!; [done..|]. intros Hs. destruct (verify_commit _ _) eqn:Hv; [|discriminate Hs].
    simpl in Hs. case_bool_decide as Hnone; [|discriminate Hs]. eauto. }
  destruct (commit_invoice_ok (cn_compact_state s) (ccm_invoice_id (rvc_commit x)) i (convert_commit_back (rvc_commit x)))
    as [Hok Hst]; [apply Hi|done|done|].
  apply (wp_update_send n n); [done|done|done|apply Hi|]. intros s2 l2 Hi2 _ _. eapply inv_weaken; [|done]. lia.
Qed.

(** *** Messages of the node *)

Lemma wp_ack_close_payment n r s l :
  inv n s l -> happened (EvNode (ToAppResponseClosePayment r)) ->
  (forall p, open_payments (cn_compact_state s) !! rcp_payment_id r = Some p -> not_in_progress (op_status p) = true) ->
  wpi n (ack_close_payment ok r) (handled n) s l.
Proof.
  intros Hi Hr Hdone. unfold ack_close_payment. destruct (rcp_status r) eqn:Hst; cbn beta iota.
  - wp_step. eapply inv_weaken; [|done]. lia.
  - uid_step. apply wp_forward; [done|]. rewrite Hs. split; [|done]. exists r. by rewrite Hst.
  - uid_step. apply wp_forward; [done|]. rewrite Hs. split; [|done]. exists r. by rewrite Hst.
Qed.

Lemma wp_transaction_result n r s l : inv n s l -> wpi n (handle_transaction_result ok r) (handled n) s l.
Proof.
  intros Hi. unfold handle_transaction_result. wp_step. apply (wp_read n); [done|].
  destruct (find_transaction _ _) as [[[pid p] sd]|] eqn:Hf; [|wp_step; eapply inv_weaken; [|done]; lia].
  apply find_transaction_Some in Hf as (Hp & Hst & _).
  assert (forall st, status_step (op_dest_payment p) (op_status p) st -> _) as Hset
    by (intros st; exact (set_payment_forget_ok _ (tr_request_id r) pid p st (inv_ok _ _ _ Hi) Hp)).
  rewrite Hst in Hset.
  destruct (tr_result r) as [c| |]; [|destruct (bool_decide _)|].
  - destruct (Hset (StCommit c (sd_fees sd))) as [Hok Hstep]; [constructor|].
    eapply wp_move_tell; [done..|apply put_payment_lookup|done|].
    eexists. split; [apply put_payment_lookup|]. simpl. rewrite convert_commit_roundtrip. eauto.
  - uid_step. destruct (Hset (StFailure uid)) as [Hok Hstep]; [constructor|].
    eapply wp_move_tell; [done|done|by rewrite Hs|by rewrite Hs|apply put_payment_lookup|done|].
    eexists. split; [apply put_payment_lookup|done].
  - wp_step. eapply inv_weaken; [|done]. lia.
  - uid_step. destruct (Hset (StFailure uid)) as [Hok Hstep]; [constructor|].
    eapply wp_move_tell; [done|done|by rewrite Hs|by rewrite Hs|apply put_payment_lookup|done|].
    eexists. split; [apply put_payment_lookup|done].
Qed.

(** Writing a final status, in a bind that goes on. *)
Lemma wp_finish_payment n P pid p st m s l (Q : unit -> _) cs :
  inv n s l -> cs = cn_compact_state s -> open_payments cs !! pid = Some p ->
  status_step (op_dest_payment p) (op_status p) st ->
  told_backed (set_payment_status cs pid p st) m -> plain (ActUser (ToUser m)) = true ->
  (forall s' l', inv n s' l' -> cn_compact_state s' = set_payment_status cs pid p st -> Q tt s' l') ->
  wpi P (let* _ := update_send_compact_state ok (set_payment_status cs pid p st) in tell ok m) Q s l.
Proof.
  intros Hi -> Hp Hst Hm Hpl HQ. destruct (set_payment_ok _ _ _ _ (inv_ok _ _ _ Hi) Hp Hst) as [Hok Hstep].
  wp_step. apply (wp_update_send n n); [done|done|done|apply Hi|]. intros s2 l2 Hi2 Hs2 _.
  eapply wp_plain; [exact Hi2|done|by rewrite Hs2|]. intros Hi3. by apply HQ.
Qed.

Lemma wp_response_close n r s l :
  inv n s l -> happened (EvNode (ToAppResponseClosePayment r)) ->
  wpi n (handle_response_close_payment ok r) (handled n) s l.
Proof.
  intros Hi Hr. unfold handle_response_close_payment. wp_step. apply (wp_read n); [done|].
  destruct (open_payments (cn_compact_state s) !! rcp_payment_id r) as [p|] eqn:Hp;
    [|apply wp_ack_close_payment; [done..|congruence]].
  assert (forall st s' l', not_in_progress st = true -> inv n s' l' ->
    cn_compact_state s' = set_payment_status (cn_compact_state s) (rcp_payment_id r) p st ->
    wpi n (ack_close_payment ok r) (handled n) s' l') as Hclose.
  { intros st s' l' Hst Hi' Hs'. apply wp_ack_close_payment; [done..|]. intros p'. rewrite Hs'. unfold set_payment_status. rewrite put_payment_lookup.
    intros [= <-]. done. }
  wp_step. destruct (op_status p) as [rid|f|sd|c fees|rc fees a|a] eqn:Hst;
    try (wp_step; apply wp_ack_close_payment; [done..|]; intros p'; rewrite Hp; intros [= <-]; by rewrite Hst).
  - uid_step. eapply wp_finish_payment; [done|by rewrite Hs|done|rewrite Hst; constructor| |done|].
    + eexists. split; [apply put_payment_lookup|done].
    + intros s2 l2 Hi2 Hs2. by eapply Hclose; [|exact Hi2|exact Hs2].
  - destruct (rcp_status r) as [|receipt a|a] eqn:Hrs; uid_step;
      (eapply wp_finish_payment; [done|by rewrite Hs|done|rewrite Hst; constructor| |done|];
       [eexists; split; [apply put_payment_lookup|done]
       |intros s2 l2 Hi2 Hs2; by eapply Hclose; [|exact Hi2|exact Hs2]]).
Qed.

Lemma node_report_mutate_no_panic r ms : ofold (@node_report_mutate B) r ms <> Panic.
Proof.
  revert r. induction ms as [|m ms IH]; intros r; simpl; [done|].
  destruct m as [m|m]; simpl; [|by apply IH].
  destruct (funder_report_mutate (funder_report r) m) as [fr|e|] eqn:Hm; simpl; [by apply IH|done|].
  destruct m; simpl in Hm; repeat case_match; try done. by destruct (rp_friends _ !! _).
Qed.

Lemma wp_report_mutations n rm s l : inv n s l -> wpi n (handle_report_mutations ok rm) (handled n) s l.
Proof.
  intros Hi. unfold handle_report_mutations. wp_step. wp_step. wp_step.
  destruct (ofold node_report_mutate (cn_node_report s) (rm_mutations rm)) as [r|e|] eqn:Hr;
    [|apply (inv_backed _ _ _ Hi)|by apply node_report_mutate_no_panic in Hr].
  wp_step. wp_step.
  assert (forall s' l', inv n s' l' -> wpi n
    match rm_opt_app_request_id rm with
    | Some app_request_id =>
        if decide (app_request_id ∈ cn_pending_user_requests s)
        then let* _ := set_pending (fun pending => pending ∖ {[app_request_id]}) in ack ok app_request_id
        else eret tt
    | None => eret tt
    end (handled n) s' l') as Hrest.
  { intros s' l' Hi'. destruct (rm_opt_app_request_id rm) as [a|]; [case_decide|].
    - wp_step. unfold set_pending. wp_step. wp_step. wp_step. apply wp_ack; [|by apply (inv_pending _ _ _ Hi)].
      eapply inv_fields; [done..|]. simpl. intros id [Hid _]%elem_of_difference. by apply (inv_pending _ _ _ Hi').
    - wp_step. eapply inv_weaken; [|done]. lia.
    - wp_step. eapply inv_weaken; [|done]. lia. }
  case_decide as Hd; [|wp_step; by apply Hrest].
  wp_step. unfold update_node_report. wp_step. wp_step. wp_step. apply wp_emit; [apply Hi|]. apply Hrest.
  destruct Hi as [Hdu Hb Hok Hv Hn Hpe]. split; simpl; try done.
  - by rewrite durable_snoc.
  - apply log_backed_snoc; [done|]. by rewrite Hdu.
  - intros _. by rewrite user_view_snoc.
Qed.

Lemma wp_response_routes n r s l :
  inv n s l -> (forall ms, cr_result r = RoutesSuccess ms -> Forall routes_ok ms) ->
  wpi n (handle_response_routes ok r) (handled n) s l.
Proof.
  intros Hi Hr. unfold handle_response_routes. wp_step. apply (wp_read n); [done|].
  destruct (find_searching _ _) as [[pid p]|] eqn:Hf; [|wp_step; eapply inv_weaken; [|done]; lia].
  apply find_searching_Some in Hf as (Hp & Hst).
  pose proof (obtain_multi_route_spec r (op_dest_payment p) Hr (co_amounts _ (inv_ok _ _ _ Hi) _ _ Hp)) as Ho.
  destruct (obtain_multi_route _ _) as [[[m choice] fees]|[]|]; [| |done].
  - uid_step. eapply wp_finish_payment; [done|by rewrite Hs|done|rewrite Hst; by constructor| |done|].
    + eexists. split; [apply put_payment_lookup|]. simpl. eauto.
    + intros s2 l2 Hi2 _. eapply inv_weaken; [|done]. lia.
  - uid_step. eapply wp_finish_payment; [done|by rewrite Hs|done|rewrite Hst; constructor| |done|].
    + eexists. split; [apply put_payment_lookup|]. simpl. eauto.
    + intros s2 l2 Hi2 _. eapply inv_weaken; [|done]. lia.
Qed.

(** *** The loop *)

(** The ranges of the integers of an event. *)
Definition event_ok (e : CompactServerEvent B) : Prop :=
  match e with
  | EvUser m => match inner m with UcInitPayment x => u_ok 128 (ip_dest_payment x) | _ => True end
  | EvNode (ToAppResponseRoutes r) => forall ms, cr_result r = RoutesSuccess ms -> Forall routes_ok ms
  | _ => True
  end.

Lemma wp_handle_user n m s l :
  inv n s l -> event_ok (EvUser m) -> happened (EvUser m) -> wpi n (handle_user ok m) (handled n) s l.
Proof.
  intros Hi Hm Hh. assert (user_asked (user_request_id m)) as Hask by (by exists m).
  unfold handle_user. wp_step. unfold set_pending. wp_step. wp_step. wp_step.
  match goal with |- wp _ _ _ _ ?s' _ => assert (inv n s' l) as Hi' end.
  { eapply inv_fields; [done..|]. simpl. intros id [->%elem_of_singleton|Hid]%elem_of_union; [done|].
    by apply (inv_pending _ _ _ Hi). }
  simpl in Hm. destruct (inner m) eqn:Hinner; try (apply wp_forward; [done|]; exists m; by rewrite Hinner).
  - apply wp_init_payment; [done..|by exists m].
  - by apply wp_confirm.
  - by apply wp_cancel_payment.
  - by apply wp_ack_payment_done.
  - by apply wp_add_invoice.
  - by apply wp_cancel_invoice.
  - apply wp_verify_commit; [done|by exists m].
  - by apply wp_commit_invoice.
Qed.

Lemma wp_compact_step n p e s l :
  inv n s l -> event_ok e -> happened e -> wpi n (compact_node_step ok p e) (fun _ => inv (n + 1)) s l.
Proof.
  intros Hi He Hh. assert (inv (n + 1) s l) as Hi1 by (eapply inv_weaken; [|done]; lia).
  destruct e as [m| |m|]; simpl; try (wp_step; done).
  - destruct (check_permission _ _); [|by wp_step]. wp_step.
    eapply wp_mono; [|by apply wp_handle_user]. intros [] s' l' Hi'. by wp_step.
  - wp_step. eapply wp_mono.
    2:{ destruct m; simpl; [by apply wp_transaction_result|by apply wp_response_close|by apply wp_report_mutations|].
        by apply wp_response_routes. }
    intros [] s' l' Hi'. by wp_step.
Qed.

Lemma wp_compact_loop n p events s l :
  inv n s l -> Forall (fun e => event_ok e /\ happened e) events ->
  wpi (n + Z.of_nat (length events)) (compact_node_loop ok p events)
    (fun _ => inv (n + Z.of_nat (length events))) s l.
Proof.
  intros Hi Hall. revert n s l Hi. induction Hall as [|e events [He Hh] Hall IH]; intros n s l Hi.
  - apply wp_ret. eapply inv_weaken; [|done]. lia.
  - cbn [compact_node_loop]. wp_step.
    eapply wp_conseq; cycle 3; [by apply wp_compact_step|cbn [length]; lia|done|]. intros [] s' l' Hi'.
    + eapply wp_conseq; cycle 3; [by apply IH|cbn [length]; lia|done|]. intros [] s2 l2. apply inv_weaken.
      cbn [length]. lia.
    + apply wp_ret. eapply inv_weaken; [|done]. cbn [length]. lia.
Qed.
End Inv.

(** ** Recovery at the start *)

Section Init.
Context `{CryptoOps} `{RngOps} {B : Type} `{EqDecision B}.
Context (ok : nat -> bool) (happened : CompactServerEvent B -> Prop) (d0 : CompactState) (r0 : CompactReport B).
Notation log_backed := (log_backed happened).
Notation log := (list (CompactAction B)).
Implicit Types (s : CompactServerState B) (l : log).
Notation wpi P := (wp (S := CompactServerState B) (E := CompactNodeError) (Act := CompactAction B)
  (u_max 64 <= P) (fun _ => log_backed d0)).
Notation I n := (inv happened False d0 r0 n).

(** The payments of the start are still there. *)
Notation kept n s := (fun _ s' l' => I n s' l' /\
  dom (open_payments (cn_compact_state s')) = dom (open_payments (cn_compact_state s))).

Lemma wp_init_fail n P id p uid s s' l :
  I n s' l -> cn_compact_state s' = cn_compact_state s -> open_payments (cn_compact_state s) !! id = Some p ->
  status_step (op_dest_payment p) (op_status p) (StFailure uid) ->
  wpi P (let* _ := update_compact_state ok (set_payment_status (cn_compact_state s) id p (StFailure uid)) in
         tell ok (CuPaymentDone (mkPaymentDone id (DoneFailure uid)))) (kept n s) s' l.
Proof.
  intros Hi Hs Hp Hst. rewrite <- Hs in Hp.
  destruct (set_payment_ok _ _ _ _ (inv_ok _ _ _ _ _ _ _ Hi) Hp Hst) as [Hok Hstep]. wp_step.
  rewrite <- Hs. eapply wp_update; [done..|]. intros l2 Hl2 Hb2.
  eapply (wp_plain _ happened False d0 r0 n); [split; simpl; [done..|apply Hi|apply Hi]|done| |].
  - eexists. split; [apply put_payment_lookup|done].
  - intros Hi3. split; [done|]. cbn [cn_compact_state]. simpl. rewrite dom_insert_L.
    apply elem_of_dom_2 in Hp. set_solver.
Qed.

Lemma wp_init_close n P id p s l (Q : unit -> _) :
  I n s l -> open_payments (cn_compact_state s) !! id = Some p ->
  (exists sd, op_status p = Sending sd) \/ (exists c fees, op_status p = StCommit c fees) ->
  (forall s' l', I n s' l' -> cn_compact_state s' = cn_compact_state s -> Q tt s' l') ->
  wpi P (let* app_request_id := gen_uid in to_app ok app_request_id (buyer.request_close_payment id)) Q s l.
Proof.
  intros Hi Hp Hst HQ. wp_step. eapply wp_gen_uid; [done|]. intros uid s' Hi' Hs' Hr'.
  eapply wp_plain; [done..| |].
  - rewrite Hs'. exists p. done.
  - intros Hi3. by apply HQ.
Qed.

Lemma wp_init_one n P id s l :
  I n s l -> is_Some (open_payments (cn_compact_state s) !! id) -> wpi P (init_payment ok id) (kept n s) s l.
Proof.
  intros Hi [p Hp]. unfold init_payment. wp_step. unfold compact_state. wp_step. wp_step. wp_step. wp_step.
  rewrite Hp. cbn [eunwrap]. wp_step.
  destruct (op_status p) as [rid|f|sd|c fees|rc fees a|a] eqn:Hst.
  - wp_step. eapply wp_gen_uid; [done|]. intros uid s' Hi' Hs' _. eapply wp_init_fail; [done..|rewrite Hst; constructor].
  - wp_step. eapply wp_gen_uid; [done|]. intros uid s' Hi' Hs' _. eapply wp_init_fail; [done..|rewrite Hst; constructor].
  - wp_step. eapply wp_init_close; [done..|eauto|]. intros s1 l1 Hi1 Hs1.
    wp_step. eapply wp_gen_uid; [done|]. intros uid s' Hi' Hs' _.
    eapply wp_init_fail; [done|congruence|done|rewrite Hst; constructor].
  - wp_step. eapply wp_init_close; [done..|eauto|]. intros s1 l1 Hi1 Hs1.
    eapply wp_plain; [done..| |intros Hi2; split; [done|by rewrite Hs1]].
    rewrite Hs1. exists p. split; [done|]. simpl. rewrite convert_commit_roundtrip. eauto.
  - eapply wp_plain; [done..|exists p; done|by intros].
  - eapply wp_plain; [done..|exists p; done|by intros].
Qed.

Lemma wp_init n P s l : I n s l -> wpi P (compact_node_init ok) (fun _ => I n) s l.
Proof.
  intros Hi. unfold compact_node_init. wp_step. unfold compact_state. wp_step. wp_step. wp_step.
  eapply wp_mono; [|apply (wp_for _ _ (fun ids s' l' => I n s' l' /\
    forall id, id ∈ ids -> is_Some (open_payments (cn_compact_state s') !! id)))].
  - intros [] s' l' [Hi' _]. exact Hi'.
  - intros id ids s' l' [Hi' Hids]. eapply wp_mono; [|apply wp_init_one; [done|apply Hids; by left]].
    intros [] s2 l2 [Hi2 Hd]. split; [done|]. intros id' Hin. apply elem_of_dom. rewrite Hd. apply elem_of_dom.
    apply Hids. by right.
  - split; [done|]. intros id Hin. apply list_elem_of_fmap in Hin as ([id' p] & -> & Hin%elem_of_map_to_list). eauto.
Qed.
End Init.

(** The whole task, from its start. *)
Lemma happened_events {B} (events : list (CompactServerEvent B)) :
  Forall event_ok events -> Forall (fun e => event_ok e /\ e ∈ events) events.
Proof. rewrite !Forall_forall. intros Hall e He. split; [by apply Hall|done]. Qed.

Lemma wp_compact_node `{CryptoOps} `{RngOps} {B : Type} `{EqDecision B} (ok : nat -> bool)
  (p : AppPermissions) (events : list (CompactServerEvent B)) (report : NodeReport B) (d0 : CompactState) (g : rng) :
  compact_ok d0 -> Forall event_ok events ->
  let n := generation_value (cs_generation d0) + Z.of_nat (length events) in
  wp (u_max 64 <= n) (fun _ => log_backed (fun e => e ∈ events) d0) (compact_node ok p events)
    (fun _ => inv (fun e => e ∈ events) False d0 (create_compact_report d0 report) n) (mkCompactServerState report d0 ∅ g) [].
Proof.
  intros Hok He n. unfold compact_node. wp_step.
  eapply wp_mono; [|apply (wp_init _ (fun e => e ∈ events) _ (create_compact_report d0 report) (generation_value (cs_generation d0)))].
  - intros [] s l Hi. apply wp_compact_loop; [done|by apply happened_events].
  - split; simpl; try done. apply log_backed_nil.
Qed.

(** C19. Whatever the user and the node do, whichever effects fail, and wherever the
    task stops: every message the compact node sent is backed at that time. What the
    user is told holds in the database; payments, transactions and invoices are asked
    of the node only when they are stored, and the close of a payment is acknowledged
    only when the node announced it and the payment is not stored as one in progress;
    routes are asked for a payment that the user asked for and that is not stored yet,
    configuration is what the user asked for, the answer to a verification belongs to a
    request of the user and is positive only for a valid commit of an open invoice, and
    only requests of the user are acknowledged. The database moves only along the life
    cycles of payments and invoices, and the state in memory is the one in the database.
    The node does not panic before its counter of items is used up. *)
Theorem compact_node_backed `{CryptoOps} `{RngOps} {B : Type} `{EqDecision B} (ok : nat -> bool)
  (p : AppPermissions) (events : list (CompactServerEvent B)) (report : NodeReport B) (d0 : CompactState) (g : rng)
  (Hok : compact_ok d0) (He : Forall event_ok events)
  (Hg : generation_value (cs_generation d0) + Z.of_nat (length events) < u_max 64) :
  match compact_node ok p events (mkCompactServerState report d0 ∅ g) [] with
  | EOk _ s l =>
      log_backed (fun e => e ∈ events) d0 l /\ cn_compact_state s = durable d0 l /\ compact_ok (durable d0 l)
  | EErr _ _ l => log_backed (fun e => e ∈ events) d0 l
  | EPanic => False
  end.
Proof.
  pose proof (wp_compact_node ok p events report d0 g Hok He) as Hw. unfold wp in Hw.
  destruct (compact_node ok p events _ []) as [[] s l|e s l|]; [|done|lia].
  destruct Hw as [Hd Hb Hc _ _ _]. by rewrite Hd.
Qed.

(** The user who follows the reports sees the current state: after any number
    of events the last report sent is the report of the state and of the node. *)
Theorem user_sees_current_state `{CryptoOps} `{RngOps} {B : Type} `{EqDecision B} (ok : nat -> bool)
  (p : AppPermissions) (events : list (CompactServerEvent B)) (report : NodeReport B) (d0 : CompactState) (g : rng)
  (Hok : compact_ok d0) (He : Forall event_ok events)
  (Hg : generation_value (cs_generation d0) + Z.of_nat (length events) < u_max 64) :
  match compact_node_loop ok p events (mkCompactServerState report d0 ∅ g) [] with
  | EOk _ s l =>
      user_view (create_compact_report d0 report) l = create_compact_report (cn_compact_state s) (cn_node_report s)
  | EErr _ _ _ => True
  | EPanic => False
  end.
Proof.
  pose (n := generation_value (cs_generation d0)).
  pose proof (wp_compact_loop ok (fun e => e ∈ events) True d0 (create_compact_report d0 report) n p events
    (mkCompactServerState report d0 ∅ g) []) as Hw.
  unfold wp in Hw. destruct (compact_node_loop ok p events _ []) as [[] s l|e s l|]; [|done|].
  - apply Hw; [|by apply happened_events|done]. split; simpl; try done. apply log_backed_nil.
  - unfold n in *. enough (u_max 64 <= generation_value (cs_generation d0) + Z.of_nat (length events)) by lia.
    apply Hw; [|by apply happened_events]. split; simpl; try done. apply log_backed_nil.
Qed.
