(* ===== verification/CompactProps.v ===== *)
(** * Operations of the compact node

    Theorems about single requests of the user: what a confirmed payment sends,
    how invoices are committed, what a restart does with open payments, and how
    permissions compare with those of the application server; with executions on
    small states. *)

From S2P Require Import Prelude Arith Bytes Messages Canonical MutualCredit FunderState Report Handler HandleControl FunderHandler IndexMessages MultiRoute IndexConvert AppServer AppConn Effects CompactMessages CompactConvert CompactNode CompactTheory.

Local Open Scope Z_scope.

Section Confirm.
Context `{CryptoOps} `{RngOps} {B : Type} `{EqDecision B}.
Context (ok : nat -> bool) (Hall : forall i, ok i = true).
Notation log := (list (CompactAction B)).
Implicit Types (s : CompactServerState B) (l : log).

Lemma emit_run (e : CompactNodeError) (a : CompactAction B) s l : emit ok e a s l = EOk tt s (l ++ [a]).
Proof. unfold emit. by rewrite Hall. Qed.

Lemma to_app_run id r s l :
  to_app ok id r s l = EOk tt s (l ++ [ActApp (mkAppToAppServer id r) : CompactAction B]).
Proof. apply emit_run. Qed.

Lemma gen_uid_run s l :
  exists uid s', @gen_uid _ B s l = EOk uid s' l /\ cn_compact_state s' = cn_compact_state s /\
    cn_node_report s' = cn_node_report s.
Proof.
  unfold gen_uid, ebind, eget. destruct (rng_fill 16 (cn_compact_gen s)) as [uid g]. by eexists _, _.
Qed.

Lemma gen_uids_run {A} (xs : list A) s l :
  exists uids s', @gen_uids _ B A xs s l = EOk uids s' l /\ length uids = length xs /\
    cn_compact_state s' = cn_compact_state s /\ cn_node_report s' = cn_node_report s.
Proof.
  revert s. induction xs as [|x xs IH]; intros s; [by eexists _, _|].
  destruct (gen_uid_run s l) as (uid & s1 & Hu & Hs1 & Hr1). destruct (IH s1) as (uids & s2 & Hus & Hlen & Hs2 & Hr2).
  exists (uid :: uids), s2. cbn [gen_uids]. unfold ebind at 1. rewrite Hu. unfold ebind. rewrite Hus.
  split_and!; [done|simpl; lia|congruence..].
Qed.

(** The requests of a list of actions. *)
Definition sends (acts : log) (rs : list (AppRequest B)) : Prop :=
  Forall2 (fun a r => exists id, a = ActApp (mkAppToAppServer id r)) acts rs.

Lemma create_transactions_run payment_id m (txs : list (nat * Z * Uid)) (fees : list Z) s l :
  Forall2 (fun '(j, c, _) fee => exists route, mr_routes m !! j = Some route /\ calc_fee (rcr_rate route) c = Some fee)
    txs fees ->
  exists s' acts cts, create_transactions ok payment_id m txs s l = EOk tt s' (l ++ acts) /\
    cn_compact_state s' = cn_compact_state s /\ cn_node_report s' = cn_node_report s /\
    sends acts (AppCreateTransaction <$> cts) /\
    Forall2 (fun '(j, c, uid) ct => ct_payment_id ct = payment_id /\ ct_request_id ct = uid /\ ct_dest_payment ct = c /\
      exists route, mr_routes m !! j = Some route /\ ct_route ct = rcr_route route /\
        calc_fee (rcr_rate route) c = Some (ct_fees ct)) txs cts /\
    ct_fees <$> cts = fees.
Proof.
  intros Hf. revert s l. induction Hf as [|[[j c] uid] fee txs fees (route & Hroute & Hfee) Hf IH]; intros s l.
  - exists s, [], []. rewrite app_nil_r. split_and!; try done; constructor.
  - destruct (gen_uid_run s l) as (a & s1 & Hu & Hs1 & Hr1).
    set (ct := mkCreateTransaction payment_id uid (rcr_route route) c fee).
    set (act := ActApp (mkAppToAppServer a (AppCreateTransaction ct)) : CompactAction B).
    destruct (IH s1 (l ++ [act])) as (s' & acts & cts & Hrun & Hs' & Hr' & Hsends & Hcts & Hfees).
    exists s', (act :: acts), (ct :: cts).
    split_and!; [|congruence|congruence| | |by rewrite fmap_cons, Hfees].
    + unfold create_transactions in *. cbn [efor]. unfold ebind at 1. rewrite Hroute. cbn [eunwrap].
      unfold ebind at 1, eret at 1. rewrite Hfee. cbn [eunwrap]. unfold ebind at 1, eret at 1. unfold ebind at 1.
      rewrite Hu. rewrite to_app_run.
      etransitivity; [exact Hrun|]. by rewrite <- app_assoc.
    + rewrite fmap_cons. constructor; [by eexists|done].
    + constructor; [|done]. split_and!; eauto.
Qed.

(** What the transactions take from the choice and from the identifiers. *)
Lemma cts_columns payment_id (P : nat -> Z -> CreateTransaction -> Prop) (choice : MultiRouteChoice) uids cts :
  length uids = length choice ->
  Forall2 (fun '(j, c, uid) ct => ct_payment_id ct = payment_id /\ ct_request_id ct = uid /\ ct_dest_payment ct = c /\
    P j c ct) (zip choice uids) cts ->
  ct_request_id <$> cts = uids /\ ct_dest_payment <$> cts = choice.*2.
Proof.
  revert uids cts. induction choice as [|[j c] choice IH]; intros [|uid uids] cts Hlen Hcts; try done; simpl in Hcts.
  - by apply Forall2_nil_inv_l in Hcts as ->.
  - apply Forall2_cons_inv_l in Hcts as (ct & cts' & (_ & <- & <- & _) & Hcts & ->).
    destruct (IH uids cts') as [Hu Hc]; [simpl in Hlen; lia|done|]. rewrite !fmap_cons. simpl. by rewrite Hu, Hc.
Qed.

Lemma update_send_run cs s l :
  cn_compact_state s <> cs ->
  exists s', update_send_compact_state ok cs s l =
      EOk tt s' (l ++ [ActDatabase cs; ActUser (ToUser (CuReport (create_compact_report cs (cn_node_report s))))]) /\
    cn_compact_state s' = cs /\ cn_node_report s' = cn_node_report s.
Proof.
  intros Hne. unfold update_send_compact_state. unfold ebind at 1, eget at 1. rewrite decide_True by done.
  unfold update_compact_state, put_compact_state. unfold ebind at 1 2 3, eget, eput. rewrite emit_run.
  unfold tell, to_user. rewrite emit_run. eexists. split; [by rewrite <- app_assoc|done].
Qed.
End Confirm.

(** C22. When the user confirms the fees of a payment, the compact node writes the
    payment to its database, reports it, opens the payment at the node, sends one
    transaction per chosen route and closes the payment, in this order. The
    transactions pay the amount of the payment and the fees that were confirmed,
    neither more nor less, and each fits in the capacity of its route. *)
Theorem confirmed_payment_sent `{CryptoOps} `{RngOps} {B : Type} `{EqDecision B} (ok : nat -> bool)
  (id : Uid) (x : ConfirmPaymentFees) (p : OpenPayment) (f : OpenPaymentStatusFoundRoute)
  (s : CompactServerState B) (l : list (CompactAction B))
  (Hp : open_payments (cn_compact_state s) !! cpf_payment_id x = Some p) (Hst : op_status p = FoundRoute f)
  (Hf : found_ok (op_dest_payment p) f) (Hc : cpf_confirm_id x = fd_confirm_id f) (Hall : forall i, ok i = true) :
  exists s' uids create transactions cts,
    let cs := set_payment_status (cn_compact_state s) (cpf_payment_id x) p
                (Sending (mkSending (fd_fees f) (list_to_set uids))) in
    handle_confirm_payment_fees ok id x s l =
      EOk tt s' (l ++ [ActDatabase cs; ActUser (ToUser (CuReport (create_compact_report cs (cn_node_report s))))] ++
        create ++ transactions ++ [ActApp (mkAppToAppServer id (AppRequestClosePayment (cpf_payment_id x)))]) /\
    cn_compact_state s' = cs /\
    sends create [AppCreatePayment (mkCreatePayment (cpf_payment_id x) (op_invoice_id p) (op_currency p)
                                      (op_dest_payment p) (op_dest_public_key p))] /\
    sends transactions (AppCreateTransaction <$> cts) /\
    ct_request_id <$> cts = uids /\
    sum_Z (ct_dest_payment <$> cts) = op_dest_payment p /\
    sum_Z (ct_fees <$> cts) = fd_fees f /\
    Forall (fun ct => ct_payment_id ct = cpf_payment_id x /\
      exists route, route ∈ mr_routes (fd_multi_route f) /\ ct_route ct = rcr_route route /\
        (0 < op_dest_payment p -> ct_dest_payment ct + ct_fees ct <= rcr_capacity route)) cts.
Proof.
  destruct Hf as [Hgood Hfees]. apply calc_fees_from_Ok in Hfees as (each & Hsum & Heach).
  destruct (gen_uids_run (fd_multi_route_choice f) s l) as (uids & s1 & Hus & Hlen & Hs1 & Hr1).
  set (cs := set_payment_status (cn_compact_state s) (cpf_payment_id x) p
               (Sending (mkSending (fd_fees f) (list_to_set uids)))).
  destruct (update_send_run ok Hall cs s1 l) as (s2 & Hup & Hs2 & Hr2).
  { rewrite Hs1. intros Heq. assert (open_payments cs !! cpf_payment_id x = Some p) as Hx by (by rewrite <- Heq).
    unfold cs, set_payment_status in Hx. rewrite put_payment_lookup in Hx. injection Hx as Hx. rewrite <- Hx in Hst. done. }
  set (l2 := l ++ [ActDatabase cs; ActUser (ToUser (CuReport (create_compact_report cs (cn_node_report s1))))]) in *.
  destruct (gen_uid_run s2 l2) as (a & s3 & Hu & Hs3 & Hr3).
  set (act := ActApp (mkAppToAppServer a (AppCreatePayment (mkCreatePayment (cpf_payment_id x) (op_invoice_id p)
    (op_currency p) (op_dest_payment p) (op_dest_public_key p)))) : CompactAction B).
  destruct (create_transactions_run ok Hall (cpf_payment_id x) (fd_multi_route f)
    (zip (fd_multi_route_choice f) uids) each s3 (l2 ++ [act])) as (s4 & acts & cts & Hct & Hs4 & Hr4 & Hsends & Hcts & Hcf).
  { clear -Heach Hlen. revert uids Hlen. induction Heach as [|[j c] fee ch fs Hx Hall IH]; intros [|u us] Hlen; try done.
    constructor; [done|]. apply IH. simpl in Hlen. lia. }
  exists s4, uids, [act], acts, cts. split_and!.
  - unfold handle_confirm_payment_fees, compact_state. unfold ebind at 1 2, eget at 1, eret at 1.
    rewrite Hp, Hst. rewrite decide_True by done. unfold ebind at 1. rewrite Hus. unfold ebind at 1. fold cs.
    rewrite Hup. unfold ebind at 1. rewrite Hu. unfold ebind at 1. rewrite to_app_run by done.
    unfold buyer.create_payment. fold act. unfold ebind at 1. rewrite Hct. rewrite to_app_run by done.
    unfold l2. rewrite Hr1. by rewrite <- !app_assoc.
  - by rewrite Hs4, Hs3, Hs2.
  - by repeat econstructor.
  - done.
  - exact (proj1 (cts_columns _ _ _ _ _ Hlen Hcts)).
  - rewrite (proj2 (cts_columns _ _ _ _ _ Hlen Hcts)). apply Hgood.
  - rewrite Hcf. lia.
  - apply Forall_lookup. intros k ct Hk. destruct (Forall2_lookup_r _ _ _ _ _ Hcts Hk) as ([[j c] uid] & Hz & Hx).
    destruct Hx as (Hid & _ & <- & route & Hroute & Hrr & Hfee). split; [done|].
    apply list_elem_of_lookup_2, elem_of_zip_l in Hz. destruct Hgood as (_ & _ & _ & Hfit).
    destruct (Hfit j _ Hz) as (route' & Hroute' & _ & Hfits). simplify_eq. exists route.
    split_and!; [by eapply list_elem_of_lookup_2|done|]. intros Hpos. destruct (Hfits Hpos) as (fee & Hfee' & Hle).
    simplify_eq. lia.
Qed.

(** ** A restart *)

(** What the user is told of a payment that is not on its way any more. *)
Definition announcement {B : Type} (id : PaymentId) (st : OpenPaymentStatus) : option (CompactToUser B) :=
  match st with
  | StCommit c _ => Some (CuPaymentCommit (mkPaymentCommit id (convert_commit c)))
  | StSuccess receipt fees ack_uid => Some (CuPaymentDone (mkPaymentDone id (DoneSuccess receipt fees ack_uid)))
  | StFailure ack_uid => Some (CuPaymentDone (mkPaymentDone id (DoneFailure ack_uid)))
  | _ => None
  end.

Definition settled (p p' : OpenPayment) : Prop :=
  match op_status p with
  | SearchingRoute _ | FoundRoute _ | Sending _ => exists ack_uid, p' = set_status p (StFailure ack_uid)
  | _ => p' = p
  end.

Definition at_the_node (st : OpenPaymentStatus) : Prop :=
  match st with Sending _ | StCommit _ _ => True | _ => False end.

Section Restart.
Context `{CryptoOps} `{RngOps} {B : Type} `{EqDecision B}.
Context (ok : nat -> bool) (d0 : CompactState).
Notation log := (list (CompactAction B)).
Implicit Types (s : CompactServerState B) (l : log).

(** A payment of the start was dealt with. *)
Definition dealt_with (id : PaymentId) (p : OpenPayment) s l : Prop :=
  exists p' m, open_payments (cn_compact_state s) !! id = Some p' /\ settled p p' /\
    announcement id (op_status p') = Some m /\ ActUser (ToUser m) ∈ l /\
    (at_the_node (op_status p) -> exists a, ActApp (mkAppToAppServer a (AppRequestClosePayment id)) ∈ l).

Notation X := (fun (_ : CompactServerState B) (_ : log) => exists i, ok i = false).

Ltac effect_step := apply wp_emit_env; [by eauto|intros _].
Ltac gen_step := let uid := fresh "uid" in let g := fresh "g" in let Hg := fresh in
  wp_step; unfold gen_uid at 1; wp_step; wp_step;
  match goal with |- context [rng_fill 16 ?x] => destruct (rng_fill 16 x) as [uid g] end;
  wp_step; wp_step; wp_step.

Lemma failed_dealt_with id p uid s l :
  open_payments (cn_compact_state s) !! id = Some (set_status p (StFailure uid)) ->
  match op_status p with SearchingRoute _ | FoundRoute _ | Sending _ => True | _ => False end ->
  ActUser (ToUser (CuPaymentDone (mkPaymentDone id (DoneFailure uid)))) ∈ l ->
  (at_the_node (op_status p) -> exists a, ActApp (mkAppToAppServer a (AppRequestClosePayment id)) ∈ l) ->
  dealt_with id p s l.
Proof.
  intros Hp Hst Hl Hn. exists (set_status p (StFailure uid)), (CuPaymentDone (mkPaymentDone id (DoneFailure uid))).
  split_and!; [done| |done..]. unfold settled. destruct (op_status p); eauto; done.
Qed.

Lemma kept_dealt_with id p m s l :
  open_payments (cn_compact_state s) !! id = Some p -> announcement id (op_status p) = Some m ->
  ActUser (ToUser m) ∈ l ->
  (at_the_node (op_status p) -> exists a, ActApp (mkAppToAppServer a (AppRequestClosePayment id)) ∈ l) ->
  dealt_with id p s l.
Proof.
  intros Hp Hm Hl Hn. exists p, m. split_and!; [done| |done..]. unfold settled. by destruct (op_status p).
Qed.

(** What one turn of the loop leaves. *)
Notation turn id p s l := (fun _ s' l' => dealt_with id p s' l' /\ l ⊆ l' /\
  open_invoices (cn_compact_state s') = open_invoices (cn_compact_state s) /\
  delete id (open_payments (cn_compact_state s')) = delete id (open_payments (cn_compact_state s))).

Lemma init_payment_settles id p s l :
  open_payments (cn_compact_state s) !! id = Some p ->
  wp False X (init_payment ok id) (turn id p s l) s l.
Proof.
  intros Hp. unfold init_payment. wp_step. unfold compact_state. wp_step. wp_step. wp_step. wp_step.
  rewrite Hp. cbn [eunwrap]. wp_step.
  destruct (op_status p) as [rid|f|sd|c fees|rc fees a|a] eqn:Hst.
  - gen_step. wp_step. unfold update_compact_state, put_compact_state. do 4 wp_step. effect_step. effect_step.
    split_and!; [|set_solver|done|apply delete_insert_eq].
    eapply failed_dealt_with; [apply put_payment_lookup|by rewrite Hst|set_solver|by rewrite Hst].
  - gen_step. wp_step. unfold update_compact_state, put_compact_state. do 4 wp_step. effect_step. effect_step.
    split_and!; [|set_solver|done|apply delete_insert_eq].
    eapply failed_dealt_with; [apply put_payment_lookup|by rewrite Hst|set_solver|by rewrite Hst].
  - wp_step. gen_step. effect_step. gen_step. wp_step. unfold update_compact_state, put_compact_state. do 4 wp_step.
    effect_step. effect_step. split_and!; [|set_solver|done|apply delete_insert_eq].
    eapply failed_dealt_with; [apply put_payment_lookup|by rewrite Hst|set_solver|]. intros _. exists uid. set_solver.
  - wp_step. gen_step. effect_step. effect_step. split_and!; [|set_solver|done|done].
    eapply kept_dealt_with; [done|by rewrite Hst|set_solver|]. intros _. exists uid. set_solver.
  - effect_step. split_and!; [|set_solver|done|done].
    eapply kept_dealt_with; [done|by rewrite Hst|set_solver|by rewrite Hst].
  - effect_step. split_and!; [|set_solver|done|done].
    eapply kept_dealt_with; [done|by rewrite Hst|set_solver|by rewrite Hst].
Qed.

Lemma dealt_with_later id id' p s s' l l' :
  id <> id' -> dealt_with id p s l -> l ⊆ l' ->
  delete id' (open_payments (cn_compact_state s')) = delete id' (open_payments (cn_compact_state s)) ->
  dealt_with id p s' l'.
Proof.
  intros Hne (p' & m & Hp & Hs & Hm & Hin & Hn) Hl Hd. exists p', m. split_and!; [|done|done|by apply Hl|].
  - rewrite <- (lookup_delete_ne _ id' id) by done. rewrite Hd. by rewrite lookup_delete_ne.
  - intros Ha. destruct (Hn Ha) as [a Hin']. exists a. by apply Hl.
Qed.

Lemma init_settles report g :
  wp False X (compact_node_init ok) (fun _ s l =>
    open_invoices (cn_compact_state s) = open_invoices d0 /\
    forall id p, open_payments d0 !! id = Some p -> dealt_with id p s l)
    (mkCompactServerState report d0 ∅ g) [].
Proof.
  unfold compact_node_init. wp_step. unfold compact_state. wp_step. wp_step. wp_step. cbn [cn_compact_state].
  eapply wp_mono; [|apply (wp_for _ _ (fun ids s l => NoDup ids /\ (forall id, id ∈ ids -> is_Some (open_payments d0 !! id)) /\
    open_invoices (cn_compact_state s) = open_invoices d0 /\
    forall id p, open_payments d0 !! id = Some p ->
      if decide (id ∈ ids) then open_payments (cn_compact_state s) !! id = Some p else dealt_with id p s l))].
  - intros [] s l (_ & _ & Hi & Hall). split; [done|]. intros id p Hp. specialize (Hall id p Hp).
    by rewrite decide_False in Hall by apply not_elem_of_nil.
  - intros id ids s l ([Hnin Hnd]%NoDup_cons & Hdom & Hi & Hall).
    destruct (Hdom id) as [p Hp0]; [by left|]. pose proof (Hall id p Hp0) as Hp. rewrite decide_True in Hp by by left.
    eapply wp_mono; [|by apply init_payment_settles]. intros [] s' l' (Hdealt & Hl & Hinv & Hdel).
    split_and!; [done|intros id' Hin; apply Hdom; by right|congruence|].
    intros id' p' Hp'. destruct (decide (id' = id)) as [->|Hne].
    + rewrite decide_False by done. by simplify_eq.
    + specialize (Hall id' p' Hp'). destruct (decide (id' ∈ ids)) as [Hin|Hin].
      * rewrite decide_True in Hall by by right. rewrite <- (lookup_delete_ne _ id id') by done.
        rewrite Hdel. by rewrite lookup_delete_ne.
      * rewrite decide_False in Hall by (rewrite elem_of_cons; naive_solver). by eapply dealt_with_later.
  - split_and!; [apply NoDup_fst_map_to_list| |done|].
    + intros id Hin. apply list_elem_of_fmap in Hin as ([id' p] & -> & Hin%elem_of_map_to_list). eauto.
    + intros id p Hp. rewrite decide_True; [done|]. apply list_elem_of_fmap. exists (id, p).
      split; [done|]. by apply elem_of_map_to_list.
Qed.
End Restart.

(** When the compact node starts again, every payment that was not sent yet
    fails, one that was being sent fails too and is closed at the node, one with a
    commit is closed at the node and its commit is given again, and one that is
    done is announced again. Nothing panics, and only a failing effect stops it. *)
Theorem restart_settles_payments `{CryptoOps} `{RngOps} {B : Type} `{EqDecision B} (ok : nat -> bool)
  (d0 : CompactState) (report : NodeReport B) (g : rng) :
  match compact_node_init ok (mkCompactServerState report d0 ∅ g) [] with
  | EOk _ s l => open_invoices (cn_compact_state s) = open_invoices d0 /\
      forall id p, open_payments d0 !! id = Some p -> dealt_with id p s l
  | EErr _ _ _ => exists i, ok i = false
  | EPanic => False
  end.
Proof. exact (init_settles ok d0 report g). Qed.

(** ** Commits of invoices *)

Section Commits.
Context `{CryptoOps} `{RngOps} {B : Type} `{EqDecision B}.
Context (ok : nat -> bool) (Hall : forall i, ok i = true).
Implicit Types (s : CompactServerState B) (l : list (CompactAction B)).

Definition local_key s : PublicKey := rp_local_public_key (funder_report (cn_node_report s)).

(** The answer to a commit, and the invoice that is left. *)
Lemma verify_commit_run id x i s l :
  open_invoices (cn_compact_state s) !! ccm_invoice_id (rvc_commit x) = Some i ->
  let c := convert_commit_back (rvc_commit x) in
  let status := if verify_commit c (local_key s) && bool_decide (oi_opt_commit i = None)
                then VerifySuccess else VerifyFailure in
  exists s' rest, handle_request_verify_commit ok id x s l =
      EOk tt s' (l ++ [ActUser (Ack id);
        ActUser (ToUser (CuResponseVerifyCommit (mkResponseVerifyCommit (rvc_request_id x) status)))] ++ rest) /\
    cn_compact_state s' = set_invoices (cn_compact_state s)
      (<[ccm_invoice_id (rvc_commit x) := set_opt_commit i c]> (open_invoices (cn_compact_state s))) /\
    cn_node_report s' = cn_node_report s.
Proof.
  intros Hi c status. unfold handle_request_verify_commit. unfold ebind at 1, ack, to_user. rewrite emit_run by done.
  unfold ebind at 1, compact_state. unfold ebind at 1, eget at 1, eret at 1. unfold ebind at 1, eget at 1.
  rewrite Hi. unfold ebind at 1, tell, to_user. rewrite emit_run by done. fold (local_key s) c. fold status.
  set (cs := set_invoices _ _). destruct (decide (cn_compact_state s = cs)) as [Heq|Hne].
  - exists s, []. unfold update_send_compact_state. unfold ebind, eget. rewrite decide_False by naive_solver.
    split_and!; [|done..]. unfold eret. by rewrite <- !app_assoc.
  - destruct (update_send_run ok Hall cs s
      ((l ++ [ActUser (Ack id)]) ++
       [ActUser (ToUser (CuResponseVerifyCommit (mkResponseVerifyCommit (rvc_request_id x) status)))]))
      as (s' & Hrun & Hs' & Hr'); [done|].
    exists s'. eexists. split_and!; [rewrite Hrun; by rewrite <- !app_assoc|done|done].
Qed.

Lemma commit_invoice_run_invalid id invoice_id i c s l :
  open_invoices (cn_compact_state s) !! invoice_id = Some i -> oi_opt_commit i = Some c ->
  verify_commit c (local_key s) = false ->
  handle_commit_invoice ok id invoice_id s l = EOk tt s (l ++ [ActUser (Ack id)]).
Proof.
  intros Hi Hc Hv. unfold handle_commit_invoice, compact_state. unfold ebind at 1 2, eget at 1, eret at 1.
  unfold ebind at 1, eget at 1. rewrite Hi, Hc. fold (local_key s). rewrite Hv. cbn [negb].
  unfold ack, to_user. by rewrite emit_run.
Qed.
End Commits.

(** A commit that does not verify is stored with the invoice all the same:
    from then on a valid commit for the invoice is answered with a failure, and the
    invoice cannot be committed with what is stored. *)
Theorem rejected_commit_blocks_invoice `{CryptoOps} `{RngOps} {B : Type} `{EqDecision B} (ok : nat -> bool)
  (id1 id2 : Uid) (bad good : RequestVerifyCommit) (i : OpenInvoice) (s : CompactServerState B)
  (l : list (CompactAction B))
  (Hi : open_invoices (cn_compact_state s) !! ccm_invoice_id (rvc_commit bad) = Some i)
  (Hid : ccm_invoice_id (rvc_commit good) = ccm_invoice_id (rvc_commit bad))
  (Hbad : verify_commit (convert_commit_back (rvc_commit bad)) (local_key s) = false)
  (Hall : forall n, ok n = true) :
  exists s1 l1, handle_request_verify_commit ok id1 bad s l = EOk tt s1 l1 /\
    (exists s2 rest, handle_request_verify_commit ok id2 good s1 l1 =
      EOk tt s2 (l1 ++ [ActUser (Ack id2);
        ActUser (ToUser (CuResponseVerifyCommit (mkResponseVerifyCommit (rvc_request_id good) VerifyFailure)))] ++ rest)) /\
    handle_commit_invoice ok id2 (ccm_invoice_id (rvc_commit bad)) s1 l1 = EOk tt s1 (l1 ++ [ActUser (Ack id2)]).
Proof.
  destruct (verify_commit_run ok Hall id1 bad i s l Hi) as (s1 & rest & Hrun & Hs1 & Hr1).
  assert (open_invoices (cn_compact_state s1) !! ccm_invoice_id (rvc_commit bad) =
    Some (set_opt_commit i (convert_commit_back (rvc_commit bad)))) as Hi1 by (rewrite Hs1; apply lookup_insert_eq).
  eexists s1, _. split; [exact Hrun|]. split.
  - destruct (verify_commit_run ok Hall id2 good (set_opt_commit i (convert_commit_back (rvc_commit bad))) s1
      (l ++ [ActUser (Ack id1); ActUser (ToUser (CuResponseVerifyCommit (mkResponseVerifyCommit (rvc_request_id bad)
        (if verify_commit (convert_commit_back (rvc_commit bad)) (local_key s) && bool_decide (oi_opt_commit i = None)
         then VerifySuccess else VerifyFailure))))] ++ rest)) as (s2 & rest2 & Hrun2 & _); [by rewrite Hid|].
    exists s2, rest2. rewrite Hrun2. do 4 f_equal. cbn. by rewrite andb_false_r.
  - eapply commit_invoice_run_invalid; [done|exact Hi1|done|]. unfold local_key in *. by rewrite Hr1.
Qed.

(** A transaction that succeeds without completing the payment changes nothing:
    the payment still waits for it, so that the branch for the last answer is never
    taken. *)
Theorem transaction_success_ignored `{CryptoOps} `{RngOps} {B : Type} `{EqDecision B} (ok : nat -> bool)
  (request_id : Uid) (s : CompactServerState B) (l : list (CompactAction B)) :
  handle_transaction_result ok (mkTransactionResult request_id RequestSuccess) s l = EOk tt s l.
Proof.
  unfold handle_transaction_result, compact_state. unfold ebind at 1 2, eget, eret. cbn [tr_request_id tr_result].
  destruct (find_transaction request_id _) as [[[id p] sd]|] eqn:Hf; [|done].
  apply find_transaction_Some in Hf as (_ & _ & Hin). by rewrite bool_decide_false by set_solver.
Qed.

(** ** Permissions and answers *)

Section Emits.
Context `{CryptoOps} `{RngOps} {B : Type} `{EqDecision B}.
Context (ok : nat -> bool) (P : CompactAction B -> Prop) (l0 : list (CompactAction B)).
Hypothesis Phouse : forall a, match a with ActDatabase _ | ActUser _ => P a | ActApp _ => True end.
Implicit Types (s : CompactServerState B) (l : list (CompactAction B)).

Definition emitted (l : list (CompactAction B)) : Prop := exists acts, l = l0 ++ acts /\ Forall P acts.
Notation wpe m := (forall s l, emitted l -> wp (E := CompactNodeError) True (fun _ => emitted) m (fun _ _ => emitted) s l).

Lemma emitted_snoc l a : emitted l -> P a -> emitted (l ++ [a]).
Proof. intros (acts & -> & Hp) Ha. exists (acts ++ [a]). rewrite <- app_assoc. split; [done|]. by apply Forall_app_2; [|constructor]. Qed.

Lemma wpe_emit e a : P a -> wpe (emit ok e a).
Proof. intros Ha s l Hl. apply wp_emit; [done|]. by apply emitted_snoc. Qed.
Lemma wpe_bind {A A'} (m : Eff (CompactServerState B) CompactNodeError (CompactAction B) A)
  (k : A -> Eff (CompactServerState B) CompactNodeError (CompactAction B) A') :
  wpe m -> (forall a, wpe (k a)) -> wpe (ebind m k).
Proof. intros Hm Hk s l Hl. apply wp_bind. eapply wp_mono; [|by apply Hm]. intros a s' l' Hl'. by apply Hk. Qed.
Lemma wpe_pure {A} (a : A) : wpe (eret a).
Proof. intros s l Hl. by apply wp_ret. Qed.
Lemma wpe_get : wpe eget.
Proof. intros s l Hl. by apply wp_get. Qed.
Lemma wpe_put s' : wpe (eput s').
Proof. intros s l Hl. by apply wp_put. Qed.
Lemma wpe_panic {A} : wpe (epanic (A := A)).
Proof. done. Qed.
Lemma wpe_unwrap {A} (o : option A) : wpe (eunwrap o).
Proof. destruct o; [apply wpe_pure|apply wpe_panic]. Qed.
Lemma wpe_for {A} (xs : list A) body : (forall x, wpe (body x)) -> wpe (efor xs body).
Proof. intros Hb. induction xs as [|x xs IH]; cbn [efor]; [apply wpe_pure|]. apply wpe_bind; [apply Hb|intros _; exact IH]. Qed.

Lemma wpe_gen_uids {A} (xs : list A) : wpe (gen_uids xs).
Proof.
  induction xs as [|x xs IH]; cbn [gen_uids]; [apply wpe_pure|]. apply wpe_bind.
  - unfold gen_uid. apply wpe_bind; [apply wpe_get|]. intros s. destruct (rng_fill 16 _).
    apply wpe_bind; [apply wpe_put|]. intros _. apply wpe_pure.
  - intros uid. apply wpe_bind; [exact IH|]. intros uids. apply wpe_pure.
Qed.

Lemma wpe_user m : wpe (to_user ok m).
Proof. apply wpe_emit, (Phouse (ActUser m)). Qed.
Lemma wpe_database e d : wpe (emit ok e (ActDatabase d)).
Proof. apply wpe_emit, (Phouse (ActDatabase d)). Qed.

End Emits.

(** Descends into a handler; the requests to the node are left. *)
Ltac emits Hh :=
  repeat match goal with
  | |- forall _ _, emitted _ _ _ -> wp _ _ (ebind _ _) _ _ _ => apply wpe_bind; [|intros ?]
  | |- forall _ _, emitted _ _ _ -> wp _ _ (eret _) _ _ _ => apply wpe_pure
  | |- forall _ _, emitted _ _ _ -> wp _ _ eget _ _ _ => apply wpe_get
  | |- forall _ _, emitted _ _ _ -> wp _ _ (eput _) _ _ _ => apply wpe_put
  | |- forall _ _, emitted _ _ _ -> wp _ _ epanic _ _ _ => apply wpe_panic
  | |- forall _ _, emitted _ _ _ -> wp _ _ (eunwrap _) _ _ _ => apply wpe_unwrap
  | |- forall _ _, emitted _ _ _ -> wp _ _ (efor _ _) _ _ _ => apply wpe_for; intros ?
  | |- forall _ _, emitted _ _ _ -> wp _ _ (to_user _ _) _ _ _ => apply (wpe_user _ _ _ Hh)
  | |- forall _ _, emitted _ _ _ -> wp _ _ (emit _ _ (ActDatabase _)) _ _ _ => apply (wpe_database _ _ _ Hh)
  | |- forall _ _, emitted _ _ _ -> wp _ _ (let '(_, _) := ?x in _) _ _ _ => destruct x
  | |- forall _ _, emitted _ _ _ -> wp _ _ (match ?x with _ => _ end) _ _ _ => destruct x
  | |- forall _ _, emitted _ _ _ -> wp _ _ (if ?x then _ else _) _ _ _ => destruct x
  end.

Section Permissions.
Context `{CryptoOps} `{RngOps} {B : Type} `{EqDecision B}.
Context (ok : nat -> bool) (p : AppPermissions) (l0 : list (CompactAction B)).
Hypothesis Hroutes : perm_buyer p = true -> perm_routes p = true.

(** A request the application server lets pass. *)
Definition permitted (a : CompactAction B) : Prop :=
  match a with ActApp m => check_request_permissions p (app_request m) = true | _ => True end.

Lemma permitted_house a : match a with ActDatabase _ | ActUser _ => permitted a | ActApp _ => True end.
Proof. by destruct a. Qed.

Lemma handle_user_permitted m :
  check_permission (inner m) p = true ->
  forall s l, emitted permitted l0 l -> wp True (fun _ => emitted permitted l0) (handle_user ok m)
    (fun _ _ => emitted permitted l0) s l.
Proof.
  intros Hm. unfold handle_user, set_pending. 
  assert (forall id r, check_request_permissions p r = true -> forall s l, emitted permitted l0 l ->
    wp True (fun _ => emitted permitted l0) (to_app ok id r) (fun _ _ => emitted permitted l0) s l) as Happ
    by (intros; by apply wpe_emit).
  destruct (inner m); cbn in Hm;
  unfold handle_init_payment, handle_confirm_payment_fees, handle_cancel_payment, handle_ack_payment_done,
    handle_add_invoice, handle_cancel_invoice, handle_commit_invoice, handle_request_verify_commit,
    update_send_compact_state, update_compact_state, put_compact_state, create_transactions, tell, ack, compact_state, gen_uid; 
  emits permitted_house; try (apply Happ; cbn; auto; fail).
  apply wpe_gen_uids.
Qed.
End Permissions.

(** A user whose requests the compact node accepts is never cut off by the
    application server for them, when a buyer may also ask for routes: every
    request sent for the user passes the check of the server. *)
Theorem user_requests_permitted `{CryptoOps} `{RngOps} {B : Type} `{EqDecision B} (ok : nat -> bool)
  (p : AppPermissions) (m : UserToCompactAck B) (s : CompactServerState B) (l : list (CompactAction B))
  (Hm : check_permission (inner m) p = true) (Hroutes : perm_buyer p = true -> perm_routes p = true) :
  match handle_user ok m s l with
  | EOk _ _ l' | EErr _ _ l' => exists acts, l' = l ++ acts /\ Forall (permitted p) acts
  | EPanic => True
  end.
Proof.
  assert (emitted (permitted p) l l) as Hl by (exists []; by rewrite app_nil_r).
  pose proof (handle_user_permitted ok p l Hroutes m Hm s l Hl) as Hw. unfold wp in Hw.
  destruct (handle_user ok m s l) as [[] s' l'|e s' l'|]; done.
Qed.

(** A buyer without the permission to ask for routes passes the check of the
    compact node with a new payment, and the application server drops the
    connection because of it. *)
Theorem buyer_without_routes_disconnected `{CryptoOps} `{RngOps} {B : Type} `{EqDecision B} (ok : nat -> bool)
  (p : AppPermissions) (id : Uid) (x : InitPayment) (s : CompactServerState B) (l : list (CompactAction B))
  (env : AsEnv) (srv : AppServer B) (app_id : Z) (a : App)
  (Hbuyer : perm_buyer p = true) (Hroutes : perm_routes p = false)
  (Hnew : open_payments (cn_compact_state s) !! ip_payment_id x = None)
  (Hnext : generation_value (cs_generation (cn_compact_state s)) + 1 <= u_max 64)
  (Hpos : 0 <= generation_value (cs_generation (cn_compact_state s)))
  (Hall : forall i, ok i = true) (Happ : apps srv !! app_id = Some a) (Hp : app_permissions a = p) :
  check_permission (UcInitPayment (B := B) x) p = true /\
  exists s' request rest, handle_init_payment ok id x s l = EOk tt s' (l ++ ActApp request :: rest) /\
    handle_app_message env srv app_id request = Ok (set_apps srv (delete app_id (apps srv)), []).
Proof.
  split; [done|]. destruct (gen_uid_run s l) as (uid & s1 & Hu & Hs1 & Hr1).
  unfold handle_init_payment, compact_state. unfold ebind at 1 2, eget at 1, eret at 1. rewrite Hnew.
  unfold ebind at 1. rewrite Hu. unfold ebind at 1, eget at 1. unfold ebind at 1. rewrite to_app_run by done.
  unfold advance. rewrite checked_u_ok by (unfold u_ok; lia). cbn [opt_bind eunwrap].
  unfold ebind at 1, eret at 1. set (cs := mkCompactState _ _ _). set (req := mkAppToAppServer id _).
  destruct (update_send_run ok Hall cs s1 (l ++ [ActApp req])) as (s2 & Hrun & _).
  { rewrite Hs1. intros Heq. apply (f_equal open_payments) in Heq. cbn in Heq.
    rewrite Heq, lookup_insert_eq in Hnew. done. }
  eexists s2, req, _. split; [rewrite Hrun; by rewrite <- app_assoc|].
  unfold handle_app_message, check_app_permissions. rewrite Happ, Hp. cbn. by rewrite Hroutes.
Qed.

(** ** Executions *)

Module CompactSamples.
Import Toy FunderSamples MultiRouteSamples.

Definition all_ok : nat -> bool := fun _ => true.
Definition everything : AppPermissions := mkAppPermissions true true true true.
Definition first_report : NodeReport string :=
  mkNodeReport (create_report (funder_new alice []) ephemeral_new) (mkIndexClientReport [] None).
Definition start : CompactServerState string := mkCompactServerState first_report compact_state_new ∅ (1 : rng).

Definition the_payment : PaymentId := payment_of Byte.x03.
Definition the_invoice : InvoiceId := invoice_of Byte.x04.
Definition user (b : Byte.byte) (m : UserToCompact string) : CompactServerEvent string :=
  EvUser (mkUserToCompactAck (uid_of b) m).
Definition the_commit : Messages.Commit :=
  Messages.mkCommit (fixed_of_prefix 32 []) (fixed_of_prefix 32 []) (fixed_of_prefix 32 []) 300 300 the_invoice
    fst_currency (fixed_of_prefix 64 []).
Definition the_receipt : Receipt :=
  mkReceipt (fixed_of_prefix 32 []) the_invoice fst_currency (fixed_of_prefix 32 []) (fixed_of_prefix 32 []) true 300 300
    (fixed_of_prefix 64 []).

Definition ask : CompactServerEvent string :=
  user Byte.xa0 (UcInitPayment (mkInitPayment the_payment the_invoice fst_currency bob 300 "coffee")).
Definition routes_found : CompactServerEvent string :=
  EvNode (ToAppResponseRoutes (mkClientResponseRoutes (uid_of Byte.x01) (RoutesSuccess [sample]))).
Definition confirm : ConfirmPaymentFees := mkConfirmPaymentFees the_payment (uid_of Byte.x02).
(** A payment from the request to the receipt. *)
Definition whole_payment : list (CompactServerEvent string) :=
  [ask; routes_found; user Byte.xa1 (UcConfirmPaymentFees confirm);
   EvNode (ToAppTransactionResult (mkTransactionResult (uid_of Byte.x03) RequestSuccess));
   EvNode (ToAppTransactionResult (mkTransactionResult (uid_of Byte.x05) (RequestComplete the_commit)));
   EvNode (ToAppResponseClosePayment (mkResponseClosePayment the_payment (PaymentSuccess the_receipt (uid_of Byte.xbb))));
   user Byte.xa2 (UcAckPaymentDone the_payment (uid_of Byte.x0a))].

Definition stage (d : CompactState) : nat :=
  match op_status <$> open_payments d !! the_payment with
  | None => 0 | Some (SearchingRoute _) => 1 | Some (FoundRoute _) => 2 | Some (Sending _) => 3
  | Some (StCommit _ _) => 4 | Some (StSuccess _ _ _) => 5 | Some (StFailure _) => 6
  end.
Definition log_of {A} (r : eres (CompactServerState string) CompactNodeError (CompactAction string) A) :
  option (list (CompactAction string)) := match r with EOk _ _ l => Some l | _ => None end.
Definition written (l : list (CompactAction string)) : list nat :=
  omap (fun a => match a with ActDatabase d => Some (stage d) | _ => None end) l.

Example whole_payment_stages :
  (l ← log_of (compact_node all_ok everything whole_payment start []); Some (written l)) = Some [1; 2; 3; 4; 5; 0]%nat.
Proof. by vm_compute. Qed.

Lemma empty_ok : compact_ok compact_state_new.
Proof. split; simpl; try done. split; intros [k|k]; simpl; rewrite ?lookup_empty; done. Qed.

Lemma whole_payment_ok : Forall event_ok whole_payment.
Proof.
  repeat apply Forall_cons_2; try exact I; [|intros ms [= <-]|constructor].
  - split; vm_compute; discriminate.
  - repeat constructor; vm_compute; discriminate.
Qed.

Lemma compact_node_backed_witness :
  exists s l, compact_node all_ok everything whole_payment start [] = EOk tt s l /\ length l = 23%nat /\
    log_backed (fun e => e ∈ whole_payment) compact_state_new l.
Proof.
  pose proof (compact_node_backed all_ok everything whole_payment first_report compact_state_new (1 : rng)
    empty_ok whole_payment_ok ltac:(by vm_compute)) as Hb. fold start in Hb.
  assert (option_map length (log_of (compact_node all_ok everything whole_payment start [])) = Some 23%nat) as Hl
    by by vm_compute.
  destruct (compact_node all_ok everything whole_payment start []) as [[] s l|e s l|]; [|done..].
  exists s, l. split_and!; [done|by injection Hl|by destruct Hb].
Defined.

Lemma user_sees_current_state_witness :
  exists s l, compact_node_loop all_ok everything whole_payment start [] = EOk tt s l /\ length l = 23%nat /\
    user_view (create_compact_report compact_state_new first_report) l =
      create_compact_report (cn_compact_state s) (cn_node_report s).
Proof.
  pose proof (user_sees_current_state all_ok everything whole_payment first_report compact_state_new (1 : rng)
    empty_ok whole_payment_ok ltac:(by vm_compute)) as Hb. fold start in Hb.
  assert (option_map length (log_of (compact_node_loop all_ok everything whole_payment start [])) = Some 23%nat) as Hl
    by by vm_compute.
  destruct (compact_node_loop all_ok everything whole_payment start []) as [[] s l|e s l|]; [|done..].
  exists s, l. split_and!; [done|by injection Hl|done].
Defined.

(** A payment whose routes are found. *)
Definition response : ClientResponseRoutes := mkClientResponseRoutes (uid_of Byte.x01) (RoutesSuccess [sample]).
Definition found : OpenPaymentStatusFoundRoute :=
  match obtain_multi_route response 300 with
  | Ok (m, choice, fees) => mkFoundRoute (uid_of Byte.x02) m choice fees
  | _ => mkFoundRoute (uid_of Byte.x02) sample [] 0
  end.
Definition payment_found : OpenPayment :=
  mkOpenPayment the_invoice fst_currency bob 300 "coffee" (mkGeneration 0) (FoundRoute found).
Definition with_payment : CompactServerState string :=
  mkCompactServerState first_report (mkCompactState ∅ {[the_payment := payment_found]} (mkGeneration 1)) ∅ (3 : rng).

Lemma found_is_ok : found_ok 300 found.
Proof.
  pose proof (obtain_multi_route_spec response 300) as Ho. unfold found.
  destruct (obtain_multi_route response 300) as [[[m choice] fees]|[]|] eqn:E.
  - apply Ho; [|split; vm_compute; discriminate]. intros ms [= <-]. repeat constructor; vm_compute; discriminate.
  - exfalso. revert E. vm_compute. discriminate.
  - exfalso. revert E. vm_compute. discriminate.
Qed.

Lemma confirmed_payment_sent_witness :
  exists s' l' cts, handle_confirm_payment_fees all_ok (uid_of Byte.xa1) confirm with_payment [] = EOk tt s' l' /\
    sum_Z (ct_dest_payment <$> cts) = 300 /\ sum_Z (ct_fees <$> cts) = fd_fees found.
Proof.
  destruct (confirmed_payment_sent all_ok (uid_of Byte.xa1) confirm payment_found found with_payment [])
    as (s' & uids & create & txs & cts & Hrun & _ & _ & _ & _ & Hsum & Hfees & _).
  - apply lookup_singleton_eq.
  - reflexivity.
  - exact found_is_ok.
  - unfold found. assert (fd_confirm_id found = uid_of Byte.x02) as Hf.
    { unfold found. by destruct (obtain_multi_route response 300) as [[[? ?] ?]|[]|]. }
    exact (eq_sym Hf).
  - reflexivity.
  - eexists s', _, cts. split; [exact Hrun|]. split; [exact Hsum|exact Hfees].
Defined.

(** An open invoice, and a commit that is not signed. *)
Definition with_invoice : CompactServerState string :=
  mkCompactServerState first_report
    (mkCompactState {[the_invoice := mkOpenInvoice fst_currency 300 "coffee" None (mkGeneration 0)]} ∅ (mkGeneration 1))
    ∅ (1 : rng).
Definition unsigned : RequestVerifyCommit := mkRequestVerifyCommit (uid_of Byte.xc0) (convert_commit the_commit).

Lemma rejected_commit_blocks_invoice_witness :
  exists s1 l1, handle_request_verify_commit all_ok (uid_of Byte.xa0) unsigned with_invoice [] = EOk tt s1 l1 /\
    handle_commit_invoice all_ok (uid_of Byte.xa1) the_invoice s1 l1 = EOk tt s1 (l1 ++ [ActUser (Ack (uid_of Byte.xa1))]).
Proof.
  destruct (rejected_commit_blocks_invoice all_ok (uid_of Byte.xa0) (uid_of Byte.xa1) unsigned unsigned
    (mkOpenInvoice fst_currency 300 "coffee" None (mkGeneration 0)) with_invoice []) as (s1 & l1 & H1 & _ & H2).
  - apply lookup_singleton_eq.
  - reflexivity.
  - vm_compute. reflexivity.
  - reflexivity.
  - exists s1, l1. split; [exact H1|exact H2].
Defined.

Definition only_buyer (routes : bool) : AppPermissions := mkAppPermissions routes true false false.
Definition init : InitPayment := mkInitPayment the_payment the_invoice fst_currency bob 300 "coffee".

Lemma user_requests_permitted_witness :
  exists s' acts, handle_user all_ok (mkUserToCompactAck (uid_of Byte.xa0) (UcInitPayment init)) start [] = EOk tt s' acts /\
    length acts = 3%nat /\ Forall (permitted (only_buyer true)) acts.
Proof.
  pose proof (user_requests_permitted all_ok (only_buyer true) (mkUserToCompactAck (uid_of Byte.xa0) (UcInitPayment init))
    start [] eq_refl (fun _ => eq_refl)) as Hp.
  assert (option_map length (log_of (handle_user all_ok (mkUserToCompactAck (uid_of Byte.xa0) (UcInitPayment init))
    start [])) = Some 3%nat) as Hl by by vm_compute.
  destruct (handle_user all_ok (mkUserToCompactAck (uid_of Byte.xa0) (UcInitPayment init)) start []) as [[] s' l'| |];
    [|done..].
  destruct Hp as (acts & -> & Hp). exists s', acts. split_and!; [done|by injection Hl|exact Hp].
Defined.

Definition server : AppServer string := set_apps (app_server_new first_report) {[0 := mkApp (only_buyer false) true]}.

Lemma buyer_without_routes_disconnected_witness :
  exists s' request rest, handle_init_payment all_ok (uid_of Byte.xa0) init start [] = EOk tt s' (ActApp request :: rest) /\
    handle_app_message (mkAsEnv (fun _ => true) true true) server 0 request =
      Ok (set_apps server (delete 0 (apps server)), []).
Proof.
  destruct (buyer_without_routes_disconnected all_ok (only_buyer false) (uid_of Byte.xa0) init start []
    (mkAsEnv (fun _ => true) true true) server 0 (mkApp (only_buyer false) true)) as (_ & s' & r & rest & H1 & H2).
  - reflexivity.
  - reflexivity.
  - apply lookup_empty.
  - by vm_compute.
  - by vm_compute.
  - reflexivity.
  - apply lookup_singleton_eq.
  - reflexivity.
  - exists s', r, rest. split; [exact H1|exact H2].
Defined.
End CompactSamples.
