(* ===== verification/CompactStore.v ===== *)
(** * The compact node and its database

    Joins [CompactNode] with [Database]: the mutations the compact node writes
    are requests of the database service. *)

From S2P Require Import Prelude Arith Bytes Messages Canonical FunderState Report Handler FunderHandler MultiRoute IndexMessages AppServer Effects Database CompactMessages CompactConvert CompactNode CompactTheory CompactProps.

Local Open Scope Z_scope.

(** [MutableState for CompactState]; its error type has no values. *)
#[global] Instance compact_mutable : MutableState CompactState CompactState Empty_set :=
  fun self mutation => Ok (compact_state_mutate self mutation).

(** What a log asks of the database; [DatabaseClient::mutate] sends one mutation. *)
Definition database_requests {B : Type} (l : list (CompactAction B)) : list (list CompactState * bool) :=
  omap (fun a => match a with ActDatabase d => Some ([d], true) | _ => None end) l.

Lemma replay_requests {B : Type} (l : list (CompactAction B)) d :
  replay d (database_requests l).*1 = Ok (durable d l).
Proof.
  unfold replay, durable. revert d. induction l as [|a l IH]; intros d; [done|].
  destruct a as [d'|m|m]; simpl; apply IH.
Qed.

(** The compact node survives a crash: wherever a run stops, the file of the
    database loads to a state that backs every message sent so far and satisfies
    the invariant of the state, so that the node can start from it. *)
Theorem crash_recovers_backed_state `{CryptoOps} `{RngOps} {B : Type} `{EqDecision B} `{!Serde CompactState}
  `{!SerdeLaws CompactState} (ok : nat -> bool) (p : AppPermissions) (events : list (CompactServerEvent B))
  (report : NodeReport B) (d0 : CompactState) (g : rng) (crash : nat) (l : list (CompactAction B))
  (fs fs1 fs2 : FileSystem) (path : string) (db : FileDb CompactState) (acked : list (list CompactState))
  (Hok : compact_ok d0) (He : Forall event_ok events)
  (Hrun : match compact_node ok p events (mkCompactServerState report d0 ∅ g) [] with
          | EOk _ _ l' | EErr _ _ l' => l = take crash l'
          | EPanic => False
          end)
  (Hcreate : file_db_create (ME := Empty_set) true fs path d0 = Ok (fs1, db))
  (Hdb : database_loop fs1 db (database_requests l) = (fs2, acked, true)) :
  file_db_load (ME := Empty_set) fs2 path = Ok (mkFileDb path (durable d0 l)) /\
  log_backed (fun e => e ∈ events) d0 l /\ compact_ok (durable d0 l).
Proof.
  assert (log_backed (fun e => e ∈ events) d0 l) as Hl.
  { pose proof (wp_compact_node ok p events report d0 g Hok He) as Hw. unfold wp in Hw.
    destruct (compact_node ok p events _ []) as [[] s l'|e s l'|]; [apply inv_backed in Hw| |done]; subst l;
      apply (log_backed_prefix _ _ _ (drop crash l')); by rewrite take_drop. }
  split_and!; [|done|by eapply log_backed_ok].
  apply file_db_create_Ok in Hcreate as (-> & _ & t & -> & Ht).
  destruct (database_loop_spec _ (mkFileDb path d0) _ _ _ _ t (lookup_insert_eq _ _ _) Ht Hdb)
    as (_ & Hal & _ & d & t' & Hr & Hf & Hd).
  rewrite (Hal eq_refl), replay_requests in Hr. injection Hr as <-. by eapply file_db_load_of.
Qed.

Module CompactStoreSamples.
Import Toy FunderSamples CompactSamples.

(** A serialization that knows the states of a list, by their positions. *)
Section Positions.
Context (known : list CompactState).

Fixpoint ones (n : nat) : string := match n with O => ""%string | S n => String.append "1" (ones n) end.
Lemma ones_inj n m : ones n = ones m -> n = m.
Proof. revert m. induction n as [|n IH]; intros [|m] [=]; f_equal; auto. Qed.

Definition write_position (s : CompactState) : option string := ones ∘ fst <$> list_find (eq s) known.
Definition positions : Serde CompactState := {|
  to_string_pretty := write_position;
  from_str t := snd <$> list_find (fun s => write_position s = Some t) known
|}.

Lemma write_position_Some s t : write_position s = Some t -> exists i, known !! i = Some s /\ t = ones i.
Proof.
  intros ([i s'] & Hf & ->)%fmap_Some. apply list_find_Some in Hf as (Hk & -> & _). by exists i.
Qed.

Lemma positions_laws : @SerdeLaws CompactState positions.
Proof.
  split. intros s t Ht. cbn in *. destruct (write_position_Some _ _ Ht) as (i & Hi & ->).
  destruct (list_find_elem_of (fun s => write_position s = Some (ones i)) known s) as [[j s'] Hf];
    [by eapply list_elem_of_lookup_2|done|].
  rewrite Hf. apply list_find_Some in Hf as (Hj & Hs' & _).
  destruct (write_position_Some _ _ Hs') as (k & Hk & ->%ones_inj). cbn. congruence.
Qed.
End Positions.

Definition whole_run : list (CompactAction string) :=
  default [] (log_of (compact_node all_ok everything whole_payment start [])).
Definition known : list CompactState := compact_state_new :: concat (database_requests whole_run).*1.
#[local] Instance known_serde : Serde CompactState := positions known.
#[local] Instance known_laws : SerdeLaws CompactState := positions_laws known.

(** A crash after twelve effects of the whole payment. *)
Definition crashed : list (CompactAction string) := take 12 whole_run.
Definition crashed_files : FileSystem * list (list CompactState) * bool :=
  database_loop (ME := Empty_set) {["db"%string := ""%string]} (mkFileDb "db"%string compact_state_new)
    (database_requests crashed).

Lemma crash_recovers_backed_state_witness :
  file_db_load (ME := Empty_set) crashed_files.1.1 "db" = Ok (mkFileDb "db"%string (durable compact_state_new crashed)) /\
  stage (durable compact_state_new crashed) = 3%nat.
Proof.
  split; [|by vm_compute].
  destruct (crash_recovers_backed_state all_ok everything whole_payment first_report compact_state_new (1 : @rng toy_rng) 12 crashed
    ∅ {["db"%string := ""%string]} crashed_files.1.1 "db" (mkFileDb "db"%string compact_state_new) crashed_files.1.2)
    as [H _]; [apply empty_ok|apply whole_payment_ok| | | |exact H].
  - unfold crashed, whole_run, start. destruct (compact_node _ _ _ _ _) eqn:E; [reflexivity|..];
      exfalso; apply (f_equal (fun r => bool_decide (is_Some (log_of r)))) in E; revert E; vm_compute; discriminate.
  - vm_compute. reflexivity.
  - assert (crashed_files.2 = true) as Hal by (vm_compute; reflexivity).
    unfold crashed_files in *. destruct (database_loop _ _ _) as [[fs acked] alive]. cbn in Hal. by rewrite Hal.
Defined.
End CompactStoreSamples.
