(* ===== verification/ListenPool.v ===== *)
(** * The listening side of the channeler

    Models [channeler/src/listen_pool_state.rs] (which relays to listen on and
    which friends may connect through each), [channeler/src/listen_pool.rs] (the
    tasks that listen on them) and [common/src/access_control.rs]. The channel to
    a listening task is named by the number of the task; a message sent to it is
    an action. A listener that was told to stop, or whose relay closed the
    connection, ends with a [LpRelayClosed] event, at any later time. *)

From S2P Require Import Prelude Arith Effects.

(** ** [access_control.rs] *)
Section AccessControl.
Context {T : Type} `{Countable T}.

Inductive AccessControlOp := AclAdd (item : T) | AclRemove (item : T).
Record AccessControl := mkAccessControl { allowed : gset T }.

Definition access_control_new : AccessControl := mkAccessControl ∅.
Definition apply_op (ac : AccessControl) (op : AccessControlOp) : AccessControl :=
  match op with
  | AclAdd item => mkAccessControl ({[item]} ∪ allowed ac)
  | AclRemove item => mkAccessControl (allowed ac ∖ {[item]})
  end.
Definition is_allowed (ac : AccessControl) (item : T) : bool := bool_decide (item ∈ allowed ac).

Lemma apply_adds (l : list T) ac :
  foldl apply_op ac (AclAdd <$> l) = mkAccessControl (list_to_set l ∪ allowed ac).
Proof.
  revert ac. induction l as [|x l IH]; intros [s]; simpl.
  - f_equal. set_solver.
  - rewrite IH. simpl. f_equal. set_solver.
Qed.
End AccessControl.
Arguments AccessControlOp : clear implicits.
Arguments AccessControl T {_ _}.

(** ** [listen_pool_state.rs] *)
Section ListenPoolState.
Context {RA P ST : Type} `{Countable RA} `{Countable P}.

Record Relay := mkRelay { rl_friends : gset P; rl_status : ST }.
Record ListenPoolState := mkListenPoolState {
  relays : gmap RA Relay;
  local_addresses : gset RA
}.

Definition listen_pool_state_new : ListenPoolState := mkListenPoolState ∅ ∅.

Definition set_local_addresses (s : ListenPoolState) (addresses : list RA) : ListenPoolState * (gset P * list RA) :=
  let local := list_to_set addresses in
  let kept := filter (fun ar => (rl_friends ar.2 <> ∅) \/ ar.1 ∈ addresses) (relays s) in
  let new_addresses := filter (fun a => kept !! a = None) (elements local) in
  let relay_friends := ⋃ ((fun ar => rl_friends ar.2) <$> map_to_list kept) in
  (mkListenPoolState kept local, (relay_friends, new_addresses)).

(** The loop over the addresses of a friend and of this node; the accumulator
    holds the relays, [relays_add] and [relays_spawn]. *)
Definition add_friend_step (friend : P) (acc : gmap RA Relay * list RA * list RA) (address : RA) :
  gmap RA Relay * list RA * list RA :=
  let '(rs, relays_add, relays_spawn) := acc in
  match rs !! address with
  | Some relay =>
      if decide (friend ∈ rl_friends relay) then acc
      else (<[address := mkRelay ({[friend]} ∪ rl_friends relay) (rl_status relay)]> rs,
            relays_add ++ [address], relays_spawn)
  | None => (rs, relays_add, relays_spawn ++ [address])
  end.

Definition update_friend (s : ListenPoolState) (friend : P) (addresses : list RA) :
  ListenPoolState * (list RA * list RA * list RA) :=
  let iter_addresses := list_to_set addresses ∪ local_addresses s in
  let '(rs, relays_add, relays_spawn) := foldl (add_friend_step friend) (relays s, [], []) (elements iter_addresses) in
  let relays_remove :=
    (filter (fun ar => ((ar.1 ∉ addresses) /\ (ar.1 ∉ local_addresses s)) /\ friend ∈ rl_friends ar.2)
       (map_to_list rs)).*1 in
  let kept := map_imap (fun a relay =>
    if decide (a ∈ addresses \/ a ∈ local_addresses s) then Some relay
    else let relay := mkRelay (rl_friends relay ∖ {[friend]}) (rl_status relay) in
         if decide (~ (rl_friends relay = ∅)) then Some relay else None) rs in
  (mkListenPoolState kept (local_addresses s), (relays_add, relays_remove, relays_spawn)).

Definition remove_friend (s : ListenPoolState) (friend : P) : ListenPoolState * list RA :=
  let relays_remove := (filter (fun ar => friend ∈ rl_friends ar.2) (map_to_list (relays s))).*1 in
  let kept := map_imap (fun a relay =>
    let relay := mkRelay (rl_friends relay ∖ {[friend]}) (rl_status relay) in
    if decide (~ (rl_friends relay = ∅)) then Some relay
    else if decide (a ∈ local_addresses s) then Some relay else None) (relays s) in
  (mkListenPoolState kept (local_addresses s), relays_remove).

(** The friends that may connect through a relay. *)
Definition friends_at (rs : gmap RA Relay) (a : RA) : gset P := from_option rl_friends ∅ (rs !! a).

(** *** What the operations do *)

Lemma add_friend_loop friend l rs add spawn rs' add' spawn' :
  NoDup l -> foldl (add_friend_step friend) (rs, add, spawn) l = (rs', add', spawn') ->
  (forall a, rs' !! a =
     (if decide (a ∈ l) then (fun r => mkRelay ({[friend]} ∪ rl_friends r) (rl_status r)) <$> rs !! a else rs !! a)) /\
  (forall a, a ∈ add' <-> a ∈ add \/ a ∈ l /\ exists r, rs !! a = Some r /\ friend ∉ rl_friends r) /\
  (forall a, a ∈ spawn' <-> a ∈ spawn \/ a ∈ l /\ rs !! a = None).
Proof.
  revert rs add spawn. induction l as [|x l IH]; intros rs add spawn Hnd; cbn [foldl].
  - intros Hx. injection Hx as <- <- <-. split_and!; intros a; [by rewrite decide_False by apply not_elem_of_nil|rewrite elem_of_nil; naive_solver..].
  - apply NoDup_cons in Hnd as [Hx Hnd]. intros Hrun.
    destruct (add_friend_step friend (rs, add, spawn) x) as [[rs1 add1] spawn1] eqn:Hstep.
    destruct (IH _ _ _ Hnd Hrun) as (Hl & Ha & Hs). clear IH Hrun.
    assert (forall a, a <> x -> rs1 !! a = rs !! a) as Hother.
    { intros a Hne. unfold add_friend_step in Hstep. repeat case_match; simplify_eq/=; try done. by rewrite lookup_insert_ne. }
    assert (rs1 !! x = (fun r => mkRelay ({[friend]} ∪ rl_friends r) (rl_status r)) <$> rs !! x /\
            (forall a, a ∈ add1 <-> a ∈ add \/ a = x /\ exists r, rs !! x = Some r /\ friend ∉ rl_friends r) /\
            (forall a, a ∈ spawn1 <-> a ∈ spawn \/ a = x /\ rs !! x = None)) as (Hx1 & Hadd & Hspawn).
    { unfold add_friend_step in Hstep. destruct (rs !! x) as [r|] eqn:Er; [case_decide as Hin|]; simplify_eq/=.
      - rewrite Er. simpl. split_and!; [|naive_solver..]. f_equal.
        destruct r as [fs st]; simpl in *. f_equal. apply leibniz_equiv. intros p. set_solver.
      - rewrite lookup_insert_eq. setoid_rewrite elem_of_app. setoid_rewrite list_elem_of_singleton. naive_solver.
      - rewrite Er. setoid_rewrite elem_of_app. setoid_rewrite list_elem_of_singleton. naive_solver. }
    split_and!; intros a; [rewrite Hl|rewrite Ha, Hadd, elem_of_cons|rewrite Hs, Hspawn, elem_of_cons];
      (destruct (decide (a = x)) as [->|Hne]; [rewrite ?Hx1; assert (x = x) by done|rewrite ?(Hother a) by done]);
      [| |tauto..].
    + rewrite decide_False by done. by rewrite decide_True by by left.
    + destruct (decide (a ∈ l)); [rewrite decide_True by by right|rewrite decide_False by (rewrite elem_of_cons; tauto)]; done.
Qed.

Lemma elem_of_fst_filter {V} (Q : RA * V -> Prop) `{!forall x, Decision (Q x)} (m : gmap RA V) a :
  a ∈ (filter Q (map_to_list m)).*1 <-> exists v, m !! a = Some v /\ Q (a, v).
Proof.
  rewrite list_elem_of_fmap. split.
  - intros ([a' v] & -> & [HQ Hin%elem_of_map_to_list]%list_elem_of_filter). eauto.
  - intros (v & Hv & HQ). exists (a, v). split; [done|]. apply list_elem_of_filter. by rewrite elem_of_map_to_list.
Qed.

Definition listened (addresses : list RA) (s : ListenPoolState) (a : RA) : Prop :=
  a ∈ addresses \/ a ∈ local_addresses s.
#[export] Instance listened_dec addresses s a : Decision (listened addresses s a).
Proof. unfold listened. apply _. Defined.

(** A friend may connect through the relays given for it and those of this node,
    and through no other; a relay that no friend needs is dropped. *)
Lemma update_friend_spec s f addresses s' add rem spawn :
  update_friend s f addresses = (s', (add, rem, spawn)) ->
  local_addresses s' = local_addresses s /\
  (forall a, relays s' !! a =
    match relays s !! a with
    | Some r => if decide (listened addresses s a) then Some (mkRelay ({[f]} ∪ rl_friends r) (rl_status r))
                else if decide (rl_friends r ∖ {[f]} <> ∅) then Some (mkRelay (rl_friends r ∖ {[f]}) (rl_status r))
                else None
    | None => None
    end) /\
  (forall a, a ∈ add <-> listened addresses s a /\ exists r, relays s !! a = Some r /\ f ∉ rl_friends r) /\
  (forall a, a ∈ rem <-> ~ listened addresses s a /\ exists r, relays s !! a = Some r /\ f ∈ rl_friends r) /\
  (forall a, a ∈ spawn <-> listened addresses s a /\ relays s !! a = None).
Proof.
  unfold update_friend. destruct (foldl _ _ _) as [[rs add'] spawn'] eqn:Hloop. intros Hx. injection Hx as <- <- <- <-.
  apply add_friend_loop in Hloop as (Hl & Ha & Hs); [|apply NoDup_elements].
  assert (forall a, a ∈ elements (list_to_set addresses ∪ local_addresses s) <-> listened addresses s a) as Hel.
  { intros a. unfold listened. rewrite elem_of_elements, elem_of_union, elem_of_list_to_set. done. }
  split; [done|]. split_and!; simpl.
  - intros a. rewrite map_lookup_imap, Hl. unfold listened.
    destruct (decide (a ∈ elements _)) as [Hin|Hin]; rewrite Hel in Hin; unfold listened in Hin;
      destruct (relays s !! a) as [r|]; simpl; try done.
    + by rewrite !decide_True by done.
    + by rewrite !(decide_False (P := _ \/ _)) by done.
  - intros a. rewrite Ha, Hel. rewrite elem_of_nil. naive_solver.
  - intros a. rewrite elem_of_fst_filter. simpl. setoid_rewrite Hl. unfold listened.
    destruct (decide (a ∈ elements _)) as [Hin|Hin]; rewrite Hel in Hin; unfold listened in Hin; naive_solver.
  - intros a. rewrite Hs, Hel. rewrite elem_of_nil. naive_solver.
Qed.

Lemma remove_friend_spec s f s' rem :
  remove_friend s f = (s', rem) ->
  local_addresses s' = local_addresses s /\
  (forall a, relays s' !! a =
    match relays s !! a with
    | Some r => if decide ((rl_friends r ∖ {[f]} <> ∅) \/ a ∈ local_addresses s)
                then Some (mkRelay (rl_friends r ∖ {[f]}) (rl_status r)) else None
    | None => None
    end) /\
  (forall a, a ∈ rem <-> exists r, relays s !! a = Some r /\ f ∈ rl_friends r).
Proof.
  unfold remove_friend. intros Hx. injection Hx as <- <-. split; [done|]. split.
  - intros a. simpl. rewrite map_lookup_imap. destruct (relays s !! a) as [r|]; simpl; [|done].
    destruct (decide (rl_friends r ∖ {[f]} <> ∅)) as [Hf|Hf]; [by rewrite decide_True by by left|].
    destruct (decide (a ∈ local_addresses s)); [by rewrite decide_True by by right|].
    by rewrite decide_False by naive_solver.
  - intros a. apply elem_of_fst_filter.
Qed.

Lemma set_local_addresses_spec s addresses s' friends new :
  set_local_addresses s addresses = (s', (friends, new)) ->
  local_addresses s' = list_to_set addresses /\
  (forall a, relays s' !! a =
    match relays s !! a with
    | Some r => if decide ((rl_friends r <> ∅) \/ a ∈ addresses) then Some r else None
    | None => None
    end) /\
  (forall a, a ∈ new <-> a ∈ addresses /\ relays s' !! a = None) /\
  (forall f, f ∈ friends <-> exists a, f ∈ friends_at (relays s) a).
Proof.
  unfold set_local_addresses. intros Hx. injection Hx as <- <- <-. split; [done|].
  assert (forall a, filter (fun ar : RA * Relay => (rl_friends ar.2 <> ∅) \/ ar.1 ∈ addresses) (relays s) !! a =
    match relays s !! a with
    | Some r => if decide ((rl_friends r <> ∅) \/ a ∈ addresses) then Some r else None
    | None => None
    end) as Hkept.
  { intros a. destruct (relays s !! a) as [r|] eqn:Er.
    - case_decide; [by apply map_lookup_filter_Some|]. apply map_lookup_filter_None. right. intros r' Hr'. naive_solver.
    - apply map_lookup_filter_None. by left. }
  split_and!; simpl.
  - done.
  - intros a. rewrite list_elem_of_filter, elem_of_elements, elem_of_list_to_set. naive_solver.
  - intros f. rewrite elem_of_union_list. unfold friends_at. split.
    + intros (X & ([a r] & -> & Hin%elem_of_map_to_list)%list_elem_of_fmap & Hf). rewrite Hkept in Hin.
      exists a. destruct (relays s !! a); [|done]. case_decide; naive_solver.
    + intros (a & Hf). destruct (relays s !! a) as [r|] eqn:Er; [simpl in Hf|set_solver].
      exists (rl_friends r). split; [|done]. apply list_elem_of_fmap. exists (a, r). split; [done|].
      apply elem_of_map_to_list. rewrite Hkept, Er. rewrite decide_True; [done|]. left. set_solver.
Qed.
End ListenPoolState.
Arguments Relay P ST {_ _}. Arguments ListenPoolState RA P ST {_ _ _ _}.

(** ** [listen_pool.rs] *)
Inductive LpConfig (RA P : Type) :=
| SetLocalAddresses (addresses : list RA)
| UpdateFriend (friend : P) (addresses : list RA)
| RemoveFriend (friend : P).
Arguments SetLocalAddresses {RA P}. Arguments UpdateFriend {RA P}. Arguments RemoveFriend {RA P}.

Inductive ListenPoolError := LpSpawnError.

Inductive LpEvent (RA P : Type) :=
| LpEvConfig (c : LpConfig RA P)
| LpEvConfigClosed
| LpEvRelayClosed (address : RA)
| LpEvTimerTick
| LpEvTimerClosed.
Arguments LpEvConfig {RA P}. Arguments LpEvConfigClosed {RA P}. Arguments LpEvRelayClosed {RA P}.
Arguments LpEvTimerTick {RA P}. Arguments LpEvTimerClosed {RA P}.

(** [Connected] holds the channel to the listening task. *)
Inductive RelayStatus := RsWaiting (ticks : Z) | RsConnected (access_control_sender : nat).

(** Starting a listening task, and a message to one. *)
Inductive ListenPoolAction (RA P : Type) `{Countable P} :=
| LpListen (task : nat) (address : RA) (access_control : AccessControl P)
| LpControl (task : nat) (op : AccessControlOp P).
Arguments LpListen {RA P _ _}. Arguments LpControl {RA P _ _}.

Section ListenPool.
Context {RA P : Type} `{Countable RA} `{Countable P}.

Record ListenPool := mkListenPool {
  lp_state : ListenPoolState RA P RelayStatus;
  lp_backoff_ticks : Z;
  lp_spawned : nat
}.

Definition listen_pool_new (backoff_ticks : Z) : ListenPool := mkListenPool listen_pool_state_new backoff_ticks 0.

Notation M := (Eff ListenPool ListenPoolError (ListenPoolAction RA P)).
Variable ok : nat -> bool.

Definition put_state (st : ListenPoolState RA P RelayStatus) : M unit :=
  let* s := eget in eput (mkListenPool st (lp_backoff_ticks s) (lp_spawned s)).

Definition put_relay (address : RA) (r : Relay P RelayStatus) : M unit :=
  let* s := eget in
  put_state (mkListenPoolState (<[address := r]> (relays (lp_state s))) (local_addresses (lp_state s))).

Definition spawn_listen (address : RA) (relay_friends : gset P) : M nat :=
  let access_control := foldl apply_op access_control_new (AclAdd <$> elements relay_friends) in
  let* s := eget in
  let* _ := emit ok LpSpawnError (LpListen (lp_spawned s) address access_control) in
  let* _ := eput (mkListenPool (lp_state s) (lp_backoff_ticks s) (S (lp_spawned s))) in
  eret (lp_spawned s).

(** The result of sending on the channel of a listening task is ignored. *)
Definition send_access_control (op : AccessControlOp P) (address : RA) : M unit := fun s l =>
  match relays (lp_state s) !! address with
  | Some r => match rl_status r with
              | RsConnected sender => EOk tt s (l ++ [LpControl sender op])
              | RsWaiting _ => EOk tt s l
              end
  | None => EOk tt s l
  end.

Definition spawn_relay (relay_friends : gset P) (address : RA) : M unit :=
  let* sender := spawn_listen address relay_friends in
  put_relay address (mkRelay relay_friends (RsConnected sender)).

Definition lp_handle_config (c : LpConfig RA P) : M unit :=
  let* s := eget in
  match c with
  | SetLocalAddresses local_addresses =>
      let '(st, (relay_friends, addresses)) := set_local_addresses (lp_state s) local_addresses in
      let* _ := put_state st in
      efor addresses (spawn_relay relay_friends)
  | UpdateFriend friend addresses =>
      let '(st, (relays_add, relays_remove, relays_spawn)) := update_friend (lp_state s) friend addresses in
      let* _ := put_state st in
      let* _ := efor relays_add (send_access_control (AclAdd friend)) in
      let* _ := efor relays_remove (send_access_control (AclRemove friend)) in
      efor relays_spawn (spawn_relay {[friend]})
  | RemoveFriend friend =>
      let '(st, relays_remove) := remove_friend (lp_state s) friend in
      let* _ := put_state st in
      efor relays_remove (send_access_control (AclRemove friend))
  end.

Definition lp_handle_relay_closed (address : RA) : M unit :=
  let* s := eget in
  match relays (lp_state s) !! address with
  | Some r => put_relay address (mkRelay (rl_friends r) (RsWaiting (lp_backoff_ticks s)))
  | None => eret tt
  end.

Definition tick_relay (r : Relay P RelayStatus) : Relay P RelayStatus :=
  match rl_status r with
  | RsWaiting ticks => mkRelay (rl_friends r) (RsWaiting (saturate_u 64 (ticks - 1)))
  | RsConnected _ => r
  end.
Definition is_due (r : Relay P RelayStatus) : bool :=
  match rl_status r with RsWaiting ticks => (ticks <=? 0)%Z | RsConnected _ => false end.

Definition lp_handle_timer_tick : M unit :=
  let* s := eget in
  let rs := tick_relay <$> relays (lp_state s) in
  let spawn_addresses := (filter (fun ar => is_due ar.2) (map_to_list rs)).*1 in
  let* _ := put_state (mkListenPoolState rs (local_addresses (lp_state s))) in
  efor spawn_addresses (fun address =>
    let* s := eget in
    let* r := eunwrap (relays (lp_state s) !! address) in
    spawn_relay (rl_friends r) address).

Fixpoint listen_pool_loop (events : list (LpEvent RA P)) : M unit :=
  match events with
  | [] => eret tt
  | LpEvConfig c :: events' => let* _ := lp_handle_config c in listen_pool_loop events'
  | LpEvConfigClosed :: _ => eret tt
  | LpEvRelayClosed address :: events' => let* _ := lp_handle_relay_closed address in listen_pool_loop events'
  | LpEvTimerTick :: events' => let* _ := lp_handle_timer_tick in listen_pool_loop events'
  | LpEvTimerClosed :: _ => eret tt
  end.

(** *** What a listening task was told *)

(** The address and the access control of a task, from the log. *)
Definition task_step (task : nat) (o : option (RA * AccessControl P)) (a : ListenPoolAction RA P) :
  option (RA * AccessControl P) :=
  match a with
  | LpListen t address ac => if decide (t = task) then Some (address, ac) else o
  | LpControl t op => if decide (t = task) then (fun x => (x.1, apply_op x.2 op)) <$> o else o
  end.
Definition task_acl (l : list (ListenPoolAction RA P)) (task : nat) : option (RA * AccessControl P) :=
  foldl (task_step task) None l.

Lemma task_acl_app l a task : task_acl (l ++ [a]) task = task_step task (task_acl l task) a.
Proof. unfold task_acl. by rewrite foldl_app. Qed.

(** [told s l D]: the task of every connected relay was started for its address
    and knows its friends, up to the friends in [D]. *)
Definition told (s : ListenPool) (l : list (ListenPoolAction RA P)) (D : RA -> gset P) : Prop :=
  (forall task, (lp_spawned s <= task)%nat -> task_acl l task = None) /\
  forall a r task, relays (lp_state s) !! a = Some r -> rl_status r = RsConnected task ->
    exists ac, task_acl l task = Some (a, ac) /\ allowed ac ∖ D a = rl_friends r ∖ D a.
Definition stale (f : P) (xs : list RA) (a : RA) : gset P := if decide (a ∈ xs) then {[f]} else ∅.

(** A relay is kept because it is a relay of this node or because a friend uses it. *)
Definition needed (st : ListenPoolState RA P RelayStatus) : Prop :=
  forall a r, relays st !! a = Some r -> a ∈ local_addresses st \/ rl_friends r <> ∅.
(** There is a listener for every relay of this node. *)
Definition covers (st : ListenPoolState RA P RelayStatus) (except : list RA) : Prop :=
  forall a, a ∈ local_addresses st -> a ∉ except -> is_Some (relays st !! a).

Definition synced (s : ListenPool) (l : list (ListenPoolAction RA P)) : Prop :=
  told s l (fun _ => ∅) /\ needed (lp_state s) /\ covers (lp_state s) [].

Notation env_failed := (fun _ _ => exists i, ok i = false).

Lemma told_weaken s l (D D' : RA -> gset P) : (forall a, D a ⊆ D' a) -> told s l D -> told s l D'.
Proof.
  intros HD [Hf Ht]. split; [done|]. intros a r task Hr Hs. destruct (Ht a r task Hr Hs) as (ac & Hac & He).
  exists ac. split; [done|]. specialize (HD a). set_solver.
Qed.

Lemma stale_ne f x xs a : a <> x -> stale f (x :: xs) a = stale f xs a.
Proof.
  intros Hne. unfold stale. destruct (decide (a ∈ xs)); [by rewrite decide_True by by right|].
  by rewrite decide_False by by intros [?|?]%elem_of_cons.
Qed.

(** Telling one task brings it up to date. *)
Lemma told_tell s l op f x xs r task :
  match op with AclAdd g | AclRemove g => g = f end ->
  match op with AclAdd _ => f ∈ rl_friends r | AclRemove _ => f ∉ rl_friends r end ->
  relays (lp_state s) !! x = Some r -> rl_status r = RsConnected task ->
  told s l (stale f (x :: xs)) -> told s (l ++ [LpControl task op]) (stale f xs).
Proof.
  intros Hop Hf Er Es [Hfresh Ht]. destruct (Ht _ _ _ Er Es) as (ac & Hac & He). split.
  - intros task' Ht'. rewrite task_acl_app. simpl. rewrite decide_False; [by apply Hfresh|].
    intros ->. rewrite Hfresh in Hac by done. done.
  - intros a r' task' Hr Hs. rewrite task_acl_app. simpl. destruct (decide (task = task')) as [<-|Hne].
    + destruct (Ht _ _ _ Hr Hs) as (ac' & Hac' & _). rewrite Hac in Hac'. injection Hac' as <- <-.
      rewrite Er in Hr. injection Hr as <-. rewrite Hac. simpl. eexists. split; [done|].
      unfold stale at 1 2 in He. rewrite decide_True in He by by left. clear -He Hf Hop.
      apply leibniz_equiv. intros p.
      assert (p ∈ allowed ac ∖ {[f]} <-> p ∈ rl_friends r ∖ {[f]}) as Hp by by rewrite He.
      destruct op as [g|g]; subst g; simpl; unfold stale; case_decide; destruct (decide (p = f)); set_solver.
    + destruct (Ht _ _ _ Hr Hs) as (ac' & Hac' & He'). exists ac'. split; [done|].
      assert (a <> x) by congruence. by rewrite !stale_ne in He' by done.
Qed.

(** A relay that has no task needs not be told. *)
Lemma told_skip s l f x xs :
  (forall r task, relays (lp_state s) !! x = Some r -> rl_status r <> RsConnected task) ->
  told s l (stale f (x :: xs)) -> told s l (stale f xs).
Proof.
  intros Hx [Hfresh Ht]. split; [done|]. intros a r task Hr Hs.
  destruct (Ht _ _ _ Hr Hs) as (ac & Hac & He). exists ac. split; [done|].
  rewrite stale_ne in He; [done|]. intros ->. by eapply Hx.
Qed.

(** Telling the tasks about a change of [f] that the state already has. *)
Lemma wp_tell_relays X op f xs ys s l :
  match op with AclAdd g | AclRemove g => g = f end ->
  (forall a r, a ∈ xs -> relays (lp_state s) !! a = Some r ->
     match op with AclAdd _ => f ∈ rl_friends r | AclRemove _ => f ∉ rl_friends r end) ->
  told s l (stale f (xs ++ ys)) ->
  wp False X (efor xs (send_access_control op)) (fun _ s' l' => s' = s /\ told s l' (stale f ys)) s l.
Proof.
  intros Hop. revert l. induction xs as [|x xs IH]; intros l Hxs Hl; [by split|].
  specialize (fun l => IH l (fun a r Ha => Hxs a r (list_elem_of_further _ _ _ Ha))).
  cbn [efor]. wp_step. unfold wp at 1, send_access_control. cbn [app] in Hl.
  destruct (relays (lp_state s) !! x) as [r|] eqn:Er; [destruct (rl_status r) as [t|task] eqn:Es|];
    apply IH; [eapply told_skip; [|done]| |eapply told_skip; [|done]].
  - intros r0 task Hr0. rewrite Er in Hr0. injection Hr0 as <-. by rewrite Es.
  - eapply told_tell; [done| |done..]. apply (Hxs x); [by left|done].
  - intros r0 task Hr0. by rewrite Er in Hr0.
Qed.

(** Starting a listening task. *)
Lemma wp_spawn_relay D a fs s l :
  told s l D ->
  wp False env_failed (spawn_relay fs a) (fun _ s' l' => told s' l' D /\ exists task,
    lp_state s' = mkListenPoolState (<[a := mkRelay fs (RsConnected task)]> (relays (lp_state s)))
                    (local_addresses (lp_state s)) /\ lp_backoff_ticks s' = lp_backoff_ticks s) s l.
Proof.
  intros [Hfresh Ht]. unfold spawn_relay, spawn_listen, put_relay, put_state. rewrite apply_adds. repeat wp_step.
  apply wp_emit_env; [eauto|]. intros _. repeat wp_step. simpl. split; [|eauto]. split; simpl.
  - intros task Hle. rewrite task_acl_app. simpl. rewrite decide_False by lia. apply Hfresh. lia.
  - intros a' r task Hr Hs. rewrite task_acl_app. simpl. apply lookup_insert_Some in Hr as [[<- <-]|[Hne Hr]].
    + simpl in Hs. injection Hs as <-. rewrite decide_True by done. eexists. split; [done|]. simpl.
      rewrite list_to_set_elements_L. set_solver.
    + destruct (Ht _ _ _ Hr Hs) as (ac & Hac & He). rewrite decide_False; [eauto|].
      intros <-. rewrite Hfresh in Hac by done. done.
Qed.

(** Starting listening tasks for several addresses. *)
Lemma wp_spawn_relays fs xs s l :
  told s l (fun _ => ∅) -> needed (lp_state s) ->
  (forall a, a ∈ xs -> a ∈ local_addresses (lp_state s) \/ fs <> ∅) -> covers (lp_state s) xs ->
  wp False env_failed (efor xs (spawn_relay fs)) (fun _ s' l' => synced s' l' /\
    local_addresses (lp_state s') = local_addresses (lp_state s) /\ lp_backoff_ticks s' = lp_backoff_ticks s /\
    forall a, friends_at (relays (lp_state s')) a = if decide (a ∈ xs) then fs else friends_at (relays (lp_state s)) a) s l.
Proof.
  revert s l. induction xs as [|x xs IH]; intros s l Ht Hn Hxs Hc.
  - cbn [efor]. wp_step. by split_and!.
  - cbn [efor]. wp_step. eapply wp_mono; [|by apply wp_spawn_relay].
    intros _ s1 l1 (Ht1 & task & Hst & Hb). eapply wp_mono; [|apply IH; [done|..]].
    + intros _ s2 l2 (Hsync & Hloc & Hb2 & Hf). rewrite Hst in Hloc. split_and!; [done|done|congruence|].
      intros a. rewrite Hf, Hst. unfold friends_at. simpl. destruct (decide (a = x)) as [->|Hne].
      * rewrite lookup_insert_eq. rewrite (decide_True (P := x ∈ x :: xs)) by by left. by case_decide.
      * rewrite lookup_insert_ne by done.
        destruct (decide (a ∈ xs)); [by rewrite decide_True by by right|].
        by rewrite decide_False by by intros [?|?]%elem_of_cons.
    + rewrite Hst. intros a r. simpl. rewrite lookup_insert_Some. intros [[<- <-]|[_ Hr]]; [|by eapply Hn].
      apply Hxs. by left.
    + rewrite Hst. intros a Ha. apply Hxs. by right.
    + rewrite Hst. intros a Ha Hna. simpl in *. destruct (decide (a = x)) as [->|Hne];
        [rewrite lookup_insert_eq; by eexists|]. rewrite lookup_insert_ne by done.
      apply Hc; [done|]. by intros [?|?]%elem_of_cons.
Qed.

(** *** The handlers keep the tasks in sync *)

(** What a configuration means for the friends of a relay. *)
Definition configured (c : LpConfig RA P) (st st' : ListenPoolState RA P RelayStatus) : Prop :=
  match c with
  | SetLocalAddresses addresses =>
      local_addresses st' = list_to_set addresses /\
      forall g a, g ∈ friends_at (relays st') a -> exists a', g ∈ friends_at (relays st) a'
  | UpdateFriend f addresses =>
      local_addresses st' = local_addresses st /\
      forall g a, g ∈ friends_at (relays st') a <->
        if decide (g = f) then listened addresses st a else g ∈ friends_at (relays st) a
  | RemoveFriend f =>
      local_addresses st' = local_addresses st /\
      forall g a, g ∈ friends_at (relays st') a <-> g <> f /\ g ∈ friends_at (relays st) a
  end.

Lemma told_put s l D st :
  told s l D ->
  (forall a r, relays st !! a = Some r -> exists r0, relays (lp_state s) !! a = Some r0 /\
     forall task, rl_status r = RsConnected task -> rl_status r0 = RsConnected task) ->
  forall D' : RA -> gset P, (forall a r r0, relays st !! a = Some r -> relays (lp_state s) !! a = Some r0 ->
     rl_friends r0 ∖ D' a = rl_friends r ∖ D' a) -> (forall a, D a ⊆ D' a) ->
  told (mkListenPool st (lp_backoff_ticks s) (lp_spawned s)) l D'.
Proof.
  intros [Hf Ht] Hst D' HD' Hsub. split; [done|]. intros a r task Hr Hs. simpl in Hr.
  destruct (Hst _ _ Hr) as (r0 & Hr0 & Hs0). apply Hs0 in Hs. destruct (Ht _ _ _ Hr0 Hs) as (ac & Hac & He).
  exists ac. split; [done|]. rewrite <- (HD' _ _ _ Hr Hr0). specialize (Hsub a). set_solver.
Qed.

Lemma wp_set_local_addresses addresses s l :
  synced s l ->
  wp False env_failed (lp_handle_config (SetLocalAddresses addresses)) (fun _ s' l' => synced s' l' /\
    lp_backoff_ticks s' = lp_backoff_ticks s /\ configured (SetLocalAddresses addresses) (lp_state s) (lp_state s')) s l.
Proof.
  intros (Ht & Hn & Hc). unfold lp_handle_config, put_state. wp_step. wp_step.
  destruct (set_local_addresses _ _) as [st [fs new]] eqn:E.
  apply set_local_addresses_spec in E as (Hloc & Hr & Hnew & Hfs). do 3 wp_step. wp_step.
  eapply wp_mono; [|apply wp_spawn_relays].
  - intros _ s' l' (Hs & Hloc' & Hb & Hf). split_and!; [done|done|]. simpl in *. split; [congruence|].
    intros g a. rewrite Hf. case_decide; [apply Hfs|]. unfold friends_at at 1. rewrite Hr.
    intros Hg. exists a. unfold friends_at. destruct (relays (lp_state s) !! a); [|done].
    by case_decide; [|set_solver].
  - eapply told_put; [done| |intros a r r0; rewrite Hr; intros Hx Hy; rewrite Hy in Hx; by case_decide; simplify_eq|done].
    intros a r. rewrite Hr. destruct (relays (lp_state s) !! a); [|done]. case_decide; naive_solver.
  - intros a r. simpl. rewrite Hr, Hloc, elem_of_list_to_set. destruct (relays (lp_state s) !! a); [|done].
    case_decide; naive_solver.
  - intros a Ha%Hnew. left. simpl. rewrite Hloc, elem_of_list_to_set. tauto.
  - intros a. simpl. rewrite Hloc, elem_of_list_to_set. intros Ha Hna.
    destruct (relays st !! a) eqn:E; [by eexists|]. destruct Hna. by apply Hnew.
Qed.

Lemma wp_update_friend f addresses s l :
  synced s l ->
  wp False env_failed (lp_handle_config (UpdateFriend f addresses)) (fun _ s' l' => synced s' l' /\
    lp_backoff_ticks s' = lp_backoff_ticks s /\ configured (UpdateFriend f addresses) (lp_state s) (lp_state s')) s l.
Proof.
  intros (Ht & Hn & Hc). unfold lp_handle_config, put_state. wp_step. wp_step.
  destruct (update_friend _ _ _) as [st [[add rem] spawn]] eqn:E.
  apply update_friend_spec in E as (Hloc & Hr & Hadd & Hrem & Hspawn). do 3 wp_step. wp_step. wp_step.
  eapply wp_mono; [|apply (wp_tell_relays _ _ f _ (rem ++ []))]; [|done|..].
  - intros _ s1 l1 [-> Ht1]. wp_step. eapply wp_mono; [|apply (wp_tell_relays _ _ f _ [])]; [|done| |done].
    + intros _ s2 l2 [-> Ht2]. eapply wp_mono; [|apply wp_spawn_relays].
      * intros _ s' l' (Hs & Hloc' & Hb & Hf). split_and!; [done|done|]. simpl in *. split; [congruence|].
        intros g a. rewrite Hf. case_decide as Hsp.
        -- apply Hspawn in Hsp as [Hl Hnone]. rewrite elem_of_singleton. unfold friends_at. rewrite Hnone. simpl.
           case_decide; set_solver.
        -- unfold friends_at. rewrite Hr. destruct (relays (lp_state s) !! a) as [r|] eqn:Er.
           ++ destruct (decide (listened addresses (lp_state s) a)); simpl; [case_decide; set_solver|].
              destruct (decide (rl_friends r ∖ {[f]} <> ∅)); simpl; case_decide; set_solver.
           ++ simpl. case_decide; [|done]. rewrite Hspawn in Hsp. set_solver.
      * done.
      * intros a r. simpl. rewrite Hr, Hloc. destruct (relays (lp_state s) !! a) as [r0|] eqn:Er; [|done].
        case_decide; [intros [= <-]; simpl; right; set_solver|]. case_decide; [|done]. intros [= <-]. by right.
      * intros a _. right. set_solver.
      * intros a. simpl. rewrite Hloc. intros Ha Hna. rewrite Hr.
        destruct (Hc a Ha) as [r Er]; [apply not_elem_of_nil|]. rewrite Er. rewrite decide_True by by right. by eexists.
    + intros a r Ha%Hrem. simpl. rewrite Hr. destruct Ha as (Hnl & r0 & Hr0 & _). rewrite Hr0.
      rewrite decide_False by done. case_decide; [|done]. intros [= <-]. simpl. set_solver.
  - intros a r Ha%Hadd. simpl. rewrite Hr. destruct Ha as (Hl & r0 & Hr0 & _). rewrite Hr0.
    rewrite decide_True by done. intros [= <-]. simpl. set_solver.
  - eapply told_put; [done| | |set_solver].
    + intros a r. rewrite Hr. destruct (relays (lp_state s) !! a); [|done]. repeat case_decide; naive_solver.
    + intros a r r0. rewrite Hr. intros Hx Hy. rewrite Hy in Hx. unfold stale. rewrite app_nil_r.
      destruct (decide (a ∈ add ++ rem)) as [Hin|Hin].
      * repeat case_decide; simplify_eq/=; set_solver.
      * assert ((a ∉ add) /\ (a ∉ rem)) as [Ha1 Ha2] by set_solver. rewrite Hadd in Ha1. rewrite Hrem in Ha2.
        destruct (decide (f ∈ rl_friends r0)); repeat case_decide; simplify_eq/=; set_solver.
Qed.

Lemma wp_remove_friend f s l :
  synced s l ->
  wp False env_failed (lp_handle_config (RemoveFriend f)) (fun _ s' l' => synced s' l' /\
    lp_backoff_ticks s' = lp_backoff_ticks s /\ configured (RemoveFriend f) (lp_state s) (lp_state s')) s l.
Proof.
  intros (Ht & Hn & Hc). unfold lp_handle_config, put_state. wp_step. wp_step.
  destruct (remove_friend _ _) as [st rem] eqn:E. apply remove_friend_spec in E as (Hloc & Hr & Hrem).
  do 3 wp_step. wp_step. eapply wp_mono; [|apply (wp_tell_relays _ _ f _ [])]; [|done|..].
  - intros _ s' l' [-> Ht']. simpl. split_and!; [|done|done|].
    + split_and!; [done|..]; simpl.
      * intros a r. rewrite Hr, Hloc. destruct (relays (lp_state s) !! a); [|done].
        case_decide; [|done]. intros [= <-]. simpl. tauto.
      * intros a Ha _. rewrite Hloc in Ha. rewrite Hr. destruct (Hc a Ha) as [r ->]; [apply not_elem_of_nil|].
        rewrite decide_True by by right. by eexists.
    + intros g a. unfold friends_at. rewrite Hr. destruct (relays (lp_state s) !! a) as [r|]; simpl; [|set_solver].
      case_decide; simpl; set_solver.
  - intros a r _. simpl. rewrite Hr. destruct (relays (lp_state s) !! a); [|done].
    case_decide; [|done]. intros [= <-]. simpl. set_solver.
  - rewrite app_nil_r. eapply told_put; [done| | |set_solver].
    + intros a r. rewrite Hr. destruct (relays (lp_state s) !! a); [|done]. case_decide; naive_solver.
    + intros a r r0. rewrite Hr. intros Hx Hy. rewrite Hy in Hx. case_decide; simplify_eq/=.
      unfold stale. destruct (decide (a ∈ rem)) as [Hin|Hin]; [set_solver|]. rewrite Hrem in Hin. set_solver.
Qed.

Lemma wp_respawn xs s l :
  told s l (fun _ => ∅) -> (forall a, a ∈ xs -> is_Some (relays (lp_state s) !! a)) ->
  wp False env_failed (efor xs (fun address =>
    let* s := eget in
    let* r := eunwrap (relays (lp_state s) !! address) in
    spawn_relay (rl_friends r) address)) (fun _ s' l' => told s' l' (fun _ => ∅) /\
      local_addresses (lp_state s') = local_addresses (lp_state s) /\ lp_backoff_ticks s' = lp_backoff_ticks s /\
      forall a, if decide (a ∈ xs)
                then exists r task, relays (lp_state s) !! a = Some r /\
                       relays (lp_state s') !! a = Some (mkRelay (rl_friends r) (RsConnected task))
                else relays (lp_state s') !! a = relays (lp_state s) !! a) s l.
Proof.
  revert s l. induction xs as [|x xs IH]; intros s l Ht Hxs; cbn [efor]; [by wp_step|].
  wp_step. wp_step. wp_step. wp_step. destruct (Hxs x) as [r Hr]; [by left|]. rewrite Hr.
  apply wp_unwrap; [done|]. intros ? [= <-].
  eapply wp_mono; [|by apply wp_spawn_relay]. intros _ s1 l1 (Ht1 & task & Hst & Hb).
  eapply wp_mono; [|apply IH; [done|]].
  - intros _ s2 l2 (Ht2 & Hloc & Hb2 & Hall). rewrite Hst in Hloc, Hall. split_and!; [done|done|congruence|].
    intros a. specialize (Hall a). simpl in Hall. destruct (decide (a = x)) as [->|Hne].
    + rewrite (decide_True (P := x ∈ x :: xs)) by by left. rewrite lookup_insert_eq in Hall. exists r.
      case_decide; [destruct Hall as (r' & task' & [= <-] & Hx); eauto|eauto].
    + rewrite lookup_insert_ne in Hall by done.
      destruct (decide (a ∈ xs)); [rewrite decide_True by by right|rewrite decide_False by by intros [?|?]%elem_of_cons]; done.
  - intros a Ha. rewrite Hst. simpl. destruct (decide (a = x)) as [->|Hne]; [rewrite lookup_insert_eq; by eexists|].
    rewrite lookup_insert_ne by done. apply Hxs. by right.
Qed.

(** What a tick does to a relay. *)
Definition ticked (r r' : Relay P RelayStatus) : Prop :=
  rl_friends r' = rl_friends r /\
  match rl_status r with
  | RsConnected task => rl_status r' = RsConnected task
  | RsWaiting ticks => if (ticks <=? 1)%Z then exists task, rl_status r' = RsConnected task
                       else rl_status r' = RsWaiting (saturate_u 64 (ticks - 1))
  end.

Lemma synced_same_friends s l s' l' :
  synced s l -> told s' l' (fun _ => ∅) -> local_addresses (lp_state s') = local_addresses (lp_state s) ->
  (forall a, option_relation (fun r r' => rl_friends r' = rl_friends r) (fun _ => False) (fun _ => False)
               (relays (lp_state s) !! a) (relays (lp_state s') !! a)) -> synced s' l'.
Proof.
  intros (_ & Hn & Hc) Ht Hloc Hrel. split_and!; [done|..].
  - intros a r Hr. specialize (Hrel a). rewrite Hr in Hrel. rewrite Hloc.
    destruct (relays (lp_state s) !! a) as [r0|] eqn:E; simpl in Hrel; [|done]. rewrite Hrel. by apply Hn.
  - intros a Ha Hna. rewrite Hloc in Ha. destruct (Hc a Ha Hna) as [r0 E]. specialize (Hrel a). rewrite E in Hrel.
    destruct (relays (lp_state s') !! a); [by eexists|done].
Qed.

Lemma wp_timer_tick s l :
  synced s l ->
  wp False env_failed lp_handle_timer_tick (fun _ s' l' => synced s' l' /\ lp_backoff_ticks s' = lp_backoff_ticks s /\
    forall a, option_relation ticked (fun _ => False) (fun _ => False)
                (relays (lp_state s) !! a) (relays (lp_state s') !! a)) s l.
Proof.
  intros Hs. pose proof Hs as (Ht & Hn & Hc). unfold lp_handle_timer_tick, put_state. do 6 wp_step.
  eapply wp_mono; [|apply wp_respawn].
  - intros _ s' l' (Ht' & Hloc & Hb & Hall). simpl in *.
    assert (forall a, option_relation ticked (fun _ => False) (fun _ => False)
              (relays (lp_state s) !! a) (relays (lp_state s') !! a)) as Htick.
    { intros a. specialize (Hall a). rewrite lookup_fmap in Hall. destruct (decide (a ∈ _)) as [Hin|Hin];
        rewrite elem_of_fst_filter in Hin; setoid_rewrite lookup_fmap in Hin; unfold is_due, tick_relay in Hin.
      - destruct Hall as (r & task & Hr & Hr'). rewrite Hr'. destruct (relays (lp_state s) !! a) as [r0|]; [|done].
        destruct Hin as (v & [= <-] & Hdue). injection Hr as <-. simpl. unfold ticked, tick_relay. simpl.
        destruct r0 as [fs [ticks|t]]; simpl in *; [|done]. split; [done|]. unfold saturate_u in Hdue.
        destruct (Z.leb_spec ticks 1); [by eexists|]. apply Is_true_true, Z.leb_le in Hdue. unfold u_max in Hdue. lia.
      - rewrite Hall. destruct (relays (lp_state s) !! a) as [r0|]; [|done]. simpl. unfold ticked, tick_relay.
        destruct r0 as [fs [ticks|t]]; simpl in *; [|done]. split; [done|].
        destruct (Z.leb_spec ticks 1); [|done]. destruct Hin. eexists. split; [done|]. simpl.
        apply Is_true_true, Z.leb_le. unfold saturate_u. lia. }
    split_and!; [|done|done]. eapply synced_same_friends; [done|done|done|].
    intros a. specialize (Htick a). destruct (relays (lp_state s) !! a), (relays (lp_state s') !! a); simpl in *;
      try done. apply Htick.
  - eapply told_put; [exact Ht| | |done]; simpl.
    + intros a r. rewrite lookup_fmap, fmap_Some. intros (r0 & -> & ->). exists r0. split; [done|].
      unfold ticked, tick_relay. by destruct r0 as [fs [ticks|t]].
    + intros a r r0. rewrite lookup_fmap. intros Hx Hy. rewrite Hy in Hx. injection Hx as <-.
      unfold tick_relay. by destruct r0 as [fs [ticks|t]].
  - intros a. simpl. rewrite elem_of_fst_filter. naive_solver.
Qed.

Lemma wp_relay_closed a s l :
  synced s l ->
  wp False env_failed (lp_handle_relay_closed a) (fun _ s' l' => synced s' l' /\ lp_backoff_ticks s' = lp_backoff_ticks s /\
    forall a', relays (lp_state s') !! a' =
      if decide (a' = a) then (fun r => mkRelay (rl_friends r) (RsWaiting (lp_backoff_ticks s))) <$> relays (lp_state s) !! a
      else relays (lp_state s) !! a') s l.
Proof.
  intros Hs. unfold lp_handle_relay_closed, put_relay, put_state. do 2 wp_step.
  destruct (relays (lp_state s) !! a) as [r|] eqn:Er; simpl; repeat wp_step; simpl.
  - assert (forall a', <[a := mkRelay (rl_friends r) (RsWaiting (lp_backoff_ticks s))]> (relays (lp_state s)) !! a' =
      if decide (a' = a) then Some (mkRelay (rl_friends r) (RsWaiting (lp_backoff_ticks s)))
      else relays (lp_state s) !! a') as Hl.
    { intros a'. destruct (decide (a' = a)) as [->|]; [by rewrite lookup_insert_eq|by rewrite lookup_insert_ne]. }
    split_and!; [|done|done]. pose proof Hs as (Ht & _). eapply synced_same_friends; [done| |done|].
    + eapply told_put; [exact Ht| | |done]; simpl; intros a' r'; rewrite Hl; case_decide; naive_solver.
    + intros a'. simpl. rewrite Hl. case_decide; subst; [by rewrite Er|]. by destruct (relays (lp_state s) !! a').
  - split_and!; [done|done|]. intros a'. case_decide; [by subst|done].
Qed.

Lemma wp_config c s l :
  synced s l ->
  wp False env_failed (lp_handle_config c) (fun _ s' l' => synced s' l' /\
    lp_backoff_ticks s' = lp_backoff_ticks s /\ configured c (lp_state s) (lp_state s')) s l.
Proof. destruct c; [apply wp_set_local_addresses|apply wp_update_friend|apply wp_remove_friend]. Qed.

Lemma wp_listen_pool_loop_backoff events s l :
  synced s l -> wp False env_failed (listen_pool_loop events)
    (fun _ s' l' => synced s' l' /\ lp_backoff_ticks s' = lp_backoff_ticks s) s l.
Proof.
  revert s l. induction events as [|e events IH]; intros s l Hs; [done|].
  destruct e as [c| |a| |]; cbn [listen_pool_loop]; try done; wp_step;
    (eapply wp_mono; [|first [by apply wp_config|by apply wp_relay_closed|by apply wp_timer_tick]]);
    intros _ s' l' (Hs' & Hb & _); rewrite <- Hb; by apply IH.
Qed.

Lemma wp_listen_pool_loop events s l :
  synced s l -> wp False env_failed (listen_pool_loop events) (fun _ s' l' => synced s' l') s l.
Proof. intros Hs. eapply wp_mono; [|by apply wp_listen_pool_loop_backoff]. naive_solver. Qed.

Lemma synced_new backoff_ticks : synced (listen_pool_new backoff_ticks) [].
Proof. split_and!; [split; [done|]|..]; intros a; set_solver. Qed.

(** *** Relays wanted by the friends *)

(** The friends that should reach this node through [a], when [local] are its
    relays and [us] the relays given for each friend. *)
Definition wanted (local : list RA) (us : list (P * list RA)) (a : RA) : gset P :=
  list_to_set (filter (fun u => a ∈ u.2 \/ a ∈ local) us).*1.

Lemma elem_of_wanted local us a g :
  g ∈ wanted local us a <-> exists addresses, (g, addresses) ∈ us /\ (a ∈ addresses \/ a ∈ local).
Proof.
  unfold wanted. rewrite elem_of_list_to_set, list_elem_of_fmap. split.
  - intros ([g' addresses] & -> & [Ha Hin]%list_elem_of_filter). eauto.
  - intros (addresses & Hin & Ha). exists (g, addresses). split; [done|]. by apply list_elem_of_filter.
Qed.

Lemma wp_update_friends us done_us s l :
  NoDup (done_us ++ us).*1 -> synced s l ->
  (forall g a, g ∈ friends_at (relays (lp_state s)) a -> g ∈ (done_us ++ us).*1) ->
  (forall g addresses a, (g, addresses) ∈ done_us ->
     g ∈ friends_at (relays (lp_state s)) a <-> listened addresses (lp_state s) a) ->
  wp False env_failed (listen_pool_loop ((fun u => LpEvConfig (UpdateFriend u.1 u.2)) <$> us))
    (fun _ s' l' => synced s' l' /\ local_addresses (lp_state s') = local_addresses (lp_state s) /\
       (forall g a, g ∈ friends_at (relays (lp_state s')) a -> g ∈ (done_us ++ us).*1) /\
       forall g addresses a, (g, addresses) ∈ done_us ++ us ->
         g ∈ friends_at (relays (lp_state s')) a <-> listened addresses (lp_state s') a) s l.
Proof.
  revert done_us s l. induction us as [|[f addresses] us IH]; intros done_us s l Hnd Hs Hknown Hdone.
  - cbn. rewrite app_nil_r in *. by split_and!.
  - cbn [fmap list_fmap listen_pool_loop fst snd]. wp_step. eapply wp_mono; [|by apply wp_config].
    intros _ s1 l1 (Hs1 & _ & Hloc & Hf). rewrite (cons_middle (f, addresses)), app_assoc in *.
    assert (f ∉ done_us.*1) as Hnew.
    { rewrite !fmap_app in Hnd. apply NoDup_app in Hnd as [Hnd _]. apply NoDup_app in Hnd as (_ & Hnd & _).
      intros Hin. apply (Hnd f Hin). by left. }
    eapply wp_mono; [|apply (IH (done_us ++ [(f, addresses)])); [done|done|..]].
    + intros _ s2 l2 (Hs2 & Hloc2 & Hk2 & Hd2). split_and!; [done|congruence|done|done].
    + intros g a. rewrite Hf. case_decide as Hg; [|apply Hknown]. intros _. subst g.
      rewrite !fmap_app, !elem_of_app. left. right. by left.
    + intros g addresses' a Hin. rewrite Hf. unfold listened. rewrite Hloc.
      apply elem_of_app in Hin as [Hin|[= -> ->]%list_elem_of_singleton]; [|by rewrite decide_True].
      rewrite decide_False; [by apply Hdone|]. intros ->. destruct Hnew. apply list_elem_of_fmap. by eexists (_, _).
Qed.
End ListenPool.
Arguments ListenPool RA P {_ _ _ _}.

Section Theorems.
Context {RA P : Type} `{Countable RA} `{Countable P}.

(** Whatever the configuration, closed relays and ticks: the listening task of
    every connected relay was started for its address and was told to accept
    exactly the friends of the relay; every relay of the node has an entry, and an
    entry is kept only for a relay of the node or of a friend. The pool never
    panics, and stops with an error only when a task cannot be started. *)
Theorem listeners_follow_state (ok : nat -> bool) (backoff_ticks : Z) (events : list (LpEvent RA P)) :
  match listen_pool_loop ok events (listen_pool_new backoff_ticks) [] with
  | EOk _ s l =>
      (forall a r task, relays (lp_state s) !! a = Some r -> rl_status r = RsConnected task ->
         task_acl l task = Some (a, mkAccessControl (rl_friends r))) /\
      (forall a r, relays (lp_state s) !! a = Some r -> a ∈ local_addresses (lp_state s) \/ rl_friends r <> ∅) /\
      (forall a, a ∈ local_addresses (lp_state s) -> is_Some (relays (lp_state s) !! a))
  | EErr _ _ _ => exists i, ok i = false
  | EPanic => False
  end.
Proof.
  pose proof (wp_listen_pool_loop ok events _ [] (synced_new backoff_ticks)) as Hw. unfold wp in Hw.
  destruct (listen_pool_loop _ _ _ _) as [[] s l|e s l|]; [|done|done]. destruct Hw as ([_ Ht] & Hn & Hc).
  split_and!; [|done|intros a Ha; apply Hc; [done|apply not_elem_of_nil]].
  intros a r task Hr Hs. destruct (Ht _ _ _ Hr Hs) as ([ac] & Hac & He). rewrite Hac. do 3 f_equal. set_solver.
Qed.

(** When the relays of the node are set and then the relays of every friend
    that is known are updated, a relay is listened on exactly if it is one of the
    node or of some friend, and exactly the friends that should connect through it
    may do so, whatever happened before. *)
Theorem friends_reach_relays (ok : nat -> bool) (backoff_ticks : Z) (before : list (LpEvent RA P))
  (local : list RA) (us : list (P * list RA)) (s : ListenPool RA P) (l : list (ListenPoolAction RA P))
  (Hrun : listen_pool_loop ok before (listen_pool_new backoff_ticks) [] = EOk tt s l)
  (Hnd : NoDup us.*1)
  (Hknown : forall a r f, relays (lp_state s) !! a = Some r -> f ∈ rl_friends r -> f ∈ us.*1) :
  match listen_pool_loop ok (LpEvConfig (SetLocalAddresses local) ::
                             ((fun u => LpEvConfig (UpdateFriend u.1 u.2)) <$> us)) s l with
  | EOk _ s' l' => forall a, rl_friends <$> relays (lp_state s') !! a =
      (if decide (a ∈ local \/ wanted local us a <> ∅) then Some (wanted local us a) else None)
  | EErr _ _ _ => exists i, ok i = false
  | EPanic => False
  end.
Proof.
  pose proof (wp_listen_pool_loop ok before _ [] (synced_new backoff_ticks)) as Hs. unfold wp in Hs.
  rewrite Hrun in Hs. clear Hrun. change (wp False (fun _ _ => exists i, ok i = false) (listen_pool_loop ok
    (LpEvConfig (SetLocalAddresses local) :: ((fun u => LpEvConfig (UpdateFriend u.1 u.2)) <$> us)))
    (fun _ s' _ => forall a, rl_friends <$> relays (lp_state s') !! a =
      (if decide (a ∈ local \/ wanted local us a <> ∅) then Some (wanted local us a) else None)) s l).
  cbn [listen_pool_loop]. wp_step. eapply wp_mono; [|by apply wp_config]. intros _ s1 l1 (Hs1 & _ & Hloc & Hf).
  eapply wp_mono; [|apply (wp_update_friends ok us []); [done|done| |]].
  - intros _ s2 l2 ((_ & Hn & Hc) & Hloc2 & Hk & Hd) a. rewrite Hloc in Hloc2.
    assert (friends_at (relays (lp_state s2)) a = wanted local us a) as Hfa.
    { apply leibniz_equiv. intros g. rewrite elem_of_wanted. split.
      - intros Hg. destruct (proj1 (list_elem_of_fmap _ _ _) (Hk g a Hg)) as ([g' addresses] & -> & Hin). simpl in *.
        exists addresses. split; [done|]. apply (Hd _ _ _ Hin) in Hg. unfold listened in Hg.
        by rewrite Hloc2, elem_of_list_to_set in Hg.
      - intros (addresses & Hin & Ha). apply (Hd _ _ a Hin). unfold listened.
        by rewrite Hloc2, elem_of_list_to_set. }
    rewrite <- Hfa. unfold friends_at. destruct (relays (lp_state s2) !! a) as [r|] eqn:Er; simpl.
    + rewrite decide_True; [done|]. specialize (Hn a r Er). by rewrite Hloc2, elem_of_list_to_set in Hn.
    + rewrite decide_False; [done|]. intros [Ha|]; [|done]. destruct (Hc a); [|apply not_elem_of_nil|congruence].
      by rewrite Hloc2, elem_of_list_to_set.
  - intros g a Hg. destruct (Hf _ _ Hg) as [a' Hg']. unfold friends_at in Hg'.
    destruct (relays (lp_state s) !! a') as [r|] eqn:E; [by eapply Hknown|]. by apply elem_of_empty in Hg'.
  - intros g addresses a Hin. by apply elem_of_nil in Hin.
Qed.

Lemma ticks_reconnect (ok : nat -> bool) (n : nat) (k : Z) (a : RA) (fs : gset P) (s : ListenPool RA P) l :
  (k <= Z.of_nat n)%Z -> (k <= u_max 64)%Z -> synced s l ->
  (exists task, relays (lp_state s) !! a = Some (mkRelay fs (RsConnected task))) \/
  (0 < n)%nat /\ relays (lp_state s) !! a = Some (mkRelay fs (RsWaiting k)) ->
  wp False (fun _ _ => exists i, ok i = false) (listen_pool_loop ok (replicate n LpEvTimerTick))
    (fun _ s' l' => exists task, relays (lp_state s') !! a = Some (mkRelay fs (RsConnected task)) /\
       task_acl l' task = Some (a, mkAccessControl fs)) s l.
Proof.
  revert k s l. induction n as [|n IH]; intros k s l Hk Hmax Hs Ha.
  - destruct Ha as [[task Ha]|[? _]]; [|lia]. cbn. exists task. split; [done|]. destruct Hs as ([_ Ht] & _).
    destruct (Ht _ _ _ Ha eq_refl) as ([ac] & Hac & He). rewrite Hac. do 3 f_equal. simpl in He. set_solver.
  - cbn [replicate listen_pool_loop]. wp_step. eapply wp_mono; [|by apply wp_timer_tick].
    intros _ s1 l1 (Hs1 & _ & Htick). specialize (Htick a).
    destruct Ha as [[task Ha]|[_ Ha]]; rewrite Ha in Htick; simpl in Htick;
      destruct (relays (lp_state s1) !! a) as [[fs1 st1]|] eqn:E1; try done; destruct Htick as [Hf1 Hst1];
      simpl in Hf1, Hst1; subst fs1.
    + subst st1. apply (IH 0%Z); [lia|unfold u_max; lia|done|by left; eexists].
    + destruct (Z.leb_spec k 1); [destruct Hst1 as [task ->]; apply (IH 0%Z); [lia|unfold u_max; lia|done|by left; eexists]|].
      subst st1. apply (IH (k - 1)%Z); [lia|lia|done|]. right. split; [lia|]. rewrite E1. do 3 f_equal.
      unfold saturate_u, u_max in *. lia.
Qed.

(** A relay that closes its connection is listened on again, for the same
    friends, after as many ticks as the pool waits (at least one). *)
Theorem closed_relay_listened_again (ok : nat -> bool) (backoff_ticks : Z) (before : list (LpEvent RA P))
  (a : RA) (r : Relay P RelayStatus) (n : nat) (s : ListenPool RA P) (l : list (ListenPoolAction RA P))
  (Hb : (backoff_ticks <= Z.of_nat n)%Z) (Hmax : (backoff_ticks <= u_max 64)%Z) (Hn : (0 < n)%nat)
  (Hrun : listen_pool_loop ok before (listen_pool_new backoff_ticks) [] = EOk tt s l)
  (Hr : relays (lp_state s) !! a = Some r) (Hok : forall i, ok i = true) :
  exists s' l' task,
    listen_pool_loop ok (LpEvRelayClosed a :: replicate n LpEvTimerTick) s l = EOk tt s' l' /\
    relays (lp_state s') !! a = Some (mkRelay (rl_friends r) (RsConnected task)) /\
    task_acl l' task = Some (a, mkAccessControl (rl_friends r)).
Proof.
  pose proof (wp_listen_pool_loop_backoff ok before _ [] (synced_new backoff_ticks)) as Hs. unfold wp in Hs.
  rewrite Hrun in Hs. destruct Hs as [Hs Hback].
  assert (wp False (fun _ _ => exists i, ok i = false)
    (listen_pool_loop ok (LpEvRelayClosed a :: replicate n LpEvTimerTick))
    (fun _ s' l' => exists task, relays (lp_state s') !! a = Some (mkRelay (rl_friends r) (RsConnected task)) /\
       task_acl l' task = Some (a, mkAccessControl (rl_friends r))) s l) as Hw.
  { cbn [listen_pool_loop]. wp_step. eapply wp_mono; [|by apply wp_relay_closed].
    intros _ s1 l1 (Hs1 & _ & Hrel). apply (ticks_reconnect ok n backoff_ticks); [done|done|done|].
    right. split; [done|]. rewrite Hrel, decide_True, Hr by done. simpl. by rewrite Hback. }
  unfold wp in Hw. destruct (listen_pool_loop _ _ s l) as [[] s' l'|e s' l'|]; [|exfalso|done].
  - destruct Hw as (task & Hw). by exists s', l', task.
  - destruct Hw as [i Hi]. by rewrite Hok in Hi.
Qed.
End Theorems.

(** ** Executions *)
Module ListenPoolSamples.
Definition all_ok (_ : nat) : bool := true.
Definition run (events : list (LpEvent Z Z)) : eres (ListenPool Z Z) ListenPoolError (ListenPoolAction Z Z) unit :=
  listen_pool_loop all_ok events (listen_pool_new 2) [].
Definition friends_of (r : eres (ListenPool Z Z) ListenPoolError (ListenPoolAction Z Z) unit) (a : Z) : option (list Z) :=
  match r with EOk _ s _ => (fun r => elements (rl_friends r)) <$> relays (lp_state s) !! a | _ => None end.

(** Relays 1 and 2 are those of the node; friends 10 and 20 have their own. *)
Definition setup : list (LpEvent Z Z) :=
  [LpEvConfig (SetLocalAddresses [1; 2]); LpEvConfig (UpdateFriend 10 [3]); LpEvConfig (UpdateFriend 20 [2; 4])]%Z.

Lemma friends_reach_relays_witness :
  match run setup with
  | EOk _ s l =>
      match listen_pool_loop all_ok (LpEvConfig (SetLocalAddresses [5]%Z) ::
              ((fun u => LpEvConfig (UpdateFriend u.1 u.2)) <$> [(10, [3]); (20, [4])]%Z)) s l with
      | EOk _ s' l' => forall a, rl_friends <$> relays (lp_state s') !! a =
          (if decide (a ∈ [5]%Z \/ wanted [5]%Z [(10, [3]); (20, [4])]%Z a <> ∅)
           then Some (wanted [5]%Z [(10, [3]); (20, [4])]%Z a) else None)
      | EErr _ _ _ => exists i, all_ok i = false
      | EPanic => False
      end
  | _ => False
  end.
Proof.
  assert (match run setup with
          | EOk _ s _ => bool_decide (map_Forall (fun _ r => rl_friends r ⊆ list_to_set [10; 20]%Z) (relays (lp_state s)))
          | _ => false
          end = true) as Hk by by vm_compute.
  destruct (run setup) as [[] s l| |] eqn:Hrun; [|done..]. apply bool_decide_eq_true in Hk.
  apply (friends_reach_relays all_ok 2 setup [5]%Z [(10, [3]); (20, [4])]%Z s l).
  - exact Hrun.
  - by apply (bool_decide_unpack (NoDup [10; 20]%Z)).
  - intros a r f Hr Hf. specialize (Hk a r Hr f Hf). by apply elem_of_list_to_set in Hk.
Defined.

Lemma closed_relay_listened_again_witness :
  match run setup with
  | EOk _ s l => exists s' l' task,
      listen_pool_loop all_ok (LpEvRelayClosed 3%Z :: replicate 2 LpEvTimerTick) s l = EOk tt s' l' /\
      relays (lp_state s') !! 3%Z = Some (mkRelay {[10%Z]} (RsConnected task)) /\
      task_acl l' task = Some (3%Z, mkAccessControl {[10%Z]})
  | _ => False
  end.
Proof.
  assert (match run setup with EOk _ s _ => rl_friends <$> relays (lp_state s) !! 3%Z | _ => None end = Some {[10%Z]}) as Hk
    by by vm_compute.
  destruct (run setup) as [[] s l| |] eqn:Hrun; [|done..].
  destruct (relays (lp_state s) !! 3%Z) as [r|] eqn:Hr; [|done]. injection Hk as <-.
  apply (closed_relay_listened_again all_ok 2 setup 3%Z r 2 s l);
    [lia|by vm_compute|lia|exact Hrun|exact Hr|reflexivity].
Defined.

(** A relay that was already used by one friend when it becomes a relay of the
    node does not admit the other friends until they are updated. *)
Example local_relay_misses_friend :
  friends_of (run [LpEvConfig (UpdateFriend 10 [3]); LpEvConfig (UpdateFriend 20 [4]);
                   LpEvConfig (SetLocalAddresses [3])]%Z) 3%Z = Some [10%Z].
Proof. by vm_compute. Qed.

(** A friend without any relay is forgotten: relays of the node that are added
    later do not admit it. *)
Example friend_without_relays_forgotten :
  friends_of (run [LpEvConfig (UpdateFriend 10 []); LpEvConfig (SetLocalAddresses [1])]%Z) 1%Z = Some [].
Proof. by vm_compute. Qed.

(** The end of a listener that was dropped closes a listener that was started for
    the same relay in the meantime: its channel is dropped too. *)
Example stale_close_drops_listener :
  match run [LpEvConfig (SetLocalAddresses [1]); LpEvConfig (SetLocalAddresses []);
             LpEvConfig (SetLocalAddresses [1]); LpEvRelayClosed 1]%Z with
  | EOk _ s l => rl_status <$> relays (lp_state s) !! 1%Z = Some (RsWaiting 2) /\
                 l = [LpListen 0 1%Z (mkAccessControl ∅); LpListen 1 1%Z (mkAccessControl ∅)]
  | _ => False
  end.
Proof. by vm_compute. Qed.
End ListenPoolSamples.
