(* ===== verification/ConnectPool.v ===== *)
(** * The connecting side of the channeler

    Models [channeler/src/connect_pool.rs]: the task that connects to one friend
    through the relays of the friend, one attempt at a time. An attempt is a task
    of its own, named by a number; it reports the connection, or that there is
    none, exactly once, also when it was cancelled. A request for a connection is
    named by the oneshot that takes the answer. The theorems show that requests and
    attempts are accounted for in every run, and that a request is answered in every
    interleaving of ticks, reports and changes of the configuration that cancel
    nothing. *)

From S2P Require Import Prelude Arith Bytes Effects.

Inductive ConnectPoolError := CpSpawnError | MultipleConnectRequests.

Inductive CpEvent (RA R C : Type) :=
| CpConnectRequest (response_sender : R)
| CpConnectRequestClosed
| CpConfigRequest (config : list RA)
| CpConfigRequestClosed
| CpConnectAttemptDone (opt_conn : option C)
| CpTimerTick
| CpTimerClosed.
Arguments CpConnectRequest {RA R C}. Arguments CpConnectRequestClosed {RA R C}.
Arguments CpConfigRequest {RA R C}. Arguments CpConfigRequestClosed {RA R C}.
Arguments CpConnectAttemptDone {RA R C}. Arguments CpTimerTick {RA R C}. Arguments CpTimerClosed {RA R C}.

Inductive CpStatus (RA R : Type) :=
| CpNoRequest
| CpWaiting (backoff_ticks : Z) (response_sender : R)
| CpConnecting (address : RA) (canceler : nat) (response_sender : R).
Arguments CpNoRequest {RA R}. Arguments CpWaiting {RA R}. Arguments CpConnecting {RA R}.

(** Starting and cancelling an attempt, and answering a request. *)
Inductive ConnectPoolAction (RA R C : Type) :=
| CpAttempt (task : nat) (address : RA)
| CpCancel (task : nat)
| CpRespond (response_sender : R) (conn : C).
Arguments CpAttempt {RA R C}. Arguments CpCancel {RA R C}. Arguments CpRespond {RA R C}.

(** One attempt: a connection through the relay, then the encryption, unless it
    is cancelled before. *)
Definition conn_attempt {RA Raw C : Type} (client_connector : RA -> PublicKey -> option Raw)
  (encrypt_transform : PublicKey -> Raw -> option C) (friend_public_key : PublicKey) (address : RA)
  (canceled : bool) : option C :=
  if canceled then None
  else raw_conn ← client_connector address friend_public_key; encrypt_transform friend_public_key raw_conn.

Section ConnectPool.
Context {RA R C : Type} `{Countable RA}.

Record ConnectPool := mkConnectPool {
  cp_addresses : list RA;
  cp_status : CpStatus RA R;
  cp_backoff_ticks : Z;
  cp_attempts : nat
}.

Definition connect_pool_new (backoff_ticks : Z) : ConnectPool := mkConnectPool [] CpNoRequest backoff_ticks 0.

Notation M := (Eff ConnectPool ConnectPoolError (ConnectPoolAction RA R C)).
Variable ok : nat -> bool.

Definition put_addresses (addresses : list RA) : M unit :=
  let* s := eget in eput (mkConnectPool addresses (cp_status s) (cp_backoff_ticks s) (cp_attempts s)).
Definition put_status (status : CpStatus RA R) : M unit :=
  let* s := eget in eput (mkConnectPool (cp_addresses s) status (cp_backoff_ticks s) (cp_attempts s)).

Definition create_conn_attempt (address : RA) : M nat :=
  let* s := eget in
  let* _ := emit ok CpSpawnError (CpAttempt (cp_attempts s) address) in
  let* _ := eput (mkConnectPool (cp_addresses s) (cp_status s) (cp_backoff_ticks s) (S (cp_attempts s))) in
  eret (cp_attempts s).

Definition connect_to (address : RA) (response_sender : R) : M unit :=
  let* canceler := create_conn_attempt address in
  put_status (CpConnecting address canceler response_sender).

Definition handle_connect_request (response_sender : R) : M unit :=
  let* s := eget in
  match cp_status s with
  | CpNoRequest =>
      match cp_addresses s with
      | [] => put_status (CpWaiting 0 response_sender)
      | address :: rest => let* _ := put_addresses rest in connect_to address response_sender
      end
  | _ => efail MultipleConnectRequests
  end.

Definition add_address (address : RA) : M unit :=
  let* s := eget in
  let was_empty := bool_decide (cp_addresses s = []) in
  let* _ := (if decide (address ∈ cp_addresses s) then eret tt else put_addresses (cp_addresses s ++ [address])) in
  let* s := eget in
  match was_empty, cp_status s with
  | true, CpWaiting _ response_sender =>
      let* _ := put_status CpNoRequest in
      match cp_addresses s with
      | [] => epanic
      | address :: rest => let* _ := put_addresses rest in connect_to address response_sender
      end
  | _, _ => eret tt
  end.

(** The result of telling an attempt to stop is ignored. *)
Definition cancel_attempt (canceler : nat) : M unit := fun s l => EOk tt s (l ++ [CpCancel canceler]).

Definition remove_address (address : RA) : M unit :=
  let* s := eget in
  let* _ := put_addresses (filter (fun a => a <> address) (cp_addresses s)) in
  let* s := eget in
  match cp_status s with
  | CpNoRequest => eret tt
  | CpWaiting _ _ => eret tt
  | CpConnecting cur_address canceler response_sender =>
      if decide (address = cur_address) then
        let* _ := put_status CpNoRequest in
        let* _ := cancel_attempt canceler in
        match cp_addresses s with
        | address :: rest => let* _ := put_addresses rest in connect_to address response_sender
        | [] => put_status (CpWaiting 0 response_sender)
        end
      else eret tt
  end.

Definition handle_config_request (config : list RA) : M unit :=
  let* s := eget in
  let old_addresses := list_to_set (cp_addresses s) : gset RA in
  let new_addresses := list_to_set config : gset RA in
  let* _ := efor (elements (old_addresses ∖ new_addresses)) remove_address in
  efor (elements (new_addresses ∖ old_addresses)) add_address.

Definition cp_handle_timer_tick : M unit :=
  let* s := eget in
  match cp_status s with
  | CpWaiting backoff_ticks response_sender =>
      let* _ := put_status CpNoRequest in
      let backoff_ticks := saturate_u 64 (backoff_ticks - 1) in
      if (backoff_ticks =? 0)%Z then
        match cp_addresses s with
        | address :: rest => let* _ := put_addresses rest in connect_to address response_sender
        | [] => put_status (CpWaiting (cp_backoff_ticks s) response_sender)
        end
      else put_status (CpWaiting backoff_ticks response_sender)
  | _ => eret tt
  end.

(** The result of answering the request is ignored. *)
Definition respond (response_sender : R) (conn : C) : M unit := fun s l => EOk tt s (l ++ [CpRespond response_sender conn]).

Definition handle_connect_attempt_done (opt_conn : option C) : M unit :=
  let* s := eget in
  match cp_status s with
  | CpNoRequest | CpWaiting _ _ => epanic
  | CpConnecting address _ response_sender =>
      let* _ := put_addresses (cp_addresses s ++ [address]) in
      match opt_conn with
      | Some conn => let* _ := respond response_sender conn in put_status CpNoRequest
      | None => put_status (CpWaiting (cp_backoff_ticks s) response_sender)
      end
  end.

(** One event of the loop; the result says whether the loop goes on. *)
Definition connect_pool_step (e : CpEvent RA R C) : M bool :=
  match e with
  | CpConnectRequest response_sender => let* _ := handle_connect_request response_sender in eret true
  | CpConnectRequestClosed => eret false
  | CpConfigRequest config => let* _ := handle_config_request config in eret true
  | CpConfigRequestClosed => eret false
  | CpTimerTick => let* _ := cp_handle_timer_tick in eret true
  | CpTimerClosed => eret false
  | CpConnectAttemptDone opt_conn => let* _ := handle_connect_attempt_done opt_conn in eret true
  end.

Fixpoint connect_pool_loop (events : list (CpEvent RA R C)) : M unit :=
  match events with
  | [] => eret tt
  | e :: events' => let* go_on := connect_pool_step e in if go_on then connect_pool_loop events' else eret tt
  end.

(** ** Accounting *)

Definition connecting (s : ConnectPool) : nat := match cp_status s with CpConnecting _ _ _ => 1 | _ => 0 end.
Definition pending (s : ConnectPool) : list R :=
  match cp_status s with CpNoRequest => [] | CpWaiting _ r | CpConnecting _ _ r => [r] end.
Definition answered (l : list (ConnectPoolAction RA R C)) : list R :=
  omap (fun a => match a with CpRespond r _ => Some r | _ => None end) l.
Definition cancelled (l : list (ConnectPoolAction RA R C)) : nat :=
  length (omap (fun a => match a with CpCancel task => Some task | _ => None end) l).

(** The addresses the pool tries: those that wait and the one it connects to. *)
Definition known (s : ConnectPool) : gset RA :=
  list_to_set (cp_addresses s) ∪ match cp_status s with CpConnecting a _ _ => {[a]} | _ => ∅ end.

(** [reported] attempts have reported, [requests] were made so far. *)
Definition accounted (s : ConnectPool) (l : list (ConnectPoolAction RA R C)) (reported : nat) (requests : list R) : Prop :=
  cp_attempts s = reported + connecting s + cancelled l /\ requests = answered l ++ pending s.

Definition may_fail (s : ConnectPool) (_ : list (ConnectPoolAction RA R C)) : Prop :=
  (exists i, ok i = false) \/ pending s <> [].

Lemma wp_connect_to Pn a r s l :
  wp Pn may_fail (connect_to a r) (fun _ s' l' =>
    s' = mkConnectPool (cp_addresses s) (CpConnecting a (cp_attempts s) r) (cp_backoff_ticks s) (S (cp_attempts s)) /\
    l' = l ++ [CpAttempt (cp_attempts s) a]) s l.
Proof.
  unfold connect_to, create_conn_attempt, put_status. repeat wp_step.
  apply wp_emit_env; [by left; eexists|]. intros _. by repeat wp_step.
Qed.

Lemma cancelled_app l a :
  cancelled (l ++ [a]) = cancelled l + match a with CpCancel _ => 1 | _ => 0 end.
Proof. unfold cancelled. rewrite omap_app, length_app. by destruct a. Qed.
Lemma answered_app l a :
  answered (l ++ [a]) = answered l ++ match a with CpRespond r _ => [r] | _ => [] end.
Proof. unfold answered. rewrite omap_app. by destruct a. Qed.

Ltac pool_step :=
  first [wp_step | progress unfold put_addresses, put_status
        | eapply wp_mono; [|apply wp_connect_to]; intros ? ? ? [-> ->]].
Ltac accounting :=
  unfold accounted, connecting, pending, known in *; rewrite ?cancelled_app, ?answered_app; simpl in *;
  rewrite ?app_nil_r in *; rewrite <- ?app_assoc; simpl.

Lemma wp_connect_request r s l reported requests :
  accounted s l reported requests -> pending s = [] ->
  wp False may_fail (handle_connect_request r) (fun _ s' l' =>
    accounted s' l' reported (requests ++ [r]) /\ known s' = known s /\ cp_backoff_ticks s' = cp_backoff_ticks s) s l.
Proof.
  intros [Hn Hr] Hp. unfold handle_connect_request. repeat pool_step.
  destruct s as [addresses [| |] b n]; [|done|done]. simpl. destruct addresses as [|a rest]; repeat pool_step; accounting.
  - split_and!; [lia|by subst|set_solver|done].
  - split_and!; [lia|by subst|set_solver|done].
Qed.

Lemma wp_cp_timer_tick s l reported requests :
  accounted s l reported requests ->
  wp False may_fail cp_handle_timer_tick (fun _ s' l' =>
    accounted s' l' reported requests /\ known s' = known s /\ cp_backoff_ticks s' = cp_backoff_ticks s) s l.
Proof.
  intros [Hn Hr]. unfold cp_handle_timer_tick. repeat pool_step.
  destruct s as [addresses [|t r|] b n]; simpl; repeat pool_step; [by accounting| |by accounting].
  case_match; [destruct addresses as [|a rest]|]; repeat pool_step; accounting; split_and!; try done; try lia; set_solver.
Qed.

Lemma wp_attempt_done opt s l reported requests :
  accounted s l reported requests -> connecting s = 1 ->
  wp False may_fail (handle_connect_attempt_done opt) (fun _ s' l' =>
    accounted s' l' (S reported) requests /\ known s' = known s /\ cp_backoff_ticks s' = cp_backoff_ticks s) s l.
Proof.
  intros [Hn Hr] Hc. unfold handle_connect_attempt_done. repeat pool_step.
  destruct s as [addresses [| |a t r] b n]; [done|done|]. simpl. repeat pool_step.
  destruct opt as [c|]; repeat pool_step; [unfold wp, respond; simpl; repeat pool_step|]; accounting;
    rewrite list_to_set_app_L; simpl; split_and!; try done; try lia; set_solver.
Qed.

Lemma wp_remove_address x s l reported requests :
  accounted s l reported requests ->
  wp False may_fail (remove_address x) (fun _ s' l' =>
    accounted s' l' reported requests /\ cp_backoff_ticks s' = cp_backoff_ticks s /\
    (forall a, a ∈ cp_addresses s' -> a ∈ cp_addresses s /\ a <> x) /\ (forall a, a <> x -> a ∈ known s -> a ∈ known s')) s l.
Proof.
  intros [Hn Hr]. unfold remove_address. repeat pool_step. simpl.
  destruct s as [addresses status b n]; simpl in *. set (rest := filter (fun a => a <> x) addresses).
  assert (forall a, a ∈ rest <-> a ∈ addresses /\ a <> x) as Hrest by (intros a; unfold rest; rewrite list_elem_of_filter; tauto).
  clearbody rest. destruct status as [|t r|a t r]; simpl; repeat pool_step; accounting;
    try (split_and!; [done|done|done|intros; by apply Hrest|intros a; rewrite !elem_of_union, !elem_of_list_to_set, Hrest; tauto]).
  destruct (decide (x = a)) as [<-|Hne]; repeat pool_step; [|accounting;
    split_and!; [done|done|done|intros; by apply Hrest|intros a'; rewrite !elem_of_union, !elem_of_list_to_set, Hrest; tauto]].
  unfold wp at 1, cancel_attempt. simpl. destruct rest as [|a rest]; repeat pool_step; accounting;
    (split_and!; [lia|done|done|intros; apply Hrest; by repeat right|]); intros a' Hne Hin; specialize (Hrest a'); set_solver.
Qed.

Lemma wp_add_address x s l reported requests :
  accounted s l reported requests ->
  wp False may_fail (add_address x) (fun _ s' l' =>
    accounted s' l' reported requests /\ cp_backoff_ticks s' = cp_backoff_ticks s /\
    (forall a, a ∈ cp_addresses s' -> a ∈ cp_addresses s \/ a = x) /\ known s' = {[x]} ∪ known s) s l.
Proof.
  intros [Hn Hr]. unfold add_address. repeat pool_step.
  destruct s as [addresses status b n]; simpl in *.
  destruct (decide (x ∈ addresses)) as [Hin|Hin]; repeat pool_step; simpl.
  - rewrite bool_decide_eq_false_2 by (intros ->; by apply elem_of_nil in Hin). repeat pool_step. accounting. split_and!; try done; set_solver.
  - case_bool_decide as He; [subst addresses|]; [|repeat pool_step; accounting; rewrite list_to_set_app_L; split_and!; try done; set_solver].
    destruct status as [|t r|a t r]; simpl; repeat pool_step; accounting; split_and!; try done; try lia; set_solver.
Qed.

(** After a configuration every address of it is tried, and only addresses of it
    wait to be tried. *)
Lemma wp_config_request config s l reported requests :
  accounted s l reported requests ->
  wp False may_fail (handle_config_request config) (fun _ s' l' =>
    accounted s' l' reported requests /\ cp_backoff_ticks s' = cp_backoff_ticks s /\
    (forall a, a ∈ cp_addresses s' -> a ∈ config) /\ list_to_set config ⊆ known s') s l.
Proof.
  intros Hacc. unfold handle_config_request. wp_step. wp_step. wp_step.
  set (old := list_to_set (cp_addresses s) : gset RA). set (new := list_to_set config : gset RA).
  assert (forall a, a ∈ new <-> a ∈ config) as Hnew by (intros a; apply elem_of_list_to_set).
  eapply wp_mono; [|apply (wp_for _ _ (fun xs s' l' =>
    accounted s' l' reported requests /\ cp_backoff_ticks s' = cp_backoff_ticks s /\
    (forall a, a ∈ cp_addresses s' -> a ∈ config \/ a ∈ xs) /\ new ∩ old ⊆ known s' /\
    (forall a, a ∈ xs -> a ∉ new)))].
  - intros _ s1 l1 (Hacc1 & Hb1 & Hq1 & Hk1 & _). eapply wp_mono; [|apply (wp_for _ _ (fun xs s' l' =>
      accounted s' l' reported requests /\ cp_backoff_ticks s' = cp_backoff_ticks s /\
      (forall a, a ∈ cp_addresses s' -> a ∈ config) /\ (forall a, a ∈ xs -> a ∈ config) /\
      forall a, a ∈ config -> a ∈ known s' \/ a ∈ xs))].
    + intros _ s2 l2 (Hacc2 & Hb2 & Hq2 & _ & Hk2). split_and!; [done|done|done|].
      intros a Ha%elem_of_list_to_set. destruct (Hk2 a Ha) as [|Hx]; [done|by apply elem_of_nil in Hx].
    + intros x xs s2 l2 (Hacc2 & Hb2 & Hq2 & Hx2 & Hk2). eapply wp_mono; [|by eapply wp_add_address].
      intros _ s3 l3 (Hacc3 & Hb3 & Hq3 & Hk3). split_and!; [done|congruence| | |].
      * intros a Ha. destruct (Hq3 a Ha) as [|Hx]; [by apply Hq2|]. subst a. apply Hx2. by left.
      * intros a Ha. apply Hx2. by right.
      * intros a Ha. rewrite Hk3. destruct (Hk2 a Ha) as [|[Hx|]%elem_of_cons]; [set_solver| |by right]. set_solver.
    + split_and!; [done|done| | |].
      * intros a Ha. destruct (Hq1 a Ha) as [|Hx]; [done|by apply elem_of_nil in Hx].
      * intros a. rewrite elem_of_elements, elem_of_difference, Hnew. tauto.
      * intros a Ha. rewrite elem_of_elements, elem_of_difference, Hnew. destruct (decide (a ∈ old)); [|tauto].
        left. apply Hk1. set_solver.
  - intros x xs s1 l1 (Hacc1 & Hb1 & Hq1 & Hk1 & Hx1). eapply wp_mono; [|by eapply wp_remove_address].
    intros _ s2 l2 (Hacc2 & Hb2 & Hq2 & Hk2). split_and!; [done|congruence| | |].
    + intros a Ha. destruct (Hq2 a Ha) as [Ha1 Hne]. destruct (Hq1 a Ha1) as [|[->|]%elem_of_cons]; [by left|done|by right].
    + intros a Ha. apply Hk2; [|by apply Hk1]. intros ->. apply (Hx1 x); [by left|set_solver].
    + intros a Ha. apply Hx1. by right.
  - split_and!; [done|done| | |].
    + intros a Ha. rewrite elem_of_elements, elem_of_difference, Hnew. unfold old.
      rewrite elem_of_list_to_set. destruct (decide (a ∈ config)); tauto.
    + unfold known, old. set_solver.
    + intros a. rewrite elem_of_elements. set_solver.
Qed.

(** ** Runs of the pool with its attempts

    [pool_run s l reported requests config]: the pool can be in state [s] after
    the actions [l], when [reported] of its attempts have reported, [requests]
    were made and [config] is the last configuration. An attempt reports once. *)
Inductive pool_run (backoff_ticks : Z) :
  ConnectPool -> list (ConnectPoolAction RA R C) -> nat -> list R -> list RA -> Prop :=
| run_new : pool_run backoff_ticks (connect_pool_new backoff_ticks) [] 0 [] []
| run_request s l reported requests config r s' l' :
    pool_run backoff_ticks s l reported requests config ->
    connect_pool_step (CpConnectRequest r) s l = EOk true s' l' ->
    pool_run backoff_ticks s' l' reported (requests ++ [r]) config
| run_config s l reported requests config config' s' l' :
    pool_run backoff_ticks s l reported requests config ->
    connect_pool_step (CpConfigRequest config') s l = EOk true s' l' ->
    pool_run backoff_ticks s' l' reported requests config'
| run_tick s l reported requests config s' l' :
    pool_run backoff_ticks s l reported requests config ->
    connect_pool_step CpTimerTick s l = EOk true s' l' ->
    pool_run backoff_ticks s' l' reported requests config
| run_done s l reported requests config opt s' l' :
    pool_run backoff_ticks s l reported requests config -> (reported < cp_attempts s)%nat ->
    connect_pool_step (CpConnectAttemptDone opt) s l = EOk true s' l' ->
    pool_run backoff_ticks s' l' (S reported) requests config.

Definition pool_ok (backoff_ticks : Z) s l reported requests config : Prop :=
  accounted s l reported requests /\ cp_backoff_ticks s = backoff_ticks /\
  list_to_set config ⊆ known s /\ (size (known s ∖ list_to_set config) <= 1)%nat.

Lemma pool_ok_known b s l n q s' l' n' q' config :
  pool_ok b s l n q config -> accounted s' l' n' q' -> known s' = known s -> cp_backoff_ticks s' = cp_backoff_ticks s ->
  pool_ok b s' l' n' q' config.
Proof. intros (_ & Hb & Hc & Hs) Ha Hk Hb'. unfold pool_ok. rewrite Hk. by split_and!; [|congruence|..]. Qed.

(** The result of a step from its weakest precondition. *)
Lemma wp_step_inv (m : M unit) (X : ConnectPool -> list (ConnectPoolAction RA R C) -> Prop) Q s l s' l' :
  (let* _ := m in eret true) s l = EOk true s' l' -> wp False X m Q s l -> Q tt s' l'.
Proof. unfold ebind, wp. destruct (m s l) as [[] s1 l1|e s1 l1|]; [|done|done]. by intros [= <- <-]. Qed.

Lemma pool_run_ok b s l n q config : pool_run b s l n q config -> pool_ok b s l n q config.
Proof.
  induction 1 as [|s l n q config r s' l' _ IH Hs|s l n q config config' s' l' _ IH Hs|s l n q config s' l' _ IH Hs
                 |s l n q config opt s' l' _ IH Hlt Hs].
  - split_and!; [done|done|set_solver|]. unfold known.
    transitivity (size (∅ : gset RA)); [apply subseteq_size; set_solver|]. rewrite size_empty. lia.
  - assert (pending s = []) as Hp.
    { revert Hs. unfold connect_pool_step, handle_connect_request, pending, ebind, eget. by destruct (cp_status s). }
    pose proof (wp_step_inv _ _ _ _ _ _ _ Hs (wp_connect_request r s l n q (proj1 IH) Hp)) as (Ha & Hk & Hb).
    by eapply pool_ok_known.
  - pose proof (wp_step_inv _ _ _ _ _ _ _ Hs (wp_config_request config' s l n q (proj1 IH))) as (Ha & Hb & Hq & Hk).
    destruct IH as (_ & Hb0 & _). split_and!; [done|congruence|done|].
    transitivity (size (match cp_status s' with CpConnecting a _ _ => {[a]} | _ => ∅ end : gset RA));
      [apply subseteq_size; unfold known; set_solver|]. destruct (cp_status s'); rewrite ?size_empty, ?size_singleton; lia.
  - pose proof (wp_step_inv _ _ _ _ _ _ _ Hs (wp_cp_timer_tick s l n q (proj1 IH))) as (Ha & Hk & Hb).
    by eapply pool_ok_known.
  - assert (connecting s = 1) as Hc.
    { revert Hs. unfold connect_pool_step, handle_connect_attempt_done, connecting, ebind, eget. by destruct (cp_status s). }
    pose proof (wp_step_inv _ _ _ _ _ _ _ Hs (wp_attempt_done opt s l n q (proj1 IH) Hc)) as (Ha & Hk & Hb).
    by eapply pool_ok_known.
Qed.

(** ** Serving a request

    The attempts that were started, and the requests that were answered, with their
    connections. *)
Definition started (l : list (ConnectPoolAction RA R C)) : list RA :=
  omap (fun x => match x with CpAttempt _ address => Some address | _ => None end) l.
Definition answers (l : list (ConnectPoolAction RA R C)) : list (R * C) :=
  omap (fun x => match x with CpRespond r c => Some (r, c) | _ => None end) l.

(** What happens while a request is served, in any order: the timer ticks, a running
    attempt reports [reach] of its address, and the configuration changes.
    [running] are the addresses of the attempts that have not reported; [work] counts
    the reports and the ticks that come while the pool waits. The configuration keeps
    [a], and the address being tried if it also waits to be tried again. *)
Section Serving.
Variables (reach : RA -> option C) (a : RA).

Definition counted_tick (s : ConnectPool) : nat := match cp_status s with CpWaiting _ _ => 1 | _ => 0 end.
Definition keeps (s : ConnectPool) (config : list RA) : Prop :=
  a ∈ config /\ match cp_status s with CpConnecting x _ _ => x ∈ cp_addresses s -> x ∈ config | _ => True end.

Inductive serving_run (s1 : ConnectPool) (l1 : list (ConnectPoolAction RA R C)) (running1 : list RA) :
  ConnectPool -> list (ConnectPoolAction RA R C) -> list RA -> list (CpEvent RA R C) -> nat -> Prop :=
| sr_start : serving_run s1 l1 running1 s1 l1 running1 [] 0
| sr_tick s l running events work s' l' :
    serving_run s1 l1 running1 s l running events work ->
    connect_pool_step CpTimerTick s l = EOk true s' l' ->
    serving_run s1 l1 running1 s' l' (running ++ started (drop (length l) l')) (events ++ [CpTimerTick]) (work + counted_tick s)
| sr_report s l before x after events work s' l' :
    serving_run s1 l1 running1 s l (before ++ x :: after) events work ->
    connect_pool_step (CpConnectAttemptDone (reach x)) s l = EOk true s' l' ->
    serving_run s1 l1 running1 s' l' (before ++ after ++ started (drop (length l) l'))
      (events ++ [CpConnectAttemptDone (reach x)]) (work + 1)
| sr_config s l running events work config s' l' :
    serving_run s1 l1 running1 s l running events work -> keeps s config ->
    connect_pool_step (CpConfigRequest config) s l = EOk true s' l' ->
    serving_run s1 l1 running1 s' l' (running ++ started (drop (length l) l')) (events ++ [CpConfigRequest config]) work.

Definition is_config (e : CpEvent RA R C) : bool := match e with CpConfigRequest _ => true | _ => false end.
Definition unconfigured (events : list (CpEvent RA R C)) : Prop := forallb (fun e => negb (is_config e)) events = true.

(** Between [l1] and [l] the pool tried [tried], the last of them last; [f'] are the
    addresses that are tried in vain before [a], and [q'] those after it. *)
Section Invariant.
Variables (failing q : list RA) (r : R) (c : C) (b : Z) (k : nat) (first : RA) (l1 : list (ConnectPoolAction RA R C)).
Hypothesis Hok : forall i, ok i = true.
Hypothesis Hfail : forall x, x ∈ failing -> reach x = None.
Hypothesis Ha : reach a = Some c.
Hypothesis Hb : (0 <= b <= u_max 64)%Z.
Hypothesis Hk : Z.of_nat k = Z.max 1 b.

Definition bound : nat := length failing * S k + 1.
(** The addresses [pre] were tried before. *)
Definition in_turn (pre f' q' : list RA) (quiet : Prop) : Prop :=
  pre ++ f' `sublist_of` failing /\ (quiet -> pre ++ f' = failing /\ q' = q ++ pre).
Definition served (s : ConnectPool) (running tried : list RA) (l' : list (ConnectPoolAction RA R C)) (quiet : Prop) (work : nat) : Prop :=
  match cp_status s with
  | CpConnecting x _ r' =>
      r' = r /\ running = [x] /\ answers l' = [] /\ exists pre f' q',
        tried = pre ++ [x] /\ x :: cp_addresses s = f' ++ a :: q' /\ in_turn pre f' q' quiet /\
        work + length f' * S k + 1 <= bound
  | CpWaiting t r' =>
      r' = r /\ running = [] /\ answers l' = [] /\ (0 <= t <= u_max 64)%Z /\ exists f' q',
        cp_addresses s = f' ++ a :: q' /\ in_turn tried f' q' quiet /\
        work + Z.to_nat (Z.max 1 t) + length f' * S k + 1 <= bound
  | CpNoRequest =>
      running = [] /\ answers l' = [(r, c)] /\ exists pre,
        tried = pre ++ [a] /\ in_turn pre [] (q ++ pre) quiet /\ work <= bound /\ (quiet -> cp_addresses s = q ++ failing ++ [a])
  end.
Definition serving_inv (s : ConnectPool) l (running : list RA) (events : list (CpEvent RA R C)) (work : nat) : Prop :=
  cp_backoff_ticks s = b /\ exists l', l = l1 ++ l' /\ cancelled l' = 0 /\
    served s running (first :: started l') l' (unconfigured events) work.

(** *** Ticks *)
Lemma started_app l l' : started (l ++ l') = started l ++ started l'.
Proof. apply omap_app. Qed.
Lemma answers_app l l' : answers (l ++ l') = answers l ++ answers l'.
Proof. apply omap_app. Qed.
Lemma started_new l l' : started (drop (length l) (l ++ l')) = started l'.
Proof. by rewrite drop_app_length. Qed.
Lemma unconfigured_app events e : unconfigured (events ++ [e]) <-> unconfigured events /\ is_config e = false.
Proof. unfold unconfigured. rewrite forallb_app. simpl. rewrite andb_true_r, andb_true_iff, negb_true_iff. done. Qed.

Lemma saturate_pred t : (0 <= t <= u_max 64)%Z -> saturate_u 64 (t - 1) = Z.max 0 (t - 1).
Proof. unfold saturate_u. lia. Qed.

Lemma in_turn_quiet pre f' q' (P Q : Prop) : (Q -> P) -> in_turn pre f' q' P -> in_turn pre f' q' Q.
Proof. intros HPQ [H1 H2]. split; [done|]. auto. Qed.

Lemma serving_tick s l running events work :
  serving_inv s l running events work ->
  exists s' l', connect_pool_step CpTimerTick s l = EOk true s' l' /\
    serving_inv s' l' (running ++ started (drop (length l) l')) (events ++ [CpTimerTick]) (work + counted_tick s).
Proof.
  intros (Hbt & l' & -> & Hc & Hs). destruct s as [addresses status b0 n]. cbn in Hbt. subst b0.
  assert (unconfigured (events ++ [CpTimerTick]) -> unconfigured events) as Hq by (intros Hu; by apply unconfigured_app in Hu as [? _]).
  destruct status as [|t r'|x m r']; cbn in Hs.
  - destruct Hs as (-> & Hans & pre & Ht & Hi & Hw & Had). eexists _, _. split; [reflexivity|]. split; [done|]. exists l'.
    split_and!; [done|done|]. cbn. rewrite drop_all, Nat.add_0_r. split_and!; [done|done|]. exists pre. split_and!; [done| |done|auto]. by eapply in_turn_quiet.
  - destruct Hs as (-> & -> & Hans & Ht & f' & q' & -> & Hi & Hw). unfold connect_pool_step, cp_handle_timer_tick, ebind at 1 2, eget at 1.
    cbn [cp_status]. unfold put_status, ebind at 1 2, eget at 1, eput at 1. cbn [cp_addresses cp_backoff_ticks cp_attempts].
    rewrite saturate_pred by done. destruct (Z.eqb_spec (Z.max 0 (t - 1)) 0) as [Hz|Hz].
    + destruct (f' ++ a :: q') as [|x rest] eqn:E; [by destruct f'|]. eexists _, _. split.
      { unfold put_addresses, connect_to, create_conn_attempt, put_status, emit, ebind, eget, eput. rewrite Hok. reflexivity. }
      split; [done|]. eexists (l' ++ [CpAttempt n x]). split; [by rewrite <-app_assoc|]. split; [rewrite cancelled_app; lia|].
      cbn. rewrite started_new, answers_app, Hans. cbn. split_and!; [done..|]. exists (first :: started l'), f', q'.
      rewrite started_app. split_and!; [done|done|by eapply in_turn_quiet|lia].
    + eexists _, _. split; [reflexivity|]. split; [done|]. exists l'. split_and!; [done|done|]. cbn. rewrite drop_all. cbn.
      split_and!; [done|done|done|lia|lia|]. exists f', q'. split_and!; [done|by eapply in_turn_quiet|lia].
  - destruct Hs as (-> & -> & Hans & pre & f' & q' & Ht & E & Hi & Hw). eexists _, _. split; [reflexivity|]. split; [done|]. exists l'.
    split_and!; [done|done|]. cbn. rewrite drop_all, Nat.add_0_r. split_and!; [done..|]. exists pre, f', q'. split_and!; [done|done| |done]. by eapply in_turn_quiet.
Qed.

(** *** Reports *)
Lemma serving_report s l before x after events work :
  serving_inv s l (before ++ x :: after) events work ->
  exists s' l', connect_pool_step (CpConnectAttemptDone (reach x)) s l = EOk true s' l' /\
    serving_inv s' l' (before ++ after ++ started (drop (length l) l')) (events ++ [CpConnectAttemptDone (reach x)]) (work + 1).
Proof.
  intros (Hbt & l' & -> & Hc & Hs). destruct s as [addresses status b0 n]. cbn in Hbt. subst b0.
  assert (unconfigured (events ++ [CpConnectAttemptDone (reach x)]) -> unconfigured events) as Hq by (intros Hu; by apply unconfigured_app in Hu as [? _]).
  destruct status as [|t r'|y m r']; cbn in Hs; [by destruct Hs, before|by destruct Hs as (_ & ? & _), before|].
  destruct Hs as (-> & Hr & Hans & pre & f' & q' & Ht & E & [Hsub Heq] & Hw).
  destruct before as [|z before]; [|by destruct before]. injection Hr as -> ->. cbn.
  unfold handle_connect_attempt_done, put_addresses, put_status, respond, ebind, eget, eput. cbn.
  destruct f' as [|z f']; cbn in E; injection E as -> ->.
  - rewrite Ha in Hq |- *. cbn. eexists _, _. split; [reflexivity|]. split; [done|]. exists (l' ++ [CpRespond r c]).
    split; [by rewrite <-app_assoc|]. split; [rewrite cancelled_app; lia|]. cbn. rewrite started_new, answers_app, Hans, started_app. cbn.
    rewrite app_nil_r. split_and!; [done|done|]. exists pre. split; [by rewrite Ht|]. split; [split; [done|]; intros Hu; split; [by apply Heq, Hq|done]|].
    split; [cbn in Hw; lia|]. intros Hu. destruct (Heq (Hq Hu)) as [Hp ->]. rewrite app_nil_r in Hp. subst pre. by rewrite <-app_assoc.
  - assert (reach z = None) as Hz.
    { apply Hfail. eapply elem_of_sublist; [|exact Hsub]. apply elem_of_app. right. by left. }
    rewrite Hz in Hq |- *. eexists _, _. split; [reflexivity|]. split; [done|]. exists l'. split_and!; [done|done|]. cbn.
    rewrite drop_all. cbn. split_and!; [done|done|done|lia|lia|]. exists f', (q' ++ [z]). split; [by rewrite <-app_assoc|].
    split; [|cbn in Hw; lia]. rewrite Ht. split; [by rewrite <-app_assoc|]. intros Hu. destruct (Heq (Hq Hu)) as [Hp ->].
    split; [by rewrite <-app_assoc|by rewrite <-app_assoc].
Qed.

(** *** Changes of the configuration *)
Definition with_addresses (s : ConnectPool) (addresses : list RA) : ConnectPool :=
  mkConnectPool addresses (cp_status s) (cp_backoff_ticks s) (cp_attempts s).
Definition trying (s : ConnectPool) : list RA := match cp_status s with CpConnecting x _ _ => [x] | _ => [] end.

Lemma remove_others xs s (l : list (ConnectPoolAction RA R C)) :
  (forall x, x ∈ xs -> x ∉ trying s) ->
  efor xs remove_address s l = EOk tt (with_addresses s (filter (fun y => y ∉ xs) (cp_addresses s))) l.
Proof.
  revert s. induction xs as [|x xs IH]; intros s Hx.
  - cbn. assert (filter (fun y => y ∉ []) (cp_addresses s) = cp_addresses s) as ->; [|by destruct s].
    induction (cp_addresses s) as [|y ys IHys]; [done|]. rewrite filter_cons_True by apply not_elem_of_nil. by rewrite IHys.
  - cbn [efor]. unfold ebind at 1. assert (remove_address x s l = EOk tt (with_addresses s (filter (fun y => y <> x) (cp_addresses s))) l) as ->.
    { unfold remove_address, put_addresses, ebind, eget, eput. cbn. specialize (Hx x ltac:(by left)). unfold trying in Hx.
      destruct s as [ad [|t r'|y m r'] b0 n]; cbn in *; [done|done|]. rewrite decide_False by set_solver. done. }
    rewrite IH by (intros y Hy; apply Hx; by right). unfold with_addresses. cbn. rewrite list_filter_filter. do 2 f_equal. apply list_filter_iff.
    intros y. rewrite not_elem_of_cons. tauto.
Qed.
Lemma add_others xs s (l : list (ConnectPoolAction RA R C)) :
  (match cp_status s with CpWaiting _ _ => cp_addresses s <> [] | _ => True end) ->
  exists more, efor xs add_address s l = EOk tt (with_addresses s (cp_addresses s ++ more)) l.
Proof.
  revert s. induction xs as [|x xs IH]; intros s Hs.
  - exists []. cbn. rewrite app_nil_r. by destruct s.
  - assert (exists m1, add_address x s l = EOk tt (with_addresses s (cp_addresses s ++ m1)) l) as [m1 E1].
    { unfold add_address, put_addresses, ebind, eget, eput, with_addresses. destruct s as [ad st b0 n]. cbn in *. case_decide as Hd; cbn.
      - exists []. rewrite app_nil_r. destruct st; case_bool_decide; done.
      - exists [x]. destruct st; case_bool_decide; done. }
    destruct (IH (with_addresses s (cp_addresses s ++ m1))) as [m2 E2].
    { cbn. destruct (cp_status s); [done| |done]. by destruct (cp_addresses s). }
    exists (m1 ++ m2). cbn [efor]. unfold ebind. rewrite E1, E2. unfold with_addresses. cbn. by rewrite app_assoc.
Qed.
(** Nothing is cancelled, and new addresses come last. *)
Lemma config_kept config s (l : list (ConnectPoolAction RA R C)) :
  keeps s config -> (match cp_status s with CpWaiting _ _ => a ∈ cp_addresses s | _ => True end) ->
  exists (xs more : list RA), (a ∉ xs) /\
    connect_pool_step (CpConfigRequest config) s l =
      EOk true (with_addresses s (filter (fun y => y ∉ xs) (cp_addresses s) ++ more)) l.
Proof.
  intros [Hac Hcur] Hw. set (old := list_to_set (cp_addresses s) : gset RA). set (new := list_to_set config : gset RA).
  assert (forall y, y ∈ elements (old ∖ new) <-> y ∈ cp_addresses s /\ y ∉ config) as Hxs.
  { intros y. rewrite elem_of_elements, elem_of_difference. unfold old, new. by rewrite !elem_of_list_to_set. }
  assert (a ∉ elements (old ∖ new)) as Hna by (rewrite Hxs; tauto).
  set (s' := with_addresses s (filter (fun y => y ∉ elements (old ∖ new)) (cp_addresses s))).
  destruct (add_others (elements (new ∖ old)) s' l) as [more Hmore].
  { cbn. destruct (cp_status s); [done| |done]. intros E.
    assert (a ∈ filter (fun y => y ∉ elements (old ∖ new)) (cp_addresses s)) as Hin by by apply list_elem_of_filter. rewrite E in Hin. by apply elem_of_nil in Hin. }
  exists (elements (old ∖ new)), more. split; [done|]. cbn. unfold handle_config_request, ebind, eget. fold old new.
  rewrite remove_others; [fold s'; by rewrite Hmore|].
  intros x Hx. unfold trying. destruct (cp_status s); [by apply not_elem_of_nil..|]. rewrite list_elem_of_singleton. intros ->. apply Hxs in Hx as []. auto.
Qed.

Lemma in_turn_config pre f' q' f'' q'' P events config :
  in_turn pre f' q' P -> f'' `sublist_of` f' -> in_turn pre f'' q'' (unconfigured (events ++ [CpConfigRequest config])).
Proof.
  intros [Hs _] Hf. split; [|intros [_ ?]%unconfigured_app; done].
  etrans; [|exact Hs]. by apply sublist_app.
Qed.

Lemma serving_config s l running events work config :
  serving_inv s l running events work -> keeps s config ->
  exists s' l', connect_pool_step (CpConfigRequest config) s l = EOk true s' l' /\
    serving_inv s' l' (running ++ started (drop (length l) l')) (events ++ [CpConfigRequest config]) work.
Proof.
  intros (Hbt & l' & -> & Hc & Hs) Hkeep.
  destruct (config_kept config s (l1 ++ l') Hkeep) as (xs & more & Hxs & Hrun).
  { unfold served in Hs. destruct (cp_status s); [done| |done]. destruct Hs as (_ & _ & _ & _ & f' & q' & -> & _). set_solver. }
  eexists _, _. split; [exact Hrun|]. split; [done|]. exists l'. split_and!; [done|done|]. rewrite drop_all, app_nil_r.
  assert (forall f' q', filter (fun y => y ∉ xs) (f' ++ a :: q') = filter (fun y => y ∉ xs) f' ++ a :: filter (fun y => y ∉ xs) q') as Hf.
  { intros f' q'. rewrite filter_app, filter_cons_True by done. done. }
  pose proof (fun l => sublist_filter (fun y => y ∉ xs) l) as Hsub.
  assert (forall f : list RA, length (filter (fun y => y ∉ xs) f) <= length f) as Hlen by (intros f; apply sublist_length, Hsub).
  unfold served in *. cbn [with_addresses cp_status cp_addresses]. destruct (cp_status s) as [|t r'|x m r'].
  - destruct Hs as (-> & Hans & pre & Ht & Hi & Hw & _). split_and!; [done|done|]. exists pre. split_and!; [done| |done|].
    + eapply in_turn_config; [exact Hi|done].
    + intros [_ ?]%unconfigured_app. done.
  - destruct Hs as (-> & -> & Hans & Ht & f' & q' & -> & Hi & Hw). split_and!; [done|done|done|lia|lia|].
    eexists (filter (fun y => y ∉ xs) f'), _. rewrite Hf, <-app_assoc. split_and!; [done| |].
    + eapply in_turn_config; [exact Hi|apply Hsub].
    + specialize (Hlen f'). nia.
  - destruct Hs as (-> & -> & Hans & pre & f' & q' & Ht & E & Hi & Hw). split_and!; [done|done|done|]. exists pre.
    destruct f' as [|y f']; cbn in E; injection E as -> E.
    + eexists [], _. split_and!; [done|done| |done]. eapply in_turn_config; [exact Hi|done].
    + rewrite E, Hf. eexists (y :: filter (fun z => z ∉ xs) f'), _. split_and!; [done|cbn; by rewrite <-app_assoc| |].
      * eapply in_turn_config; [exact Hi|]. apply sublist_skip, Hsub.
      * specialize (Hlen f'). cbn in *. nia.
Qed.

(** Every run keeps the invariant. *)
Lemma serving_run_inv s1 running1 s l running events work :
  serving_inv s1 l1 running1 [] 0 -> serving_run s1 l1 running1 s l running events work -> serving_inv s l running events work.
Proof.
  intros Hi. induction 1 as [|s l running events work s' l' _ IH Hs|s l before x after events work s' l' _ IH Hs
    |s l running events work config s' l' _ IH Hkeep Hs]; [done|..].
  - destruct (serving_tick _ _ _ _ _ IH) as (? & ? & E & ?). rewrite Hs in E. by injection E as <- <-.
  - destruct (serving_report _ _ _ _ _ _ _ IH) as (? & ? & E & ?). rewrite Hs in E. by injection E as <- <-.
  - destruct (serving_config _ _ _ _ _ config IH Hkeep) as (? & ? & E & ?). rewrite Hs in E. by injection E as <- <-.
Qed.
End Invariant.
End Serving.
End ConnectPool.
Arguments ConnectPool RA R : clear implicits.

Section Theorems.
Context {RA R C : Type} `{Countable RA} (ok : nat -> bool).

(** An attempt reports only after it was started. *)
Definition can_happen (s : ConnectPool RA R) (reported : nat) (e : CpEvent RA R C) : Prop :=
  match e with CpConnectAttemptDone _ => (reported < cp_attempts s)%nat | _ => True end.

Lemma no_panic_unless_done b (s : ConnectPool RA R) (l : list (ConnectPoolAction RA R C)) n q config e :
  pool_run ok b s l n q config -> connect_pool_step ok e s l = EPanic ->
  exists opt, e = CpConnectAttemptDone opt /\ connecting s = 0.
Proof.
  intros Hrun%pool_run_ok Hp. destruct Hrun as (Hacc & _).
  assert (forall m : Eff (ConnectPool RA R) ConnectPoolError (ConnectPoolAction RA R C) unit, forall X Q,
    (let* _ := m in eret true) s l = EPanic -> wp False X m Q s l -> False) as Hno.
  { intros m X Q. unfold ebind, wp. by destruct (m s l). }
  destruct e as [r| |c| |opt| |]; try done; simpl in Hp.
  - destruct (cp_status s) eqn:Es; [|by unfold ebind, handle_connect_request, ebind, eget in Hp; rewrite Es in Hp..].
    exfalso. eapply Hno; [exact Hp|]. apply (wp_connect_request ok r s l n q); [done|]. unfold pending. by rewrite Es.
  - exfalso. eapply Hno; [exact Hp|]. by apply (wp_config_request ok c s l n q).
  - exists opt. split; [done|]. destruct (connecting s) as [|k] eqn:Ec; [done|]. exfalso. eapply Hno; [exact Hp|].
    apply (wp_attempt_done ok opt s l n q); [done|]. revert Ec. unfold connecting. by destruct (cp_status s); intros [= <-].
  - exfalso. eapply Hno; [exact Hp|]. by apply (wp_cp_timer_tick ok s l n q).
Qed.

(** In every run of the connect pool: requests are answered in the order they
    were made, each once, and only the last one can be pending; every address of
    the last configuration is tried, and at most one other address (the one that
    was being tried when the configuration came); an attempt is outstanding for
    the address being tried and for every cancelled attempt that has not reported
    in its place. So the pool can panic exactly when it is not connecting although
    an attempt was cancelled before. *)
Theorem connect_pool_accounts (backoff_ticks : Z) (s : ConnectPool RA R) (l : list (ConnectPoolAction RA R C))
  (reported : nat) (requests : list R) (config : list RA)
  (Hrun : pool_run ok backoff_ticks s l reported requests config) :
  requests = answered l ++ pending s /\
  list_to_set config ⊆ known s /\ (size (known s ∖ list_to_set config) <= 1)%nat /\
  cp_attempts s = reported + connecting s + cancelled l /\
  ((exists e, can_happen s reported e /\ connect_pool_step ok e s l = EPanic) <->
   connecting s = 0 /\ (0 < cancelled l)%nat).
Proof.
  pose proof (pool_run_ok _ _ _ _ _ _ _ Hrun) as ((Hn & Hr) & _ & Hc & Hs). split_and!; [done|done|done|done|]. split.
  - intros (e & Hcan & Hp). destruct (no_panic_unless_done _ _ _ _ _ _ _ Hrun Hp) as (opt & -> & Hcon).
    split; [done|]. simpl in Hcan. lia.
  - intros [Hcon Hcan]. exists (CpConnectAttemptDone None). split; [simpl; lia|]. revert Hcon.
    simpl. unfold connecting, ebind, handle_connect_attempt_done, ebind, eget. by destruct (cp_status s).
Qed.

(** The pool takes the event: it neither fails nor panics, and goes on. *)
Definition takes_event (e : CpEvent RA R C) (s : ConnectPool RA R) (l : list (ConnectPoolAction RA R C)) : Prop :=
  exists s' l', connect_pool_step ok e s l = EOk true s' l'.

Lemma serving_inv_new (reach : RA -> option C) (s : ConnectPool RA R) (l : list (ConnectPoolAction RA R C)) failing a q r c k first rest :
  cp_status s = CpNoRequest -> first :: rest = failing ++ a :: q ->
  serving_inv a failing q r c (cp_backoff_ticks s) k first (l ++ [CpAttempt (cp_attempts s) first])
    (mkConnectPool rest (CpConnecting first (cp_attempts s) r) (cp_backoff_ticks s) (S (cp_attempts s)))
    (l ++ [CpAttempt (cp_attempts s) first]) [first] [] 0.
Proof.
  intros Hs E. split; [done|]. exists []. split_and!; [by rewrite app_nil_r|done|]. cbn. split_and!; [done..|].
  exists [], failing, q. split_and!; [done|done| |unfold bound; lia]. split; [done|]. intros _. by rewrite app_nil_r.
Qed.

(** C32. When a relay can be reached, a request is answered. The pool may know any
    addresses; [a] is the first of them that can be reached. After the request, whatever
    happens in whatever order - ticks of the timer, also while the pool connects,
    reports of running attempts, and changes of the configuration that keep [a] and,
    when it waits to be tried again, the address being tried - the pool takes every
    event without error or panic, and cancels nothing. The request is never lost:
    either it is answered, exactly once and with the connection to [a], after attempts
    at addresses before [a] only; or the pool waits for the timer, or for the report
    of the one attempt that runs. It is answered at the latest after [most] reports
    and waiting ticks. Without changes of the configuration the addresses are tried
    exactly in turn, and the next request starts after the address that worked. *)
Theorem connect_request_answered {Raw : Type} (client_connector : RA -> PublicKey -> option Raw)
  (encrypt_transform : PublicKey -> Raw -> option C) (friend : PublicKey)
  (s : ConnectPool RA R) (l : list (ConnectPoolAction RA R C)) (failing : list RA) (a : RA) (q : list RA) (r : R) (c : C)
  (Hok : forall i, ok i = true) (Hs : cp_status s = CpNoRequest) (Hq : cp_addresses s = failing ++ a :: q)
  (Hfail : forall x, x ∈ failing -> conn_attempt client_connector encrypt_transform friend x false = None)
  (Ha : conn_attempt client_connector encrypt_transform friend a false = Some c)
  (Hb : (0 <= cp_backoff_ticks s <= u_max 64)%Z) :
  let reach x := conn_attempt client_connector encrypt_transform friend x false in
  let most := length failing * S (Z.to_nat (Z.max 1 (cp_backoff_ticks s))) + 1 in
  exists s1 l1, connect_pool_step ok (CpConnectRequest r) s l = EOk true s1 l1 /\
  forall s' l' running events work,
    serving_run ok reach a s1 l1 (started (drop (length l) l1)) s' l' running events work ->
    takes_event CpTimerTick s' l' /\
    (forall x, x ∈ running -> takes_event (CpConnectAttemptDone (reach x)) s' l') /\
    (forall config, keeps a s' config -> takes_event (CpConfigRequest config) s' l') /\
    exists l2, l' = l ++ l2 /\ cancelled l2 = 0 /\
    match cp_status s' with
    | CpNoRequest =>
        running = [] /\ work <= most /\ answers l2 = [(r, c)] /\
        (exists before, started l2 = before ++ [a] /\ before `sublist_of` failing) /\
        (unconfigured events -> started l2 = failing ++ [a] /\ cp_addresses s' = q ++ failing ++ [a])
    | CpWaiting _ r' => r' = r /\ running = [] /\ work < most /\ answers l2 = []
    | CpConnecting x _ r' => r' = r /\ running = [x] /\ work < most /\ answers l2 = []
    end.
Proof.
  intros reach most. destruct (failing ++ a :: q) as [|first rest] eqn:E; [by destruct failing|].
  set (l1 := l ++ [CpAttempt (cp_attempts s) first]). eexists _, l1. split.
  { cbn. unfold handle_connect_request, put_addresses, connect_to, create_conn_attempt, put_status, emit, ebind, eget, eput.
    rewrite Hs, Hq. rewrite Hok. reflexivity. }
  intros s' l' running events work Hrun. set (k := Z.to_nat (Z.max 1 (cp_backoff_ticks s))).
  unfold l1 in Hrun. rewrite started_new in Hrun. fold l1 in Hrun. cbn in Hrun.
  assert (Z.of_nat k = Z.max 1 (cp_backoff_ticks s)) as Hk by lia.
  pose proof (serving_run_inv ok reach a failing q r c _ k first l1 Hok Hfail Ha Hb Hk _ _ _ _ _ _ _
    (serving_inv_new reach s l failing a q r c k first rest Hs (eq_sym E)) Hrun) as Hinv.
  split_and!.
  - eapply (serving_tick ok) in Hinv as (? & ? & ? & _); [by do 2 eexists|done..].
  - intros x (before & after & ->)%list_elem_of_split.
    eapply (serving_report ok reach) in Hinv as (? & ? & ? & _); [by do 2 eexists|done..].
  - intros config Hkeep. eapply (serving_config ok reach _ _ _ _ _ _ _ _ _ Hok Hfail Ha Hb Hk _ _ _ _ _ config) in Hinv as (? & ? & ? & _); [by do 2 eexists|done].
  - destruct Hinv as (_ & l2 & -> & Hc & Hsv). exists (CpAttempt (cp_attempts s) first :: l2). unfold l1. rewrite <-app_assoc. split_and!; [done|done|].
    unfold served, bound in Hsv. fold most in Hsv. destruct (cp_status s') as [|t r'|x m r'].
    + destruct Hsv as (-> & Hans & before & Ht & [Hsub Heq] & Hw & Had). rewrite app_nil_r in *. split_and!; [done|done|done|by exists before|].
      intros Hu. split; [|by apply Had]. destruct (Heq Hu) as [<- _]. done.
    + destruct Hsv as (-> & -> & Hans & _ & f' & q' & _ & _ & Hw). split_and!; [done|done|lia|done].
    + destruct Hsv as (-> & -> & Hans & pre & f' & q' & _ & _ & _ & Hw). split_and!; [done|done|lia|done].
Qed.
End Theorems.

(** ** Executions *)
Module ConnectPoolSamples.
Definition all_ok (_ : nat) : bool := true.
Definition run (events : list (CpEvent Z Z Z)) : eres (ConnectPool Z Z) ConnectPoolError (ConnectPoolAction Z Z Z) unit :=
  connect_pool_loop all_ok events (connect_pool_new 2) [].
Definition friend : PublicKey := fixed_of_prefix 32 [Byte.x07].

(** Two relays, of which the second can be reached. *)
Definition pool : ConnectPool Z Z := mkConnectPool [1; 2; 3]%Z CpNoRequest 2 0.
Definition relay (a : Z) (_ : PublicKey) : option Z := if decide (a = 2%Z) then Some 20%Z else None.
Definition encrypt (_ : PublicKey) (raw : Z) : option Z := Some (raw + 1)%Z.

(** Relay 2 is reached on the second attempt, whatever happens in between. *)
Lemma connect_request_answered_witness :
  let reach x := conn_attempt relay encrypt friend x false in
  let most := length [1%Z] * S (Z.to_nat (Z.max 1 2)) + 1 in
  exists s1 l1, connect_pool_step all_ok (CpConnectRequest 9%Z) pool [] = EOk true s1 l1 /\
  forall s' l' running events work,
    serving_run all_ok reach 2%Z s1 l1 (started (drop 0 l1)) s' l' running events work ->
    takes_event all_ok CpTimerTick s' l' /\
    (forall x, x ∈ running -> takes_event all_ok (CpConnectAttemptDone (reach x)) s' l') /\
    (forall config, keeps 2%Z s' config -> takes_event all_ok (CpConfigRequest config) s' l') /\
    exists l2, l' = [] ++ l2 /\ cancelled l2 = 0 /\
    match cp_status s' with
    | CpNoRequest =>
        running = [] /\ work <= most /\ answers l2 = [(9, 21)]%Z /\
        (exists before, started l2 = before ++ [2%Z] /\ before `sublist_of` [1%Z]) /\
        (unconfigured events -> started l2 = [1; 2]%Z /\ cp_addresses s' = [3; 1; 2]%Z)
    | CpWaiting _ r' => r' = 9%Z /\ running = [] /\ work < most /\ answers l2 = []
    | CpConnecting x _ r' => r' = 9%Z /\ running = [x] /\ work < most /\ answers l2 = []
    end.
Proof.
  apply (connect_request_answered all_ok relay encrypt friend pool [] [1%Z] 2%Z [3%Z] 9%Z 21%Z).
  - reflexivity.
  - reflexivity.
  - reflexivity.
  - intros x ->%list_elem_of_singleton. reflexivity.
  - reflexivity.
  - by vm_compute.
Defined.

(** Such a run: a tick and a new relay come while relay 2 is tried. *)
Example request_served :
  match run [CpConfigRequest [1; 2]; CpConnectRequest 9; CpTimerTick; CpConfigRequest [1; 3]; CpConnectAttemptDone None;
             CpTimerTick; CpTimerTick; CpTimerTick; CpConnectAttemptDone (Some 21)]%Z with
  | EOk _ s l => l = [CpAttempt 0 2; CpAttempt 1 1; CpRespond 9 21]%Z /\ cp_status s = CpNoRequest
  | _ => False
  end.
Proof. by vm_compute. Qed.

(** A relay is configured while a request waits for one. *)
Lemma connect_pool_accounts_witness :
  let s := mkConnectPool (RA := Z) (R := Z) [] (CpConnecting 1%Z 0 9%Z) 2 1 in
  let l := [CpAttempt (RA := Z) (R := Z) (C := Z) 0 1%Z] in
  [9%Z] = answered l ++ pending s /\
  list_to_set [1%Z] ⊆ known s /\ (size (known s ∖ list_to_set [1%Z]) <= 1)%nat /\
  cp_attempts s = 0 + connecting s + cancelled l /\
  ((exists e, can_happen s 0 e /\ connect_pool_step all_ok e s l = EPanic) <->
   connecting s = 0 /\ (0 < cancelled l)%nat).
Proof.
  intros s l. apply (connect_pool_accounts all_ok 2 s l 0 [9%Z] [1%Z]).
  apply (run_config _ _ (mkConnectPool [] (CpWaiting 0 9%Z) 2 0) [] 0 [9%Z] []); [|by vm_compute].
  apply (run_request _ _ (connect_pool_new 2) [] 0 [] []); [apply run_new|by vm_compute].
Defined.

(** An address that is configured again while it is tried and then removed is
    cancelled; the report of the cancelled attempt makes the pool panic. *)
Example stale_attempt_panics :
  run [CpConfigRequest [1]; CpConnectRequest 9; CpConfigRequest [1]; CpConfigRequest []; CpConnectAttemptDone None]%Z
  = EPanic.
Proof. by vm_compute. Qed.

(** The address that is being tried when it is removed from the configuration is
    tried again afterwards. *)
Example removed_address_stays :
  match run [CpConfigRequest [1]; CpConnectRequest 9; CpConfigRequest [2]; CpConnectAttemptDone None]%Z with
  | EOk _ s _ => cp_addresses s = [2; 1]%Z
  | _ => False
  end.
Proof. by vm_compute. Qed.
End ConnectPoolSamples.
