(* ===== verification/Overwrite.v ===== *)
(** * The channel that keeps the newest message

    Models [channeler/src/overwrite_channel.rs]: a future that forwards messages
    to a sink; a message that waits for the sink is replaced by a newer one. The
    answers of the polled stream and sink are arguments. *)

From S2P Require Import Prelude.

Section Overwrite.
Context {T E : Type}.

(** What polling the stream, and the sink with its [start_send], returns. *)
Inductive RecvPoll := RecvItem (item : T) | RecvEnd | RecvPending.
Inductive SinkPoll := SinkSent | SinkPending | SinkError (e : E).

Inductive Poll := PollOk | PollErr (e : E) | PollPending.

(** [opt_item] and whether the receiver is still there; [sent] is what the sink
    accepted. *)
Record OverwriteChannel := mkOverwriteChannel {
  opt_item : option T;
  opt_receiver : bool;
  sent : list T
}.

Definition overwrite_new : OverwriteChannel := mkOverwriteChannel None true [].

(** Polling the receiver, with [recv_progress]. *)
Definition poll_receiver (s : OverwriteChannel) (r : RecvPoll) : OverwriteChannel * bool :=
  if opt_receiver s then
    match r with
    | RecvItem item => (mkOverwriteChannel (Some item) true (sent s), true)
    | RecvEnd => (mkOverwriteChannel (opt_item s) false (sent s), false)
    | RecvPending => (s, false)
    end
  else (s, false).

(** One iteration of the loop of [poll]: [None] is another iteration. *)
Definition overwrite_iter (s : OverwriteChannel) (r : RecvPoll) (k : SinkPoll) : OverwriteChannel * option Poll :=
  let '(s, recv_progress) := poll_receiver s r in
  match opt_item s with
  | Some item =>
      match k with
      | SinkSent => (mkOverwriteChannel None (opt_receiver s) (sent s ++ [item]), None)
      | SinkPending => (s, if recv_progress then None else Some PollPending)
      | SinkError e => (mkOverwriteChannel None (opt_receiver s) (sent s), Some (PollErr e))
      end
  | None => (s, if opt_receiver s then Some PollPending else Some PollOk)
  end.

(** One poll: the stream has [available] items and is then pending or at its end;
    [sink] answers the iterations. [None] is a loop that has not ended. *)
Fixpoint overwrite_poll (fuel : nat) (s : OverwriteChannel) (available : list T) (ended : bool) (sink : nat -> SinkPoll) :
  OverwriteChannel * list T * option Poll :=
  match fuel with
  | O => (s, available, None)
  | S fuel' =>
      let r := match available with x :: _ => RecvItem x | [] => if ended then RecvEnd else RecvPending end in
      let available' := if opt_receiver s then tail available else available in
      match overwrite_iter s r (sink 0%nat) with
      | (s', Some p) => (s', available', Some p)
      | (s', None) => overwrite_poll fuel' s' available' ended (fun n => sink (S n))
      end
  end.

(** A run: the iterations of any number of polls, until the future ends. *)
Fixpoint overwrite_run (s : OverwriteChannel) (answers : list (RecvPoll * SinkPoll)) : OverwriteChannel * option Poll :=
  match answers with
  | [] => (s, None)
  | (r, k) :: answers' =>
      match overwrite_iter s r k with
      | (s', Some PollOk) => (s', Some PollOk)
      | (s', Some (PollErr e)) => (s', Some (PollErr e))
      | (s', _) => overwrite_run s' answers'
      end
  end.

(** The items a run takes from the receiver. *)
Fixpoint received (s : OverwriteChannel) (answers : list (RecvPoll * SinkPoll)) : list T :=
  match answers with
  | [] => []
  | (r, k) :: answers' =>
      let got := match r with RecvItem x => if opt_receiver s then [x] else [] | _ => [] end in
      match overwrite_iter s r k with
      | (s', Some PollOk) | (s', Some (PollErr _)) => got
      | (s', _) => got ++ received s' answers'
      end
  end.

(** What was taken so far, against what was sent or waits. *)
Definition kept_newest (taken : list T) (s : OverwriteChannel) : Prop :=
  sublist (sent s ++ option_list (opt_item s)) taken /\ last (sent s ++ option_list (opt_item s)) = last taken.

Lemma overwrite_iter_keeps s r k s' o taken :
  kept_newest taken s -> overwrite_iter s r k = (s', o) ->
  let taken' := taken ++ match r with RecvItem x => if opt_receiver s then [x] else [] | _ => [] end in
  match o with
  | Some (PollErr _) => sublist (sent s') taken'
  | Some PollOk => kept_newest taken' s' /\ opt_item s' = None /\ opt_receiver s' = false
  | _ => kept_newest taken' s'
  end.
Proof.
  intros [Hsub Hlast] Hi. unfold overwrite_iter in Hi. destruct (poll_receiver s r) as [s1 pr] eqn:Hp.
  assert (kept_newest (taken ++ match r with RecvItem x => if opt_receiver s then [x] else [] | _ => [] end) s1) as Hk.
  { unfold poll_receiver in Hp. destruct (opt_receiver s) eqn:Hr, r; simplify_eq/=; rewrite ?app_nil_r; try done.
    split; simpl; [|by rewrite !last_snoc]. apply sublist_app; [|done].
    etransitivity; [|exact Hsub]. by apply sublist_inserts_r. }
  clear Hsub Hlast. destruct Hk as [Hsub Hlast]. destruct (opt_item s1) as [item|] eqn:Hit.
  - destruct k; simplify_eq/=.
    + split; simpl; by rewrite app_nil_r.
    + destruct pr; split; by rewrite Hit.
    + etransitivity; [|exact Hsub]. by apply sublist_inserts_r.
  - simplify_eq/=. destruct (opt_receiver s') eqn:Ho; [split; by rewrite Hit|].
    split_and!; [split; by rewrite Hit|done|done].
Qed.

Lemma overwrite_run_keeps answers s s' o taken :
  kept_newest taken s -> overwrite_run s answers = (s', o) ->
  match o with
  | Some (PollErr _) => sublist (sent s') (taken ++ received s answers)
  | Some PollOk => kept_newest (taken ++ received s answers) s' /\ opt_item s' = None /\ opt_receiver s' = false
  | _ => kept_newest (taken ++ received s answers) s'
  end.
Proof.
  revert s taken. induction answers as [|[r k] answers IH]; intros s taken Hk; simpl.
  - intros [= <- <-]. by rewrite app_nil_r.
  - destruct (overwrite_iter s r k) as [s1 o1] eqn:Hi. pose proof (overwrite_iter_keeps _ _ _ _ _ _ Hk Hi) as H1.
    destruct o1 as [[|e|]|]; simpl in H1; intros Hrun.
    + injection Hrun as <- <-. done.
    + injection Hrun as <- <-. done.
    + rewrite app_assoc. by apply IH.
    + rewrite app_assoc. by apply IH.
Qed.

Lemma overwrite_poll_ends fuel s available ended sink :
  (2 * length available + length (option_list (opt_item s)) < fuel)%nat ->
  (overwrite_poll fuel s available ended sink).2 <> None.
Proof.
  revert s available sink. induction fuel as [|fuel IH]; intros s available sink Hf; [lia|].
  cbn [overwrite_poll]. unfold overwrite_iter, poll_receiver.
  destruct s as [item receiver out], receiver, available as [|x available], item as [y|], ended, (sink 0) eqn:Hk;
    simpl in *; try done; apply IH; simpl; lia.
Qed.
End Overwrite.
Arguments OverwriteChannel T : clear implicits.
Arguments RecvPoll T : clear implicits.
Arguments SinkPoll E : clear implicits.

(** C33. However the stream and the sink behave, what reaches the sink is a
    subsequence of what came from the stream, in the same order; when the future
    completes, the stream has ended and the last message of the stream is the
    last one sent. A poll ends as soon as the stream has no more items ready. *)
Theorem overwrite_keeps_newest {T E : Type} (answers : list (RecvPoll T * SinkPoll E)) :
  let '(s, o) := overwrite_run overwrite_new answers in
  let items := received overwrite_new answers in
  sublist (sent s) items /\
  (o = Some PollOk -> last (sent s) = last items /\ opt_receiver s = false) /\
  forall available ended (sink : nat -> SinkPoll E),
    (overwrite_poll (2 * length available + 2) s available ended sink).2 <> None.
Proof.
  destruct (overwrite_run overwrite_new answers) as [s o] eqn:Hrun.
  assert (kept_newest [] (@overwrite_new T)) as H0 by done.
  pose proof (overwrite_run_keeps _ _ _ _ [] H0 Hrun) as Hk. simpl in Hk. split_and!.
  - destruct o as [[|e|]|]; simpl in Hk; [destruct Hk as [Hk _]|done|..];
      (etransitivity; [|exact (proj1 Hk)]); by apply sublist_inserts_r.
  - intros ->. destruct Hk as ([_ Hl] & Hi & Hr). rewrite Hi in Hl. simpl in Hl. by rewrite app_nil_r in Hl.
  - intros available ended sink. apply overwrite_poll_ends. destruct (opt_item s); simpl; lia.
Qed.

(** Messages 1 to 4 while the sink is busy: 1 and 4 are sent. *)
Example overwrite_run_sample :
  overwrite_run (E := Empty_set) overwrite_new
    [(RecvItem 1, SinkSent); (RecvItem 2, SinkPending); (RecvPending, SinkPending); (RecvItem 3, SinkPending);
     (RecvItem 4, SinkPending); (RecvEnd, SinkPending); (RecvPending, SinkSent); (RecvPending, SinkSent)]
  = (mkOverwriteChannel None false [1; 4], Some PollOk).
Proof. reflexivity. Qed.
