(* ===== verification/Channeler.v ===== *)
(** * The channeler

    Models [channeler/src/inner_loop.rs]: connections to friends, opened by the
    side with the larger key, as the funder asks for. The tasks the channeler
    starts are named: connect pools ([ConnectPool]), the tasks that wait for a
    connection from a pool, and connections, each with a task that sends (the
    [Overwrite] channel) and one that receives. What they report comes back as
    events. *)

From S2P Require Import Prelude Arith Bytes Effects ListenPool.

Inductive FunderToChanneler (RA : Type) :=
| FtcMessage (public_key : PublicKey) (message : bytes)
| FtcSetRelays (addresses : list RA)
| FtcUpdateFriend (friend_public_key : PublicKey) (friend_relays local_relays : list RA)
| FtcRemoveFriend (friend_public_key : PublicKey).
Arguments FtcMessage {RA}. Arguments FtcSetRelays {RA}. Arguments FtcUpdateFriend {RA}. Arguments FtcRemoveFriend {RA}.

Inductive ChannelerToFunder :=
| CtfOnline (public_key : PublicKey)
| CtfOffline (public_key : PublicKey)
| CtfMessage (public_key : PublicKey) (data : bytes).

Inductive FriendEvent :=
| FeIncomingMessage (public_key : PublicKey) (data : bytes)
| FeReceiverClosed (public_key : PublicKey).

Inductive ChannelerEvent (RA : Type) :=
| CevFromFunder (m : FunderToChanneler RA)
| CevConnection (public_key : PublicKey) (conn : nat)
| CevFriendEvent (e : FriendEvent)
| CevListenerClosed
| CevFunderClosed.
Arguments CevFromFunder {RA}. Arguments CevConnection {RA}. Arguments CevFriendEvent {RA}.
Arguments CevListenerClosed {RA}. Arguments CevFunderClosed {RA}.

Inductive ChannelerError :=
| ChSpawnError | ChListenerError | ChSendToFunderFailed | ChAddressSendFailed | ChSendConnectionEstablishedFailed
| ChSendAccessControlFailed | ChListenerConfigError | ChListenerClosed | ChFunderClosed | ChConnectorConfigError.

(** The sending half of a connection; [fc_sender] is whether it is still there. *)
Record FriendConnected := mkFriendConnected { fc_conn : nat; fc_sender : bool }.
Inductive InFriend := InListening | InConnected (fc : FriendConnected).
Inductive OutFriendStatus := OutConnecting | OutConnected (fc : FriendConnected).
(** [of_pool] names the pool of both clients of the friend. *)
Record OutFriend := mkOutFriend { of_pool : nat; of_status : OutFriendStatus }.

Record Friends := mkFriends { in_friends : gmap PublicKey InFriend; out_friends : gmap PublicKey OutFriend }.

Inductive ChannelerAction (RA : Type) :=
| ChToFunder (m : ChannelerToFunder)
| ChListenConfig (c : LpConfig RA PublicKey)
| ChNewPool (pool : nat) (public_key : PublicKey)
| ChConnect (task pool : nat) (public_key : PublicKey)
| ChPoolConfig (pool : nat) (config : list RA)
| ChOverwrite (conn : nat)
| ChReceiver (conn : nat) (public_key : PublicKey)
| ChSend (conn : nat) (message : bytes)
| ChSendFailed (conn : nat).
Arguments ChToFunder {RA}. Arguments ChListenConfig {RA}. Arguments ChNewPool {RA}. Arguments ChConnect {RA}.
Arguments ChPoolConfig {RA}. Arguments ChOverwrite {RA}. Arguments ChReceiver {RA}. Arguments ChSend {RA}.
Arguments ChSendFailed {RA}.

(** [ch_pools] and [ch_tasks] count the pools and connecting tasks started. *)
Record Channeler := mkChanneler {
  ch_local_public_key : PublicKey;
  ch_friends : Friends;
  ch_pools : nat;
  ch_tasks : nat
}.

Section Channeler.
Context `{CryptoOps} {RA : Type}.
Notation M := (Eff Channeler ChannelerError (ChannelerAction RA)).
Variable ok : nat -> bool.

Definition channeler_new (local_public_key : PublicKey) : Channeler :=
  mkChanneler local_public_key (mkFriends ∅ ∅) 0 0.

Definition is_listen_friend (local_public_key friend_public_key : PublicKey) : bool :=
  match compare_public_key local_public_key friend_public_key with Lt => true | _ => false end.

Definition put_in (f : gmap PublicKey InFriend -> gmap PublicKey InFriend) : M unit :=
  let* s := eget in
  eput (mkChanneler (ch_local_public_key s) (mkFriends (f (in_friends (ch_friends s))) (out_friends (ch_friends s)))
          (ch_pools s) (ch_tasks s)).
Definition put_out (f : gmap PublicKey OutFriend -> gmap PublicKey OutFriend) : M unit :=
  let* s := eget in
  eput (mkChanneler (ch_local_public_key s) (mkFriends (in_friends (ch_friends s)) (f (out_friends (ch_friends s))))
          (ch_pools s) (ch_tasks s)).

Definition connect_out_friend (friend_public_key : PublicKey) : M unit :=
  let* s := eget in
  match out_friends (ch_friends s) !! friend_public_key with
  | None => epanic
  | Some out_friend =>
      let* _ := emit ok ChSpawnError (ChConnect (ch_tasks s) (of_pool out_friend) friend_public_key) in
      eput (mkChanneler (ch_local_public_key s) (ch_friends s) (ch_pools s) (S (ch_tasks s)))
  end.

(** [self.connector.transform(friend_public_key)]: a new pool. *)
Definition create_pool (friend_public_key : PublicKey) : M nat := fun s l =>
  EOk (ch_pools s) (mkChanneler (ch_local_public_key s) (ch_friends s) (S (ch_pools s)) (ch_tasks s))
    (l ++ [ChNewPool (ch_pools s) friend_public_key]).

Definition try_create_friend (friend_public_key : PublicKey) : M unit :=
  let* s := eget in
  if decide (is_Some (in_friends (ch_friends s) !! friend_public_key) \/
             is_Some (out_friends (ch_friends s) !! friend_public_key)) then eret tt
  else if is_listen_friend (ch_local_public_key s) friend_public_key then
    put_in <[friend_public_key := InListening]>
  else
    let* pool := create_pool friend_public_key in
    let* _ := put_out <[friend_public_key := mkOutFriend pool OutConnecting]> in
    connect_out_friend friend_public_key.

(** [Connected::send]: the sender is dropped when it fails. *)
Definition connected_send (fc : FriendConnected) (message : bytes) : M FriendConnected := fun s l =>
  if fc_sender fc then
    if ok (length l) then EOk fc s (l ++ [ChSend (fc_conn fc) message])
    else EOk (mkFriendConnected (fc_conn fc) false) s (l ++ [ChSendFailed (fc_conn fc)])
  else EOk fc s l.

(** [get_friend_connected] and a send through it. *)
Definition send_to_friend (public_key : PublicKey) (message : bytes) : M unit :=
  let* s := eget in
  match in_friends (ch_friends s) !! public_key with
  | Some (InConnected fc) =>
      let* fc := connected_send fc message in put_in <[public_key := InConnected fc]>
  | _ =>
      match out_friends (ch_friends s) !! public_key with
      | Some (mkOutFriend pool (OutConnected fc)) =>
          let* fc := connected_send fc message in put_out <[public_key := mkOutFriend pool (OutConnected fc)]>
      | _ => eret tt
      end
  end.

Definition ch_handle_from_funder (m : FunderToChanneler RA) : M unit :=
  match m with
  | FtcMessage public_key message => send_to_friend public_key message
  | FtcSetRelays addresses => emit ok ChListenerConfigError (ChListenConfig (SetLocalAddresses addresses))
  | FtcUpdateFriend friend_public_key friend_relays local_relays =>
      let* _ := try_create_friend friend_public_key in
      let* s := eget in
      match in_friends (ch_friends s) !! friend_public_key with
      | Some _ => emit ok ChListenerConfigError (ChListenConfig (UpdateFriend friend_public_key local_relays))
      | None =>
          match out_friends (ch_friends s) !! friend_public_key with
          | Some out_friend => emit ok ChConnectorConfigError (ChPoolConfig (of_pool out_friend) friend_relays)
          | None => eret tt
          end
      end
  | FtcRemoveFriend friend_public_key =>
      let* s := eget in
      match in_friends (ch_friends s) !! friend_public_key with
      | Some _ =>
          let* _ := put_in (delete friend_public_key) in
          emit ok ChListenerConfigError (ChListenConfig (RemoveFriend friend_public_key))
      | None => put_out (delete friend_public_key)
      end
  end.

(** Starting the receiving task and reporting the friend as online. *)
Definition start_receiver (friend_public_key : PublicKey) (conn : nat) : M unit :=
  let* _ := emit ok ChSpawnError (ChReceiver conn friend_public_key) in
  emit ok ChSendToFunderFailed (ChToFunder (CtfOnline friend_public_key)).

Definition handle_connection (friend_public_key : PublicKey) (conn : nat) : M unit :=
  let* _ := emit ok ChSpawnError (ChOverwrite conn) in
  let* s := eget in
  match in_friends (ch_friends s) !! friend_public_key with
  | Some (InConnected _) => eret tt
  | Some InListening =>
      let* _ := put_in <[friend_public_key := InConnected (mkFriendConnected conn true)]> in
      start_receiver friend_public_key conn
  | None =>
      match out_friends (ch_friends s) !! friend_public_key with
      | Some (mkOutFriend _ (OutConnected _)) => eret tt
      | Some (mkOutFriend pool OutConnecting) =>
          let* _ := put_out <[friend_public_key := mkOutFriend pool (OutConnected (mkFriendConnected conn true))]> in
          start_receiver friend_public_key conn
      | None => eret tt
      end
  end.

Definition handle_friend_event (e : FriendEvent) : M unit :=
  match e with
  | FeIncomingMessage friend_public_key data =>
      emit ok ChSendToFunderFailed (ChToFunder (CtfMessage friend_public_key data))
  | FeReceiverClosed friend_public_key =>
      let* _ := emit ok ChSendToFunderFailed (ChToFunder (CtfOffline friend_public_key)) in
      let* s := eget in
      match in_friends (ch_friends s) !! friend_public_key with
      | Some _ => put_in <[friend_public_key := InListening]>
      | None =>
          match out_friends (ch_friends s) !! friend_public_key with
          | Some out_friend =>
              let* _ := put_out <[friend_public_key := mkOutFriend (of_pool out_friend) OutConnecting]> in
              connect_out_friend friend_public_key
          | None => eret tt
          end
      end
  end.

Definition channeler_step (e : ChannelerEvent RA) : M unit :=
  match e with
  | CevFromFunder m => ch_handle_from_funder m
  | CevConnection public_key conn => handle_connection public_key conn
  | CevFriendEvent friend_event => handle_friend_event friend_event
  | CevListenerClosed => efail ChListenerClosed
  | CevFunderClosed => efail ChFunderClosed
  end.

Definition channeler_loop_inner (events : list (ChannelerEvent RA)) : M unit := efor events channeler_step.
End Channeler.
