(* ===== verification/ChannelerTheory.v ===== *)
(** * Theory of the channeler

    Runs of the channeler together with the tasks it started, and what the funder
    learns about its friends. *)

From S2P Require Import Prelude Arith Bytes Effects ListenPool ConnectPool Channeler.

(** ** Named tasks that report once *)
Section Named.
Context {A : Type}.

(** The tasks of [l] whose subject satisfies [P] and that are not in [D]. *)
Definition open_tasks (P : A -> Prop) `{!forall a, Decision (P a)} (D : gset nat) (l : list (nat * A)) : list (nat * A) :=
  filter (fun x => P x.2 /\ x.1 ∉ D) l.

Context (P : A -> Prop) `{!forall a, Decision (P a)}.

Lemma open_tasks_app D l1 l2 : open_tasks P D (l1 ++ l2) = open_tasks P D l1 ++ open_tasks P D l2.
Proof. apply filter_app. Qed.

Lemma elem_of_open_tasks D l c a : (c, a) ∈ open_tasks P D l <-> (c, a) ∈ l /\ P a /\ c ∉ D.
Proof. unfold open_tasks. rewrite list_elem_of_filter. simpl. tauto. Qed.

Lemma open_tasks_cons D x l :
  open_tasks P D (x :: l) = (if decide (P x.2 /\ x.1 ∉ D) then [x] else []) ++ open_tasks P D l.
Proof. unfold open_tasks. rewrite filter_cons. by destruct (decide _). Qed.

Lemma open_tasks_skip D l c : c ∉ l.*1 -> open_tasks P ({[c]} ∪ D) l = open_tasks P D l.
Proof.
  induction l as [|[c' a] l IH]; [done|]. rewrite fmap_cons. intros Hc. apply not_elem_of_cons in Hc as [Hne Hc].
  rewrite !open_tasks_cons, IH by done. simpl in *. f_equal.
  destruct (decide (P a /\ c' ∉ D)) as [?|Hn]; [rewrite decide_True by set_solver; done|].
  rewrite decide_False; [done|]. set_solver.
Qed.

(** A task that reports leaves the open tasks of its subject. *)
Lemma open_tasks_close D l c a :
  NoDup l.*1 -> (c, a) ∈ open_tasks P D l ->
  exists l1 l2, open_tasks P D l = l1 ++ (c, a) :: l2 /\ open_tasks P ({[c]} ∪ D) l = l1 ++ l2.
Proof.
  induction l as [|[c' a'] l IH]; intros Hnd Hin; [by apply elem_of_nil in Hin|].
  apply NoDup_cons in Hnd as [Hc' Hnd]. pose proof Hin as Hin'. apply elem_of_open_tasks in Hin' as (Hin' & Ha & HcD).
  destruct (decide (c = c')) as [<-|Hne].
  - assert (a = a') as <-.
    { apply elem_of_cons in Hin' as [[= <-]|Hin']; [done|]. destruct Hc'. apply list_elem_of_fmap. by exists (c, a). }
    exists [], (open_tasks P D l). rewrite !open_tasks_cons. simpl.
    rewrite decide_True by done. rewrite decide_False by set_solver. by rewrite open_tasks_skip.
  - rewrite open_tasks_cons in Hin. apply elem_of_app in Hin as [Hin|Hin].
    { destruct (decide _); [|by apply elem_of_nil in Hin]. apply list_elem_of_singleton in Hin. congruence. }
    destruct (IH Hnd Hin) as (l1 & l2 & H1 & H2). rewrite !open_tasks_cons, H1, H2. simpl.
    exists ((if decide (P a' /\ c' ∉ D) then [(c', a')] else []) ++ l1), l2. rewrite <- app_assoc. split; [done|].
    rewrite app_assoc. do 2 f_equal.
    destruct (decide (P a' /\ c' ∉ D)) as [?|Hn]; [rewrite decide_True by set_solver; done|].
    rewrite decide_False; [done|]. set_solver.
Qed.

(** It does not change the open tasks of others. *)
Lemma open_tasks_other D l c a :
  NoDup l.*1 -> (c, a) ∈ l -> ~ P a -> open_tasks P ({[c]} ∪ D) l = open_tasks P D l.
Proof.
  induction l as [|[c' a'] l IH]; intros Hnd Hin Ha; [done|]. apply NoDup_cons in Hnd as [Hc' Hnd].
  rewrite !open_tasks_cons. simpl. apply elem_of_cons in Hin as [[= <- <-]|Hin].
  - rewrite !decide_False by tauto. by apply open_tasks_skip.
  - rewrite IH by done. f_equal. assert (c <> c') as Hne.
    { intros <-. apply Hc'. apply list_elem_of_fmap. by exists (c, a). }
    destruct (decide (P a' /\ c' ∉ D)) as [?|Hn]; [rewrite decide_True by set_solver; done|].
    rewrite decide_False; [done|]. set_solver.
Qed.
End Named.

(** ** Runs of the channeler with its tasks *)
Section Runs.
Context `{CryptoOps} {RA : Type}.
Variable ok : nat -> bool.
Notation log := (list (ChannelerAction RA)).

(** The receiving tasks, the connecting tasks and the reports of a log. *)
Definition receivers (l : log) : list (nat * PublicKey) :=
  omap (fun a => match a with ChReceiver c pk => Some (c, pk) | _ => None end) l.
Definition connects (l : log) : list (nat * (nat * PublicKey)) :=
  omap (fun a => match a with ChConnect t pool pk => Some (t, (pool, pk)) | _ => None end) l.
Definition reports (l : log) (pk : PublicKey) : list bool :=
  omap (fun a => match a with
                 | ChToFunder (CtfOnline pk') => if decide (pk' = pk) then Some true else None
                 | ChToFunder (CtfOffline pk') => if decide (pk' = pk) then Some false else None
                 | _ => None
                 end) l.

(** The receivers of [pk] that have not closed, and the tasks for [pk] that wait
    for a connection. *)
Definition live (l : log) (closed : gset nat) (pk : PublicKey) : list (nat * PublicKey) :=
  open_tasks (fun pk' => pk' = pk) closed (receivers l).
Definition waiting (l : log) (finished : gset nat) (pk : PublicKey) : list (nat * (nat * PublicKey)) :=
  open_tasks (fun x => x.2 = pk) finished (connects l).

Definition is_friend (s : Channeler) (pk : PublicKey) : Prop :=
  is_Some (in_friends (ch_friends s) !! pk) \/ is_Some (out_friends (ch_friends s) !! pk).

(** When [settled], a friend is added again only after the tasks of its former
    connection have ended, and a pool answers unless it was dropped. *)
Inductive channeler_run (local : PublicKey) (settled : bool) : Channeler -> log -> gset nat -> gset nat -> Prop :=
| run_start : channeler_run local settled (channeler_new local) [] ∅ ∅
| run_funder s l closed finished m s' l' :
    channeler_run local settled s l closed finished ->
    match m with
    | FtcUpdateFriend pk _ _ => settled = true -> is_friend s pk \/ live l closed pk = [] /\ waiting l finished pk = []
    | _ => True
    end ->
    channeler_step ok (CevFromFunder m) s l = EOk tt s' l' ->
    channeler_run local settled s' l' closed finished
| run_listener s l closed finished pk c s' l' :
    channeler_run local settled s l closed finished ->
    is_listen_friend local pk = true -> c ∉ (receivers l).*1 -> c ∉ closed ->
    channeler_step ok (CevConnection pk c) s l = EOk tt s' l' ->
    channeler_run local settled s' l' closed finished
| run_connected s l closed finished t pool pk c s' l' :
    channeler_run local settled s l closed finished ->
    (t, (pool, pk)) ∈ waiting l finished pk -> c ∉ (receivers l).*1 -> c ∉ closed ->
    channeler_step ok (CevConnection pk c) s l = EOk tt s' l' ->
    channeler_run local settled s' l' closed ({[t]} ∪ finished)
| run_connect_failed s l closed finished t pool pk :
    channeler_run local settled s l closed finished ->
    (t, (pool, pk)) ∈ waiting l finished pk ->
    (settled = true -> of_pool <$> out_friends (ch_friends s) !! pk <> Some pool) ->
    channeler_run local settled s l closed ({[t]} ∪ finished)
| run_incoming s l closed finished c pk data s' l' :
    channeler_run local settled s l closed finished ->
    (c, pk) ∈ live l closed pk ->
    channeler_step ok (CevFriendEvent (FeIncomingMessage pk data)) s l = EOk tt s' l' ->
    channeler_run local settled s' l' closed finished
| run_closed s l closed finished c pk s' l' :
    channeler_run local settled s l closed finished ->
    (c, pk) ∈ live l closed pk ->
    channeler_step ok (CevFriendEvent (FeReceiverClosed pk)) s l = EOk tt s' l' ->
    channeler_run local settled s' l' ({[c]} ∪ closed) finished.

(** *** The invariant *)

(** The reports of a friend, replayed: online and offline alternate. *)
Definition replay_report (o : option bool) (online : bool) : option bool :=
  match o with Some b => if Bool.eqb b online then None else Some online | None => None end.
Definition replay_reports (bs : list bool) : option bool := foldl replay_report (Some false) bs.
Definition count (b : bool) (bs : list bool) : nat :=
  foldr (fun x n => (if Bool.eqb x b then 1 else 0) + n) 0 bs.

Definition friend_ok (settled : bool) (s : Channeler) (l : log) (closed finished : gset nat) (pk : PublicKey) : Prop :=
  match in_friends (ch_friends s) !! pk, out_friends (ch_friends s) !! pk with
  | Some _, Some _ => False
  | Some st, None => is_listen_friend (ch_local_public_key s) pk = true /\
      match st with
      | InListening => settled = true -> live l closed pk = []
      | InConnected fc => (fc_conn fc, pk) ∈ live l closed pk /\ (settled = true -> live l closed pk = [(fc_conn fc, pk)])
      end
  | None, Some f => is_listen_friend (ch_local_public_key s) pk = false /\
      match of_status f with
      | OutConnecting => settled = true -> live l closed pk = [] /\ exists t, waiting l finished pk = [(t, (of_pool f, pk))]
      | OutConnected fc => (fc_conn fc, pk) ∈ live l closed pk /\
          (settled = true -> live l closed pk = [(fc_conn fc, pk)] /\ waiting l finished pk = [])
      end
  | None, None => settled = true -> (length (live l closed pk) <= 1)%nat
  end.

Record chan_core (local : PublicKey) (settled : bool) (s : Channeler) (l : log) (closed finished : gset nat) : Prop := {
  co_local : ch_local_public_key s = local;
  co_receivers : NoDup (receivers l).*1;
  co_connects : NoDup (connects l).*1;
  co_listen : forall t pool pk, (t, (pool, pk)) ∈ connects l -> is_listen_friend local pk = false;
  co_tasks : forall t, t ∈ (connects l).*1 \/ t ∈ finished -> (t < ch_tasks s)%nat;
  co_count : forall pk, count true (reports l pk) = count false (reports l pk) + length (live l closed pk);
  co_replay : forall pk, settled = true -> replay_reports (reports l pk) = Some (bool_decide (live l closed pk <> []))
}.

(** The invariant, possibly but for one friend that is being changed. *)
Definition chan_ok (local : PublicKey) (settled : bool) (gap : option PublicKey) (s : Channeler) (l : log)
  (closed finished : gset nat) : Prop :=
  chan_core local settled s l closed finished /\ forall pk, gap <> Some pk -> friend_ok settled s l closed finished pk.

Implicit Types (s : Channeler) (l : log) (closed finished : gset nat) (pk : PublicKey).

(** Actions that start no task and report nothing about a friend. *)
Definition neutral (a : ChannelerAction RA) : Prop :=
  match a with
  | ChReceiver _ _ | ChConnect _ _ _ | ChToFunder (CtfOnline _) | ChToFunder (CtfOffline _) => False
  | _ => True
  end.

Lemma receivers_app l a : receivers (l ++ [a]) = receivers l ++ match a with ChReceiver c pk => [(c, pk)] | _ => [] end.
Proof. unfold receivers. rewrite omap_app. by destruct a. Qed.
Lemma connects_app l a :
  connects (l ++ [a]) = connects l ++ match a with ChConnect t pool pk => [(t, (pool, pk))] | _ => [] end.
Proof. unfold connects. rewrite omap_app. by destruct a. Qed.
Lemma reports_app l a pk :
  reports (l ++ [a]) pk = reports l pk ++
    match a with
    | ChToFunder (CtfOnline pk') => if decide (pk' = pk) then [true] else []
    | ChToFunder (CtfOffline pk') => if decide (pk' = pk) then [false] else []
    | _ => []
    end.
Proof. unfold reports. rewrite omap_app. destruct a as [[| |]| | | | | | | |]; simpl; try done; by case_decide. Qed.

Lemma neutral_app l a : neutral a ->
  receivers (l ++ [a]) = receivers l /\ connects (l ++ [a]) = connects l /\ forall pk, reports (l ++ [a]) pk = reports l pk.
Proof.
  intros Ha. rewrite receivers_app, connects_app. setoid_rewrite reports_app.
  destruct a as [[| |]| | | | | | | |]; try done; rewrite ?app_nil_r; split_and!; try done; intros pk; by rewrite app_nil_r.
Qed.

Lemma friend_ok_same settled s s' l l' closed finished finished' pk :
  ch_local_public_key s' = ch_local_public_key s ->
  in_friends (ch_friends s') !! pk = in_friends (ch_friends s) !! pk ->
  out_friends (ch_friends s') !! pk = out_friends (ch_friends s) !! pk ->
  forall closed', live l' closed' pk = live l closed pk -> waiting l' finished' pk = waiting l finished pk ->
  friend_ok settled s l closed finished pk -> friend_ok settled s' l' closed' finished' pk.
Proof. intros Hl Hi Ho closed' Hlv Hw. unfold friend_ok. by rewrite Hl, Hi, Ho, Hlv, Hw. Qed.

Context (local : PublicKey) (settled : bool).
Notation inv := (chan_ok local settled).
Notation fails := (fun (_ : Channeler) (_ : log) => exists i, ok i = false).

Lemma inv_fill s l closed finished pk :
  inv (Some pk) s l closed finished -> friend_ok settled s l closed finished pk -> inv None s l closed finished.
Proof.
  intros [Hc Hf] Hpk. split; [done|]. intros pk' _. destruct (decide (pk' = pk)) as [->|Hne]; [done|]. apply Hf. congruence.
Qed.

Lemma inv_neutral gap s l closed finished a :
  neutral a -> inv gap s l closed finished -> inv gap s (l ++ [a]) closed finished.
Proof.
  intros Ha [[H1 H2 H3 H4 H5 H6 H7] H8]. destruct (neutral_app l a Ha) as (Hr & Hc & Hrep).
  assert (forall pk, live (l ++ [a]) closed pk = live l closed pk) as Hl by (intros; unfold live; by rewrite Hr).
  assert (forall pk, waiting (l ++ [a]) finished pk = waiting l finished pk) as Hw by (intros; unfold waiting; by rewrite Hc).
  split; [split; rewrite ?Hr, ?Hc; try done; intros pk; rewrite ?Hrep, ?Hl; auto|].
  intros pk Hpk. by eapply friend_ok_same; [..|apply H8].
Qed.

(** A change of the state at one friend. *)
Lemma inv_open gap s s' l closed finished pk :
  inv gap s l closed finished -> gap = None \/ gap = Some pk ->
  ch_local_public_key s' = ch_local_public_key s -> ch_tasks s' = ch_tasks s ->
  (forall pk', pk' <> pk -> in_friends (ch_friends s') !! pk' = in_friends (ch_friends s) !! pk' /\
     out_friends (ch_friends s') !! pk' = out_friends (ch_friends s) !! pk') -> inv (Some pk) s' l closed finished.
Proof.
  intros [[H1 H2 H3 H4 H5 H6 H7] H8] Hgap Hl Ht Hother. split; [split; rewrite ?Hl, ?Ht; done|].
  intros pk' Hne. destruct (Hother pk') as [Hi Ho]; [congruence|]. eapply friend_ok_same; [done|done|done|done|done|].
  apply H8. destruct Hgap; congruence.
Qed.

(** Tasks of a friend do not touch the others. *)
Lemma live_new l closed c pk pk' :
  c ∉ closed -> live (l ++ [ChReceiver c pk] ++ [ChToFunder (CtfOnline pk)]) closed pk' =
    live l closed pk' ++ if decide (pk = pk') then [(c, pk)] else [].
Proof.
  intros Hc. unfold live. rewrite app_assoc, !receivers_app, app_nil_r, open_tasks_app. f_equal. rewrite open_tasks_cons.
  simpl. rewrite app_nil_r. destruct (decide (pk = pk')) as [->|Hne]; [by rewrite decide_True|].
  rewrite decide_False; [done|naive_solver].
Qed.

Lemma waiting_new l finished t pool pk pk' :
  t ∉ finished -> waiting (l ++ [ChConnect t pool pk]) finished pk' =
    waiting l finished pk' ++ if decide (pk = pk') then [(t, (pool, pk))] else [].
Proof.
  intros Hc. unfold waiting. rewrite connects_app, open_tasks_app. f_equal. rewrite open_tasks_cons.
  simpl. rewrite app_nil_r. destruct (decide (pk = pk')) as [->|Hne]; [by rewrite decide_True|].
  rewrite decide_False; [done|naive_solver].
Qed.

Lemma inv_connect s s' l closed finished pool pk :
  inv (Some pk) s l closed finished -> ch_local_public_key s' = ch_local_public_key s ->
  ch_friends s' = ch_friends s -> ch_tasks s' = S (ch_tasks s) -> is_listen_friend local pk = false ->
  inv (Some pk) s' (l ++ [ChConnect (ch_tasks s) pool pk]) closed finished.
Proof.
  intros [[H1 H2 H3 H4 H5 H6 H7] H8] Hl Hf Ht Hlis.
  assert (ch_tasks s ∉ finished) as Hfresh by (intros Hin; specialize (H5 _ (or_intror Hin)); lia).
  assert (forall pk', live (l ++ [ChConnect (ch_tasks s) pool pk]) closed pk' = live l closed pk') as Hlive
    by (intros; unfold live; by rewrite receivers_app, app_nil_r).
  split; [split|].
  - congruence.
  - by rewrite receivers_app, app_nil_r.
  - rewrite connects_app, fmap_app. apply NoDup_app. split_and!; [done| |apply NoDup_singleton].
    intros t Hin Ht'. apply list_elem_of_singleton in Ht'. simpl in Ht'. subst t. specialize (H5 _ (or_introl Hin)). lia.
  - intros t pool' pk'. rewrite connects_app. intros [Hin|Hin]%elem_of_app; [by eapply H4|].
    apply list_elem_of_singleton in Hin. by simplify_eq.
  - intros t. rewrite connects_app, fmap_app, elem_of_app, Ht. intros [[Hin|Hin]|Hin]; [|apply list_elem_of_singleton in Hin; simpl in Hin; lia|];
      [specialize (H5 t (or_introl Hin))|specialize (H5 t (or_intror Hin))]; lia.
  - intros pk'. rewrite Hlive, reports_app, app_nil_r. apply H6.
  - intros pk'. rewrite Hlive, reports_app, app_nil_r. apply H7.
  - intros pk' Hne. eapply friend_ok_same; [done|by rewrite Hf|by rewrite Hf|apply Hlive| |by apply H8].
    rewrite waiting_new by done. rewrite decide_False by congruence. by rewrite app_nil_r.
Qed.

Lemma count_app b bs bs' : count b (bs ++ bs') = count b bs + count b bs'.
Proof. induction bs as [|x bs IH]; [done|]. simpl. rewrite IH. lia. Qed.

Lemma inv_receiver s l closed finished c pk :
  inv (Some pk) s l closed finished -> c ∉ (receivers l).*1 -> c ∉ closed ->
  (settled = true -> live l closed pk = []) ->
  inv (Some pk) s (l ++ [ChReceiver c pk] ++ [ChToFunder (CtfOnline pk)]) closed finished.
Proof.
  intros [[H1 H2 H3 H4 H5 H6 H7] H8] Hc Hcl Hlive.
  assert (connects (l ++ [ChReceiver c pk] ++ [ChToFunder (CtfOnline pk)]) = connects l) as Hcon
    by (by rewrite app_assoc, !connects_app, !app_nil_r).
  assert (forall pk', reports (l ++ [ChReceiver c pk] ++ [ChToFunder (CtfOnline pk)]) pk' =
            reports l pk' ++ if decide (pk = pk') then [true] else []) as Hrep
    by (intros; by rewrite app_assoc, !reports_app, app_nil_r).
  split; [split|]; rewrite ?Hcon; try done.
  - rewrite app_assoc, !receivers_app, app_nil_r, fmap_app. apply NoDup_app. split_and!; [done| |apply NoDup_singleton].
    intros c' Hin Hc'. apply list_elem_of_singleton in Hc'. simpl in Hc'. congruence.
  - intros pk'. rewrite Hrep, live_new, !count_app, length_app, H6 by done. case_decide; simpl; lia.
  - intros pk' Hs. rewrite Hrep, live_new by done. unfold replay_reports. rewrite foldl_app.
    change (foldl replay_report (Some false) (reports l pk')) with (replay_reports (reports l pk')). rewrite H7 by done.
    destruct (decide (pk = pk')) as [<-|Hne]; simpl; [|by rewrite app_nil_r]. by rewrite (Hlive Hs).
  - intros pk' Hne. eapply friend_ok_same; [done|done|done| | |by apply H8].
    + rewrite live_new by done. rewrite decide_False by congruence. by rewrite app_nil_r.
    + unfold waiting. by rewrite Hcon.
Qed.

Lemma inv_finish s l closed finished t pool pk :
  inv None s l closed finished -> (t, (pool, pk)) ∈ waiting l finished pk ->
  inv (Some pk) s l closed ({[t]} ∪ finished).
Proof.
  intros [[H1 H2 H3 H4 H5 H6 H7] H8] Hin. apply elem_of_open_tasks in Hin as (Hin & _ & _).
  split; [split; try done|].
  - intros t' [Ht'|[Ht'|Ht']%elem_of_union]; [by apply H5; left| |by apply H5; right].
    apply elem_of_singleton in Ht'. subst t'. apply H5. left. apply list_elem_of_fmap. by exists (t, (pool, pk)).
  - intros pk' Hne. eapply friend_ok_same; [done|done|done|done| |by apply H8].
    unfold waiting. eapply open_tasks_other; [done|done|]. simpl. congruence.
Qed.

Lemma live_single s l closed finished c pk :
  inv None s l closed finished -> settled = true -> (c, pk) ∈ live l closed pk -> live l closed pk = [(c, pk)].
Proof.
  intros [_ Hf] Hs Hin. specialize (Hf pk ltac:(done)). unfold friend_ok in Hf.
  assert (length (live l closed pk) <= 1)%nat as Hlen.
  { destruct (in_friends (ch_friends s) !! pk) as [[|fc]|], (out_friends (ch_friends s) !! pk) as [[pool [|fc']]|];
      simpl in Hf; try done.
    - rewrite (proj2 Hf Hs). simpl. lia.
    - rewrite (proj2 (proj2 Hf) Hs). simpl. lia.
    - rewrite (proj1 (proj2 Hf Hs)). simpl. lia.
    - rewrite (proj1 (proj2 (proj2 Hf) Hs)). simpl. lia.
    - exact (Hf Hs). }
  destruct (live l closed pk) as [|x [|y r]]; [by apply elem_of_nil in Hin|apply list_elem_of_singleton in Hin; by subst|simpl in Hlen; lia].
Qed.

Lemma inv_offline s l closed finished c pk :
  inv None s l closed finished -> (c, pk) ∈ live l closed pk ->
  inv (Some pk) s (l ++ [ChToFunder (CtfOffline pk)]) ({[c]} ∪ closed) finished /\
  (settled = true -> live (l ++ [ChToFunder (CtfOffline pk)]) ({[c]} ∪ closed) pk = []).
Proof.
  intros Hi Hin. pose proof (fun Hs => live_single _ _ _ _ _ _ Hi Hs Hin) as Hsingle. destruct Hi as [[H1 H2 H3 H4 H5 H6 H7] H8].
  pose proof (proj1 (elem_of_open_tasks _ _ _ _ _) Hin) as (Hrec & _ & Hcl).
  destruct (open_tasks_close (fun pk' => pk' = pk) closed (receivers l) c pk H2 Hin) as (l1 & l2 & Hbefore & Hafter).
  assert (forall pk', pk' <> pk -> live (l ++ [ChToFunder (CtfOffline pk)]) ({[c]} ∪ closed) pk' = live l closed pk') as Hother.
  { intros pk' Hne. unfold live. rewrite receivers_app, app_nil_r. eapply open_tasks_other; [done|done|congruence]. }
  assert (live (l ++ [ChToFunder (CtfOffline pk)]) ({[c]} ∪ closed) pk = l1 ++ l2) as Hpk
    by (unfold live; by rewrite receivers_app, app_nil_r).
  assert (settled = true -> l1 ++ l2 = []) as Hnil.
  { intros Hs. specialize (Hsingle Hs). unfold live in Hsingle. rewrite Hbefore in Hsingle.
    destruct l1 as [|x l1]; [by injection Hsingle as ->|]. exfalso. injection Hsingle as _ Hx. by destruct l1. }
  split; [split; [split|]|by rewrite Hpk]; rewrite ?receivers_app, ?connects_app, ?app_nil_r; try done.
  - intros pk'. rewrite reports_app, !count_app, H6. destruct (decide (pk = pk')) as [<-|Hne].
    + rewrite Hpk. unfold live. rewrite Hbefore, !length_app. simpl. lia.
    + rewrite Hother by done. simpl. lia.
  - intros pk' Hs. rewrite reports_app. unfold replay_reports. rewrite foldl_app.
    change (foldl replay_report (Some false) (reports l pk')) with (replay_reports (reports l pk')). rewrite H7 by done.
    destruct (decide (pk = pk')) as [<-|Hne]; [|by rewrite Hother].
    rewrite Hpk, (Hnil Hs), (Hsingle Hs). done.
  - intros pk' Hne. eapply friend_ok_same; [done|done|done|by apply Hother; congruence| |by apply H8].
    unfold waiting. by rewrite connects_app, app_nil_r.
Qed.

(** *** The handlers *)

Lemma wp_neutral gap (e : ChannelerError) a s l closed finished : neutral a -> inv gap s l closed finished ->
  wp False fails (emit ok e a) (fun _ s' l' => s' = s /\ inv gap s l' closed finished) s l.
Proof. intros Ha Hi. apply wp_emit_env; [by eexists|]. intros _. split; [done|]. by apply inv_neutral. Qed.

(** Sending a message changes only whether the sender is there. *)
Lemma wp_send_to_friend pk message s l closed finished : inv None s l closed finished ->
  wp False fails (send_to_friend ok pk message) (fun _ s' l' => inv None s' l' closed finished) s l.
Proof.
  intros Hi. unfold send_to_friend. repeat wp_step.
  assert (forall fc Q, (forall snd l', inv None s l' closed finished -> Q (mkFriendConnected (fc_conn fc) snd) s l') ->
            wp False fails (connected_send ok fc message) Q s l) as Hsend.
  { intros [c snd] Q HQ. unfold wp, connected_send. simpl. destruct snd; [destruct (ok (length l))|].
    - by apply HQ, inv_neutral.
    - by apply HQ, inv_neutral.
    - by apply HQ. }
  pose proof (proj2 Hi pk ltac:(done)) as Hpk. unfold friend_ok in Hpk.
  destruct (in_friends (ch_friends s) !! pk) as [[|fc]|] eqn:Ei;
    destruct (out_friends (ch_friends s) !! pk) as [[pool [|fc']]|] eqn:Eo; try done; try by wp_step.
  all: wp_step; apply Hsend; intros snd l' Hi'; unfold put_in, put_out; repeat wp_step.
  all: pose proof (proj2 Hi' pk ltac:(done)) as Hpk'; unfold friend_ok in Hpk'; rewrite Ei, Eo in Hpk'.
  all: apply (inv_fill _ _ _ _ pk);
    [eapply inv_open; [exact Hi'|by left|done|done|intros pk' Hne; simpl; by rewrite ?lookup_insert_ne by done]|].
  all: unfold friend_ok; simpl; rewrite lookup_insert_eq, ?Ei, ?Eo; simpl; exact Hpk'.
Qed.

(** A friend that waits for a connection gets a connecting task. *)
Lemma wp_connect_out_friend pk f s l closed finished :
  inv (Some pk) s l closed finished ->
  out_friends (ch_friends s) !! pk = Some f -> in_friends (ch_friends s) !! pk = None ->
  of_status f = OutConnecting -> is_listen_friend local pk = false ->
  (settled = true -> live l closed pk = [] /\ waiting l finished pk = []) ->
  wp False fails (connect_out_friend ok pk) (fun _ s' l' => inv None s' l' closed finished /\
    ch_friends s' = ch_friends s) s l.
Proof.
  intros Hi Ho Hin Hst Hl Hset. unfold connect_out_friend. repeat wp_step. rewrite Ho. wp_step.
  apply wp_emit_env; [by eexists|]. intros _. wp_step. split; [|done]. apply (inv_fill _ _ _ _ pk).
  - by eapply inv_connect.
  - unfold friend_ok. simpl. rewrite Hin, Ho, (co_local _ _ _ _ _ _ (proj1 Hi)). split; [done|]. rewrite Hst.
    intros Hs. destruct (Hset Hs) as [Hlive Hw]. split; [unfold live in *; by rewrite receivers_app, app_nil_r|].
    exists (ch_tasks s). rewrite waiting_new, Hw, decide_True; [done|done|].
    intros Hf. pose proof (co_tasks _ _ _ _ _ _ (proj1 Hi) _ (or_intror Hf)). lia.
Qed.

Lemma wp_update_channel_friend pk friend_relays local_relays s l closed finished : inv None s l closed finished ->
  (settled = true -> is_friend s pk \/ live l closed pk = [] /\ waiting l finished pk = []) ->
  wp False fails (ch_handle_from_funder ok (FtcUpdateFriend pk friend_relays local_relays))
    (fun _ s' l' => inv None s' l' closed finished) s l.
Proof.
  intros Hi Hadd. cbn [ch_handle_from_funder]. wp_step.
  assert (wp False fails (try_create_friend ok pk) (fun _ s' l' => inv None s' l' closed finished) s l) as Hcreate.
  { unfold try_create_friend. repeat wp_step. case_decide as Hfr; [by wp_step|].
    assert (in_friends (ch_friends s) !! pk = None /\ out_friends (ch_friends s) !! pk = None) as [Ein Eout]
      by (split; apply eq_None_not_Some; tauto).
    assert (settled = true -> live l closed pk = [] /\ waiting l finished pk = []) as Hadd' by (intros Hs; by destruct (Hadd Hs)).
    rewrite (co_local _ _ _ _ _ _ (proj1 Hi)). destruct (is_listen_friend local pk) eqn:Hlis; unfold put_in, put_out.
    - repeat wp_step. apply (inv_fill _ _ _ _ pk).
      + eapply inv_open; [exact Hi|by left|done|done|]. intros pk' Hne. simpl. by rewrite lookup_insert_ne.
      + unfold friend_ok. simpl. rewrite lookup_insert_eq, Eout, (co_local _ _ _ _ _ _ (proj1 Hi)).
        split; [done|]. intros Hs. by destruct (Hadd' Hs).
    - wp_step. unfold wp at 1, create_pool. repeat wp_step. simpl.
      eapply wp_mono; [|apply (wp_connect_out_friend pk (mkOutFriend (ch_pools s) OutConnecting))].
      + intros _ s' l' [Hi' _]. exact Hi'.
      + eapply inv_open; [apply inv_neutral; [done|exact Hi]|by left|done|done|].
        intros pk' Hne. simpl. by rewrite lookup_insert_ne.
      + simpl. by rewrite lookup_insert_eq.
      + done.
      + done.
      + done.
      + unfold live, waiting in *. by rewrite receivers_app, connects_app, !app_nil_r. }
  eapply wp_mono; [|exact Hcreate]. intros [] s1 l1 Hi1. repeat wp_step.
  destruct (in_friends (ch_friends s1) !! pk); [|destruct (out_friends (ch_friends s1) !! pk)]; try by wp_step.
  all: eapply wp_mono; [|by apply wp_neutral]; by intros _ s' l' [-> ?].
Qed.

Lemma wp_remove_channel_friend pk s l closed finished : inv None s l closed finished ->
  wp False fails (ch_handle_from_funder ok (FtcRemoveFriend pk)) (fun _ s' l' => inv None s' l' closed finished) s l.
Proof.
  intros Hi. cbn [ch_handle_from_funder]. repeat wp_step.
  assert (settled = true -> (length (live l closed pk) <= 1)%nat) as Hlen.
  { intros Hs. destruct (live l closed pk) as [|[c pk'] r] eqn:E; [simpl; lia|].
    assert ((c, pk') ∈ live l closed pk) as Hin by (rewrite E; by left).
    assert (pk' = pk) as -> by by apply elem_of_open_tasks in Hin as (_ & ? & _).
    pose proof (live_single _ _ _ _ _ _ Hi Hs Hin) as Hx. rewrite <- E, Hx. simpl. lia. }
  pose proof (proj2 Hi pk ltac:(done)) as Hpk. unfold friend_ok in Hpk.
  destruct (in_friends (ch_friends s) !! pk) eqn:Ei; [destruct (out_friends (ch_friends s) !! pk) eqn:Eo; [done|]|];
    unfold put_in, put_out; repeat wp_step.
  - eapply wp_mono; [|apply (wp_neutral None); [done|]]; [by intros _ s' l' [-> ?]|]. apply (inv_fill _ _ _ _ pk).
    + eapply inv_open; [exact Hi|by left|done|done|]. intros pk' Hne. simpl. by rewrite lookup_delete_ne.
    + unfold friend_ok. simpl. by rewrite lookup_delete_eq, Eo.
  - apply (inv_fill _ _ _ _ pk).
    + eapply inv_open; [exact Hi|by left|done|done|]. intros pk' Hne. simpl. by rewrite lookup_delete_ne.
    + unfold friend_ok. simpl. by rewrite lookup_delete_eq, Ei.
Qed.

Lemma wp_start_receiver pk c s l closed finished :
  inv (Some pk) s l closed finished -> c ∉ (receivers l).*1 -> c ∉ closed ->
  (settled = true -> live l closed pk = []) ->
  (forall l', live l' closed pk = live l closed pk ++ [(c, pk)] -> waiting l' finished pk = waiting l finished pk ->
     friend_ok settled s l' closed finished pk) ->
  wp False fails (start_receiver ok pk c) (fun _ s' l' => inv None s' l' closed finished) s l.
Proof.
  intros Hi Hc Hcl Hlive Hpk. unfold start_receiver. wp_step. apply wp_emit_env; [by eexists|]. intros _.
  apply wp_emit_env; [by eexists|]. intros _. rewrite <- app_assoc. apply (inv_fill _ _ _ _ pk); [by apply inv_receiver|].
  apply Hpk; [rewrite live_new, decide_True; done|]. unfold waiting. by rewrite app_assoc, !connects_app, !app_nil_r.
Qed.

(** What is known of a friend when a connection to it arrives, from the listener
    or from the connecting task, which has ended. *)
Definition conn_ready (s : Channeler) (l : log) (closed finished : gset nat) (pk : PublicKey) : Prop :=
  match in_friends (ch_friends s) !! pk, out_friends (ch_friends s) !! pk with
  | None, Some (mkOutFriend _ OutConnecting) => is_listen_friend (ch_local_public_key s) pk = false /\
      (settled = true -> live l closed pk = [] /\ waiting l finished pk = [])
  | _, _ => friend_ok settled s l closed finished pk
  end.

Lemma conn_ready_neutral s l closed finished pk a :
  neutral a -> conn_ready s l closed finished pk -> conn_ready s (l ++ [a]) closed finished pk.
Proof.
  intros Ha. destruct (neutral_app l a Ha) as (Hr & Hc & _). unfold conn_ready, friend_ok, live, waiting. by rewrite Hr, Hc.
Qed.

Lemma wp_connection pk c s l closed finished :
  inv (Some pk) s l closed finished -> c ∉ (receivers l).*1 -> c ∉ closed -> conn_ready s l closed finished pk ->
  wp False fails (handle_connection ok pk c) (fun _ s' l' => inv None s' l' closed finished) s l.
Proof.
  intros Hi Hc Hcl Hready. unfold handle_connection. wp_step. apply wp_emit_env; [by eexists|]. intros _. repeat wp_step.
  apply (inv_neutral _ _ _ _ _ (ChOverwrite c)) in Hi; [|done].
  apply (conn_ready_neutral _ _ _ _ _ (ChOverwrite c)) in Hready; [|done].
  assert (c ∉ (receivers (l ++ [ChOverwrite c])).*1) as Hc' by by rewrite receivers_app, app_nil_r.
  revert Hi Hc' Hready. generalize (l ++ [ChOverwrite c]). clear l Hc. intros l Hi Hc Hready. unfold conn_ready in Hready.
  destruct (in_friends (ch_friends s) !! pk) as [[|fc]|] eqn:Ei;
    destruct (out_friends (ch_friends s) !! pk) as [[pool [|fc']]|] eqn:Eo;
    try (wp_step; by eapply inv_fill); unfold friend_ok in Hready; rewrite ?Ei, ?Eo in Hready; try done;
    unfold put_in, put_out; repeat wp_step;
    (apply wp_start_receiver; [eapply inv_open; [exact Hi|by right|done|done|intros pk' Hne; simpl; by rewrite lookup_insert_ne]
                              |done|done|naive_solver|]); intros l' Hl' Hw'; unfold friend_ok; simpl.
  - rewrite lookup_insert_eq, Eo. destruct Hready as [Hlis Hset]. split; [done|]. rewrite Hl'. simpl. split; [set_solver|].
    intros Hs. by rewrite (Hset Hs).
  - rewrite Ei, lookup_insert_eq. destruct Hready as [Hlis Hset]. split; [done|]. simpl. rewrite Hl', Hw'.
    split; [set_solver|]. intros Hs. destruct (Hset Hs) as [-> ->]. done.
Qed.

Lemma wp_receiver_closed pk c s l closed finished :
  inv None s l closed finished -> (c, pk) ∈ live l closed pk ->
  wp False fails (handle_friend_event ok (FeReceiverClosed pk)) (fun _ s' l' => inv None s' l' ({[c]} ∪ closed) finished) s l.
Proof.
  intros Hi Hin. cbn [handle_friend_event]. wp_step. apply wp_emit_env; [by eexists|]. intros _. repeat wp_step.
  pose proof (proj2 Hi pk ltac:(done)) as Hpk. unfold friend_ok in Hpk.
  destruct (inv_offline _ _ _ _ _ _ Hi Hin) as [Hi' Hlive].
  assert (waiting (l ++ [ChToFunder (CtfOffline pk)]) finished pk = waiting l finished pk) as Hw
    by (unfold waiting; by rewrite connects_app, app_nil_r).
  destruct (in_friends (ch_friends s) !! pk) as [st|] eqn:Ei; destruct (out_friends (ch_friends s) !! pk) as [[pool fst]|] eqn:Eo;
    try done; unfold put_in, put_out; repeat wp_step.
  - apply (inv_fill _ _ _ _ pk); [eapply inv_open; [exact Hi'|by right|done|done|]|].
    + intros pk' Hne. simpl. by rewrite lookup_insert_ne.
    + unfold friend_ok. simpl. rewrite lookup_insert_eq, Eo. split; [apply Hpk|done].
  - eapply wp_mono; [|eapply (wp_connect_out_friend pk (mkOutFriend pool OutConnecting));
      [eapply inv_open; [exact Hi'|by right|done|done|]|..]]; simpl; try done.
    + by intros _ s' l' [? _].
    + intros pk' Hne. simpl. by rewrite lookup_insert_ne.
    + by rewrite lookup_insert_eq.
    + destruct Hpk as [Hpk _]. by rewrite <- (co_local _ _ _ _ _ _ (proj1 Hi)).
    + intros Hs. rewrite Hw. split; [by apply Hlive|]. destruct Hpk as [_ Hpk]. simpl in Hpk. destruct fst as [|fc].
      * destruct (Hpk Hs) as [Hnil _]. rewrite Hnil in Hin. by apply elem_of_nil in Hin.
      * by destruct Hpk as [_ Hpk]; destruct (Hpk Hs).
  - eapply inv_fill; [exact Hi'|]. unfold friend_ok. rewrite Ei, Eo. intros Hs. rewrite (Hlive Hs). simpl. lia.
Qed.

Lemma inv_new : inv None (channeler_new local) [] ∅ ∅.
Proof.
  split; [split; try done|].
  - constructor.
  - constructor.
  - intros t pool pk Hin. by apply elem_of_nil in Hin.
  - intros t [Hin|Hin]; [by apply elem_of_nil in Hin|by apply elem_of_empty in Hin].
  - intros pk _. unfold friend_ok. simpl. rewrite !lookup_empty. simpl. lia.
Qed.

Lemma ebind_inv {A} (m : Eff Channeler ChannelerError (ChannelerAction RA) A) X (Q : A -> Channeler -> log -> Prop) s l a s' l' :
  m s l = EOk a s' l' -> wp False X m Q s l -> Q a s' l'.
Proof. unfold wp. by intros ->. Qed.

Lemma channeler_run_ok s l closed finished :
  channeler_run local settled s l closed finished -> inv None s l closed finished.
Proof.
  induction 1 as [|s l closed finished m s' l' _ IH Hadd Hs|s l closed finished pk c s' l' _ IH Hlis Hc Hcl Hs
    |s l closed finished t pool pk c s' l' _ IH Ht Hc Hcl Hs|s l closed finished t pool pk _ IH Ht Hpool
    |s l closed finished c pk data s' l' _ IH Hlive Hs|s l closed finished c pk s' l' _ IH Hlive Hs].
  - apply inv_new.
  - apply (ebind_inv _ fails (fun _ s' l' => inv None s' l' closed finished) _ _ _ _ _ Hs). destruct m as [pk message|addresses|pk fr lr|pk]; cbn [channeler_step].
    + by apply wp_send_to_friend.
    + eapply wp_mono; [|by apply wp_neutral]. by intros _ s1 l1 [-> ?].
    + by apply wp_update_channel_friend.
    + by apply wp_remove_channel_friend.
  - apply (ebind_inv _ fails (fun _ s' l' => inv None s' l' closed finished) _ _ _ _ _ Hs).
    pose proof (proj2 IH pk ltac:(done)) as Hpk. apply wp_connection; [|done|done|].
    + by eapply inv_open; [exact IH|left|..].
    + unfold conn_ready. destruct (in_friends (ch_friends s) !! pk) as [[]|] eqn:Ei;
        destruct (out_friends (ch_friends s) !! pk) as [[pool []]|] eqn:Eo; try done.
      unfold friend_ok in Hpk. rewrite Ei, Eo, (co_local _ _ _ _ _ _ (proj1 IH)) in Hpk. by rewrite Hlis in Hpk; destruct Hpk.
  - apply (ebind_inv _ fails (fun _ s' l' => inv None s' l' closed ({[t]} ∪ finished)) _ _ _ _ _ Hs).
    pose proof (proj2 IH pk ltac:(done)) as Hpk.
    apply wp_connection; [by eapply inv_finish|done|done|].
    assert (is_listen_friend local pk = false) as Hlis.
    { apply elem_of_open_tasks in Ht as (Hin & _). by eapply (co_listen _ _ _ _ _ _ (proj1 IH)). }
    destruct (open_tasks_close _ _ _ _ _ (co_connects _ _ _ _ _ _ (proj1 IH)) Ht) as (l1 & l2 & Hb & Ha).
    fold (waiting l finished pk) in Hb. fold (waiting l ({[t]} ∪ finished) pk) in Ha.
    unfold conn_ready, friend_ok in *. rewrite (co_local _ _ _ _ _ _ (proj1 IH)) in *.
    destruct (in_friends (ch_friends s) !! pk) as [st|] eqn:Ei; destruct (out_friends (ch_friends s) !! pk) as [[pool' [|fc]]|] eqn:Eo;
      try done; simpl in *; try (destruct st; by rewrite Hlis in Hpk; destruct Hpk).
    + split; [done|]. intros Hst. destruct Hpk as [_ Hpk]. destruct (Hpk Hst) as (Hnil & t' & Hw). split; [done|].
      rewrite Hw in Hb. rewrite Ha. destruct l1 as [|x l1]; [by injection Hb as _ <-|]. injection Hb as _ Hx. by destruct l1.
    + split; [done|]. destruct Hpk as (_ & Hin & Hpk). split; [done|]. intros Hst. destruct (Hpk Hst) as [_ Hw].
      rewrite Hw in Hb. by destruct l1.
  - eapply inv_fill; [by eapply inv_finish|]. pose proof (proj2 IH pk ltac:(done)) as Hpk.
    unfold friend_ok in *. rewrite (co_local _ _ _ _ _ _ (proj1 IH)) in *.
    destruct (in_friends (ch_friends s) !! pk) as [st|] eqn:Ei; destruct (out_friends (ch_friends s) !! pk) as [[pool' [|fc]]|] eqn:Eo;
      try done; simpl in *.
    + split; [apply Hpk|]. intros Hst. destruct Hpk as [_ Hpk]. destruct (Hpk Hst) as (Hnil & t' & Hw). exfalso.
      apply (Hpool Hst). rewrite Hw in Ht. apply list_elem_of_singleton in Ht. by injection Ht as -> ->.
    + split; [apply Hpk|]. destruct Hpk as (_ & Hin & Hpk). split; [done|]. intros Hst. destruct (Hpk Hst) as [_ Hw].
      rewrite Hw in Ht. by apply elem_of_nil in Ht.
  - apply (ebind_inv _ fails (fun _ s' l' => inv None s' l' closed finished) _ _ _ _ _ Hs). eapply wp_mono; [|by apply wp_neutral]. by intros _ s1 l1 [-> ?].
  - apply (ebind_inv _ fails (fun _ s' l' => inv None s' l' ({[c]} ∪ closed) finished) _ _ _ _ _ Hs).
    by apply wp_receiver_closed.
Qed.

(** A message to a friend goes to a connection of this friend. *)
Lemma send_to_friend_log pk message s l closed finished s' l' :
  inv None s l closed finished -> send_to_friend ok pk message s l = EOk tt s' l' ->
  l' = l \/ exists c, (c, pk) ∈ live l closed pk /\ (l' = l ++ [ChSend c message] \/ l' = l ++ [ChSendFailed c]).
Proof.
  intros [_ Hf] Hs. specialize (Hf pk ltac:(done)). unfold friend_ok in Hf. unfold send_to_friend, ebind, eget in Hs.
  destruct (in_friends (ch_friends s) !! pk) as [[|fc]|], (out_friends (ch_friends s) !! pk) as [[pool [|fc']]|]; try done;
    simpl in Hs; try (injection Hs as <- <-; by left);
    unfold connected_send, put_in, put_out, ebind, eget, eput in Hs;
    [destruct fc as [c snd]|destruct fc' as [c snd]]; simpl in *;
    (destruct snd; [destruct (ok (length l))|]; simpl in Hs; injection Hs as <- <-; [right|right|by left]);
    exists c; (split; [apply Hf|]); [by left|by right|by left|by right].
Qed.
End Runs.

Lemma channeler_step_no_panic `{CryptoOps} {RA : Type} (ok : nat -> bool) (e : ChannelerEvent RA) s l :
  channeler_step ok e s l <> EPanic.
Proof.
  assert (wp False (fun _ _ => True) (channeler_step ok e) (fun _ _ _ => True) s l) as Hw;
    [|unfold wp in Hw; by destruct (channeler_step ok e s l)].
  assert (forall (err : ChannelerError) a s0 l0, wp False (fun _ _ => True) (emit ok err a) (fun _ (_ : Channeler) (_ : list (ChannelerAction RA)) => True) s0 l0)
    as Hemit by (intros; by apply wp_emit).
  assert (forall pk s0 l0, is_Some (out_friends (ch_friends s0) !! pk) ->
    wp False (fun _ _ => True) (connect_out_friend ok pk) (fun _ (_ : Channeler) (_ : list (ChannelerAction RA)) => True) s0 l0) as Hcon.
  { intros pk s0 l0 [f Hf]. unfold connect_out_friend. repeat wp_step. rewrite Hf. wp_step. by apply wp_emit. }
  destruct e as [m|pk c|fe| |]; cbn [channeler_step]; try done.
  - destruct m as [pk message|addresses|pk fr lr|pk]; cbn [ch_handle_from_funder]; [|apply Hemit|..].
    + unfold send_to_friend. repeat wp_step. repeat case_match; try done; unfold wp, ebind, connected_send; simpl; by repeat case_match.
    + wp_step. assert (wp False (fun _ _ => True) (try_create_friend ok pk) (fun _ (_ : Channeler) (_ : list (ChannelerAction RA)) => True) s l) as Ht.
      { unfold try_create_friend. repeat wp_step. repeat case_match; try done. wp_step. unfold wp at 1, create_pool.
        unfold put_out. repeat wp_step. apply Hcon. simpl. rewrite lookup_insert_eq. by eexists. }
      eapply wp_mono; [|exact Ht]. intros [] s1 l1 _. repeat wp_step. repeat case_match; first [done|apply Hemit].
    + repeat wp_step. case_match; unfold put_in, put_out; repeat wp_step; first [done|apply Hemit].
  - unfold handle_connection. wp_step. apply wp_emit; [done|]. repeat wp_step.
    repeat case_match; try done; unfold put_in, put_out, start_receiver; repeat wp_step; apply wp_emit; try done; by apply wp_emit.
  - destruct fe as [pk data|pk]; cbn [handle_friend_event]; [apply Hemit|]. wp_step. apply wp_emit; [done|]. repeat wp_step.
    repeat case_match; try done; unfold put_in, put_out; repeat wp_step; try done.
    apply Hcon. simpl. rewrite lookup_insert_eq. by eexists.
Qed.

Lemma listen_one_side `{CryptoOps} (a b : PublicKey) :
  compare_public_key a b <> Eq -> is_listen_friend b a = negb (is_listen_friend a b).
Proof.
  unfold is_listen_friend, compare_public_key. rewrite bytes_cmp_antisym. by destruct (bytes_cmp _ _).
Qed.

(** In every run of the channeler with its tasks, however removals, closing
    connections and new connections interleave: a friend is waited for exactly if
    its key is larger, so that of two nodes exactly one connects; a friend counts
    as connected only while the task of its connection runs, and its messages go
    to this connection; the funder was told about every connection that opened and
    every one that closed; no event makes the channeler panic. *)
Theorem channeler_invariant `{CryptoOps} {RA : Type} (ok : nat -> bool) (local : PublicKey) (settled : bool)
  (s : Channeler) (l : list (ChannelerAction RA)) (closed finished : gset nat)
  (Hrun : channeler_run ok local settled s l closed finished) :
  (forall pk, (is_Some (in_friends (ch_friends s) !! pk) -> is_listen_friend local pk = true) /\
     (is_Some (out_friends (ch_friends s) !! pk) -> is_listen_friend local pk = false)) /\
  (forall pk, compare_public_key local pk <> Eq -> is_listen_friend pk local = negb (is_listen_friend local pk)) /\
  (forall pk fc, in_friends (ch_friends s) !! pk = Some (InConnected fc) \/
     (exists pool, out_friends (ch_friends s) !! pk = Some (mkOutFriend pool (OutConnected fc))) ->
     (fc_conn fc, pk) ∈ live l closed pk) /\
  (forall pk message s' l', channeler_step ok (CevFromFunder (FtcMessage pk message)) s l = EOk tt s' l' ->
     l' = l \/ exists c, (c, pk) ∈ live l closed pk /\ (l' = l ++ [ChSend c message] \/ l' = l ++ [ChSendFailed c])) /\
  (forall pk, count true (reports l pk) = count false (reports l pk) + length (live l closed pk)) /\
  forall e, channeler_step ok e s l <> EPanic.
Proof.
  pose proof (channeler_run_ok _ _ _ _ _ _ _ Hrun) as Hi. pose proof Hi as [Hc Hf]. split_and!.
  - intros pk. specialize (Hf pk ltac:(done)). unfold friend_ok in Hf. rewrite (co_local _ _ _ _ _ _ Hc) in Hf.
    destruct (in_friends (ch_friends s) !! pk), (out_friends (ch_friends s) !! pk); split; intros [x Hx]; try done; apply Hf.
  - intros pk Hne. by apply listen_one_side.
  - intros pk fc Hfc. specialize (Hf pk ltac:(done)). unfold friend_ok in Hf. destruct Hfc as [Hfc|[pool Hfc]]; rewrite Hfc in Hf.
    + destruct (out_friends (ch_friends s) !! pk); [done|]. apply Hf.
    + destruct (in_friends (ch_friends s) !! pk) as [[]|]; try done. apply Hf.
  - intros pk message s' l' Hs. by eapply send_to_friend_log.
  - apply (co_count _ _ _ _ _ _ Hc).
  - intros e. apply channeler_step_no_panic.
Qed.

(** C24. When a friend is added again only after its former connection has ended,
    the funder sees the friend come online and go offline in turn, and sees it
    online exactly while a connection of it is open; and every connect pool has at
    most one request at a time: one while the channeler waits for a connection to
    the friend, none while it is connected. *)
Theorem channeler_settled `{CryptoOps} {RA : Type} (ok : nat -> bool) (local : PublicKey)
  (s : Channeler) (l : list (ChannelerAction RA)) (closed finished : gset nat)
  (Hrun : channeler_run ok local true s l closed finished) :
  (forall pk, replay_reports (reports l pk) = Some (bool_decide (live l closed pk <> []))) /\
  (forall pk, (length (live l closed pk) <= 1)%nat) /\
  (forall pk f, out_friends (ch_friends s) !! pk = Some f ->
     match of_status f with
     | OutConnecting => live l closed pk = [] /\ exists t, waiting l finished pk = [(t, (of_pool f, pk))]
     | OutConnected fc => live l closed pk = [(fc_conn fc, pk)] /\ waiting l finished pk = []
     end) /\
  forall pk, in_friends (ch_friends s) !! pk = Some InListening -> live l closed pk = [].
Proof.
  pose proof (channeler_run_ok _ _ _ _ _ _ _ Hrun) as Hi. pose proof Hi as [Hc Hf]. split_and!.
  - intros pk. by apply (co_replay _ _ _ _ _ _ Hc).
  - intros pk. destruct (live l closed pk) as [|[c pk'] r] eqn:E; [simpl; lia|].
    assert ((c, pk') ∈ live l closed pk) as Hin by (rewrite E; by left).
    assert (pk' = pk) as -> by by apply elem_of_open_tasks in Hin as (_ & ? & _).
    rewrite <- E, (live_single _ _ _ _ _ _ _ _ Hi eq_refl Hin). simpl. lia.
  - intros pk f Ho. specialize (Hf pk ltac:(done)). unfold friend_ok in Hf. rewrite Ho in Hf.
    destruct (in_friends (ch_friends s) !! pk) as [[]|]; try done. destruct (of_status f); by apply Hf.
  - intros pk Ein. specialize (Hf pk ltac:(done)). unfold friend_ok in Hf. rewrite Ein in Hf.
    destruct (out_friends (ch_friends s) !! pk); [done|]. by apply Hf.
Qed.

(** ** Executions *)
Module ChannelerSamples.
Import Toy.
Definition all_ok (_ : nat) : bool := true.
Definition me : PublicKey := fixed_of_prefix 32 [Byte.x05].
Definition low : PublicKey := fixed_of_prefix 32 [Byte.x01].
Definition high : PublicKey := fixed_of_prefix 32 [Byte.x09].

Definition steps (events : list (ChannelerEvent Z)) : eres Channeler ChannelerError (ChannelerAction Z) unit :=
  channeler_loop_inner all_ok events (channeler_new me) [].

(** A friend to connect to is added, and the connection arrives. *)
Definition s1 : Channeler := mkChanneler me (mkFriends ∅ {[low := mkOutFriend 0 OutConnecting]}) 1 1.
Definition l1 : list (ChannelerAction Z) := [ChNewPool 0 low; ChConnect 0 0 low; ChPoolConfig 0 [7%Z]].
Definition s2 : Channeler :=
  mkChanneler me (mkFriends ∅ {[low := mkOutFriend 0 (OutConnected (mkFriendConnected 0 true))]}) 1 1.
Definition l2 : list (ChannelerAction Z) :=
  l1 ++ [ChOverwrite 0; ChReceiver 0 low; ChToFunder (CtfOnline low)].

Lemma sample_channeler_run settled : channeler_run all_ok me settled s2 l2 ∅ ({[0]} ∪ ∅).
Proof.
  eapply (run_connected _ _ _ s1 l1 ∅ ∅ 0 0 low 0); [|by left|by intros ?%elem_of_nil|set_solver|by vm_compute].
  eapply (run_funder _ _ _ (channeler_new me) [] ∅ ∅ (FtcUpdateFriend low [7%Z] [])); [apply run_start|by right|by vm_compute].
Defined.

Lemma channeler_invariant_witness :
  (forall pk, (is_Some (in_friends (ch_friends s2) !! pk) -> is_listen_friend me pk = true) /\
     (is_Some (out_friends (ch_friends s2) !! pk) -> is_listen_friend me pk = false)) /\
  forall pk fc, in_friends (ch_friends s2) !! pk = Some (InConnected fc) \/
     (exists pool, out_friends (ch_friends s2) !! pk = Some (mkOutFriend pool (OutConnected fc))) ->
     (fc_conn fc, pk) ∈ live l2 ∅ pk.
Proof.
  destruct (channeler_invariant all_ok me false s2 l2 ∅ ({[0]} ∪ ∅) (sample_channeler_run false)) as (H1 & _ & H3 & _).
  exact (conj H1 H3).
Defined.

Lemma channeler_settled_witness :
  (forall pk, replay_reports (reports l2 pk) = Some (bool_decide (live l2 ∅ pk <> []))) /\
  (length (live l2 ∅ low) <= 1)%nat.
Proof.
  destruct (channeler_settled all_ok me s2 l2 ∅ ({[0]} ∪ ∅) (sample_channeler_run true)) as (H1 & H2 & _).
  exact (conj H1 (H2 low)).
Defined.

(** A friend that is removed and added again before the task of its connection
    has ended: its new pool gets two requests. *)
Definition readded : list (ChannelerEvent Z) :=
  [CevFromFunder (FtcUpdateFriend low [7%Z] []); CevConnection low 0; CevFromFunder (FtcRemoveFriend low);
   CevFromFunder (FtcUpdateFriend low [7%Z] []); CevFriendEvent (FeReceiverClosed low)].

(** The pool refuses the second request and ends; then the next configuration of
    the friend cannot be sent and ends the channeler. *)
Example readded_friend_stops_channeler :
  match steps readded with
  | EOk _ s l =>
      connects l = [(0, (0, low)); (1, (1, low)); (2, (1, low))] /\
      (exists s' l', connect_pool_loop all_ok [CpConnectRequest 1; CpConfigRequest [7]; CpConnectRequest 2]%Z
         (connect_pool_new (RA := Z) 2) ([] : list (ConnectPoolAction Z Z Z)) = EErr MultipleConnectRequests s' l') /\
      exists s' l', channeler_step (fun _ => false) (CevFromFunder (FtcUpdateFriend low [7%Z] [])) s l =
         EErr ChConnectorConfigError s' l'
  | _ => False
  end.
Proof. vm_compute. split; [done|]. split; [by do 2 eexists|by do 2 eexists]. Qed.
End ChannelerSamples.
