(* ===== verification/KeepAlive.v ===== *)
(** * Keepalive

    Models [keepalive/src/keepalive.rs]: a loop between a user and a remote side
    that sends a keepalive message when it was silent for half of
    [keepalive_ticks], and gives up when the remote side was silent for
    [keepalive_ticks]. The wire format of [KaMessage] is a parameter. *)

From S2P Require Import Prelude Arith Bytes Effects.

Inductive KaMessage := KaKeepAlive | KaData (message : bytes).

(** The generated wire format ([proto/src/keepalive]). *)
Class KaSerde := {
  ka_proto_serialize : KaMessage -> bytes;
  ka_proto_deserialize : bytes -> option KaMessage
}.
(** What was serialized is read back. *)
Class KaSerdeLaws `{KaSerde} : Prop :=
  ka_roundtrip m : ka_proto_deserialize (ka_proto_serialize m) = Some m.

Inductive KeepAliveError := RemoteTimeout | ProtoSerializeError.

Inductive KeepAliveEvent :=
| KaTimerTick | KaTimerClosed | KaRemoteChannelClosed | KaUserChannelClosed
| KaMessageFromRemote (ser_ka_message : bytes)
| KaMessageFromUser (message : bytes).

Inductive KeepAliveAction := KaToRemote (data : bytes) | KaToUser (message : bytes).

Record KeepAlive := mkKeepAlive { ka_ticks_to_close : Z; ka_ticks_to_send_keepalive : Z }.

Section KeepAlive.
Context `{KaSerde}.
Variables (keepalive_ticks : Z) (ok : nat -> bool).
Notation M := (Eff KeepAlive KeepAliveError KeepAliveAction).

Definition keepalive_new : KeepAlive := mkKeepAlive keepalive_ticks (keepalive_ticks / 2).

(** A send whose failure ends the loop: the result says whether it went well. *)
Definition try_emit (a : KeepAliveAction) : M bool := fun s l =>
  if ok (length l) then EOk true s (l ++ [a]) else EOk false s l.

(** One event; the result says whether the loop goes on. *)
Definition keepalive_step (e : KeepAliveEvent) : M bool :=
  match e with
  | KaMessageFromRemote ser_ka_message =>
      match ka_proto_deserialize ser_ka_message with
      | None => efail ProtoSerializeError
      | Some ka_message =>
          let* s := eget in
          let* _ := eput (mkKeepAlive keepalive_ticks (ka_ticks_to_send_keepalive s)) in
          match ka_message with
          | KaData message => try_emit (KaToUser message)
          | KaKeepAlive => eret true
          end
      end
  | KaMessageFromUser message =>
      let* sent := try_emit (KaToRemote (ka_proto_serialize (KaData message))) in
      if sent then
        let* s := eget in
        let* _ := eput (mkKeepAlive (ka_ticks_to_close s) (keepalive_ticks / 2)) in eret true
      else eret false
  | KaTimerTick =>
      let* s := eget in
      let ticks_to_close := saturate_u 64 (ka_ticks_to_close s - 1) in
      let ticks_to_send_keepalive := saturate_u 64 (ka_ticks_to_send_keepalive s - 1) in
      let* _ := eput (mkKeepAlive ticks_to_close ticks_to_send_keepalive) in
      if (ticks_to_close =? 0)%Z then efail RemoteTimeout
      else if (ticks_to_send_keepalive =? 0)%Z then
        let* sent := try_emit (KaToRemote (ka_proto_serialize KaKeepAlive)) in
        if sent then let* _ := eput (mkKeepAlive ticks_to_close (keepalive_ticks / 2)) in eret true
        else eret false
      else eret true
  | KaTimerClosed | KaRemoteChannelClosed | KaUserChannelClosed => eret false
  end.

Fixpoint inner_keepalive_loop (events : list KeepAliveEvent) : M unit :=
  match events with
  | [] => eret tt
  | e :: events' => let* go_on := keepalive_step e in if go_on then inner_keepalive_loop events' else eret tt
  end.
End KeepAlive.

(** ** Two sides that keep each other alive

    Each side has its loop; what it sent and the other side has not received yet
    is in flight, with its age in ticks. *)
Section Pair.
Context `{KaSerde} `{!KaSerdeLaws}.
Variables (k d : Z).
Notation all_ok := (fun _ : nat => true).
Notation step := (keepalive_step k all_ok).

Record side := mkSide {
  sd_state : KeepAlive;
  sd_flight : list (Z * bytes);
  sd_sent : list bytes;
  sd_received : list bytes
}.
Definition side_new : side := mkSide (keepalive_new k) [] [] [].

(** What a step wrote for the remote side and for the user. *)
Definition to_remote (l : list KeepAliveAction) : list bytes :=
  omap (fun a => match a with KaToRemote b => Some b | _ => None end) l.
Definition to_user (l : list KeepAliveAction) : list bytes :=
  omap (fun a => match a with KaToUser b => Some b | _ => None end) l.

(** A side handles an event: [None] when its loop ends or fails. *)
Definition side_step (e : KeepAliveEvent) (x : side) : option side :=
  match step e (sd_state x) [] with
  | EOk true s l =>
      Some (mkSide s (sd_flight x ++ ((fun b => (0%Z, b)) <$> to_remote l))
              (sd_sent x ++ match e with KaMessageFromUser m => [m] | _ => [] end)
              (sd_received x ++ to_user l))
  | _ => None
  end.

Definition older (x : side) : side :=
  mkSide (sd_state x) ((fun p => (p.1 + 1, p.2)%Z) <$> sd_flight x) (sd_sent x) (sd_received x).
Definition arrived (x : side) : side := mkSide (sd_state x) (tail (sd_flight x)) (sd_sent x) (sd_received x).

(** Both sides hear a tick, a user sends, or the oldest message arrives. Messages
    arrive within [d] ticks. *)
Inductive input := InTick | InSend (left : bool) (message : bytes) | InDeliver (left : bool).
Definition timely (x : side) : Prop := Forall (fun p => (p.1 < d)%Z) (sd_flight x).

Definition pair_step (i : input) (ab : side * side) : option (side * side) :=
  match i with
  | InTick => let! a := side_step KaTimerTick (older ab.1) in
              let! b := side_step KaTimerTick (older ab.2) in Some (a, b)
  | InSend true m => let! a := side_step (KaMessageFromUser m) ab.1 in Some (a, ab.2)
  | InSend false m => let! b := side_step (KaMessageFromUser m) ab.2 in Some (ab.1, b)
  | InDeliver true =>
      match sd_flight ab.2 with
      | [] => Some ab
      | (_, m) :: _ => let! a := side_step (KaMessageFromRemote m) ab.1 in Some (a, arrived ab.2)
      end
  | InDeliver false =>
      match sd_flight ab.1 with
      | [] => Some ab
      | (_, m) :: _ => let! b := side_step (KaMessageFromRemote m) ab.2 in Some (arrived ab.1, b)
      end
  end.

(** The inputs of a network that is never slower than [d] ticks. *)
Fixpoint timely_inputs (inputs : list input) (ab : side * side) : Prop :=
  match inputs with
  | [] => True
  | i :: inputs' =>
      (i = InTick -> timely ab.1 /\ timely ab.2) /\
      match pair_step i ab with Some ab' => timely_inputs inputs' ab' | None => True end
  end.
Definition pair_run (inputs : list input) : option (side * side) := pfold (fun ab i => pair_step i ab) (side_new, side_new) inputs.

Definition payload (b : bytes) : option bytes :=
  match ka_proto_deserialize b with Some (KaData m) => Some m | _ => None end.
Notation c x := (ka_ticks_to_close (sd_state x)).
Notation s x := (ka_ticks_to_send_keepalive (sd_state x)).

(** What [x] sends keeps [y] alive: the oldest message in flight was sent at most
    half of the period after one that arrived. *)
Record one_way (x y : side) : Prop := {
  ow_wire : Forall (fun p => (0 <= p.1)%Z /\ exists m, p.2 = ka_proto_serialize m) (sd_flight x);
  ow_data : sd_sent x = sd_received y ++ omap payload (sd_flight x).*2;
  ow_send : (0 < s x <= k / 2)%Z;
  ow_close : (0 < c y <= k)%Z;
  ow_alive : match sd_flight x with
             | [] => k - k / 2 + s x <= c y
             | (age, _) :: _ => k - k / 2 - age <= c y
             end%Z
}.

Context (Hk : (2 <= k <= u_max 64)%Z) (Hd : (k / 2 + d < k)%Z) (Hd0 : (0 <= d)%Z).

Lemma half_pos : (0 < k / 2 < k)%Z.
Proof. split; [apply Z.div_str_pos; lia|apply Z.div_lt; lia]. Qed.

Lemma payload_ser m : payload (ka_proto_serialize m) = match m with KaData x => Some x | KaKeepAlive => None end.
Proof. unfold payload. by rewrite ka_roundtrip. Qed.

Lemma side_tick x : (1 < c x <= k)%Z -> (0 < s x <= k / 2)%Z ->
  side_step KaTimerTick x = Some
    (if decide (s x = 1)%Z
     then mkSide (mkKeepAlive (c x - 1) (k / 2)) (sd_flight x ++ [(0%Z, ka_proto_serialize KaKeepAlive)]) (sd_sent x) (sd_received x)
     else mkSide (mkKeepAlive (c x - 1) (s x - 1)) (sd_flight x) (sd_sent x) (sd_received x)).
Proof.
  intros Hc Hs. pose proof half_pos. unfold side_step, keepalive_step, ebind, eget, eput, try_emit. simpl.
  assert (saturate_u 64 (c x - 1) = c x - 1 /\ saturate_u 64 (s x - 1) = s x - 1)%Z as [-> ->]
    by (unfold saturate_u; lia).
  destruct (Z.eqb_spec (c x - 1) 0); [lia|]. destruct (Z.eqb_spec (s x - 1) 0), (decide (s x = 1)%Z); try lia;
    simpl; by rewrite ?app_nil_r.
Qed.

Lemma side_send m x : side_step (KaMessageFromUser m) x = Some
  (mkSide (mkKeepAlive (c x) (k / 2)) (sd_flight x ++ [(0%Z, ka_proto_serialize (KaData m))]) (sd_sent x ++ [m]) (sd_received x)).
Proof. unfold side_step, keepalive_step, ebind, eget, eput, try_emit. simpl. by rewrite ?app_nil_r. Qed.

Lemma side_deliver m x : side_step (KaMessageFromRemote (ka_proto_serialize m)) x = Some
  (mkSide (mkKeepAlive k (s x)) (sd_flight x) (sd_sent x) (sd_received x ++ match m with KaData b => [b] | KaKeepAlive => [] end)).
Proof.
  unfold side_step, keepalive_step. rewrite ka_roundtrip. unfold ebind, eget, eput, try_emit. simpl.
  destruct m; simpl; by rewrite ?app_nil_r.
Qed.

(** The sender and the receiver of one direction change independently. *)
Lemma one_way_tick x y x' y' :
  one_way x y -> timely x -> (1 < c x <= k)%Z -> (0 < s y <= k / 2)%Z -> (1 < c y)%Z ->
  side_step KaTimerTick (older x) = Some x' -> side_step KaTimerTick (older y) = Some y' -> one_way x' y'.
Proof.
  intros [Hw Hdata Hs Hc Ha] Htime Hcx Hsy Hcy Hx Hy. pose proof half_pos.
  rewrite side_tick in Hx, Hy by (simpl; lia). simpl in Hx, Hy.
  assert (omap payload (((fun p => (p.1 + 1, p.2)%Z) <$> sd_flight x).*2) = omap payload (sd_flight x).*2) as Hpay.
  { f_equal. rewrite <- list_fmap_compose. by apply list_fmap_ext. }
  assert (Forall (fun p => (0 <= p.1)%Z /\ exists m, p.2 = ka_proto_serialize m) ((fun p => (p.1 + 1, p.2)%Z) <$> sd_flight x)) as Hw'.
  { apply Forall_fmap. eapply Forall_impl; [exact Hw|]. intros p [? ?]. split; simpl; [lia|done]. }
  assert (exists sy fy, y' = mkSide (mkKeepAlive (c y - 1) sy) fy (sd_sent y) (sd_received y)) as (sy & fy & ->).
  { destruct (decide (s y = 1)%Z); injection Hy as <-; eauto. }
  destruct (decide (s x = 1)%Z) as [Hs1|Hs1]; injection Hx as <-; split; simpl.
  - apply Forall_app. split; [done|]. apply Forall_singleton. split; [done|by eexists].
  - rewrite fmap_app, omap_app, Hpay. simpl. rewrite payload_ser. by rewrite app_nil_r.
  - lia.
  - lia.
  - destruct (sd_flight x) as [|[age m] r] eqn:E; simpl; lia.
  - done.
  - by rewrite Hpay.
  - lia.
  - lia.
  - destruct (sd_flight x) as [|[age m] r] eqn:E; simpl; lia.
Qed.

(** A side that can still hear the other one survives a tick. *)
Lemma one_way_close x y : one_way x y -> timely x -> (1 < c y)%Z.
Proof.
  intros [_ _ Hs Hc Ha] Ht. unfold timely in Ht. destruct (sd_flight x) as [|[age m] r]; [lia|].
  apply Forall_cons in Ht as [Hage _]. simpl in Hage. lia.
Qed.

Lemma one_way_send x y m x' :
  one_way x y -> side_step (KaMessageFromUser m) x = Some x' -> one_way x' y.
Proof.
  intros [Hw Hdata Hs Hc Ha] Hx. pose proof half_pos. rewrite side_send in Hx. injection Hx as <-. split; simpl; [..|done|].
  - apply Forall_app. split; [done|]. apply Forall_singleton. split; [done|by eexists].
  - rewrite fmap_app, omap_app, Hdata. simpl. rewrite payload_ser. by rewrite app_assoc.
  - lia.
  - destruct (sd_flight x) as [|[age b] r]; simpl; lia.
Qed.

(** What the other direction of a side sees of a message that it sends or gets. *)
Lemma one_way_other x y y' :
  one_way x y -> c y' = c y -> sd_received y' = sd_received y -> one_way x y'.
Proof. intros [Hw Hdata Hs Hc Ha] H1 H2. split; rewrite ?H1, ?H2; done. Qed.
Lemma one_way_other_sender x y x' :
  one_way x y -> s x' = s x -> sd_flight x' = sd_flight x -> sd_sent x' = sd_sent x -> one_way x' y.
Proof. intros [Hw Hdata Hs Hc Ha] H1 H2 H3. split; rewrite ?H1, ?H2, ?H3; done. Qed.

Lemma one_way_deliver x y age b r y' :
  one_way x y -> sd_flight x = (age, b) :: r -> side_step (KaMessageFromRemote b) y = Some y' ->
  one_way (arrived x) y' /\ s y' = s y /\ sd_flight y' = sd_flight y /\ sd_sent y' = sd_sent y.
Proof.
  intros [Hw Hdata Hs Hc Ha] Hf Hy. rewrite Hf in *. apply Forall_cons in Hw as [[_ [m Hm]] Hw]. simpl in Hm. subst b.
  rewrite side_deliver in Hy. injection Hy as <-. split; [|done]. unfold arrived. rewrite Hf. split; simpl; try done; try lia.
  - rewrite Hdata. simpl. rewrite payload_ser. by destruct m; rewrite <- app_assoc.
  - destruct r as [|[a2 b2] r2]; [lia|]. apply Forall_cons in Hw as [[Hage _] _]. simpl in Hage. pose proof half_pos. lia.
Qed.

Lemma pair_step_alive i a b :
  one_way a b -> one_way b a -> (i = InTick -> timely a /\ timely b) ->
  exists a' b', pair_step i (a, b) = Some (a', b') /\ one_way a' b' /\ one_way b' a'.
Proof.
  intros Hab Hba Ht. destruct i as [|[] m|[]]; cbn [pair_step fst snd].
  - destruct (Ht eq_refl) as [Hta Htb]. pose proof (one_way_close _ _ Hab Hta). pose proof (one_way_close _ _ Hba Htb).
    pose proof (ow_send _ _ Hab). pose proof (ow_send _ _ Hba). pose proof (ow_close _ _ Hab). pose proof (ow_close _ _ Hba).
    destruct (side_step KaTimerTick (older a)) as [a'|] eqn:Ea; [|by rewrite side_tick in Ea by (simpl; lia)].
    destruct (side_step KaTimerTick (older b)) as [b'|] eqn:Eb; [|by rewrite side_tick in Eb by (simpl; lia)].
    exists a', b'. split; [done|]. split; [eapply (one_way_tick a b)|eapply (one_way_tick b a)]; done || lia.
  - rewrite side_send. cbn [opt_bind]. do 2 eexists. split; [done|]. split; [eapply one_way_send; [exact Hab|apply side_send]|].
    eapply one_way_other; [exact Hba|done|done].
  - rewrite side_send. cbn [opt_bind]. do 2 eexists. split; [done|]. split; [|eapply one_way_send; [exact Hba|apply side_send]].
    eapply one_way_other; [exact Hab|done|done].
  - destruct (sd_flight b) as [|[age x] r] eqn:Ef; [by do 2 eexists|].
    pose proof (ow_wire _ _ Hba) as Hw. rewrite Ef in Hw. apply Forall_cons in Hw as [[_ [m Hm]] _]. simpl in Hm. subst x.
    pose proof (side_deliver m a) as Hd1. rewrite Hd1. cbn [opt_bind]. do 2 eexists. split; [done|].
    destruct (one_way_deliver _ _ _ _ _ _ Hba Ef Hd1) as (H1 & H2 & H3 & H4). split; [|exact H1].
    eapply one_way_other_sender; [|exact H2|exact H3|exact H4]. eapply one_way_other; [exact Hab|done|done].
  - destruct (sd_flight a) as [|[age x] r] eqn:Ef; [by do 2 eexists|].
    pose proof (ow_wire _ _ Hab) as Hw. rewrite Ef in Hw. apply Forall_cons in Hw as [[_ [m Hm]] _]. simpl in Hm. subst x.
    pose proof (side_deliver m b) as Hd1. rewrite Hd1. cbn [opt_bind]. do 2 eexists. split; [done|].
    destruct (one_way_deliver _ _ _ _ _ _ Hab Ef Hd1) as (H1 & H2 & H3 & H4). split; [exact H1|].
    eapply one_way_other_sender; [|exact H2|exact H3|exact H4]. eapply one_way_other; [exact Hba|done|done].
Qed.

Lemma pair_run_alive inputs a b :
  one_way a b -> one_way b a -> timely_inputs inputs (a, b) ->
  exists a' b', pfold (fun ab i => pair_step i ab) (a, b) inputs = Some (a', b') /\ one_way a' b' /\ one_way b' a'.
Proof.
  revert a b. induction inputs as [|i inputs IH]; intros a b Hab Hba Ht; [by do 2 eexists|]. simpl in Ht.
  destruct Ht as [Hi Ht]. destruct (pair_step_alive i a b Hab Hba Hi) as (a' & b' & Hs & Hab' & Hba').
  cbn [pfold]. rewrite Hs in *. simpl. by apply IH.
Qed.

Lemma one_way_new : one_way side_new side_new.
Proof. pose proof half_pos. split; simpl; try done; lia. Qed.
End Pair.

(** C31. Two keepalive loops over a network that delivers every message within [d]
    ticks, where [d] and half of the keepalive period together are less than the
    period, never give up on each other, however idle their users are; and each
    user has received what the other sent, in order, up to what is in flight. *)
Theorem keepalive_pair_alive `{KaSerde} `{!KaSerdeLaws} (k d : Z) (inputs : list input)
  (Hk : (2 <= k <= u_max 64)%Z) (Hd0 : (0 <= d)%Z) (Hd : (k / 2 + d < k)%Z)
  (Ht : timely_inputs k d inputs (side_new k, side_new k)) :
  exists a b, pair_run k inputs = Some (a, b) /\
    sd_sent a = sd_received b ++ omap payload (sd_flight a).*2 /\
    sd_sent b = sd_received a ++ omap payload (sd_flight b).*2.
Proof.
  destruct (pair_run_alive k d Hk Hd Hd0 inputs _ _ (one_way_new k Hk) (one_way_new k Hk) Ht)
    as (a & b & Hrun & Hab & Hba).
  exists a, b. split; [exact Hrun|]. split; [apply Hab|apply Hba].
Qed.

Lemma silent_ticks `{KaSerde} (k : Z) (n : nat) s l :
  (2 <= k <= u_max 64)%Z -> (Z.of_nat n < ka_ticks_to_close s <= k)%Z -> (0 < ka_ticks_to_send_keepalive s <= k / 2)%Z ->
  exists s' l', inner_keepalive_loop k (fun _ => true) (replicate n KaTimerTick) s l = EOk tt s' l' /\
    ka_ticks_to_close s' = (ka_ticks_to_close s - Z.of_nat n)%Z /\ (0 < ka_ticks_to_send_keepalive s' <= k / 2)%Z.
Proof.
  intros Hk. revert s l. induction n as [|n IH]; intros s l Hc Hs; [do 2 eexists; split; [done|]; split; [lia|done]|].
  cbn [replicate inner_keepalive_loop]. unfold ebind at 1, keepalive_step. unfold ebind, eget, eput, try_emit. simpl.
  assert (0 < k / 2 < k)%Z by (split; [apply Z.div_str_pos; lia|apply Z.div_lt; lia]).
  assert (saturate_u 64 (ka_ticks_to_close s - 1) = ka_ticks_to_close s - 1 /\
          saturate_u 64 (ka_ticks_to_send_keepalive s - 1) = ka_ticks_to_send_keepalive s - 1)%Z as [-> ->]
    by (unfold saturate_u; lia).
  destruct (Z.eqb_spec (ka_ticks_to_close s - 1) 0); [lia|]. destruct (Z.eqb_spec (ka_ticks_to_send_keepalive s - 1) 0); simpl.
  - destruct (IH (mkKeepAlive (ka_ticks_to_close s - 1) (k / 2)) (l ++ [KaToRemote (ka_proto_serialize KaKeepAlive)]))
      as (s' & l' & Hr & Hc' & Hs'); simpl in *; [lia|lia|]. exists s', l'. split; [exact Hr|]. split; [lia|done].
  - destruct (IH (mkKeepAlive (ka_ticks_to_close s - 1) (ka_ticks_to_send_keepalive s - 1)) l)
      as (s' & l' & Hr & Hc' & Hs'); simpl in *; [lia|lia|]. exists s', l'. split; [exact Hr|]. split; [lia|done].
Qed.

(** A remote side that is silent is given up after exactly [keepalive_ticks]
    ticks: not before, and at the next tick. *)
Theorem silent_remote_closed `{KaSerde} (k : Z) (n : nat) (Hk : (2 <= k <= u_max 64)%Z) :
  ((Z.of_nat n < k)%Z -> exists s l,
     inner_keepalive_loop k (fun _ => true) (replicate n KaTimerTick) (keepalive_new k) [] = EOk tt s l) /\
  (Z.of_nat n = k -> exists s l,
     inner_keepalive_loop k (fun _ => true) (replicate n KaTimerTick) (keepalive_new k) [] = EErr RemoteTimeout s l).
Proof.
  assert (0 < k / 2 < k)%Z as Hh by (split; [apply Z.div_str_pos; lia|apply Z.div_lt; lia]). split; intros Hn.
  - destruct (silent_ticks k n (keepalive_new k) [] Hk) as (s & l & Hr & _); simpl; [lia|lia|eauto].
  - destruct n as [|n]; [lia|]. destruct (silent_ticks k n (keepalive_new k) [] Hk) as (s & l & Hr & Hc & Hs); [simpl; lia|simpl; lia|].
    simpl in Hc. assert (forall xs s l s1 l1 e, inner_keepalive_loop k (fun _ => true) xs s l = EOk tt s1 l1 ->
      Forall (fun x => x = KaTimerTick) xs ->
      inner_keepalive_loop k (fun _ => true) (xs ++ [e]) s l = inner_keepalive_loop k (fun _ => true) [e] s1 l1) as Happ.
    { clear. induction xs as [|x xs IH]; intros s l s1 l1 e Hr Hx; [by injection Hr as <- <-|].
      apply Forall_cons in Hx as [-> Hx]. cbn [inner_keepalive_loop app] in *. unfold ebind at 1 in Hr. unfold ebind at 1.
      destruct (keepalive_step k (fun _ => true) KaTimerTick s l) as [[] s2 l2|e2 s2 l2|] eqn:E; [|exfalso|done|done].
      - by apply IH.
      - revert E. unfold keepalive_step, ebind, eget, eput, try_emit. simpl. repeat case_match; done. }
    rewrite replicate_S_end, (Happ _ _ _ _ _ _ Hr) by (apply Forall_replicate; done).
    cbn [inner_keepalive_loop]. unfold ebind, keepalive_step, ebind, eget, eput. simpl.
    assert (saturate_u 64 (ka_ticks_to_close s - 1) = 0)%Z as -> by (unfold saturate_u; lia). simpl. eauto.
Qed.

Module KeepAliveSamples.
(** A wire format: one byte and the message. *)
#[export] Instance toy_ka : KaSerde := {|
  ka_proto_serialize m := match m with KaKeepAlive => [Byte.x00] | KaData b => Byte.x01 :: b end;
  ka_proto_deserialize b := match b with
                            | [Byte.x00] => Some KaKeepAlive
                            | Byte.x01 :: m => Some (KaData m)
                            | _ => None
                            end
|}.
#[export] Instance toy_ka_laws : KaSerdeLaws.
Proof. by intros []. Qed.

Definition inputs : list input :=
  [InSend true [Byte.x07]; InTick; InDeliver false; InTick; InDeliver false; InDeliver true; InTick; InTick;
   InDeliver true; InDeliver false].

Lemma keepalive_pair_alive_witness :
  timely_inputs 4 1 inputs (side_new 4, side_new 4) /\
  exists a b, pair_run 4 inputs = Some (a, b) /\
    sd_sent a = sd_received b ++ omap payload (sd_flight a).*2 /\
    sd_sent b = sd_received a ++ omap payload (sd_flight b).*2.
Proof.
  assert (timely_inputs 4 1 inputs (side_new 4, side_new 4)) as Ht.
  { vm_compute. repeat (split; [intros Hx; first [discriminate Hx|split; repeat constructor]|]). exact I. }
  split; [exact Ht|]. apply (keepalive_pair_alive 4 1 inputs); [by vm_compute|lia|by vm_compute|exact Ht].
Defined.
Lemma silent_remote_closed_witness :
  exists s l, inner_keepalive_loop 4 (fun _ => true) (replicate 4 KaTimerTick) (keepalive_new 4) [] = EErr RemoteTimeout s l.
Proof. apply (proj2 (silent_remote_closed 4 4 ltac:(by vm_compute))). reflexivity. Defined.
End KeepAliveSamples.
