(* ===== verification/Relay.v ===== *)
(** * Relays

    Models [relay/src]: the server that joins a node that connects with a node
    that listens ([server/server_loop.rs]), the first message of a connection
    ([server/conn_processor.rs], [timer/src/utils.rs]) and the two clients
    ([client/client_listener.rs], [client/client_connector.rs]). Connections are
    named by numbers; wire formats are parameters, and so is whether a task can be
    started and whether the channel of a listener takes a message. *)

From S2P Require Import Prelude Arith Bytes Effects ListenPool.

(** ** Messages ([proto/src/relay/messages.rs]) *)
Inductive InitConnection := InitListen | InitAccept (public_key : PublicKey) | InitConnect (public_key : PublicKey).

(** ** The first message of a connection *)
Inductive IncomingConnInner :=
| IcListen (conn : nat)
| IcAccept (accept_public_key : PublicKey) (conn : nat)
| IcConnect (connect_public_key : PublicKey) (conn : nat).
Record IncomingConn := mkIncomingConn { ic_public_key : PublicKey; ic_inner : IncomingConnInner }.

(** A future that is ready after [ready] ticks, if at all, against a timeout; in
    a tie the executor decides. *)
Definition future_timeout {T : Type} (fut : option (Z * T)) (time_ticks : Z) (tie : bool) : option T :=
  match fut with
  | Some (ready, v) => if (ready <? time_ticks)%Z || ((ready =? time_ticks)%Z && tie) then Some v else None
  | None => None
  end.

Section Processor.
Variable deserialize_init : bytes -> option InitConnection.

Definition dispatch_conn (conn : nat) (public_key : PublicKey) (first_msg : bytes) : option IncomingConn :=
  init ← deserialize_init first_msg;
  Some (mkIncomingConn public_key
          match init with
          | InitListen => IcListen conn
          | InitAccept accept_public_key => IcAccept accept_public_key conn
          | InitConnect connect_public_key => IcConnect connect_public_key conn
          end).

(** [first_msg] is when the first message comes, or the end of the stream. *)
Definition process_conn (conn : nat) (public_key : PublicKey) (first_msg : option (Z * option bytes))
  (conn_timeout_ticks : Z) (tie : bool) : option IncomingConn :=
  let fut_receiver := (fun x => (x.1, m ← x.2; dispatch_conn conn public_key m)) <$> first_msg in
  res ← future_timeout fut_receiver conn_timeout_ticks tie; res.

(** Connections are handled one after the other; those that fail are dropped. *)
Definition conn_processor (conn_timeout_ticks : Z)
  (incoming_conns : list (PublicKey * nat * option (Z * option bytes) * bool)) : list IncomingConn :=
  omap (fun '(public_key, conn, first_msg, tie) => process_conn conn public_key first_msg conn_timeout_ticks tie)
    incoming_conns.
End Processor.

(** ** The server ([server_loop.rs]) *)
Record HalfTunnel := mkHalfTunnel { ht_conn : nat; ht_ticks_to_close : Z }.
Record Listener := mkListener {
  li_half_tunnels : gmap PublicKey HalfTunnel;
  li_tunnels : gset PublicKey;
  li_opt_sender : option nat
}.
Definition listener_new (sender : nat) : Listener := mkListener ∅ ∅ (Some sender).

Inductive RelayServerEvent :=
| RsIncomingConn (c : IncomingConn)
| RsIncomingConnsClosed
| RsTunnelClosed (init_public_key listen_public_key : PublicKey)
| RsListenerMessage (public_key rejected_public_key : PublicKey)
| RsListenerClosed (public_key : PublicKey)
| RsTimerTick
| RsTimerClosed.

Inductive RelayServerError :=
| IncomingConnsError | RequestTimerStreamError | TimerStreamError | ListeningNotInProgress | NoPendingHalfTunnel
| AlreadyListening | EventReceiverError.

(** The tasks of a listening connection, messages to a listener, and tunnels. *)
Inductive RelayServerAction :=
| RsListen (conn : nat) (public_key : PublicKey)
| RsNotify (conn : nat) (public_key : PublicKey)
| RsNotifyFailed (conn : nat)
| RsTunnel (init_conn accept_conn : nat) (init_public_key listen_public_key : PublicKey).

Record RelayServer := mkRelayServer { rs_listeners : gmap PublicKey Listener; rs_incoming_conns_closed : bool }.
Definition relay_server_new : RelayServer := mkRelayServer ∅ false.

Section Server.
(** [spawns] says whether a task can be started, [takes] whether the channel of a
    listener has room for a message; both by what the server did before. *)
Variables (half_tunnel_ticks : Z) (spawns takes : nat -> bool).
Notation M := (Eff RelayServer RelayServerError RelayServerAction).

(** [spawner.spawn(..).unwrap()] *)
Definition spawn_unwrap (a : RelayServerAction) : M unit := fun s l =>
  if spawns (length l) then EOk tt s (l ++ [a]) else EPanic.

Definition put_listener (public_key : PublicKey) (li : Listener) : M unit :=
  let* s := eget in eput (mkRelayServer (<[public_key := li]> (rs_listeners s)) (rs_incoming_conns_closed s)).
Definition remove_listener (public_key : PublicKey) : M unit :=
  let* s := eget in eput (mkRelayServer (delete public_key (rs_listeners s)) (rs_incoming_conns_closed s)).

(** Its errors are values: the caller only logs them. *)
Definition handle_accept (acceptor_public_key accept_public_key : PublicKey) (conn : nat) : M (outcome RelayServerError unit) :=
  let* s := eget in
  match rs_listeners s !! acceptor_public_key with
  | None => eret (Err ListeningNotInProgress)
  | Some li =>
      match li_half_tunnels li !! accept_public_key with
      | None => eret (Err NoPendingHalfTunnel)
      | Some ht =>
          let* _ := put_listener acceptor_public_key
                      (mkListener (delete accept_public_key (li_half_tunnels li)) (li_tunnels li) (li_opt_sender li)) in
          let* _ := spawn_unwrap (RsTunnel (ht_conn ht) conn accept_public_key acceptor_public_key) in
          eret (Ok tt)
      end
  end.

(** [sender.try_send(..)] *)
Definition try_notify (sender : nat) (public_key : PublicKey) : M bool := fun s l =>
  if takes (length l) then EOk true s (l ++ [RsNotify sender public_key]) else EOk false s (l ++ [RsNotifyFailed sender]).

(** The result is false for [continue]. *)
Definition handle_incoming_conn (c : IncomingConn) : M bool :=
  let* s := eget in
  match ic_inner c with
  | IcListen conn =>
      if decide (is_Some (rs_listeners s !! ic_public_key c)) then eret false
      else let* _ := spawn_unwrap (RsListen conn (ic_public_key c)) in
           let* _ := put_listener (ic_public_key c) (listener_new conn) in eret true
  | IcAccept accept_public_key conn =>
      let* _ := handle_accept (ic_public_key c) accept_public_key conn in eret true
  | IcConnect connect_public_key conn =>
      match rs_listeners s !! connect_public_key with
      | None => eret false
      | Some li =>
          if decide (is_Some (li_half_tunnels li !! ic_public_key c) \/ ic_public_key c ∈ li_tunnels li) then eret false
          else match li_opt_sender li with
               | Some sender =>
                   let* sent := try_notify sender (ic_public_key c) in
                   if sent then
                     let* _ := put_listener connect_public_key
                       (mkListener (<[ic_public_key c := mkHalfTunnel conn half_tunnel_ticks]> (li_half_tunnels li))
                          (li_tunnels li) (li_opt_sender li)) in eret true
                   else eret true
               | None => eret true
               end
      end
  end.

Definition tick_half_tunnels (hts : gmap PublicKey HalfTunnel) : gmap PublicKey HalfTunnel :=
  omap (fun ht => let ticks := saturate_u 64 (ht_ticks_to_close ht - 1) in
                  if (0 <? ticks)%Z then Some (mkHalfTunnel (ht_conn ht) ticks) else None) hts.

(** One event: whether the condition of the end of the loop is checked. [None]
    is the [break]. *)
Definition relay_server_step (e : RelayServerEvent) : M (option bool) :=
  let* s := eget in
  match e with
  | RsIncomingConn c => let* check := handle_incoming_conn c in eret (Some check)
  | RsIncomingConnsClosed => let* _ := eput (mkRelayServer (rs_listeners s) true) in eret (Some true)
  | RsTunnelClosed init_public_key listen_public_key =>
      match rs_listeners s !! listen_public_key with
      | None => eret (Some false)
      | Some li =>
          let li := mkListener (li_half_tunnels li) (li_tunnels li ∖ {[init_public_key]}) (li_opt_sender li) in
          let* _ := (if decide (li_opt_sender li = None /\ li_tunnels li = ∅) then remove_listener listen_public_key
                     else put_listener listen_public_key li) in eret (Some true)
      end
  | RsListenerMessage public_key rejected_public_key =>
      match rs_listeners s !! public_key with
      | None => eret (Some false)
      | Some li =>
          let* _ := put_listener public_key
            (mkListener (delete rejected_public_key (li_half_tunnels li)) (li_tunnels li) (li_opt_sender li)) in
          eret (Some true)
      end
  | RsListenerClosed public_key =>
      match rs_listeners s !! public_key with
      | None => eret (Some false)
      | Some li =>
          let* _ := (if decide (li_tunnels li = ∅) then remove_listener public_key
                     else put_listener public_key (mkListener ∅ (li_tunnels li) None)) in eret (Some true)
      end
  | RsTimerTick =>
      let* _ := eput (mkRelayServer
        ((fun li => mkListener (tick_half_tunnels (li_half_tunnels li)) (li_tunnels li) (li_opt_sender li)) <$> rs_listeners s)
        (rs_incoming_conns_closed s)) in eret (Some true)
  | RsTimerClosed => eret None
  end.

Fixpoint relay_server_events (events : list RelayServerEvent) : M unit :=
  match events with
  | [] => eret tt
  | e :: events' =>
      let* r := relay_server_step e in
      let* s := eget in
      match r with
      | None => eret tt
      | Some check =>
          if check && rs_incoming_conns_closed s && bool_decide (rs_listeners s = ∅) then eret tt
          else relay_server_events events'
      end
  end.

(** [timer_stream] is whether the timer service gave a stream. *)
Definition relay_server_loop (timer_stream : bool) (events : list RelayServerEvent) : M unit :=
  if timer_stream then relay_server_events events else efail RequestTimerStreamError.
End Server.

(** ** The listening client ([client_listener.rs]) *)
Inductive ClientListenerError := SendInitConnectionError | ConnectionFailure | SendToServerError | ClSpawnError.
Inductive ClientListenerEvent :=
| ClAccessControlOp (op : AccessControlOp PublicKey)
| ClAccessControlClosed
| ClServerMessage (public_key : PublicKey)
| ClServerClosed
| ClPendingReject (public_key : PublicKey).
Inductive ClientListenerAction :=
| ClSendInit (init : InitConnection)
| ClReject (public_key : PublicKey)
| ClAccept (public_key : PublicKey).

Section Client.
Variable ok : nat -> bool.
Notation M := (Eff (AccessControl PublicKey) ClientListenerError ClientListenerAction).

Definition init_listener_conn (connected : bool) : M unit :=
  if connected then emit ok SendInitConnectionError (ClSendInit InitListen) else efail ConnectionFailure.

(** The result says whether the loop goes on. *)
Definition client_listener_step (e : ClientListenerEvent) : M bool :=
  match e with
  | ClAccessControlOp op => let* ac := eget in let* _ := eput (apply_op ac op) in eret true
  | ClServerMessage public_key =>
      let* ac := eget in
      let* _ := (if negb (is_allowed ac public_key) then emit ok SendToServerError (ClReject public_key)
                 else emit ok ClSpawnError (ClAccept public_key)) in
      eret true
  | ClPendingReject public_key => let* _ := emit ok SendToServerError (ClReject public_key) in eret true
  | ClServerClosed | ClAccessControlClosed => eret false
  end.

Fixpoint inner_client_listener (events : list ClientListenerEvent) : M unit :=
  match events with
  | [] => eret tt
  | e :: events' => let* go_on := client_listener_step e in if go_on then inner_client_listener events' else eret tt
  end.

(** The messages of the server: the stream ends at the first one that cannot be decoded. *)
Fixpoint server_receiver (deserialize_incoming : bytes -> option PublicKey) (msgs : list bytes) : list ClientListenerEvent :=
  match msgs with
  | [] => [ClServerClosed]
  | m :: msgs' =>
      match deserialize_incoming m with
      | Some public_key => ClServerMessage public_key :: server_receiver deserialize_incoming msgs'
      | None => [ClServerClosed]
      end
  end.

(** [ClientListener::listen]: the first message, then the listening task. *)
Definition listen (connected : bool) (events : list ClientListenerEvent) : M unit :=
  let* _ := init_listener_conn connected in inner_client_listener events.

(** The task that accepts a connection: a new connection to the relay, which may
    fail or take too long, and its first message. *)
Inductive AcceptConnectionError :=
| AcConnectionFailed | AcPendingRejectSenderError | AcSendInitConnectionError | AcSendConnPairError
| AcRequestTimerStreamError.
Inductive AcceptAction := AcPendingReject (public_key : PublicKey) | AcSendInit (init : InitConnection) | AcConnection (public_key : PublicKey) (conn : nat).

Definition connect_with_timeout (connect : option (Z * option nat)) (conn_timeout_ticks : Z) (tie : bool) : option nat :=
  res ← future_timeout connect conn_timeout_ticks tie; res.

Definition accept_connection (public_key : PublicKey) (timer_stream : bool) (connect : option (Z * option nat))
  (conn_timeout_ticks : Z) (tie : bool) (send_init_ok : bool) : Eff unit AcceptConnectionError AcceptAction unit :=
  if negb timer_stream then efail AcRequestTimerStreamError
  else match connect_with_timeout connect conn_timeout_ticks tie with
  | None =>
      let* _ := emit ok AcPendingRejectSenderError (AcPendingReject public_key) in efail AcConnectionFailed
  | Some conn =>
      if send_init_ok then
        let* _ := emit (fun _ => true) AcSendInitConnectionError (AcSendInit (InitAccept public_key)) in
        emit ok AcSendConnPairError (AcConnection public_key conn)
      else
        let* _ := emit ok AcPendingRejectSenderError (AcPendingReject public_key) in efail AcSendInitConnectionError
  end.
End Client.

(** ** The connecting client ([client_connector.rs]) *)
Inductive ClientConnectorError := CcInnerConnectorError | CcSendInitConnectionError.
Definition relay_connect {A : Type} (connector : A -> option nat) (send_ok : nat -> InitConnection -> bool)
  (relay_address : A) (remote_public_key : PublicKey) : outcome ClientConnectorError nat :=
  let? conn := ok_or (connector relay_address) CcInnerConnectorError in
  if send_ok conn (InitConnect remote_public_key) then Ok conn else Err CcSendInitConnectionError.
