(* ===== verification/RelayTheory.v ===== *)
(** * Relays: what they join

    Tunnels are made by consent: of the node that connects, and of the node that
    listens, which was told who connects. A half tunnel waits a bounded number of
    ticks, whatever else happens, and the listening client accepts exactly the
    friends the pool of listeners of the channeler has for its relay. *)

From S2P Require Import Prelude Arith Bytes Effects ListenPool Relay.

(** ** Tunnels are made by consent *)
Definition event_conn (e : RelayServerEvent) : option nat :=
  match e with
  | RsIncomingConn c => Some match ic_inner c with IcListen conn | IcAccept _ conn | IcConnect _ conn => conn end
  | _ => None
  end.
Definition tunnel_conns (a : RelayServerAction) : list nat :=
  match a with RsTunnel ic ac _ _ => [ic; ac] | _ => [] end.

Definition connects (i lk : PublicKey) (conn : nat) := RsIncomingConn (mkIncomingConn i (IcConnect lk conn)).
Definition accepts (lk i : PublicKey) (conn : nat) := RsIncomingConn (mkIncomingConn lk (IcAccept i conn)).

Ltac relay_step :=
  first [wp_step | progress unfold put_listener, remove_listener
        | (apply wp_put || apply wp_get || apply wp_ret); cbn beta].

Section Consent.
Variables (half_tunnel_ticks : Z) (spawns takes : nat -> bool).
Implicit Types (seen : list RelayServerEvent) (s : RelayServer) (l : list RelayServerAction) (i lk : PublicKey).

(** A half tunnel was asked for, and the listener was told. *)
Definition half_ok seen l lk (lc : nat) i (ht : HalfTunnel) : Prop :=
  connects i lk (ht_conn ht) ∈ seen /\ RsNotify lc i ∈ l /\
  (NoDup (omap event_conn seen) -> ht_conn ht ∉ l ≫= tunnel_conns).
Definition listener_ok seen l lk (li : Listener) : Prop :=
  li_tunnels li = ∅ /\ exists lc, li_opt_sender li = Some lc /\ RsListen lc lk ∈ l /\
  map_Forall (half_ok seen l lk lc) (li_half_tunnels li).
Definition consent seen l (a : RelayServerAction) (before : list RelayServerAction) : Prop :=
  match a with
  | RsTunnel ic ac i lk =>
      connects i lk ic ∈ seen /\ accepts lk i ac ∈ seen /\ exists lc, RsListen lc lk ∈ before /\ RsNotify lc i ∈ before
  | _ => True
  end.
Definition log_ok seen l : Prop :=
  (forall l1 a l2, l = l1 ++ a :: l2 -> consent seen l a l1) /\
  (forall c, c ∈ l ≫= tunnel_conns -> c ∈ omap event_conn seen) /\
  (NoDup (omap event_conn seen) -> NoDup (l ≫= tunnel_conns)).
Definition relay_ok seen s l : Prop :=
  map_Forall (listener_ok seen l) (rs_listeners s) /\ log_ok seen l.

Lemma event_conn_inj seen e e' c :
  NoDup (omap event_conn seen) -> e ∈ seen -> e' ∈ seen -> event_conn e = Some c -> event_conn e' = Some c -> e = e'.
Proof.
  induction seen as [|x seen IH]; simpl; intros Hnd He He' Hc Hc'; [by apply elem_of_nil in He|].
  assert (forall y, y ∈ seen -> event_conn y = Some c -> c ∈ omap event_conn seen) as Hin.
  { intros y Hy Hyc. apply list_elem_of_omap. eauto. }
  apply elem_of_cons in He as [->|He]; apply elem_of_cons in He' as [->|He']; [done| | |].
  - rewrite Hc in Hnd. apply NoDup_cons in Hnd as [Hn _]. destruct Hn. by eapply Hin.
  - rewrite Hc' in Hnd. apply NoDup_cons in Hnd as [Hn _]. destruct Hn. by eapply Hin.
  - apply IH; [|done..]. destruct (event_conn x); [by apply NoDup_cons in Hnd as [_ Hnd]|done].
Qed.

Lemma NoDup_seen seen e : NoDup (omap event_conn (seen ++ [e])) -> NoDup (omap event_conn seen).
Proof. rewrite omap_app. intros Hnd. by apply NoDup_app in Hnd as [Hnd _]. Qed.

Lemma half_ok_seen seen l e lk lc i ht : half_ok seen l lk lc i ht -> half_ok (seen ++ [e]) l lk lc i ht.
Proof.
  intros (Hc & Hn & Hu). split_and!; [set_solver|done|]. intros Hnd%NoDup_seen. by apply Hu.
Qed.
Lemma relay_ok_seen seen s l e : relay_ok seen s l -> relay_ok (seen ++ [e]) s l.
Proof.
  intros [Hl (Hc & Hi & Hu)]. split; [|split_and!].
  - intros lk li Hli. destruct (Hl _ _ Hli) as (Ht & lc & Hs & Hls & Hh). split; [done|]. exists lc. split_and!; [done..|].
    intros i ht Hht. by apply half_ok_seen, Hh.
  - intros l1 a l2 ->. specialize (Hc l1 a l2 eq_refl). destruct a; simpl in *; [done..|]. set_solver.
  - intros c Hc'%Hi. rewrite omap_app. set_solver.
  - intros Hnd%NoDup_seen. by apply Hu.
Qed.

(** The log grows by an action that is not a tunnel. *)
Lemma relay_ok_log seen s l a : tunnel_conns a = [] -> relay_ok seen s l -> relay_ok seen s (l ++ [a]).
Proof.
  intros Ha [Hl (Hc & Hi & Hu)].
  assert ((l ++ [a]) ≫= tunnel_conns = l ≫= tunnel_conns) as El.
  { rewrite bind_app. simpl. by rewrite Ha, !app_nil_r. }
  split; [|split_and!; rewrite ?El; try done].
  - intros lk li Hli. destruct (Hl _ _ Hli) as (Ht & lc & Hs & Hls & Hh). split; [done|]. exists lc. split_and!; [done|set_solver|].
    intros i ht Hht. destruct (Hh _ _ Hht) as (H1 & H2 & H3). split_and!; [done|set_solver|by rewrite El].
  - intros l1 a' l2 E. destruct l2 as [|b l2 _] using rev_ind.
    + apply app_inj_tail in E as [-> ->]. by destruct a'.
    + rewrite app_comm_cons, app_assoc in E. apply app_inj_tail in E as [-> ->]. by eapply Hc.
Qed.

(** A listener is replaced by one that is as good. *)
Lemma relay_ok_put seen s l lk li b :
  relay_ok seen s l -> listener_ok seen l lk li -> relay_ok seen (mkRelayServer (<[lk := li]> (rs_listeners s)) b) l.
Proof. intros [Hl Hlog] Hli. split; [|done]. by apply map_Forall_insert_2. Qed.
Lemma listener_ok_sub seen l lk li hts :
  listener_ok seen l lk li -> (forall i ht, hts !! i = Some ht ->
    exists ht', li_half_tunnels li !! i = Some ht' /\ ht_conn ht' = ht_conn ht) ->
  listener_ok seen l lk (mkListener hts (li_tunnels li) (li_opt_sender li)).
Proof.
  intros (Ht & lc & Hs & Hls & Hh) Hsub. split; [done|]. exists lc. split_and!; [done..|].
  intros i ht Hht. destruct (Hsub _ _ Hht) as (ht' & Hht' & E). destruct (Hh _ _ Hht') as (H1 & H2 & H3).
  unfold half_ok. by rewrite <-E.
Qed.

Lemma new_conn seen lk i conn : NoDup (omap event_conn (seen ++ [accepts lk i conn])) -> conn ∉ omap event_conn seen.
Proof. rewrite omap_app. simpl. intros (_ & Hd & _)%NoDup_app Hin. apply (Hd _ Hin). set_solver. Qed.
Lemma half_seen seen l lk lc i ht : half_ok seen l lk lc i ht -> ht_conn ht ∈ omap event_conn seen.
Proof. intros (Hc & _). apply list_elem_of_omap. eexists. by split. Qed.

(** Another half tunnel is used. *)
Lemma half_ok_other seen l lk lc i ht lk' lc' j h conn :
  half_ok seen l lk lc i ht -> half_ok seen l lk' lc' j h -> (lk', j) <> (lk, i) ->
  half_ok (seen ++ [accepts lk i conn]) (l ++ [RsTunnel (ht_conn ht) conn i lk]) lk' lc' j h.
Proof.
  intros Hht Hh Hne. pose proof (half_seen _ _ _ _ _ _ Hh) as Hs. destruct Hh as (Hc & Hn & Hu), Hht as (Hc' & _).
  split_and!; [set_solver|set_solver|]. intros Hnd. rewrite bind_app, not_elem_of_app. pose proof (NoDup_seen _ _ Hnd) as Hnd'.
  split; [by apply Hu|]. simpl. rewrite !not_elem_of_cons. split_and!; [| |by apply not_elem_of_nil].
  - intros E. assert (connects j lk' (ht_conn h) = connects i lk (ht_conn ht)) as [= -> ->]; [|done].
    eapply event_conn_inj; [done..|]. by rewrite E.
  - intros E. destruct (new_conn _ _ _ _ Hnd). by rewrite <-E.
Qed.

(** A half tunnel is used: its connection and the accepting one leave for the tunnel. *)
Lemma relay_ok_tunnel seen s l lk li i ht conn :
  relay_ok seen s l -> rs_listeners s !! lk = Some li -> li_half_tunnels li !! i = Some ht ->
  relay_ok (seen ++ [accepts lk i conn])
    (mkRelayServer (<[lk := mkListener (delete i (li_half_tunnels li)) (li_tunnels li) (li_opt_sender li)]> (rs_listeners s))
       (rs_incoming_conns_closed s)) (l ++ [RsTunnel (ht_conn ht) conn i lk]).
Proof.
  intros [Hl (Hc & Hi & Hu)] Hli Hht.
  destruct (Hl _ _ Hli) as (Ht & lc & Hs & Hls & Hh). pose proof (Hh _ _ Hht) as Hok.
  pose proof (half_seen _ _ _ _ _ _ Hok) as Hhs.
  assert ((l ++ [RsTunnel (ht_conn ht) conn i lk]) ≫= tunnel_conns = (l ≫= tunnel_conns) ++ [ht_conn ht; conn]) as El
    by by rewrite bind_app.
  split; [|split_and!; rewrite ?El].
  - cbn [rs_listeners]. apply map_Forall_lookup_2. intros lk' li' [[<- <-]|[Hne Hli']]%lookup_insert_Some.
    + split; [done|]. exists lc. split_and!; [done|set_solver|]. simpl. intros j h [Hj Hjh]%lookup_delete_Some.
      eapply half_ok_other; [exact Hok|by apply Hh|congruence].
    + destruct (Hl _ _ Hli') as (Ht' & lc' & Hs' & Hls' & Hh'). split; [done|]. exists lc'. split_and!; [done|set_solver|].
      intros j h Hj. eapply half_ok_other; [exact Hok|by apply Hh'|congruence].
  - intros l1 a l2 E. destruct l2 as [|b l2 _] using rev_ind.
    + apply app_inj_tail in E as [<- <-]. simpl. destruct Hok as (Hcon & Hnot & _). set_solver.
    + rewrite app_comm_cons, app_assoc in E. apply app_inj_tail in E as [-> ->].
      specialize (Hc l1 a l2 eq_refl). destruct a; simpl in *; [done..|]. set_solver.
  - intros c. rewrite omap_app, !elem_of_app. simpl. rewrite !elem_of_cons. intros [Hc'|[->|[->|[]%elem_of_nil]]]; [left; auto|by left|].
    right. by left.
  - intros Hnd. pose proof (NoDup_seen _ _ Hnd) as Hnd'. apply NoDup_app. split_and!; [by apply Hu| |].
    + intros c Hc'. rewrite !not_elem_of_cons. destruct Hok as (_ & _ & Hf). split_and!; [| |by apply not_elem_of_nil].
      * intros ->. by apply Hf.
      * intros ->. apply (new_conn _ _ _ _ Hnd). by apply Hi.
    + apply NoDup_cons. split; [|apply NoDup_singleton]. rewrite list_elem_of_singleton. intros E.
      apply (new_conn _ _ _ _ Hnd). by rewrite <-E.
Qed.

(** A connection waits for the listener, which is told. *)
Lemma relay_ok_half seen s l lk li lc i conn :
  relay_ok seen s l -> rs_listeners s !! lk = Some li -> li_opt_sender li = Some lc ->
  relay_ok (seen ++ [connects i lk conn])
    (mkRelayServer (<[lk := mkListener (<[i := mkHalfTunnel conn half_tunnel_ticks]> (li_half_tunnels li))
                              (li_tunnels li) (li_opt_sender li)]> (rs_listeners s)) (rs_incoming_conns_closed s))
    (l ++ [RsNotify lc i]).
Proof.
  intros Hok Hli Hlc. pose proof (relay_ok_log _ _ _ (RsNotify lc i) eq_refl (relay_ok_seen _ _ _ (connects i lk conn) Hok)) as Hok'.
  apply relay_ok_put; [done|]. destruct (proj1 Hok' _ _ Hli) as (Ht & lc' & Hs & Hls & Hh). split; [done|].
  exists lc. assert (lc' = lc) as -> by congruence. split_and!; [done..|]. apply map_Forall_insert_2; [|done].
  split_and!; [set_solver|set_solver|]. rewrite bind_app. simpl. rewrite app_nil_r. intros Hnd Hin.
  apply (proj1 (proj2 (proj2 Hok))) in Hin. revert Hnd. rewrite omap_app. intros (_ & Hd & _)%NoDup_app.
  apply (Hd _ Hin). simpl. by left.
Qed.

Lemma tick_half_lookup hts i ht :
  tick_half_tunnels hts !! i = Some ht -> exists ht', hts !! i = Some ht' /\ ht_conn ht' = ht_conn ht.
Proof.
  unfold tick_half_tunnels. rewrite lookup_omap. destruct (hts !! i) as [h|]; [|done]. simpl.
  case_match; [|done]. intros [= <-]. eauto.
Qed.
Lemma relay_ok_new : relay_ok [] relay_server_new [].
Proof.
  split; [apply map_Forall_empty|]. split_and!; [by intros []|by intros c ?%elem_of_nil|intros; apply NoDup_nil_2].
Qed.
Definition spawn_failed : Prop := exists n, spawns n = false.

(** Every event keeps the invariant. *)
Lemma wp_relay_step e s l seen :
  relay_ok seen s l ->
  wp spawn_failed (fun _ _ => False) (relay_server_step half_tunnel_ticks spawns takes e)
    (fun _ s' l' => relay_ok (seen ++ [e]) s' l') s l.
Proof.
  intros Hok. pose proof (relay_ok_seen _ _ _ e Hok) as Hok'. unfold relay_server_step. relay_step. relay_step.
  destruct e as [[pk [conn|a conn|lk conn]]| |ik lk|pk r|pk| |]; [relay_step; unfold handle_incoming_conn; simpl; relay_step; relay_step..| | | | | |].
  - case_decide as Hd; [by repeat relay_step|]. repeat relay_step.
    unfold wp, spawn_unwrap. destruct (spawns (length l)) eqn:Eok; [|by exists (length l)]. simpl.
    apply relay_ok_put; [by apply relay_ok_log|]. split; [done|]. exists conn. split_and!; [done|set_solver|apply map_Forall_empty].
  - repeat relay_step. unfold handle_accept. repeat relay_step.
    destruct (rs_listeners s !! pk) as [li|] eqn:Eli; [|by repeat relay_step].
    destruct (li_half_tunnels li !! a) as [ht|] eqn:Eht; [|by repeat relay_step].
    repeat relay_step. unfold wp, spawn_unwrap. destruct (spawns (length l)) eqn:Eok; [|by exists (length l)]. simpl.
    by apply relay_ok_tunnel.
  - repeat relay_step. destruct (rs_listeners s !! lk) as [li|] eqn:Eli; [|by repeat relay_step].
    case_decide as Hd; [by repeat relay_step|]. destruct (li_opt_sender li) as [lc|] eqn:Elc; [|by repeat relay_step].
    repeat relay_step. unfold wp, try_notify. destruct (takes (length l)) eqn:Eok; simpl; [|by apply relay_ok_log].
    rewrite <-Elc. by apply relay_ok_half.
  - by repeat relay_step.
  - destruct (rs_listeners s !! lk) as [li|] eqn:Eli; [|by repeat relay_step]. repeat relay_step.
    destruct (proj1 Hok' _ _ Eli) as (Ht & lc & Hlc & Hrest). simpl. rewrite decide_False by (rewrite Hlc; naive_solver).
    repeat relay_step. apply relay_ok_put; [done|]. split; [simpl; set_solver|]. exists lc. by split.
  - destruct (rs_listeners s !! pk) as [li|] eqn:Eli; [|by repeat relay_step]. repeat relay_step.
    apply relay_ok_put; [done|]. apply listener_ok_sub; [by apply Hok'|].
    intros i ht [_ Hht]%lookup_delete_Some. eauto.
  - destruct (rs_listeners s !! pk) as [li|] eqn:Eli; [|by repeat relay_step]. repeat relay_step.
    destruct (proj1 Hok' _ _ Eli) as (Ht & _). rewrite decide_True by done. repeat relay_step.
    split; [|apply Hok']. apply map_Forall_delete, Hok'.
  - repeat relay_step. split; [|apply Hok']. simpl. intros lk li Hli. apply lookup_fmap_Some in Hli as (li0 & <- & Hli0).
    apply listener_ok_sub; [by apply Hok'|]. apply tick_half_lookup.
  - by repeat relay_step.
Qed.

Lemma wp_relay_events events s l seen :
  relay_ok seen s l ->
  wp spawn_failed (fun _ _ => False) (relay_server_events half_tunnel_ticks spawns takes events)
    (fun _ s' l' => relay_ok (seen ++ events) s' l') s l.
Proof.
  revert s l seen. induction events as [|e events IH]; intros s l seen Hok; simpl; [by rewrite app_nil_r|].
  relay_step. eapply wp_mono; [|by apply wp_relay_step]. intros r s' l' Hok'. repeat relay_step.
  assert (forall more, relay_ok ((seen ++ [e]) ++ more) s' l') as Hmore.
  { induction more as [|x more IHm] using rev_ind; [by rewrite app_nil_r|]. rewrite app_assoc. by apply relay_ok_seen. }
  replace (seen ++ e :: events) with ((seen ++ [e]) ++ events) by by rewrite <-app_assoc.
  destruct r as [check|]; [|relay_step; by apply Hmore]. case_match; [relay_step; by apply Hmore|]. by apply IH.
Qed.
End Consent.

(** C29. A relay joins two connections only by consent: one came from a node that
    asked to connect to the listener, the other from the listener, which asked for
    that node after the relay had told it that the node was waiting. When the
    connections are different ones, none is ever part of two tunnels. The relay
    returns an error exactly when it gets no timer, and has then done nothing. It
    panics only when a task cannot be started: however full the channels of the
    listeners are, it goes on. *)
Theorem tunnels_by_consent (half_tunnel_ticks : Z) (spawns takes : nat -> bool) (timer_stream : bool) (events : list RelayServerEvent) :
  match relay_server_loop half_tunnel_ticks spawns takes timer_stream events relay_server_new [] with
  | EOk _ _ l =>
      timer_stream = true /\
      (forall l1 ic ac init_pk listen_pk l2, l = l1 ++ RsTunnel ic ac init_pk listen_pk :: l2 ->
         RsIncomingConn (mkIncomingConn init_pk (IcConnect listen_pk ic)) ∈ events /\
         RsIncomingConn (mkIncomingConn listen_pk (IcAccept init_pk ac)) ∈ events /\
         exists lc, RsListen lc listen_pk ∈ l1 /\ RsNotify lc init_pk ∈ l1) /\
      (NoDup (omap event_conn events) -> NoDup (l ≫= tunnel_conns))
  | EErr e s l => timer_stream = false /\ e = RequestTimerStreamError /\ s = relay_server_new /\ l = []
  | EPanic => timer_stream = true /\ exists n, spawns n = false
  end.
Proof.
  destruct timer_stream; [|done].
  pose proof (wp_relay_events half_tunnel_ticks spawns takes events relay_server_new [] []) as Hw. simpl in Hw.
  unfold relay_server_loop, wp in *. destruct (relay_server_events _ _ _ _ _ _) as [[] s l|err s l|].
  - destruct (Hw relay_ok_new) as [_ (Hc & _ & Hu)]. split_and!; [done| |done]. intros l1 ic ac i lk l2 E. apply (Hc _ _ _ E).
  - destruct (Hw relay_ok_new).
  - split; [done|]. by apply Hw, relay_ok_new.
Qed.

(** ** How long a half tunnel waits *)

(** Events that act on the half tunnel of [i] at [lk], or stop the server. *)
Definition concerns (i lk : PublicKey) (e : RelayServerEvent) : bool :=
  match e with
  | RsIncomingConn c =>
      match ic_inner c with
      | IcListen _ => false
      | IcAccept a _ => bool_decide (ic_public_key c = lk /\ a = i)
      | IcConnect lk' _ => bool_decide (ic_public_key c = i /\ lk' = lk)
      end
  | RsListenerMessage pk r => bool_decide (pk = lk /\ r = i)
  | RsListenerClosed pk => bool_decide (pk = lk)
  | RsTimerClosed => true
  | RsIncomingConnsClosed | RsTunnelClosed _ _ | RsTimerTick => false
  end.
Definition ticks (events : list RelayServerEvent) : nat :=
  foldr (fun e n => match e with RsTimerTick => S n | _ => n end) 0 events.

Section Window.
Variables (half_tunnel_ticks : Z) (spawns takes : nat -> bool).
Hypothesis Hall : forall n, spawns n = true.
Hypothesis Hroom : forall n, takes n = true.
Implicit Types (s : RelayServer) (l : list RelayServerAction) (i lk : PublicKey).

(** The listener [lk] is served, and [o] waits for it in the name of [i]. *)
Definition waiting s i lk (o : option HalfTunnel) : Prop :=
  exists li, rs_listeners s !! lk = Some li /\ is_Some (li_opt_sender li) /\ li_half_tunnels li !! i = o.
Definition tick_half (ht : HalfTunnel) : option HalfTunnel :=
  let t := saturate_u 64 (ht_ticks_to_close ht - 1) in if (0 <? t)%Z then Some (mkHalfTunnel (ht_conn ht) t) else None.
Definition aged (e : RelayServerEvent) (o : option HalfTunnel) : option HalfTunnel :=
  match e with RsTimerTick => o ≫= tick_half | _ => o end.

Lemma waiting_put s i lk o lk' li' b :
  waiting s i lk o -> (lk' = lk -> is_Some (li_opt_sender li') /\ li_half_tunnels li' !! i = o) ->
  waiting (mkRelayServer (<[lk' := li']> (rs_listeners s)) b) i lk o.
Proof.
  intros (li & Hli & Hs & Ho) Hp. destruct (decide (lk' = lk)) as [->|Hne].
  - destruct (Hp eq_refl) as [Hs' Ho']. exists li'. simpl. by rewrite lookup_insert_eq.
  - exists li. simpl. by rewrite lookup_insert_ne.
Qed.

Lemma wp_other_step e s l i lk o :
  concerns i lk e = false -> waiting s i lk o ->
  wp False (fun _ _ => False) (relay_server_step half_tunnel_ticks spawns takes e)
    (fun r s' _ => is_Some r /\ waiting s' i lk (aged e o)) s l.
Proof.
  intros Hc Hw. unfold relay_server_step. relay_step. relay_step.
  destruct e as [[pk [conn|a conn|lk' conn]]| |ik lk'|pk r|pk| |]; simpl in Hc; try apply bool_decide_eq_false in Hc;
    [relay_step; unfold handle_incoming_conn; simpl; relay_step; relay_step..| | | | | |done].
  - case_decide as Hd; [by repeat relay_step|]. repeat relay_step. unfold wp, spawn_unwrap. rewrite Hall. simpl.
    split; [done|]. apply waiting_put; [done|]. intros ->. destruct Hw as (li & Hli & _). destruct Hd. by eexists.
  - repeat relay_step. unfold handle_accept. repeat relay_step.
    destruct (rs_listeners s !! pk) as [li|] eqn:Eli; [|by repeat relay_step].
    destruct (li_half_tunnels li !! a) as [ht|] eqn:Eht; [|by repeat relay_step].
    repeat relay_step. unfold wp, spawn_unwrap. rewrite Hall. simpl. split; [done|]. apply waiting_put; [done|].
    intros ->. destruct Hw as (li' & Hli' & Hs & Ho). rewrite Eli in Hli'. injection Hli' as <-.
    split; [done|]. simpl. rewrite lookup_delete_ne; [done|]. naive_solver.
  - destruct (rs_listeners s !! lk') as [li|] eqn:Eli; [|by repeat relay_step].
    case_decide as Hd; [by repeat relay_step|]. destruct (li_opt_sender li) as [lc|] eqn:Elc; [|by repeat relay_step].
    repeat relay_step. unfold wp, try_notify. rewrite Hroom. simpl. split; [done|]. apply waiting_put; [done|].
    intros ->. destruct Hw as (li' & Hli' & Hs & Ho). rewrite Eli in Hli'. injection Hli' as <-.
    split; [done|]. simpl. rewrite lookup_insert_ne; [done|]. naive_solver.
  - by repeat relay_step.
  - destruct (rs_listeners s !! lk') as [li|] eqn:Eli; [|by repeat relay_step]. repeat relay_step. simpl.
    case_decide as Hd; repeat relay_step; (split; [done|]).
    + destruct Hw as (li' & Hli' & Hs & Ho). exists li'. split_and!; [|done..]. simpl. rewrite lookup_delete_ne; [done|].
      intros ->. rewrite Eli in Hli'. injection Hli' as <-. destruct Hd as [Hd _]. rewrite Hd in Hs. by destruct Hs.
    + apply waiting_put; [done|]. intros ->. destruct Hw as (li' & Hli' & Hs & Ho). rewrite Eli in Hli'. by injection Hli' as <-.
  - destruct (rs_listeners s !! pk) as [li|] eqn:Eli; [|by repeat relay_step]. repeat relay_step. split; [done|].
    apply waiting_put; [done|]. intros ->. destruct Hw as (li' & Hli' & Hs & Ho). rewrite Eli in Hli'. injection Hli' as <-.
    split; [done|]. simpl. rewrite lookup_delete_ne; [done|]. naive_solver.
  - destruct (rs_listeners s !! pk) as [li|] eqn:Eli; [|by repeat relay_step]. repeat relay_step.
    case_decide as Hd; repeat relay_step; (split; [done|]); destruct Hw as (li' & Hli' & Hs & Ho); exists li'; simpl.
    + by rewrite lookup_delete_ne.
    + by rewrite lookup_insert_ne.
  - repeat relay_step. split; [done|]. destruct Hw as (li & Hli & Hs & Ho). eexists. simpl.
    rewrite lookup_fmap, Hli. split_and!; [done..|]. simpl. unfold tick_half_tunnels. rewrite lookup_omap, Ho. by destruct o.
Qed.

Lemma waiting_nonempty s i lk o : waiting s i lk o -> bool_decide (rs_listeners s = ∅) = false.
Proof. intros (li & Hli & _). apply bool_decide_eq_false. intros E. by rewrite E, lookup_empty in Hli. Qed.

(** The loop goes on while the listener is served. *)
Lemma relay_events_cons e rest s l i lk o r s' l' :
  relay_server_step half_tunnel_ticks spawns takes e s l = EOk (Some r) s' l' -> waiting s' i lk o ->
  relay_server_events half_tunnel_ticks spawns takes (e :: rest) s l = relay_server_events half_tunnel_ticks spawns takes rest s' l'.
Proof.
  intros Hs Hw. cbn [relay_server_events]. unfold ebind, eget. rewrite Hs. simpl.
  by rewrite (waiting_nonempty _ _ _ _ Hw), andb_false_r.
Qed.

Lemma relay_events_waiting events s l i lk o :
  forallb (fun e => negb (concerns i lk e)) events = true -> waiting s i lk o ->
  exists s' l', waiting s' i lk (Nat.iter (ticks events) (fun o => o ≫= tick_half) o) /\ forall rest,
    relay_server_events half_tunnel_ticks spawns takes (events ++ rest) s l = relay_server_events half_tunnel_ticks spawns takes rest s' l'.
Proof.
  revert s l o. induction events as [|e events IH]; intros s l o Hf Hw; [by exists s, l|].
  simpl in Hf. apply andb_prop in Hf as [He%negb_true_iff Hf]. pose proof (wp_other_step e s l i lk o He Hw) as Hstep.
  unfold wp in Hstep. destruct (relay_server_step _ _ _ _ _ _) as [r s1 l1| |] eqn:Es; [|done..].
  destruct Hstep as [[r' ->] Hw1]. destruct (IH s1 l1 _ Hf Hw1) as (s2 & l2 & Hw2 & Hrun). exists s2, l2. split.
  - destruct e; try exact Hw2. cbn [ticks foldr]. by rewrite Nat.iter_succ_r.
  - intros rest. simpl app. by erewrite relay_events_cons.
Qed.

Lemma iter_tick_half k conn t :
  (0 <= t <= u_max 64)%Z ->
  Nat.iter k (fun o => o ≫= tick_half) (Some (mkHalfTunnel conn t)) =
  if (k =? 0)%nat || (Z.of_nat k <? t)%Z then Some (mkHalfTunnel conn (t - Z.of_nat k)) else None.
Proof.
  intros Ht. induction k as [|k IH]; [simpl; do 2 f_equal; lia|]. cbn [Nat.iter nat_rect]. unfold Nat.iter in IH. rewrite IH.
  destruct ((k =? 0)%nat || (Z.of_nat k <? t)%Z) eqn:E; simpl.
  - unfold tick_half, saturate_u. cbn [ht_ticks_to_close ht_conn].
    assert (Z.max 0 (Z.min (u_max 64) (t - Z.of_nat k - 1)) = Z.max 0 (t - Z.of_nat (S k))) as -> by lia.
    destruct (Z.ltb_spec (Z.of_nat (S k)) t), (Z.ltb_spec 0 (Z.max 0 (t - Z.of_nat (S k)))); try lia; [|done].
    do 2 f_equal. lia.
  - apply orb_false_iff in E as [_ E%Z.ltb_ge]. destruct (Z.ltb_spec (Z.of_nat (S k)) t); [lia|done].
Qed.

(** A connection waits for its listener exactly as long as it should, whatever
    the relay does for others in the meantime: when the listener accepts it before
    the timer ticked [half_tunnel_ticks] times they are joined, and later the
    accepting connection is dropped. *)
Theorem half_tunnel_window (s : RelayServer) (l : list RelayServerAction) (events : list RelayServerEvent)
  (init_pk listen_pk : PublicKey) (li : Listener) (lc ic ac : nat)
  (Ht : (0 <= half_tunnel_ticks <= u_max 64)%Z)
  (Hli : rs_listeners s !! listen_pk = Some li) (Hlc : li_opt_sender li = Some lc)
  (Hnew : li_half_tunnels li !! init_pk = None) (Hnt : init_pk ∉ li_tunnels li)
  (Hother : forallb (fun e => negb (concerns init_pk listen_pk e)) events = true) :
  exists s1 l1 s2,
    relay_server_events half_tunnel_ticks spawns takes (connects init_pk listen_pk ic :: events) s l = EOk tt s1 l1 /\
    relay_server_events half_tunnel_ticks spawns takes (connects init_pk listen_pk ic :: events ++ [accepts listen_pk init_pk ac]) s l =
      EOk tt s2 (l1 ++ if (ticks events =? 0)%nat || (Z.of_nat (ticks events) <? half_tunnel_ticks)%Z
                       then [RsTunnel ic ac init_pk listen_pk] else []).
Proof.
  assert (exists s0 l0, relay_server_step half_tunnel_ticks spawns takes (connects init_pk listen_pk ic) s l = EOk (Some true) s0 l0 /\
    waiting s0 init_pk listen_pk (Some (mkHalfTunnel ic half_tunnel_ticks))) as (s0 & l0 & Hs0 & Hw0).
  { eexists _, _. split.
    - unfold relay_server_step, handle_incoming_conn, ebind, eget. simpl. rewrite Hli. rewrite decide_False.
      2: { intros [[? Hh]|?]; [by rewrite Hnew in Hh|done]. }
      rewrite Hlc. unfold try_notify. rewrite Hroom. simpl. reflexivity.
    - eexists. simpl. rewrite lookup_insert_eq. split_and!; [done|by eexists|]. simpl. by rewrite lookup_insert_eq. }
  destruct (relay_events_waiting events s0 l0 _ _ _ Hother Hw0) as (s1 & l1 & Hw1 & Hrun).
  rewrite iter_tick_half in Hw1 by done. exists s1, l1. specialize (Hrun []) as Hrun0. rewrite app_nil_r in Hrun0.
  rewrite !(relay_events_cons _ _ _ _ _ _ _ _ _ _ Hs0 Hw0), Hrun0, Hrun. clear Hrun Hrun0.
  destruct Hw1 as (li1 & Hli1 & _ & Hh1). cbn [relay_server_events].
  unfold relay_server_step, accepts, handle_incoming_conn, handle_accept, ebind, eget. cbn [ic_inner ic_public_key]. rewrite Hli1, Hh1.
  destruct (_ || _); simpl; [|rewrite app_nil_r; case_match; eauto].
  unfold put_listener, spawn_unwrap, ebind, eget, eput. rewrite Hall. simpl. case_match; eauto.
Qed.
End Window.

(** ** The listening client and the pool of listeners

    What a listening task of the channeler was given: the access control it started
    with and the changes sent to it. *)
Section Composition.
Context {RA : Type} `{Countable RA}.

Definition task_op (task : nat) (a : ListenPoolAction RA PublicKey) : option (AccessControlOp PublicKey) :=
  match a with LpControl t op => if decide (t = task) then Some op else None | _ => None end.
Definition event_op (e : ClientListenerEvent) : option (AccessControlOp PublicKey) :=
  match e with ClAccessControlOp op => Some op | _ => None end.

(** The changes of access control and the messages of the relay, in any order. *)
Definition serving (e : ClientListenerEvent) : bool :=
  match e with ClAccessControlOp _ | ClServerMessage _ => true | _ => false end.
Definition acl_after (ac : AccessControl PublicKey) (events : list ClientListenerEvent) : AccessControl PublicKey :=
  foldl apply_op ac (omap event_op events).
Fixpoint verdicts (ac : AccessControl PublicKey) (events : list ClientListenerEvent) : list ClientListenerAction :=
  match events with
  | [] => []
  | ClServerMessage pk :: events' => (if is_allowed ac pk then ClAccept pk else ClReject pk) :: verdicts ac events'
  | e :: events' => verdicts (acl_after ac [e]) events'
  end.

Lemma client_listener_serves ok events rest ac l :
  (forall n, ok n = true) -> forallb serving events = true ->
  inner_client_listener ok (events ++ rest) ac l =
  inner_client_listener ok rest (acl_after ac events) (l ++ verdicts ac events).
Proof.
  intros Hok. revert ac l. induction events as [|e events IH]; intros ac l Hs; simpl; [by rewrite app_nil_r|].
  simpl in Hs. apply andb_prop in Hs as [He Hs]. destruct e as [op| |pk| |pk]; try done; simpl.
  - unfold ebind, eget, eput. cbn. by rewrite IH.
  - unfold ebind, eget, emit. destruct (is_allowed ac pk); simpl; rewrite Hok; simpl; rewrite IH by done; by rewrite <-app_assoc.
Qed.

(** The last start of a task and what it was told since. *)
Lemma task_acl_start l task a ac :
  task_acl l task = Some (a, ac) ->
  exists l1 ac0 l2, l = l1 ++ LpListen task a ac0 :: l2 /\ ac = foldl apply_op ac0 (omap (task_op task) l2).
Proof.
  revert ac. induction l as [|x l IH] using rev_ind; intros ac; [done|]. rewrite task_acl_app.
  destruct x as [t b ac'|t op]; simpl; case_decide as Ht; subst.
  - intros [= <- <-]. by exists l, ac', [].
  - intros (l1 & ac0 & l2 & -> & ->)%IH. exists l1, ac0, (l2 ++ [LpListen t b ac']).
    split; [by rewrite <-app_assoc|]. rewrite omap_app. simpl. by rewrite app_nil_r.
  - destruct (task_acl l task) as [[b ac']|] eqn:E; [|done]. intros [= <- <-].
    destruct (IH _ eq_refl) as (l1 & ac0 & l2 & -> & ->). exists l1, ac0, (l2 ++ [LpControl task op]).
    split; [by rewrite <-app_assoc|]. rewrite omap_app, foldl_app. simpl. by rewrite decide_True.
  - intros (l1 & ac0 & l2 & -> & ->)%IH. exists l1, ac0, (l2 ++ [LpControl t op]).
    split; [by rewrite <-app_assoc|]. rewrite omap_app. simpl. rewrite decide_False by done. by rewrite app_nil_r.
Qed.

(** C30. The listening client of a relay serves the pool of listeners of the
    channeler: whatever the configuration was, a client that was started by the
    pool for a connected relay, and has received the changes the pool sent it, in
    between messages of the relay, opens a connection for a node exactly if the
    node is a friend of that relay in the state of the pool, and rejects it
    otherwise. *)
Theorem listener_admits_relay_friends (ok lp_ok : nat -> bool) (backoff_ticks : Z) (config : list (LpEvent RA PublicKey))
  (s : ListenPool RA PublicKey) (l : list (ListenPoolAction RA PublicKey)) (a : RA) (r : Relay PublicKey RelayStatus) (task : nat)
  (Hok : forall n, ok n = true)
  (Hrun : listen_pool_loop lp_ok config (listen_pool_new backoff_ticks) [] = EOk tt s l)
  (Hr : relays (lp_state s) !! a = Some r) (Htask : rl_status r = RsConnected task) :
  exists l1 ac0 l2, l = l1 ++ LpListen task a ac0 :: l2 /\
    forall events pk,
      forallb serving events = true -> omap event_op events = omap (task_op task) l2 ->
      listen ok true (events ++ [ClServerMessage pk]) ac0 [] =
        EOk tt (mkAccessControl (rl_friends r))
          (ClSendInit InitListen :: verdicts ac0 events ++ [if decide (pk ∈ rl_friends r) then ClAccept pk else ClReject pk]).
Proof.
  pose proof (wp_listen_pool_loop lp_ok config _ [] (synced_new backoff_ticks)) as Hw. unfold wp in Hw. rewrite Hrun in Hw.
  destruct Hw as ([_ Ht] & _). destruct (Ht _ _ _ Hr Htask) as ([al] & Hac & He).
  assert (al = rl_friends r) as -> by set_solver. apply task_acl_start in Hac as (l1 & ac0 & l2 & -> & Hfold).
  exists l1, ac0, l2. split; [done|]. intros events pk Hs Hops.
  unfold listen, init_listener_conn, ebind, emit. rewrite Hok. cbn [app]. rewrite client_listener_serves by done.
  unfold acl_after. rewrite Hops, <-Hfold. cbn. unfold ebind, eget, emit, is_allowed. cbn.
  case_decide as Hd; [rewrite bool_decide_true by done|rewrite bool_decide_false by done]; cbn; rewrite Hok; done.
Qed.
End Composition.

(** ** Samples *)
Module RelaySamples.
Definition all_ok (n : nat) : bool := true.
Definition alice : PublicKey := fixed_of_prefix 32 [Byte.x01].
Definition bob : PublicKey := fixed_of_prefix 32 [Byte.x02].
Definition carol : PublicKey := fixed_of_prefix 32 [Byte.x03].
Definition listens (lk : PublicKey) (conn : nat) := RsIncomingConn (mkIncomingConn lk (IcListen conn)).
Definition log_of (r : eres RelayServer RelayServerError RelayServerAction unit) : list RelayServerAction :=
  match r with EOk _ _ l => l | _ => [] end.
Definition serve (events : list RelayServerEvent) := relay_server_loop 16 all_ok all_ok true events relay_server_new [].

(** Bob connects to Alice while Carol does too. *)
Definition busy : list RelayServerEvent :=
  [RsTimerTick; connects carol alice 7; RsTimerTick; accepts alice carol 8; RsTunnelClosed carol alice].
Definition listening : RelayServer :=
  match serve [listens alice 1] with EOk _ s _ => s | _ => relay_server_new end.

Lemma half_tunnel_window_witness :
  exists s1 l1 s2,
    relay_server_events 16 all_ok all_ok (connects bob alice 2 :: busy) listening [] = EOk tt s1 l1 /\
    relay_server_events 16 all_ok all_ok (connects bob alice 2 :: busy ++ [accepts alice bob 3]) listening [] =
      EOk tt s2 (l1 ++ [RsTunnel 2 3 bob alice]).
Proof.
  apply (half_tunnel_window 16 all_ok all_ok (fun _ => eq_refl) (fun _ => eq_refl) listening [] busy bob alice (listener_new 1) 1 2 3);
    [by vm_compute|reflexivity|reflexivity|reflexivity| |reflexivity].
  by apply (bool_decide_unpack (bob ∉ li_tunnels (listener_new 1))).
Defined.

(** The set [tunnels] of a listener is never filled: a node that has an open tunnel
    to the listener gets another one, and a listener that closes is forgotten at
    once although it has open tunnels. *)
Lemma second_tunnel_of_a_pair :
  log_of (serve [listens alice 1; connects bob alice 2; accepts alice bob 3; connects bob alice 4; accepts alice bob 5]) =
    [RsListen 1 alice; RsNotify 1 bob; RsTunnel 2 3 bob alice; RsNotify 1 bob; RsTunnel 4 5 bob alice].
Proof. by vm_compute. Qed.
Lemma listener_forgotten_with_tunnel :
  match serve [listens alice 1; connects bob alice 2; accepts alice bob 3; RsListenerClosed alice] with
  | EOk _ s l => rs_listeners s = ∅ /\ RsTunnel 2 3 bob alice ∈ l
  | _ => False
  end.
Proof. vm_compute. split; [reflexivity|]. repeat (apply list_elem_of_here || apply list_elem_of_further). Qed.

(** Without an accepting connection in time there is no tunnel. *)
Lemma late_accept_dropped :
  log_of (serve ([listens alice 1; connects bob alice 2] ++ replicate 16 RsTimerTick ++ [accepts alice bob 3])) =
    [RsListen 1 alice; RsNotify 1 bob].
Proof. by vm_compute. Qed.

(** The pool listens on relay 3 for Bob, who comes after Carol left. *)
Definition pool_config : list (LpEvent Z PublicKey) :=
  [LpEvConfig (SetLocalAddresses [1%Z]); LpEvConfig (UpdateFriend carol [3%Z]); LpEvConfig (UpdateFriend bob [3%Z]);
   LpEvConfig (RemoveFriend carol)].
Definition pool_run := listen_pool_loop all_ok pool_config (listen_pool_new 2) [].

Lemma listener_admits_relay_friends_witness :
  match pool_run with
  | EOk _ s l =>
      exists l1 ac0 l2, l = l1 ++ LpListen 1 3%Z ac0 :: l2 /\
        forall events pk,
          forallb serving events = true -> omap event_op events = omap (task_op 1) l2 ->
          listen all_ok true (events ++ [ClServerMessage pk]) ac0 [] =
            EOk tt (mkAccessControl {[bob]})
              (ClSendInit InitListen :: verdicts ac0 events ++
               [if decide (pk ∈ ({[bob]} : gset PublicKey)) then ClAccept pk else ClReject pk])
  | _ => False
  end.
Proof.
  assert (match pool_run with
          | EOk _ s _ =>
              match relays (lp_state s) !! 3%Z with
              | Some r => bool_decide (rl_friends r = {[bob]}) && (match rl_status r with RsConnected t => t =? 1 | _ => false end)
              | None => false
              end
          | _ => false
          end = true) as Hr by by vm_compute.
  destruct pool_run as [[] s l| |] eqn:Hrun; [|discriminate Hr..].
  destruct (relays (lp_state s) !! 3%Z) as [[fs st]|] eqn:E; [|discriminate Hr]. apply andb_prop in Hr as [Hf Hst].
  apply bool_decide_eq_true in Hf. cbn [rl_friends rl_status] in Hf, Hst. destruct st as [n|t]; [discriminate Hst|]. apply Nat.eqb_eq in Hst. rewrite Hf, Hst in E.
  exact (listener_admits_relay_friends all_ok all_ok 2 pool_config s l 3%Z _ 1 (fun _ => eq_refl) Hrun E eq_refl).
Defined.
End RelaySamples.
