(* ===== verification/FunderLoop.v ===== *)
(** * The funder's loop and its database ([funder/src/funder.rs])

    The loop around the handler ([FunderHandler]): each message is handled on a
    copy of the state, its mutations are applied and written to the database, and
    only then the messages it caused are sent. The log holds what the surroundings
    have seen, so that a crash is any prefix of it. *)

From S2P Require Import Prelude Arith Bytes Messages Canonical MutualCredit TokenChannel Friend FunderState Report.
From S2P Require Import Handler Canceler HandleFriend Sender HandleControl FunderHandler Effects.

Inductive FunderError :=
| FlIncomingControlClosed | FlIncomingCommClosed | FlIncomingMessagesError | FlDbError | FlSendControlError | FlSendCommError.
Inductive FunderEvent (B : Type) :=
| FeFunderIncoming (m : FunderIncoming B)
| FeIncomingControlClosed
| FeIncomingCommClosed.
Arguments FeFunderIncoming {B}. Arguments FeIncomingControlClosed {B}. Arguments FeIncomingCommClosed {B}.

(** A batch the database acknowledged, and messages that were sent. *)
Inductive FunderAction (B : Type) :=
| FaDatabase (mutations : list (FunderMutation B))
| FaComm (c : FunderOutgoingComm B)
| FaControl (c : FunderOutgoingControl B).
Arguments FaDatabase {B}. Arguments FaComm {B}. Arguments FaControl {B}.

Section FunderLoop.
Context `{CryptoOps} `{RngOps} {B : Type} `{CanonicalSerialize B} `{EqDecision B}.
Context (local_pk : PublicKey) `{!SignerOps local_pk}.
Context (max_operations_in_batch max_node_relays max_pending_user_requests : nat).
Context (ok : nat -> bool).
Notation St := (FunderState B * Ephemeral * rng)%type.
Notation M := (Eff St FunderError (FunderAction B)).
Notation handle := (funder_handle_message local_pk max_node_relays max_operations_in_batch max_pending_user_requests).
Notation loop_step := (funder_loop_step local_pk max_node_relays max_operations_in_batch max_pending_user_requests).
Notation loop := (funder_loop local_pk max_node_relays max_operations_in_batch max_pending_user_requests).

(** What the loop does with the output of the handler. *)
Definition commit_output (r : rng) (out : FunderHandlerOutput B) : M unit :=
  let* _ := (match fo_funder_mutations out with
             | [] => let* (s, e, _) := eget in eput (s, e, r)
             | mutations =>
                 let* (s, e, _) := eget in
                 let* s' := eunwrap (pfold funder_mutate s mutations) in
                 let* _ := eput (s', e, r) in
                 emit ok FlDbError (FaDatabase mutations)
             end) in
  let* (s, e, _) := eget in
  let* _ := eput (s, fold_left ephemeral_mutate (fo_ephemeral_mutations out) e, r) in
  let* _ := efor (fo_outgoing_comms out) (fun c => emit ok FlSendCommError (FaComm c)) in
  efor (fo_outgoing_control out) (fun c => emit ok FlSendControlError (FaControl c)).

Definition funder_turn (m : FunderIncoming B) : M unit :=
  let* (s, e, r) := eget in
  match handle s e r m with
  | None | Some (_, Panic) => epanic
  | Some (r', Err _) => eput (s, e, r')
  | Some (r', Ok out) => commit_output r' out
  end.

Fixpoint funder_events (events : list (FunderEvent B)) : M unit :=
  match events with
  | [] => eret tt
  | FeFunderIncoming m :: events' => let* _ := funder_turn m in funder_events events'
  | FeIncomingControlClosed :: _ => efail FlIncomingControlClosed
  | FeIncomingCommClosed :: _ => efail FlIncomingCommClosed
  end.

(** The loop handles [Init] first. *)
Definition inner_funder_loop (events : list (FunderEvent B)) : M unit :=
  funder_events (FeFunderIncoming IncInit :: events).

(** ** Crashes *)

Definition durable_mutations (l : list (FunderAction B)) : list (FunderMutation B) :=
  concat (omap (fun a => match a with FaDatabase ms => Some ms | _ => None end) l).
Definition durable_state (s0 : FunderState B) (l : list (FunderAction B)) : option (FunderState B) :=
  pfold funder_mutate s0 (durable_mutations l).
Definition sent_by (comms : list (FunderOutgoingComm B)) (control : list (FunderOutgoingControl B)) (a : FunderAction B) : Prop :=
  match a with
  | FaDatabase _ => True
  | FaComm c => c ∈ comms
  | FaControl c => c ∈ control
  end.
Definition is_message (a : FunderAction B) : bool := match a with FaDatabase _ => false | _ => true end.

Lemma durable_app s0 l l' : durable_state s0 (l ++ l') = (let! s := durable_state s0 l in pfold funder_mutate s (durable_mutations l')).
Proof. unfold durable_state, durable_mutations. by rewrite omap_app, concat_app, pfold_app. Qed.

(** Every message of the log was sent by a turn whose result is durable. *)
Definition backed (s0 : FunderState B) (st0 : St) (ms : list (FunderIncoming B)) (l : list (FunderAction B)) : Prop :=
  forall l1 a l2, l = l1 ++ a :: l2 -> is_message a = true ->
    exists ms1 m ms2 st1 comms1 control1 s2 e2 r2 comms control,
      ms = ms1 ++ m :: ms2 /\ loop st0 ms1 = Some (st1, comms1, control1) /\
      loop_step st1 m = Some (s2, e2, r2, comms, control) /\ sent_by comms control a /\
      durable_state s0 l1 = Some s2.

Lemma backed_app s0 st0 ms ms' l l' :
  backed s0 st0 ms l ->
  (forall l1 a l2, l' = l1 ++ a :: l2 -> is_message a = true ->
    exists ms1 m ms2 st1 comms1 control1 s2 e2 r2 comms control,
      ms ++ ms' = ms1 ++ m :: ms2 /\ loop st0 ms1 = Some (st1, comms1, control1) /\
      loop_step st1 m = Some (s2, e2, r2, comms, control) /\ sent_by comms control a /\
      durable_state s0 (l ++ l1) = Some s2) ->
  backed s0 st0 (ms ++ ms') (l ++ l').
Proof.
  intros Hl Hl' l1 a l2 E Ha. apply app_eq_app in E as [k [[-> E]|[-> E]]].
  - destruct k as [|b k].
    + specialize (Hl' [] a l2). rewrite !app_nil_r in Hl'. by apply Hl'.
    + injection E as <- ->. destruct (Hl l1 a k eq_refl Ha) as (ms1 & m & ms2 & st1 & c1 & d1 & s2 & e2 & r2 & c & d & -> & Hx).
      exists ms1, m, (ms2 ++ ms'). do 8 eexists. rewrite <-app_assoc. split; [done|]. exact Hx.
  - by apply (Hl' k a l2).
Qed.

Lemma durable_messages s0 l l' :
  forallb is_message l' = true -> durable_state s0 (l ++ l') = durable_state s0 l.
Proof.
  intros Hf. rewrite durable_app. destruct (durable_state s0 l) as [s|]; [|done]. simpl.
  enough (durable_mutations l' = []) as -> by done.
  induction l' as [|a l' IH]; [done|]. simpl in Hf. apply andb_prop in Hf as [Ha Hf]. destruct a; [done|by apply IH..].
Qed.

(** Sending messages, each of which may fail. *)
Lemma wp_send_all {A} (err : FunderError) (f : A -> FunderAction B) xs (st : St) l :
  wp False (fun _ l' => exists k, l' = l ++ map f (take k xs)) (efor xs (fun x => emit ok err (f x)))
    (fun _ st' l' => st' = st /\ l' = l ++ map f xs) st l.
Proof.
  revert l. induction xs as [|x xs IH]; intros l; simpl.
  - apply wp_ret. by rewrite app_nil_r.
  - apply wp_bind, wp_emit_env; intros _.
    + exists 0. by rewrite app_nil_r.
    + eapply wp_conseq; [done| | |apply IH]; simpl.
      * intros _ l' [k ->]. exists (S k). simpl. by rewrite <-app_assoc.
      * intros _ st' l' [-> ->]. by rewrite <-app_assoc.
Qed.

Definition db_batch (ms : list (FunderMutation B)) : list (FunderAction B) := match ms with [] => [] | _ => [FaDatabase ms] end.
Definition turn_log (ms : list (FunderMutation B)) (comms : list (FunderOutgoingComm B))
  (control : list (FunderOutgoingControl B)) : list (FunderAction B) :=
  db_batch ms ++ map FaComm comms ++ map FaControl control.

Lemma wp_commit_output r out (s : FunderState B) (e : Ephemeral) (r0 : rng) l :
  let '(ms, comms, control) := (fo_funder_mutations out, fo_outgoing_comms out, fo_outgoing_control out) in
  wp (pfold funder_mutate s ms = None)
    (fun _ l' => exists s', pfold funder_mutate s ms = Some s' /\ l' `prefix_of` l ++ turn_log ms comms control)
    (commit_output r out)
    (fun _ st' l' => exists s', pfold funder_mutate s ms = Some s' /\
       st' = (s', fold_left ephemeral_mutate (fo_ephemeral_mutations out) e, r) /\ l' = l ++ turn_log ms comms control)
    (s, e, r0) l.
Proof.
  unfold commit_output. apply wp_bind.
  set (l0 := l ++ db_batch (fo_funder_mutations out)).
  set (X := fun (_ : St) l' => exists s', pfold funder_mutate s (fo_funder_mutations out) = Some s' /\
     l' `prefix_of` l ++ turn_log (fo_funder_mutations out) (fo_outgoing_comms out) (fo_outgoing_control out)).
  assert (wp (pfold funder_mutate s (fo_funder_mutations out) = None) X
    (match fo_funder_mutations out with
     | [] => let* (s, e, _) := eget in eput (s, e, r)
     | mutations => let* (s, e, _) := eget in let* s' := eunwrap (pfold funder_mutate s mutations) in
                    let* _ := eput (s', e, r) in emit ok FlDbError (FaDatabase mutations)
     end) (fun _ st' l' => exists s', pfold funder_mutate s (fo_funder_mutations out) = Some s' /\ st' = (s', e, r) /\ l' = l0) (s, e, r0) l)
    as Hdb.
  { unfold X, l0, turn_log. destruct (fo_funder_mutations out) as [|m ms].
    - repeat wp_step. exists s. simpl. by rewrite app_nil_r.
    - repeat wp_step. apply wp_unwrap; [done|]. intros s' Hs'. repeat wp_step.
      apply wp_emit_env; intros _; exists s'; split; [done|by eexists|done|done]. }
  eapply wp_mono; [|exact Hdb]. clear Hdb. intros _ st' l' (s' & Hs' & -> & ->). repeat wp_step.
  eapply wp_conseq; [| | |apply (wp_send_all FlSendCommError FaComm (fo_outgoing_comms out))]; [done| |].
  - intros st' l' [k ->]. exists s'. split; [done|]. unfold l0, turn_log. rewrite <-app_assoc.
    apply prefix_app, prefix_app. rewrite <-(take_drop k (fo_outgoing_comms out)) at 2. rewrite map_app, <-app_assoc. by eexists.
  - intros _ st' l' [-> ->]. eapply wp_conseq; [| | |apply (wp_send_all FlSendControlError FaControl (fo_outgoing_control out))]; [done| |].
    + intros st' l' [k ->]. exists s'. split; [done|]. unfold l0, turn_log. rewrite <-!app_assoc.
      apply prefix_app, prefix_app, prefix_app. rewrite <-(take_drop k (fo_outgoing_control out)) at 2. rewrite map_app. by eexists.
    + intros _ st' l' [-> ->]. exists s'. split_and!; [done..|]. unfold l0, turn_log. by rewrite <-!app_assoc.
Qed.

(** A turn computes what the loop of [FunderHandler] does. *)
Lemma wp_funder_turn m (st : St) l :
  wp (loop_step st m = None)
    (fun _ l' => exists s' e' r' comms control ms, loop_step st m = Some (s', e', r', comms, control) /\
       pfold funder_mutate st.1.1 ms = Some s' /\ l' `prefix_of` l ++ turn_log ms comms control)
    (funder_turn m)
    (fun _ st' l' => exists comms control ms, loop_step st m = Some (st', comms, control) /\
       pfold funder_mutate st.1.1 ms = Some st'.1.1 /\ l' = l ++ turn_log ms comms control)
    st l.
Proof.
  destruct st as [[s e] r]. unfold funder_turn, funder_loop_step. repeat wp_step.
  destruct (handle s e r m) as [[r' [out|er|]]|] eqn:Eh; simpl; [| |done|done].
  - eapply wp_conseq; [| | |apply wp_commit_output]; simpl.
    + intros ->. done.
    + intros _ l' (s' & Hs' & Hp). rewrite Hs'. do 6 eexists. split; [done|]. by split.
    + intros _ st' l' (s' & Hs' & -> & ->). rewrite Hs'. do 3 eexists. split; [done|]. by split.
  - apply wp_put. exists [], [], []. unfold turn_log. simpl. by rewrite app_nil_r.
Qed.

Lemma db_batch_durable s ms : pfold funder_mutate s (durable_mutations (db_batch ms)) = pfold funder_mutate s ms.
Proof. destruct ms; [done|]. unfold durable_mutations. simpl. by rewrite app_nil_r. Qed.
Lemma messages_of_turn (comms : list (FunderOutgoingComm B)) control :
  forallb is_message (map FaComm comms ++ map FaControl control) = true.
Proof.
  apply forallb_forall. intros a [Ha|Ha]%in_app_or; apply in_map_iff in Ha as (c & <- & _); done.
Qed.

(** A message of a turn comes after its batch. *)
Lemma turn_log_split ms comms control l1 a l2 :
  turn_log ms comms control = l1 ++ a :: l2 -> is_message a = true ->
  sent_by comms control a /\ exists l1', l1 = db_batch ms ++ l1' /\ forallb is_message l1' = true.
Proof.
  unfold turn_log. intros E Ha.
  assert (exists l1', l1 = db_batch ms ++ l1' /\ map FaComm comms ++ map FaControl control = l1' ++ a :: l2) as (l1' & -> & E').
  { destruct ms as [|m ms]; [by exists l1|]. destruct l1 as [|b l1]; simpl in E; injection E as <- E; [done|]. by exists l1. }
  pose proof (messages_of_turn comms control) as Hm. rewrite E', forallb_app in Hm. apply andb_prop in Hm as [Hm _].
  split; [|eauto]. assert (a ∈ map FaComm comms ++ map FaControl control) as Hin by (rewrite E'; set_solver).
  apply elem_of_app in Hin as [Hin|Hin]; apply list_elem_of_fmap in Hin as (c & -> & Hc); done.
Qed.

Lemma durable_turn s0 l s ms s' l1' :
  durable_state s0 l = Some s -> pfold funder_mutate s ms = Some s' -> forallb is_message l1' = true ->
  durable_state s0 (l ++ db_batch ms ++ l1') = Some s'.
Proof. intros Hl Hs Hm. rewrite app_assoc, durable_messages by done. rewrite durable_app, Hl. simpl. by rewrite db_batch_durable. Qed.

Lemma loop_snoc st0 ms st comms control m st' comms' control' :
  loop st0 ms = Some (st, comms, control) -> loop_step st m = Some (st', comms', control') ->
  loop st0 (ms ++ [m]) = Some (st', comms ++ comms', control ++ control').
Proof.
  revert st0 comms control. induction ms as [|m0 ms IH]; intros st0 comms control; simpl.
  - intros [= -> <- <-] ->. simpl. by rewrite !app_nil_r.
  - destruct (loop_step st0 m0) as [[[st1 c1] d1]|]; simpl; [|done].
    destruct (loop st1 ms) as [[[st2 c2] d2]|] eqn:E; simpl; [|done]. intros [= -> <- <-] Hs.
    rewrite (IH _ _ _ E Hs). simpl. by rewrite <-!app_assoc.
Qed.

Definition comms_of (l : list (FunderAction B)) : list (FunderOutgoingComm B) :=
  omap (fun a => match a with FaComm c => Some c | _ => None end) l.
Definition control_of (l : list (FunderAction B)) : list (FunderOutgoingControl B) :=
  omap (fun a => match a with FaControl c => Some c | _ => None end) l.
Lemma sent_of_turn ms comms control :
  comms_of (turn_log ms comms control) = comms /\ control_of (turn_log ms comms control) = control.
Proof.
  unfold comms_of, control_of, turn_log. rewrite !omap_app.
  assert (forall A (f : A -> FunderAction B) (g : FunderAction B -> option A) xs, (forall x, g (f x) = Some x) -> omap g (map f xs) = xs) as Hid.
  { intros A f g xs Hg. induction xs as [|x xs IH]; csimpl; [done|]. by rewrite Hg, IH. }
  assert (forall A C (f : A -> FunderAction B) (g : FunderAction B -> option C) xs, (forall x, g (f x) = None) -> omap g (map f xs) = []) as Hno.
  { intros A C f g xs Hg. induction xs as [|x xs IH]; csimpl; [done|]. by rewrite Hg, IH. }
  rewrite !Hid, !Hno by done. rewrite app_nil_r. by destruct ms.
Qed.

(** The state in memory is the durable one, what was sent is what the loop of
    [FunderHandler] sends, and the messages are backed. *)
Definition funder_inv s0 (st0 : St) ms (st : St) l : Prop :=
  loop st0 ms = Some (st, comms_of l, control_of l) /\ durable_state s0 l = Some st.1.1 /\ backed s0 st0 ms l.

Lemma backed_turn s0 st0 ms st l m s' e' r' comms control mus l' :
  funder_inv s0 st0 ms st l -> loop_step st m = Some (s', e', r', comms, control) ->
  pfold funder_mutate st.1.1 mus = Some s' -> l' `prefix_of` l ++ turn_log mus comms control ->
  backed s0 st0 (ms ++ [m]) l'.
Proof.
  intros (Hloop & Hd & Hb) Hs Hm [k Hp] l1 a l2 -> Ha.
  assert (backed s0 st0 (ms ++ [m]) (l ++ turn_log mus comms control)) as Hfull.
  { apply backed_app; [done|]. intros k1 b k2 E Hbm. destruct (turn_log_split _ _ _ _ _ _ E Hbm) as (Hsent & l1' & -> & Hl1').
    exists ms, m, []. do 8 eexists. split_and!; [done|exact Hloop|exact Hs|exact Hsent|]. by eapply durable_turn. }
  apply (Hfull l1 a (l2 ++ k)); [|done]. by rewrite Hp, <-app_assoc.
Qed.

Definition incoming (events : list (FunderEvent B)) : list (FunderIncoming B) :=
  omap (fun ev => match ev with FeFunderIncoming m => Some m | _ => None end) events.

Lemma wp_funder_events events s0 (st0 st : St) ms l :
  funder_inv s0 st0 ms st l ->
  wp True (fun _ l' => exists ms', ms' `prefix_of` incoming events /\ backed s0 st0 (ms ++ ms') l') (funder_events events)
    (fun _ st' l' => funder_inv s0 st0 (ms ++ incoming events) st' l') st l.
Proof.
  revert st ms l. induction events as [|ev events IH]; intros st ms l Hinv; [apply wp_ret; by rewrite app_nil_r|].
  destruct ev as [m| |]; simpl; [|exists []; rewrite app_nil_r; split; [apply prefix_nil|apply Hinv]..].
  apply wp_bind. eapply wp_conseq; [| | |apply wp_funder_turn]; [done| |].
  - intros _ l' (s' & e' & r' & comms & control & mus & Hs & Hm & Hp). exists [m].
    split; [by apply prefix_cons, prefix_nil|]. by eapply backed_turn.
  - intros [] st' l' (comms & control & mus & Hs & Hm & ->). eapply wp_conseq; [| | |apply (IH st' (ms ++ [m]))]; [done| | |].
    + intros _ l'' (ms' & Hp & Hi). exists (m :: ms'). split; [by apply prefix_cons|]. by rewrite <-app_assoc in Hi.
    + intros [] st'' l'' Hi. by rewrite <-app_assoc in Hi.
    + destruct st' as [[s' e'] r']. split_and!.
      * destruct Hinv as (Hloop & _). rewrite (loop_snoc _ _ _ _ _ _ _ _ _ Hloop Hs). destruct (sent_of_turn mus comms control) as [Ec Ed].
        unfold comms_of, control_of in *. by rewrite !omap_app, Ec, Ed.
      * unfold turn_log. eapply durable_turn; [apply Hinv|done|apply messages_of_turn].
      * by eapply backed_turn.
Qed.

Lemma backed_take s0 st0 ms l k : backed s0 st0 ms l -> backed s0 st0 ms (take k l).
Proof. intros Hb l1 a l2 E. apply (Hb l1 a (l2 ++ drop k l)). by rewrite <-(take_drop k l), E, <-app_assoc at 1. Qed.
End FunderLoop.

(** C23. The funder sends nothing it could forget: wherever a run stops (at an error,
    when a stream is closed, or at a crash after any effect), the state the
    database holds for every message that was sent is the one the funder had
    computed when it handled the message that caused it: a node that restarts has
    not lost a promise it made. *)
Theorem sent_messages_durable `{CryptoOps} `{RngOps} {B : Type} `{CanonicalSerialize B} `{EqDecision B}
  (local_pk : PublicKey) `{!SignerOps local_pk} (max_ops max_relays max_user : nat) (ok : nat -> bool)
  (s0 : FunderState B) (g : rng) (events : list (FunderEvent B)) (crash : nat)
  (l l1 l2 : list (FunderAction B)) (a : FunderAction B)
  (Hrun : match inner_funder_loop local_pk max_ops max_relays max_user ok events (s0, ephemeral_new, g) [] with
          | EOk _ _ l' | EErr _ _ l' => l = take crash l'
          | EPanic => False
          end)
  (Hl : l = l1 ++ a :: l2) (Ha : is_message a = true) :
  exists ms m st1 comms1 control1 s2 e2 g2 comms control,
    ms ++ [m] `prefix_of` IncInit :: incoming events /\
    funder_loop local_pk max_relays max_ops max_user (s0, ephemeral_new, g) ms = Some (st1, comms1, control1) /\
    funder_loop_step local_pk max_relays max_ops max_user st1 m = Some (s2, e2, g2, comms, control) /\
    sent_by comms control a /\ durable_state s0 l1 = Some s2.
Proof.
  assert (exists ms, ms `prefix_of` IncInit :: incoming events /\
    backed local_pk max_ops max_relays max_user s0 (s0, ephemeral_new, g) ms l) as (ms & Hp & Hb).
  { pose proof (wp_funder_events local_pk max_ops max_relays max_user ok (FeFunderIncoming IncInit :: events) s0
      (s0, ephemeral_new, g) (s0, ephemeral_new, g) [] []) as Hw.
    specialize (Hw ltac:(split_and!; [done|done|by intros []])).
    unfold inner_funder_loop, wp in *. destruct (funder_events _ _ _ _ _ _ _ _) as [[] st l'|err st l'|]; [| |done]; rewrite Hrun.
    - eexists. split; [done|]. by apply backed_take, Hw.
    - destruct Hw as (ms & Hp & Hi). exists ms. split; [done|]. by apply backed_take. }
  destruct (Hb _ _ _ Hl Ha) as (ms1 & m & ms2 & st1 & c1 & d1 & s2 & e2 & r2 & c & d & -> & Hx).
  exists ms1, m. do 8 eexists. split; [|exact Hx]. etrans; [|exact Hp]. exists ms2. by rewrite <-app_assoc.
Qed.

(** A run of the loop with its database and channels, in which nothing failed,
    is a run of the handler's loop: it handles the same messages in the same order,
    sends the same messages, and the database holds the state in memory. *)
Theorem inner_loop_refines `{CryptoOps} `{RngOps} {B : Type} `{CanonicalSerialize B} `{EqDecision B}
  (local_pk : PublicKey) `{!SignerOps local_pk} (max_ops max_relays max_user : nat) (ok : nat -> bool)
  (s0 s : FunderState B) (e : Ephemeral) (g g' : rng) (events : list (FunderEvent B)) (l : list (FunderAction B))
  (Hrun : inner_funder_loop local_pk max_ops max_relays max_user ok events (s0, ephemeral_new, g) [] = EOk tt (s, e, g') l) :
  funder_loop local_pk max_relays max_ops max_user (s0, ephemeral_new, g) (IncInit :: incoming events) =
    Some (s, e, g', comms_of l, control_of l) /\
  durable_state s0 l = Some s.
Proof.
  pose proof (wp_funder_events local_pk max_ops max_relays max_user ok (FeFunderIncoming IncInit :: events) s0
      (s0, ephemeral_new, g) (s0, ephemeral_new, g) [] []) as Hw.
  specialize (Hw ltac:(split_and!; [done|done|by intros []])). unfold inner_funder_loop in Hrun. unfold wp in Hw.
  rewrite Hrun in Hw. by destruct Hw as (Hl & Hd & _).
Qed.

Module FunderLoopSamples.
Import Toy FunderSamples.
Definition all_ok (n : nat) : bool := true.
Definition online_events : list (FunderEvent string) :=
  map FeFunderIncoming (tail (setup_messages bob "bob")) ++ [FeIncomingCommClosed].
Definition online_run :=
  inner_funder_loop alice 16 10 10 all_ok online_events (funder_new alice [], ephemeral_new, 1%Z : @rng toy_rng) [].
Definition online_log : list (FunderAction string) :=
  match online_run with EOk _ _ l | EErr _ _ l => l | EPanic => [] end.

(** The move token that is sent to Bob when he comes online is backed by the state
    in the database; the run stops afterwards, because a stream was closed. *)
Lemma sent_messages_durable_witness :
  exists a l1 l2 ms m st1 comms1 control1 s2 e2 g2 comms control,
    online_log = l1 ++ a :: l2 /\ match a with FaComm (OcFriendMessage pk _) => pk = bob | _ => False end /\
    ms ++ [m] `prefix_of` IncInit :: incoming online_events /\
    funder_loop alice 10 16 10 (funder_new alice [], ephemeral_new, 1%Z : @rng toy_rng) ms = Some (st1, comms1, control1) /\
    funder_loop_step alice 10 16 10 st1 m = Some (s2, e2, g2, comms, control) /\
    sent_by comms control a /\ durable_state (funder_new alice []) l1 = Some s2.
Proof.
  assert (match online_run with
          | EErr FlIncomingCommClosed _ l =>
              match l !! 10%nat with Some (FaComm (OcFriendMessage pk _)) => bool_decide (pk = bob) | _ => false end
          | _ => false
          end = true) as Hf by by vm_compute.
  unfold online_log. destruct online_run as [|err st l|] eqn:Hrun; [discriminate Hf| |discriminate Hf].
  destruct err; try discriminate Hf. destruct (l !! 10%nat) as [[|[pk fm|]|]|] eqn:Ha; try discriminate Hf.
  apply bool_decide_eq_true in Hf. pose proof (take_drop_middle _ _ _ Ha) as Hl.
  destruct (sent_messages_durable alice 16 10 10 all_ok (funder_new alice []) (1%Z : @rng toy_rng) online_events (length l)
    l (take 10 l) (drop 11 l) (FaComm (OcFriendMessage pk fm))) as (ms & m & st1 & c1 & d1 & s2 & e2 & g2 & c & d & Hx).
  - fold online_run. rewrite Hrun. symmetry. apply take_ge. lia.
  - by rewrite Hl.
  - reflexivity.
  - exists (FaComm (OcFriendMessage pk fm)), (take 10 l), (drop 11 l), ms, m, st1, c1, d1, s2, e2, g2, c, d.
    split; [by rewrite Hl|]. split; [exact Hf|exact Hx].
Defined.

Definition open_events : list (FunderEvent string) := map FeFunderIncoming (tail (setup_messages bob "bob")).
Definition open_run :=
  inner_funder_loop alice 16 10 10 all_ok open_events (funder_new alice [], ephemeral_new, 1%Z : @rng toy_rng) [].
Lemma inner_loop_refines_witness :
  match open_run with
  | EOk _ (s, e, g') l =>
      length (comms_of l) = 3%nat /\
      funder_loop alice 10 16 10 (funder_new alice [], ephemeral_new, 1%Z : @rng toy_rng) (IncInit :: incoming open_events) =
        Some (s, e, g', comms_of l, control_of l) /\
      durable_state (funder_new alice []) l = Some s
  | _ => False
  end.
Proof.
  assert (match open_run with EOk _ _ l => length (comms_of l) =? 3 | _ => false end = true) as Hl by by vm_compute.
  destruct open_run as [[] [[s e] g'] l| |] eqn:Hrun; [|discriminate Hl..]. apply Nat.eqb_eq in Hl. split; [exact Hl|].
  unfold open_run in Hrun.
  exact (inner_loop_refines alice 16 10 10 all_ok (funder_new alice []) s e (1%Z : @rng toy_rng) g' open_events l Hrun).
Defined.
End FunderLoopSamples.
