(* ===== verification/Node.v ===== *)
(** * The node ([node/src])

    The state a node keeps in its database ([types.rs]) and what joins its
    components ([node.rs]): the adapters between the funder and the channeler, the
    adapters of the funder and of the index client to the one database, and the
    start of a node. *)

From S2P Require Import CompactConvert.
From S2P Require Import Prelude Arith Bytes Messages Canonical MutualCredit TokenChannel Friend FunderState Report.
From S2P Require Import Handler HandleFriend Sender HandleControl FunderHandler Effects FunderLoop.
From S2P Require Import IndexMessages IndexClient IndexConvert AppServer SecureChannel Database ListenPool Channeler.

(** ** State ([types.rs]) *)
Record NodeState (B : Type) := mkNodeState {
  ns_funder_state : FunderState B;
  ns_index_client_config : IndexClientConfig B
}.
Arguments mkNodeState {B}. Arguments ns_funder_state {B}. Arguments ns_index_client_config {B}.

Inductive NodeMutation (B : Type) :=
| NmFunder (m : FunderMutation B)
| NmIndexClient (m : IndexClientConfigMutation B).
Arguments NmFunder {B}. Arguments NmIndexClient {B}.

(** [NodeConfig] *)
Record NodeConfig := mkNodeConfig {
  nc_channel_len : nat;
  nc_backoff_ticks : nat;
  nc_keepalive_ticks : nat;
  nc_ticks_to_rekey : nat;
  nc_max_concurrent_encrypt : nat;
  nc_conn_timeout_ticks : nat;
  nc_max_operations_in_batch : nat;
  nc_max_pending_user_requests : nat;
  nc_max_open_index_client_requests : nat;
  nc_max_node_relays : nat
}.

Inductive NodeError := RequestPublicKeyError | DatabaseIdentityMismatch | NodeSpawnError.
Inductive NodeMutateError := mkNodeMutateError.

Section Node.
Context `{CryptoOps} {B : Type} `{CanonicalSerialize B}.

Definition node_state_new (local_public_key : PublicKey) : NodeState B :=
  mkNodeState (funder_new local_public_key []) (mkIndexClientConfig []).

(** [MutableState for NodeState]; a mutation of the funder panics or succeeds. *)
#[global] Instance node_mutate : MutableState (NodeState B) (NodeMutation B) NodeMutateError := fun self mutation =>
  match mutation with
  | NmFunder m =>
      match funder_mutate (ns_funder_state self) m with
      | Some s => Ok (mkNodeState s (ns_index_client_config self))
      | None => Panic
      end
  | NmIndexClient m => Ok (mkNodeState (ns_funder_state self) (icc_mutate (ns_index_client_config self) m))
  end.

Definition create_index_client_report (c : IndexClientConfig B) : IndexClientReport B :=
  mkIndexClientReport (icc_index_servers c) None.
Definition create_node_report (ns : NodeState B) : NodeReport B :=
  mkNodeReport (create_initial_report (ns_funder_state ns)) (create_index_client_report (ns_index_client_config ns)).

(** ** Adapters ([node.rs]) *)

(** What the database is asked for: batches of the funder and of the index client. *)
Definition database_adapter (q : list (FunderMutation B) + list (IndexClientConfigMutation B)) : list (NodeMutation B) :=
  match q with
  | inl mutations => map NmFunder mutations
  | inr mutations => map NmIndexClient mutations
  end.

Context `{ProtoSerialize (FriendMessage B)}.

(** A message that cannot be deserialized is discarded. *)
Definition channeler_to_funder_adapter (m : ChannelerToFunder) : option (FunderIncoming B) :=
  match m with
  | CtfOnline public_key => Some (IncLiveness (LiveOnline public_key))
  | CtfOffline public_key => Some (IncLiveness (LiveOffline public_key))
  | CtfMessage public_key data => IncFriend public_key <$> proto_deserialize data
  end.
Definition funder_to_channeler_adapter (m : FunderOutgoingComm B) : FunderToChanneler (RelayAddress B) :=
  match m with
  | OcChannelerConfig (ConfSetRelays relay_addresses) => FtcSetRelays relay_addresses
  | OcChannelerConfig (ConfUpdateFriend u) =>
      FtcUpdateFriend (cuf_friend_public_key u) (cuf_friend_relays u) (cuf_local_relays u)
  | OcChannelerConfig (ConfRemoveFriend friend_public_key) => FtcRemoveFriend friend_public_key
  | OcFriendMessage public_key friend_message => FtcMessage public_key (proto_serialize friend_message)
  end.
End Node.

(** [node_spawn_funder]: the limits are passed in this order. *)
Definition node_funder `{CryptoOps} `{RngOps} {B : Type} `{CanonicalSerialize B} `{EqDecision B}
  (local_pk : PublicKey) `{!SignerOps local_pk} (c : NodeConfig) (ok : nat -> bool) (events : list (FunderEvent B)) :=
  inner_funder_loop local_pk (nc_max_node_relays c) (nc_max_operations_in_batch c) (nc_max_pending_user_requests c) ok events.

(** The start of [node], up to its components: the identity service's answer is
    [public_key]; the report goes to the app server, the index client gets its
    configuration and the friends of the report. [None] is an arithmetic panic of
    the conversion. *)
Definition node_start `{CryptoOps} {B : Type} `{CanonicalSerialize B} (public_key : option PublicKey) (ns : NodeState B) :
  outcome NodeError (NodeReport B * IndexClientConfig B * option IndexClientState) :=
  let? local_public_key := ok_or public_key RequestPublicKeyError in
  let? _ := guard_or (bool_decide (fu_local_public_key (ns_funder_state ns) = local_public_key)) DatabaseIdentityMismatch in
  let initial_node_report := create_node_report ns in
  Ok (initial_node_report, ns_index_client_config ns,
      funder_report_to_index_client_state (funder_report initial_node_report)).

(** ** Theory *)
Section Theory.
Context `{CryptoOps} {B : Type} `{CanonicalSerialize B}.
Notation Req := (list (FunderMutation B) + list (IndexClientConfigMutation B))%type.

Definition funder_batches (reqs : list Req) : list (list (FunderMutation B)) :=
  omap (fun q => match q with inl ms => Some ms | inr _ => None end) reqs.
Definition index_batches (reqs : list Req) : list (list (IndexClientConfigMutation B)) :=
  omap (fun q => match q with inr ms => Some ms | inl _ => None end) reqs.

Lemma ofold_funder ms (ns : NodeState B) :
  ofold node_mutate ns (map NmFunder ms) =
  match pfold funder_mutate (ns_funder_state ns) ms with
  | Some s => Ok (mkNodeState s (ns_index_client_config ns))
  | None => Panic
  end.
Proof.
  revert ns. induction ms as [|m ms IH]; intros [s c]; simpl; [done|].
  destruct (funder_mutate s m) as [s'|]; simpl; [|done]. apply IH.
Qed.
Lemma ofold_index ms (ns : NodeState B) :
  ofold node_mutate ns (map NmIndexClient ms) = Ok (mkNodeState (ns_funder_state ns) (foldl icc_mutate (ns_index_client_config ns) ms)).
Proof. revert ns. induction ms as [|m ms IH]; intros [s c]; simpl; [done|]. apply IH. Qed.

(** The two users of the database do not disturb each other. *)
Lemma replay_adapter reqs (ns : NodeState B) :
  replay ns (map database_adapter reqs) =
  match pfold funder_mutate (ns_funder_state ns) (concat (funder_batches reqs)) with
  | Some s => Ok (mkNodeState s (foldl icc_mutate (ns_index_client_config ns) (concat (index_batches reqs))))
  | None => Panic
  end.
Proof.
  unfold replay. revert ns. induction reqs as [|q reqs IH]; intros [s c]; [done|]. csimpl. rewrite ofold_app.
  destruct q as [ms|ms]; simpl database_adapter.
  - unfold mutate. rewrite ofold_funder. csimpl. rewrite pfold_app. destruct (pfold funder_mutate s ms) as [s'|]; simpl; [|done].
    by rewrite IH.
  - unfold mutate. rewrite ofold_index. csimpl. rewrite IH. simpl.
    unfold index_batches at 2. csimpl. by rewrite foldl_app.
Qed.

Lemma funder_mutate_local s m s' : funder_mutate s m = Some s' -> fu_local_public_key s' = fu_local_public_key (B := B) s.
Proof.
  unfold funder_mutate. destruct m; simpl; intros Hm;
    repeat match goal with
    | Hx : (let! _ := ?o in _) = Some _ |- _ => destruct o; simpl in Hx; [|discriminate Hx]
    end; repeat case_match; simplify_eq; done.
Qed.
Lemma pfold_local s ms s' : pfold funder_mutate s ms = Some s' -> fu_local_public_key s' = fu_local_public_key (B := B) s.
Proof.
  intros Hp. apply (pfold_inv (fun x => fu_local_public_key x = fu_local_public_key s)) in Hp; [done| |done].
  intros x m x' _ Hx Hm. by rewrite (funder_mutate_local _ _ _ Hm).
Qed.
End Theory.

(** C25. A node survives a crash: the funder and the index client share a database
    file, in which their batches are interleaved in any way. Wherever the funder
    stopped, the file loads to a state whose funder part is what the batches of the
    funder gave, whose index client part is what those of the index client gave,
    and the node starts from it with the same identity, reporting this state to its
    applications. *)
Theorem node_crash_recovers `{CryptoOps} `{RngOps} {B : Type} `{CanonicalSerialize B} `{EqDecision B} `{!Serde (NodeState B)}
  `{!SerdeLaws (NodeState B)} (local_pk : PublicKey) `{!SignerOps local_pk} (c : NodeConfig) (ok : nat -> bool)
  (ns0 : NodeState B) (g : rng) (events : list (FunderEvent B)) (crash : nat) (l : list (FunderAction B))
  (reqs : list (list (FunderMutation B) + list (IndexClientConfigMutation B)))
  (fs fs1 fs2 : FileSystem) (path : string) (db : FileDb (NodeState B)) (acked : list (list (NodeMutation B)))
  (Hkey : fu_local_public_key (ns_funder_state ns0) = local_pk)
  (Hrun : match node_funder local_pk c ok events (ns_funder_state ns0, ephemeral_new, g) [] with
          | EOk _ _ l' | EErr _ _ l' => l = take crash l'
          | EPanic => False
          end)
  (Hreqs : concat (funder_batches reqs) = durable_mutations l)
  (Hcreate : file_db_create (ME := NodeMutateError) true fs path ns0 = Ok (fs1, db))
  (Hdb : database_loop fs1 db (map (fun q => (database_adapter q, true)) reqs) = (fs2, acked, true)) :
  exists ns, file_db_load (ME := NodeMutateError) fs2 path = Ok (mkFileDb path ns) /\
    durable_state (ns_funder_state ns0) l = Some (ns_funder_state ns) /\
    ns_index_client_config ns = foldl icc_mutate (ns_index_client_config ns0) (concat (index_batches reqs)) /\
    node_start (Some local_pk) ns =
      Ok (create_node_report ns, ns_index_client_config ns,
          funder_report_to_index_client_state (create_initial_report (ns_funder_state ns))).
Proof.
  apply file_db_create_Ok in Hcreate as (-> & _ & t & -> & Ht).
  destruct (database_loop_spec _ (mkFileDb path ns0) _ _ _ _ t (lookup_insert_eq _ _ _) Ht Hdb)
    as (_ & Hal & _ & ns & t' & Hr & Hf & Hs).
  rewrite (Hal eq_refl) in Hr. simpl in Hr.
  assert ((map (fun q => (database_adapter q, true)) reqs).*1 = map database_adapter reqs) as E.
  { clear. induction reqs as [|q reqs IH]; csimpl; [done|]. by rewrite IH. }
  rewrite E, replay_adapter, Hreqs in Hr.
  destruct (pfold funder_mutate (ns_funder_state ns0) (durable_mutations l)) as [s|] eqn:Ep; [|discriminate Hr].
  injection Hr as <-. eexists. split; [by eapply file_db_load_of|]. split; [exact Ep|]. split; [done|].
  unfold node_start. simpl. rewrite (pfold_local _ _ _ Ep), Hkey, bool_decide_true by done. done.
Qed.

(** The adapters carry the conversation of two funders: what the channeler of a
    friend hands to its funder is the messages this funder sent to the friend, in
    order, and nothing that does not parse. *)
Theorem adapters_deliver `{CryptoOps} {B : Type} `{CanonicalSerialize B} `{ProtoSerialize (FriendMessage B)}
  `{!ProtoSerializeLaws (FriendMessage B)} (alice bob : PublicKey) (comms : list (FunderOutgoingComm B)) :
  omap (fun m => match m with FtcMessage pk data => if decide (pk = bob) then channeler_to_funder_adapter (CtfMessage alice data) else None
                 | _ => None end) (map funder_to_channeler_adapter comms) =
  omap (fun m => match m with OcFriendMessage pk fm => if decide (pk = bob) then Some (IncFriend alice fm) else None | _ => None end) comms.
Proof.
  induction comms as [|m comms IH]; csimpl; [done|]. destruct m as [pk fm|[r|u|pk]]; simpl; [|exact IH..].
  case_decide; [|exact IH]. rewrite proto_round_trip. simpl. f_equal. exact IH.
Qed.

Module NodeSamples.
Import Toy FunderSamples.
Definition all_ok (n : nat) : bool := true.

(** One relay, and many operations in a batch. *)
Definition config : NodeConfig := mkNodeConfig 32 8 32 512 8 8 16 32 8 1.
Definition relay (b : Byte.byte) : NamedRelayAddress string := mkNamedRelayAddress (fixed_of_prefix 32 [b]) "relay" "relay".
Definition server : NamedIndexServerAddress string := mkNamedIndexServer bob "index" "index".
Definition relay_events : list (FunderEvent string) :=
  [FeFunderIncoming (ctl (CtlAddRelay (relay Byte.x11))); FeFunderIncoming (ctl (CtlAddRelay (relay Byte.x12)));
   FeIncomingControlClosed].
Definition relay_run := node_funder alice config all_ok relay_events (funder_new alice [], ephemeral_new, 1%Z : @rng toy_rng) [].
Definition relay_log : list (FunderAction string) := match relay_run with EErr _ _ l => l | _ => [] end.

(** [node_spawn_funder] swaps two limits: with [max_node_relays] of one, a node
    accepts a second relay, because the limit of a batch is applied. *)
Lemma relay_limit_is_batch_limit :
  nc_max_node_relays config = 1%nat /\
  match durable_state (funder_new alice []) relay_log with Some s => length (FunderState.relays s) = 2%nat | None => False end.
Proof. split; [reflexivity|]. by vm_compute. Qed.

(** A serialization of states without friends and payments. *)
Definition plain (ns : NodeState string) : bool :=
  let s := ns_funder_state ns in
  bool_decide (friends s = ∅) && bool_decide (open_invoices s = ∅) && bool_decide (open_transactions s = ∅) && bool_decide (payments s = ∅).
Definition same (a b : NodeState string) : bool :=
  plain a && plain b && bool_decide (fu_local_public_key (ns_funder_state a) = fu_local_public_key (ns_funder_state b)) &&
  bool_decide (FunderState.relays (ns_funder_state a) = FunderState.relays (ns_funder_state b)) &&
  bool_decide (icc_index_servers (ns_index_client_config a) = icc_index_servers (ns_index_client_config b)).
Lemma same_eq a b : same a b = true -> a = b.
Proof.
  unfold same, plain. rewrite !andb_true_iff, !bool_decide_eq_true.
  destruct a as [[? ? ? ? ? ?] [?]], b as [[? ? ? ? ? ?] [?]]. simpl. intuition congruence.
Qed.

Definition with_parts (rs : list (NamedRelayAddress string)) (iss : list (NamedIndexServerAddress string)) : NodeState string :=
  mkNodeState (funder_new alice rs) (mkIndexClientConfig iss).
Definition known : list (string * NodeState string) :=
  [("0", with_parts [] []); ("1", with_parts [relay Byte.x11] []); ("2", with_parts [relay Byte.x11] [server]);
   ("3", with_parts [relay Byte.x11; relay Byte.x12] [server])]%string.
#[local] Instance plain_serde : Serde (NodeState string) := {|
  to_string_pretty ns := fst <$> head (filter (fun k => same ns k.2 = true) known);
  from_str t := snd <$> head (filter (fun k => k.1 = t) known)
|}.
#[local] Instance plain_laws : SerdeLaws (NodeState string).
Proof.
  split. intros ns t. cbn [to_string_pretty from_str plain_serde]. unfold known.
  repeat (rewrite filter_cons; destruct (decide _) as [->%same_eq|_]; [by intros [= <-]|]). done.
Qed.

Definition requests : list (list (FunderMutation string) + list (IndexClientConfigMutation string)) :=
  [inl [FuAddRelay (relay Byte.x11)]; inr [ConfigAddIndexServer server]; inl [FuAddRelay (relay Byte.x12)]].
Definition files : FileSystem * list (list (NodeMutation string)) * bool :=
  database_loop (ME := NodeMutateError) {["db"%string := "0"%string]} (mkFileDb "db"%string (with_parts [] []))
    (map (fun q => (database_adapter q, true)) requests).

Lemma node_crash_recovers_witness :
  exists ns, file_db_load (ME := NodeMutateError) files.1.1 "db" = Ok (mkFileDb "db"%string ns) /\
    durable_state (funder_new alice []) relay_log = Some (ns_funder_state ns) /\
    ns_index_client_config ns = mkIndexClientConfig [server] /\
    node_start (Some alice) ns =
      Ok (create_node_report ns, ns_index_client_config ns,
          funder_report_to_index_client_state (create_initial_report (ns_funder_state ns))).
Proof.
  apply (node_crash_recovers alice config all_ok (with_parts [] []) (1%Z : @rng toy_rng) relay_events (length relay_log) relay_log
    requests ∅ {["db"%string := "0"%string]} files.1.1 "db" (mkFileDb "db"%string (with_parts [] [])) files.1.2).
  - reflexivity.
  - unfold relay_log, relay_run. cbn [ns_funder_state with_parts].
    destruct (node_funder _ _ _ _ _ _) as [|err st l|] eqn:E; [| by rewrite take_ge | ];
      exfalso; apply (f_equal (fun r => match r with EErr _ _ _ => true | _ => false end)) in E; revert E; vm_compute; discriminate.
  - by vm_compute.
  - by vm_compute.
  - unfold files. assert (files.2 = true) as Hal by (vm_compute; reflexivity). unfold files in Hal.
    destruct (database_loop _ _ _) as [[fs acked] alive]. cbn in Hal. by rewrite Hal.
Defined.
End NodeSamples.
