(* ===== verification/Store.v ===== *)
(** * The store of the compact server

    The messages between a user and the compact server ([stcompact/src/messages.rs])
    and the interface of its persistent storage ([stcompact/src/store/store.rs]):
    what a store promises to the server is the class [StoreLaws], which
    [FileStore] discharges and [CompactServer] uses. *)

From Stdlib Require Import Ascii.
From S2P Require Import Prelude Arith Bytes Messages FunderState IndexMessages IndexClient AppServer Effects Node.
From S2P Require Import CompactMessages CompactConvert.

(** ** Messages ([messages.rs]) *)
Notation NodeName := string.
(** A [u64]. *)
Notation NodeId := Z.

Inductive NodeInfo (B : Type) :=
| InfoLocal (node_public_key : PublicKey)
| InfoRemote (app_public_key node_public_key : PublicKey) (node_address : B).
Arguments InfoLocal {B}. Arguments InfoRemote {B}.
Inductive NodeMode := ModeOpen (node_id : NodeId) | ModeClosed.
Record NodeStatus (B : Type) := mkNodeStatus { nst_mode : NodeMode; nst_is_enabled : bool; nst_info : NodeInfo B }.
Arguments mkNodeStatus {B}. Arguments nst_mode {B}. Arguments nst_is_enabled {B}. Arguments nst_info {B}.
Notation NodesStatus B := (gmap NodeName (NodeStatus B)).

Inductive CreateNode (B : Type) :=
| CreateNodeLocal (node_name : NodeName)
| CreateNodeRemote (node_name : NodeName) (app_private_key : PrivateKey) (node_public_key : PublicKey) (node_address : B).
Arguments CreateNodeLocal {B}. Arguments CreateNodeRemote {B}.
Record NodeOpened (B : Type) := mkNodeOpened {
  no_node_name : NodeName; no_node_id : NodeId; no_app_permissions : AppPermissions; no_compact_report : CompactReport B
}.
Arguments mkNodeOpened {B}. Arguments no_node_name {B}. Arguments no_node_id {B}.

Inductive ServerToUser (B : Type) :=
| SuNodeOpened (o : NodeOpened B)
| SuNodesStatus (s : NodesStatus B)
| SuNode (node_id : NodeId) (m : CompactToUser B).
Arguments SuNodeOpened {B}. Arguments SuNodesStatus {B}. Arguments SuNode {B}.
Inductive ServerToUserAck (B : Type) := SuServerToUser (m : ServerToUser B) | SuAck (request_id : Uid).
Arguments SuServerToUser {B}. Arguments SuAck {B}.

Inductive UserToServer (B : Type) :=
| UsCreateNode (c : CreateNode B)
| UsRemoveNode (node_name : NodeName)
| UsEnableNode (node_name : NodeName)
| UsDisableNode (node_name : NodeName)
| UsNode (node_id : NodeId) (m : UserToCompact B).
Arguments UsCreateNode {B}. Arguments UsRemoveNode {B}. Arguments UsEnableNode {B}. Arguments UsDisableNode {B}. Arguments UsNode {B}.
Record UserToServerAck (B : Type) := mkUserToServerAck { us_request_id : Uid; us_inner : UserToServer B }.
Arguments mkUserToServerAck {B}. Arguments us_request_id {B}. Arguments us_inner {B}.

#[global] Instance NodeInfo_eq_dec {B} `{EqDecision B} : EqDecision (NodeInfo B).
Proof. solve_decision. Defined.
#[global] Instance NodeMode_eq_dec : EqDecision NodeMode.
Proof. solve_decision. Defined.
#[global] Instance NodeStatus_eq_dec {B} `{EqDecision B} : EqDecision (NodeStatus B).
Proof. solve_decision. Defined.

(** ** The interface ([store.rs]) *)
Record StoredNodeConfig := mkStoredNodeConfig { sc_is_enabled : bool }.
Record StoredNode (B : Type) := mkStoredNode { sn_info : NodeInfo B; sn_config : StoredNodeConfig }.
Arguments mkStoredNode {B}. Arguments sn_info {B}. Arguments sn_config {B}.

(** The clients of the identity service and of the databases are named by the key
    and by the node. *)
Record LoadedNodeRemote (B : Type) := mkLoadedNodeRemote {
  lr_app_private_key : PrivateKey; lr_node_public_key : PublicKey; lr_node_address : B; lr_compact_state : CompactState
}.
Arguments mkLoadedNodeRemote {B}. Arguments lr_app_private_key {B}. Arguments lr_node_public_key {B}.
Arguments lr_node_address {B}. Arguments lr_compact_state {B}.
Record LoadedNodeLocal (B : Type) := mkLoadedNodeLocal {
  ll_node_private_key : PrivateKey; ll_compact_state : CompactState; ll_node_state : NodeState B
}.
Arguments mkLoadedNodeLocal {B}. Arguments ll_node_private_key {B}. Arguments ll_compact_state {B}. Arguments ll_node_state {B}.
Inductive LoadedNode (B : Type) := LoadedLocal (n : LoadedNodeLocal B) | LoadedRemote (n : LoadedNodeRemote B).
Arguments LoadedLocal {B}. Arguments LoadedRemote {B}.

(** Operations that change a state and may fail. *)
Definition SM (S E A : Type) : Type := S -> S * outcome E A.
Definition sret {S E A} (a : A) : SM S E A := fun s => (s, Ok a).
Definition sbind {S E A A'} (m : SM S E A) (k : A -> SM S E A') : SM S E A' := fun s =>
  match m s with
  | (s', Ok a) => k a s'
  | (s', Err e) => (s', Err e)
  | (s', Panic) => (s', Panic)
  end.
Definition sget {S E} : SM S E S := fun s => (s, Ok s).
Definition sput {S E} (s : S) : SM S E unit := fun _ => (s, Ok tt).
Definition serr {S E A} (e : E) : SM S E A := fun s => (s, Err e).
Definition slift {S E A} (o : outcome E A) : SM S E A := fun s => (s, o).
Fixpoint sfold {S E A C} (f : C -> A -> SM S E C) (c : C) (l : list A) : SM S E C :=
  match l with
  | [] => sret c
  | x :: l' => sbind (f c x) (fun c' => sfold f c' l')
  end.
Notation "'let$' x ':=' c 'in' k" := (sbind c (fun x => k))
  (at level 10, x pattern, c at level 100, k at level 200, format "'[v' 'let$'  x  ':='  c  'in' '/' k ']'") : rust_scope.

Class Store (ST SE B : Type) := {
  create_local_node : NodeName -> PrivateKey -> SM ST SE unit;
  create_remote_node : NodeName -> PrivateKey -> PublicKey -> B -> SM ST SE unit;
  config_node : NodeName -> StoredNodeConfig -> SM ST SE unit;
  list_nodes : SM ST SE (gmap NodeName (StoredNode B));
  load_node : NodeName -> SM ST SE (LoadedNode B);
  unload_node : NodeName -> SM ST SE unit;
  remove_node : NodeName -> SM ST SE unit;
  is_fatal : SE -> bool
}.

(** What the server relies on. A store holds nodes and knows which are loaded;
    [contents] is [None] when its files are damaged, and then it lists no nodes. *)
Section Laws.
Context {ST SE B : Type} `{Store ST SE B} (contents : ST -> option (gmap NodeName (StoredNode B))) (loaded : ST -> gset NodeName).

Definition same_store (s s' : ST) : Prop := contents s' = contents s /\ loaded s' = loaded s.
Definition stored (s : ST) (m : gmap NodeName (StoredNode B)) (ld : gset NodeName) : Prop :=
  contents s = Some m /\ loaded s = ld.
(** A store that has lost its contents, or still has them. *)
Definition stored_or_lost (s : ST) (m : gmap NodeName (StoredNode B)) (ld : gset NodeName) : Prop :=
  contents s = None \/ stored s m ld.
Definition is_local {B'} (i : NodeInfo B') : bool := match i with InfoLocal _ => true | InfoRemote _ _ _ => false end.
Definition loaded_local {B'} (n : LoadedNode B') : bool := match n with LoadedLocal _ => true | LoadedRemote _ => false end.

(** A name that is a single component of a path. *)
Definition regular_name (n : NodeName) : bool :=
  negb (bool_decide (n ∈ [""; "."; ".."]%string)) && forallb (fun c => negb (bool_decide (c = "/"%char))) (String.list_ascii_of_string n).

(** After an operation: what holds when it succeeded, and when it failed. *)
Definition swp {A} (m : SM ST SE A) (Q : A -> ST -> Prop) (X : SE -> ST -> Prop) (s : ST) : Prop :=
  match m s with
  | (s', Ok a) => Q a s'
  | (s', Err e) => X e s'
  | (_, Panic) => False
  end.

Class StoreLaws : Prop := {
  list_nodes_lost s : contents s = None -> swp list_nodes (fun _ _ => False) (fun _ s' => contents s' = None) s;
  list_nodes_stored s m ld :
    stored s m ld -> swp list_nodes (fun r s' => r = m /\ stored s' m ld) (fun _ s' => stored s' m ld) s;
  create_local_node_law s m ld name key :
    stored s m ld -> m !! name = None ->
    swp (create_local_node name key)
      (fun _ s' => exists pk, stored s' (<[name := mkStoredNode (InfoLocal pk) (mkStoredNodeConfig false)]> m) ld)
      (fun e s' => is_fatal e = true \/ stored s' m ld) s;
  create_remote_node_law s m ld name key node_pk address :
    stored s m ld -> m !! name = None ->
    swp (create_remote_node name key node_pk address)
      (fun _ s' => exists pk, stored s' (<[name := mkStoredNode (InfoRemote pk node_pk address) (mkStoredNodeConfig false)]> m) ld)
      (fun _ s' => stored_or_lost s' m ld) s;
  config_node_law s m ld name n c :
    stored s m ld -> m !! name = Some n ->
    swp (config_node name c) (fun _ s' => stored s' (<[name := mkStoredNode (sn_info n) c]> m) ld) (fun _ _ => True) s;
  load_node_law s m ld name n :
    stored s m ld -> m !! name = Some n -> name ∉ ld ->
    swp (load_node name)
      (fun r s' => loaded_local r = is_local (sn_info n) /\ stored s' m ({[name]} ∪ ld)) (fun e _ => is_fatal e = true) s;
  unload_node_law s m ld name :
    stored s m ld ->
    swp (unload_node name)
      (fun _ s' => name ∈ ld /\ stored s' m (ld ∖ {[name]})) (fun e s' => (name ∉ ld) /\ is_fatal e = false /\ stored s' m ld) s;
  remove_node_law s m ld name :
    stored s m ld -> regular_name name = true -> (name ∈ ld -> is_Some (m !! name)) ->
    swp (remove_node name)
      (fun _ s' => (name ∉ ld) /\ is_Some (m !! name) /\ stored s' (delete name m) ld)
      (fun e s' => is_fatal e = true \/ stored_or_lost s' m ld) s
}.
End Laws.
Arguments StoreLaws ST SE B {_} contents loaded.
