(* ===== verification/CompactServer.v ===== *)
(** * The compact server ([stcompact/src/server_loop.rs])

    A server keeps the nodes of a user: it creates, removes, enables and disables
    them in the store, runs those that are enabled, connects to remote ones, and
    passes messages between the user and the compact nodes. Tasks (nodes, compact
    nodes, connection attempts) are named; what they report comes back as events. *)

From S2P Require Import Prelude Arith Bytes Messages FunderState IndexMessages IndexClient AppServer Effects Node.
From S2P Require Import CompactMessages CompactConvert Store.

Inductive ServerError :=
| SvUserSenderError | SvStoreError | SvSpawnError | SvFirstNodeReportError | SvSendConnPairError | SvCreateTimerError.

(** The sender and the handles of a node are named by its identifier. *)
Record OpenNode := mkOpenNode { on_node_name : NodeName; on_local : bool; on_pending_requests : gset Uid }.
Inductive PreOpenNodeStatus := PoDelay (ticks : Z) | PoConnecting (task : nat).
Record PreOpenNode (B : Type) := mkPreOpenNode { po_loaded_node_remote : LoadedNodeRemote B; po_status : PreOpenNodeStatus }.
Arguments mkPreOpenNode {B}. Arguments po_loaded_node_remote {B}. Arguments po_status {B}.
(** The result of a connection attempt. *)
Record RemoteNodeOpened (B : Type) := mkRemoteNodeOpened { rn_app_permissions : AppPermissions; rn_compact_report : CompactReport B }.
Arguments mkRemoteNodeOpened {B}. Arguments rn_app_permissions {B}. Arguments rn_compact_report {B}.

Inductive ServerEvent (B : Type) :=
| SvUser (m : UserToServerAck B)
| SvUserClosed
| SvCompactNode (node_id : NodeId) (m : option (CompactToUserAck B))
| SvTimerTick
| SvTimerClosed
| SvNodeConnected (node_name : NodeName) (r : option (RemoteNodeOpened B)).
Arguments SvUser {B}. Arguments SvUserClosed {B}. Arguments SvCompactNode {B}. Arguments SvTimerTick {B}.
Arguments SvTimerClosed {B}. Arguments SvNodeConnected {B}.

Inductive ServerAction (B : Type) :=
| SaToUser (m : ServerToUserAck B)
| SaToCompact (node_id : NodeId) (m : UserToCompactAck B)
| SaSpawnNode (node_name : NodeName) (n : LoadedNodeLocal B)
| SaConnPair (node_name : NodeName)
| SaSpawnCompact (node_id : NodeId)
| SaRedirect (node_id : NodeId)
| SaConnect (node_name : NodeName) (n : LoadedNodeRemote B).
Arguments SaToUser {B}. Arguments SaToCompact {B}. Arguments SaSpawnNode {B}. Arguments SaConnPair {B}.
Arguments SaSpawnCompact {B}. Arguments SaRedirect {B}. Arguments SaConnect {B}.

Record ServerState (ST B : Type) := mkServerState {
  sv_next_node_id : NodeId;
  sv_pre_open_nodes : gmap NodeName (PreOpenNode B);
  sv_open_nodes : gmap NodeId OpenNode;
  sv_store : ST;
  sv_ticks_to_connect : Z
}.
Arguments mkServerState {ST B}. Arguments sv_next_node_id {ST B}. Arguments sv_pre_open_nodes {ST B}.
Arguments sv_open_nodes {ST B}. Arguments sv_store {ST B}. Arguments sv_ticks_to_connect {ST B}.

Section Server.
Context {ST SE B : Type} `{Store ST SE B} `{EqDecision B}.
(** What the environment does: whether an effect succeeds, by its position, the
    keys it generates, and the first report of the node a task runs ([None] when
    it does not report). *)
Context (ok : nat -> bool) (gen_private_key : nat -> PrivateKey) (first_report : nat -> option (NodeReport B)).
Notation St := (ServerState ST B).
Notation M := (Eff St ServerError (ServerAction B)).

Definition server_state_new (store : ST) (ticks_to_connect : Z) : St := mkServerState 0 ∅ ∅ store ticks_to_connect.

Definition with_open (s : St) (o : gmap NodeId OpenNode) : St :=
  mkServerState (sv_next_node_id s) (sv_pre_open_nodes s) o (sv_store s) (sv_ticks_to_connect s).
Definition with_pre_open (s : St) (p : gmap NodeName (PreOpenNode B)) : St :=
  mkServerState (sv_next_node_id s) p (sv_open_nodes s) (sv_store s) (sv_ticks_to_connect s).
Definition with_store (s : St) (st : ST) : St :=
  mkServerState (sv_next_node_id s) (sv_pre_open_nodes s) (sv_open_nodes s) st (sv_ticks_to_connect s).

(** A call of the store; its error is a value. *)
Definition call_store {A} (m : SM ST SE A) : M (SE + A) := fun s l =>
  match m (sv_store s) with
  | (st, Ok a) => EOk (inr a) (with_store s st) l
  | (st, Err e) => EOk (inl e) (with_store s st) l
  | (_, Panic) => EPanic
  end.
(** [.map_err(|_| ServerError::StoreError)?] *)
Definition store_or_fail {A} (m : SM ST SE A) : M A :=
  let* r := call_store m in match r with inr a => eret a | inl _ => efail SvStoreError end.
(** [if let Err(e) = .. { if e.is_fatal() { return Err(StoreError) } false } else { true }] *)
Definition store_or_warn {A} (m : SM ST SE A) : M (option A) :=
  let* r := call_store m in
  match r with
  | inr a => eret (Some a)
  | inl e => if is_fatal e then efail SvStoreError else eret None
  end.

Definition to_user (m : ServerToUserAck B) : M unit := emit ok SvUserSenderError (SaToUser m).

(** [create_node_mode]: the map is searched in any order. *)
Definition create_node_mode (s : St) (node_name : NodeName) : NodeMode :=
  match list_find (fun x => on_node_name x.2 = node_name) (map_to_list (sv_open_nodes s)) with
  | Some (_, (node_id, _)) => ModeOpen node_id
  | None => ModeClosed
  end.

Definition new_node_id : M NodeId :=
  let* s := eget in
  let* _ := eput (mkServerState (cast_u 64 (sv_next_node_id s + 1)) (sv_pre_open_nodes s) (sv_open_nodes s) (sv_store s)
                    (sv_ticks_to_connect s)) in
  eret (sv_next_node_id s).

Definition is_node_enabled (node_name : NodeName) : M bool :=
  let* stored_nodes := store_or_fail list_nodes in
  eret match stored_nodes !! node_name with Some n => sc_is_enabled (sn_config n) | None => false end.
Definition is_node_exists (node_name : NodeName) : M bool :=
  let* stored_nodes := store_or_fail list_nodes in eret (bool_decide (is_Some (stored_nodes !! node_name))).

Definition status_of (s : St) (stored_nodes : gmap NodeName (StoredNode B)) : NodesStatus B :=
  map_imap (fun node_name n => Some (mkNodeStatus (create_node_mode s node_name) (sc_is_enabled (sn_config n)) (sn_info n))) stored_nodes.
Definition build_nodes_status : M (NodesStatus B) :=
  let* stored_nodes := store_or_fail list_nodes in
  let* s := eget in eret (status_of s stored_nodes).

Definition send_nodes_status_ack (opt_nodes_status : option (NodesStatus B)) (request_id : Uid) : M unit :=
  let* _ := (match opt_nodes_status with
             | Some nodes_status => to_user (SuServerToUser (SuNodesStatus nodes_status))
             | None => eret tt
             end) in
  to_user (SuAck request_id).

Definition handle_create_node_local (node_name : NodeName) : M bool := fun s l =>
  (let* r := store_or_warn (create_local_node node_name (gen_private_key (length l))) in eret (bool_decide (is_Some r))) s l.
(** Every error is a warning. *)
Definition handle_create_node_remote (node_name : NodeName) (app_private_key : PrivateKey) (node_public_key : PublicKey)
  (node_address : B) : M bool :=
  let* r := call_store (create_remote_node node_name app_private_key node_public_key node_address) in
  eret match r with inr _ => true | inl _ => false end.

Definition handle_create_node (c : CreateNode B) (request_id : Uid) : M unit :=
  let* has_changed := (match c with
    | CreateNodeLocal node_name =>
        let* exists_ := is_node_exists node_name in
        if exists_ then eret false else handle_create_node_local node_name
    | CreateNodeRemote node_name app_private_key node_public_key node_address =>
        let* exists_ := is_node_exists node_name in
        if exists_ then eret false else handle_create_node_remote node_name app_private_key node_public_key node_address
    end) in
  let* nodes_status := build_nodes_status in
  send_nodes_status_ack (if has_changed then Some nodes_status else None) request_id.

Definition handle_remove_node (node_name : NodeName) (request_id : Uid) : M unit :=
  let* enabled := is_node_enabled node_name in
  let* has_changed := (if enabled : bool then eret false
                       else let* r := store_or_warn (remove_node node_name) in eret (bool_decide (is_Some r))) in
  let* nodes_status := build_nodes_status in
  send_nodes_status_ack (if has_changed then Some nodes_status else None) request_id.

(** An attempt to open a remote node is scheduled. *)
Definition schedule (node_name : NodeName) (n : LoadedNodeRemote B) : M unit :=
  let* s := eget in eput (with_pre_open s (<[node_name := mkPreOpenNode n (PoDelay 0)]> (sv_pre_open_nodes s))).

Definition close_node_and_notify_user (node_id : NodeId) : M unit :=
  let* s := eget in
  match sv_open_nodes s !! node_id with
  | None => eret tt
  | Some open_node =>
      let node_name := on_node_name open_node in
      let* _ := eput (with_open s (delete node_id (sv_open_nodes s))) in
      let* _ := store_or_warn (unload_node node_name) in
      let* nodes_status := build_nodes_status in
      let* _ := to_user (SuServerToUser (SuNodesStatus nodes_status)) in
      let* _ := efor (elements (on_pending_requests open_node)) (fun request_id => to_user (SuAck request_id)) in
      let* loaded_node := store_or_warn (load_node node_name) in
      match loaded_node with
      | None => eret tt
      | Some (LoadedLocal _) => store_or_fail (unload_node node_name)
      | Some (LoadedRemote loaded_node_remote) => schedule node_name loaded_node_remote
      end
  end.

(** The open node is inserted under a fresh identifier. *)
Definition insert_open_node (node_id : NodeId) (n : OpenNode) : M unit :=
  let* s := eget in
  let* _ := eput (with_open s (<[node_id := n]> (sv_open_nodes s))) in
  if decide (is_Some (sv_open_nodes s !! node_id)) then epanic else eret tt.

Definition open_node_local (node_name : NodeName) (local : LoadedNodeLocal B) : M (NodeOpened B) :=
  let app_permissions := mkAppPermissions true true true true in
  let* _ := emit ok SvSpawnError (SaSpawnNode node_name local) in
  let* node_report := (fun s l => match first_report (length l) with
                                  | Some r => EOk r s l
                                  | None => EErr SvFirstNodeReportError s l
                                  end) in
  let* _ := emit ok SvSendConnPairError (SaConnPair node_name) in
  let compact_report := create_compact_report (ll_compact_state local) node_report in
  let* node_id := new_node_id in
  let* _ := emit ok SvSpawnError (SaSpawnCompact node_id) in
  let* _ := insert_open_node node_id (mkOpenNode node_name true ∅) in
  let* _ := emit ok SvSpawnError (SaRedirect node_id) in
  eret (mkNodeOpened node_name node_id app_permissions compact_report).

(** A loaded node is opened, or an attempt to connect to it is scheduled. *)
Definition open_loaded (node_name : NodeName) (loaded_node : LoadedNode B) : M unit :=
  match loaded_node with
  | LoadedLocal loaded_node_local =>
      let* node_opened := open_node_local node_name loaded_node_local in
      to_user (SuServerToUser (SuNodeOpened node_opened))
  | LoadedRemote loaded_node_remote => schedule node_name loaded_node_remote
  end.

Definition handle_enable_node (node_name : NodeName) (request_id : Uid) : M unit :=
  let* stored_nodes := store_or_fail list_nodes in
  match stored_nodes !! node_name with
  | Some stored_node =>
      if sc_is_enabled (sn_config stored_node) then to_user (SuAck request_id)
      else
        let* _ := store_or_fail (config_node node_name (mkStoredNodeConfig true)) in
        let* loaded_node := store_or_warn (load_node node_name) in
        match loaded_node with
        | None => send_nodes_status_ack None request_id
        | Some loaded_node =>
            let* nodes_status := build_nodes_status in
            let* _ := send_nodes_status_ack (Some nodes_status) request_id in
            open_loaded node_name loaded_node
        end
  | None => to_user (SuAck request_id)
  end.

Definition open_enabled_nodes : M unit :=
  let* stored_nodes := store_or_fail list_nodes in
  efor (map_to_list stored_nodes) (fun '(node_name, stored_node) =>
    if sc_is_enabled (sn_config stored_node) then
      let* loaded_node := store_or_fail (load_node node_name) in open_loaded node_name loaded_node
    else eret tt).

Definition handle_disable_node (node_name : NodeName) (request_id : Uid) : M unit :=
  let* old_nodes_status := build_nodes_status in
  match old_nodes_status !! node_name with
  | Some node_status =>
      if nst_is_enabled node_status then
        let* _ := store_or_warn (unload_node node_name) in
        let* _ := store_or_fail (config_node node_name (mkStoredNodeConfig false)) in
        let* s := eget in
        let* _ := eput (mkServerState (sv_next_node_id s) (delete node_name (sv_pre_open_nodes s))
                          (filter (fun x => on_node_name x.2 <> node_name) (sv_open_nodes s)) (sv_store s) (sv_ticks_to_connect s)) in
        let* new_nodes_status := build_nodes_status in
        let* _ := (if decide (old_nodes_status = new_nodes_status) then eret tt
                   else to_user (SuServerToUser (SuNodesStatus new_nodes_status))) in
        to_user (SuAck request_id)
      else to_user (SuAck request_id)
  | None => to_user (SuAck request_id)
  end.

(** [OpenNode::send_to_compact]; the result says whether the message was sent. *)
Definition send_to_compact (node_id : NodeId) (open_node : OpenNode) (request_id : Uid) (m : UserToCompact B) : M bool := fun s l =>
  if ok (length l) then
    EOk true (with_open s (<[node_id := mkOpenNode (on_node_name open_node) (on_local open_node)
                                          ({[request_id]} ∪ on_pending_requests open_node)]> (sv_open_nodes s)))
      (l ++ [SaToCompact node_id (mkUserToCompactAck request_id m)])
  else EOk false s l.

Definition handle_user_to_server (m : UserToServerAck B) : M unit :=
  let request_id := us_request_id m in
  match us_inner m with
  | UsCreateNode c => handle_create_node c request_id
  | UsRemoveNode node_name => handle_remove_node node_name request_id
  | UsEnableNode node_name => handle_enable_node node_name request_id
  | UsDisableNode node_name => handle_disable_node node_name request_id
  | UsNode node_id user_to_compact =>
      let* s := eget in
      match sv_open_nodes s !! node_id with
      | None => send_nodes_status_ack None request_id
      | Some open_node =>
          let* sent := send_to_compact node_id open_node request_id user_to_compact in
          if sent : bool then eret tt
          else let* _ := close_node_and_notify_user node_id in send_nodes_status_ack None request_id
      end
  end.

(** One scheduled node at a tick. *)
Definition tick_pre_open (x : NodeName * PreOpenNode B) : M unit :=
  let '(node_name, p) := x in
  let* status := (match po_status p with
    | PoDelay ticks =>
        let ticks := saturate_u 64 (ticks - 1) in
        if (ticks =? 0)%Z then
          let* task := (fun s l => EOk (length l) s l) in
          let* _ := emit ok SvSpawnError (SaConnect node_name (po_loaded_node_remote p)) in
          eret (PoConnecting task)
        else eret (PoDelay ticks)
    | PoConnecting task => eret (PoConnecting task)
    end) in
  let* s := eget in
  eput (with_pre_open s (<[node_name := mkPreOpenNode (po_loaded_node_remote p) status]> (sv_pre_open_nodes s))).
Definition handle_timer_tick : M unit :=
  let* s := eget in
  let* _ := eput (with_pre_open s ∅) in
  efor (map_to_list (sv_pre_open_nodes s)) tick_pre_open.

Definition handle_node_connected (node_name : NodeName) (opt_remote_node_opened : option (RemoteNodeOpened B)) : M unit :=
  let* s := eget in
  match sv_pre_open_nodes s !! node_name with
  | None => eret tt
  | Some pre_open_node =>
      let* _ := eput (with_pre_open s (delete node_name (sv_pre_open_nodes s))) in
      match opt_remote_node_opened with
      | None =>
          let* s := eget in
          let* _ := eput (with_pre_open s (<[node_name := mkPreOpenNode (po_loaded_node_remote pre_open_node)
                                               (PoDelay (sv_ticks_to_connect s))]> (sv_pre_open_nodes s))) in
          if decide (is_Some (sv_pre_open_nodes s !! node_name)) then epanic else eret tt
      | Some r =>
          let* node_id := new_node_id in
          let* _ := insert_open_node node_id (mkOpenNode node_name false ∅) in
          let* _ := emit ok SvSpawnError (SaRedirect node_id) in
          to_user (SuServerToUser (SuNodeOpened (mkNodeOpened node_name node_id (rn_app_permissions r) (rn_compact_report r))))
      end
  end.

(** A message of a compact node. *)
Definition handle_compact_message (node_id : NodeId) (m : CompactToUserAck B) : M unit :=
  let* s := eget in
  match m with
  | Ack request_id =>
      let* _ := (match sv_open_nodes s !! node_id with
        | Some open_node =>
            let* _ := eput (with_open s (<[node_id := mkOpenNode (on_node_name open_node) (on_local open_node)
                                                        (on_pending_requests open_node ∖ {[request_id]})]> (sv_open_nodes s))) in
            if decide (request_id ∈ on_pending_requests open_node) then eret tt else epanic
        | None => eret tt
        end) in
      to_user (SuAck request_id)
  | ToUser compact_to_user =>
      if decide (is_Some (sv_open_nodes s !! node_id)) then to_user (SuServerToUser (SuNode node_id compact_to_user)) else eret tt
  end.

(** One event; [false] when the loop returns. *)
Definition server_step (e : ServerEvent B) : M bool :=
  match e with
  | SvUser m => let* _ := handle_user_to_server m in eret true
  | SvUserClosed | SvTimerClosed => eret false
  | SvCompactNode node_id None => let* _ := close_node_and_notify_user node_id in eret true
  | SvCompactNode node_id (Some m) => let* _ := handle_compact_message node_id m in eret true
  | SvNodeConnected node_name r => let* _ := handle_node_connected node_name r in eret true
  | SvTimerTick => let* _ := handle_timer_tick in eret true
  end.
Fixpoint server_events (events : list (ServerEvent B)) : M unit :=
  match events with
  | [] => eret tt
  | e :: events' => let* go_on := server_step e in if go_on : bool then server_events events' else eret tt
  end.

(** [timer_stream] is whether the timer service gave a stream. *)
Definition inner_server_loop (timer_stream : bool) (events : list (ServerEvent B)) : M unit :=
  if timer_stream then
    let* nodes_status := build_nodes_status in
    let* _ := to_user (SuServerToUser (SuNodesStatus nodes_status)) in
    let* _ := open_enabled_nodes in
    server_events events
  else efail SvCreateTimerError.
End Server.
