(* ===== verification/CompactServerTheory.v ===== *)
(** * The compact server: what the user knows

    Against the interface of the store ([StoreLaws]): the nodes the store has
    loaded are the ones that are open or being connected to, the user's view of the
    nodes, which is the last list of nodes it was sent with the nodes opened since,
    is the current one after every event, and every request is answered, waits at an
    open node, or was waiting at a node that was disabled. *)

From S2P Require Import Prelude Arith Bytes Messages FunderState IndexMessages IndexClient AppServer Effects Node.
From S2P Require Import CompactMessages CompactConvert Store CompactServer.

(** ** The open nodes *)
Section OpenNodes.
Implicit Types (o : gmap NodeId OpenNode) (n : NodeName).

Definition opens o (id : NodeId) n : Prop := exists x, o !! id = Some x /\ on_node_name x = n.
Definition open_names o : gset NodeName := map_to_set (fun _ x => on_node_name x) o.
Definition names_inj o : Prop := forall id id' n, opens o id n -> opens o id' n -> id = id'.

Lemma elem_of_open_names o n : n ∈ open_names o <-> exists id, opens o id n.
Proof.
  unfold open_names, opens. rewrite elem_of_map_to_set. naive_solver.
Qed.

Definition node_mode o n : NodeMode :=
  match list_find (fun x => on_node_name x.2 = n) (map_to_list o) with
  | Some (_, (node_id, _)) => ModeOpen node_id
  | None => ModeClosed
  end.

Lemma node_mode_spec o n :
  match node_mode o n with
  | ModeOpen id => opens o id n
  | ModeClosed => forall id, ~ opens o id n
  end.
Proof.
  unfold node_mode. destruct (list_find _ _) as [[i [id x]]|] eqn:E.
  - apply list_find_Some in E as (Hl & Hx & _). exists x. split; [|done].
    apply elem_of_map_to_list. by eapply list_elem_of_lookup_2.
  - apply list_find_None in E. intros id (x & Hx & Hn). rewrite Forall_forall in E.
    apply (E (id, x)); [|done]. by apply elem_of_map_to_list.
Qed.
Lemma node_mode_open o id n : names_inj o -> opens o id n -> node_mode o n = ModeOpen id.
Proof.
  intros Hinj Ho. pose proof (node_mode_spec o n) as Hs. destruct (node_mode o n) as [id'|]; [|by destruct (Hs id)].
  f_equal. by eapply Hinj.
Qed.
Lemma node_mode_closed o n : (forall id, ~ opens o id n) -> node_mode o n = ModeClosed.
Proof. intros Hn. pose proof (node_mode_spec o n) as Hs. destruct (node_mode o n) as [id'|]; [|done]. by destruct (Hn id'). Qed.
Lemma node_mode_ext o o' n :
  names_inj o -> names_inj o' -> (forall id, opens o id n <-> opens o' id n) -> node_mode o n = node_mode o' n.
Proof.
  intros Hi Hi' Heq. pose proof (node_mode_spec o' n) as Hs. destruct (node_mode o' n) as [id|].
  - apply node_mode_open; [done|]. by apply Heq.
  - apply node_mode_closed. intros id. rewrite Heq. apply Hs.
Qed.

Lemma opens_insert o id x id' n :
  opens (<[id := x]> o) id' n <-> (id' = id /\ on_node_name x = n) \/ (id' <> id /\ opens o id' n).
Proof.
  unfold opens. destruct (decide (id' = id)) as [->|Hne].
  - rewrite lookup_insert_eq. naive_solver.
  - rewrite lookup_insert_ne by done. naive_solver.
Qed.
Lemma opens_delete o id id' n : opens (delete id o) id' n <-> id' <> id /\ opens o id' n.
Proof.
  unfold opens. destruct (decide (id' = id)) as [->|Hne].
  - rewrite lookup_delete_eq. naive_solver.
  - rewrite lookup_delete_ne by done. naive_solver.
Qed.
(** The requests of a node change. *)
Lemma opens_update o id x x' id' n :
  o !! id = Some x -> on_node_name x' = on_node_name x -> opens (<[id := x']> o) id' n <-> opens o id' n.
Proof.
  intros Hx Hn. rewrite opens_insert. unfold opens. destruct (decide (id' = id)) as [->|Hne]; [|naive_solver].
  rewrite Hx. naive_solver congruence.
Qed.
Lemma opens_filter o n id n' :
  opens (filter (fun x => on_node_name x.2 <> n) o) id n' <-> n' <> n /\ opens o id n'.
Proof.
  unfold opens. split.
  - intros (x & Hx%map_lookup_filter_Some & <-). destruct Hx as [Hx Hn]. eauto.
  - intros (Hn & x & Hx & Hxn). exists x. split; [|done]. apply map_lookup_filter_Some. simpl. by rewrite Hxn.
Qed.
End OpenNodes.

(** ** What the user knows *)
Section View.
Context {ST B : Type}.
Implicit Types (l : list (ServerAction B)) (v : NodesStatus B).

Definition view_step v (a : ServerAction B) : NodesStatus B :=
  match a with
  | SaToUser (SuServerToUser (SuNodesStatus m)) => m
  | SaToUser (SuServerToUser (SuNodeOpened o)) =>
      alter (fun st => mkNodeStatus (ModeOpen (no_node_id o)) (nst_is_enabled st) (nst_info st)) (no_node_name o) v
  | _ => v
  end.
Definition view l : NodesStatus B := foldl view_step ∅ l.
Definition acked l : list Uid := omap (fun a => match a with SaToUser (SuAck id) => Some id | _ => None end) l.
Definition status_from (o : gmap NodeId OpenNode) (m : gmap NodeName (StoredNode B)) : NodesStatus B :=
  map_imap (fun n x => Some (mkNodeStatus (node_mode o n) (sc_is_enabled (sn_config x)) (sn_info x))) m.

Lemma status_of_from (s : ServerState ST B) m : status_of s m = status_from (sv_open_nodes s) m.
Proof. done. Qed.
Lemma status_lookup o m n :
  status_from o m !! n = (fun x => mkNodeStatus (node_mode o n) (sc_is_enabled (sn_config x)) (sn_info x)) <$> m !! n.
Proof. unfold status_from. rewrite map_lookup_imap. by destruct (m !! n). Qed.

Lemma status_ext o o' m :
  names_inj o -> names_inj o' -> (forall id n, is_Some (m !! n) -> opens o id n <-> opens o' id n) -> status_from o m = status_from o' m.
Proof.
  intros Hi Hi' Heq. apply map_eq. intros n. rewrite !status_lookup. destruct (m !! n) as [x|] eqn:Hn; [|done]. simpl.
  do 2 f_equal. apply node_mode_ext; [done..|]. intros id. apply Heq. by rewrite Hn.
Qed.
(** A node is opened. *)
Lemma status_opened o m id x perms report :
  names_inj o -> names_inj (<[id := x]> o) -> o !! id = None ->
  status_from (<[id := x]> o) m =
  view_step (status_from o m) (SaToUser (SuServerToUser (SuNodeOpened (mkNodeOpened (on_node_name x) id perms report)))).
Proof.
  intros Hi Hi' Hid. apply map_eq. intros n. simpl. destruct (decide (n = on_node_name x)) as [->|Hne].
  - rewrite lookup_alter_eq, !status_lookup. destruct (m !! on_node_name x); [|done]. simpl. do 2 f_equal.
    apply node_mode_open; [done|]. apply opens_insert. by left.
  - rewrite lookup_alter_ne by done. rewrite !status_lookup. destruct (m !! n); [|done]. simpl. do 2 f_equal.
    apply node_mode_ext; [done..|]. intros id'. rewrite opens_insert. split; [naive_solver|].
    intros Ho. right. split; [|done]. intros ->. destruct Ho as (y & Hy & _). by rewrite Hid in Hy.
Qed.
Lemma view_app l l' : view (l ++ l') = foldl view_step (view l) l'.
Proof. apply foldl_app. Qed.
Lemma acked_app l l' : acked (l ++ l') = acked l ++ acked l'.
Proof. apply omap_app. Qed.
End View.

(** ** The invariant *)
Section Invariant.
Context {ST SE B : Type} `{Store ST SE B} `{EqDecision B}.
Context (contents : ST -> option (gmap NodeName (StoredNode B))) (loaded : ST -> gset NodeName).
Context `{!StoreLaws ST SE B contents loaded}.
Context (ok : nat -> bool) (gen_private_key : nat -> PrivateKey) (first_report : nat -> option (NodeReport B)).
Notation St := (ServerState ST B).
Notation M := (Eff St ServerError (ServerAction B)).
Notation stored := (stored contents loaded).
Notation WP Pn := (wp Pn (fun _ _ => True)).
Implicit Types (s : St) (l : list (ServerAction B)) (m : gmap NodeName (StoredNode B)) (o : gmap NodeId OpenNode)
  (pre : gmap NodeName (PreOpenNode B)) (R D : gset Uid).

Definition enabled m (n : NodeName) : Prop := exists x, m !! n = Some x /\ sc_is_enabled (sn_config x) = true.
Definition nodes_ok m o pre (next : NodeId) : Prop :=
  (forall id n, opens o id n -> enabled m n /\ (0 <= id < next)%Z) /\ names_inj o /\
  (forall n, is_Some (pre !! n) -> enabled m n /\ forall id, ~ opens o id n).
(** The user waits for an answer of an open node. *)
Definition waits o (r : Uid) : Prop := exists id x, o !! id = Some x /\ r ∈ on_pending_requests x.
Definition requests_ok R D o l : Prop :=
  (forall r, r ∈ R -> r ∈ acked l \/ waits o r \/ r ∈ D) /\ (forall r, waits o r -> r ∈ R).

(** Between events; at most [budget] more nodes are opened. *)
Definition server_inv_at m (budget : Z) R D s l : Prop :=
  stored (sv_store s) m (open_names (sv_open_nodes s) ∪ dom (sv_pre_open_nodes s)) /\
    nodes_ok m (sv_open_nodes s) (sv_pre_open_nodes s) (sv_next_node_id s) /\ view l = status_from (sv_open_nodes s) m /\
    (0 <= sv_next_node_id s /\ sv_next_node_id s + budget < 2 ^ 64)%Z /\ requests_ok R D (sv_open_nodes s) l.
Definition server_inv (budget : Z) R D s l : Prop := exists m, server_inv_at m budget R D s l.

Lemma stored_eq st m ld ld' : stored st m ld -> ld ≡ ld' -> stored st m ld'.
Proof. intros Hs ->%leibniz_equiv. exact Hs. Qed.
Lemma server_inv_intro budget R D next pre o st ticks l m :
  stored st m (open_names o ∪ dom pre) -> nodes_ok m o pre next -> view l = status_from o m ->
  (0 <= next /\ next + budget < 2 ^ 64)%Z -> requests_ok R D o l -> server_inv_at m budget R D (mkServerState next pre o st ticks) l.
Proof. intros H1 H2 H3 H4 H5. exact (conj H1 (conj H2 (conj H3 (conj H4 H5)))). Qed.

(** *** Calls of the store *)
Lemma wp_call_store {A} Pn (c : SM ST SE A) Q s l :
  swp c (fun a st => Q (inr a) (with_store s st) l) (fun e st => Q (inl e) (with_store s st) l) (sv_store s) ->
  WP Pn (call_store c) Q s l.
Proof. unfold wp, call_store, swp. destruct (c (sv_store s)) as [st [a|e|]]; done. Qed.
Lemma swp_mono {A} (c : SM ST SE A) (Q Q' : A -> ST -> Prop) (X X' : SE -> ST -> Prop) st :
  swp c Q X st -> (forall a st', Q a st' -> Q' a st') -> (forall e st', X e st' -> X' e st') -> swp c Q' X' st.
Proof. unfold swp. destruct (c st) as [st' [a|e|]]; auto. Qed.
Lemma wp_store_or_fail {A} Pn (c : SM ST SE A) Q s l :
  swp c (fun a st => Q a (with_store s st) l) (fun _ _ => True) (sv_store s) -> WP Pn (store_or_fail c) Q s l.
Proof.
  intros Hc. unfold store_or_fail. wp_step. apply wp_call_store. eapply swp_mono; [exact Hc| |].
  - intros a st Ha. by apply wp_ret.
  - by intros e st _.
Qed.
Lemma wp_store_or_warn {A} Pn (c : SM ST SE A) Q s l :
  swp c (fun a st => Q (Some a) (with_store s st) l)
    (fun e st => is_fatal (SE := SE) e = true \/ Q None (with_store s st) l) (sv_store s) ->
  WP Pn (store_or_warn c) Q s l.
Proof.
  intros Hc. unfold store_or_warn. wp_step. apply wp_call_store. eapply swp_mono; [exact Hc| |].
  - intros a st Ha. by apply wp_ret.
  - intros e st He. destruct (is_fatal e) eqn:E; [done|]. apply wp_ret. destruct He as [He|He]; [congruence|exact He].
Qed.
Lemma wp_list_nodes Pn Q s l m ld :
  stored (sv_store s) m ld -> (forall st, stored st m ld -> Q m (with_store s st) l) ->
  WP Pn (store_or_fail list_nodes) Q s l.
Proof.
  intros Hs HQ. apply wp_store_or_fail. eapply swp_mono; [exact (list_nodes_stored contents loaded _ _ _ Hs)| |done].
  intros a st [-> Hst]. by apply HQ.
Qed.
Lemma wp_build Pn Q s l m ld :
  stored (sv_store s) m ld -> (forall st, stored st m ld -> Q (status_from (sv_open_nodes s) m) (with_store s st) l) ->
  WP Pn build_nodes_status Q s l.
Proof.
  intros Hs HQ. unfold build_nodes_status. wp_step. eapply wp_list_nodes; [exact Hs|]. intros st Hst. repeat wp_step. by apply HQ.
Qed.
Lemma wp_build_lost Pn Q s l : contents (sv_store s) = None -> WP Pn build_nodes_status Q s l.
Proof.
  intros Hs. unfold build_nodes_status. wp_step. apply wp_store_or_fail. by eapply swp_mono; [exact (list_nodes_lost contents loaded _ Hs)|..].
Qed.
Lemma wp_to_user Pn Q msg s l : Q tt s (l ++ [SaToUser msg]) -> WP Pn (to_user ok msg) Q s l.
Proof. intros HQ. by apply wp_emit. Qed.
Lemma wp_emit_any Pn Q (err : ServerError) a s l : Q tt s (l ++ [a]) -> WP Pn (emit ok err a) Q s l.
Proof. intros HQ. by apply wp_emit. Qed.

(** *** Requests *)
Lemma requests_log R D o l l' : requests_ok R D o l -> requests_ok R D o (l ++ l').
Proof. intros [Hr Hw]. split; [|done]. intros r Hr'. rewrite acked_app. set_solver. Qed.
Lemma requests_ack R D o l r : requests_ok R D o l -> r ∈ acked l -> requests_ok ({[r]} ∪ R) D o l.
Proof. intros [Hr Hw] Ha. split; set_solver. Qed.
Lemma requests_same R D o o' l :
  requests_ok R D o l -> (forall r, waits o r <-> waits o' r) -> requests_ok R D o' l.
Proof. intros [Hr Hw] He. split; [intros r Hr'; rewrite <-He|intros r; rewrite <-He]; auto. Qed.

Lemma waits_insert_new o id x r : o !! id = None -> on_pending_requests x = ∅ -> waits (<[id := x]> o) r <-> waits o r.
Proof.
  intros Hid Hx. unfold waits. split; intros (i & y & Hy & Hr).
  - apply lookup_insert_Some in Hy as [[<- <-]|[_ Hy]]; [set_solver|eauto].
  - exists i, y. split; [|done]. rewrite lookup_insert_ne; [done|]. congruence.
Qed.
Lemma waits_delete o id x r : o !! id = Some x -> waits o r -> r ∈ on_pending_requests x \/ waits (delete id o) r.
Proof.
  intros Hx (i & y & Hy & Hr). destruct (decide (i = id)) as [->|Hne]; [left; congruence|]. right. exists i, y.
  by rewrite lookup_delete_ne.
Qed.
Lemma waits_delete_inv o id r : waits (delete id o) r -> waits o r.
Proof. intros (i & y & [_ Hy]%lookup_delete_Some & Hr). by exists i, y. Qed.

(** *** Closing a node *)
Lemma nodes_ok_delete m o pre next id x :
  nodes_ok m o pre next -> o !! id = Some x -> nodes_ok m (delete id o) pre next.
Proof.
  intros (Ho & Hi & Hp) Hx. split_and!.
  - intros i n [_ Hn]%opens_delete. by apply Ho.
  - intros i i' n [_ Hn]%opens_delete [_ Hn']%opens_delete. by eapply Hi.
  - intros n Hn. destruct (Hp n Hn) as [He Hno]. split; [done|]. intros i [_ Ho']%opens_delete. by apply (Hno i).
Qed.
Lemma open_names_delete o id x :
  names_inj o -> o !! id = Some x -> open_names (delete id o) = open_names o ∖ {[on_node_name x]}.
Proof.
  intros Hi Hx. apply leibniz_equiv. intros n. rewrite elem_of_difference, !elem_of_open_names, elem_of_singleton. split.
  - intros [i [Hne Ho]%opens_delete]. split; [eauto|]. intros ->. apply Hne. eapply Hi; [exact Ho|]. by exists x.
  - intros [[i Ho] Hne]. exists i. apply opens_delete. split; [|done]. intros ->. destruct Ho as (y & Hy & <-). congruence.
Qed.

(** The user is told about the requests of a closed node. *)
Lemma wp_acks Pn rs s l :
  WP Pn (efor rs (fun r => to_user ok (SuAck r)))
    (fun _ s' l' => s' = s /\ view l' = view l /\ (forall r, r ∈ acked l' <-> r ∈ acked l \/ r ∈ rs)) s l.
Proof.
  eapply wp_mono; [|apply (wp_for _ _ (fun rs' s' l' => s' = s /\ view l' = view l /\
    (forall r, r ∈ acked l' \/ r ∈ rs' <-> r ∈ acked l \/ r ∈ rs)))].
  - intros [] s' l' (-> & Hv & Ha). split_and!; [done..|]. intros r. rewrite <-Ha. set_solver.
  - intros r rs' s' l' (-> & Hv & Ha). apply wp_to_user. split_and!; [done|by rewrite view_app|].
    intros r'. rewrite <-Ha, acked_app. set_solver.
  - done.
Qed.

Lemma wp_close Pn budget R D id s l :
  server_inv budget R D s l ->
  WP Pn (close_node_and_notify_user ok id) (fun _ s' l' => server_inv budget R D s' l') s l.
Proof.
  intros Hinv. unfold close_node_and_notify_user. repeat wp_step.
  destruct (sv_open_nodes s !! id) as [x|] eqn:Hx; [|by apply wp_ret].
  destruct s as [next pre o st ticks]. cbn [sv_next_node_id sv_pre_open_nodes sv_open_nodes sv_store] in *.
  destruct Hinv as (m & Hst & Hn & Hv & Hb & Hr). cbn [sv_next_node_id sv_pre_open_nodes sv_open_nodes sv_store] in *.
  set (n := on_node_name x). assert (opens o id n) as Hopen by by exists x.
  destruct (proj1 Hn _ _ Hopen) as [[sn [Hsn Hen]] _].
  assert (n ∉ dom pre) as Hnpre.
  { rewrite elem_of_dom. intros [_ Hno]%Hn. by apply (Hno id). }
  pose proof (open_names_delete _ _ _ (proj1 (proj2 Hn)) Hx) as Hdel.
  repeat wp_step. apply wp_store_or_warn.
  eapply swp_mono; [exact (unload_node_law contents loaded _ _ _ n Hst)| |].
  2: { intros e st' (Hno & _). destruct Hno. apply elem_of_union_l, elem_of_open_names. eauto. }
  intros _ st1 [_ Hst1]. repeat wp_step. eapply wp_build; [exact Hst1|]. intros st2 Hst2. cbn. repeat wp_step.
  apply wp_to_user. repeat wp_step. eapply wp_mono; [|apply wp_acks]. intros _ s' l' (-> & Hv' & Ha'). cbn.
  assert (view l' = status_from (delete id o) m) as Hview by by rewrite Hv', view_app.
  assert (requests_ok R D (delete id o) l') as Hreq.
  { destruct Hr as [Hr Hw]. split.
    - intros r HrR. destruct (Hr r HrR) as [?|[Hwr|?]]; [left; apply Ha'; rewrite acked_app; set_solver| |by right; right].
      destruct (waits_delete _ _ _ _ Hx Hwr) as [?|?]; [left; apply Ha'; right; by apply elem_of_elements|by right; left].
    - intros r Hwr. by apply Hw, (waits_delete_inv o id). }
  wp_step. apply wp_store_or_warn. eapply swp_mono; [exact (load_node_law contents loaded _ _ _ n sn Hst2 Hsn ltac:(set_solver))| |].
  2: { by left. }
  intros ln st3 [_ Hst3]. cbn. pose proof (nodes_ok_delete _ _ _ _ _ _ Hn Hx) as Hn'. destruct ln as [ll|lr].
  - apply wp_store_or_fail. eapply swp_mono; [exact (unload_node_law contents loaded _ _ _ n Hst3)| |done].
    intros _ st4 [_ Hst4]. exists m. apply (server_inv_intro _ _ _ _ _ _ _ _ _ m); [|exact Hn'|done..].
    eapply stored_eq; [exact Hst4|]. cbn [sv_open_nodes with_open with_store sv_pre_open_nodes]. rewrite Hdel. set_solver.
  - unfold schedule. repeat wp_step. exists m. apply (server_inv_intro _ _ _ _ _ _ _ _ _ m); [| |done..]; cbn.
    + eapply stored_eq; [exact Hst3|]. rewrite dom_insert_L, Hdel. set_solver.
    + destruct Hn' as (Ho' & Hi' & Hp'). split_and!; [done..|]. intros k [y Hy]. apply lookup_insert_Some in Hy as [[<- _]|[_ Hy]].
      * split; [by exists sn|]. intros i [Hne Hi0]%opens_delete. apply Hne. eapply (proj1 (proj2 Hn)); [exact Hi0|done].
      * by apply Hp'.
Qed.

(** *** Opening a node *)
Lemma nodes_ok_fresh m o pre next : nodes_ok m o pre next -> o !! next = None.
Proof.
  intros (Ho & _). destruct (o !! next) as [x|] eqn:E; [|done]. destruct (Ho next (on_node_name x)) as [_ Hlt]; [by exists x|lia].
Qed.
Lemma nodes_ok_insert m o pre next n loc :
  nodes_ok m o pre next -> (0 <= next)%Z -> enabled m n -> n ∉ open_names o ∪ dom pre ->
  nodes_ok m (<[next := mkOpenNode n loc ∅]> o) pre (next + 1).
Proof.
  intros Hn H0 He Hnot. pose proof (nodes_ok_fresh _ _ _ _ Hn) as Hf. destruct Hn as (Ho & Hi & Hp).
  assert (forall id, ~ opens o id n) as Hno.
  { intros id Hid. apply Hnot, elem_of_union_l, elem_of_open_names. eauto. }
  split_and!.
  - intros id k [[-> <-]|[_ Hk]]%opens_insert; [split; [done|lia]|]. destruct (Ho _ _ Hk). split; [done|lia].
  - intros id id' k [[-> <-]|[_ Hk]]%opens_insert [[-> Hk']|[_ Hk']]%opens_insert; simpl in *; subst; try done;
      [by destruct (Hno id')|by destruct (Hno id)|]. by eapply Hi.
  - intros k Hk. destruct (Hp k Hk) as [Hek Hok]. split; [done|].
    intros id [[_ Hkn]|[_ Hok']]%opens_insert; [|by apply (Hok id)]. simpl in Hkn. subst k.
    apply Hnot, elem_of_union_r, elem_of_dom. done.
Qed.
Lemma open_names_insert o id x : o !! id = None -> open_names (<[id := x]> o) ≡ {[on_node_name x]} ∪ open_names o.
Proof.
  intros Hid n. rewrite elem_of_union, elem_of_singleton, !elem_of_open_names. setoid_rewrite opens_insert. split.
  - intros [i [[_ <-]|[_ Ho]]]; eauto.
  - intros [->|[i Ho]]; [by exists id; left|]. exists i. right. split; [|done]. intros ->. destruct Ho as (y & Hy & _). congruence.
Qed.

(** The state once the node has its identifier, before the user is told. *)
Lemma inv_opened budget R D next pre o st ticks l m n loc perms report :
  stored st m ({[n]} ∪ (open_names o ∪ dom pre)) -> nodes_ok m o pre next -> n ∉ open_names o ∪ dom pre -> enabled m n ->
  view l = status_from o m -> (0 <= next /\ next + 1 + budget < 2 ^ 64)%Z -> requests_ok R D o l ->
  server_inv_at m budget R D (mkServerState (next + 1) pre (<[next := mkOpenNode n loc ∅]> o) st ticks)
    (l ++ [SaToUser (SuServerToUser (SuNodeOpened (mkNodeOpened n next perms report)))]).
Proof.
  intros Hst Hn Hnot He Hv Hb Hr. pose proof (nodes_ok_fresh _ _ _ _ Hn) as Hf.
  pose proof (nodes_ok_insert _ _ _ _ n loc Hn (proj1 Hb) He Hnot) as Hn'.
  apply (server_inv_intro _ _ _ _ _ _ _ _ _ m); [|exact Hn'| |lia|].
  - eapply stored_eq; [exact Hst|]. rewrite open_names_insert by done. simpl. by rewrite (assoc_L (∪)).
  - rewrite view_app, Hv. symmetry.
    exact (status_opened _ m _ (mkOpenNode n loc ∅) perms report (proj1 (proj2 Hn)) (proj1 (proj2 Hn')) Hf).
  - apply requests_log. eapply requests_same; [exact Hr|]. intros r. symmetry. by apply waits_insert_new.
Qed.

Lemma inv_mono budget budget' R D s l : (budget' <= budget)%Z -> server_inv budget R D s l -> server_inv budget' R D s l.
Proof. intros Hle (m & Hst & Hn & Hv & Hb & Hr). exists m. destruct s. apply (server_inv_intro _ _ _ _ _ _ _ _ _ m); try done. cbn in Hb. lia. Qed.

Lemma view_silent l l' : Forall (fun a => match a with SaToUser _ => False | _ => True end) l' -> view (l ++ l') = view l.
Proof.
  intros Hf. rewrite view_app. generalize (view l). induction Hf as [|a l' Ha Hf IH]; intros v; [done|]. simpl. rewrite IH. by destruct a.
Qed.

Lemma wp_open_node_local Pn n ll next pre o (st : ST) ticks l m Q :
  nodes_ok m o pre next -> (0 <= next /\ next + 1 < 2 ^ 64)%Z ->
  (forall report l', view l' = view l -> acked l' = acked l ->
     Q (mkNodeOpened n next (mkAppPermissions true true true true) report)
       (mkServerState (next + 1) pre (<[next := mkOpenNode n true ∅]> o) st ticks) l') ->
  WP Pn (open_node_local ok first_report n ll) Q (mkServerState next pre o st ticks) l.
Proof.
  intros Hn Hb HQ. unfold open_node_local. wp_step. apply wp_emit_any. wp_step.
  unfold wp at 1. destruct (first_report _) as [report|]; [|done]. wp_step. apply wp_emit_any.
  unfold new_node_id. repeat wp_step. cbn. apply wp_emit_any. unfold insert_open_node. repeat wp_step. cbn.
  rewrite (nodes_ok_fresh _ _ _ _ Hn). rewrite decide_False by by intros [? ?]. repeat wp_step. apply wp_emit_any. repeat wp_step.
  rewrite <-!app_assoc. simpl. unfold with_open. cbn. unfold cast_u. rewrite Z.mod_small by lia. apply HQ.
  - apply view_silent. repeat constructor.
  - rewrite acked_app. simpl. by rewrite app_nil_r.
Qed.

Lemma wp_open_loaded Pn budget R D n ln next pre o (st : ST) ticks l m :
  stored st m ({[n]} ∪ (open_names o ∪ dom pre)) -> nodes_ok m o pre next -> n ∉ open_names o ∪ dom pre -> enabled m n ->
  view l = status_from o m -> (0 <= next /\ 0 <= budget /\ next + 1 + budget < 2 ^ 64)%Z -> requests_ok R D o l ->
  WP Pn (open_loaded ok first_report n ln) (fun _ s' l' => server_inv_at m budget R D s' l' /\
    open_names (sv_open_nodes s') ∪ dom (sv_pre_open_nodes s') ≡ {[n]} ∪ (open_names o ∪ dom pre)) (mkServerState next pre o st ticks) l.
Proof.
  intros Hst Hn Hnot He Hv Hb Hr. destruct ln as [ll|lr]; simpl.
  - wp_step. apply (wp_open_node_local _ _ _ _ _ _ _ _ _ m); [done|lia|]. intros report l' Hv' Ha'. apply wp_to_user.
    split; [|cbn; rewrite open_names_insert by (by eapply nodes_ok_fresh); simpl; by rewrite (assoc_L (∪))].
    apply (inv_opened _ _ _ _ _ _ _ _ _ m); [done..|congruence|lia|]. unfold requests_ok. rewrite Ha'. exact Hr.
  - unfold schedule. repeat wp_step. split; [|cbn; rewrite dom_insert_L; set_solver]. apply (server_inv_intro _ _ _ _ _ _ _ _ _ m); cbn; [| |done|lia|done].
    + eapply stored_eq; [exact Hst|]. rewrite dom_insert_L. set_solver.
    + destruct Hn as (Ho & Hi & Hp). split_and!; [done..|]. intros k [y Hy]. apply lookup_insert_Some in Hy as [[<- _]|[_ Hy]].
      * split; [done|]. intros id Hid. apply Hnot, elem_of_union_l, elem_of_open_names. eauto.
      * by apply Hp.
Qed.

(** *** Requests of the user *)
Lemma wp_server_ack Pn budget R D r s l :
  server_inv budget R D s l -> WP Pn (to_user ok (SuAck r)) (fun _ s' l' => server_inv budget ({[r]} ∪ R) D s' l') s l.
Proof.
  intros (m & Hst & Hn & Hv & Hb & Hr). apply wp_to_user. exists m. destruct s.
  apply (server_inv_intro _ _ _ _ _ _ _ _ _ m); [done|done|by rewrite view_app|done|].
  apply requests_ack; [by apply requests_log|]. rewrite acked_app. set_solver.
Qed.

(** The answer to a request that may have changed the store. *)
Lemma wp_status_ack Pn budget R D r (changed : bool) next pre o (st : ST) ticks l m :
  stored st m (open_names o ∪ dom pre) -> nodes_ok m o pre next -> (changed = false -> view l = status_from o m) ->
  (0 <= next /\ next + budget < 2 ^ 64)%Z -> requests_ok R D o l ->
  WP Pn build_nodes_status (fun nodes_status =>
    WP Pn (send_nodes_status_ack ok (if changed then Some nodes_status else None) r)
      (fun _ s' l' => server_inv budget ({[r]} ∪ R) D s' l')) (mkServerState next pre o st ticks) l.
Proof.
  intros Hst Hn Hv Hb Hr. eapply wp_build; [exact Hst|]. intros st' Hst'. unfold send_nodes_status_ack. wp_step.
  destruct changed.
  - apply wp_to_user, wp_server_ack. exists m. apply (server_inv_intro _ _ _ _ _ _ _ _ _ m); try done; [by rewrite view_app|by apply requests_log].
  - apply wp_ret, wp_server_ack. exists m. apply (server_inv_intro _ _ _ _ _ _ _ _ _ m); try done. by apply Hv.
Qed.

Lemma nodes_ok_store m m' o pre next : nodes_ok m o pre next -> (forall n, enabled m n -> enabled m' n) -> nodes_ok m' o pre next.
Proof.
  intros (Ho & Hi & Hp) He. split_and!; [|done|].
  - intros id n Hn. destruct (Ho id n Hn). split; [by apply He|done].
  - intros n Hn. destruct (Hp n Hn). split; [by apply He|done].
Qed.
Lemma enabled_insert m n x k : (m !! n = None \/ sc_is_enabled (sn_config x) = true) -> enabled m k -> enabled (<[n := x]> m) k.
Proof.
  intros Hx (y & Hy & He). destruct (decide (n = k)) as [->|Hne].
  - exists x. rewrite lookup_insert_eq. split; [done|]. destruct Hx; congruence.
  - exists y. by rewrite lookup_insert_ne.
Qed.

Lemma wp_create Pn budget R D c r s l :
  server_inv budget R D s l ->
  WP Pn (handle_create_node ok gen_private_key c r) (fun _ s' l' => server_inv budget ({[r]} ∪ R) D s' l') s l.
Proof.
  intros (m & Hst & Hn & Hv & Hb & Hr). destruct s as [next pre o st ticks].
  cbn [sv_next_node_id sv_pre_open_nodes sv_open_nodes sv_store] in *. unfold handle_create_node. wp_step.
  destruct c as [n|n key pk addr]; unfold is_node_exists; repeat wp_step; (eapply wp_list_nodes; [exact Hst|]);
    intros st1 Hst1; cbn; repeat wp_step; (case_bool_decide as Hex; [repeat wp_step; by eapply (wp_status_ack _ _ _ _ _ false)|]);
    apply eq_None_not_Some in Hex.
  - unfold handle_create_node_local. apply wp_bind. apply wp_store_or_warn.
    eapply swp_mono; [exact (create_local_node_law contents loaded _ _ _ n _ Hst1 Hex)| |].
    + intros [] st2 [pk Hst2]. repeat wp_step. rewrite bool_decide_true by by eexists.
      eapply (wp_status_ack _ _ _ _ _ true); [exact Hst2| |done..]. eapply nodes_ok_store; [exact Hn|].
      intros k. apply enabled_insert. by left.
    + intros e st2 [?|Hst2]; [by left|]. right. repeat wp_step. rewrite bool_decide_false by by intros [? ?].
      by eapply (wp_status_ack _ _ _ _ _ false).
  - unfold handle_create_node_remote. wp_step. apply wp_call_store.
    eapply swp_mono; [exact (create_remote_node_law contents loaded _ _ _ n key pk addr Hst1 Hex)| |].
    + intros [] st2 [pk' Hst2]. repeat wp_step.
      eapply (wp_status_ack _ _ _ _ _ true); [exact Hst2| |done..]. eapply nodes_ok_store; [exact Hn|].
      intros k. apply enabled_insert. by left.
    + intros e st2 [Hlost|Hst2]; repeat wp_step; [by apply wp_build_lost|]. by eapply (wp_status_ack _ _ _ _ _ false).
Qed.

Lemma wp_remove Pn budget R D n r s l :
  regular_name n = true -> server_inv budget R D s l ->
  WP Pn (handle_remove_node ok n r) (fun _ s' l' => server_inv budget ({[r]} ∪ R) D s' l') s l.
Proof.
  intros Hreg (m & Hst & Hn & Hv & Hb & Hr). destruct s as [next pre o st ticks].
  cbn [sv_next_node_id sv_pre_open_nodes sv_open_nodes sv_store] in *. unfold handle_remove_node, is_node_enabled. repeat wp_step.
  eapply wp_list_nodes; [exact Hst|]. intros st1 Hst1. cbn. repeat wp_step.
  destruct (match m !! n with Some x => _ | None => false end) eqn:En; repeat wp_step; [by eapply (wp_status_ack _ _ _ _ _ false)|].
  assert (~ enabled m n) as Hdis by (intros (x & Hx & He); rewrite Hx in En; congruence).
  assert (n ∉ open_names o ∪ dom pre) as Hout.
  { rewrite elem_of_union, elem_of_open_names, elem_of_dom. intros [[id Hid]|Hp]; apply Hdis; [by apply (proj1 Hn _ _ Hid)|by apply (proj2 (proj2 Hn) _ Hp)]. }
  apply wp_store_or_warn.
  eapply swp_mono; [exact (remove_node_law contents loaded _ _ _ n Hst1 Hreg (fun Hin => False_ind _ (Hout Hin)))| |].
  - intros [] st2 (_ & _ & Hst2). repeat wp_step. rewrite bool_decide_true by by eexists.
    eapply (wp_status_ack _ _ _ _ _ true); [exact Hst2| |done..]. eapply nodes_ok_store; [exact Hn|].
    intros k Hk. destruct (decide (n = k)) as [->|Hne]; [done|]. destruct Hk as (x & Hx & He). exists x. by rewrite lookup_delete_ne.
  - intros e st2 [?|[Hlost|Hst2]]; [by left|right; repeat wp_step; by apply wp_build_lost|].
    right. repeat wp_step. rewrite bool_decide_false by by intros [? ?]. by eapply (wp_status_ack _ _ _ _ _ false).
Qed.

Lemma wp_enable Pn budget R D n r s l :
  (0 <= budget)%Z -> server_inv (budget + 1) R D s l ->
  WP Pn (handle_enable_node ok first_report n r) (fun _ s' l' => server_inv budget ({[r]} ∪ R) D s' l') s l.
Proof.
  intros H0 Hinv. destruct Hinv as (m & Hst & Hn & Hv & Hb & Hr).
  destruct s as [next pre o st ticks]. cbn [sv_next_node_id sv_pre_open_nodes sv_open_nodes sv_store] in *.
  unfold handle_enable_node. repeat wp_step. eapply wp_list_nodes; [exact Hst|]. intros st1 Hst1. cbn.
  assert (server_inv budget R D (mkServerState next pre o st1 ticks) l) as Hinv1.
  { exists m. apply (server_inv_intro _ _ _ _ _ _ _ _ _ m); try done. lia. }
  destruct (m !! n) as [x|] eqn:Hx; [|by apply wp_server_ack]. destruct (sc_is_enabled (sn_config x)) eqn:He; [by apply wp_server_ack|].
  assert (n ∉ open_names o ∪ dom pre) as Hout.
  { rewrite elem_of_union, elem_of_open_names, elem_of_dom.
    intros [[id Hid]|Hp]; [apply Hn in Hid as [(y & Hy & Hey) _]|apply Hn in Hp as [(y & Hy & Hey) _]]; congruence. }
  set (m1 := <[n := mkStoredNode (sn_info x) (mkStoredNodeConfig true)]> m).
  repeat wp_step. apply wp_store_or_fail.
  eapply swp_mono; [exact (config_node_law contents loaded _ _ _ n x (mkStoredNodeConfig true) Hst1 Hx)| |done].
  intros [] st2 Hst2. repeat wp_step. apply wp_store_or_warn.
  assert (m1 !! n = Some (mkStoredNode (sn_info x) (mkStoredNodeConfig true))) as Hx1 by apply lookup_insert_eq.
  eapply swp_mono; [exact (load_node_law contents loaded _ _ _ n _ Hst2 Hx1 Hout)| |by left].
  intros ln st3 [_ Hst3]. cbn. repeat wp_step. eapply wp_build; [exact Hst3|]. intros st4 Hst4. cbn.
  unfold send_nodes_status_ack. repeat wp_step. apply wp_to_user. repeat wp_step. apply wp_to_user.
  eapply wp_mono; [|apply (wp_open_loaded _ budget ({[r]} ∪ R) D _ _ _ _ _ _ _ _ m1); [exact Hst4| |exact Hout| | | |]].
  - intros [] s' l' [Hi _]. by exists m1.
  - eapply nodes_ok_store; [exact Hn|]. intros k. apply enabled_insert. by right.
  - by eexists.
  - by rewrite !view_app.
  - cbn. lia.
  - apply requests_ack; [by do 2 apply requests_log|]. rewrite !acked_app. set_solver.
Qed.

(** The requests that wait at the nodes of a name. *)
Definition waiting_at o (n : NodeName) : gset Uid :=
  ⋃ ((fun x => if decide (on_node_name x.2 = n) then on_pending_requests x.2 else ∅) <$> map_to_list o).
Lemma elem_of_waiting_at o n r :
  r ∈ waiting_at o n <-> exists id x, o !! id = Some x /\ on_node_name x = n /\ r ∈ on_pending_requests x.
Proof.
  unfold waiting_at. rewrite elem_of_union_list. split.
  - intros (X & HX & Hr). apply list_elem_of_fmap in HX as ([id x] & -> & Hin%elem_of_map_to_list). simpl in Hr.
    case_decide; [|set_solver]. eauto.
  - intros (id & x & Hx & Hn & Hr). exists (on_pending_requests x). split; [|done]. apply list_elem_of_fmap. exists (id, x). simpl.
    rewrite decide_True by done. split; [done|]. by apply elem_of_map_to_list.
Qed.
Lemma open_names_filter o n : open_names (filter (fun x => on_node_name x.2 <> n) o) ≡ open_names o ∖ {[n]}.
Proof.
  intros k. rewrite elem_of_difference, elem_of_singleton, !elem_of_open_names. setoid_rewrite opens_filter. naive_solver.
Qed.
Lemma nodes_ok_disable m o pre next n x :
  nodes_ok m o pre next ->
  nodes_ok (<[n := x]> m) (filter (fun y => on_node_name y.2 <> n) o) (delete n pre) next.
Proof.
  intros (Ho & Hi & Hp).
  assert (forall k, k <> n -> enabled m k -> enabled (<[n := x]> m) k) as Hen.
  { intros k Hk (y & Hy & He). exists y. by rewrite lookup_insert_ne. }
  split_and!.
  - intros id k [Hk Hok]%opens_filter. destruct (Ho _ _ Hok). auto.
  - intros id id' k [_ Hk]%opens_filter [_ Hk']%opens_filter. by eapply Hi.
  - intros k [y [Hk Hy]%lookup_delete_Some]. destruct (Hp k) as [He Hno]; [by eexists|]. split; [by apply Hen|].
    intros id [_ Hok]%opens_filter. by apply (Hno id).
Qed.
Lemma requests_disable R D o l n :
  requests_ok R D o l -> requests_ok R (D ∪ waiting_at o n) (filter (fun y => on_node_name y.2 <> n) o) l.
Proof.
  intros [Hr Hw]. split.
  - intros r HrR. destruct (Hr r HrR) as [?|[(id & x & Hx & Hrx)|?]]; [by left| |set_solver].
    destruct (decide (on_node_name x = n)) as [Hn|Hn].
    + right. right. apply elem_of_union_r, elem_of_waiting_at. eauto.
    + right. left. exists id, x. split; [|done]. by apply map_lookup_filter_Some.
  - intros r (id & x & [Hx _]%map_lookup_filter_Some & Hrx). apply Hw. by exists id, x.
Qed.
Lemma requests_more R D D' o l : requests_ok R D o l -> D ⊆ D' -> requests_ok R D' o l.
Proof. intros [Hr Hw] Hsub. split; [|done]. set_solver. Qed.

Lemma wp_disable Pn budget R D n r s l :
  server_inv budget R D s l ->
  WP Pn (handle_disable_node ok n r)
    (fun _ s' l' => server_inv budget ({[r]} ∪ R) (D ∪ waiting_at (sv_open_nodes s) n) s' l') s l.
Proof.
  intros (m & Hst & Hn & Hv & Hb & Hr). destruct s as [next pre o st ticks].
  cbn [sv_next_node_id sv_pre_open_nodes sv_open_nodes sv_store] in *. unfold handle_disable_node. repeat wp_step.
  eapply wp_build; [exact Hst|]. intros st1 Hst1. cbn.
  assert (server_inv budget R (D ∪ waiting_at o n) (mkServerState next pre o st1 ticks) l) as Hsame.
  { exists m. apply (server_inv_intro _ _ _ _ _ _ _ _ _ m); try done. eapply requests_more; [done|]. set_solver. }
  rewrite status_lookup. destruct (m !! n) as [x|] eqn:Hx; [|by apply wp_server_ack]. cbn.
  destruct (sc_is_enabled (sn_config x)) eqn:He; [|by apply wp_server_ack].
  repeat wp_step. apply wp_store_or_warn.
  set (m1 := <[n := mkStoredNode (sn_info x) (mkStoredNodeConfig false)]> m).
  set (o1 := filter (fun y => on_node_name y.2 <> n) o).
  assert (forall st2, stored st2 m ((open_names o ∪ dom pre) ∖ {[n]}) ->
    WP Pn (let* _ := store_or_fail (config_node n (mkStoredNodeConfig false)) in
        let* s := eget in
        let* _ := eput (mkServerState (sv_next_node_id s) (delete n (sv_pre_open_nodes s))
                          (filter (fun x => on_node_name x.2 <> n) (sv_open_nodes s)) (sv_store s) (sv_ticks_to_connect s)) in
        let* new_nodes_status := build_nodes_status in
        let* _ := (if decide (status_from o m = new_nodes_status) then eret tt
                   else to_user ok (SuServerToUser (SuNodesStatus new_nodes_status))) in
        to_user ok (SuAck r))
     (fun _ s' l' => server_inv budget ({[r]} ∪ R) (D ∪ waiting_at o n) s' l') (mkServerState next pre o st2 ticks) l) as Hrest.
  { intros st2 Hst2. wp_step. apply wp_store_or_fail.
    eapply swp_mono; [exact (config_node_law contents loaded _ _ _ n x (mkStoredNodeConfig false) Hst2 Hx)| |done].
    intros [] st3 Hst3. repeat wp_step. eapply wp_build; [exact Hst3|]. intros st4 Hst4. cbn. fold o1.
    assert (forall l', view l' = status_from o1 m1 -> acked l' = acked l ->
      server_inv budget R (D ∪ waiting_at o n) (mkServerState next (delete n pre) o1 st4 ticks) l') as Hfin.
    { intros l' Hv' Ha'. exists m1. apply (server_inv_intro _ _ _ _ _ _ _ _ _ m1); [|by apply nodes_ok_disable|done|done|].
      - eapply stored_eq; [exact Hst4|]. rewrite dom_delete_L. unfold o1. rewrite open_names_filter. set_solver.
      - unfold requests_ok. rewrite Ha'. by apply requests_disable. }
    repeat wp_step. fold m1. case_decide as Heq.
    - apply wp_ret, wp_server_ack, Hfin; [by rewrite <-Heq|done].
    - apply wp_to_user, wp_server_ack, Hfin; [by rewrite view_app|]. rewrite acked_app. simpl. by rewrite app_nil_r. }
  eapply swp_mono; [exact (unload_node_law contents loaded _ _ _ n Hst1)| |].
  - intros [] st2 [_ Hst2]. by apply Hrest.
  - intros e st2 (Hnot & _ & Hst2). right. apply Hrest. eapply stored_eq; [exact Hst2|]. set_solver.
Qed.

(** *** Messages to and from nodes *)
Lemma nodes_ok_update m o pre next id x x' :
  nodes_ok m o pre next -> o !! id = Some x -> on_node_name x' = on_node_name x -> nodes_ok m (<[id := x']> o) pre next.
Proof.
  intros (Ho & Hi & Hp) Hx Hn. pose proof (opens_update o id x x') as Hu. split_and!.
  - intros i n Hin. apply Ho. by apply (Hu _ _ Hx Hn).
  - intros i i' n Hin Hin'. eapply Hi; by apply (Hu _ _ Hx Hn).
  - intros n Hpn. destruct (Hp n Hpn) as [He Hno]. split; [done|]. intros i Hin. apply (Hno i). by apply (Hu _ _ Hx Hn).
Qed.
(** The requests of an open node change. *)
Lemma inv_update m budget R R' D next pre o (st : ST) ticks l l' id x x' :
  server_inv_at m budget R D (mkServerState next pre o st ticks) l -> o !! id = Some x -> on_node_name x' = on_node_name x ->
  view l' = view l -> requests_ok R' D (<[id := x']> o) l' ->
  server_inv_at m budget R' D (mkServerState next pre (<[id := x']> o) st ticks) l'.
Proof.
  intros (Hst & Hn & Hv & Hb & Hr) Hx Hxn Hv' Hr'. cbn in *. pose proof (nodes_ok_update _ _ _ _ _ _ _ Hn Hx Hxn) as Hn'.
  assert (forall i k, opens (<[id:=x']> o) i k <-> opens o i k) as Hopen by (intros i k; by eapply opens_update).
  apply (server_inv_intro _ _ _ _ _ _ _ _ _ m); [|exact Hn'| |done|done].
  - eapply stored_eq; [exact Hst|]. intros k. rewrite !elem_of_union, !elem_of_open_names. by setoid_rewrite Hopen.
  - rewrite Hv', Hv. apply status_ext; [apply Hn|apply Hn'|]. intros i k _. by rewrite Hopen.
Qed.

Lemma wp_send_to_compact Pn Q id x r um s l :
  Q true (with_open s (<[id := mkOpenNode (on_node_name x) (on_local x) ({[r]} ∪ on_pending_requests x)]> (sv_open_nodes s)))
    (l ++ [SaToCompact id (mkUserToCompactAck r um)]) -> Q false s l ->
  WP Pn (send_to_compact ok id x r um) Q s l.
Proof. intros Ht Hf. unfold wp, send_to_compact. by destruct (ok (length l)). Qed.

Lemma wp_node_message Pn budget R D id um r s l :
  server_inv budget R D s l ->
  WP Pn (handle_user_to_server ok gen_private_key first_report (mkUserToServerAck r (UsNode id um)))
    (fun _ s' l' => server_inv budget ({[r]} ∪ R) D s' l') s l.
Proof.
  intros Hinv. unfold handle_user_to_server. cbn [us_inner us_request_id]. repeat wp_step.
  destruct (sv_open_nodes s !! id) as [x|] eqn:Hx.
  - repeat wp_step. apply wp_send_to_compact; cbn beta.
    + apply wp_ret. destruct Hinv as (m & Hst & Hn & Hv & Hb & Hr). exists m. destruct s as [next pre o st ticks]. cbn in *.
      eapply inv_update; [exact (conj Hst (conj Hn (conj Hv (conj Hb Hr))))|exact Hx|done|by rewrite view_app|].
      destruct Hr as [Hr Hw]. split.
      * intros q Hq. rewrite acked_app. simpl. rewrite app_nil_r. apply elem_of_union in Hq as [->%elem_of_singleton|Hq].
        -- right. left. exists id, (mkOpenNode (on_node_name x) (on_local x) ({[r]} ∪ on_pending_requests x)).
           rewrite lookup_insert_eq. split; [done|]. simpl. set_solver.
        -- destruct (Hr q Hq) as [?|[(i & y & Hy & Hqy)|?]]; [by left| |by right; right]. right. left.
           destruct (decide (i = id)) as [->|Hne].
           ++ exists id. eexists. rewrite lookup_insert_eq. split; [done|]. simpl. assert (y = x) as -> by congruence. set_solver.
           ++ exists i, y. by rewrite lookup_insert_ne.
      * intros q (i & y & Hy & Hqy). apply lookup_insert_Some in Hy as [[<- <-]|[Hne Hy]].
        -- simpl in Hqy. apply elem_of_union in Hqy as [?|Hqy]; [set_solver|]. apply elem_of_union_r, Hw. by exists id, x.
        -- apply elem_of_union_r, Hw. by exists i, y.
    + repeat wp_step. eapply wp_mono; [|by apply wp_close]. intros [] s' l' Hinv'. unfold send_nodes_status_ack. repeat wp_step. by apply wp_server_ack.
  - unfold send_nodes_status_ack. repeat wp_step. by apply wp_server_ack.
Qed.

(** An answer that nobody asked for. *)
Definition unasked s (e : ServerEvent B) : Prop :=
  match e with
  | SvCompactNode id (Some (Ack r)) => exists x, sv_open_nodes s !! id = Some x /\ r ∉ on_pending_requests x
  | _ => False
  end.

Lemma wp_compact_message budget R D id cm s l :
  server_inv budget R D s l ->
  WP (unasked s (SvCompactNode id (Some cm))) (handle_compact_message ok id cm) (fun _ s' l' => server_inv budget R D s' l') s l.
Proof.
  intros Hinv. unfold handle_compact_message. repeat wp_step. destruct cm as [r|um].
  - repeat wp_step. destruct (sv_open_nodes s !! id) as [x|] eqn:Hx; repeat wp_step.
    + case_decide as Hin; [|by exists x]. repeat wp_step. apply wp_to_user.
      destruct Hinv as (m & Hst & Hn & Hv & Hb & Hr). exists m. destruct s as [next pre o st ticks]. cbn in *.
      eapply inv_update; [exact (conj Hst (conj Hn (conj Hv (conj Hb Hr))))|exact Hx|done|by rewrite view_app|].
      destruct Hr as [Hr Hw]. split.
      * intros q Hq. rewrite acked_app. destruct (Hr q Hq) as [?|[(i & y & Hy & Hqy)|?]]; [set_solver| |by right; right].
        destruct (decide (q = r)) as [->|Hqr]; [left; set_solver|]. right. left. destruct (decide (i = id)) as [->|Hne].
        -- exists id. eexists. rewrite lookup_insert_eq. split; [done|]. simpl. assert (y = x) as -> by congruence. set_solver.
        -- exists i, y. by rewrite lookup_insert_ne.
      * intros q (i & y & Hy & Hqy). apply Hw. apply lookup_insert_Some in Hy as [[<- <-]|[Hne Hy]]; [|by exists i, y].
        exists id, x. split; [done|]. simpl in Hqy. set_solver.
    + apply wp_to_user. destruct Hinv as (m & Hst & Hn & Hv & Hb & Hr). exists m. destruct s.
      apply (server_inv_intro _ _ _ _ _ _ _ _ _ m); try done; [by rewrite view_app|by apply requests_log].
  - case_decide; [|by repeat wp_step]. apply wp_to_user. destruct Hinv as (m & Hst & Hn & Hv & Hb & Hr). exists m. destruct s.
    apply (server_inv_intro _ _ _ _ _ _ _ _ _ m); try done; [by rewrite view_app|by apply requests_log].
Qed.

(** *** Scheduled connections *)
Lemma nodes_ok_dom m o pre pre' next : nodes_ok m o pre next -> dom pre' = dom pre -> nodes_ok m o pre' next.
Proof.
  intros (Ho & Hi & Hp) Hd. split_and!; [done..|]. intros n Hn. apply Hp. apply elem_of_dom. rewrite <-Hd. by apply elem_of_dom.
Qed.

Lemma wp_tick_pre_open Pn n p s l :
  WP Pn (tick_pre_open ok (n, p))
    (fun _ s' l' => exists p', s' = with_pre_open s (<[n := p']> (sv_pre_open_nodes s)) /\ view l' = view l /\ acked l' = acked l) s l.
Proof.
  unfold tick_pre_open. wp_step. destruct (po_status p) as [t|t].
  - destruct (_ =? _)%Z.
    + wp_step. unfold wp at 1. cbn beta. wp_step. apply wp_emit_any. repeat wp_step. eexists. split; [done|].
      rewrite view_app, acked_app. simpl. by rewrite app_nil_r.
    + repeat wp_step. eauto.
  - repeat wp_step. eauto.
Qed.

Lemma wp_server_tick Pn budget R D s l :
  server_inv budget R D s l -> WP Pn (handle_timer_tick ok) (fun _ s' l' => server_inv budget R D s' l') s l.
Proof.
  intros (m & Hst & Hn & Hv & Hb & Hr). unfold handle_timer_tick. repeat wp_step.
  destruct s as [next pre o st ticks]. cbn [sv_next_node_id sv_pre_open_nodes sv_open_nodes sv_store] in *.
  eapply wp_mono; [|apply (wp_for _ _ (fun xs s' l' => exists pre', s' = mkServerState next pre' o st ticks /\
    dom pre' ∪ list_to_set xs.*1 = dom pre /\ view l' = view l /\ acked l' = acked l))].
  - intros [] s' l' (pre' & -> & Hd & Hv' & Ha'). simpl in Hd. rewrite right_id_L in Hd by apply _. exists m.
    apply (server_inv_intro _ _ _ _ _ _ _ _ _ m); [by rewrite Hd|by eapply nodes_ok_dom|congruence|done|].
    unfold requests_ok. by rewrite Ha'.
  - intros [n p] xs s' l' (pre' & -> & Hd & Hv' & Ha'). eapply wp_mono; [|apply wp_tick_pre_open].
    intros [] s'' l'' (p' & -> & Hv'' & Ha''). eexists. split; [done|]. simpl. rewrite dom_insert_L. split_and!; [|congruence..].
    rewrite <-Hd. simpl. set_solver.
  - eexists. split; [done|]. split_and!; [|done..]. rewrite dom_empty_L, left_id_L by apply _. symmetry.
    rewrite <-(list_to_map_to_list pre) at 1. apply dom_list_to_map_L.
Qed.

Lemma wp_node_connected Pn budget R D n res s l :
  (0 <= budget)%Z -> server_inv (budget + 1) R D s l ->
  WP Pn (handle_node_connected ok n res) (fun _ s' l' => server_inv budget R D s' l') s l.
Proof.
  intros H0 (m & Hst & Hn & Hv & Hb & Hr). unfold handle_node_connected. repeat wp_step.
  destruct s as [next pre o st ticks]. cbn [sv_next_node_id sv_pre_open_nodes sv_open_nodes sv_store] in *.
  destruct (pre !! n) as [p|] eqn:Hp.
  2: { apply wp_ret. exists m. apply (server_inv_intro _ _ _ _ _ _ _ _ _ m); try done. lia. }
  destruct (proj2 (proj2 Hn) n) as [He Hno]; [by eexists|].
  assert (n ∈ dom pre) as Hd by (apply elem_of_dom; by eexists).
  repeat wp_step. destruct res as [rn|]; repeat wp_step; cbn.
  - unfold new_node_id, insert_open_node. repeat wp_step. cbn.
    rewrite (nodes_ok_fresh _ _ _ _ Hn), decide_False by by intros [? ?]. repeat wp_step. apply wp_emit_any. apply wp_to_user.
    unfold with_open. cbn. unfold cast_u. rewrite Z.mod_small by lia. exists m.
    apply inv_opened; [| | |done| |lia|].
    + eapply stored_eq; [exact Hst|]. rewrite dom_delete_L. intros k. destruct (decide (k = n)); set_solver.
    + destruct Hn as (Ho & Hi & Hpre). split_and!; [done..|]. intros k [y [Hk Hy]%lookup_delete_Some]. apply Hpre. by eexists.
    + rewrite elem_of_union, elem_of_open_names, dom_delete_L. intros [[id Hid]|Hk]; [by apply (Hno id)|set_solver].
    + by rewrite view_app.
    + by apply requests_log.
  - rewrite decide_False by by rewrite lookup_delete_eq; intros [? ?]. repeat wp_step. exists m.
    apply (server_inv_intro _ _ _ _ _ _ _ _ _ m); cbn; [| |done|lia|done].
    + eapply stored_eq; [exact Hst|]. rewrite dom_insert_L, dom_delete_L. intros k. destruct (decide (k = n)); set_solver.
    + eapply nodes_ok_dom; [exact Hn|]. rewrite dom_insert_L, dom_delete_L. apply leibniz_equiv.
      intros k. destruct (decide (k = n)); set_solver.
Qed.

(** *** Events *)
Definition requested (e : ServerEvent B) : gset Uid := match e with SvUser um => {[us_request_id um]} | _ => ∅ end.
Definition dropped s (e : ServerEvent B) : gset Uid :=
  match e with SvUser (mkUserToServerAck _ (UsDisableNode n)) => waiting_at (sv_open_nodes s) n | _ => ∅ end.
(** The names of nodes to remove are single components of a path. *)
Definition regular_event (e : ServerEvent B) : bool :=
  match e with SvUser (mkUserToServerAck _ (UsRemoveNode n)) => regular_name n | _ => true end.

Lemma wp_server_step budget R D e s l :
  regular_event e = true -> (0 <= budget)%Z -> server_inv (budget + 1) R D s l ->
  WP (unasked s e) (server_step ok gen_private_key first_report e)
    (fun _ s' l' => server_inv budget (requested e ∪ R) (D ∪ dropped s e) s' l') s l.
Proof.
  intros Hreg H0 Hinv. assert (server_inv budget R D s l) as Hinv' by (eapply inv_mono; [|exact Hinv]; lia).
  destruct e as [[r [c|n|n|n|id um]]| |id [cm|]| | |n res]; unfold server_step, handle_user_to_server; cbn [us_inner us_request_id requested dropped];
    rewrite ?(right_id_L ∅ (∪) D), ?(left_id_L ∅ (∪) R); try (apply wp_ret; done).
  - wp_step. eapply wp_mono; [|by apply wp_create]. intros [] s' l' Hi. by apply wp_ret.
  - wp_step. eapply wp_mono; [|by apply wp_remove]. intros [] s' l' Hi. by apply wp_ret.
  - wp_step. eapply wp_mono; [|by apply wp_enable]. intros [] s' l' Hi. by apply wp_ret.
  - wp_step. eapply wp_mono; [|by apply wp_disable]. intros [] s' l' Hi. by apply wp_ret.
  - wp_step. eapply wp_mono; [|exact (wp_node_message _ _ _ _ id um r _ _ Hinv')]. intros [] s' l' Hi. by apply wp_ret.
  - wp_step. eapply wp_mono; [|by apply wp_compact_message]. intros [] s' l' Hi. by apply wp_ret.
  - wp_step. eapply wp_mono; [|by apply wp_close]. intros [] s' l' Hi. by apply wp_ret.
  - wp_step. eapply wp_mono; [|by apply wp_server_tick]. intros [] s' l' Hi. by apply wp_ret.
  - wp_step. eapply wp_mono; [|by apply wp_node_connected]. intros [] s' l' Hi. by apply wp_ret.
Qed.

(** *** The start *)
Lemma wp_open_enabled Pn budget s l m :
  (0 <= budget)%Z -> server_inv_at m (budget + Z.of_nat (size m)) ∅ ∅ s l -> sv_open_nodes s = ∅ -> sv_pre_open_nodes s = ∅ ->
  WP Pn (open_enabled_nodes ok first_report) (fun _ s' l' => server_inv_at m budget ∅ ∅ s' l') s l.
Proof.
  intros H0 Hinv Ho Hp. unfold open_enabled_nodes. wp_step. eapply wp_list_nodes; [apply Hinv|]. intros st Hst.
  eapply wp_mono; [|apply (wp_for _ _ (fun xs s' l' => server_inv_at m (budget + Z.of_nat (length xs)) ∅ ∅ s' l' /\
    NoDup xs.*1 /\ forall n x, (n, x) ∈ xs -> m !! n = Some x /\ n ∉ open_names (sv_open_nodes s') ∪ dom (sv_pre_open_nodes s')))].
  - intros [] s' l' [Hi _]. simpl in Hi. by rewrite Z.add_0_r in Hi.
  - intros [n x] xs s' l' (Hi & Hnd & Hxs). simpl in Hnd. apply NoDup_cons in Hnd as [Hn Hnd].
    destruct (Hxs n x) as [Hx Hout]; [by left|]. destruct Hi as (Hst' & Hn' & Hv' & Hb' & Hr'). cbn [length] in Hb'.
    destruct s' as [next pre o st' ticks]. cbn [sv_next_node_id sv_pre_open_nodes sv_open_nodes sv_store] in *.
    destruct (sc_is_enabled (sn_config x)) eqn:He.
    + repeat wp_step. apply wp_store_or_fail.
      eapply swp_mono; [exact (load_node_law contents loaded _ _ _ n x Hst' Hx Hout)| |done].
      intros ln st2 [_ Hst2]. eapply wp_mono; [|apply (wp_open_loaded _ (budget + Z.of_nat (length xs)) ∅ ∅ _ _ _ _ _ _ _ _ m);
        [exact Hst2|exact Hn'|exact Hout|by exists x|done|cbn; lia|exact Hr']].
      intros [] s'' l'' [Hi'' Hnames]. split_and!; [done..|]. intros k y Hk. destruct (Hxs k y) as [Hy Hky]; [by right|]. split; [done|].
      rewrite Hnames. rewrite not_elem_of_union, not_elem_of_singleton. split; [|done]. intros ->. apply Hn.
      apply list_elem_of_fmap. by exists (n, y).
    + apply wp_ret. split_and!; [|done|].
      * apply (server_inv_intro _ _ _ _ _ _ _ _ _ m); try done. lia.
      * intros k y Hk. apply Hxs. by right.
  - rewrite length_map_to_list. split_and!.
    + destruct Hinv as (_ & Hn & Hv & Hb & Hr). destruct s as [next pre o st' ticks]. cbn in *. subst o pre.
      apply (server_inv_intro _ _ _ _ _ _ _ _ _ m); [|done..]. eapply stored_eq; [exact Hst|]. set_solver.
    + apply NoDup_fst_map_to_list.
    + intros n x Hx%elem_of_map_to_list. split; [done|]. cbn. rewrite Ho, Hp. unfold open_names. rewrite map_to_set_empty. set_solver.
Qed.

(** *** Runs *)
Notation step := (server_step ok gen_private_key first_report).
Notation run := (server_events ok gen_private_key first_report).

(** The requests that were read, and those that waited at a node when it was disabled. *)
Fixpoint asked (events : list (ServerEvent B)) : gset Uid :=
  match events with
  | [] | SvUserClosed :: _ | SvTimerClosed :: _ => ∅
  | e :: events' => requested e ∪ asked events'
  end.
Fixpoint dropped_in (events : list (ServerEvent B)) s l : gset Uid :=
  match events with
  | [] => ∅
  | e :: events' => dropped s e ∪ match step e s l with EOk true s' l' => dropped_in events' s' l' | _ => ∅ end
  end.

Definition panics (events : list (ServerEvent B)) s l : Prop :=
  exists es1 e es2 s1 l1, events = es1 ++ e :: es2 /\ run es1 s l = EOk tt s1 l1 /\ unasked s1 e.

Lemma step_goes_on e s l go_on s' l' :
  step e s l = EOk go_on s' l' -> go_on = match e with SvUserClosed | SvTimerClosed => false | _ => true end.
Proof.
  destruct e as [um| |id [cm|]| | |n res]; unfold server_step, ebind, eret; try by intros [= <- _ _].
  - destruct (handle_user_to_server _ _ _ _ _ _); by intros [= <- _ _].
  - destruct (handle_compact_message _ _ _ _ _); by intros [= <- _ _].
  - destruct (close_node_and_notify_user _ _ _ _); by intros [= <- _ _].
  - destruct (handle_timer_tick _ _ _); by intros [= <- _ _].
  - destruct (handle_node_connected _ _ _ _ _); by intros [= <- _ _].
Qed.

Lemma wp_server_events events R D s l :
  forallb regular_event events = true -> server_inv (Z.of_nat (length events)) R D s l ->
  wp (panics events s l) (fun _ _ => True) (run events)
    (fun _ s' l' => server_inv 0 (asked events ∪ R) (D ∪ dropped_in events s l) s' l') s l.
Proof.
  revert R D s l. induction events as [|e events IH]; intros R D s l Hreg Hinv.
  - apply wp_ret. cbn. by rewrite (left_id_L ∅ (∪) R), (right_id_L ∅ (∪) D).
  - cbn [forallb] in Hreg. apply andb_prop in Hreg as [He Hreg]. cbn [length] in Hinv.
    replace (Z.of_nat (S (length events))) with (Z.of_nat (length events) + 1)%Z in Hinv by lia.
    pose proof (wp_server_step (Z.of_nat (length events)) R D e s l He ltac:(lia) Hinv) as Hstep.
    unfold wp in *. cbn [dropped_in server_events]. unfold ebind.
    destruct (step e s l) as [go_on s' l'|err s' l'|] eqn:Es; [|done|].
    + pose proof (step_goes_on _ _ _ _ _ _ Es) as Hgo. destruct go_on.
      * specialize (IH _ _ s' l' Hreg Hstep). destruct (run events s' l') as [[] s2 l2|err s2 l2|] eqn:Er; [|done|].
        -- assert (asked (e :: events) = requested e ∪ asked events) as -> by by destruct e.
           replace (requested e ∪ asked events ∪ R) with (asked events ∪ (requested e ∪ R)) by set_solver.
           by rewrite (assoc_L (∪) D).
        -- destruct IH as (es1 & e1 & es2 & s1 & l1 & -> & Hes1 & Hun). exists (e :: es1), e1, es2, s1, l1.
           split_and!; [done| |done]. cbn [server_events]. unfold ebind. by rewrite Es.
      * assert (asked (e :: events) = ∅ /\ requested e = ∅) as [-> Hq] by by destruct e. rewrite Hq in Hstep.
        rewrite (right_id_L ∅ (∪) (dropped s e)). eapply inv_mono; [|exact Hstep]. lia.
    + by exists [], e, events, s, l.
Qed.

(** What the server does before the first event. *)
Definition server_start : Eff (ServerState ST B) ServerError (ServerAction B) unit :=
  let* nodes_status := build_nodes_status in
  let* _ := to_user ok (SuServerToUser (SuNodesStatus nodes_status)) in
  open_enabled_nodes ok first_report.
Lemma inner_loop_start events s l :
  inner_server_loop ok gen_private_key first_report true events s l = ebind server_start (fun _ => run events) s l.
Proof.
  unfold inner_server_loop, server_start, ebind. destruct (build_nodes_status s l) as [ns s1 l1| |]; [|done..].
  by destruct (to_user ok _ s1 l1).
Qed.
Lemma wp_server_start (store : ST) m0 ticks budget :
  (0 <= budget)%Z -> stored store m0 ∅ -> (Z.of_nat (size m0) + budget < 2 ^ 64)%Z ->
  WP False server_start (fun _ s l => server_inv budget ∅ ∅ s l) (server_state_new store ticks) [].
Proof.
  intros H0 Hst Hb. unfold server_start. repeat wp_step. eapply wp_build; [exact Hst|]. intros st1 Hst1. cbn. repeat wp_step.
  apply wp_to_user. repeat wp_step.
  eapply wp_mono; [|apply (wp_open_enabled _ budget _ _ m0); [lia| |done|done]].
  - intros [] s0 l0 Hi. exact (ex_intro _ m0 Hi).
  - apply (server_inv_intro _ _ _ _ _ _ _ _ _ m0); cbn.
    + eapply stored_eq; [exact Hst1|]. unfold open_names. rewrite map_to_set_empty. set_solver.
    + split_and!; [by intros id n (x & Hx & _)|by intros id id' n (x & Hx & _)|by intros n [x Hx]].
    + done.
    + lia.
    + split; [set_solver|]. by intros r (id & x & Hx & _).
Qed.

Lemma server_run_inv (store : ST) m0 ticks events :
  stored store m0 ∅ -> (Z.of_nat (size m0) + Z.of_nat (length events) < 2 ^ 64)%Z -> forallb regular_event events = true ->
  let started s0 l0 := server_start (server_state_new store ticks) [] = EOk tt s0 l0 in
  wp (exists s0 l0, started s0 l0 /\ panics events s0 l0) (fun _ _ => True) (inner_server_loop ok gen_private_key first_report true events)
    (fun _ s l => exists s0 l0, started s0 l0 /\ run events s0 l0 = EOk tt s l /\
       server_inv 0 (asked events) (dropped_in events s0 l0) s l) (server_state_new store ticks) [].
Proof.
  intros Hst Hb Hreg started. pose proof (wp_server_start store m0 ticks _ (Nat2Z.is_nonneg _) Hst Hb) as Hstart.
  unfold wp in *. rewrite inner_loop_start. unfold ebind. unfold started.
  destruct (server_start _ _) as [[] s0 l0| |]; [|done..].
  pose proof (wp_server_events events ∅ ∅ s0 l0 Hreg Hstart) as Hrun. unfold wp in Hrun.
  destruct (run events s0 l0) as [[] s l|err s l|] eqn:Er; [|done|by exists s0, l0].
  exists s0, l0. split_and!; [done|done|]. by rewrite (right_id_L ∅ (∪)), (left_id_L ∅ (∪)) in Hrun.
Qed.
End Invariant.

Section Theorems.
Context {ST SE B : Type} `{Store ST SE B} `{EqDecision B}.
Context (contents : ST -> option (gmap NodeName (StoredNode B))) (loaded : ST -> gset NodeName).
Context `{!StoreLaws ST SE B contents loaded}.

(** The view of the user is the status of the nodes in the store and in the server;
    exactly the nodes that are open or being connected to are loaded in the store, all
    of them are enabled, and no node is open twice. *)
Definition current (s : ServerState ST B) (l : list (ServerAction B)) : Prop :=
  exists nodes', stored contents loaded (sv_store s) nodes' (open_names (sv_open_nodes s) ∪ dom (sv_pre_open_nodes s)) /\
    view l = status_of s nodes' /\
    (forall n, n ∈ open_names (sv_open_nodes s) ∪ dom (sv_pre_open_nodes s) -> enabled nodes' n) /\
    (forall id id' n, opens (sv_open_nodes s) id n -> opens (sv_open_nodes s) id' n -> id = id').

Lemma server_inv_current budget R D s l : server_inv contents loaded budget R D s l -> current s l.
Proof.
  intros (m & Hst & Hn & Hv & _). exists m. split; [exact Hst|]. split; [exact Hv|]. split; [|apply Hn].
  intros n [[id Hid]%elem_of_open_names|Hp%elem_of_dom]%elem_of_union; [by apply (proj1 Hn id)|by apply Hn].
Qed.

Lemma server_events_fail (ok : nat -> bool) gen_private_key (first_report : nat -> option (NodeReport B)) events
    (s : ServerState ST B) l err s' l' :
  server_events ok gen_private_key first_report events s l = EErr err s' l' ->
  exists es1 e es2 s1 l1, events = es1 ++ e :: es2 /\
    server_events ok gen_private_key first_report es1 s l = EOk tt s1 l1 /\
    server_step ok gen_private_key first_report e s1 l1 = EErr err s' l'.
Proof.
  revert s l. induction events as [|e events IH]; intros s l; cbn [server_events]; [done|]. unfold ebind.
  destruct (server_step ok gen_private_key first_report e s l) as [go_on s1 l1|err1 s1 l1|] eqn:Es; [|intros [= -> -> ->]|done].
  - destruct go_on; [|done]. intros (es1 & e1 & es2 & s2 & l2 & -> & Hrun & Hf)%IH.
    exists (e :: es1), e1, es2, s2, l2. split_and!; [done| |done]. cbn [server_events]. unfold ebind. by rewrite Es.
  - by exists [], e, events, s, l.
Qed.

(** C26. The user of the compact server knows its nodes: whatever the user, the nodes and
    the connections do, as long as nodes are removed under regular names (a name that
    is one component of a path), the view of a user that applies the messages it received
    (a list of nodes replaces the view, an opened node is marked in it) is the status of
    the nodes in the store and in the server after every run of events. Exactly the nodes
    that are open or being connected to are loaded in the store, all of them are
    enabled, and no node is open twice. A run that ends in an error ended at the start
    or in one of its events, before which all this held; the server panics only when
    a node acknowledges a request that does not wait there. *)
Theorem user_view_current (ok : nat -> bool) (gen_private_key : nat -> PrivateKey) (first_report : nat -> option (NodeReport B))
  (store : ST) (nodes : gmap NodeName (StoredNode B)) (ticks : Z) (events : list (ServerEvent B))
  (Hstore : stored contents loaded store nodes ∅)
  (Hbound : (Z.of_nat (size nodes) + Z.of_nat (length events) < 2 ^ 64)%Z)
  (Hreg : forallb regular_event events = true) :
  match inner_server_loop ok gen_private_key first_report true events (server_state_new store ticks) [] with
  | EOk _ s l => current s l
  | EErr err s l =>
      server_start ok first_report (server_state_new store ticks) [] = EErr err s l \/
      exists es1 e es2 s1 l1, events = es1 ++ e :: es2 /\
        inner_server_loop ok gen_private_key first_report true es1 (server_state_new store ticks) [] = EOk tt s1 l1 /\
        current s1 l1 /\ server_step ok gen_private_key first_report e s1 l1 = EErr err s l
  | EPanic => exists es1 e es2 s1 l1, events = es1 ++ e :: es2 /\
      inner_server_loop ok gen_private_key first_report true es1 (server_state_new store ticks) [] = EOk tt s1 l1 /\
      current s1 l1 /\ unasked s1 e
  end.
Proof.
  assert (forall es1 e es2 s1 l1, events = es1 ++ e :: es2 ->
    inner_server_loop ok gen_private_key first_report true es1 (server_state_new store ticks) [] = EOk tt s1 l1 ->
    current s1 l1) as Hprefix.
  { intros es1 e es2 s1 l1 -> Hrun. rewrite forallb_app in Hreg. apply andb_prop in Hreg as [Hreg1 _].
    pose proof (server_run_inv contents loaded ok gen_private_key first_report store nodes ticks es1 Hstore) as Hw.
    unfold wp in Hw. rewrite Hrun in Hw. rewrite length_app in Hbound.
    destruct Hw as (s0 & l0 & _ & _ & Hinv); [lia|done|]. by eapply server_inv_current. }
  pose proof (server_run_inv contents loaded ok gen_private_key first_report store nodes ticks events Hstore Hbound Hreg) as Hw.
  unfold wp in Hw. destruct (inner_server_loop _ _ _ _ events _ _) as [[] s l|err s l|] eqn:Erun.
  - destruct Hw as (s0 & l0 & _ & _ & Hinv). by eapply server_inv_current.
  - rewrite inner_loop_start in Erun. unfold ebind in Erun.
    destruct (server_start ok first_report (server_state_new store ticks) []) as [[] s0 l0|err0 s0 l0|] eqn:Es; [right|by left|done].
    apply server_events_fail in Erun as (es1 & e & es2 & s1 & l1 & He & Hrun & Hf). exists es1, e, es2, s1, l1.
    assert (inner_server_loop ok gen_private_key first_report true es1 (server_state_new store ticks) [] = EOk tt s1 l1) as Hr
      by (rewrite inner_loop_start; unfold ebind; by rewrite Es).
    split; [exact He|]. split; [exact Hr|]. split; [by eapply Hprefix|exact Hf].
  - destruct Hw as (s0 & l0 & Hs & es1 & e & es2 & s1 & l1 & He & Hr & Hu). exists es1, e, es2, s1, l1.
    assert (inner_server_loop ok gen_private_key first_report true es1 (server_state_new store ticks) [] = EOk tt s1 l1) as Hr'
      by (rewrite inner_loop_start; unfold ebind; by rewrite Hs).
    split; [exact He|]. split; [exact Hr'|]. split; [by eapply Hprefix|exact Hu].
Qed.

(** C27. No request is forgotten: every request the server has read was acknowledged,
    or waits at an open node, or was waiting at a node that the user disabled; and
    only requests that were read wait. *)
Theorem requests_accounted (ok : nat -> bool) (gen_private_key : nat -> PrivateKey) (first_report : nat -> option (NodeReport B))
  (store : ST) (nodes : gmap NodeName (StoredNode B)) (ticks : Z) (events : list (ServerEvent B))
  (s : ServerState ST B) (l : list (ServerAction B))
  (Hstore : stored contents loaded store nodes ∅)
  (Hbound : (Z.of_nat (size nodes) + Z.of_nat (length events) < 2 ^ 64)%Z)
  (Hreg : forallb regular_event events = true)
  (Hrun : inner_server_loop ok gen_private_key first_report true events (server_state_new store ticks) [] = EOk tt s l) :
  exists s0 l0, server_start ok first_report (server_state_new store ticks) [] = EOk tt s0 l0 /\
    server_events ok gen_private_key first_report events s0 l0 = EOk tt s l /\
    (forall r, r ∈ asked events ->
       r ∈ acked l \/ waits (sv_open_nodes s) r \/ r ∈ dropped_in ok gen_private_key first_report events s0 l0) /\
    (forall r, waits (sv_open_nodes s) r -> r ∈ asked events).
Proof.
  pose proof (server_run_inv contents loaded ok gen_private_key first_report store nodes ticks events Hstore Hbound Hreg) as Hw.
  unfold wp in Hw. rewrite Hrun in Hw. destruct Hw as (s0 & l0 & Hs & Hev & m & _ & _ & _ & _ & Hr). by exists s0, l0.
Qed.
End Theorems.
