(* ===== verification/FileStore.v ===== *)
(** * The store in files ([stcompact/src/store/file_store.rs])

    A directory per node, with a file for its key, its configuration and its
    databases, and a second level that separates local from remote nodes. The file
    system is the two levels of directories and their files; any operation on it
    may fail, and a write may then leave a part of the data. *)

From Stdlib Require Import Ascii.
From S2P Require Import Prelude Arith Bytes Messages Canonical FunderState IndexMessages IndexClient AppServer Effects Database Node.
From S2P Require Import CompactMessages CompactConvert CompactStore Store.

(** ** Names of files ([consts.rs]) *)
Definition NODE_IDENT : string := "node.ident".
Definition NODE_CONFIG : string := "node.config".
Definition NODE_DB : string := "node.db".
Definition NODE_INFO : string := "node.info".
Definition APP_IDENT : string := "app.ident".
Definition COMPACT_DB : string := "compact.db".

(** [serde_json::to_string] and [from_str]; a text of which the end is missing is
    not a value. *)
Class Json (A : Type) := { to_string : A -> option string; from_string : string -> option A }.
Class JsonLaws (A : Type) `{Json A} : Prop := {
  from_to_json (a : A) t : to_string a = Some t -> from_string t = Some a;
  from_part (a : A) t k : to_string a = Some t -> (k < String.length t)%nat -> from_string (A := A) (String.substring 0 k t) = None
}.

(** [IdentityFile], [NodeAddressFile] of [proto/src/file.rs] *)
Record IdentityFile := mkIdentityFile { if_private_key : PrivateKey }.
Record NodeAddressFile (B : Type) := mkNodeAddressFile { na_public_key : PublicKey; na_address : B }.
Arguments mkNodeAddressFile {B}. Arguments na_public_key {B}. Arguments na_address {B}.

Inductive LiveNode := LiveLocal | LiveRemote.
Inductive FileStoreError :=
| FsDuplicateNodeName (n : NodeName) | FsSpawnError | FsLockError | FsSerdeError | FsRemoveNodeError | FsDerivePublicKeyError
| FsFileDbError | FsIoError | FsNodeIsLoaded | FsNodeNotLoaded | FsNodeDoesNotExist | FsLoadIdentityError | FsLoadDbError
| FsInvalidNodeName.
Definition file_store_is_fatal (e : FileStoreError) : bool :=
  match e with
  | FsDuplicateNodeName _ | FsNodeIsLoaded | FsNodeNotLoaded | FsNodeDoesNotExist | FsInvalidNodeName | FsRemoveNodeError => false
  | FsSpawnError | FsLockError | FsSerdeError | FsDerivePublicKeyError | FsFileDbError | FsIoError | FsLoadIdentityError
  | FsLoadDbError => true
  end.

Record FileStoreNodeLocal := mkFsNodeLocal { fl_node_private_key : PrivateKey; fl_node_config : StoredNodeConfig }.
Record FileStoreNodeRemote (B : Type) := mkFsNodeRemote {
  fr_app_private_key : PrivateKey; fr_node_public_key : PublicKey; fr_node_address : B; fr_node_config : StoredNodeConfig
}.
Arguments mkFsNodeRemote {B}. Arguments fr_app_private_key {B}. Arguments fr_node_public_key {B}.
Arguments fr_node_address {B}. Arguments fr_node_config {B}.
Inductive FileStoreNode (B : Type) := FsLocal (n : FileStoreNodeLocal) | FsRemote (n : FileStoreNodeRemote B).
Arguments FsLocal {B}. Arguments FsRemote {B}.

(** The directories [local] and [remote], when they exist, with a directory per
    node, the nodes that are loaded, and how many operations were done. *)
Notation NodeDir := (gmap string string).
Record FileStore := mkFileStore {
  fs_local : option (gmap NodeName NodeDir);
  fs_remote : option (gmap NodeName NodeDir);
  fs_live_nodes : gmap NodeName LiveNode;
  fs_io : nat
}.
(** An operation succeeds, its task cannot be started, or it fails and leaves a part. *)
Inductive IoResult := IoOk | IoSpawnFail | IoFail (kept : nat).

Section FileStore.
Context `{CryptoOps} {B : Type} `{CanonicalSerialize B}.
Context `{!Json IdentityFile} `{!Json StoredNodeConfig} `{!Json (NodeAddressFile B)}.
Context `{!Serde (NodeState B)} `{!Serde CompactState}.
(** [derive_public_key] and [SoftwareEd25519Identity::from_private_key], what the
    file system does, whether a directory can be read, and what the file system
    makes of a name that is not a component of a path. *)
Context (derive_public_key : PrivateKey -> option PublicKey) (identity_ok : PrivateKey -> bool).
Context (io : nat -> IoResult) (read_dir_ok : nat -> bool) (odd_name : NodeName -> FileStore -> FileStore * bool).
Notation M := (SM FileStore FileStoreError).

Definition done_io (s : FileStore) : FileStore := mkFileStore (fs_local s) (fs_remote s) (fs_live_nodes s) (S (fs_io s)).
Definition with_local (s : FileStore) (d : option (gmap NodeName NodeDir)) : FileStore :=
  mkFileStore d (fs_remote s) (fs_live_nodes s) (fs_io s).
Definition with_remote (s : FileStore) (d : option (gmap NodeName NodeDir)) : FileStore :=
  mkFileStore (fs_local s) d (fs_live_nodes s) (fs_io s).

(** A task: starting it, and an operation that reads or fails. *)
Definition io_step : M unit := fun s =>
  (done_io s, match io (fs_io s) with IoOk => Ok tt | IoSpawnFail => Err FsSpawnError | IoFail _ => Err FsIoError end).
Definition read_to_string (content : option string) : M string :=
  let$ _ := io_step in slift (ok_or content FsIoError).
Definition read_json {A} `{Json A} (content : option string) : M A :=
  let$ t := read_to_string content in slift (ok_or (from_string t) FsSerdeError).

Definition dirs (d : option (gmap NodeName NodeDir)) : gmap NodeName NodeDir := default ∅ d.
(** Which level a node is on. *)
Definition get_level (local : bool) (s : FileStore) : option (gmap NodeName NodeDir) := if local then fs_local s else fs_remote s.
Definition put_level (local : bool) (s : FileStore) (d : option (gmap NodeName NodeDir)) : FileStore :=
  if local then with_local s d else with_remote s d.
Definition put_dir (local : bool) (n : NodeName) (d : NodeDir) (s : FileStore) : FileStore :=
  put_level local s (Some (<[n := d]> (dirs (get_level local s)))).

(** [File::create] and [write_all]: a failure leaves the file as it was, or a part of the data. *)
Definition write_file (local : bool) (n : NodeName) (file data : string) : M unit := fun s =>
  let d := default ∅ (dirs (get_level local s) !! n) in
  match io (fs_io s) with
  | IoOk => (done_io (put_dir local n (<[file := data]> d) s), Ok tt)
  | IoSpawnFail => (done_io s, Err FsSpawnError)
  | IoFail 0 => (done_io s, Err FsIoError)
  | IoFail (S k) =>
      (done_io (if (k <? String.length data)%nat then put_dir local n (<[file := String.substring 0 k data]> d) s else s), Err FsIoError)
  end.
Definition write_json {A} `{Json A} (local : bool) (n : NodeName) (file : string) (a : A) : M unit :=
  let$ t := slift (ok_or (to_string a) FsSerdeError) in write_file local n file t.

(** [fs::create_dir_all]: succeeds when the directory exists. *)
Definition create_dir_all (local : bool) (n : NodeName) : M unit := fun s =>
  match io (fs_io s) with
  | IoOk => (done_io (put_dir local n (default ∅ (dirs (get_level local s) !! n)) s), Ok tt)
  | IoSpawnFail => (done_io s, Err FsSpawnError)
  | IoFail 0 => (done_io s, Err FsIoError)
  | IoFail (S _) => (done_io (put_level local s (Some (dirs (get_level local s)))), Err FsIoError)
  end.

(** [FileDb::create] *)
Definition create_db {S Mut ME : Type} `{MutableState S Mut ME} `{Serde S} (local : bool) (n : NodeName) (file : string) (initial : S) : M unit := fun s =>
  let d := default ∅ (dirs (get_level local s) !! n) in
  match file_db_create (ME := ME) (match io (fs_io s) with IoOk => true | _ => false end) d file initial with
  | Ok (d', _) => (done_io (put_dir local n d' s), Ok tt)
  | _ => (done_io s, Err FsFileDbError)
  end.

(** ** Reading the nodes *)
Definition read_local_node (d : NodeDir) : M FileStoreNodeLocal :=
  let$ identity_file := read_json (A := IdentityFile) (d !! NODE_IDENT) in
  let$ node_config := read_json (A := StoredNodeConfig) (d !! NODE_CONFIG) in
  sret (mkFsNodeLocal (if_private_key identity_file) node_config).
Definition read_remote_node (d : NodeDir) : M (FileStoreNodeRemote B) :=
  let$ identity_file := read_json (A := IdentityFile) (d !! APP_IDENT) in
  let$ address := read_json (A := NodeAddressFile B) (d !! NODE_INFO) in
  let$ node_config := read_json (A := StoredNodeConfig) (d !! NODE_CONFIG) in
  sret (mkFsNodeRemote (if_private_key identity_file) (na_public_key address) (na_address address) node_config).
Definition read_node (local : bool) (d : NodeDir) : M (FileStoreNode B) :=
  if local then let$ n := read_local_node d in sret (FsLocal n) else let$ n := read_remote_node d in sret (FsRemote n).

(** [if let Ok(dir) = fs::read_dir(..)]: a directory that cannot be read counts as empty. *)
Definition read_level (local : bool) (acc : gmap NodeName (FileStoreNode B)) : M (gmap NodeName (FileStoreNode B)) := fun s =>
  match get_level local s with
  | Some entries =>
      if read_dir_ok (fs_io s) then
        sfold (fun acc '(n, d) =>
          let$ _ := io_step in
          let$ node := read_node local d in
          if decide (is_Some (acc !! n)) then serr (FsDuplicateNodeName n) else sret (<[n := node]> acc))
          acc (map_to_list entries) (done_io s)
      else (done_io s, Ok acc)
  | None => (done_io s, Ok acc)
  end.
Definition read_all_nodes : M (gmap NodeName (FileStoreNode B)) :=
  let$ _ := io_step in
  let$ nodes := read_level true ∅ in
  read_level false nodes.
Definition verify_store : M unit := let$ _ := read_all_nodes in sret tt.

(** [lock] is whether the lock file could be taken. *)
Definition open_file_store (lock : bool) : M unit :=
  let$ _ := io_step in
  let$ _ := io_step in
  if lock then verify_store else serr FsLockError.

(** ** Changing the nodes *)
Definition is_node_name_valid (n : NodeName) : bool :=
  negb (bool_decide (n = ""%string)) &&
  forallb (fun c => negb (bool_decide (c ∈ ["\"; "/"; ":"; "$"; "."]%char))) (String.list_ascii_of_string n).

Definition fs_create_local_node (n : NodeName) (node_private_key : PrivateKey) : M unit :=
  if negb (is_node_name_valid n) then serr FsInvalidNodeName
  else
    let$ _ := create_dir_all true n in
    let$ node_public_key := slift (ok_or (derive_public_key node_private_key) FsDerivePublicKeyError) in
    let$ _ := create_db (ME := NodeMutateError) true n NODE_DB (node_state_new (B := B) node_public_key) in
    let$ _ := create_db (ME := Empty_set) true n COMPACT_DB compact_state_new in
    let$ _ := write_json true n NODE_CONFIG (mkStoredNodeConfig false) in
    write_json true n NODE_IDENT (mkIdentityFile node_private_key).

Definition fs_create_remote_node (n : NodeName) (app_private_key : PrivateKey) (node_public_key : PublicKey) (node_address : B) : M unit :=
  let$ s := sget in
  if decide (is_Some (fs_live_nodes s !! n)) then serr FsNodeIsLoaded
  else if negb (is_node_name_valid n) then serr FsInvalidNodeName
  else
    let$ _ := create_dir_all false n in
    let$ _ := write_json false n APP_IDENT (mkIdentityFile app_private_key) in
    let$ _ := create_db (ME := Empty_set) false n COMPACT_DB compact_state_new in
    let$ _ := write_json false n NODE_CONFIG (mkStoredNodeConfig false) in
    write_json false n NODE_INFO (mkNodeAddressFile node_public_key node_address).

Definition fs_config_node (n : NodeName) (c : StoredNodeConfig) : M unit :=
  let$ s := sget in
  if decide (is_Some (dirs (fs_local s) !! n)) then write_json true n NODE_CONFIG c
  else if decide (is_Some (dirs (fs_remote s) !! n)) then write_json false n NODE_CONFIG c
  else if regular_name n then fun s =>
    (done_io s, match io (fs_io s) with IoSpawnFail => Err FsSpawnError | _ => Err FsNodeDoesNotExist end)
  else fun s => let '(s, b) := odd_name n s in (s, if b then Ok tt else Err FsIoError).

Definition file_store_node_to_stored_node (x : FileStoreNode B) : option (StoredNode B) :=
  match x with
  | FsLocal n => pk ← derive_public_key (fl_node_private_key n); Some (mkStoredNode (InfoLocal pk) (fl_node_config n))
  | FsRemote n =>
      pk ← derive_public_key (fr_app_private_key n);
      Some (mkStoredNode (InfoRemote pk (fr_node_public_key n) (fr_node_address n)) (fr_node_config n))
  end.
Definition fs_list_nodes : M (gmap NodeName (StoredNode B)) :=
  let$ nodes := read_all_nodes in
  sfold (fun acc '(n, x) =>
    let$ y := slift (ok_or (file_store_node_to_stored_node x) FsDerivePublicKeyError) in sret (<[n := y]> acc)) ∅ (map_to_list nodes).

(** [spawn_db] *)
Definition spawn_db {S Mut ME : Type} `{MutableState S Mut ME} `{Serde S} (content : NodeDir) (file : string) : M S :=
  let$ _ := io_step in
  let$ db := slift (ok_or (match file_db_load (ME := ME) content file with Ok db => Some db | _ => None end) FsLoadDbError) in
  let$ _ := io_step in
  sret (fdb_state db).
Definition create_identity_server (private_key : PrivateKey) : M unit :=
  let$ _ := slift (guard_or (identity_ok private_key) FsLoadIdentityError) in io_step.
Definition load_local_node (local : FileStoreNodeLocal) (d : NodeDir) : M (LoadedNodeLocal B) :=
  let$ _ := create_identity_server (fl_node_private_key local) in
  let$ compact_state := spawn_db (ME := Empty_set) (S := CompactState) d COMPACT_DB in
  let$ node_state := spawn_db (ME := NodeMutateError) (S := NodeState B) d NODE_DB in
  sret (mkLoadedNodeLocal (fl_node_private_key local) compact_state node_state).
Definition load_remote_node (remote : FileStoreNodeRemote B) (d : NodeDir) : M (LoadedNodeRemote B) :=
  let$ _ := create_identity_server (fr_app_private_key remote) in
  let$ compact_state := spawn_db (ME := Empty_set) (S := CompactState) d COMPACT_DB in
  sret (mkLoadedNodeRemote (fr_app_private_key remote) (fr_node_public_key remote) (fr_node_address remote) compact_state).

Definition set_live (n : NodeName) (o : option LiveNode) (s : FileStore) : FileStore :=
  mkFileStore (fs_local s) (fs_remote s) (partial_alter (fun _ => o) n (fs_live_nodes s)) (fs_io s).
Definition fs_load_node (n : NodeName) : M (LoadedNode B) :=
  let$ s := sget in
  if decide (is_Some (fs_live_nodes s !! n)) then serr FsNodeIsLoaded
  else
    let$ nodes := read_all_nodes in
    let$ node := slift (ok_or (nodes !! n) FsNodeDoesNotExist) in
    let$ loaded := (match node with
      | FsLocal local => let$ r := load_local_node local (default ∅ (dirs (fs_local s) !! n)) in sret (LiveLocal, LoadedLocal r)
      | FsRemote remote => let$ r := load_remote_node remote (default ∅ (dirs (fs_remote s) !! n)) in sret (LiveRemote, LoadedRemote r)
      end) in
    let$ s := sget in
    let$ _ := sput (set_live n (Some loaded.1) s) in
    sret loaded.2.
Definition fs_unload_node (n : NodeName) : M unit :=
  let$ s := sget in
  if decide (is_Some (fs_live_nodes s !! n)) then sput (set_live n None s) else serr FsNodeNotLoaded.

(** The entries a failed removal left: any of them. *)
Definition some_of {A} (kept : nat) (l : list A) : list A :=
  omap (fun x => if Nat.testbit kept x.1 then Some x.2 else None) (imap pair l).
(** [fs::remove_dir_all] of the directory of a node; a failure leaves some files. *)
Definition remove_dir_all (local : bool) (n : NodeName) : M bool := fun s =>
  match io (fs_io s), dirs (get_level local s) !! n with
  | IoSpawnFail, _ => (done_io s, Err FsSpawnError)
  | _, None => (done_io s, Ok false)
  | IoOk, Some _ => (done_io (put_level local s (Some (delete n (dirs (get_level local s))))), Ok true)
  | IoFail kept, Some d => (done_io (put_dir local n (list_to_map (some_of kept (map_to_list d))) s), Ok false)
  end.
(** The path of the empty name is the directory of all local or of all remote nodes. *)
Definition remove_level (local : bool) : M bool := fun s =>
  match io (fs_io s), get_level local s with
  | IoSpawnFail, _ => (done_io s, Err FsSpawnError)
  | _, None => (done_io s, Ok false)
  | IoOk, Some _ => (done_io (put_level local s None), Ok true)
  | IoFail kept, Some d => (done_io (put_level local s (Some (list_to_map (some_of kept (map_to_list d))))), Ok false)
  end.
Definition fs_remove_node (n : NodeName) : M unit :=
  let$ s := sget in
  if decide (is_Some (fs_live_nodes s !! n)) then serr FsNodeIsLoaded
  else
    let$ removed := (if bool_decide (n = ""%string) then
        let$ l := remove_level true in let$ r := remove_level false in sret (l || r)
      else if negb (regular_name n) then fun s => let '(s, b) := odd_name n s in (s, Ok b)
      else let$ l := remove_dir_all true n in let$ r := remove_dir_all false n in sret (l || r)) in
    if removed : bool then sret tt else serr FsRemoveNodeError.

#[global] Instance file_store : Store FileStore FileStoreError B := {|
  create_local_node := fs_create_local_node;
  create_remote_node := fs_create_remote_node;
  config_node := fs_config_node;
  list_nodes := fs_list_nodes;
  load_node := fs_load_node;
  unload_node := fs_unload_node;
  remove_node := fs_remove_node;
  is_fatal := file_store_is_fatal
|}.
End FileStore.
