(* ===== verification/FileStoreTheory.v ===== *)
(** * The store in files implements the interface of the store

    [contents] are the nodes whose files can be read; a store that fails to read
    them all has lost its contents. Every operation meets [StoreLaws], whatever
    operations of the file system fail, provided that directories can be read. *)

From Stdlib Require Import Ascii.
From S2P Require Import Prelude Arith Bytes Messages Canonical FunderState IndexMessages IndexClient AppServer Effects Database Node.
From S2P Require Import CompactMessages CompactConvert CompactStore Store FileStore FunderHandler.

(** ** Rules for operations *)
Section Rules.
Context {S E : Type}.

Lemma swp_ret {A} (a : A) (Q : A -> S -> Prop) (X : E -> S -> Prop) s : Q a s -> swp (sret a) Q X s.
Proof. done. Qed.
Lemma swp_err {A} (e : E) (Q : A -> S -> Prop) (X : E -> S -> Prop) s : X e s -> swp (serr e) Q X s.
Proof. done. Qed.
Lemma swp_bind {A A'} (m : SM S E A) (k : A -> SM S E A') Q X s :
  swp m (fun a s' => swp (k a) Q X s') X s -> swp (sbind m k) Q X s.
Proof. unfold swp, sbind. by destruct (m s) as [s' [a|e|]]. Qed.
Lemma swp_get (Q : S -> S -> Prop) (X : E -> S -> Prop) s : Q s s -> swp sget Q X s.
Proof. done. Qed.
Lemma swp_put (s' : S) (Q : unit -> S -> Prop) (X : E -> S -> Prop) s : Q tt s' -> swp (sput s') Q X s.
Proof. done. Qed.
Lemma swp_ok_or {A} (o : option A) (e : E) (Q : A -> S -> Prop) (X : E -> S -> Prop) s :
  (forall a, o = Some a -> Q a s) -> (o = None -> X e s) -> swp (slift (ok_or o e)) Q X s.
Proof. intros Hs Hn. destruct o; [by apply Hs|by apply Hn]. Qed.
Lemma swp_mono' {A} (m : SM S E A) (Q Q' : A -> S -> Prop) (X X' : E -> S -> Prop) s :
  swp m Q X s -> (forall a s', Q a s' -> Q' a s') -> (forall e s', X e s' -> X' e s') -> swp m Q' X' s.
Proof. unfold swp. destruct (m s) as [s' [a|e|]]; auto. Qed.
(** A loop whose body keeps an invariant. *)
Lemma swp_fold {A C} (I : list A -> C -> S -> Prop) (X : E -> S -> Prop) (f : C -> A -> SM S E C) xs c s :
  (forall x xs' c s, I (x :: xs') c s -> swp (f c x) (fun c' s' => I xs' c' s') X s) ->
  I xs c s -> swp (sfold f c xs) (fun c' s' => I [] c' s') X s.
Proof.
  intros Hf. revert c s. induction xs as [|x xs IH]; intros c s HI; [done|]. cbn [sfold]. apply swp_bind.
  eapply swp_mono'; [by apply Hf| |done]. intros c' s'. apply IH.
Qed.
End Rules.

Ltac swp_step :=
  match goal with
  | |- swp (sbind _ _) _ _ _ => apply swp_bind
  | |- swp (sret _) _ _ _ => apply swp_ret
  | |- swp (serr _) _ _ _ => apply swp_err
  | |- swp sget _ _ _ => apply swp_get
  | |- swp (sput _) _ _ _ => apply swp_put
  | |- swp (slift (ok_or _ _)) _ _ _ => apply swp_ok_or
  end; cbn beta.

Section Theory.
Context `{CryptoOps} {B : Type} `{CanonicalSerialize B}.
Context `{!Json IdentityFile} `{!Json StoredNodeConfig} `{!Json (NodeAddressFile B)}.
Context `{!JsonLaws IdentityFile} `{!JsonLaws StoredNodeConfig} `{!JsonLaws (NodeAddressFile B)}.
Context `{!Serde (NodeState B)} `{!Serde CompactState}.
Context (derive_public_key : PrivateKey -> option PublicKey) (identity_ok : PrivateKey -> bool).
Context (io : nat -> IoResult) (read_dir_ok : nat -> bool) (odd_name : NodeName -> FileStore -> FileStore * bool).
Hypothesis Hdir : forall n, read_dir_ok n = true.
(** Any 32 bytes are a key. *)
Hypothesis Hkey : forall k, is_Some (derive_public_key k).
Notation M := (SM FileStore FileStoreError).
Implicit Types (s : FileStore) (d : NodeDir) (n : NodeName).

(** ** What the files say *)
Definition parse {A} `{Json A} (content : option string) : option A := content ≫= from_string.
Definition local_node d : option FileStoreNodeLocal :=
  k ← parse (A := IdentityFile) (d !! NODE_IDENT); c ← parse (A := StoredNodeConfig) (d !! NODE_CONFIG);
  Some (mkFsNodeLocal (if_private_key k) c).
Definition remote_node d : option (FileStoreNodeRemote B) :=
  k ← parse (A := IdentityFile) (d !! APP_IDENT); a ← parse (A := NodeAddressFile B) (d !! NODE_INFO);
  c ← parse (A := StoredNodeConfig) (d !! NODE_CONFIG);
  Some (mkFsNodeRemote (if_private_key k) (na_public_key a) (na_address a) c).
Definition node_at (local : bool) d : option (FileStoreNode B) :=
  if local then FsLocal <$> local_node d else FsRemote <$> remote_node d.
Definition entry (local : bool) d : option (StoredNode B) := node_at local d ≫= file_store_node_to_stored_node derive_public_key.
Definition level (local : bool) s : gmap NodeName NodeDir := dirs (get_level local s).

Definition good s : Prop :=
  (forall local n d, level local s !! n = Some d -> is_Some (entry local d)) /\
  (forall n, level true s !! n = None \/ level false s !! n = None).
Definition table s : gmap NodeName (StoredNode B) := omap (entry true) (level true s) ∪ omap (entry false) (level false s).
Definition goodb s : bool :=
  forallb (fun local : bool => forallb (fun x => bool_decide (is_Some (entry local x.2))) (map_to_list (level local s))) [true; false] &&
  forallb (fun x => bool_decide (level false s !! x.1 = None)) (map_to_list (level true s)).
Definition fs_contents s : option (gmap NodeName (StoredNode B)) := if goodb s then Some (table s) else None.
Definition fs_loaded s : gset NodeName := dom (fs_live_nodes s).

Lemma goodb_good s : goodb s = true <-> good s.
Proof.
  unfold goodb, good. rewrite andb_true_iff, !forallb_forall. split.
  - intros [He Hd]. split.
    + intros local n d Hn. specialize (He local ltac:(destruct local; simpl; auto)). rewrite forallb_forall in He.
      specialize (He (n, d)). rewrite bool_decide_eq_true in He. apply He, list_elem_of_In, elem_of_map_to_list, Hn.
    + intros n. destruct (level true s !! n) as [d|] eqn:Hn; [|by left]. right.
      specialize (Hd (n, d)). rewrite bool_decide_eq_true in Hd. apply Hd, list_elem_of_In, elem_of_map_to_list, Hn.
  - intros [He Hd]. split.
    + intros local _. apply forallb_forall. intros [n d] Hin%list_elem_of_In%elem_of_map_to_list. simpl.
      apply bool_decide_eq_true. by eapply He.
    + intros [n d] Hin%list_elem_of_In%elem_of_map_to_list. simpl. apply bool_decide_eq_true. destruct (Hd n); [congruence|done].
Qed.

(** ** Reading *)
Definition same_files s s' : Prop :=
  fs_local s' = fs_local s /\ fs_remote s' = fs_remote s /\ fs_live_nodes s' = fs_live_nodes s.
Notation fatal e := (file_store_is_fatal e = true).
#[local] Instance same_files_preorder : PreOrder same_files.
Proof. split; [by intros s|]. intros s1 s2 s3 (?&?&?) (?&?&?). unfold same_files. split_and!; congruence. Qed.
Lemma same_level local s s' : same_files s s' -> level local s' = level local s.
Proof. intros (Hl & Hr & _). unfold level, get_level. by destruct local; rewrite ?Hl, ?Hr. Qed.

Lemma swp_io_step s : swp (io_step io) (fun _ s' => same_files s s') (fun e s' => fatal e /\ same_files s s') s.
Proof. unfold swp, io_step. by destruct (io (fs_io s)). Qed.
Lemma swp_read_json {A} `{Json A} content s :
  swp (read_json io (A := A) content) (fun a s' => parse content = Some a /\ same_files s s') (fun e s' => fatal e /\ same_files s s') s.
Proof.
  unfold read_json, read_to_string, parse. do 2 swp_step. eapply swp_mono'; [apply swp_io_step| |done]. intros [] s' Hs.
  swp_step; [|done]. intros t ->. swp_step; [|done]. intros a Ha. by split.
Qed.
Lemma swp_read_node local d s :
  swp (read_node io local d) (fun x s' => node_at local d = Some x /\ same_files s s') (fun e s' => fatal e /\ same_files s s') s.
Proof.
  unfold read_node, node_at, local_node, remote_node. destruct local.
  - unfold read_local_node. swp_step. swp_step. eapply swp_mono'; [apply swp_read_json| |done]. intros k s1 [-> H1].
    swp_step. eapply swp_mono'; [apply swp_read_json| |intros e s2 [He H2]; split; [done|by etrans]]. intros c s2 [-> H2].
    do 2 swp_step. split; [done|by etrans].
  - unfold read_remote_node. swp_step. swp_step. eapply swp_mono'; [apply swp_read_json| |done]. intros k s1 [-> H1].
    swp_step. eapply swp_mono'; [apply swp_read_json| |intros e s2 [He H2]; split; [done|by etrans]]. intros a s2 [-> H2].
    swp_step. eapply swp_mono'; [apply swp_read_json| |intros e s3 [He H3]; split; [done|etrans; [exact H1|by etrans]]]. intros c s3 [-> H3].
    do 2 swp_step. split; [done|]. etrans; [exact H1|by etrans].
Qed.

(** What reading a level adds to the nodes read before. *)
Definition level_read (local : bool) s (acc r : gmap NodeName (FileStoreNode B)) : Prop :=
  (forall n d, level local s !! n = Some d -> r !! n = node_at local d /\ is_Some (node_at local d) /\ acc !! n = None) /\
  (forall n, level local s !! n = None -> r !! n = acc !! n).
Definition overlap (local : bool) s (acc : gmap NodeName (FileStoreNode B)) : Prop :=
  exists n, is_Some (level local s !! n) /\ is_Some (acc !! n).

Lemma swp_read_level local acc s :
  swp (read_level io read_dir_ok local acc) (fun r s' => level_read local s acc r /\ same_files s s')
    (fun e s' => (fatal e \/ overlap local s acc) /\ same_files s s') s.
Proof.
  unfold swp, read_level. destruct (get_level local s) as [entries|] eqn:El.
  2: { split; [|done]. split; intros n; unfold level; rewrite El; simpl; rewrite lookup_empty; done. }
  rewrite Hdir. assert (level local s = entries) as Hlev by (unfold level; by rewrite El).
  fold (swp (sfold (fun acc '(n, d) => let$ _ := io_step io in let$ node := read_node io local d in
    if decide (is_Some (acc !! n)) then serr (FsDuplicateNodeName n) else sret (<[n := node]> acc)) acc (map_to_list entries))
    (fun r s' => level_read local s acc r /\ same_files s s') (fun e s' => (fatal e \/ overlap local s acc) /\ same_files s s') (done_io s)).
  eapply swp_mono'; [apply (swp_fold (fun xs r s' => same_files s s' /\ NoDup xs.*1 /\ (forall n d, (n, d) ∈ xs -> entries !! n = Some d) /\
    forall n, (entries !! n = None \/ n ∈ xs.*1 -> r !! n = acc !! n) /\
      (forall d, n ∉ xs.*1 -> entries !! n = Some d -> r !! n = node_at local d /\ is_Some (node_at local d) /\ acc !! n = None))
      (fun e s' => (fatal e \/ overlap local s acc) /\ same_files s s'))| |intros e s' HX; exact HX].
  - intros [n d] xs r s1 (Hs & Hnd & Hxs & Hr). swp_step.
    eapply swp_mono'; [apply swp_io_step| |intros e s2 [He H2]; split; [by left|by etrans]]. intros [] s2 H2. swp_step.
    eapply swp_mono'; [apply swp_read_node| |intros e s3 [He H3]; split; [by left|etrans; [exact Hs|by etrans]]].
    intros x s3 [Hx H3]. simpl in Hnd. apply NoDup_cons in Hnd as [Hn Hnd].
    assert (r !! n = acc !! n) as Hrn by (apply Hr; right; by left).
    assert (entries !! n = Some d) as Hd by (apply Hxs; by left).
    case_decide as Hdup; swp_step.
    + split; [|etrans; [exact Hs|by etrans]]. right. exists n. rewrite Hlev, Hd, <-Hrn. by split.
    + apply eq_None_not_Some in Hdup. split_and!; [etrans; [exact Hs|by etrans]|done|intros k y Hk; apply Hxs; by right|].
      intros k. destruct (decide (k = n)) as [->|Hne].
      * rewrite lookup_insert_eq. split; [intros [?|?]; [congruence|done]|]. intros d' _ Hd'. rewrite Hd in Hd'. injection Hd' as <-.
        rewrite Hx. split_and!; [done|by eexists|congruence].
      * rewrite lookup_insert_ne by done. destruct (Hr k) as [Hr1 Hr2]. split.
        -- intros [?|?]; apply Hr1; [by left|right; by right].
        -- intros d' Hk. apply Hr2. simpl. rewrite not_elem_of_cons. by split.
  - split_and!; [done|apply NoDup_fst_map_to_list|intros n d; apply elem_of_map_to_list|]. intros n. split; [done|].
    intros d Hn Hd. destruct Hn. apply list_elem_of_fmap. exists (n, d). split; [done|]. by apply elem_of_map_to_list.
  - intros r s' (Hs & _ & _ & Hr). split; [|done]. rewrite <-Hlev in Hr. split.
    + intros n d Hd. apply Hr; [apply not_elem_of_nil|done].
    + intros n Hn. apply Hr. by left.
Qed.

Definition all_read s (r : gmap NodeName (FileStoreNode B)) : Prop :=
  (forall n d, level true s !! n = Some d -> level false s !! n = None /\ r !! n = node_at true d /\ is_Some (node_at true d)) /\
  (forall n d, level false s !! n = Some d -> level true s !! n = None /\ r !! n = node_at false d /\ is_Some (node_at false d)) /\
  (forall n, level true s !! n = None -> level false s !! n = None -> r !! n = None).
Definition disjoint_levels s : Prop := forall n, level true s !! n = None \/ level false s !! n = None.

Lemma swp_read_all s :
  swp (read_all_nodes io read_dir_ok) (fun r s' => all_read s r /\ same_files s s')
    (fun e s' => (disjoint_levels s -> fatal e) /\ same_files s s') s.
Proof.
  unfold read_all_nodes. swp_step. eapply swp_mono'; [apply swp_io_step| |by intros e s' [He Hs]]. intros [] s1 H1. swp_step.
  eapply swp_mono'; [apply swp_read_level| |].
  2: { intros e s2 [He H2]. split; [|by etrans]. intros _. destruct He as [?|(n & _ & [x Hx])]; [done|]. by rewrite lookup_empty in Hx. }
  intros nodes s2 [Hn H2]. pose proof (transitivity H1 H2) as H12. unfold level_read in Hn. rewrite (same_level _ _ _ H1) in Hn.
  destruct Hn as [Hn1 Hn2].
  assert (forall n x, nodes !! n = Some x -> is_Some (level true s !! n)) as Hdom.
  { intros n x Hx. destruct (level true s !! n) eqn:E; [by eexists|]. by rewrite Hn2, lookup_empty in Hx. }
  eapply swp_mono'; [apply swp_read_level| |].
  - intros r s3 [[Hr1 Hr2] H3]. rewrite (same_level _ _ _ H12) in Hr1, Hr2. split; [|by etrans]. split_and!.
    + intros n d Hd. destruct (Hn1 n d Hd) as (Hx & [x Hs] & _). rewrite Hs in Hx.
      assert (level false s !! n = None) as Hf.
      { destruct (level false s !! n) as [d'|] eqn:E; [|done]. destruct (Hr1 n d' E) as (_ & _ & Hno). congruence. }
      split; [done|]. rewrite Hr2 by done. rewrite Hs. split; [done|by eexists].
    + intros n d Hd. destruct (Hr1 n d Hd) as (Hx & Hs & Hno). split; [|done].
      destruct (level true s !! n) as [d'|] eqn:E; [|done]. destruct (Hn1 n d' E) as (Hx' & [y Hy] & _). congruence.
    + intros n Ht Hf. rewrite Hr2 by done. by rewrite Hn2, lookup_empty by done.
  - intros e s3 [He H3]. split; [|by etrans]. intros Hdis. destruct He as [?|(n & Hf & [x Hx])]; [done|].
    rewrite (same_level _ _ _ H12) in Hf. destruct Hf as [d Hf]. destruct (Hdom n x Hx) as [d' Ht]. destruct (Hdis n); congruence.
Qed.

Lemma table_lookup s n :
  table s !! n = match level true s !! n with
                 | Some d => match entry true d with Some x => Some x | None => level false s !! n ≫= entry false end
                 | None => level false s !! n ≫= entry false
                 end.
Proof.
  unfold table. rewrite lookup_union, !lookup_omap. destruct (level true s !! n) as [d|]; simpl.
  - destruct (entry true d); simpl; by destruct (level false s !! n ≫= entry false).
  - by destruct (level false s !! n ≫= entry false).
Qed.

Lemma swp_list s :
  swp (fs_list_nodes derive_public_key io read_dir_ok) (fun r s' => good s /\ r = table s /\ same_files s s') (fun _ s' => same_files s s') s.
Proof.
  unfold fs_list_nodes. swp_step. eapply swp_mono'; [apply swp_read_all| |by intros e s' [_ ?]]. intros nodes s1 [Hall H1].
  set (conv := file_store_node_to_stored_node derive_public_key).
  eapply swp_mono'; [apply (swp_fold (fun xs acc s' => same_files s s' /\ NoDup xs.*1 /\ (forall n x, (n, x) ∈ xs -> nodes !! n = Some x) /\
    forall n, (n ∈ xs.*1 -> acc !! n = None) /\ (n ∉ xs.*1 -> acc !! n = nodes !! n ≫= conv /\ (forall x, nodes !! n = Some x -> is_Some (conv x))))
    (fun _ s' => same_files s s'))| |intros e s' HX; exact HX].
  - intros [n x] xs acc s2 (H2 & Hnd & Hxs & Hacc). swp_step. simpl in Hnd. apply NoDup_cons in Hnd as [Hn Hnd].
    swp_step; [|done]. intros y Hy. swp_step. split_and!; [done|done|intros k z Hk; apply Hxs; by right|].
    intros k. destruct (decide (k = n)) as [->|Hne].
    + rewrite lookup_insert_eq. split; [done|]. intros _. rewrite (Hxs n x) by by left. simpl. split; [done|].
      intros x' [= <-]. by eexists.
    + rewrite lookup_insert_ne by done. destruct (Hacc k) as [Ha1 Ha2]. split; [intros Hk; apply Ha1; by right|].
      intros Hk. apply Ha2. simpl. rewrite not_elem_of_cons. by split.
  - split_and!; [done|apply NoDup_fst_map_to_list|intros n x; apply elem_of_map_to_list|].
    intros n. split; [by rewrite lookup_empty|]. intros Hn. destruct (nodes !! n) as [x|] eqn:E; [|by rewrite lookup_empty].
    destruct Hn. apply list_elem_of_fmap. exists (n, x). split; [done|]. by apply elem_of_map_to_list.
  - intros r s2 (H2 & _ & _ & Hr). destruct Hall as (Ht & Hf & Hnone).
    assert (forall n, r !! n = nodes !! n ≫= conv /\ (forall x, nodes !! n = Some x -> is_Some (conv x))) as Hr'.
    { intros n. apply Hr, not_elem_of_nil. }
    split_and!; [|apply map_eq; intros n; destruct (Hr' n) as [-> _]; rewrite table_lookup|done].
    + split.
      * intros [] n d Hd; unfold entry; [destruct (Ht n d Hd) as (_ & Hn & [x Hx])|destruct (Hf n d Hd) as (_ & Hn & [x Hx])];
          rewrite Hx in Hn |- *; simpl; by apply (Hr' n).
      * intros n. destruct (level true s !! n) eqn:E; [|by left]. right. by eapply Ht.
    + destruct (level true s !! n) as [d|] eqn:E.
      * destruct (Ht n d E) as (Hno & -> & [x Hx]). unfold entry. rewrite Hx, Hno. simpl. fold conv. by destruct (conv x).
      * destruct (level false s !! n) as [d|] eqn:E'; [by destruct (Hf n d E') as (_ & -> & _)|]. by rewrite Hnone.
Qed.

(** ** Changing the files *)
Notation fs_stored := (stored fs_contents fs_loaded).
Lemma stored_iff s m ld : fs_stored s m ld <-> good s /\ m = table s /\ ld = fs_loaded s.
Proof.
  unfold stored, fs_contents. rewrite <-goodb_good. destruct (goodb s); split.
  - by intros [[= <-] <-].
  - by intros (_ & -> & ->).
  - by intros [[=] _].
  - by intros ([=] & _).
Qed.
Lemma contents_same s s' : same_files s s' -> fs_contents s' = fs_contents s.
Proof.
  destruct s, s'. intros (Hl & Hr & _). simpl in *. by subst.
Qed.
Lemma stored_same s s' m ld : same_files s s' -> fs_stored s m ld -> fs_stored s' m ld.
Proof.
  intros Hs [Hc Hl]. split; [by rewrite (contents_same _ _ Hs)|]. unfold fs_loaded. destruct Hs as (_ & _ & ->). exact Hl.
Qed.

(** Only the levels matter, not whether an empty one exists. *)
Definition same_levels s s' : Prop :=
  level true s' = level true s /\ level false s' = level false s /\ fs_live_nodes s' = fs_live_nodes s.
Lemma contents_levels s s' : same_levels s s' -> fs_contents s' = fs_contents s.
Proof. intros (Ht & Hf & _). unfold fs_contents, goodb, table. simpl. by rewrite Ht, Hf. Qed.
Lemma stored_levels s s' m ld : same_levels s s' -> fs_stored s m ld -> fs_stored s' m ld.
Proof.
  intros Hs [Hc Hl]. split; [by rewrite (contents_levels _ _ Hs)|]. unfold fs_loaded. destruct Hs as (_ & _ & ->). exact Hl.
Qed.

(** The directory [n] of a level is now [d]. *)
Definition upd (local : bool) n d s s' : Prop :=
  level local s' = <[n := d]> (level local s) /\ level (negb local) s' = level (negb local) s /\ fs_live_nodes s' = fs_live_nodes s.

Lemma level_put_level local l' s x : level l' (put_level local s x) = if eqb local l' then dirs x else level l' s.
Proof. by destruct local, l'. Qed.
Lemma level_done_io local s : level local (done_io s) = level local s.
Proof. by destruct local. Qed.
Lemma upd_put local n d s : upd local n d s (done_io (put_dir local n d s)).
Proof.
  unfold upd, put_dir. rewrite !level_done_io, !level_put_level. destruct local; done.
Qed.
Lemma upd_twice local n d d' s s1 s2 : upd local n d s s1 -> upd local n d' s1 s2 -> upd local n d' s s2.
Proof.
  intros (H1 & H2 & H3) (H4 & H5 & H6). split_and!; [|congruence..]. rewrite H4, H1. apply insert_insert_eq.
Qed.
Lemma upd_same local n d s s1 s2 : upd local n d s s1 -> same_files s1 s2 -> upd local n d s s2.
Proof.
  intros (H1 & H2 & H3) Hs. unfold upd. rewrite !(same_level _ _ _ Hs). destruct Hs as (_ & _ & ->). by split_and!.
Qed.
Lemma upd_lookup local n d s s' : upd local n d s s' -> level local s' !! n = Some d.
Proof. intros (-> & _). apply lookup_insert_eq. Qed.

Lemma good_upd local n d s s' x :
  good s -> level (negb local) s !! n = None -> upd local n d s s' -> entry local d = Some x ->
  good s' /\ table s' = <[n := x]> (table s).
Proof.
  intros [Hg Hd] Hno (H1 & H2 & _) He.
  assert (forall l' k y, level l' s' !! k = Some y -> (l' = local /\ k = n /\ y = d) \/ level l' s !! k = Some y) as Hlook.
  { intros l' k y. destruct (decide (l' = local)) as [->|Hl].
    - rewrite H1. intros [[<- <-]|[_ Hk]]%lookup_insert_Some; auto.
    - assert (l' = negb local) as -> by (destruct l', local; done). rewrite H2. auto. }
  split; [split|].
  - intros l' k y Hk. destruct (Hlook _ _ _ Hk) as [(-> & -> & ->)|Hk']; [by rewrite He|by eapply Hg].
  - intros k. destruct (decide (k = n)) as [->|Hne].
    + destruct local; simpl in *; [right|left]; by rewrite H2.
    + destruct local; simpl in *; rewrite H1, H2, !lookup_insert_ne by done; apply Hd.
  - apply map_eq. intros k. rewrite table_lookup. destruct (decide (k = n)) as [->|Hne].
    + rewrite lookup_insert_eq. destruct local; simpl in *; rewrite H1, H2, lookup_insert_eq, ?Hno; simpl; by rewrite He.
    + rewrite lookup_insert_ne, table_lookup by done. destruct local; simpl in *; by rewrite H1, H2, !lookup_insert_ne.
Qed.
Lemma lost_upd local n d s s' : upd local n d s s' -> entry local d = None -> fs_contents s' = None.
Proof.
  intros Hu He. unfold fs_contents. destruct (goodb s') eqn:E; [|done]. apply goodb_good in E as [Hg _].
  destruct (Hg _ _ _ (upd_lookup _ _ _ _ _ Hu)) as [x Hx]. congruence.
Qed.

Lemma swp_write_file local n file data d s0 s :
  upd local n d s0 s ->
  swp (write_file io local n file data) (fun _ s' => upd local n (<[file := data]> d) s0 s')
    (fun e s' => fatal e /\ exists d', upd local n d' s0 s' /\
       (d' = d \/ exists k, (k < String.length data)%nat /\ d' = <[file := String.substring 0 k data]> d)) s.
Proof.
  intros Hu. pose proof (upd_lookup _ _ _ _ _ Hu) as Hl. unfold level in Hl. unfold swp, write_file. rewrite Hl. simpl.
  destruct (io (fs_io s)) as [| |[|k]].
  - eapply upd_twice; [exact Hu|apply upd_put].
  - split; [done|]. exists d. split; [|by left]. by eapply upd_same.
  - split; [done|]. exists d. split; [|by left]. by eapply upd_same.
  - split; [done|]. destruct (Nat.ltb_spec k (String.length data)).
    + eexists. split; [eapply upd_twice; [exact Hu|apply upd_put]|]. right. eauto.
    + exists d. split; [|by left]. by eapply upd_same.
Qed.
Lemma swp_create_dir local n s :
  swp (create_dir_all io local n) (fun _ s' => upd local n (default ∅ (level local s !! n)) s s')
    (fun e s' => fatal e /\ same_levels s s') s.
Proof.
  unfold swp, create_dir_all. destruct (io (fs_io s)) as [| |[|k]]; [apply upd_put|done|done|].
  split; [done|]. unfold same_levels. rewrite !level_done_io, !level_put_level. by destruct local.
Qed.
Lemma swp_create_db {S Mut ME : Type} `{MutableState S Mut ME} `{Serde S} local n file (initial : S) d s0 s :
  upd local n d s0 s ->
  swp (create_db io (ME := ME) local n file initial) (fun _ s' => exists t, upd local n (<[file := t]> d) s0 s')
    (fun e s' => fatal e /\ upd local n d s0 s') s.
Proof.
  intros Hu. pose proof (upd_lookup _ _ _ _ _ Hu) as Hl. unfold level in Hl. unfold swp, create_db. rewrite Hl. simpl.
  destruct (file_db_create _ _ _ _) as [[d' db]| |] eqn:E; [|split; [done|by eapply upd_same]..].
  unfold file_db_create in E. destruct (bool_decide _); simpl in E; [|done].
  destruct (to_string_pretty initial) as [t|]; simpl in E; [|done]. destruct (io (fs_io s)); simpl in E; [|done..].
  destruct (from_str t); simpl in E; [|done]. injection E as <- _. exists t. eapply upd_twice; [exact Hu|apply upd_put].
Qed.

(** ** The laws *)
Lemma parse_to_json {A} `{Json A} `{!JsonLaws A} (a : A) t : to_string a = Some t -> parse (Some t) = Some a.
Proof. apply from_to_json. Qed.

(** The directories that creating a node leaves. *)
Lemma entry_created_local d t1 t2 key pk :
  to_string (mkStoredNodeConfig false) = Some t1 -> to_string (mkIdentityFile key) = Some t2 -> derive_public_key key = Some pk ->
  entry true (<[NODE_IDENT := t2]> (<[NODE_CONFIG := t1]> d)) = Some (mkStoredNode (InfoLocal pk) (mkStoredNodeConfig false)).
Proof.
  intros H1 H2 Hpk. unfold entry, node_at, local_node. rewrite lookup_insert_eq, lookup_insert_ne, lookup_insert_eq by done.
  rewrite (parse_to_json _ _ H1), (parse_to_json _ _ H2). simpl. by rewrite Hpk.
Qed.
Lemma entry_created_remote d tk tc t key pk node_pk address :
  d !! APP_IDENT = Some tk -> to_string (mkIdentityFile key) = Some tk ->
  d !! NODE_CONFIG = Some tc -> to_string (mkStoredNodeConfig false) = Some tc ->
  to_string (mkNodeAddressFile node_pk address) = Some t -> derive_public_key key = Some pk ->
  entry false (<[NODE_INFO := t]> d) = Some (mkStoredNode (InfoRemote pk node_pk address) (mkStoredNodeConfig false)).
Proof.
  intros Hk Htk Hc Htc Ht Hpk. unfold entry, node_at, remote_node. rewrite lookup_insert_eq, !lookup_insert_ne by done.
  rewrite Hk, Hc, (parse_to_json _ _ Htk), (parse_to_json _ _ Htc), (parse_to_json _ _ Ht). simpl. by rewrite Hpk.
Qed.
Lemma entry_no_info d : d !! NODE_INFO = None -> entry false d = None.
Proof.
  intros Hn. unfold entry, node_at, remote_node. rewrite Hn. destruct (parse (d !! APP_IDENT)); done.
Qed.
Lemma entry_config local d x c t :
  entry local d = Some x -> to_string c = Some t -> entry local (<[NODE_CONFIG := t]> d) = Some (mkStoredNode (sn_info x) c).
Proof.
  intros He Hc. revert He. unfold entry, node_at, local_node, remote_node.
  destruct local; rewrite lookup_insert_eq, !lookup_insert_ne, (parse_to_json _ _ Hc) by done.
  - destruct (parse (d !! NODE_IDENT)) as [k|]; simpl; [|done]. destruct (parse (d !! NODE_CONFIG)) as [c'|]; simpl; [|done].
    destruct (derive_public_key _); simpl; [|done]. by intros [= <-].
  - destruct (parse (d !! APP_IDENT)) as [k|]; simpl; [|done]. destruct (parse (d !! NODE_INFO)) as [a|]; simpl; [|done].
    destruct (parse (d !! NODE_CONFIG)) as [c'|]; simpl; [|done]. destruct (derive_public_key _); simpl; [|done]. by intros [= <-].
Qed.

Lemma table_None s n : good s -> table s !! n = None -> forall local, level local s !! n = None.
Proof.
  intros [Hg _] Hn local. rewrite table_lookup in Hn.
  destruct (level true s !! n) as [d|] eqn:Et.
  - destruct (Hg _ _ _ Et) as [x Hx]. by rewrite Hx in Hn.
  - destruct (level false s !! n) as [d|] eqn:Ef; [destruct (Hg _ _ _ Ef) as [x Hx]; simpl in Hn; congruence|]. by destruct local.
Qed.
Lemma table_Some s n x : good s -> table s !! n = Some x ->
  exists local d, level local s !! n = Some d /\ entry local d = Some x /\ level (negb local) s !! n = None.
Proof.
  intros [Hg Hd] Hn. rewrite table_lookup in Hn. destruct (level true s !! n) as [d|] eqn:Et.
  - destruct (Hg _ _ _ Et) as [y Hy]. rewrite Hy in Hn. injection Hn as <-. exists true, d. split_and!; [done..|]. simpl.
    destruct (Hd n); congruence.
  - destruct (level false s !! n) as [d|] eqn:Ef; [|done]. simpl in Hn. by exists false, d.
Qed.
Lemma stored_upd local n d s s' x :
  good s -> level (negb local) s !! n = None -> upd local n d s s' -> entry local d = Some x ->
  fs_stored s' (<[n := x]> (table s)) (fs_loaded s).
Proof.
  intros Hg Hno Hu He. destruct (good_upd _ _ _ _ _ _ Hg Hno Hu He) as [Hg' Ht]. apply stored_iff. split_and!; [done|done|].
  unfold fs_loaded. by destruct Hu as (_ & _ & ->).
Qed.

Lemma stored_delete local n s s' :
  good s -> level (negb local) s !! n = None -> level (negb local) s' = level (negb local) s ->
  level local s' = delete n (level local s) -> fs_live_nodes s' = fs_live_nodes s ->
  fs_stored s' (delete n (table s)) (fs_loaded s).
Proof.
  intros [Hg Hd] Hno H2 H1 Hl.
  assert (forall l' k y, level l' s' !! k = Some y -> k <> n /\ level l' s !! k = Some y) as Hlook.
  { intros l' k y. destruct (decide (l' = local)) as [->|Hne].
    - rewrite H1. intros [Hk ?]%lookup_delete_Some. by split.
    - assert (l' = negb local) as -> by (destruct l', local; done). rewrite H2. intros Hk. split; [|done]. intros ->. congruence. }
  apply stored_iff. split_and!; [split| |unfold fs_loaded; by rewrite Hl].
  - intros l' k y Hk. destruct (Hlook _ _ _ Hk) as [_ Hk']. by eapply Hg.
  - intros k. destruct (level true s' !! k) as [y|] eqn:E; [|by left]. right. destruct (level false s' !! k) as [z|] eqn:E'; [|done].
    destruct (Hlook _ _ _ E), (Hlook _ _ _ E'). destruct (Hd k); congruence.
  - apply map_eq. intros k. rewrite table_lookup. destruct (decide (k = n)) as [->|Hne].
    + rewrite lookup_delete_eq. destruct local; simpl in *; by rewrite H1, H2, lookup_delete_eq, ?Hno.
    + rewrite lookup_delete_ne, table_lookup by done. destruct local; simpl in *; by rewrite H1, H2, !lookup_delete_ne.
Qed.

Lemma fs_create_local_law s n key :
  good s -> table s !! n = None ->
  swp (fs_create_local_node derive_public_key io n key)
    (fun _ s' => exists pk, fs_stored s' (<[n := mkStoredNode (InfoLocal pk) (mkStoredNodeConfig false)]> (table s)) (fs_loaded s))
    (fun e s' => fatal e \/ fs_stored s' (table s) (fs_loaded s)) s.
Proof.
  intros Hg Hn. pose proof (table_None _ _ Hg Hn) as Hlev. unfold fs_create_local_node.
  destruct (is_node_name_valid n); simpl; [|swp_step; right; by apply stored_iff].
  swp_step. eapply swp_mono'; [apply swp_create_dir| |by intros e s' [? _]; left]. intros [] s1 H1. rewrite Hlev in H1. simpl in H1.
  swp_step. swp_step; [|by left]. intros pk Hpk. swp_step.
  eapply swp_mono'; [eapply swp_create_db; exact H1| |by intros e s' [? _]; left]. intros [] s2 [t2 H2]. swp_step.
  eapply swp_mono'; [eapply swp_create_db; exact H2| |by intros e s' [? _]; left]. intros [] s3 [t3 H3].
  unfold write_json. swp_step. swp_step. swp_step; [|by left]. intros tc Hc.
  eapply swp_mono'; [eapply swp_write_file; exact H3| |by intros e s' [? _]; left]. intros [] s4 H4. swp_step. swp_step; [|by left].
  intros ti Hi. eapply swp_mono'; [eapply swp_write_file; exact H4| |by intros e s' [? _]; left]. intros [] s5 H5.
  exists pk. eapply (stored_upd true); [done|apply Hlev|exact H5|]. by eapply entry_created_local.
Qed.

Lemma fs_create_remote_law s n key node_pk address :
  good s -> table s !! n = None ->
  swp (fs_create_remote_node io n key node_pk address)
    (fun _ s' => (exists d t, upd false n (<[NODE_INFO := t]> d) s s' /\ to_string (mkNodeAddressFile node_pk address) = Some t /\
       exists tk tc, d !! APP_IDENT = Some tk /\ to_string (mkIdentityFile key) = Some tk /\
         d !! NODE_CONFIG = Some tc /\ to_string (mkStoredNodeConfig false) = Some tc))
    (fun e s' => stored_or_lost fs_contents fs_loaded s' (table s) (fs_loaded s)) s.
Proof.
  intros Hg Hn. pose proof (table_None _ _ Hg Hn) as Hlev. unfold fs_create_remote_node.
  assert (fs_stored s (table s) (fs_loaded s)) as Hst by by apply stored_iff.
  swp_step. swp_step. case_decide as Hlive; [swp_step; by right|]. destruct (is_node_name_valid n); simpl; [|swp_step; by right].
  assert (forall d s', upd false n d s s' -> d !! NODE_INFO = None -> stored_or_lost fs_contents fs_loaded s' (table s) (fs_loaded s)) as Hlost.
  { intros d s' Hu Hi. left. eapply lost_upd; [exact Hu|]. by apply entry_no_info. }
  swp_step. eapply swp_mono'; [apply swp_create_dir| |].
  2: { intros e s' (_ & Hs). right. by eapply stored_levels. }
  intros [] s1 H1. rewrite Hlev in H1. simpl in H1. unfold write_json. swp_step. swp_step. swp_step; [|by intros _; eapply Hlost].
  intros tk Hk. eapply swp_mono'; [eapply swp_write_file; exact H1| |].
  2: { intros e s' (_ & d' & Hu & [->|(k & _ & ->)]); eapply Hlost; try exact Hu; [done|]. by rewrite lookup_insert_ne. }
  intros [] s2 H2. swp_step. eapply swp_mono'; [eapply swp_create_db; exact H2| |].
  2: { intros e s' [_ Hu]. eapply Hlost; [exact Hu|]. by rewrite lookup_insert_ne. }
  intros [] s3 [tdb H3]. swp_step. swp_step. swp_step; [|intros _; eapply Hlost; [exact H3|]; by rewrite !lookup_insert_ne].
  intros tc Hc. eapply swp_mono'; [eapply swp_write_file; exact H3| |].
  2: { intros e s' (_ & d' & Hu & [->|(k & _ & ->)]); eapply Hlost; try exact Hu; by rewrite !lookup_insert_ne. }
  intros [] s4 H4. swp_step. swp_step; [|intros _; eapply Hlost; [exact H4|]; by rewrite !lookup_insert_ne].
  intros ti Hi. eapply swp_mono'; [eapply swp_write_file; exact H4| |].
  - intros [] s5 H5. eexists _, ti. split; [exact H5|]. split; [done|]. exists tk, tc. split_and!; [|done| |done].
    + by rewrite lookup_insert_ne, lookup_insert_ne, lookup_insert_eq.
    + by rewrite lookup_insert_eq.
  - intros e s' (_ & d' & Hu & [->|(k & Hlt & ->)]).
    + eapply Hlost; [exact Hu|]. by rewrite !lookup_insert_ne.
    + left. eapply lost_upd; [exact Hu|]. unfold entry, node_at, remote_node. rewrite lookup_insert_eq.
      assert (parse (A := NodeAddressFile B) (Some (String.substring 0 k ti)) = None) as -> by exact (from_part _ _ _ Hi Hlt).
      by destruct (parse (A := IdentityFile) _).
Qed.

Lemma fs_config_law s n x c :
  good s -> table s !! n = Some x ->
  swp (fs_config_node io odd_name n c)
    (fun _ s' => fs_stored s' (<[n := mkStoredNode (sn_info x) c]> (table s)) (fs_loaded s)) (fun _ _ => True) s.
Proof.
  intros Hg Hn. destruct (table_Some _ _ _ Hg Hn) as (local & d & Hd & He & Hno).
  assert (upd local n d s s) as Hu by (split_and!; [by rewrite insert_id|done..]).
  assert (swp (write_json io local n NODE_CONFIG c)
    (fun _ s' => fs_stored s' (<[n := mkStoredNode (sn_info x) c]> (table s)) (fs_loaded s)) (fun _ _ => True) s) as Hw.
  { unfold write_json. swp_step. swp_step; [|done]. intros t Ht. eapply swp_mono'; [eapply swp_write_file; exact Hu| |done].
    intros [] s' Hu'. eapply stored_upd; [done|exact Hno|exact Hu'|]. by apply entry_config. }
  unfold fs_config_node. swp_step. swp_step. destruct local; simpl in Hno; unfold level, get_level in Hd, Hno.
  - by rewrite decide_True by by eexists.
  - rewrite decide_False by (rewrite Hno; by intros [? ?]). by rewrite decide_True by by eexists.
Qed.

Lemma swp_spawn_db {S Mut ME : Type} `{MutableState S Mut ME} `{Serde S} content file s :
  swp (spawn_db io (ME := ME) (S := S) content file) (fun _ s' => same_files s s') (fun e s' => fatal e /\ same_files s s') s.
Proof.
  unfold spawn_db. swp_step. eapply swp_mono'; [apply swp_io_step| |done]. intros [] s1 Hs1. swp_step. swp_step; [|done].
  intros db _. swp_step. eapply swp_mono'; [apply swp_io_step| |].
  - intros [] s2 Hs2. swp_step. by etrans.
  - intros e s2 [He Hs2]. split; [done|by etrans].
Qed.
Lemma swp_identity key s :
  swp (create_identity_server identity_ok io key) (fun _ s' => same_files s s') (fun e s' => fatal e /\ same_files s s') s.
Proof.
  unfold create_identity_server. swp_step. destruct (identity_ok key); [apply swp_io_step|done].
Qed.

Lemma fs_load_law s n x :
  good s -> table s !! n = Some x -> n ∉ fs_loaded s ->
  swp (fs_load_node identity_ok io read_dir_ok n)
    (fun r s' => loaded_local r = is_local (sn_info x) /\ fs_stored s' (table s) ({[n]} ∪ fs_loaded s)) (fun e _ => fatal e) s.
Proof.
  intros Hg Hn Hnot. destruct (table_Some _ _ _ Hg Hn) as (local & d & Hd & He & Hno). unfold fs_load_node. swp_step. swp_step.
  rewrite decide_False by (rewrite <-elem_of_dom; exact Hnot). swp_step.
  eapply swp_mono'; [apply swp_read_all| |intros e s1 [Hf _]; exact (Hf (proj2 Hg))]. intros nodes s1 [(Ht & Hf & _) Hs1].
  assert (nodes !! n = node_at local d) as Hnode by (destruct local; [by apply Ht|by apply Hf]).
  unfold entry in He. swp_step. rewrite Hnode. swp_step.
  2: { intros Hnone. by rewrite Hnone in He. }
  intros node Hnd. rewrite Hnd in He. simpl in He. swp_step.
  assert (forall s2 ln, same_files s s2 -> fs_stored (set_live n (Some ln) s2) (table s) ({[n]} ∪ fs_loaded s)) as Hfin.
  { intros s2 ln Hs. pose proof (proj2 (stored_iff s _ _) (conj Hg (conj eq_refl eq_refl))) as Hst.
    destruct (stored_same _ _ _ _ Hs Hst) as [Hc Hl]. split; [exact Hc|].
    unfold fs_loaded in *. simpl. rewrite <-Hl. apply leibniz_equiv. intros k. rewrite elem_of_union, elem_of_singleton, !elem_of_dom.
    destruct (decide (k = n)) as [->|Hne]; [rewrite lookup_partial_alter_eq|rewrite lookup_partial_alter_ne by done]; naive_solver. }
  destruct node as [ll|lr].
  - swp_step. unfold load_local_node. swp_step. eapply swp_mono'; [apply swp_identity| |by intros e s2 [? _]]. intros [] s2 Hs2. swp_step.
    eapply swp_mono'; [apply swp_spawn_db| |by intros e s3 [? _]]. intros cs s3 Hs3. swp_step.
    eapply swp_mono'; [apply swp_spawn_db| |by intros e s4 [? _]]. intros nst s4 Hs4. repeat swp_step. split.
    + simpl in He. destruct (derive_public_key _); simpl in He; [|done]. by injection He as <-.
    + apply Hfin. etrans; [exact Hs1|]. etrans; [exact Hs2|]. etrans; [exact Hs3|exact Hs4].
  - swp_step. unfold load_remote_node. swp_step. eapply swp_mono'; [apply swp_identity| |by intros e s2 [? _]]. intros [] s2 Hs2. swp_step.
    eapply swp_mono'; [apply swp_spawn_db| |by intros e s3 [? _]]. intros cs s3 Hs3. repeat swp_step. split.
    + simpl in He. destruct (derive_public_key _); simpl in He; [|done]. by injection He as <-.
    + apply Hfin. etrans; [exact Hs1|]. etrans; [exact Hs2|exact Hs3].
Qed.

Lemma fs_unload_law s n :
  good s ->
  swp (fs_unload_node n)
    (fun _ s' => n ∈ fs_loaded s /\ fs_stored s' (table s) (fs_loaded s ∖ {[n]}))
    (fun e s' => (n ∉ fs_loaded s) /\ file_store_is_fatal e = false /\ fs_stored s' (table s) (fs_loaded s)) s.
Proof.
  intros Hg. pose proof (proj2 (stored_iff s _ _) (conj Hg (conj eq_refl eq_refl))) as Hst. unfold fs_unload_node. swp_step. swp_step.
  case_decide as Hl; swp_step.
  - split; [by apply elem_of_dom|]. split; [apply Hst|]. unfold fs_loaded. simpl. apply leibniz_equiv. intros k.
    rewrite elem_of_difference, elem_of_singleton, !elem_of_dom.
    destruct (decide (k = n)) as [->|Hne]; [rewrite lookup_partial_alter_eq|rewrite lookup_partial_alter_ne by done]; naive_solver.
  - split; [by rewrite <-elem_of_dom in Hl|done].
Qed.

(** A directory of which some files are gone reads as before, or not at all. *)
Lemma lookup_some_of (d : NodeDir) k f t : (list_to_map (some_of k (map_to_list d)) : NodeDir) !! f = Some t -> d !! f = Some t.
Proof.
  intros Hf%elem_of_list_to_map_2. apply elem_of_map_to_list. apply list_elem_of_omap in Hf as ([i x] & Hi & Hx).
  apply elem_of_lookup_imap in Hi as (j & y & [= <- <-] & Hy). simpl in Hx. destruct (Nat.testbit k i); [|done]. injection Hx as ->.
  by eapply list_elem_of_lookup_2.
Qed.
Lemma entry_part local d d' x :
  (forall f t, d' !! f = Some t -> d !! f = Some t) -> entry local d = Some x -> entry local d' = Some x \/ entry local d' = None.
Proof.
  intros Hsub He. assert (forall f, d' !! f = None \/ d' !! f = d !! f) as Hf.
  { intros f. destruct (d' !! f) as [t|] eqn:E; [|by left]. right. symmetry. by apply Hsub. }
  revert He. unfold entry, node_at, local_node, remote_node. destruct local.
  - destruct (Hf NODE_IDENT) as [->| ->]; [by right|]. destruct (Hf NODE_CONFIG) as [->| ->]; [|by left].
    intros _. right. by destruct (parse (A := IdentityFile) _).
  - destruct (Hf APP_IDENT) as [->| ->]; [by right|]. destruct (Hf NODE_INFO) as [->| ->].
    { intros _. right. by destruct (parse (A := IdentityFile) _). }
    destruct (Hf NODE_CONFIG) as [->| ->]; [|by left]. intros _. right.
    destruct (parse (A := IdentityFile) _); [|done]. simpl. by destruct (parse (A := NodeAddressFile B) _).
Qed.

(** What removing the directory of a node on one level does. *)
Definition removal (local : bool) n s (b : bool) s' : Prop :=
  level (negb local) s' = level (negb local) s /\ fs_live_nodes s' = fs_live_nodes s /\
  if b then is_Some (level local s !! n) /\ level local s' = delete n (level local s)
  else level local s' = level local s \/ exists d k, level local s !! n = Some d /\
         level local s' = <[n := list_to_map (some_of k (map_to_list d))]> (level local s).
Lemma swp_remove_dir local n s :
  swp (remove_dir_all io local n) (removal local n s) (fun e s' => fatal e) s.
Proof.
  unfold swp, removal, remove_dir_all. fold (level local s). destruct (io (fs_io s)) as [| |k] eqn:Eio; [|done|];
    destruct (level local s !! n) as [d|] eqn:El; rewrite ?level_done_io.
  - split_and!; [|by destruct local|by eexists|]; rewrite level_put_level; by destruct local.
  - by split_and!; [| |left].
  - unfold put_dir. split_and!; [|by destruct local|right; exists d, k; split; [done|]]; rewrite level_put_level; by destruct local.
  - by split_and!; [| |left].
Qed.
Lemma removal_levels local n s s1 b s' : same_levels s s1 -> removal local n s1 b s' = removal local n s b s'.
Proof. intros (Ht & Hf & Hl). unfold removal. rewrite Hl. destruct local; simpl; by rewrite Ht, Hf. Qed.
(** Without a directory of that name on the level, nothing changes. *)
Lemma removal_absent local n s b s' : removal local n s b s' -> level local s !! n = None -> b = false /\ same_levels s s'.
Proof.
  intros (Ho & Hl & Hb) Hn. destruct b; [destruct Hb as [[d Hd] _]; congruence|]. split; [done|].
  destruct Hb as [Hsame|(d & k & Hd & _)]; [|congruence]. by destruct local.
Qed.
Lemma removal_present local n s b s' d x :
  good s -> level local s !! n = Some d -> entry local d = Some x -> level (negb local) s !! n = None -> removal local n s b s' ->
  if b then fs_stored s' (delete n (table s)) (fs_loaded s)
  else stored_or_lost fs_contents fs_loaded s' (table s) (fs_loaded s).
Proof.
  intros Hg Hd He Hno (Ho & Hl & Hb). destruct b.
  - destruct Hb as [_ Hdel]. by eapply stored_delete.
  - destruct Hb as [Hsame|(d' & k & Hd' & Hpart)].
    + right. eapply stored_levels; [|apply stored_iff; by split_and!]. by destruct local.
    + rewrite Hd in Hd'. injection Hd' as <-. assert (upd local n (list_to_map (some_of k (map_to_list d))) s s') as Hu by done.
      destruct (entry_part local d (list_to_map (some_of k (map_to_list d))) x) as [He'|He']; [apply lookup_some_of|done| |].
      * right. pose proof (stored_upd _ _ _ _ _ _ Hg Hno Hu He') as Hst. rewrite insert_id in Hst; [done|].
        rewrite table_lookup. destruct local; simpl in Hno; rewrite Hd; [by rewrite He|by rewrite Hno].
      * left. by eapply lost_upd.
Qed.

Lemma fs_remove_law s n :
  good s -> regular_name n = true ->
  swp (fs_remove_node io odd_name n)
    (fun _ s' => (n ∉ fs_loaded s) /\ is_Some (table s !! n) /\ fs_stored s' (delete n (table s)) (fs_loaded s))
    (fun e s' => fatal e \/ stored_or_lost fs_contents fs_loaded s' (table s) (fs_loaded s)) s.
Proof.
  intros Hg Hreg. assert (fs_stored s (table s) (fs_loaded s)) as Hst by by apply stored_iff.
  unfold fs_remove_node. swp_step. swp_step. case_decide as Hlive; [swp_step; right; by right|].
  assert (n ∉ fs_loaded s) as Hnot by (unfold fs_loaded; by rewrite elem_of_dom).
  rewrite bool_decide_eq_false_2 by (intros ->; discriminate Hreg). rewrite Hreg. simpl. swp_step. swp_step.
  eapply swp_mono'; [apply swp_remove_dir| |by left]. intros b1 s1 H1. swp_step.
  eapply swp_mono'; [apply swp_remove_dir| |by left]. intros b2 s2 H2. swp_step.
  destruct (table s !! n) as [x|] eqn:Ex.
  - destruct (table_Some _ _ _ Hg Ex) as ([] & d & Hd & He & Hno); simpl in Hno.
    + destruct (removal_absent _ _ _ _ _ H2) as [-> Hs2]; [destruct H1 as [H1 _]; simpl in H1; by rewrite H1|].
      pose proof (removal_present _ _ _ _ _ _ _ Hg Hd He Hno H1) as Hr. destruct b1; simpl; swp_step.
      * split_and!; [done|by eexists|]. by eapply stored_levels.
      * right. destruct Hr as [Hr|Hr]; [left|right; by eapply stored_levels]. by rewrite (contents_levels _ _ Hs2).
    + destruct (removal_absent _ _ _ _ _ H1 Hno) as [-> Hs1]. rewrite (removal_levels _ _ _ _ _ _ Hs1) in H2.
      pose proof (removal_present false _ _ _ _ _ _ Hg Hd He Hno H2) as Hr. destruct b2; simpl; swp_step.
      * split_and!; [done|by eexists|done].
      * by right.
  - pose proof (table_None _ _ Hg Ex) as Hn. destruct (removal_absent _ _ _ _ _ H1 (Hn true)) as [-> Hs1].
    rewrite (removal_levels _ _ _ _ _ _ Hs1) in H2. destruct (removal_absent _ _ _ _ _ H2 (Hn false)) as [-> Hs2]. simpl. swp_step.
    right. right. by eapply stored_levels.
Qed.

Lemma good_read s r : all_read s r -> good s.
Proof.
  intros (Ht & Hf & _).
  assert (forall local d, is_Some (node_at local d) -> is_Some (entry local d)) as Hentry.
  { intros local d [x Hx]. unfold entry. rewrite Hx. simpl.
    destruct x as [x|x]; simpl; [destruct (Hkey (fl_node_private_key x)) as [pk ->]|destruct (Hkey (fr_app_private_key x)) as [pk ->]]; by eexists. }
  split.
  - intros [] n d Hd; apply Hentry; [by apply (Ht n d)|by apply (Hf n d)].
  - intros n. destruct (level true s !! n) as [d|] eqn:E; [|by left]. right. by destruct (Ht n d E).
Qed.
Lemma open_file_store_spec lock s :
  swp (open_file_store io read_dir_ok lock)
    (fun _ s' => lock = true /\ exists m, fs_stored s' m (fs_loaded s))
    (fun _ s' => same_store fs_contents fs_loaded s s') s.
Proof.
  assert (forall s', same_files s s' -> same_store fs_contents fs_loaded s s') as Hsame.
  { intros s' Hs. split; [by apply contents_same|]. unfold fs_loaded. by destruct Hs as (_ & _ & ->). }
  unfold open_file_store. swp_step. eapply swp_mono'; [apply swp_io_step| |intros e s' [_ ?]; by apply Hsame]. intros [] s1 H1.
  swp_step. eapply swp_mono'; [apply swp_io_step| |intros e s' [_ ?]; apply Hsame; by etrans]. intros [] s2 H2.
  pose proof (transitivity H1 H2) as H12. destruct lock; [|swp_step; by apply Hsame]. unfold verify_store. swp_step.
  eapply swp_mono'; [apply swp_read_all| |intros e s' [_ ?]; apply Hsame; by etrans]. intros r s3 [Hr H3]. swp_step. split; [done|].
  exists (table s2). eapply stored_same; [exact H3|]. apply stored_iff. split_and!; [by eapply good_read|done|].
  unfold fs_loaded. by destruct H12 as (_ & _ & ->).
Qed.

(** The store in files keeps every promise that the server relies on. *)
Lemma file_store_laws :
  StoreLaws FileStore FileStoreError B (H := file_store derive_public_key identity_ok io read_dir_ok odd_name) fs_contents fs_loaded.
Proof.
  split.
  - intros s Hlost. eapply swp_mono'; [apply swp_list| |].
    + intros r s' (Hg%goodb_good & _). unfold fs_contents in Hlost. by rewrite Hg in Hlost.
    + intros e s' Hs. by rewrite (contents_same _ _ Hs).
  - intros s m ld Hst. eapply swp_mono'; [apply swp_list| |].
    + intros r s' (_ & -> & Hs). split; [by apply stored_iff in Hst as (_ & -> & _)|by eapply stored_same].
    + intros e s' Hs. exact (stored_same _ _ _ _ Hs Hst).
  - intros s m ld n key (Hg & -> & ->)%stored_iff Hn. by apply fs_create_local_law.
  - intros s m ld n key pk a (Hg & -> & ->)%stored_iff Hn. eapply swp_mono'; [by apply fs_create_remote_law| |done].
    intros [] s' (d & t & Hu & Ht & tk & tc & Hk & Htk & Hc & Htc). destruct (Hkey key) as [apk Hapk]. exists apk.
    eapply (stored_upd false); [done|by apply table_None|exact Hu|]. by eapply entry_created_remote.
  - intros s m ld n x c (Hg & -> & ->)%stored_iff Hn. by apply fs_config_law.
  - intros s m ld n x (Hg & -> & ->)%stored_iff Hn Hl. by apply fs_load_law.
  - intros s m ld n (Hg & -> & ->)%stored_iff. by apply fs_unload_law.
  - intros s m ld n (Hg & -> & ->)%stored_iff Hn _. by apply fs_remove_law.
Qed.
End Theory.

(** C28. The store in files keeps every promise the compact server relies on, whatever
    operations of the file system fail and wherever a write is cut off, as long as
    directories can be listed and every private key has a public key: a created
    node is there, disabled, with the key, the address and no other node changed;
    a failed creation, removal or configuration is either fatal, or changed no
    node, or leaves files that the next listing refuses; loading and unloading
    follow the set of live nodes. Opening the store succeeds only with the lock,
    when all nodes can be read, and never changes them. *)
Theorem file_store_implements_store `{CryptoOps} {B : Type} `{CanonicalSerialize B}
  `{!Json IdentityFile} `{!Json StoredNodeConfig} `{!Json (NodeAddressFile B)}
  `{!JsonLaws IdentityFile} `{!JsonLaws StoredNodeConfig} `{!JsonLaws (NodeAddressFile B)}
  `{!Serde (NodeState B)} `{!Serde CompactState}
  (derive_public_key : PrivateKey -> option PublicKey) (identity_ok : PrivateKey -> bool)
  (io : nat -> IoResult) (read_dir_ok : nat -> bool) (odd_name : NodeName -> FileStore -> FileStore * bool)
  (Hdir : forall n, read_dir_ok n = true) (Hkey : forall k, is_Some (derive_public_key k)) :
  StoreLaws FileStore FileStoreError B (H := file_store derive_public_key identity_ok io read_dir_ok odd_name)
    (fs_contents derive_public_key) fs_loaded /\
  forall lock s,
    swp (open_file_store io read_dir_ok lock)
      (fun _ s' => lock = true /\ exists m, stored (fs_contents derive_public_key) fs_loaded s' m (fs_loaded s))
      (fun _ s' => same_store (fs_contents derive_public_key) fs_loaded s s') s.
Proof.
  split; [by apply file_store_laws|]. intros lock s. by apply open_file_store_spec.
Qed.

Module FileStoreSamples.
Import Toy FunderSamples.

(** A serialization that knows the values of a list, by their positions; a full
    stop ends the text. *)
Section Listed.
Context {A : Type} `{EqDecision A} (known : list A).

Fixpoint stopped (n : nat) : string := match n with O => "."%string | S n => String "1" (stopped n) end.
Fixpoint unstopped (n : nat) : string := match n with O => ""%string | S n => String "1" (unstopped n) end.
Lemma stopped_inj n m : stopped n = stopped m -> n = m.
Proof. revert m. induction n as [|n IH]; intros [|m] [=]; f_equal; auto. Qed.
Lemma stopped_part n k : (k < String.length (stopped n))%nat -> String.substring 0 k (stopped n) = unstopped k.
Proof.
  revert k. induction n as [|n IH]; intros [|k] Hk; simpl in *; [done|lia|done|]. f_equal. apply IH. lia.
Qed.
Lemma unstopped_not n m : unstopped n <> stopped m.
Proof. revert m. induction n as [|n IH]; intros [|m]; simpl; [done..|]. intros [=]. by eapply IH. Qed.

Definition listed_write (a : A) : option string := stopped ∘ fst <$> list_find (eq a) known.
Definition listed : Json A := {|
  to_string := listed_write;
  from_string t := snd <$> list_find (fun a => listed_write a = Some t) known
|}.
Lemma listed_write_Some a t : listed_write a = Some t -> exists i, known !! i = Some a /\ t = stopped i.
Proof. intros ([i a'] & Hf & ->)%fmap_Some. apply list_find_Some in Hf as (Hk & -> & _). by exists i. Qed.
Lemma listed_laws : @JsonLaws A listed.
Proof.
  split.
  - intros a t Ht. cbn in *. destruct (listed_write_Some _ _ Ht) as (i & Hi & ->).
    destruct (list_find_elem_of (fun a => listed_write a = Some (stopped i)) known a) as [[j a'] Hf];
      [by eapply list_elem_of_lookup_2|done|].
    rewrite Hf. apply list_find_Some in Hf as (Hj & Hs' & _).
    destruct (listed_write_Some _ _ Hs') as (k & Hk & ->%stopped_inj). cbn. congruence.
  - intros a t k Ht Hk. cbn in *. destruct (listed_write_Some _ _ Ht) as (i & _ & ->). rewrite stopped_part by done.
    destruct (list_find _ known) as [[j a']|] eqn:Hf; [|done]. apply list_find_Some in Hf as (_ & Ha' & _).
    destruct (listed_write_Some _ _ Ha') as (i' & _ & Hi'). by apply unstopped_not in Hi'.
Qed.
End Listed.

#[global] Instance IdentityFile_eq_dec : EqDecision IdentityFile.
Proof. solve_decision. Defined.
#[global] Instance StoredNodeConfig_eq_dec : EqDecision StoredNodeConfig.
Proof. solve_decision. Defined.
#[global] Instance NodeAddressFile_eq_dec {B} `{EqDecision B} : EqDecision (NodeAddressFile B).
Proof. solve_decision. Defined.

(** The keys of two nodes; a public key is its private key. *)
Definition keys : list IdentityFile := [mkIdentityFile alice; mkIdentityFile bob].
Definition configs : list StoredNodeConfig := [mkStoredNodeConfig false; mkStoredNodeConfig true].
Definition addresses : list (NodeAddressFile string) := [mkNodeAddressFile alice "host"%string].
#[export] Instance json_identity : Json IdentityFile := listed keys.
#[export] Instance json_config : Json StoredNodeConfig := listed configs.
#[export] Instance json_address : Json (NodeAddressFile string) := listed addresses.
#[export] Instance json_identity_laws : JsonLaws IdentityFile := listed_laws keys.
#[export] Instance json_config_laws : JsonLaws StoredNodeConfig := listed_laws configs.
#[export] Instance json_address_laws : JsonLaws (NodeAddressFile string) := listed_laws addresses.
#[export] Instance serde_node : Serde (NodeState string) := NodeSamples.plain_serde.
#[export] Instance serde_compact : Serde CompactState := CompactStoreSamples.positions [compact_state_new].

Definition public (k : PrivateKey) : option PublicKey := Some k.
Definition any_key (k : PrivateKey) : bool := true.
Definition readable (n : nat) : bool := true.
Definition odd (n : NodeName) (s : FileStore) : FileStore * bool := (s, false).
Definition no_files : FileStore := mkFileStore None None ∅ 0.
(** The tenth operation is cut off. *)
Definition cut (n : nat) : IoResult := if (n =? 9)%nat then IoFail 1 else IoOk.

Lemma file_store_implements_store_witness :
  StoreLaws FileStore FileStoreError string (H := file_store public any_key cut readable odd) (fs_contents public) fs_loaded /\
  swp (open_file_store cut readable true)
    (fun _ s' => true = true /\ exists m, stored (fs_contents public) fs_loaded s' m (fs_loaded no_files))
    (fun _ s' => same_store (fs_contents public) fs_loaded no_files s') no_files.
Proof.
  destruct (file_store_implements_store public any_key cut readable odd) as [Hlaws Hopen].
  - reflexivity.
  - intros k. by eexists.
  - split; [exact Hlaws|]. exact (Hopen true no_files).
Defined.

(** Two nodes are created and listed, the third creation is cut off: its error is
    fatal, and afterwards the nodes cannot be listed. *)
Definition two : SM FileStore FileStoreError unit :=
  let$ _ := fs_create_local_node (B := string) public (fun _ => IoOk) "home" alice in
  fs_create_remote_node (fun _ => IoOk) "far" bob alice "host"%string.
Definition two_files : FileStore := (two no_files).1.
Lemma two_listed :
  (two no_files).2 = Ok tt /\
  (fs_list_nodes (B := string) public (fun _ => IoOk) readable two_files).2 =
    Ok {["home"%string := mkStoredNode (InfoLocal alice) (mkStoredNodeConfig false);
         "far"%string := mkStoredNode (InfoRemote bob alice "host"%string) (mkStoredNodeConfig false)]}.
Proof. split; vm_compute; reflexivity. Qed.

Definition third : FileStore * outcome FileStoreError unit :=
  fs_create_local_node (B := string) public (fun n => if (n =? 14)%nat then IoFail 1 else IoOk) "third" bob two_files.
Lemma interrupted_creation_blocks_listing :
  (exists e, third.2 = Err e /\ file_store_is_fatal e = true) /\
  (fs_list_nodes (B := string) public (fun _ => IoOk) readable third.1).2 = Err FsIoError.
Proof. split; [by eexists|]. vm_compute; reflexivity. Qed.

(** The empty name is not checked when a node is removed: all nodes are gone. *)
Lemma empty_name_removes_all :
  let r := fs_remove_node (fun _ => IoOk) odd "" two_files in
  r.2 = Ok tt /\ (fs_list_nodes (B := string) public (fun _ => IoOk) readable r.1).2 = Ok ∅.
Proof. split; vm_compute; reflexivity. Qed.

(** A directory that cannot be listed reads as an empty one. *)
Lemma unreadable_is_empty :
  (fs_list_nodes (B := string) public (fun _ => IoOk) (fun _ => false) two_files).2 = Ok ∅.
Proof. vm_compute; reflexivity. Qed.
End FileStoreSamples.
