(* ===== verification/CompactServerSamples.v ===== *)
(** * The compact server on its files

    The theorems about the compact server, which are proved for any store, hold for
    the server that keeps its nodes in files; runs of that server. *)

From S2P Require Import Prelude Arith Bytes Messages Canonical FunderState Report FunderHandler IndexMessages IndexClient AppServer.
From S2P Require Import Effects Database Node CompactMessages CompactConvert CompactStore Store CompactServer CompactServerTheory.
From S2P Require Import FileStore FileStoreTheory.
Import Toy FunderSamples FileStoreSamples.

Module CompactServerSamples.
Definition all_ok (n : nat) : bool := true.
Definition every_io (n : nat) : IoResult := IoOk.
#[local] Instance the_store : Store FileStore FileStoreError string := file_store public any_key every_io readable odd.
#[local] Instance the_laws : StoreLaws FileStore FileStoreError string (fs_contents public) fs_loaded.
Proof. apply file_store_laws; [done|]. intros k. by eexists. Qed.

Definition gen_key (n : nat) : PrivateKey := alice.
Definition report : option (NodeReport string) := Some (create_node_report (NodeSamples.with_parts [] [])).
Definition the_compact_report : CompactReport string :=
  create_compact_report compact_state_new (create_node_report (NodeSamples.with_parts [] [])).
Notation serve events := (inner_server_loop all_ok gen_key (fun _ => report) true events (server_state_new no_files 4) []).

Definition ask (b : Byte.byte) (m : UserToServer string) : ServerEvent string := SvUser (mkUserToServerAck (uid_of b) m).
Definition to_node (id : NodeId) : UserToServer string := UsNode id (UcRemoveRelay bob).
(** A local and a remote node are created, enabled and opened. *)
Definition opening : list (ServerEvent string) :=
  [ask Byte.x01 (UsCreateNode (CreateNodeLocal "home")); ask Byte.x02 (UsCreateNode (CreateNodeRemote "far" bob alice "host"%string));
   ask Byte.x03 (UsEnableNode "home"); ask Byte.x04 (UsEnableNode "far"); SvTimerTick;
   SvNodeConnected "far" (Some (mkRemoteNodeOpened (mkAppPermissions true true true true) the_compact_report))].
(** Both answer, the remote one closes while a request waits, and the local one is
    disabled while another one waits, and removed. *)
Definition events : list (ServerEvent string) :=
  opening ++
  [ask Byte.x05 (to_node 0); ask Byte.x06 (to_node 1); SvCompactNode 0 (Some (Ack (uid_of Byte.x05))); SvCompactNode 1 None;
   ask Byte.x07 (to_node 0); ask Byte.x08 (UsDisableNode "home"); ask Byte.x09 (UsRemoveNode "home")].
Definition final : option (ServerState FileStore string * list (ServerAction string)) :=
  match serve events with EOk _ s l => Some (s, l) | _ => None end.
Definition last_state : ServerState FileStore string := from_option fst (server_state_new no_files 4) final.
Definition log : list (ServerAction string) := from_option snd [] final.

Lemma run_ends : serve events = EOk tt last_state log.
Proof.
  unfold last_state, log, final. destruct (serve events) as [[] s l|e s l|] eqn:E; [reflexivity| |];
    apply (f_equal (fun r => match r with EOk _ _ _ => true | _ => false end)) in E; revert E; vm_compute; discriminate.
Qed.
Lemma nothing_stored : stored (fs_contents public) fs_loaded no_files (∅ : gmap NodeName (StoredNode string)) ∅.
Proof. split; vm_compute; reflexivity. Qed.

Lemma user_view_current_witness :
  exists nodes', stored (fs_contents public) fs_loaded (sv_store last_state) nodes'
      (open_names (sv_open_nodes last_state) ∪ dom (sv_pre_open_nodes last_state)) /\ view log = status_of last_state nodes'.
Proof.
  pose proof (user_view_current (fs_contents public) fs_loaded all_ok gen_key (fun _ => report) no_files ∅ 4 events nothing_stored
    ltac:(vm_compute; reflexivity) ltac:(vm_compute; reflexivity)) as H.
  rewrite run_ends in H. destruct H as (nodes' & Hst & Hv & _). exact (ex_intro _ nodes' (conj Hst Hv)).
Defined.

Lemma none_waits o r : o = ∅ -> ~ waits o r.
Proof. intros -> (id & x & Hx & _). by rewrite lookup_empty in Hx. Qed.
(** The requests [1] to [6], [8] and [9] were acknowledged; [7] was dropped when its
    node was disabled. *)
Lemma requests_accounted_witness :
  acked log = map uid_of [Byte.x01; Byte.x02; Byte.x03; Byte.x04; Byte.x05; Byte.x06; Byte.x08; Byte.x09] /\
  exists s0 l0, server_events all_ok gen_key (fun _ => report) events s0 l0 = EOk tt last_state log /\
    uid_of Byte.x07 ∈ dropped_in all_ok gen_key (fun _ => report) events s0 l0.
Proof.
  assert (acked log = map uid_of [Byte.x01; Byte.x02; Byte.x03; Byte.x04; Byte.x05; Byte.x06; Byte.x08; Byte.x09]) as Hlog
    by (apply (bool_decide_unpack _); vm_compute; exact I).
  split; [exact Hlog|].
  destruct (requests_accounted (fs_contents public) fs_loaded all_ok gen_key (fun _ => report) no_files ∅ 4 events last_state log
    nothing_stored ltac:(vm_compute; reflexivity) ltac:(vm_compute; reflexivity) run_ends) as (s0 & l0 & _ & Hrun & Hall & _).
  exists s0, l0. split; [exact Hrun|]. destruct (Hall (uid_of Byte.x07)) as [Ha|[Hw|Hd]]; [| | |exact Hd].
  - apply (bool_decide_unpack _). vm_compute. exact I.
  - exfalso. rewrite Hlog in Ha. revert Ha. apply (bool_decide_unpack _). vm_compute. exact I.
  - exfalso. revert Hw. apply none_waits. vm_compute. reflexivity.
Defined.

(** A request number used twice at a node: the second acknowledgement ends the
    server with a panic. *)
Lemma reused_request_panics :
  serve (opening ++ [ask Byte.x05 (to_node 0); ask Byte.x05 (to_node 0); SvCompactNode 0 (Some (Ack (uid_of Byte.x05)));
                     SvCompactNode 0 (Some (Ack (uid_of Byte.x05)))]) = EPanic.
Proof. vm_compute. reflexivity. Qed.

(** A request to remove the node without a name removes all of them, also those
    that are open. *)
Lemma empty_name_removes_open_nodes :
  match serve (opening ++ [ask Byte.x0a (UsRemoveNode "")]) with
  | EOk _ s l => fs_contents (B := string) public (sv_store s) = Some ∅ /\ size (sv_open_nodes s) = 2%nat /\ view l = ∅
  | _ => False
  end.
Proof. vm_compute. auto. Qed.
End CompactServerSamples.
