(* ===== verification/Timer.v ===== *)
(** * The timer service ([timer/src/timer.rs])

    A loop that passes every tick of a clock on to all its clients, each through a
    channel of its own. A client that is gone, or does not read its ticks, is
    disconnected; the theorems show that it does not disturb the others. *)

From S2P Require Import Prelude.

(** [mpsc::channel(TICK_QUEUE_LEN)] of the crate [futures]: a channel holds as many
    messages as its buffer and one more for each sender. *)
Definition TICK_QUEUE_LEN : nat := 8.
Record TickChannel := mkTickChannel { tk_unread : nat; tk_received : nat; tk_receiver : bool }.
Definition channel_new (receiver : bool) : TickChannel := mkTickChannel 0 0 receiver.
Definition accepts_tick (ch : TickChannel) : bool := tk_receiver ch && (tk_unread ch <=? TICK_QUEUE_LEN)%nat.
Definition push_tick (ch : TickChannel) : TickChannel := mkTickChannel (S (tk_unread ch)) (tk_received ch) (tk_receiver ch).

Record ClientEntry := mkClientEntry { ce_task_name : string; ce_sender : nat }.
(** The state of the loop, with the channels it has made, which are named by their
    positions. *)
Record TimerLoop := mkTimerLoop {
  tl_client_entries : list ClientEntry;
  tl_requests_done : bool;
  tl_channels : list TickChannel
}.
Definition timer_loop_new : TimerLoop := mkTimerLoop [] false [].

(** [try_send] *)
Definition try_send (c : nat) (chs : list TickChannel) : option (list TickChannel) :=
  ch ← chs !! c; if accepts_tick ch then Some (<[c := push_tick ch]> chs) else None.
(** A tick: clients that cannot take it are dropped. *)
Fixpoint tick_clients (entries : list ClientEntry) (chs : list TickChannel) : list ClientEntry * list TickChannel :=
  match entries with
  | [] => ([], chs)
  | e :: entries' =>
      match try_send (ce_sender e) chs with
      | Some chs' => let '(kept, chs'') := tick_clients entries' chs' in (e :: kept, chs'')
      | None => tick_clients entries' chs
      end
  end.

(** [waiting] is whether the client still waits for its response. *)
Inductive TimerEvent := TmIncoming | TmIncomingDone | TmRequest (task_name : string) (waiting : bool) | TmRequestsDone.

(** One event; [false] when the loop ends. *)
Definition timer_step (e : TimerEvent) (s : TimerLoop) : TimerLoop * bool :=
  match e with
  | TmIncomingDone => (s, false)
  | _ =>
      let s := (match e with
        | TmIncoming =>
            let '(kept, chs) := tick_clients (tl_client_entries s) (tl_channels s) in mkTimerLoop kept (tl_requests_done s) chs
        | TmRequest task_name waiting =>
            mkTimerLoop (tl_client_entries s ++ [mkClientEntry task_name (length (tl_channels s))]) (tl_requests_done s)
              (tl_channels s ++ [channel_new waiting])
        | _ => mkTimerLoop (tl_client_entries s) true (tl_channels s)
        end) in
      (s, negb (tl_requests_done s && bool_decide (tl_client_entries s = [])))
  end.

(** What happens: an event of the loop, or a client reads a tick or drops its receiver. *)
Inductive TimerInput := TmEvent (e : TimerEvent) | TmRead (c : nat) | TmDrop (c : nat).
Definition read_tick (ch : TickChannel) : TickChannel :=
  match tk_unread ch with
  | O => ch
  | S n => mkTickChannel n (S (tk_received ch)) (tk_receiver ch)
  end.
Definition drop_receiver (ch : TickChannel) : TickChannel := mkTickChannel 0 (tk_received ch) false.
Definition on_channels (f : list TickChannel -> list TickChannel) (s : TimerLoop) : TimerLoop :=
  mkTimerLoop (tl_client_entries s) (tl_requests_done s) (f (tl_channels s)).
(** [timer_loop] with its clients; the state and whether the loop still runs. When
    it ends all senders are dropped. *)
Fixpoint timer_loop (inputs : list TimerInput) (s : TimerLoop) : TimerLoop * bool :=
  match inputs with
  | [] => (s, true)
  | TmRead c :: inputs' => timer_loop inputs' (on_channels (alter read_tick c) s)
  | TmDrop c :: inputs' => timer_loop inputs' (on_channels (alter drop_receiver c) s)
  | TmEvent e :: inputs' => let '(s', go_on) := timer_step e s in if go_on then timer_loop inputs' s' else (s', false)
  end.

(** ** The service of one client *)

(** What one client sees, without any others: [None] before its request. *)
Record Client := mkClient { cl_channel : TickChannel; cl_connected : bool }.
Definition client_step (c : nat) (i : TimerInput) (x : nat * option Client) : nat * option Client :=
  let '(made, client) := x in
  match i with
  | TmEvent (TmRequest _ waiting) =>
      (S made, if bool_decide (made = c) then Some (mkClient (channel_new waiting) true) else client)
  | TmEvent TmIncoming =>
      (made, (fun k => if cl_connected k && accepts_tick (cl_channel k) then mkClient (push_tick (cl_channel k)) true
                       else mkClient (cl_channel k) false) <$> client)
  | TmRead c' => (made, if bool_decide (c' = c) then (fun k => mkClient (read_tick (cl_channel k)) (cl_connected k)) <$> client else client)
  | TmDrop c' => (made, if bool_decide (c' = c) then (fun k => mkClient (drop_receiver (cl_channel k)) (cl_connected k)) <$> client else client)
  | _ => (made, client)
  end.
Definition client_view (c : nat) (inputs : list TimerInput) : option Client := (foldl (fun x i => client_step c i x) (0%nat, None) inputs).2.

Definition connected (s : TimerLoop) (c : nat) : bool := bool_decide (c ∈ map ce_sender (tl_client_entries s)).
Definition served (s : TimerLoop) (c : nat) : option Client := (fun ch => mkClient ch (connected s c)) <$> tl_channels s !! c.

(** Every sender is the only one of its channel. *)
Definition timer_ok (s : TimerLoop) : Prop :=
  NoDup (map ce_sender (tl_client_entries s)) /\ Forall (fun c => (c < length (tl_channels s))%nat) (map ce_sender (tl_client_entries s)).

Lemma try_send_Some c chs chs' :
  try_send c chs = Some chs' <-> exists ch, chs !! c = Some ch /\ accepts_tick ch = true /\ chs' = <[c := push_tick ch]> chs.
Proof.
  unfold try_send. split.
  - destruct (chs !! c) as [ch|]; simpl; [|done]. destruct (accepts_tick ch) eqn:E; [|done]. intros [= <-]. by exists ch.
  - intros (ch & -> & Ha & ->). simpl. by rewrite Ha.
Qed.

Lemma tick_clients_spec entries chs kept chs' :
  tick_clients entries chs = (kept, chs') -> NoDup (map ce_sender entries) ->
  Forall (fun c => (c < length chs)%nat) (map ce_sender entries) ->
  kept `sublist_of` entries /\ length chs' = length chs /\
  forall c ch, chs !! c = Some ch ->
    chs' !! c = Some (if bool_decide (c ∈ map ce_sender entries) && accepts_tick ch then push_tick ch else ch) /\
    (c ∈ map ce_sender kept <-> c ∈ map ce_sender entries /\ accepts_tick ch = true).
Proof.
  revert chs kept chs'. induction entries as [|e entries IH]; intros chs kept chs' Ht Hnd Hlt; cbn [map tick_clients] in *.
  { injection Ht as <- <-. split_and!; [done..|]. intros c ch Hch. rewrite bool_decide_eq_false_2 by apply not_elem_of_nil.
    split; [done|]. set_solver. }
  apply NoDup_cons in Hnd as [Hn Hnd]. apply Forall_cons in Hlt as [Hl Hlt].
  destruct (try_send (ce_sender e) chs) as [chs1|] eqn:Es.
  - apply try_send_Some in Es as (ch0 & Hc0 & Ha0 & ->). destruct (tick_clients entries _) as [kept1 chs2] eqn:Et. injection Ht as <- <-.
    destruct (IH _ _ _ Et Hnd) as (Hsub & Hlen & Hspec); [by rewrite length_insert|]. rewrite length_insert in Hlen.
    split_and!; [by apply sublist_skip|done|]. intros c ch Hch. cbn [map]. destruct (decide (c = ce_sender e)) as [->|Hne].
    + rewrite Hc0 in Hch. injection Hch as <-. destruct (Hspec (ce_sender e) (push_tick ch0)) as [Hc Hk].
      { by rewrite list_lookup_insert_eq. }
      rewrite bool_decide_eq_false_2 in Hc by done. simpl in Hc. rewrite Hc, bool_decide_eq_true_2, Ha0 by by left. set_solver.
    + destruct (Hspec c ch) as [Hc Hk]; [by rewrite list_lookup_insert_ne|]. rewrite Hc. split.
      * f_equal. by rewrite (bool_decide_ext (c ∈ map ce_sender entries) (c ∈ ce_sender e :: map ce_sender entries)) by set_solver.
      * set_solver.
  - destruct (IH _ _ _ Ht Hnd Hlt) as (Hsub & Hlen & Hspec). split_and!; [by apply sublist_cons|done|].
    intros c ch Hch. destruct (Hspec c ch Hch) as [Hc Hk]. rewrite Hc. destruct (decide (c = ce_sender e)) as [->|Hne].
    + assert (accepts_tick ch = false) as Ha.
      { destruct (accepts_tick ch) eqn:E; [|done]. unfold try_send in Es. by rewrite Hch in Es; simpl in Es; rewrite E in Es. }
      rewrite Ha, !andb_false_r in *. split; [done|]. set_solver.
    + split; [|set_solver]. f_equal. by rewrite (bool_decide_ext (c ∈ map ce_sender entries) (c ∈ ce_sender e :: map ce_sender entries)) by set_solver.
Qed.

(** One input, while the loop runs. *)
Definition input_step (i : TimerInput) (s : TimerLoop) : TimerLoop * bool :=
  match i with
  | TmEvent e => timer_step e s
  | TmRead c => (on_channels (alter read_tick c) s, true)
  | TmDrop c => (on_channels (alter drop_receiver c) s, true)
  end.
Lemma timer_loop_cons i inputs s :
  timer_loop (i :: inputs) s = let '(s', go_on) := input_step i s in if go_on then timer_loop inputs s' else (s', false).
Proof. by destruct i. Qed.

Lemma served_alter f c c' s :
  served (on_channels (alter f c') s) c =
    if bool_decide (c' = c) then (fun k => mkClient (f (cl_channel k)) (cl_connected k)) <$> served s c else served s c.
Proof.
  unfold served, connected. simpl. destruct (decide (c' = c)) as [->|Hne].
  - rewrite list_lookup_alter_eq, (bool_decide_eq_true_2 (c = c)) by done. by destruct (tl_channels s !! c).
  - by rewrite list_lookup_alter_ne, (bool_decide_eq_false_2 (c' = c)) by done.
Qed.

Lemma input_step_spec i s s' go_on c :
  timer_ok s -> input_step i s = (s', go_on) ->
  timer_ok s' /\ client_step c i (length (tl_channels s), served s c) = (length (tl_channels s'), served s' c).
Proof.
  intros [Hnd Hlt] Hs. destruct i as [e|c'|c'].
  - destruct e as [| |tn w|]; simpl in Hs.
    + destruct (tick_clients _ _) as [kept chs] eqn:Et. injection Hs as <- _. cbn [tl_client_entries tl_channels].
      destruct (tick_clients_spec _ _ _ _ Et Hnd Hlt) as (Hsub & Hlen & Hspec). split.
      * split; cbn [tl_client_entries tl_channels].
        -- eapply sublist_NoDup; [exact Hnd|]. by apply (fmap_sublist ce_sender).
        -- rewrite Hlen. rewrite Forall_forall in *. intros x Hx. apply Hlt.
           eapply elem_of_sublist; [exact Hx|]. by apply (fmap_sublist ce_sender).
      * unfold client_step. f_equal; [by rewrite Hlen|]. unfold served, connected. cbn [tl_client_entries tl_channels].
        destruct (tl_channels s !! c) as [ch|] eqn:Ech; simpl.
        -- destruct (Hspec c ch Ech) as [Hc Hk]. rewrite Hc. simpl.
           rewrite (bool_decide_ext _ _ Hk). destruct (bool_decide (c ∈ map ce_sender (tl_client_entries s))) eqn:Eb; simpl.
           ++ apply bool_decide_eq_true in Eb. destruct (accepts_tick ch); simpl; [by rewrite bool_decide_eq_true_2|].
              rewrite bool_decide_eq_false_2; [done|]. naive_solver.
           ++ apply bool_decide_eq_false in Eb. rewrite bool_decide_eq_false_2; [done|]. naive_solver.
        -- rewrite (proj2 (lookup_ge_None chs c)); [done|]. rewrite Hlen. by apply lookup_ge_None.
    + injection Hs as <- _. by split.
    + injection Hs as <- _. unfold timer_ok, served, connected. cbn [tl_client_entries tl_channels].
      rewrite map_app, length_app, Nat.add_1_r. simpl. split.
      * split; [apply NoDup_app; split_and!; [done| |apply NoDup_singleton]|apply Forall_app; split].
        -- intros x Hx Hin%list_elem_of_singleton. rewrite Forall_forall in Hlt. specialize (Hlt x Hx). lia.
        -- eapply Forall_impl; [exact Hlt|]. simpl. lia.
        -- constructor; [simpl; lia|constructor].
      * f_equal. destruct (decide (length (tl_channels s) = c)) as [<-|Hne].
        -- rewrite bool_decide_eq_true_2 by done. rewrite lookup_app_r, Nat.sub_diag by done. simpl.
           rewrite bool_decide_eq_true_2; [done|]. set_solver.
        -- rewrite bool_decide_eq_false_2 by done. destruct (decide (c < length (tl_channels s))%nat) as [Hl|Hl].
           ++ rewrite lookup_app_l by done. by rewrite (bool_decide_ext (c ∈ map ce_sender (tl_client_entries s) ++ [length (tl_channels s)])
                (c ∈ map ce_sender (tl_client_entries s))) by set_solver.
           ++ rewrite (proj2 (lookup_ge_None (tl_channels s) c)) by lia.
              by rewrite (proj2 (lookup_ge_None (tl_channels s ++ _) c)) by (rewrite length_app; simpl; lia).
    + injection Hs as <- _. by split.
  - injection Hs as <- _. split; [split; [done|]; simpl; by rewrite length_alter|].
    rewrite served_alter. simpl. by rewrite length_alter.
  - injection Hs as <- _. split; [split; [done|]; simpl; by rewrite length_alter|].
    rewrite served_alter. simpl. by rewrite length_alter.
Qed.

Lemma served_new c : served timer_loop_new c = None.
Proof. done. Qed.
Lemma run_served inputs s c made s' go_on :
  timer_ok s -> made = length (tl_channels s) -> timer_loop inputs s = (s', go_on) ->
  exists seen, seen `prefix_of` inputs /\ (go_on = true -> seen = inputs) /\
    (foldl (fun x i => client_step c i x) (made, served s c) seen).2 = served s' c.
Proof.
  revert s made. induction inputs as [|i inputs IH]; intros s made Hok -> Hrun.
  { injection Hrun as <- <-. by exists []. }
  rewrite timer_loop_cons in Hrun. destruct (input_step i s) as [s1 go1] eqn:Es.
  destruct (input_step_spec _ _ _ _ c Hok Es) as [Hok1 Hc]. destruct go1.
  - destruct (IH s1 _ Hok1 eq_refl Hrun) as (seen & Hp & Hall & Hv). exists (i :: seen). split_and!.
    + by apply prefix_cons.
    + intros Hg. by rewrite (Hall Hg).
    + cbn [foldl]. by rewrite Hc.
  - injection Hrun as <- <-. exists [i]. split_and!; [by apply prefix_cons, prefix_nil|done|]. cbn [foldl]. by rewrite Hc.
Qed.
Lemma timer_ok_new : timer_ok timer_loop_new.
Proof. split; constructor. Qed.

Lemma timer_isolates inputs c s : timer_loop inputs timer_loop_new = (s, true) -> served s c = client_view c inputs.
Proof.
  intros Hrun. destruct (run_served _ _ c _ _ _ timer_ok_new eq_refl Hrun) as (seen & _ & Hall & Hv). by rewrite <-(Hall eq_refl).
Qed.

(** The timer serves every client as if it were the only one: while the loop
    runs, the channel of a client and whether the client is still connected are
    what its own request, reads and the ticks of the clock give, whatever the other
    clients do; a client that is too slow or gone disturbs no other. When the loop
    has ended, the same holds for the events up to its end. *)
Theorem timer_isolates_clients (inputs : list TimerInput) (c : nat) :
  let '(s, go_on) := timer_loop inputs timer_loop_new in
  exists seen, seen `prefix_of` inputs /\ (go_on = true -> seen = inputs) /\ served s c = client_view c seen.
Proof.
  destruct (timer_loop inputs timer_loop_new) as [s go_on] eqn:Hrun.
  destruct (run_served _ _ c _ _ _ timer_ok_new eq_refl Hrun) as (seen & Hp & Hall & Hv). exists seen. by split_and!.
Qed.

(** The ticks since the request of a client. *)
Definition ticks_since_step (c : nat) (i : TimerInput) (x : nat * nat) : nat * nat :=
  let '(made, ticks) := x in
  match i with
  | TmEvent (TmRequest _ _) => (S made, if bool_decide (made = c) then 0 else ticks)%nat
  | TmEvent TmIncoming => (made, S ticks)
  | _ => (made, ticks)
  end.
Definition ticks_since (c : nat) (inputs : list TimerInput) : nat := (foldl (fun x i => ticks_since_step c i x) (0%nat, 0%nat) inputs).2.

(** The client waits for the response to its request and keeps its receiver, and at
    every tick at most [TICK_QUEUE_LEN] ticks are unread. *)
Fixpoint keeps_up (c : nat) (inputs : list TimerInput) (x : nat * option Client) : Prop :=
  match inputs with
  | [] => True
  | i :: inputs' =>
      (match i with
       | TmEvent (TmRequest _ waiting) => x.1 = c -> waiting = true
       | TmEvent TmIncoming => forall k, x.2 = Some k -> (tk_unread (cl_channel k) <= TICK_QUEUE_LEN)%nat
       | TmDrop c' => c' <> c
       | _ => True
       end) /\ keeps_up c inputs' (client_step c i x)
  end.

Definition on_time (c made : nat) (k : option Client) (ticks : nat) : Prop :=
  match k with
  | Some k => (c < made)%nat /\ cl_connected k = true /\ tk_receiver (cl_channel k) = true /\
      (tk_received (cl_channel k) + tk_unread (cl_channel k) = ticks)%nat
  | None => (made <= c)%nat
  end.
Lemma on_time_step c i made k ticks :
  on_time c made k ticks -> keeps_up c [i] (made, k) ->
  let x := client_step c i (made, k) in let y := ticks_since_step c i (made, ticks) in
  x.1 = y.1 /\ on_time c x.1 x.2 y.2.
Proof.
  intros Hk [Hi _]. destruct i as [[| |tn w|]|c'|c'].
  - simpl. split; [done|]. destruct k as [k|]; [|exact Hk]. simpl. destruct Hk as (Hc & Hcon & Hr & Hsum).
    specialize (Hi k eq_refl). unfold accepts_tick. rewrite Hcon, Hr. apply Nat.leb_le in Hi. rewrite Hi. simpl. split_and!; [done..|lia].
  - by split.
  - simpl in *. split; [done|]. case_bool_decide as Hm.
    + split_and!; [lia|done|by apply Hi|done].
    + destruct k as [k|]; simpl in *; [|lia]. destruct Hk as (Hc & Hk). split; [lia|done].
  - by split.
  - simpl. split; [done|]. case_bool_decide; [|exact Hk]. destruct k as [k|]; [|exact Hk]. simpl in *.
    destruct Hk as (Hc & Hcon & Hr & Hsum). unfold read_tick. destruct (tk_unread (cl_channel k)) as [|n] eqn:E; simpl; rewrite ?E; split_and!; done || lia.
  - simpl in *. rewrite bool_decide_eq_false_2 by done. by split.
Qed.

(** No tick is lost for a client that keeps up: as long as it keeps its receiver
    and has at most [TICK_QUEUE_LEN] unread ticks whenever the clock ticks, it
    stays connected, and the ticks it has read and those that wait for it are all
    the ticks since its request. *)
Theorem timer_complete (inputs : list TimerInput) (c : nat) (s : TimerLoop) (ch : TickChannel)
  (Hrun : timer_loop inputs timer_loop_new = (s, true)) (Hc : tl_channels s !! c = Some ch)
  (Hkeep : keeps_up c inputs (0%nat, None)) :
  connected s c = true /\ (tk_received ch + tk_unread ch = ticks_since c inputs)%nat.
Proof.
  pose proof (timer_isolates inputs c s Hrun) as Hs.
  assert (forall js made k ticks, on_time c made k ticks -> keeps_up c js (made, k) ->
    on_time c (foldl (fun x i => client_step c i x) (made, k) js).1 (foldl (fun x i => client_step c i x) (made, k) js).2
      (foldl (fun x i => ticks_since_step c i x) (made, ticks) js).2) as Hall.
  { induction js as [|i js IH]; intros made k ticks Hot Hk; [exact Hot|]. destruct Hk as [Hi Hk].
    destruct (on_time_step c i made k ticks Hot (conj Hi I)) as [Hmade Hot'].
    cbn [foldl]. destruct (client_step c i (made, k)) as [made1 k1], (ticks_since_step c i (made, ticks)) as [made2 ticks2].
    simpl in Hmade. subst made2. by apply IH. }
  specialize (Hall inputs 0%nat None 0%nat (Nat.le_0_l _) Hkeep). fold (client_view c inputs) (ticks_since c inputs) in Hall.
  rewrite <-Hs in Hall. unfold served in Hall. rewrite Hc in Hall. simpl in Hall. by destruct Hall as (_ & Hcon & _ & Hsum).
Qed.


Module TimerSamples.
(** A client that reads every tick, and one that reads none and is disconnected at
    the tenth tick, with nine ticks unread. *)
Definition ticks_and_reads (n : nat) : list TimerInput := concat (replicate n [TmEvent TmIncoming; TmRead 0]).
Definition inputs : list TimerInput :=
  TmEvent (TmRequest "reader" true) :: TmEvent (TmRequest "sleeper" true) :: ticks_and_reads 12.
Definition final : TimerLoop := (timer_loop inputs timer_loop_new).1.

Lemma timer_complete_witness : connected final 0 = true /\ ticks_since 0 inputs = 12%nat.
Proof.
  split; [|reflexivity]. apply (timer_complete inputs 0 final (mkTickChannel 0 12 true)); [reflexivity|reflexivity|].
  vm_compute. repeat split; try discriminate; intros k [= <-]; simpl; lia.
Defined.
Lemma sleeper_disconnected : served final 1 = Some (mkClient (mkTickChannel 9 0 true) false).
Proof. vm_compute. reflexivity. Qed.
End TimerSamples.
