(* ===== verification/AppConnect.v ===== *)
(** * Connections of applications ([bin/src/stnode], [app_client/src/connect.rs])

    A node admits the applications it has a file for and serves each over its
    connection; an application reads its permissions and the report of the node and
    then exchanges messages. Both ends are composed with the server of applications:
    a remote application follows the state of the funder. *)

From S2P Require Import Prelude Arith Bytes Messages Canonical FunderState Report Handler FunderHandler.
From S2P Require Import IndexMessages IndexClient AppServer AppServerTheory SecureChannel Effects.
From S2P Require Import CompactMessages CompactConvert Store CompactServer FileStore.

(** ** Trusted applications ([file_trusted_apps.rs]) *)

(** [TrustedAppFile] of [proto/src/file.rs] *)
Record TrustedAppFile := mkTrustedAppFile { ta_public_key : PublicKey; ta_permissions : AppPermissions }.
Inductive FileTrustedAppsError := AsyncStdIoError | StringSerdeError.
(** An entry of the directory: it cannot be read, is a directory, or a file with a
    content that may not be readable. *)
Inductive DirEntry := EntryError | EntryDir | EntryFile (content : option string).

Section TrustedApps.
Context `{!Json TrustedAppFile}.

Fixpoint load_entries (entries : list DirEntry) (res_trusted : gmap PublicKey AppPermissions) :
  outcome FileTrustedAppsError (gmap PublicKey AppPermissions) :=
  match entries with
  | [] => Ok res_trusted
  | EntryError :: _ => Err AsyncStdIoError
  | EntryDir :: entries' => load_entries entries' res_trusted
  | EntryFile content :: entries' =>
      let? text := ok_or content AsyncStdIoError in
      let? trusted_app_file := ok_or (from_string (A := TrustedAppFile) text) StringSerdeError in
      load_entries entries' (<[ta_public_key trusted_app_file := ta_permissions trusted_app_file]> res_trusted)
  end.
(** [None]: the directory cannot be read. *)
Definition load_trusted_apps (dir : option (list DirEntry)) : outcome FileTrustedAppsError (gmap PublicKey AppPermissions) :=
  let? entries := ok_or dir AsyncStdIoError in load_entries entries ∅.
Definition file_app_permissions (dir : option (list DirEntry)) (app_public_key : PublicKey) : option AppPermissions :=
  match load_trusted_apps dir with
  | Ok trusted_map => trusted_map !! app_public_key
  | _ => None
  end.

(** The file of a directory entry. *)
Definition entry_file (e : DirEntry) : option TrustedAppFile :=
  match e with EntryFile (Some text) => from_string text | _ => None end.
Definition entry_ok (e : DirEntry) : bool :=
  match e with EntryDir => true | _ => bool_decide (is_Some (entry_file e)) end.

Definition trust (m : gmap PublicKey AppPermissions) (f : TrustedAppFile) : gmap PublicKey AppPermissions :=
  <[ta_public_key f := ta_permissions f]> m.
Lemma load_entries_ok entries m :
  forallb entry_ok entries = true -> load_entries entries m = Ok (foldl trust m (omap entry_file entries)).
Proof.
  revert m. induction entries as [|e entries IH]; intros m Hok; [done|]. apply andb_prop in Hok as [He Hok].
  destruct e as [| |[text|]]; [done|by apply IH| |done]. cbn in He |- *. destruct (from_string text) as [f|]; [|done]. simpl. by apply IH.
Qed.
Lemma load_entries_bad entries m : forallb entry_ok entries = false -> exists e, load_entries entries m = Err e.
Proof.
  revert m. induction entries as [|e entries IH]; intros m Hok; [done|].
  destruct e as [| |[text|]]; cbn in Hok |- *; [by eexists|by apply IH| |by eexists].
  destruct (from_string text) as [f|]; simpl; [by apply IH|by eexists].
Qed.
Lemma trust_lookup files m pk :
  foldl trust m files !! pk =
    match last (filter (fun f => ta_public_key f = pk) files) with Some f => Some (ta_permissions f) | None => m !! pk end.
Proof.
  revert m. induction files as [|f files IH]; intros m; [done|]. cbn [foldl]. rewrite IH, filter_cons. unfold trust.
  destruct (decide (ta_public_key f = pk)) as [<-|Hne].
  - rewrite last_cons. destruct (last _); [done|]. by rewrite lookup_insert_eq.
  - by rewrite lookup_insert_ne.
Qed.
Lemma file_app_permissions_spec entries pk :
  file_app_permissions (Some entries) pk =
    if forallb entry_ok entries then ta_permissions <$> last (filter (fun f => ta_public_key f = pk) (omap entry_file entries)) else None.
Proof.
  unfold file_app_permissions, load_trusted_apps. simpl. destruct (forallb entry_ok entries) eqn:Hok.
  - rewrite load_entries_ok by done. rewrite trust_lookup, lookup_empty. by destruct (last _).
  - by destruct (load_entries_bad entries ∅ Hok) as [e ->].
Qed.
End TrustedApps.

(** ** The two ends of a connection *)
Inductive SetupConnectionError :=
| ScRecvAppPermissionsError | ScDeserializeAppPermissionsError | ScRecvNodeReportError | ScDeserializeNodeReportError.
Inductive AppConnectError := AcConnectorError | AcSetupConnectionError (e : SetupConnectionError).

Section Connection.
Context {B : Type}.
Context `{!ProtoSerialize AppPermissions} `{!ProtoSerialize (NodeReport B)}.
Context `{!ProtoSerialize (AppServerToApp B)} `{!ProtoSerialize (AppToAppServer B)}.

(** [AppConnTransform::transform]: [handshake] is the application of the secured
    connection, [sent] and [spawned] are whether the permissions could be sent and
    the task of the connection started. The result is the connection for the
    server, if any, and what was sent. *)
Definition app_conn_transform (trusted : PublicKey -> option AppPermissions) (handshake : option PublicKey) (sent spawned : bool) :
  option AppPermissions * list bytes :=
  match handshake ≫= trusted with
  | None => (None, [])
  | Some permissions =>
      if sent then (if spawned then Some permissions else None, [proto_serialize permissions]) else (None, [])
  end.
(** The task: the report, when the server gave one, and then the messages of the
    server; [sent] is how many of them could be sent. *)
Definition app_conn_task (report : option (NodeReport B)) (messages : list (AppServerToApp B)) (sent : nat) : list bytes :=
  match report with
  | None => []
  | Some node_report => take sent (proto_serialize node_report :: map proto_serialize messages)
  end.
(** A task that deserializes messages and passes them on, until one cannot be
    deserialized; [taken] is how many are taken. *)
Fixpoint deserialize_stream {A} `{ProtoSerialize A} (data : list bytes) (taken : nat) : list A :=
  match data, taken with
  | d :: data', S taken' =>
      match proto_deserialize d with
      | Some message => message :: deserialize_stream data' taken'
      | None => []
      end
  | _, _ => []
  end.

Definition setup_connection (incoming : list bytes) : outcome SetupConnectionError (AppPermissions * NodeReport B * list bytes) :=
  let? (app_permissions_data, incoming) := ok_or (match incoming with [] => None | d :: ds => Some (d, ds) end) ScRecvAppPermissionsError in
  let? app_permissions := ok_or (proto_deserialize app_permissions_data) ScDeserializeAppPermissionsError in
  let? (node_report_data, incoming) := ok_or (match incoming with [] => None | d :: ds => Some (d, ds) end) ScRecvNodeReportError in
  let? node_report := ok_or (proto_deserialize node_report_data) ScDeserializeNodeReportError in
  Ok (app_permissions, node_report, incoming).
(** [incoming] is what arrives on the connection, when the connector gives one. *)
Definition app_connect_to_node (incoming : option (list bytes)) : outcome AppConnectError (AppPermissions * NodeReport B * list bytes) :=
  let? incoming := ok_or incoming AcConnectorError in
  match setup_connection incoming with
  | Ok r => Ok r
  | Err e => Err (AcSetupConnectionError e)
  | Panic => Panic
  end.

(** ** Connecting to a remote node ([server_loop.rs] of the compact server) *)
Definition open_node_remote (remote : LoadedNodeRemote B) (incoming : option (list bytes)) (spawned : bool) :
  outcome ServerError (option (RemoteNodeOpened B)) :=
  match app_connect_to_node incoming with
  | Ok (app_permissions, node_report, _) =>
      if spawned then Ok (Some (mkRemoteNodeOpened app_permissions (create_compact_report (lr_compact_state remote) node_report)))
      else Err SvSpawnError
  | _ => Ok None
  end.
(** The event of the task that [handle_timer_tick] starts. *)
Definition connect_task (node_name : NodeName) (remote : LoadedNodeRemote B) (incoming : option (list bytes)) (spawned : bool) : ServerEvent B :=
  match open_node_remote remote incoming spawned with
  | Ok (Some remote_node_opened) => SvNodeConnected node_name (Some remote_node_opened)
  | _ => SvNodeConnected node_name None
  end.

(** A value that can be read back. *)
Definition round_trips {A} `{ProtoSerialize A} (x : A) : Prop := proto_deserialize (proto_serialize x) = Some x.
Lemma deserialize_serialize {A} `{PA : ProtoSerialize A} (l : list A) n k :
  Forall round_trips l -> deserialize_stream (take k (map proto_serialize l)) n = take (Nat.min k n) l.
Proof.
  intros Hl. revert n k. induction Hl as [|m l Hm Hl IH]; intros n k; [by destruct k, n|].
  destruct k as [|k]; [done|]. destruct n as [|n]; [done|]. cbn [map take deserialize_stream Nat.min]. rewrite Hm. f_equal. apply IH.
Qed.
Lemma setup_whole p r (rest : list bytes) :
  round_trips p -> round_trips r -> setup_connection (proto_serialize p :: proto_serialize r :: rest) = Ok (p, r, rest).
Proof. intros Hp Hr. unfold setup_connection. simpl. rewrite Hp. simpl. by rewrite Hr. Qed.

(** ** What reaches a remote application *)

(** What the connection of application [id] carries after its permissions. *)
Definition wire_action (id : Z) (w : list bytes) (a : AppServerAction B) : list bytes :=
  match a with
  | ActNewApp id' r => if bool_decide (id' = id) then app_conn_task (Some r) [] 1 else w
  | ActToApp id' m => if bool_decide (id' = id) then w ++ [proto_serialize m] else w
  | _ => w
  end.
Definition wire (id : Z) (acts : list (AppServerAction B)) : list bytes := foldl (wire_action id) [] acts.
(** The application applies the mutations it receives to its first report. *)
Definition follow (r : NodeReport B) (m : AppServerToApp B) : option (NodeReport B) :=
  match m with ToAppReportMutations rm => update_view rm r | _ => Some r end.
Definition remote_view (incoming : list bytes) : option (AppPermissions * NodeReport B) :=
  match setup_connection incoming with
  | Ok (p, r, rest) => r' ← foldl (fun o m => o ≫= fun r => follow r m) (Some r) (deserialize_stream rest (length rest)); Some (p, r')
  | _ => None
  end.

(** The wire is the report and messages that give the view of the application. *)
Definition wire_ok (o : option (NodeReport B)) (w : list bytes) : Prop :=
  forall report, o = Some report -> exists r ms, w = app_conn_task (Some r) ms (S (length ms)) /\
    round_trips r /\ Forall round_trips ms /\ foldl (fun o m => o ≫= fun r => follow r m) (Some r) ms = Some report.
Definition action_round_trips (a : AppServerAction B) : Prop :=
  match a with ActNewApp _ r => round_trips r | ActToApp _ m => round_trips m | _ => True end.
Lemma wire_ok_action id v w a : action_round_trips a -> wire_ok (v !! id) w -> wire_ok (view_action v a !! id) (wire_action id w a).
Proof.
  intros Ha Hw. destruct a as [id' r|id' m|u m|m]; [| |exact Hw|exact Hw]; simpl in Ha.
  - simpl. case_bool_decide as Hid.
    + subst id'. rewrite lookup_insert_eq. intros report [= <-]. exists r, []. by split_and!.
    + by rewrite lookup_insert_ne.
  - assert (view_action v (ActToApp id' m) !! id = if bool_decide (id' = id) then v !! id ≫= fun r => follow r m else v !! id) as ->.
    { case_bool_decide as Hid; [subst id'|]; destruct m; simpl; rewrite ?lookup_partial_alter_eq, ?lookup_partial_alter_ne by done;
        try done; by destruct (v !! id). }
    simpl. case_bool_decide as Hid; [|done]. intros report Hr. destruct (v !! id) as [r0|]; [|done]. simpl in Hr.
    destruct (Hw r0 eq_refl) as (r & ms & -> & Hrr & Hms & Hf). exists r, (ms ++ [m]). split_and!.
    + unfold app_conn_task. cbn [take]. f_equal. rewrite map_app, length_app, take_ge, take_ge by (rewrite ?length_app, ?length_map; simpl; lia).
      done.
    + done.
    + apply Forall_app. by split; [|constructor].
    + rewrite foldl_app, Hf. exact Hr.
Qed.
Lemma wire_ok_actions id acts v w : Forall action_round_trips acts -> wire_ok (v !! id) w -> wire_ok (views v acts !! id) (foldl (wire_action id) w acts).
Proof.
  intros Ha. revert v w. induction Ha as [|a acts Ha Has IH]; intros v w Hw; [exact Hw|]. cbn [foldl]. unfold views. cbn [foldl].
  apply IH. by apply wire_ok_action.
Qed.
Lemma remote_view_wire p id acts report :
  round_trips p -> Forall action_round_trips acts -> views ∅ acts !! id = Some report -> remote_view (proto_serialize p :: wire id acts) = Some (p, report).
Proof.
  intros Hp Ha Hv. destruct (wire_ok_actions id acts ∅ [] Ha ltac:(by rewrite lookup_empty) report Hv) as (r & ms & Hw & Hr & Hms & Hf).
  unfold remote_view, wire. rewrite Hw. unfold app_conn_task. cbn [take]. rewrite setup_whole, take_ge by (done || by rewrite length_map).
  rewrite <-(firstn_all (map proto_serialize ms)) at 1. rewrite deserialize_serialize, Nat.min_id, take_ge by (done || by rewrite length_map).
  by rewrite Hf.
Qed.

(** What has arrived of the wire is what was sent by an earlier moment. *)
Lemma wire_prefix id acts k report :
  views ∅ acts !! id = Some report -> (1 <= k)%nat ->
  exists acts1 acts2 report1, acts = acts1 ++ acts2 /\ wire id acts1 = take k (wire id acts) /\
    views ∅ acts1 !! id = Some report1.
Proof.
  intros Hv Hk. revert report Hv. induction acts as [|a acts IH] using rev_ind; intros report Hv; [unfold views in Hv; simpl in Hv; by rewrite lookup_empty in Hv|].
  destruct (decide (length (wire id (acts ++ [a])) <= k)%nat) as [Hle|Hgt].
  { exists (acts ++ [a]), [], report. rewrite app_nil_r, take_ge by done. done. }
  assert (forall report', views ∅ acts !! id = Some report' -> take k (wire id acts) = take k (wire id (acts ++ [a])) ->
    exists acts1 acts2 report1, acts ++ [a] = acts1 ++ acts2 /\ wire id acts1 = take k (wire id (acts ++ [a])) /\
      views ∅ acts1 !! id = Some report1) as Hgo.
  { intros report' Hv' Heq. destruct (IH _ Hv') as (acts1 & acts2 & report1 & -> & Hw & Hr).
    exists acts1, (acts2 ++ [a]), report1. split; [by rewrite app_assoc|]. by rewrite <- Heq. }
  rewrite views_app in Hv. unfold wire in Hgt, Hgo |- *. rewrite foldl_app in Hgt, Hgo |- *. cbn [foldl] in Hgt, Hgo |- *.
  unfold views in Hv at 1. cbn [foldl] in Hv. destruct a as [id' r|id' m|u m|m]; simpl in Hv, Hgt, Hgo |- *; try by eapply Hgo.
  - case_bool_decide as Hid; [simpl in Hgt; lia|]. rewrite lookup_insert_ne in Hv by done. by eapply Hgo.
  - case_bool_decide as Hid.
    + subst id'. rewrite length_app in Hgt. simpl in Hgt.
      destruct (views ∅ acts !! id) as [r0|] eqn:Hr0.
      * eapply Hgo; [done|]. by rewrite take_app_le by lia.
      * exfalso. destruct m; simpl in Hv; try congruence. by rewrite lookup_partial_alter_eq, Hr0 in Hv.
    + eapply Hgo; [|done]. destruct m; simpl in Hv; try done. rewrite lookup_partial_alter_ne in Hv by done. done.
Qed.

Lemma remote_view_prefix p id acts report k :
  round_trips p -> Forall action_round_trips acts -> views ∅ acts !! id = Some report -> (2 <= k)%nat ->
  exists acts1 acts2 report1, acts = acts1 ++ acts2 /\ views ∅ acts1 !! id = Some report1 /\
    remote_view (take k (proto_serialize p :: wire id acts)) = Some (p, report1).
Proof.
  intros Hp Ha Hv Hk. destruct k as [|k]; [lia|]. cbn [take].
  destruct (wire_prefix id acts k report Hv ltac:(lia)) as (acts1 & acts2 & report1 & -> & Hw & Hv1).
  apply Forall_app in Ha as [Ha _]. exists acts1, acts2, report1. split_and!; [done..|].
  rewrite <- Hw. by apply remote_view_wire.
Qed.

(** Before the report has arrived there is nothing to see. *)
Lemma remote_view_early (p : AppPermissions) (w : list bytes) k : (k < 2)%nat -> remote_view (take k (proto_serialize p :: w)) = None.
Proof.
  intros Hk. destruct k as [|[|k]]; [done| |lia]. unfold remote_view, setup_connection. simpl.
  by destruct (proto_deserialize (A := AppPermissions) _).
Qed.
End Connection.

(** C12. Applications of a node follow its state over their connections, wherever they
    run: an application that the node trusts reads the permissions it was given,
    then the report, and then the messages of the server. However much of what was
    sent has arrived, the report that it holds, after applying the mutations it read,
    is one that the server had after some of its events, and there is one as soon as
    the first two messages have arrived; once everything has arrived, it matches the
    state of the funder, whatever the order in which the server handled the messages of
    the funder, the index client and the applications. *)
Theorem remote_application_follows_funder `{CryptoOps} `{RngOps} {B : Type} `{CanonicalSerialize B} `{EqDecision B}
    `{!ProtoSerialize AppPermissions} `{!ProtoSerialize (NodeReport B)} `{!ProtoSerialize (AppServerToApp B)}
    (local_pk : PublicKey) `{!SignerOps local_pk} (max_relays max_ops max_user : nat)
    (f f' : FunderState B) (e e' : Ephemeral) (g g' : rng) (ms : list (FunderIncoming B))
    (comms : list (FunderOutgoingComm B)) (control : list (FunderOutgoingControl B))
    (r : IndexClientReport B) (es : list (AsEnv * AppServerEvent B)) (s : AppServer B)
    (acts : list (AppServerAction B)) (id : Z) (a : App)
    (trusted : PublicKey -> option AppPermissions) (app_pk : PublicKey) (first : list bytes)
    (Hfunder : funder_loop local_pk max_relays max_ops max_user (f, e, g) ms = Some (f', e', g', comms, control))
    (Hcontrol : omap ev_funder es = control)
    (Hserver : app_server_loop (app_server_new (mkNodeReport (create_report f e) r)) es = Ok (s, acts))
    (Happ : apps s !! id = Some a) (Hsender : app_sender a = true)
    (Hadmit : app_conn_transform trusted (Some app_pk) true true = (Some (app_permissions a), first))
    (Hp : round_trips (app_permissions a)) (Hacts : Forall action_round_trips acts) :
  trusted app_pk = Some (app_permissions a) /\
  (forall k, match remote_view (take k (first ++ wire id acts)) with
             | Some (permissions, report) =>
                 (2 <= k)%nat /\ permissions = app_permissions a /\
                 server_had (app_server_new (mkNodeReport (create_report f e) r)) es report
             | None => (k < 2)%nat
             end) /\
  exists report, remote_view (first ++ wire id acts) = Some (app_permissions a, report) /\ report_matches f' (funder_report report).
Proof.
  unfold app_conn_transform in Hadmit. simpl in Hadmit. destruct (trusted app_pk) as [p|]; [|done]. injection Hadmit as -> <-.
  assert (views ∅ acts !! id = Some (node_report s)) as Hview by by eapply connected_views.
  split; [done|]. split; [|exists (node_report s); split; [by apply remote_view_wire|by eapply server_report_matches]].
  intros k. change ([proto_serialize (app_permissions a)] ++ wire id acts) with (proto_serialize (app_permissions a) :: wire id acts).
  destruct (decide (k < 2)%nat) as [Hk|Hk]; [by rewrite (remote_view_early (B := B) (app_permissions a) (wire id acts) k Hk)|].
  destruct (remote_view_prefix _ id acts _ k Hp Hacts Hview ltac:(lia)) as (acts1 & acts2 & report1 & Ha & Hv1 & ->).
  split; [lia|]. split; [done|].
  assert (views_ok (app_server_new (mkNodeReport (create_report f e) r)) ∅) as Hok by by intros i x Hi.
  destruct (app_server_loop_prefix _ _ _ _ _ _ _ _ _ Hok Hserver Ha Hv1) as [Hn|]; [by rewrite lookup_empty in Hn|done].
Qed.

(** Connecting to a remote node opens it with the permissions and the report that
    the node sends, and any other outcome is a failed attempt. *)
Lemma connect_task_spec {B : Type} `{!ProtoSerialize AppPermissions} `{!ProtoSerialize (NodeReport B)} (node_name : NodeName)
  (remote : LoadedNodeRemote B) (incoming : option (list bytes)) (spawned : bool) :
  connect_task node_name remote incoming spawned =
    SvNodeConnected node_name
      (match incoming with
       | Some (d :: d' :: _) =>
           if spawned then p ← proto_deserialize d; r ← proto_deserialize d';
                           Some (mkRemoteNodeOpened p (create_compact_report (lr_compact_state remote) r))
           else None
       | _ => None
       end).
Proof.
  unfold connect_task, open_node_remote, app_connect_to_node, setup_connection. destruct incoming as [[|d [|d' rest]]|]; [done| |simpl|done].
  - simpl. by destruct (proto_deserialize (A := AppPermissions) d).
  - destruct (proto_deserialize (A := AppPermissions) d); simpl; [|by destruct spawned].
    destruct (proto_deserialize (A := NodeReport B) d'); simpl; by destruct spawned.
Qed.

Module AppConnectSamples.
Import Toy FunderSamples AppServerSamples.

(** A wire format for what the sample run of the server sends: the position of the
    first message of the run that has the same kinds of mutations. *)
Definition messages : list (AppServerToApp string) := omap (fun a => match a with ActToApp _ m => Some m | _ => None end) sent.
Definition kind (m : NodeReportMutation string) : nat :=
  match m with
  | NodeFunder (RpAddFriend _) => 1
  | NodeFunder (RpRemoveFriend _) => 2
  | NodeFunder (RpFriendMutation _ (FrSetStatus _)) => 3
  | NodeFunder (RpFriendMutation _ (FrSetLiveness ReportOnline)) => 4
  | NodeFunder (RpFriendMutation _ (FrSetLiveness ReportOffline)) => 5
  | NodeFunder (RpFriendMutation _ (FrUpdateCurrencyConfig c)) => if ccfr_is_open c then 6 else 7
  | _ => 0
  end.
Definition kinds (m : AppServerToApp string) : list nat := match m with ToAppReportMutations rm => map kind (rm_mutations rm) | _ => [99]%nat end.
#[local] Instance wire_messages : ProtoSerialize (AppServerToApp string) := {|
  proto_serialize m := replicate (from_option fst 0%nat (list_find (fun m' => kinds m' = kinds m) messages)) Byte.x00;
  proto_deserialize d := messages !! length d
|}.
(** There is one report, and the permissions of one application. *)
#[local] Instance wire_report : ProtoSerialize (NodeReport string) := {|
  proto_serialize r := []; proto_deserialize d := Some (node_report start)
|}.
#[local] Instance wire_permissions : ProtoSerialize AppPermissions := {|
  proto_serialize p := []; proto_deserialize d := Some buyer
|}.
Definition the_app : PublicKey := bob.
Definition trusts (pk : PublicKey) : option AppPermissions := if decide (pk = the_app) then Some buyer else None.

Lemma sent_round_trips : Forall action_round_trips sent.
Proof. vm_compute. repeat constructor. Qed.

Lemma app_admitted : apps final !! 0%Z = Some (mkApp buyer true).
Proof. vm_compute. reflexivity. Qed.

Lemma remote_application_follows_funder_witness :
  exists f' e' g' comms control report,
    run_node alice (fresh_node alice 1) payment_messages = Some (f', e', g', comms, control) /\
    remote_view (proto_serialize buyer :: wire 0 sent) = Some (buyer, report) /\ report_matches f' (funder_report report).
Proof.
  destruct (run_node alice (fresh_node alice 1) payment_messages) as [[[[[f' e'] g'] comms] control]|] eqn:E.
  2:{ assert (bool_decide (is_Some (run_node alice (fresh_node alice 1) payment_messages)) = true) as Hs by (by vm_compute).
      by rewrite E in Hs. }
  assert (the_control = control) as Hc by (unfold the_control; by rewrite E).
  destruct (remote_application_follows_funder alice 10 16 10 _ f' _ e' _ g' _ _ _ (mkIndexClientReport [] None)
              (sample_events the_control) final sent 0 (mkApp buyer true) trusts the_app [proto_serialize buyer] E)
    as (_ & _ & report & Hv & Hm).
  - by rewrite sample_events_funder.
  - exact sample_loop.
  - exact app_admitted.
  - reflexivity.
  - reflexivity.
  - reflexivity.
  - exact sent_round_trips.
  - exists f', e', g', comms, control, report. split; [reflexivity|]. split; [exact Hv|exact Hm].
Defined.

(** A file of the directory that is not a trusted application refuses all
    applications. *)
#[local] Instance any_text : Json TrustedAppFile := {|
  to_string f := Some "app"%string;
  from_string t := if decide (t = "app"%string) then Some (mkTrustedAppFile the_app buyer) else None
|}.
Lemma malformed_file_refuses_all :
  file_app_permissions (Some [EntryFile (Some "app"%string)]) the_app = Some buyer /\
  file_app_permissions (Some [EntryFile (Some "app"%string); EntryFile (Some "notes"%string)]) the_app = None.
Proof. split; vm_compute; reflexivity. Qed.
End AppConnectSamples.
