(* ===== verification/Connection.v ===== *)
(** * Connections

    The version that both sides of a connection declare first
    ([version/src/version_prefix.rs]), the service that signs for a node
    ([identity/src]), the limit of time on making a connection
    ([connection/src/timeout.rs]), and the transforms that compose them
    ([connection/src/transforms.rs]): a connection between two programs is a stack of
    a version prefix, above it a secure channel and above it keepalives, all made
    within a limit of time. The theorems show what a made connection gives its two
    users. *)

From S2P Require Import Prelude Arith Bytes Canonical Handler FunderHandler SecureChannel SecureChannelTheory Effects KeepAlive Relay.

(** ** Versions *)

(** [BigEndian::read_u32], for any number of bytes. *)
Definition read_be (d : bytes) : Z := foldl (fun z b => z * 256 + Z.of_N (Byte.to_N b))%Z 0%Z d.

(** The sending half of [spawn_prefix]: [sent] is how many messages could be sent. *)
Definition prefix_sent (local_version : Z) (from_user : list bytes) (sent : nat) : list bytes :=
  take sent (write_u32 local_version :: from_user).
(** The receiving half: [taken] is how many messages the user takes. *)
Definition prefix_received (local_version : Z) (incoming : list bytes) (taken : nat) : list bytes :=
  match incoming with
  | [] => []
  | version_data :: receiver =>
      if negb (length version_data =? 4)%nat then []
      else if negb (read_be version_data =? local_version)%Z then []
      else take taken receiver
  end.

Lemma byte_of_Z_val z : Z.of_N (Byte.to_N (byte_of_Z z)) = (z mod 256)%Z.
Proof.
  unfold byte_of_Z. pose proof (Z.mod_pos_bound z 256 ltac:(lia)) as Hb.
  destruct (Byte.of_N (Z.to_N (z mod 256))) as [b|] eqn:E; simpl.
  - apply Byte.to_of_N in E. rewrite E. lia.
  - apply Byte.of_N_None_iff in E. lia.
Qed.
Lemma byte_val_range b : (0 <= Z.of_N (Byte.to_N b) < 256)%Z.
Proof. pose proof (Byte.to_N_bounded b). lia. Qed.
Lemma byte_of_val b : byte_of_Z (Z.of_N (Byte.to_N b)) = b.
Proof.
  unfold byte_of_Z. rewrite Z.mod_small by apply byte_val_range. rewrite N2Z.id. by rewrite Byte.of_to_N.
Qed.

Lemma read_be_from (d : bytes) z0 :
  foldl (fun z b => z * 256 + Z.of_N (Byte.to_N b))%Z z0 d = (z0 * 2 ^ (8 * Z.of_nat (length d)) + read_be d)%Z.
Proof.
  unfold read_be. revert z0. induction d as [|b d IH]; intros z0; cbn [foldl length]; [lia|]. rewrite IH, (IH (0 * 256 + _)%Z).
  replace (8 * Z.of_nat (S (length d)))%Z with (8 + 8 * Z.of_nat (length d))%Z by lia. rewrite Z.pow_add_r by lia. ring.
Qed.
Lemma read_be_cons b d : read_be (b :: d) = (Z.of_N (Byte.to_N b) * 2 ^ (8 * Z.of_nat (length d)) + read_be d)%Z.
Proof. unfold read_be at 1. cbn [foldl]. by rewrite read_be_from. Qed.
Lemma read_be_range d : (0 <= read_be d < 2 ^ (8 * Z.of_nat (length d)))%Z.
Proof.
  induction d as [|b d IH]; [done|]. rewrite read_be_cons. pose proof (byte_val_range b).
  cbn [length]. replace (8 * Z.of_nat (S (length d)))%Z with (8 + 8 * Z.of_nat (length d))%Z by lia. rewrite Z.pow_add_r by lia. nia.
Qed.
Lemma read_be_write n z : read_be (be_bytes n z) = (z mod 2 ^ (8 * Z.of_nat n))%Z.
Proof.
  induction n as [|n IH]; cbn [be_bytes]; [by rewrite Z.mod_1_r|]. rewrite read_be_cons, be_bytes_length, IH, byte_of_Z_val.
  rewrite Z.shiftr_div_pow2 by lia. replace (8 * Z.of_nat (S n))%Z with (8 * Z.of_nat n + 8)%Z by lia.
  rewrite Z.pow_add_r by lia. change (2 ^ 8)%Z with 256%Z.
  rewrite (Z.rem_mul_r z (2 ^ (8 * Z.of_nat n)) 256) by lia. ring.
Qed.
Lemma read_be_inj (d d' : bytes) : length d = length d' -> read_be d = read_be d' -> d = d'.
Proof.
  revert d'. induction d as [|b d IH]; intros [|b' d'] Hlen Hr; try done. injection Hlen as Hlen. rewrite !read_be_cons, <-Hlen in Hr.
  pose proof (read_be_range d) as Hd. pose proof (read_be_range d') as Hd'. rewrite <-Hlen in Hd'.
  set (w := (2 ^ (8 * Z.of_nat (length d)))%Z) in *.
  assert (Z.of_N (Byte.to_N b) = Z.of_N (Byte.to_N b')) as Hb by nia.
  rewrite <-(byte_of_val b), <-(byte_of_val b'), Hb. f_equal. apply IH; [done|]. rewrite Hb in Hr. lia.
Qed.

(** The version prefix carries the messages of the users unchanged, in order,
    between sides of the same version, and nothing between sides of different
    ones: a user receives messages only when the first data of the other side is
    exactly the declaration of the version of this side. *)
Theorem version_prefix_transparent (local remote : Z) (messages : list bytes) (sent taken : nat) (incoming : list bytes)
  (Hl : u_ok 32 local) (Hr : u_ok 32 remote) :
  prefix_received local (prefix_sent remote messages sent) taken =
    (if (remote =? local)%Z then take (Nat.min taken (sent - 1)) messages else []) /\
  (prefix_received local incoming taken <> [] -> exists rest, incoming = write_u32 local :: rest).
Proof.
  assert (forall z, u_ok 32 z -> (z mod 2 ^ (8 * Z.of_nat 4) = z)%Z) as Hu.
  { intros z Hz. apply Z.mod_small. unfold u_ok, u_max in Hz. simpl in *. lia. }
  split.
  - destruct sent as [|sent]; [unfold prefix_sent; simpl; rewrite Nat.min_0_r; by destruct (remote =? local)%Z|].
    unfold prefix_sent, prefix_received. cbn [take]. unfold write_u32. rewrite be_bytes_length, read_be_write, Hu by done. simpl.
    destruct (remote =? local)%Z; simpl; [|done]. by rewrite take_take, Nat.sub_0_r.
  - destruct incoming as [|d rest]; [done|]. unfold prefix_received. destruct (length d =? 4)%nat eqn:Hd; [|done].
    destruct (read_be d =? local)%Z eqn:Hv; [|done]. intros _. exists rest. f_equal.
    apply Nat.eqb_eq in Hd. apply Z.eqb_eq in Hv. unfold write_u32. apply read_be_inj; [by rewrite be_bytes_length|].
    by rewrite read_be_write, Hu.
Qed.

(** ** The identity service *)
Inductive ToIdentity := RequestSignature (message : bytes) | RequestPublicKey.
Inductive FromIdentity := ResponseSignature (signature : Signature) | ResponsePublicKey (public_key : PublicKey).
Inductive IdentityClientError := RequestSendFailed | OneshotReceiverCanceled.

Section Identity.
Context `{CryptoOps} (public_key : PublicKey) `{!SignerOps public_key}.

(** [create_identity]: the service answers every request, whether or not the client
    still waits for it. *)
Definition identity_answer (request : ToIdentity) : FromIdentity :=
  match request with
  | RequestSignature message => ResponseSignature (request_signature message)
  | RequestPublicKey => ResponsePublicKey public_key
  end.
Definition identity_service (requests : list ToIdentity) : list FromIdentity := map identity_answer requests.

(** [IdentityClient::request_response]: whether the request could be sent, and the response. *)
Definition request_response (sent : bool) (response : option FromIdentity) : outcome IdentityClientError FromIdentity :=
  if sent then ok_or response OneshotReceiverCanceled else Err RequestSendFailed.
Definition client_request_signature (sent : bool) (response : option FromIdentity) : outcome IdentityClientError (option Signature) :=
  let? r := request_response sent response in Ok (match r with ResponseSignature s => Some s | _ => None end).
Definition client_request_public_key (sent : bool) (response : option FromIdentity) : outcome IdentityClientError (option PublicKey) :=
  let? r := request_response sent response in Ok (match r with ResponsePublicKey pk => Some pk | _ => None end).

(** Whatever else is asked, a signature of the service verifies with the key that
    the service gives. *)
Lemma identity_consistent requests i j message sig pk :
  requests !! i = Some (RequestSignature message) ->
  client_request_signature true (identity_service requests !! i) = Ok (Some sig) ->
  requests !! j = Some RequestPublicKey ->
  client_request_public_key true (identity_service requests !! j) = Ok (Some pk) ->
  verify_signature message pk sig = true.
Proof.
  unfold identity_service. intros Hi Hs Hj Hk. rewrite list_lookup_fmap, Hi in Hs. rewrite list_lookup_fmap, Hj in Hk.
  injection Hs as <-. injection Hk as <-. apply request_signature_verifies.
Qed.
End Identity.

(** ** A limit of time *)

(** [TimeoutFutTransform::transform] *)
Definition timeout_transform {O : Type} (timer_stream : bool) (fut_output : option (Z * option O)) (timeout_ticks : Z) (tie : bool) : option O :=
  if timer_stream then future_timeout fut_output timeout_ticks tie ≫= id else None.

Module ServicesSamples.
Lemma version_prefix_transparent_witness :
  prefix_received 3 (prefix_sent 3 [[Byte.x01]; [Byte.x02]] 9) 9 = [[Byte.x01]; [Byte.x02]] /\
  prefix_received 3 (prefix_sent 2 [[Byte.x01]; [Byte.x02]] 9) 9 = [].
Proof.
  split.
  - exact (proj1 (version_prefix_transparent 3 3 [[Byte.x01]; [Byte.x02]] 9 9 [] ltac:(by vm_compute) ltac:(by vm_compute))).
  - exact (proj1 (version_prefix_transparent 3 2 [[Byte.x01]; [Byte.x02]] 9 9 [] ltac:(by vm_compute) ltac:(by vm_compute))).
Defined.
End ServicesSamples.

Local Open Scope Z_scope.

(** ** Constants ([proto/src/consts.rs], [connection/src/transforms.rs]) *)
Definition PROTOCOL_VERSION : Z := 0.
Definition TICK_MS : Z := 1000.
Definition TICKS_TO_REKEY : Z := 60 * 60 * (1000 / TICK_MS).
Definition KEEPALIVE_TICKS : Z := 0x20.
Definition CONN_TIMEOUT_TICKS : Z := 8.

(** ** Futures

    A future that is ready after a number of ticks, if at all. *)
Definition Fut (T : Type) : Type := option (Z * T).
Definition fut_then {A B : Type} (f : Fut A) (k : A -> Fut B) : Fut B :=
  '(t, a) ← f; '(u, b) ← k a; Some (t + u, b).

(** [TimeoutFutTransform::transform], with the time at which it is ready. *)
Definition timed_transform {O : Type} (timer_stream : bool) (fut_output : Fut (option O)) (timeout_ticks : Z) (tie : bool) :
  Fut (option O) :=
  if timer_stream then
    match fut_output with
    | Some (ready, v) => if (ready <? timeout_ticks) || ((ready =? timeout_ticks) && tie) then Some (ready, v) else Some (timeout_ticks, None)
    | None => Some (timeout_ticks, None)
    end
  else Some (0, None).
Lemma timed_transform_value {O : Type} ts (f : Fut (option O)) ticks tie :
  snd <$> timed_transform ts f ticks tie = Some (timeout_transform ts f ticks tie).
Proof. unfold timed_transform, timeout_transform, future_timeout. destruct ts, f as [[ready v]|]; simpl; try done. by case_match. Qed.
Lemma timed_transform_spec {O : Type} ts (f : Fut (option O)) ticks tie :
  0 <= ticks -> (forall t v, f = Some (t, v) -> 0 <= t) ->
  exists t v, timed_transform ts f ticks tie = Some (t, v) /\ 0 <= t <= ticks /\ (forall o, v = Some o -> ts = true /\ f = Some (t, Some o)).
Proof.
  intros Hticks Hf. unfold timed_transform. destruct ts; [|exists 0, None; split_and!; done || lia].
  destruct f as [[ready v]|]; [|exists ticks, None; split_and!; done || lia].
  specialize (Hf ready v eq_refl). destruct (Z.ltb_spec ready ticks); simpl; [exists ready, v; split_and!; try done; try lia; by intros o ->|].
  destruct (Z.eqb_spec ready ticks), tie; simpl; first [by (exists ready, v; split_and!; try done; try lia; intros o ->)
    |exists ticks, None; split_and!; done || lia].
Qed.

(** ** The transforms *)
Section Transforms.
Context `{ScCryptoOps} `{CryptoOps} `{ProtoSerialize ChannelMessage}.
Context `{ProtoSerialize ExchangeRandNonce} `{ProtoSerialize ExchangeDh}.

(** The tasks of a connection. [None]: the task ended at once, without a stream of ticks. *)
Record Stack := mkStack { sk_secure : option ScLoop; sk_keepalive : option KeepAlive }.

(** What the environment of one call decides: whether tasks can be spawned (the same
    for all tasks of the call), whether the timer gives a stream to each of the three that ask for one, which messages
    can be written, when the exchange is done, and who wins a tie. *)
Record Env := mkEnv {
  ev_spawned : bool;
  ev_timer_timeout : bool; ev_timer_secure : bool; ev_timer_keepalive : bool;
  ev_writer_ok : bool * bool;
  ev_ready : option Z;
  ev_tie : bool
}.

Section Side.
Context (local_public_key : PublicKey) `{!SignerOps local_public_key}.

(** [create_secure_channel] and [SecureChannel::transform]: the key of the remote
    side, the task of the channel, what was written and what is left to read. The
    task draws from the generator of the system, wherever it is by then. *)
Definition secure_transform (v : Env) (opt_expected_remote : option PublicKey) (reader : list bytes) (g g_loop : rng) :
  option (PublicKey * option ScLoop * list bytes * list bytes) :=
  match initial_exchange local_public_key opt_expected_remote (ev_writer_ok v) reader g with
  | Ok (dh_state, written, reader) =>
      if ev_spawned v then
        Some (sc_remote_public_key dh_state,
          if ev_timer_secure v then Some (mkScLoop dh_state (Z.to_nat TICKS_TO_REKEY) g_loop) else None, written, reader)
      else None
  | _ => None
  end.

(** [KeepAliveChannel::transform] *)
Definition keepalive_transform (v : Env) : option KeepAlive :=
  if ev_timer_keepalive v then Some (keepalive_new KEEPALIVE_TICKS) else None.

(** The result of a transform: the remote key and the tasks, with the messages that
    were written to the connection and the messages that are left to read. *)
Record Conn := mkConn { co_public_key : PublicKey; co_stack : Stack; co_written : list bytes; co_reader : list bytes }.

Definition encrypt_keepalive (v : Env) (opt_public_key : option PublicKey) (reader : list bytes) (g g_loop : rng) : option Conn :=
  '(public_key, secure, written, reader) ← secure_transform v opt_public_key reader g g_loop;
  Some (mkConn public_key (mkStack secure (keepalive_transform v)) written reader).
Definition create_encrypt_keepalive (v : Env) (opt_public_key : option PublicKey) (reader : list bytes) (g g_loop : rng) :
  Fut (option Conn) :=
  timed_transform (ev_timer_timeout v) ((fun t => (t, encrypt_keepalive v opt_public_key reader g g_loop)) <$> ev_ready v)
    CONN_TIMEOUT_TICKS (ev_tie v).

(** The version prefix passes the messages of its user below; it is made first. *)
Definition version_encrypt_keepalive (version : Z) (v : Env) (opt_public_key : option PublicKey) (reader : list bytes) (g g_loop : rng) :
  option Conn :=
  c ← encrypt_keepalive v opt_public_key (prefix_received version reader (length reader)) g g_loop;
  Some (mkConn (co_public_key c) (co_stack c) (prefix_sent version (co_written c) (S (length (co_written c)))) (co_reader c)).
Definition create_version_encrypt_keepalive (v : Env) (opt_public_key : option PublicKey) (reader : list bytes) (g g_loop : rng) :
  Fut (option Conn) :=
  timed_transform (ev_timer_timeout v)
    ((fun t => (t, version_encrypt_keepalive PROTOCOL_VERSION v opt_public_key reader g g_loop)) <$> ev_ready v)
    CONN_TIMEOUT_TICKS (ev_tie v).

(** [create_secure_connector]: [connector] gives the messages that the other side
    will write, or no connection; both limits of time apply. *)
Definition create_secure_connector {NetAddress : Type} (connector : NetAddress -> Fut (option (list bytes)))
    (timer_stream tie : bool) (v : Env) (public_key : PublicKey) (net_address : NetAddress) (g g_loop : rng) : Fut (option Conn) :=
  timed_transform timer_stream
    (fut_then (connector net_address) (fun conn_pair =>
       match conn_pair with
       | None => Some (0, None)
       | Some reader => create_version_encrypt_keepalive v (Some public_key) reader g g_loop
       end))
    CONN_TIMEOUT_TICKS tie.
End Side.

Lemma initial_exchange_no_panic (pk : PublicKey) `{!SignerOps pk} o w reader g : initial_exchange pk o w reader g <> Panic.
Proof.
  unfold initial_exchange, sc_state_initial_new, handle_exchange_rand_nonce, handle_exchange_dh, verify_exchange_dh,
    reader_next, writer_send, guard_or, ok_or, map_err.
  repeat first [done | case_match; simplify_eq/= | progress simpl].
Qed.

Lemma initial_exchange_remote (pk : PublicKey) `{!SignerOps pk} expected w reader g s written rest :
  initial_exchange pk (Some expected) w reader g = Ok (s, written, rest) ->
  sc_remote_public_key s = expected /\ sc_local_public_key s = pk.
Proof.
  unfold initial_exchange, sc_state_initial_new, handle_exchange_rand_nonce, handle_exchange_dh, verify_exchange_dh,
    reader_next, writer_send, guard_or, ok_or, map_err. intros Hi.
  repeat first [progress simplify_eq/= | case_bool_decide | case_match]; done.
Qed.
End Transforms.

Section Connector.
Context `{ScCryptoOps} `{CryptoOps} `{ProtoSerialize ChannelMessage}.
Context `{ProtoSerialize ExchangeRandNonce} `{ProtoSerialize ExchangeDh}.
Context (local_public_key : PublicKey) `{!SignerOps local_public_key}.

Lemma encrypt_keepalive_remote v expected reader g g' c :
  encrypt_keepalive local_public_key v (Some expected) reader g g' = Some c -> co_public_key c = expected.
Proof.
  unfold encrypt_keepalive, secure_transform. destruct (initial_exchange _ _ _ _ _) as [[[s w] rest]|e|] eqn:Hi; try done.
  destruct (ev_spawned v); [|done]. intros [= <-]. by destruct (initial_exchange_remote _ _ _ _ _ _ _ _ Hi).
Qed.
Lemma version_encrypt_keepalive_inv version v o reader g g' c :
  version_encrypt_keepalive local_public_key version v o reader g g' = Some c ->
  exists c', encrypt_keepalive local_public_key v o (prefix_received version reader (length reader)) g g' = Some c' /\
    co_public_key c = co_public_key c' /\ prefix_received version reader (length reader) <> [].
Proof.
  unfold version_encrypt_keepalive. destruct (encrypt_keepalive _ _ _ _ _ _) as [c'|] eqn:Hc; [|done]. intros [= <-].
  exists c'. split_and!; try done. intros Hnil. rewrite Hnil in Hc. revert Hc. unfold encrypt_keepalive, secure_transform, initial_exchange, reader_next.
  unfold sc_state_initial_new. destruct (rng_fill 16 g) as [n g1]. by destruct (writer_send _).
Qed.

(** Making a connection ends within [CONN_TIMEOUT_TICKS], whatever the network
    does. A connection that is made was made in time, with a side that declared
    this version of the protocol and signed with exactly the key that was asked for. *)
Theorem secure_connector_correct {NetAddress : Type} (connector : NetAddress -> Fut (option (list bytes)))
  (timer_stream tie : bool) (v : Env) (public_key : PublicKey) (net_address : NetAddress) (g g_loop : rng)
  (Hc : forall t c, connector net_address = Some (t, c) -> 0 <= t) (Hv : forall t, ev_ready v = Some t -> 0 <= t) :
  exists t r,
    create_secure_connector local_public_key connector timer_stream tie v public_key net_address g g_loop = Some (t, r) /\
    0 <= t <= CONN_TIMEOUT_TICKS /\
    forall c, r = Some c -> co_public_key c = public_key /\
      exists t1 t2 rest, connector net_address = Some (t1, Some (write_u32 PROTOCOL_VERSION :: rest)) /\
        ev_ready v = Some t2 /\ t = t1 + t2.
Proof.
  assert (forall o reader, exists t r,
    create_version_encrypt_keepalive local_public_key v o reader g g_loop = Some (t, r) /\ 0 <= t <= CONN_TIMEOUT_TICKS /\
    forall c, r = Some c -> ev_ready v = Some t /\ version_encrypt_keepalive local_public_key PROTOCOL_VERSION v o reader g g_loop = Some c) as Hin.
  { intros o reader. unfold create_version_encrypt_keepalive.
    destruct (timed_transform_spec (ev_timer_timeout v)
      ((fun t => (t, version_encrypt_keepalive local_public_key PROTOCOL_VERSION v o reader g g_loop)) <$> ev_ready v) CONN_TIMEOUT_TICKS (ev_tie v))
      as (t & r & Ht & Hle & Hr); [done| |].
    - intros t r. destruct (ev_ready v) as [t'|] eqn:Hev; [|done]. intros [= -> _]. by apply Hv.
    - exists t, r. split_and!; try done; try lia. intros c ->. destruct (Hr c eq_refl) as [_ Hf].
      destruct (ev_ready v) as [t'|]; [|done]. by injection Hf as -> ->. }
  unfold create_secure_connector.
  match goal with |- context [timed_transform _ ?f _ _] => destruct (timed_transform_spec timer_stream f CONN_TIMEOUT_TICKS tie) as (t & r & Ht & Hle & Hr) end.
  - done.
  - intros t r. unfold fut_then. destruct (connector net_address) as [[t1 [reader|]]|] eqn:Hconn; simpl; [| |done].
    + destruct (Hin (Some public_key) reader) as (t2 & r2 & -> & Hle & _). simpl. intros [= <- _]. specialize (Hc _ _ eq_refl). lia.
    + intros [= <- _]. specialize (Hc _ _ eq_refl). lia.
  - exists t, r. split_and!; try done; try lia. intros c ->. destruct (Hr c eq_refl) as [_ Hf]. revert Hf. unfold fut_then.
    destruct (connector net_address) as [[t1 [reader|]]|] eqn:Hconn; simpl; [|done..].
    destruct (Hin (Some public_key) reader) as (t2 & r2 & -> & _ & Hr2). simpl. intros [= <- ->].
    destruct (Hr2 c eq_refl) as [Hev Hve]. destruct (version_encrypt_keepalive_inv _ _ _ _ _ _ _ Hve) as (c' & Hek & -> & Hne).
    split; [by apply encrypt_keepalive_remote in Hek|].
    destruct (version_prefix_transparent PROTOCOL_VERSION PROTOCOL_VERSION [] 0 (length reader) reader) as [_ Hp]; [by vm_compute..|].
    destruct (Hp Hne) as [rest ->]. by exists t1, t2, rest.
Qed.
End Connector.

(** ** The messages of a connection

    Two connected stacks. The version prefixes have done their work, and what the
    secure channels write arrives in order. Each secure channel is connected to its
    keepalive by a channel in either direction. *)
Section Messages.
Context `{ScCryptoOps} `{!ScCryptoLaws} `{CryptoOps} `{ProtoSerialize ChannelMessage} `{!ProtoSerializeLaws ChannelMessage}.
Context `{KaSerde} `{!KaSerdeLaws}.

(** The upper part of one side: its keepalive task while it runs, what it has sent
    down and what waits for it, and what its user has sent and received. *)
Record Upper := mkUpper {
  up_keepalive : option KeepAlive;
  up_down : list bytes; up_wait : list bytes;
  up_sent : list bytes; up_received : list bytes
}.
Record Link := mkLink { lk_pair : SecureChannelTheory.pair; lk_a : Upper; lk_b : Upper }.
Definition link_swap (c : Link) : Link := mkLink (SecureChannelTheory.swap (lk_pair c)) (lk_b c) (lk_a c).

(** An event of the keepalive task of side [a], with the messages that still wait for
    it, and the message of its user. *)
Inductive upper_event (u : Upper) : KeepAliveEvent -> list bytes -> list bytes -> Prop :=
| upper_user m : upper_event u (KaMessageFromUser m) (up_wait u) [m]
| upper_read m rest : up_wait u = m :: rest -> upper_event u (KaMessageFromRemote m) rest []
| upper_tick : upper_event u KaTimerTick (up_wait u) []
| upper_closed e : e = KaTimerClosed \/ e = KaRemoteChannelClosed \/ e = KaUserChannelClosed -> upper_event u e (up_wait u) [].

(** The keepalive task handles an event; it may end, by an error or because it could
    not send, and then neither the message of the event nor what waits is delivered. *)
Inductive upper_step (u : Upper) : Upper -> Prop :=
| upper_goes_on ok k e wait m k' l :
    up_keepalive u = Some k -> upper_event u e wait m -> keepalive_step KEEPALIVE_TICKS ok e k [] = EOk true k' l ->
    upper_step u (mkUpper (Some k') (up_down u ++ to_remote l) wait (up_sent u ++ m) (up_received u ++ to_user l))
| upper_ends ok k e wait m r :
    up_keepalive u = Some k -> upper_event u e wait m -> keepalive_step KEEPALIVE_TICKS ok e k [] = r ->
    (forall k' l, r <> EOk true k' l) ->
    upper_step u (mkUpper None (up_down u) (up_wait u) (up_sent u) (up_received u)).

(** The secure channel of side [a] handles an event: its user is the keepalive task. *)
Inductive secure_event (c : Link) : SecureChannelEvent -> list bytes -> list bytes -> list bytes -> Prop :=
| secure_user d rest : up_down (lk_a c) = d :: rest -> secure_event c (ScUser d) (pr_ba (lk_pair c)) [d] rest
| secure_tick : secure_event c ScTimerTick (pr_ba (lk_pair c)) [] (up_down (lk_a c))
| secure_read m rest : pr_ba (lk_pair c) = m :: rest -> secure_event c (ScReader m) rest [] (up_down (lk_a c)).

Inductive half_step (c : Link) : Link -> Prop :=
| half_upper u : upper_step (lk_a c) u -> half_step c (mkLink (lk_pair c) u (lk_b c))
| half_secure e ba d down l acts :
    secure_event c e ba d down -> secure_channel_step (Z.to_nat TICKS_TO_REKEY) true (pr_a (lk_pair c)) e = Ok (Some l, acts) ->
    half_step c
      (mkLink (mkPair l (pr_b (lk_pair c)) (pr_ab (lk_pair c) ++ writes acts) ba (sent_a (lk_pair c) ++ d) (recv_b (lk_pair c))
                 (sent_b (lk_pair c)) (recv_a (lk_pair c) ++ to_users acts) (pr_total (lk_pair c) + Z.of_nat (length (writes acts))))
         (mkUpper (up_keepalive (lk_a c)) down (up_wait (lk_a c) ++ to_users acts) (up_sent (lk_a c)) (up_received (lk_a c)))
         (lk_b c)).

(** A step of either side. A task that has failed or waits takes no steps. *)
Inductive link_step (c : Link) : Link -> Prop :=
| link_a c' : half_step c c' -> link_step c c'
| link_b c' : half_step (link_swap c) c' -> link_step c (link_swap c').

(** A direction: what the secure channel has carried from the keepalive task [a] to
    the keepalive task [b] are messages of keepalive. *)
Record direction (sent recv : list bytes) (a b : Upper) : Prop := mkDirection {
  dir_wire : Forall (fun m => exists ka, m = ka_proto_serialize ka) (sent ++ up_down a);
  dir_sent : omap payload (sent ++ up_down a) = up_sent a;
  dir_received : exists taken, recv = taken ++ up_wait b /\ up_received b = omap payload taken
}.
Definition link_inv (c : Link) : Prop :=
  direction (sent_a (lk_pair c)) (recv_b (lk_pair c)) (lk_a c) (lk_b c) /\
  direction (sent_b (lk_pair c)) (recv_a (lk_pair c)) (lk_b c) (lk_a c).

Lemma link_inv_swap c : link_inv c -> link_inv (link_swap c).
Proof. intros [Ha Hb]. by split. Qed.

(** What one event of a keepalive task sends and delivers. *)
Lemma keepalive_step_effect k ok e s s' l :
  keepalive_step k ok e s [] = EOk true s' l ->
  match e with
  | KaMessageFromUser m => to_remote l = [ka_proto_serialize (KaData m)] /\ to_user l = []
  | KaMessageFromRemote m => to_remote l = [] /\ to_user l = option_list (payload m)
  | KaTimerTick => (to_remote l = [] \/ to_remote l = [ka_proto_serialize KaKeepAlive]) /\ to_user l = []
  | _ => False
  end.
Proof.
  unfold payload. destruct e as [| | | |m|m]; try done; simpl; unfold ebind, eget, eput, eret, efail, try_emit; intros Hs.
  - repeat (case_match; simplify_eq/=); simpl; auto.
  - destruct (ka_proto_deserialize m) as [[|d]|]; simplify_eq/=; repeat (case_match; simplify_eq/=); done.
  - repeat (case_match; simplify_eq/=); done.
Qed.

Lemma omap_payload_data m : omap payload [ka_proto_serialize (KaData m)] = [m].
Proof. simpl. by rewrite payload_ser. Qed.
Lemma omap_payload_keepalive : omap payload [ka_proto_serialize KaKeepAlive] = [].
Proof. simpl. by rewrite payload_ser. Qed.

Lemma upper_step_direction a a' sent recv b sent' recv' :
  upper_step a a' -> direction sent recv a b -> direction sent' recv' b a ->
  direction sent recv a' b /\ direction sent' recv' b a'.
Proof.
  intros Hs [Hw Hsent Hrecv] [Hw' Hsent' (taken & -> & Hr)].
  destruct Hs as [ok k e wait m k' l Hk He Hst|ok k e wait m r Hk He Hst Hend]; [|split; split; try done; by exists taken].
  assert (Forall (fun m => exists ka, m = ka_proto_serialize ka) ((sent ++ up_down a) ++ to_remote l) /\
          omap payload ((sent ++ up_down a) ++ to_remote l) = up_sent a ++ m /\
          exists taken', taken ++ up_wait a = taken' ++ wait /\ up_received a ++ to_user l = omap payload taken') as (Hwire & Hdown & Hup).
  { apply keepalive_step_effect in Hst.
    destruct He as [m|m rest Hwait| |e [-> | [-> | ->]]]; try done; destruct Hst as [Hl Hu]; rewrite Hu, Forall_app, omap_app, Hsent.
    - rewrite Hl, Forall_singleton, omap_payload_data, app_nil_r. split_and!; eauto.
    - rewrite Hl. split_and!; try done. exists (taken ++ [m]). rewrite Hwait, <- app_assoc, omap_app, Hr. split; [done|].
      simpl. by destruct (payload m).
    - rewrite app_nil_r. destruct Hl as [-> | ->]; rewrite ?Forall_singleton, ?omap_payload_keepalive, ?app_nil_r; split_and!; eauto. }
  split; split; cbn [up_keepalive up_down up_wait up_sent up_received]; rewrite ?(app_assoc sent); done.
Qed.

Lemma half_step_inv c c' : half_step c c' -> link_inv c -> link_inv c'.
Proof.
  intros Hs [Ha Hb]. destruct Hs as [u Hu|e ba d down l acts He Hst].
  - exact (upper_step_direction _ _ _ _ _ _ _ Hu Ha Hb).
  - assert (up_down (lk_a c) = d ++ down) as Hd by by destruct He.
    destruct Ha as [Hw Hsent Hr], Hb as [Hw' Hsent' (taken & Ht & Hr')].
    split; split; cbn [lk_pair lk_a lk_b sent_a recv_b sent_b recv_a up_keepalive up_down up_wait up_sent up_received];
      rewrite <- ?app_assoc, <- ?Hd; try done.
    exists taken. by rewrite Ht, app_assoc.
Qed.
Lemma half_step_pair c c' :
  half_step c c' -> rtc (SecureChannelTheory.pair_step (Z.to_nat TICKS_TO_REKEY)) (lk_pair c) (lk_pair c').
Proof.
  intros [u Hu|e ba d down l acts He Hst]; [apply rtc_refl|]. apply rtc_once, step_a. apply (side_step_intro _ _ e); [|exact Hst].
  by destruct He; constructor.
Qed.
Lemma pair_steps_swap ticks p p' :
  rtc (SecureChannelTheory.pair_step ticks) p p' -> rtc (SecureChannelTheory.pair_step ticks) (SecureChannelTheory.swap p) (SecureChannelTheory.swap p').
Proof.
  intros Hs. induction Hs as [p|p p1 p' Hs _ IH]; [apply rtc_refl|]. eapply rtc_l; [|exact IH].
  destruct Hs as [p1 Hs|p1 Hs]; [apply step_b; by destruct p|destruct p1; by apply step_a].
Qed.
Lemma swap_swap p : SecureChannelTheory.swap (SecureChannelTheory.swap p) = p.
Proof. by destruct p. Qed.

Lemma link_steps_inv c c' :
  rtc link_step c c' -> link_inv c ->
  link_inv c' /\ rtc (SecureChannelTheory.pair_step (Z.to_nat TICKS_TO_REKEY)) (lk_pair c) (lk_pair c').
Proof.
  intros Hs. induction Hs as [c|c c1 c' Hs _ IH]; intros Hinv; [split; [done|apply rtc_refl]|]. destruct Hs as [c1 Hs|c1 Hs].
  - destruct (IH (half_step_inv _ _ Hs Hinv)) as [Hinv' Hrun]. split; [done|]. etrans; [by apply half_step_pair|exact Hrun].
  - destruct (IH (link_inv_swap _ (half_step_inv _ _ Hs (link_inv_swap _ Hinv)))) as [Hinv' Hrun]. split; [done|].
    etrans; [|exact Hrun]. apply half_step_pair, pair_steps_swap in Hs. simpl in Hs. by rewrite swap_swap in Hs.
Qed.

Definition upper_new (k : KeepAlive) : Upper := mkUpper (Some k) [] [] [] [].
Definition link_new (a b : ScLoop) (ka kb : KeepAlive) : Link := mkLink (fresh_pair a b) (upper_new ka) (upper_new kb).
Lemma link_new_inv a b ka kb : link_inv (link_new a b ka kb).
Proof. split; split; try done; try constructor; by exists []. Qed.

(** The user of [b] has received, in order and unchanged, what the user of [a] has
    sent, up to what is on its way through the stacks; and what is on its way is
    accepted by the next task. *)
Definition carried (c : Link) : Prop :=
  up_received (lk_b c) `prefix_of` up_sent (lk_a c) /\
  (up_down (lk_a c) = [] -> pr_ab (lk_pair c) = [] -> up_wait (lk_b c) = [] -> up_received (lk_b c) = up_sent (lk_a c)) /\
  (forall m rest k, up_wait (lk_b c) = m :: rest ->
     exists k' l, keepalive_step KEEPALIVE_TICKS (fun _ => true) (KaMessageFromRemote m) k [] = EOk true k' l) /\
  (forall m rest, pr_ab (lk_pair c) = m :: rest ->
     exists l acts, secure_channel_step (Z.to_nat TICKS_TO_REKEY) true (pr_b (lk_pair c)) (ScReader m) = Ok (Some l, acts)).

Lemma carried_inv c :
  rekey_encrypts -> link_inv c -> pair_inv (lk_pair c) -> pr_total (lk_pair c) < 2 ^ 96 -> carried c.
Proof.
  intros Henc [[Hw Hsent (taken & Hr & Hu)] _] Hp Hlt. pose proof Hp as (_ & qab & qba & Hl & Ha & _). unfold carried. split_and!.
  - rewrite <- Hsent, Hu, Ha, Hr, !omap_app, <- !app_assoc. by apply prefix_app_r.
  - intros Hd Hq Hwait. rewrite Hq in Hl. apply linked_empty in Hl as ->. rewrite <- Hsent, Hu, Hd, Ha, Hr, Hwait. by rewrite !app_nil_r.
  - intros m rest k Hwait. rewrite Ha, Hr, Hwait in Hw. apply Forall_app in Hw as [[[_ [Hm _]%Forall_cons]%Forall_app _]%Forall_app _].
    destruct Hm as [ka ->]. unfold keepalive_step. rewrite ka_roundtrip. unfold ebind, eget, eput, try_emit. destruct ka; simpl; eauto.
  - intros m rest Hm. destruct (read_step (Z.to_nat TICKS_TO_REKEY) (SecureChannelTheory.swap (lk_pair c)) m rest) as (l & acts & Hst & _);
      eauto using pair_inv_swap.
Qed.
End Messages.

Section Connected.
Context `{ScCryptoOps} `{!ScCryptoLaws} `{CryptoOps} `{ProtoSerialize ChannelMessage} `{!ProtoSerializeLaws ChannelMessage}.
Context `{ProtoSerialize ExchangeRandNonce} `{!ProtoSerializeLaws ExchangeRandNonce}.
Context `{ProtoSerialize ExchangeDh} `{!ProtoSerializeLaws ExchangeDh}.
Context `{KaSerde} `{!KaSerdeLaws}.

(** Nothing local fails, and the exchange is done in time. *)
Definition env_ok (v : Env) : Prop :=
  ev_spawned v = true /\ ev_timer_timeout v = true /\ ev_timer_secure v = true /\ ev_timer_keepalive v = true /\
  ev_writer_ok v = (true, true) /\ exists t, ev_ready v = Some t /\ t < CONN_TIMEOUT_TICKS.

Lemma prefix_written version ms :
  u_ok 32 version -> prefix_received version (prefix_sent version ms (S (length ms))) (S (length ms)) = ms.
Proof.
  intros Hv. destruct (version_prefix_transparent version version ms (S (length ms)) (S (length ms)) [] Hv Hv) as [-> _].
  rewrite Z.eqb_refl. apply take_ge. lia.
Qed.
Lemma prefix_sent_length version (ms : list bytes) : length (prefix_sent version ms (S (length ms))) = S (length ms).
Proof. unfold prefix_sent. rewrite length_take. simpl. lia. Qed.

(** One side of a handshake that succeeds. *)
Lemma create_connection_ok (pk : PublicKey) `{!SignerOps pk} v o g g_loop s written incoming :
  env_ok v -> initial_exchange pk o (true, true) incoming g = Ok (s, written, []) ->
  exists t, create_version_encrypt_keepalive pk v o (prefix_sent PROTOCOL_VERSION incoming (S (length incoming))) g g_loop =
    Some (t, Some (mkConn (sc_remote_public_key s)
      (mkStack (Some (mkScLoop s (Z.to_nat TICKS_TO_REKEY) g_loop)) (Some (keepalive_new KEEPALIVE_TICKS)))
      (prefix_sent PROTOCOL_VERSION written (S (length written))) [])).
Proof.
  intros (Hsp & Htt & Hts & Htk & Hw & t & Ht & Hlt) Hi. exists t.
  unfold create_version_encrypt_keepalive, timed_transform, version_encrypt_keepalive, encrypt_keepalive, secure_transform, keepalive_transform.
  rewrite Htt, Ht, prefix_sent_length, prefix_written by by vm_compute. rewrite Hw, Hi, Hsp, Hts, Htk. cbn [fmap option_fmap option_map].
  by rewrite (proj2 (Z.ltb_lt _ _) Hlt).
Qed.

(** C14. Two honest sides of this version that connect to each other, each expecting the
    other or anyone, have a connection, with the key of the other, when the exchange
    is done in time; and whatever then happens (messages of the users, ticks,
    keepalives, changes of keys, tasks that end), each user has received, in order and
    unchanged, what the other has sent, up to what is on its way, everything when
    nothing is on its way, and everything on its way is accepted by the next task. *)
Theorem connection_carries_messages (pk_a pk_b : PublicKey) (sa : SignerOps pk_a) (sb : SignerOps pk_b)
  (oa ob : option PublicKey) (ga gb ga' gb' : rng) (va vb : Env)
  (Henc : rekey_encrypts) (Hoa : oa = None \/ oa = Some pk_b) (Hob : ob = None \/ ob = Some pk_a)
  (Hva : env_ok va) (Hvb : env_ok vb) :
  exists a b ta tb la lb ka kb,
    create_version_encrypt_keepalive pk_a va oa (co_written b) ga ga' = Some (ta, Some a) /\
    create_version_encrypt_keepalive pk_b vb ob (co_written a) gb gb' = Some (tb, Some b) /\
    co_public_key a = pk_b /\ co_public_key b = pk_a /\
    co_stack a = mkStack (Some la) (Some ka) /\ co_stack b = mkStack (Some lb) (Some kb) /\
    forall c, rtc link_step (link_new la lb ka kb) c -> pr_total (lk_pair c) < 2 ^ 96 -> carried c /\ carried (link_swap c).
Proof.
  destruct (handshake_agreement pk_a pk_b sa sb oa ob ga gb Hoa Hob) as (s & s' & ma & mb & Ha & Hb & Hla & Hlb & Hj).
  destruct (create_connection_ok pk_a va oa ga ga' _ _ _ Hva Ha) as [ta Hca].
  destruct (create_connection_ok pk_b vb ob gb gb' _ _ _ Hvb Hb) as [tb Hcb].
  pose proof Hj as (Hra & Hrb & _). match type of Hca with _ = Some (_, Some ?a) => exists a end. match type of Hcb with _ = Some (_, Some ?b) => exists b end.
  do 6 eexists. cbn [co_written]. split; [exact Hca|]. split; [exact Hcb|]. cbn [co_public_key co_stack].
  split_and!; [by rewrite Hra|by rewrite Hrb|done|done|]. intros c Hrun Hlt.
  destruct (link_steps_inv _ _ Hrun (link_new_inv _ _ _ _)) as [Hinv Hsteps].
  assert (pair_inv (lk_pair c)) as Hp by (eapply pair_steps_inv; eauto; by apply joined_inv).
  split; apply carried_inv; try done; [by apply link_inv_swap|by apply pair_inv_swap].
Qed.

(** A side that declares another version is refused. *)
Lemma other_version_refused (pk : PublicKey) `{!SignerOps pk} v o g g_loop version version' ms n :
  u_ok 32 version -> u_ok 32 version' -> version <> version' ->
  version_encrypt_keepalive pk version v o (prefix_sent version' ms n) g g_loop = None.
Proof.
  intros Hv Hv' Hne. destruct (version_encrypt_keepalive pk version v o _ g g_loop) as [c|] eqn:Hc; [|done].
  apply version_encrypt_keepalive_inv in Hc as (_ & _ & _ & []).
  destruct (version_prefix_transparent version version' ms n (length (prefix_sent version' ms n)) [] Hv Hv') as [-> _].
  by rewrite (proj2 (Z.eqb_neq _ _)) by done.
Qed.
End Connected.

Module ConnectionSamples.
Import Toy FunderSamples ScToy KeepAliveSamples.
Definition env : Env := mkEnv true true true true (true, true) (Some 3) false.
Lemma env_good : env_ok env.
Proof. by repeat (split; [done|]); exists 3. Qed.

(** Alice connects to Bob, who accepts anyone. *)
Lemma connection_carries_messages_witness :
  exists a b ta tb la lb ka kb,
    create_version_encrypt_keepalive alice env (Some bob) (co_written b) (seed 0) (seed 1) = Some (ta, Some a) /\
    create_version_encrypt_keepalive bob env None (co_written a) (seed 7) (seed 8) = Some (tb, Some b) /\
    co_public_key a = bob /\ co_public_key b = alice /\
    co_stack a = mkStack (Some la) (Some ka) /\ co_stack b = mkStack (Some lb) (Some kb) /\
    forall c, rtc link_step (link_new la lb ka kb) c -> pr_total (lk_pair c) < 2 ^ 96 -> carried c /\ carried (link_swap c).
Proof.
  apply (connection_carries_messages alice bob _ _ (Some bob) None (seed 0) (seed 7) (seed 1) (seed 8) env env).
  - intros k n pad r. by eexists.
  - by right.
  - by left.
  - exact env_good.
  - exact env_good.
Defined.
End ConnectionSamples.
