(* ===== verification/Stctrl.v ===== *)
(** * The control application ([stctrl/src])

    The commands with which a user pays and issues invoices, configures a node and
    checks receipts and tokens. A command reads and writes files and talks to the
    node over a connection; the messages that arrive are given in advance, and each
    effect may fail. *)

From S2P Require Import Prelude Arith Bytes Messages Canonical FunderState Report Handler HandleControl IndexMessages AppServer AppConn.
From S2P Require Import MultiRoute Effects FileStore.
From stdpp Require Import pretty.

(** ** Files ([file.rs], [proto/src/file.rs]) *)
Record InvoiceFile := mkInvoiceFile {
  inf_invoice_id : InvoiceId; inf_currency : Currency; inf_dest_public_key : PublicKey; inf_dest_payment : Z
}.
Record PaymentFile := mkPaymentFile { pmf_payment_id : PaymentId }.
(** [#[mutual_from]]: the same fields. *)
Notation CommitFile := Messages.Commit.
Notation ReceiptFile := Messages.Receipt.
Notation TokenFile := MoveTokenHashedReport.
Notation RelayAddressFile := RelayAddress.
Record IndexServerFile (B : Type) := mkIndexServerFile { isf_public_key : PublicKey; isf_address : B }.
Arguments mkIndexServerFile {B}. Arguments isf_public_key {B}. Arguments isf_address {B}.
Record FriendFile (B : Type) := mkFriendFile { ff_public_key : PublicKey; ff_relays : list (RelayAddressFile B) }.
Arguments mkFriendFile {B}. Arguments ff_public_key {B}. Arguments ff_relays {B}.

(** ** Commands *)
Inductive BuyerCmd := PayInvoiceCmd (invoice_path payment_path commit_path : string) | PaymentStatusCmd (payment_path receipt_path : string).
Inductive SellerCmd :=
| CreateInvoiceCmd (currency_name : string) (amount : Z) (invoice_path : string)
| CancelInvoiceCmd (invoice_path : string)
| CommitInvoiceCmd (invoice_path commit_path : string).
Inductive ConfigCmd :=
| AddRelayCmd (relay_path relay_name : string)
| RemoveRelayCmd (relay_name : string)
| AddIndexCmd (index_path index_name : string)
| RemoveIndexCmd (index_name : string)
| AddFriendCmd (friend_path friend_name : string)
| SetFriendRelaysCmd (friend_path friend_name : string)
| RemoveFriendCmd (friend_name : string)
| EnableFriendCmd (friend_name : string)
| DisableFriendCmd (friend_name : string)
| OpenFriendCurrencyCmd (friend_name currency_name : string)
| CloseFriendCurrencyCmd (friend_name currency_name : string)
| SetFriendCurrencyMaxDebtCmd (friend_name currency_name : string) (max_debt : Z)
| SetFriendCurrencyRateCmd (friend_name currency_name : string) (mul add : Z)
| RemoveFriendCurrencyCmd (friend_name currency_name : string)
| ResetFriendCmd (friend_name : string).

(** The errors that are returned. *)
Inductive BuyerError :=
| BuAppRoutesError | BuNoSuitableRoute | BuCommitFileAlreadyExists | BuReceiptFileAlreadyExists | BuPaymentFileAlreadyExists
| BuWriteError | BuCreatePaymentFailed | BuCreateTransactionFailed | BuRequestClosePaymentError | BuAckClosePaymentError
| BuRemovePaymentError | BuPaymentIncomplete | BuIoError | BuStringSerdeError.
Inductive SellerError :=
| SeInvoiceFileAlreadyExists | SeAddInvoiceError | SeCancelInvoiceError | SeCommitInvoiceError | SeInvoiceCommitMismatch
| SeRemoveInvoiceError | SeIoError | SeStringSerdeError | SeInvalidCurrencyName | SeInvalidCommit.
Inductive ConfigError :=
| CoRelayNameAlreadyExists | CoRelayFileNotFound | CoAppConfigError | CoRelayNameNotFound | CoIndexNameAlreadyExists
| CoIndexFileNotFound | CoFriendNameAlreadyExists | CoFriendFileNotFound | CoFriendPublicKeyMismatch | CoFriendNameNotFound
| CoChannelNotInconsistent | CoUnknownRemoteResetTerms | CoIoError | CoStringSerdeError | CoInvalidCurrencyName.
Inductive StVerifyError := VeWriteError | VeTokenInvalid | VeInvoiceIdMismatch | VeDestPaymentMismatch | VeInvalidReceipt | VeIoError | VeStringSerdeError.

Definition newline : string := String (Ascii.ascii_of_nat 10) "".
Inductive CtlAction (B : Type) :=
| CaSend (m : AppToAppServer B)
| CaRead (path : string)
| CaCreate (path : string)
| CaWrite (path text : string)
| CaRemove (path : string)
| CaPrintFees (total_fees : Z)
| CaPrint (line : string)
| CaPrintTable (titles : list string) (rows : list (list string)).
Arguments CaSend {B}. Arguments CaRead {B}. Arguments CaCreate {B}. Arguments CaWrite {B}. Arguments CaRemove {B}.
Arguments CaPrintFees {B}. Arguments CaPrint {B}. Arguments CaPrintTable {B}.

Record CtlState `{RngOps} (B : Type) := mkCtlState {
  ct_files : gmap string string;
  ct_incoming : list (AppServerToApp B);
  ct_rng : rng
}.
Arguments mkCtlState {_ B}. Arguments ct_files {_ B}. Arguments ct_incoming {_ B}. Arguments ct_rng {_ B}.

Section Stctrl.
Context `{CryptoOps} `{RngOps} {B : Type}.
Context `{!Json InvoiceFile} `{!Json PaymentFile} `{!Json CommitFile} `{!Json ReceiptFile}.
Context `{!Json (RelayAddressFile B)} `{!Json (IndexServerFile B)} `{!Json (FriendFile B)} `{!Json TokenFile}.
Context (ok : nat -> bool).
Notation St := (CtlState B).
Notation M E := (Eff St E (CtlAction B)).

(** ** Effects *)
Definition with_files (s : St) (f : gmap string string) : St := mkCtlState f (ct_incoming s) (ct_rng s).
Definition with_incoming (s : St) (i : list (AppServerToApp B)) : St := mkCtlState (ct_files s) i (ct_rng s).

(** [gen_uid], [gen_payment_id], [gen_invoice_id] *)
Definition gen {E} (n : nat) : M E (fixed_bytes n) :=
  let* s := eget in
  let (id, g) := rng_fill n (ct_rng s) in
  let* _ := eput (mkCtlState (ct_files s) (ct_incoming s) g) in
  eret id.
Definition path_exists {E} (path : string) : M E bool :=
  let* s := eget in eret (bool_decide (is_Some (ct_files s !! path))).
(** [deserialize_from_string(&fs::read_to_string(path)?)?] *)
Definition read_file {E A} `{Json A} (io_error serde_error : E) (path : string) : M E A :=
  let* _ := emit ok io_error (CaRead path) in
  let* s := eget in
  match ct_files s !! path with
  | None => efail io_error
  | Some text => match from_string text with Some a => eret a | None => efail serde_error end
  end.
(** [File::create(path)?] and [write_all(serialize_to_string(a)?)?] *)
Definition write_file {E A} `{Json A} (io_error serde_error : E) (path : string) (a : A) : M E unit :=
  let* _ := emit ok io_error (CaCreate path) in
  let* s := eget in
  let* _ := eput (with_files s (<[path := ""%string]> (ct_files s))) in
  match to_string a with
  | None => efail serde_error
  | Some text =>
      let* _ := emit ok io_error (CaWrite path text) in
      let* s := eget in eput (with_files s (<[path := text]> (ct_files s)))
  end.
Definition remove_file {E} (e : E) (path : string) : M E unit :=
  let* s := eget in
  match ct_files s !! path with
  | None => efail e
  | Some _ => let* _ := emit ok e (CaRemove path) in eput (with_files s (delete path (ct_files s)))
  end.
Definition send_request {E} (e : E) (id : Uid) (request : AppRequest B) : M E unit :=
  emit ok e (CaSend (mkAppToAppServer id request)).

(** The loops over incoming messages, until one is accepted; the others are dropped. *)
Fixpoint skip_until {A} (accept : AppServerToApp B -> option A) (incoming : list (AppServerToApp B)) : option (A * list (AppServerToApp B)) :=
  match incoming with
  | [] => None
  | m :: incoming' => match accept m with Some a => Some (a, incoming') | None => skip_until accept incoming' end
  end.
Definition wait_for {E A} (e : E) (accept : AppServerToApp B -> option A) : M E A :=
  let* s := eget in
  match skip_until accept (ct_incoming s) with
  | Some (a, rest) => let* _ := eput (with_incoming s rest) in eret a
  | None => let* _ := eput (with_incoming s []) in efail e
  end.
Definition acks (id : Uid) (m : AppServerToApp B) : option unit :=
  match m with
  | ToAppReportMutations rm =>
      match rm_opt_app_request_id rm with
      | Some id' => if decide (id' = id) then Some tt else None
      | None => None
      end
  | _ => None
  end.
(** A request with its acknowledgement. *)
Definition request_acked {E} (e : E) (request : AppRequest B) : M E unit :=
  let* id := gen 16 in
  let* _ := send_request e id request in
  wait_for e (acks id).

(** ** Buying ([buyer.rs]) *)
Definition routes_found (id : Uid) (m : AppServerToApp B) : option (list MultiRoute) :=
  match m with
  | ToAppResponseRoutes r =>
      if decide (cr_request_id r = id) then
        match cr_result r with RoutesSuccess multi_routes => Some multi_routes | RoutesFailure => None end
      else None
  | _ => None
  end.
Definition request_routes (currency : Currency) (dest_payment : Z) (src_public_key dest_public_key : PublicKey)
  (opt_exclude : option (PublicKey * PublicKey)) : M BuyerError (list MultiRoute) :=
  let* request_routes_id := gen 16 in
  let* id := gen 16 in
  let* _ := send_request BuAppRoutesError id
    (routes.request_routes request_routes_id currency dest_payment src_public_key dest_public_key opt_exclude) in
  wait_for BuAppRoutesError (routes_found request_routes_id).

Definition create_payment (payment_id : PaymentId) (invoice_id : InvoiceId) (currency : Currency) (total_dest_payment : Z)
  (dest_public_key : PublicKey) : M BuyerError unit :=
  request_acked BuCreatePaymentFailed (buyer.create_payment payment_id invoice_id currency total_dest_payment dest_public_key).
Definition request_close_payment_nowait (payment_id : PaymentId) : M BuyerError unit :=
  request_acked BuRequestClosePaymentError (buyer.request_close_payment payment_id).
Definition request_close_payment (payment_id : PaymentId) : M BuyerError PaymentStatus :=
  let* id := gen 16 in
  let* _ := send_request BuRequestClosePaymentError id (buyer.request_close_payment payment_id) in
  wait_for BuRequestClosePaymentError (fun m =>
    match m with
    | ToAppResponseClosePayment r => if decide (payment_id = rcp_payment_id r) then Some (rcp_status r) else None
    | _ => None
    end).
Definition ack_close_payment (payment_id : PaymentId) (ack_uid : Uid) : M BuyerError unit :=
  request_acked BuAckClosePaymentError (buyer.ack_close_payment payment_id ack_uid).

(** The total of the fees; the additions are unwrapped. *)
Fixpoint total_fees_from (total_fees : Z) (multi_route : MultiRoute) (choice : MultiRouteChoice) : option Z :=
  match choice with
  | [] => Some total_fees
  | (route_index, dest_payment) :: choice' =>
      let! route := mr_routes multi_route !! route_index in
      let! fee := calc_fee (rcr_rate route) dest_payment in
      let! total_fees := checked_u 128 (total_fees + fee) in
      total_fees_from total_fees multi_route choice'
  end.
(** The loop that creates a transaction for each route; the requests it made. *)
Fixpoint create_transactions (payment_id : PaymentId) (multi_route : MultiRoute) (choice : MultiRouteChoice) (requests : gset Uid) :
  M BuyerError (gset Uid) :=
  match choice with
  | [] => eret requests
  | (route_index, dest_payment) :: choice' =>
      let* route := eunwrap (mr_routes multi_route !! route_index) in
      let* request_id := gen 16 in
      let* fee := eunwrap (calc_fee (rcr_rate route) dest_payment) in
      let* id := gen 16 in
      let* _ := send_request BuCreateTransactionFailed id
                  (buyer.create_transaction payment_id request_id (rcr_route route) dest_payment fee) in
      create_transactions payment_id multi_route choice' ({[request_id]} ∪ requests)
  end.
(** The loop over transaction results. *)
Fixpoint await_commit (requests : gset Uid) (incoming : list (AppServerToApp B)) : outcome BuyerError (Messages.Commit * list (AppServerToApp B)) :=
  match incoming with
  | [] => Err BuPaymentIncomplete
  | ToAppTransactionResult r :: incoming' =>
      if decide (tr_request_id r ∈ requests) then
        match tr_result r with
        | RequestComplete commit => Ok (commit, incoming')
        | RequestSuccess => await_commit (requests ∖ {[tr_request_id r]}) incoming'
        | RequestFailure => Err BuCreateTransactionFailed
        end
      else Err BuCreateTransactionFailed
  | _ :: incoming' => await_commit requests incoming'
  end.

Definition buyer_pay_invoice (invoice_path payment_path commit_path : string) (local_public_key : PublicKey) : M BuyerError unit :=
  let* payment_exists := path_exists payment_path in
  if payment_exists : bool then efail BuPaymentFileAlreadyExists else
  let* commit_exists := path_exists commit_path in
  if commit_exists : bool then efail BuCommitFileAlreadyExists else
  let* invoice_file := read_file (A := InvoiceFile) BuIoError BuStringSerdeError invoice_path in
  let* multi_routes := request_routes (inf_currency invoice_file) (inf_dest_payment invoice_file) local_public_key
                         (inf_dest_public_key invoice_file) None in
  match choose_multi_route multi_routes (inf_dest_payment invoice_file) with
  | Panic => epanic
  | Err _ => efail BuNoSuitableRoute
  | Ok (route_index, multi_route_choice) =>
      let* multi_route := eunwrap (multi_routes !! route_index) in
      let* total_fees := eunwrap (total_fees_from 0 multi_route multi_route_choice) in
      let* _ := emit ok BuWriteError (CaPrintFees total_fees) in
      let* payment_id := gen 16 in
      let* _ := write_file BuIoError BuStringSerdeError payment_path (mkPaymentFile payment_id) in
      let* _ := create_payment payment_id (inf_invoice_id invoice_file) (inf_currency invoice_file) (inf_dest_payment invoice_file)
                  (inf_dest_public_key invoice_file) in
      let* requests := create_transactions payment_id multi_route multi_route_choice ∅ in
      let* _ := request_close_payment_nowait payment_id in
      let* s := eget in
      match await_commit requests (ct_incoming s) with
      | Ok (commit, rest) =>
          let* _ := eput (with_incoming s rest) in
          let* _ := emit ok BuWriteError (CaPrint "Payment successful!") in
          write_file BuIoError BuStringSerdeError commit_path commit
      | Err e => efail e
      | Panic => epanic
      end
  end.

Definition buyer_payment_status (payment_path receipt_path : string) : M BuyerError unit :=
  let* receipt_exists := path_exists receipt_path in
  if receipt_exists : bool then efail BuReceiptFileAlreadyExists else
  let* payment_file := read_file (A := PaymentFile) BuIoError BuStringSerdeError payment_path in
  let payment_id := pmf_payment_id payment_file in
  let* payment_status := request_close_payment payment_id in
  let* opt_ack_uid := (match payment_status with
    | PaymentNotFound =>
        let* _ := emit ok BuWriteError (CaPrint "Payment could not be found") in
        let* _ := remove_file BuRemovePaymentError payment_path in
        eret None
    | PaymentSuccess receipt ack_uid =>
        let* _ := emit ok BuWriteError (CaPrint "Payment succeeded. Saving receipt to file.") in
        let* _ := write_file BuIoError BuStringSerdeError receipt_path receipt in
        eret (Some ack_uid)
    | PaymentCanceled ack_uid =>
        let* _ := emit ok BuWriteError (CaPrint "Payment was canceled.") in
        eret (Some ack_uid)
    end) in
  match opt_ack_uid with
  | Some ack_uid =>
      let* _ := ack_close_payment payment_id ack_uid in
      remove_file BuRemovePaymentError payment_path
  | None => eret tt
  end.

Definition buyer_cmd (cmd : BuyerCmd) (node_report : NodeReport B) : M BuyerError unit :=
  match cmd with
  | PayInvoiceCmd invoice_path payment_path commit_path =>
      buyer_pay_invoice invoice_path payment_path commit_path (rp_local_public_key (funder_report node_report))
  | PaymentStatusCmd payment_path receipt_path => buyer_payment_status payment_path receipt_path
  end.

(** ** Selling ([seller.rs]); the errors of [seller_request] are replaced. *)
Definition seller_create_invoice (currency_name : string) (amount : Z) (invoice_path : string) (local_public_key : PublicKey) : M SellerError unit :=
  match currency_try_from currency_name with
  | None => efail SeInvalidCurrencyName
  | Some currency =>
      let* invoice_exists := path_exists invoice_path in
      if invoice_exists : bool then efail SeInvoiceFileAlreadyExists else
      let* invoice_id := gen 32 in
      let* _ := request_acked SeAddInvoiceError (seller.add_invoice invoice_id currency amount) in
      write_file SeIoError SeStringSerdeError invoice_path (mkInvoiceFile invoice_id currency local_public_key amount)
  end.
Definition seller_cancel_invoice (invoice_path : string) : M SellerError unit :=
  let* invoice_file := read_file (A := InvoiceFile) SeIoError SeStringSerdeError invoice_path in
  let* _ := request_acked SeCancelInvoiceError (seller.cancel_invoice (inf_invoice_id invoice_file)) in
  remove_file SeRemoveInvoiceError invoice_path.
Definition seller_commit_invoice (invoice_path commit_path : string) : M SellerError unit :=
  let* invoice_file := read_file (A := InvoiceFile) SeIoError SeStringSerdeError invoice_path in
  let* commit := read_file (A := CommitFile) SeIoError SeStringSerdeError commit_path in
  if negb (verify_commit commit (inf_dest_public_key invoice_file)) then efail SeInvalidCommit
  else if negb (bool_decide (cm_invoice_id commit = inf_invoice_id invoice_file)) then efail SeInvoiceCommitMismatch
  else request_acked SeCommitInvoiceError (seller.commit_invoice commit).
Definition seller_cmd (cmd : SellerCmd) (node_report : NodeReport B) : M SellerError unit :=
  match cmd with
  | CreateInvoiceCmd currency_name amount invoice_path =>
      seller_create_invoice currency_name amount invoice_path (rp_local_public_key (funder_report node_report))
  | CancelInvoiceCmd invoice_path => seller_cancel_invoice invoice_path
  | CommitInvoiceCmd invoice_path commit_path => seller_commit_invoice invoice_path commit_path
  end.

(** ** Configuration ([config.rs], [utils.rs]) *)
Definition friend_public_key_by_name (node_report : NodeReport B) (friend_name : string) : option PublicKey :=
  (fun x => x.2.1) <$> list_find (fun x => fr_name x.2 = friend_name) (map_to_list (rp_friends (funder_report node_report))).
(** The last of a list with a name. *)
Definition last_named {A} (name : A -> string) (n : string) (l : list A) : option A :=
  foldl (fun found x => if decide (name x = n) then Some x else found) None l.

Definition config_request (request : AppRequest B) : M ConfigError unit := request_acked CoAppConfigError request.
Definition with_friend (node_report : NodeReport B) (friend_name : string) (k : PublicKey -> M ConfigError unit) : M ConfigError unit :=
  match friend_public_key_by_name node_report friend_name with Some pk => k pk | None => efail CoFriendNameNotFound end.
Definition with_currency (currency_name : string) (k : Currency -> M ConfigError unit) : M ConfigError unit :=
  match currency_try_from currency_name with Some c => k c | None => efail CoInvalidCurrencyName end.

Definition config_add_relay (relay_path relay_name : string) (node_report : NodeReport B) : M ConfigError unit :=
  if bool_decide (relay_name ∈ map nra_name (rp_relays (funder_report node_report))) then efail CoRelayNameAlreadyExists else
  let* found := path_exists relay_path in
  if negb found then efail CoRelayFileNotFound else
  let* relay_file := read_file (A := RelayAddressFile B) CoIoError CoStringSerdeError relay_path in
  config_request (config.add_relay (mkNamedRelayAddress (ra_public_key relay_file) (ra_address relay_file) relay_name)).
Definition config_remove_relay (relay_name : string) (node_report : NodeReport B) : M ConfigError unit :=
  match last_named nra_name relay_name (rp_relays (funder_report node_report)) with
  | Some r => config_request (config.remove_relay (nra_public_key r))
  | None => efail CoRelayNameNotFound
  end.
Definition config_add_index (index_path index_name : string) (node_report : NodeReport B) : M ConfigError unit :=
  if bool_decide (index_name ∈ map ni_name (icr_index_servers (index_client_report node_report))) then efail CoIndexNameAlreadyExists else
  let* found := path_exists index_path in
  if negb found then efail CoIndexFileNotFound else
  let* index_server_file := read_file (A := IndexServerFile B) CoIoError CoStringSerdeError index_path in
  config_request (config.add_index_server (mkNamedIndexServer (isf_public_key index_server_file) (isf_address index_server_file) index_name)).
Definition config_remove_index (index_name : string) (node_report : NodeReport B) : M ConfigError unit :=
  match last_named ni_name index_name (icr_index_servers (index_client_report node_report)) with
  | Some i => config_request (config.remove_index_server (ni_public_key i))
  | None => efail CoRelayNameNotFound
  end.
Definition config_add_friend (friend_path friend_name : string) (node_report : NodeReport B) : M ConfigError unit :=
  if bool_decide (friend_name ∈ map (fun x => fr_name x.2) (map_to_list (rp_friends (funder_report node_report))))
  then efail CoFriendNameAlreadyExists else
  let* found := path_exists friend_path in
  if negb found then efail CoFriendFileNotFound else
  let* friend_file := read_file (A := FriendFile B) CoIoError CoStringSerdeError friend_path in
  config_request (config.add_friend (ff_public_key friend_file) (ff_relays friend_file) friend_name).
Definition config_set_friend_relays (friend_path friend_name : string) (node_report : NodeReport B) : M ConfigError unit :=
  with_friend node_report friend_name (fun friend_public_key =>
    let* found := path_exists friend_path in
    if negb found then efail CoFriendFileNotFound else
    let* friend_file := read_file (A := FriendFile B) CoIoError CoStringSerdeError friend_path in
    if negb (bool_decide (ff_public_key friend_file = friend_public_key)) then efail CoFriendPublicKeyMismatch
    else config_request (config.set_friend_relays friend_public_key (ff_relays friend_file))).
Definition config_remove_friend (friend_name : string) (node_report : NodeReport B) : M ConfigError unit :=
  with_friend node_report friend_name (fun pk => config_request (config.remove_friend pk)).
Definition config_enable_friend (friend_name : string) (node_report : NodeReport B) : M ConfigError unit :=
  with_friend node_report friend_name (fun pk => config_request (config.enable_friend pk)).
Definition config_disable_friend (friend_name : string) (node_report : NodeReport B) : M ConfigError unit :=
  with_friend node_report friend_name (fun pk => config_request (config.disable_friend pk)).
Definition config_open_friend_currency (friend_name currency_name : string) (node_report : NodeReport B) : M ConfigError unit :=
  with_friend node_report friend_name (fun pk => with_currency currency_name (fun c => config_request (config.open_friend_currency pk c))).
Definition config_close_friend_currency (friend_name currency_name : string) (node_report : NodeReport B) : M ConfigError unit :=
  with_friend node_report friend_name (fun pk => with_currency currency_name (fun c => config_request (config.close_friend_currency pk c))).
Definition config_set_friend_currency_max_debt (friend_name currency_name : string) (max_debt : Z) (node_report : NodeReport B) :
  M ConfigError unit :=
  with_friend node_report friend_name (fun pk =>
    with_currency currency_name (fun c => config_request (config.set_friend_currency_max_debt pk c max_debt))).
Definition config_set_friend_currency_rate (friend_name currency_name : string) (mul add : Z) (node_report : NodeReport B) :
  M ConfigError unit :=
  with_friend node_report friend_name (fun pk =>
    with_currency currency_name (fun c => config_request (config.set_friend_currency_rate pk c (mkRate mul add)))).
Definition config_remove_friend_currency (friend_name currency_name : string) (node_report : NodeReport B) : M ConfigError unit :=
  with_friend node_report friend_name (fun pk => with_currency currency_name (fun c => config_request (config.remove_friend_currency pk c))).
Definition config_reset_friend (friend_name : string) (node_report : NodeReport B) : M ConfigError unit :=
  match last_named (fun x => fr_name x.2) friend_name (map_to_list (rp_friends (funder_report node_report))) with
  | None => efail CoFriendNameNotFound
  | Some (friend_public_key, friend_report) =>
      match fr_channel_status friend_report with
      | ReportConsistent _ => efail CoChannelNotInconsistent
      | ReportInconsistent r =>
          match cir_opt_remote_reset_terms r with
          | Some remote_reset_terms => config_request (config.reset_friend_channel friend_public_key (rtr_reset_token remote_reset_terms))
          | None => efail CoUnknownRemoteResetTerms
          end
      end
  end.
Definition config_cmd (cmd : ConfigCmd) (node_report : NodeReport B) : M ConfigError unit :=
  match cmd with
  | AddRelayCmd relay_path relay_name => config_add_relay relay_path relay_name node_report
  | RemoveRelayCmd relay_name => config_remove_relay relay_name node_report
  | AddIndexCmd index_path index_name => config_add_index index_path index_name node_report
  | RemoveIndexCmd index_name => config_remove_index index_name node_report
  | AddFriendCmd friend_path friend_name => config_add_friend friend_path friend_name node_report
  | SetFriendRelaysCmd friend_path friend_name => config_set_friend_relays friend_path friend_name node_report
  | RemoveFriendCmd friend_name => config_remove_friend friend_name node_report
  | EnableFriendCmd friend_name => config_enable_friend friend_name node_report
  | DisableFriendCmd friend_name => config_disable_friend friend_name node_report
  | OpenFriendCurrencyCmd friend_name currency_name => config_open_friend_currency friend_name currency_name node_report
  | CloseFriendCurrencyCmd friend_name currency_name => config_close_friend_currency friend_name currency_name node_report
  | SetFriendCurrencyMaxDebtCmd friend_name currency_name max_debt =>
      config_set_friend_currency_max_debt friend_name currency_name max_debt node_report
  | SetFriendCurrencyRateCmd friend_name currency_name mul add =>
      config_set_friend_currency_rate friend_name currency_name mul add node_report
  | RemoveFriendCurrencyCmd friend_name currency_name => config_remove_friend_currency friend_name currency_name node_report
  | ResetFriendCmd friend_name => config_reset_friend friend_name node_report
  end.

(** ** Checking files ([stverifylib.rs], [signature/src]) *)
Definition move_token_hashed_report_signature_buff (r : MoveTokenHashedReport) : bytes :=
  as_bytes (sha_512_256 TOKEN_NEXT) ++ as_bytes (mthr_prefix_hash r) ++ as_bytes (hash_token_info (mthr_token_info r))
  ++ as_bytes (mthr_rand_nonce r).
Definition verify_move_token_hashed_report (r : MoveTokenHashedReport) (public_key : PublicKey) : bool :=
  verify_signature (move_token_hashed_report_signature_buff r) public_key (mthr_new_token r).

(** [public_key_to_string] encodes in base 64, with a third-party crate. *)
Context (public_key_to_string : PublicKey -> string).
Definition println {E} (write_error : E) (line : string) : M E unit := emit ok write_error (CaPrint line).
Definition stverify_verify_token (token_path : string) : M StVerifyError unit :=
  let* token_file := read_file (A := TokenFile) VeIoError VeStringSerdeError token_path in
  let ti := mthr_token_info token_file in
  if verify_move_token_hashed_report token_file (mi_local_public_key (ti_mc ti)) then
    let* _ := println VeWriteError "Token is valid!" in
    let* _ := println VeWriteError "" in
    let* _ := println VeWriteError ("local_public_key: " ++ public_key_to_string (mi_local_public_key (ti_mc ti)))%string in
    let* _ := println VeWriteError ("remote_public_key: " ++ public_key_to_string (mi_remote_public_key (ti_mc ti)))%string in
    let* _ := println VeWriteError ("inconsistency_counter: " ++ pretty (inconsistency_counter (ti_counters ti)))%string in
    let* _ := println VeWriteError ("move_token_counter: " ++ pretty (move_token_counter (ti_counters ti)))%string in
    let* _ := println VeWriteError ("balances:" ++ newline)%string in
    efor (mi_balances (ti_mc ti)) (fun cbi =>
      println VeWriteError ("- " ++ currency_str (cbi_currency cbi) ++ ": balance=" ++ pretty (bi_balance (cbi_balance_info cbi))
        ++ ", lpd=" ++ pretty (bi_local_pending_debt (cbi_balance_info cbi)) ++ ", rpd=" ++ pretty (bi_remote_pending_debt (cbi_balance_info cbi)))%string)
  else efail VeTokenInvalid.
Definition stverify_verify_receipt (invoice_path receipt_path : string) : M StVerifyError unit :=
  let* invoice_file := read_file (A := InvoiceFile) VeIoError VeStringSerdeError invoice_path in
  let* receipt := read_file (A := ReceiptFile) VeIoError VeStringSerdeError receipt_path in
  if negb (bool_decide (inf_invoice_id invoice_file = rc_invoice_id receipt)) then efail VeInvoiceIdMismatch
  else if negb (inf_dest_payment invoice_file =? rc_total_dest_payment receipt)%Z then efail VeDestPaymentMismatch
  else if verify_receipt receipt (inf_dest_public_key invoice_file) then println VeWriteError "Receipt is valid!"
  else efail VeInvalidReceipt.
End Stctrl.
