(* ===== verification/StctrlTheory.v ===== *)
(** * What the commands of the control application do

    Rules for the effects of commands, and theorems: a payment is on file before it
    is opened, and a receipt before the node may forget it; an invoice is paid
    exactly; commands that configure the node send one request. *)

From S2P Require Import Prelude Arith Bytes Messages Canonical FunderState Report Handler HandleControl IndexMessages AppServer AppConn.
From S2P Require Import MultiRoute Effects FileStore Stctrl.

(** ** Logs in which every effect was justified by what came before *)
Section Justified.
Context {B : Type} (P : list (CtlAction B) -> CtlAction B -> Prop).

Definition acts_ok (l : list (CtlAction B)) : Prop := forall l1 a l2, l = l1 ++ a :: l2 -> P l1 a.

Lemma acts_ok_nil : acts_ok [].
Proof. intros l1 a l2 Hl. by destruct l1. Qed.
Lemma acts_ok_snoc l a : P l a -> acts_ok l -> acts_ok (l ++ [a]).
Proof.
  intros Ha Hl l1 b l2 Heq. destruct l2 as [|x l2' _] using rev_ind.
  - by apply app_inj_tail in Heq as [-> ->].
  - rewrite app_comm_cons, app_assoc in Heq. apply app_inj_tail in Heq as [-> ->]. by eapply Hl.
Qed.
End Justified.
#[export] Hint Resolve acts_ok_nil acts_ok_snoc : effects.

Section Rules.
Context `{CryptoOps} `{RngOps} {B : Type} (ok : nat -> bool).
Context {E : Type} (Pn : Prop) (P : list (CtlAction B) -> CtlAction B -> Prop).
(** Reading and writing files and printing need no justification. *)
Definition neutral (a : CtlAction B) : bool := match a with CaSend _ | CaRemove _ => false | _ => true end.
Hypothesis Hneutral : forall l a, neutral a = true -> P l a.
Notation XL := (acts_ok P).
Notation WP := (wp (E := E) Pn (fun _ l => XL l)).
Implicit Types (s : CtlState B) (l : list (CtlAction B)).

Lemma wp_gen n Q s l : (forall id g, Q id (mkCtlState (ct_files s) (ct_incoming s) g) l) -> WP (gen n) Q s l.
Proof. intros HQ. unfold gen. wp_step. wp_step. destruct (rng_fill n (ct_rng s)) as [id g]. repeat wp_step. apply HQ. Qed.
Lemma wp_path_exists path Q s l : Q (bool_decide (is_Some (ct_files s !! path))) s l -> WP (path_exists path) Q s l.
Proof. intros HQ. unfold path_exists. by repeat wp_step. Qed.
Lemma wp_fail_log {A} (e : E) (Q : A -> CtlState B -> list (CtlAction B) -> Prop) s l : XL l -> WP (efail e) Q s l.
Proof. done. Qed.
Lemma wp_act (e : E) a Q s l : XL l -> P l a -> (XL (l ++ [a]) -> Q tt s (l ++ [a])) -> WP (emit ok e a) Q s l.
Proof. intros HX Ha HQ. apply wp_emit; [done|]. apply HQ. by apply acts_ok_snoc. Qed.
Lemma wp_harmless (e : E) a Q s l : XL l -> neutral a = true -> (XL (l ++ [a]) -> Q tt s (l ++ [a])) -> WP (emit ok e a) Q s l.
Proof. intros HX Ha. apply wp_act; [done|by apply Hneutral]. Qed.
Lemma wp_read_file {A} `{Json A} (e e' : E) path Q s l :
  XL l ->
  (forall text a, ct_files s !! path = Some text -> from_string text = Some a -> XL (l ++ [CaRead path]) -> Q a s (l ++ [CaRead path])) ->
  WP (read_file ok (A := A) e e' path) Q s l.
Proof.
  intros HX HQ. unfold read_file. wp_step. apply wp_harmless; [done|done|]. intros HX1. repeat wp_step.
  destruct (ct_files s !! path) as [text|] eqn:Et; [|by apply wp_fail_log]. destruct (from_string text) eqn:Ea; [|by apply wp_fail_log].
  wp_step. by eapply HQ.
Qed.
Lemma wp_write_file {A} `{Json A} (e e' : E) path (a : A) Q s l :
  XL l ->
  (forall text, to_string a = Some text -> XL (l ++ [CaCreate path; CaWrite path text]) ->
     Q tt (mkCtlState (<[path := text]> (ct_files s)) (ct_incoming s) (ct_rng s)) (l ++ [CaCreate path; CaWrite path text])) ->
  WP (write_file ok e e' path a) Q s l.
Proof.
  intros HX HQ. unfold write_file. wp_step. apply wp_harmless; [done|done|]. intros HX1. repeat wp_step.
  destruct (to_string a) as [text|] eqn:Ea; [|by apply wp_fail_log]. wp_step. apply wp_harmless; [done|done|]. rewrite <-app_assoc. simpl.
  intros HX2. repeat wp_step. unfold with_files. simpl. rewrite insert_insert_eq. by apply HQ.
Qed.
Lemma wp_remove_file (e : E) path Q s l :
  XL l -> P l (CaRemove path) ->
  (XL (l ++ [CaRemove path]) -> Q tt (with_files s (delete path (ct_files s))) (l ++ [CaRemove path])) -> WP (remove_file ok e path) Q s l.
Proof.
  intros HX HP HQ. unfold remove_file. repeat wp_step. destruct (ct_files s !! path); [|by apply wp_fail_log]. wp_step.
  apply wp_act; [done|done|]. intros HX1. wp_step. by apply HQ.
Qed.

Lemma skip_until_Some {A} (accept : AppServerToApp B -> option A) incoming a rest :
  skip_until accept incoming = Some (a, rest) -> exists m, m ∈ incoming /\ accept m = Some a /\ rest ⊆ incoming.
Proof.
  induction incoming as [|m incoming IH]; simpl; [done|]. destruct (accept m) eqn:Em.
  - intros [= <- <-]. exists m. split_and!; [by left|done|]. intros x Hx. by right.
  - intros (m' & Hm & Ha & Hsub)%IH. exists m'. split_and!; [by right|done|]. intros x Hx. right. by apply Hsub.
Qed.
Lemma wp_wait {A} (e : E) (accept : AppServerToApp B -> option A) Q s l :
  XL l ->
  (forall m a rest, m ∈ ct_incoming s -> accept m = Some a -> rest ⊆ ct_incoming s -> Q a (with_incoming s rest) l) ->
  WP (wait_for e accept) Q s l.
Proof.
  intros HX HQ. unfold wait_for. repeat wp_step. destruct (skip_until accept (ct_incoming s)) as [[a rest]|] eqn:Es.
  - apply skip_until_Some in Es as (m & Hm & Ha & Hsub). repeat wp_step. by eapply HQ.
  - repeat wp_step. by apply wp_fail_log.
Qed.
(** A request and its acknowledgement. *)
Definition acked (incoming : list (AppServerToApp B)) (id : Uid) : Prop := exists m, m ∈ incoming /\ acks id m = Some tt.
Lemma wp_request_acked (e : E) request Q s l :
  XL l -> (forall id, P l (CaSend (mkAppToAppServer id request))) ->
  (forall id g rest, rest ⊆ ct_incoming s -> acked (ct_incoming s) id -> XL (l ++ [CaSend (mkAppToAppServer id request)]) ->
     Q tt (mkCtlState (ct_files s) rest g) (l ++ [CaSend (mkAppToAppServer id request)])) ->
  WP (request_acked ok e request) Q s l.
Proof.
  intros HX HP HQ. unfold request_acked. wp_step. apply wp_gen. intros id g. wp_step. apply wp_act; [done|done|]. intros HX1.
  apply wp_wait; [done|]. intros m [] rest Hm Ha Hsub. apply HQ; [done| |done]. by exists m.
Qed.
End Rules.

(** ** Payments *)
Section Status.
Context `{CryptoOps} `{RngOps} {B : Type}.
Context `{!Json InvoiceFile} `{!Json PaymentFile} `{!Json CommitFile} `{!Json ReceiptFile}.
Context (ok : nat -> bool) (payment_path receipt_path : string).
Implicit Types (s : CtlState B) (l : list (CtlAction B)).

Definition on_file s (payment_id : PaymentId) : Prop :=
  exists text, ct_files s !! payment_path = Some text /\ from_string text = Some (mkPaymentFile payment_id).
Definition reported_status s (payment_id : PaymentId) (status : PaymentStatus) : Prop :=
  ToAppResponseClosePayment (mkResponseClosePayment payment_id status) ∈ ct_incoming s.

(** Only the payment of the file is asked for; it is acknowledged as closed when the node reported it as canceled, or as
    paid with a receipt that was written before; its file is removed when the node
    does not know the payment, or after the acknowledgement was received. *)
Definition status_justified s l1 (a : CtlAction B) : Prop :=
  match a with
  | CaSend (mkAppToAppServer _ (AppRequestClosePayment payment_id)) => on_file s payment_id
  | CaSend (mkAppToAppServer _ (AppAckClosePayment (mkAckClosePayment payment_id ack_uid))) =>
      on_file s payment_id /\
      (reported_status s payment_id (PaymentCanceled ack_uid) \/
       exists receipt text, reported_status s payment_id (PaymentSuccess receipt ack_uid) /\
         to_string receipt = Some text /\ CaWrite receipt_path text ∈ l1)
  | CaRemove path =>
      path = payment_path /\ exists payment_id, on_file s payment_id /\
      (reported_status s payment_id PaymentNotFound \/
       exists id ack_uid, CaSend (mkAppToAppServer id (AppAckClosePayment (mkAckClosePayment payment_id ack_uid))) ∈ l1 /\ acked (ct_incoming s) id)
  | CaSend _ => False
  | _ => True
  end.
(** What a completed command leaves. *)
Definition status_done s (s' : CtlState B) : Prop :=
  exists payment_id status, on_file s payment_id /\ reported_status s payment_id status /\
    match status with
    | PaymentSuccess receipt _ => exists text, to_string receipt = Some text /\ ct_files s' = delete payment_path (<[receipt_path := text]> (ct_files s))
    | _ => ct_files s' = delete payment_path (ct_files s)
    end.

Lemma status_neutral s l a : neutral a = true -> status_justified s l a.
Proof. by destruct a. Qed.

Lemma wp_ack_and_remove s0 payment_id ack_uid Q s l :
  acts_ok (status_justified s0) l -> ct_incoming s ⊆ ct_incoming s0 -> on_file s0 payment_id ->
  (forall id, status_justified s0 l (CaSend (mkAppToAppServer id (buyer.ack_close_payment payment_id ack_uid)))) ->
  (forall s' l', acts_ok (status_justified s0) l' -> ct_files s' = delete payment_path (ct_files s) -> Q tt s' l') ->
  wp False (fun _ l => acts_ok (status_justified s0) l)
    (let* _ := ack_close_payment ok payment_id ack_uid in remove_file ok BuRemovePaymentError payment_path) Q s l.
Proof.
  intros HX Hin Hf Hj HQ. wp_step. unfold ack_close_payment. apply wp_request_acked; [done|done|]. intros id g rest _ (m & Hm & Ha) HX1.
  apply wp_remove_file; [done| |by intros; apply HQ]. split; [done|]. exists payment_id. split; [done|]. right. exists id, ack_uid.
  split; [set_solver|]. exists m. split; [by apply Hin|done].
Qed.

Lemma wp_payment_status s :
  wp False (fun _ l => acts_ok (status_justified s) l) (buyer_payment_status ok payment_path receipt_path)
    (fun _ s' l => acts_ok (status_justified s) l /\ status_done s s') s [].
Proof.
  pose proof (status_neutral s) as Hn.
  unfold buyer_payment_status. wp_step. apply wp_path_exists. case_bool_decide; [by apply wp_fail_log, acts_ok_nil|].
  wp_step. apply (wp_read_file ok False _ Hn); [apply acts_ok_nil|]. intros text [payment_id] Ht Hpf HX1. unfold request_close_payment.
  assert (on_file s payment_id) as Hf by by exists text.
  wp_step. wp_step. apply wp_gen. intros id g. wp_step. unfold send_request. apply wp_act; [done|done|]. intros HX2.
  apply wp_wait; [done|]. intros m status rest Hm Hacc Hsub. destruct m as [|[pid st]| |]; try done.
  case_decide as Hpid; [|done]. simpl in Hpid, Hacc, Hm, Hsub. subst pid. injection Hacc as <-.
  set (l2 := _ ++ _) in *. clearbody l2. wp_step. destruct st as [|receipt ack_uid|ack_uid].
  - wp_step. apply (wp_harmless ok False _ Hn); [done|done|]. intros HX3. wp_step. apply wp_remove_file; [done| |].
    + split; [done|]. exists payment_id. split; [done|]. by left.
    + intros HX4. repeat wp_step. split; [done|]. by exists payment_id, PaymentNotFound.
  - wp_step. apply (wp_harmless ok False _ Hn); [done|done|]. intros HX3. wp_step. apply (wp_write_file ok False _ Hn); [done|].
    intros t Ht' HX4. wp_step. apply (wp_ack_and_remove s payment_id ack_uid); [done|done|done| |].
    + intros i. split; [done|]. right. exists receipt, t. split_and!; [done|done|set_solver].
    + intros s' l' HX5 Hfs. split; [done|]. exists payment_id, (PaymentSuccess receipt ack_uid). split_and!; [done|done|]. by exists t.
  - wp_step. apply (wp_harmless ok False _ Hn); [done|done|]. intros HX3. wp_step.
    apply (wp_ack_and_remove s payment_id ack_uid); [done|done|done|by intros i; split; [|left]|].
    intros s' l' HX5 Hfs. split; [done|]. by exists payment_id, (PaymentCanceled ack_uid).
Qed.

(** C40. Asking for the status of a payment never panics and loses no receipt: in every
    run, whatever fails, the node is told that a closed payment may be forgotten only
    when it reported the payment of the file as canceled, or as paid after the
    receipt was written; and the file of the payment is removed only when the node
    does not know the payment or confirmed that. A run that succeeds leaves the
    receipt if there is one, and no payment file. *)
Theorem receipt_saved_before_ack s :
  match buyer_payment_status ok payment_path receipt_path s [] with
  | EOk _ s' l => acts_ok (status_justified s) l /\ status_done s s'
  | EErr _ _ l => acts_ok (status_justified s) l
  | EPanic => False
  end.
Proof. exact (wp_payment_status s). Qed.
End Status.

(** ** Paying an invoice *)
Section Pay.
Local Open Scope Z_scope.
Context `{CryptoOps} `{RngOps} {B : Type}.
Context `{!Json InvoiceFile} `{!Json PaymentFile} `{!Json CommitFile} `{!Json ReceiptFile}.
Context (ok : nat -> bool) (invoice_path payment_path commit_path : string).
Implicit Types (s : CtlState B) (l : list (CtlAction B)).

(** The transactions that were requested. *)
Definition tx_of (a : CtlAction B) : option CreateTransaction :=
  match a with CaSend (mkAppToAppServer _ (AppCreateTransaction t)) => Some t | _ => None end.
Definition txs l : list CreateTransaction := omap tx_of l.

Definition invoice_of s (invoice : InvoiceFile) : Prop :=
  exists text, ct_files s !! invoice_path = Some text /\ from_string text = Some invoice.
(** The payment of the invoice that is on file was opened, and the node has it. *)
Definition payment_open s l1 (payment_id : PaymentId) (invoice : InvoiceFile) : Prop :=
  invoice_of s invoice /\
  exists id, CaSend (mkAppToAppServer id (buyer.create_payment payment_id (inf_invoice_id invoice) (inf_currency invoice)
                      (inf_dest_payment invoice) (inf_dest_public_key invoice))) ∈ l1 /\ acked (ct_incoming s) id.

Definition pay_justified s l1 (a : CtlAction B) : Prop :=
  match a with
  | CaSend (mkAppToAppServer _ request) =>
      match request with
      | AppRequestRoutes _ => True
      | AppCreatePayment c =>
          exists invoice text, invoice_of s invoice /\
            c = mkCreatePayment (cp_payment_id c) (inf_invoice_id invoice) (inf_currency invoice) (inf_dest_payment invoice) (inf_dest_public_key invoice) /\
            to_string (mkPaymentFile (cp_payment_id c)) = Some text /\ CaWrite payment_path text ∈ l1
      | AppCreateTransaction t => exists invoice, payment_open s l1 (ct_payment_id t) invoice
      | AppRequestClosePayment payment_id =>
          exists invoice, payment_open s l1 payment_id invoice /\ sum_Z (ct_dest_payment <$> txs l1) = inf_dest_payment invoice /\
            Forall (fun t => ct_payment_id t = payment_id) (txs l1)
      | _ => False
      end
  | CaRemove _ => False
  | _ => True
  end.
Definition paid s (s' : CtlState B) l : Prop :=
  exists invoice payment_id request_id commit payment_text commit_text,
    invoice_of s invoice /\ sum_Z (ct_dest_payment <$> txs l) = inf_dest_payment invoice /\
    CaPrintFees (sum_Z (ct_fees <$> txs l)) ∈ l /\ Forall (fun t => ct_payment_id t = payment_id) (txs l) /\
    request_id ∈ ct_request_id <$> txs l /\
    ToAppTransactionResult (mkTransactionResult request_id (RequestComplete commit)) ∈ ct_incoming s /\
    to_string (mkPaymentFile payment_id) = Some payment_text /\ to_string commit = Some commit_text /\
    ct_files s' = <[commit_path := commit_text]> (<[payment_path := payment_text]> (ct_files s)).

Definition fees (m : MultiRoute) (choice : MultiRouteChoice) : list Z :=
  omap (fun '(j, c) => mr_routes m !! j ≫= fun r => calc_fee (rcr_rate r) c) choice.
Definition has_fee (m : MultiRoute) (x : nat * Z) : Prop :=
  exists r fee, mr_routes m !! x.1 = Some r /\ calc_fee (rcr_rate r) x.2 = Some fee /\ 0 <= fee.
(** The only panic: routes whose fees together do not fit in 128 bits. *)
Definition fees_overflow s : Prop :=
  exists id routes m choice, ToAppResponseRoutes (mkClientResponseRoutes id (RoutesSuccess routes)) ∈ ct_incoming s /\
    m ∈ routes /\ Forall (has_fee m) choice /\ u_max 128 < sum_Z (fees m choice).

Lemma good_choice_fees m amount choice : routes_ok m -> good_choice m amount choice -> Forall (has_fee m) choice.
Proof.
  intros Hok (_ & _ & _ & Hg). apply Forall_forall. intros [j c] (r & Hr & Hc & _)%Hg.
  destruct (proj1 (Forall_lookup _ _) Hok _ _ Hr) as [Hrate Hcap]. exists r. destruct (payable_spec _ Hrate Hcap) as (_ & _ & Hfit).
  simpl. destruct (decide (0 < payable r)) as [Hp|Hp].
  - destruct (Hfit c Hc Hp) as (fee & Hfee & _). exists fee. split_and!; [done|done|]. by apply checked_u_Some in Hfee as [[? _] ->].
  - assert (c = 0) as -> by lia. destruct Hrate as [_ Ha]. exists (rate_add (rcr_rate r)). unfold calc_fee. rewrite Z.mul_0_l, Z.shiftr_0_l.
    destruct Ha as [Ha0 Ha1].
    split_and!; [done| |done]. rewrite Z.add_0_l. apply checked_u_ok. split; [done|]. by etransitivity; [exact Ha1|].
Qed.
Lemma fees_cons m j c choice r fee :
  mr_routes m !! j = Some r -> calc_fee (rcr_rate r) c = Some fee -> fees m ((j, c) :: choice) = fee :: fees m choice.
Proof. intros Hr Hf. unfold fees. cbn [omap list_omap]. rewrite Hr. cbn [mbind option_bind]. rewrite Hf. reflexivity. Qed.
Lemma total_fees_spec m choice total :
  Forall (has_fee m) choice -> 0 <= total ->
  match total_fees_from total m choice with
  | Some t => t = total + sum_Z (fees m choice)
  | None => u_max 128 < total + sum_Z (fees m choice)
  end.
Proof.
  intros Hall. revert total. induction Hall as [|[j c] choice (r & fee & Hr & Hf & Hpos) Hall IH]; intros total Ht; [simpl; lia|].
  simpl in Hr, Hf. cbn [total_fees_from]. rewrite Hr. cbn [opt_bind]. rewrite Hf, (fees_cons _ _ _ _ _ _ Hr Hf). cbn [opt_bind sum_Z foldr]. fold (sum_Z (fees m choice)).
  assert (0 <= sum_Z (fees m choice)) as Hs.
  { clear -Hall. induction Hall as [|[j c] choice (r & fee & Hr & Hf & Hpos) Hall IH]; [done|].
    rewrite (fees_cons _ _ _ _ _ _ Hr Hf). simpl. lia. }
  destruct (checked_u 128 (total + fee)) as [t|] eqn:Ec; cbn [opt_bind].
  - apply checked_u_Some in Ec as [_ ->]. specialize (IH (total + fee) ltac:(lia)). destruct (total_fees_from _ _ _); lia.
  - destruct (decide (total + fee <= u_max 128)) as [Hle|Hgt]; [|lia].
    rewrite checked_u_ok in Ec by (unfold u_ok; lia). done.
Qed.

Lemma txs_snoc l a : txs (l ++ [a]) = txs l ++ (match tx_of a with Some t => [t] | None => [] end).
Proof. unfold txs. rewrite omap_app. simpl. by destruct (tx_of a). Qed.

(** The loop over the chosen routes. *)
Lemma wp_pay_transactions s0 payment_id invoice m choice requests Q s l :
  acts_ok (pay_justified s0) l -> payment_open s0 l payment_id invoice -> Forall (has_fee m) choice ->
  (forall new requests' g l', acts_ok (pay_justified s0) l' -> l ⊆ l' -> txs l' = txs l ++ new ->
     ct_dest_payment <$> new = choice.*2 -> ct_fees <$> new = fees m choice -> Forall (fun t => ct_payment_id t = payment_id) new ->
     requests' = list_to_set (ct_request_id <$> new) ∪ requests ->
     Q requests' (mkCtlState (ct_files s) (ct_incoming s) g) l') ->
  wp (fees_overflow s0) (fun _ l => acts_ok (pay_justified s0) l) (create_transactions ok payment_id m choice requests) Q s l.
Proof.
  intros HX Hopen Hall. revert requests s l HX Hopen Q.
  induction Hall as [|[j c] choice (r & fee & Hr & Hf & Hpos) Hall IH]; intros requests s l HX Hopen Q HQ.
  - apply wp_ret. destruct s as [f i g]. apply (HQ [] requests g l); [done|done|by rewrite app_nil_r|done|done|done|]. simpl. set_solver.
  - simpl in Hr, Hf. cbn [create_transactions]. wp_step. apply wp_unwrap; [by rewrite Hr|]. intros r' Hr'. rewrite Hr in Hr'. injection Hr' as <-.
    wp_step. apply wp_gen. intros request_id g1. wp_step. apply wp_unwrap; [by rewrite Hf|]. intros fee' Hf'. rewrite Hf in Hf'. injection Hf' as <-.
    wp_step. apply wp_gen. intros id g2. wp_step. apply wp_act; [done|by exists invoice|]. intros HX1.
    apply IH; [done| |].
    + destruct Hopen as [Hi (id' & Hid & Hack)]. split; [done|]. exists id'. split; [|done]. set_solver.
    + intros new requests' g l' HX2 Hsub Htx Hd Hfe Hp Hrq. rewrite txs_snoc, <-app_assoc in Htx. simpl in Htx.
      eapply HQ; [done|set_solver|exact Htx| | | |].
      * by rewrite fmap_cons, Hd.
      * rewrite (fees_cons _ _ _ _ _ _ Hr Hf). by rewrite fmap_cons, Hfe.
      * by constructor.
      * rewrite Hrq, fmap_cons, list_to_set_cons. set_solver.
Qed.

Lemma await_commit_Ok requests incoming commit rest :
  await_commit (B := B) requests incoming = Ok (commit, rest) ->
  exists request_id, request_id ∈ requests /\ ToAppTransactionResult (mkTransactionResult request_id (RequestComplete commit)) ∈ incoming.
Proof.
  revert requests. induction incoming as [|m incoming IH]; intros requests; simpl; [done|].
  assert (await_commit requests incoming = Ok (commit, rest) ->
    exists request_id, request_id ∈ requests /\ ToAppTransactionResult (mkTransactionResult request_id (RequestComplete commit)) ∈ m :: incoming) as Hskip.
  { intros (id & Hid & Hm)%IH. exists id. split; [done|by right]. }
  destruct m as [[id res]| | |]; try done. simpl. case_decide; [|done]. destruct res; [|intros (id' & Hid & Hm)%IH|done].
  - intros [= <- <-]. exists id. split; [done|by left].
  - exists id'. split; [set_solver|by right].
Qed.

Lemma await_commit_no_panic requests incoming : await_commit (B := B) requests incoming <> Panic.
Proof.
  revert requests. induction incoming as [|m incoming IH]; intros requests; simpl; [done|].
  destruct m as [[id res]| | |]; try apply IH. simpl. case_decide; [|done]. destruct res; [done|apply IH|done].
Qed.

(** What the command relies on: the routes that the node reports are of machine
    integers, and so is the amount of the invoice. *)
Definition routes_sane s : Prop :=
  forall id routes, ToAppResponseRoutes (mkClientResponseRoutes id (RoutesSuccess routes)) ∈ ct_incoming s -> Forall routes_ok routes.
Definition invoice_sane s : Prop := forall invoice, invoice_of s invoice -> u_ok 128 (inf_dest_payment invoice).

Lemma pay_neutral s l a : neutral a = true -> pay_justified s l a.
Proof. by destruct a. Qed.

Lemma wp_request_routes s0 invoice local_public_key Q s l :
  acts_ok (pay_justified s0) l -> ct_incoming s ⊆ ct_incoming s0 ->
  (forall id routes g rest l', acts_ok (pay_justified s0) l' -> txs l' = txs l -> rest ⊆ ct_incoming s0 ->
     ToAppResponseRoutes (mkClientResponseRoutes id (RoutesSuccess routes)) ∈ ct_incoming s0 -> Q routes (mkCtlState (ct_files s) rest g) l') ->
  wp (fees_overflow s0) (fun _ l => acts_ok (pay_justified s0) l)
    (request_routes ok (inf_currency invoice) (inf_dest_payment invoice) local_public_key (inf_dest_public_key invoice) None) Q s l.
Proof.
  intros HX Hin HQ. unfold request_routes. wp_step. apply wp_gen. intros rid g1. wp_step. apply wp_gen. intros id g2. wp_step.
  apply wp_act; [done|done|]. intros HX1. apply wp_wait; [done|]. intros m routes rest Hm Hacc Hsub. simpl in Hm, Hsub.
  destruct m as [| | |[rid' res]]; try done. simpl in Hacc. case_decide; [|done]. destruct res as [routes'|]; [|done]. injection Hacc as ->.
  apply (HQ rid' routes); [done| |set_solver|by apply Hin]. rewrite txs_snoc. by rewrite app_nil_r.
Qed.

Lemma wp_await_commit s0 invoice payment_id payment_text new requests s l :
  acts_ok (pay_justified s0) l -> ct_incoming s ⊆ ct_incoming s0 -> invoice_of s0 invoice -> txs l = new ->
  sum_Z (ct_dest_payment <$> new) = inf_dest_payment invoice -> CaPrintFees (sum_Z (ct_fees <$> new)) ∈ l ->
  Forall (fun t => ct_payment_id t = payment_id) new -> requests = list_to_set (ct_request_id <$> new) ->
  to_string (mkPaymentFile payment_id) = Some payment_text -> ct_files s = <[payment_path := payment_text]> (ct_files s0) ->
  wp (fees_overflow s0) (fun _ l => acts_ok (pay_justified s0) l)
    (match await_commit requests (ct_incoming s) with
     | Ok (commit, rest) =>
         let* _ := eput (with_incoming s rest) in
         let* _ := emit ok BuWriteError (CaPrint "Payment successful!") in
         write_file ok BuIoError BuStringSerdeError commit_path commit
     | Err e => efail e
     | Panic => epanic
     end) (fun _ s' l => acts_ok (pay_justified s0) l /\ paid s0 s' l) s l.
Proof.
  intros HX Hin Hinv Htx Hsum Hfees Hpid Hreq Hpt Hfiles. pose proof (pay_neutral s0) as Hn.
  destruct (await_commit requests (ct_incoming s)) as [[commit rest]|e|] eqn:Ea; [|by apply wp_fail_log|by apply await_commit_no_panic in Ea].
  apply await_commit_Ok in Ea as (rid & Hrid & Hm). wp_step. wp_step. wp_step. apply (wp_harmless ok _ _ Hn); [done|done|]. intros HX1.
  apply (wp_write_file ok _ _ Hn); [done|]. intros ctext Hct HX2. split; [done|].
  exists invoice, payment_id, rid, commit, payment_text, ctext. unfold txs. rewrite !omap_app. fold (txs l). simpl. rewrite !app_nil_r, Htx.
  split_and!; [done|done|set_solver|done|set_solver|by apply Hin|done|done|by rewrite <-Hfiles].
Qed.

Lemma wp_pay_invoice s local_public_key :
  routes_sane s -> invoice_sane s ->
  wp (fees_overflow s) (fun _ l => acts_ok (pay_justified s) l)
    (buyer_pay_invoice ok invoice_path payment_path commit_path local_public_key)
    (fun _ s' l => acts_ok (pay_justified s) l /\ paid s s' l) s [].
Proof.
  intros Hroutes Hinv. pose proof (pay_neutral s) as Hn. unfold buyer_pay_invoice.
  wp_step. apply wp_path_exists. case_bool_decide; [by apply wp_fail_log, acts_ok_nil|].
  wp_step. apply wp_path_exists. case_bool_decide; [by apply wp_fail_log, acts_ok_nil|].
  wp_step. apply (wp_read_file ok _ _ Hn); [apply acts_ok_nil|]. intros itext invoice Hit Hif HX1.
  assert (invoice_of s invoice) as Hi by by exists itext.
  wp_step. apply wp_request_routes; [done|done|]. intros rid routes g rest l1 HX2 Htx Hrest Hresp. simpl in Htx.
  pose proof (choose_from_spec 0 routes (inf_dest_payment invoice) (Hroutes _ _ Hresp) (Hinv _ Hi)) as Hch. unfold choose_multi_route.
  destruct (choose_from 0 routes (inf_dest_payment invoice)) as [[k choice]|e|]; [|by apply wp_fail_log|done].
  destruct Hch as (d & m & -> & Hd & Hgood & _). simpl in Hd |- *.
  assert (m ∈ routes) as Hmr by (by eapply list_elem_of_lookup_2).
  assert (Forall (has_fee m) choice) as Hfee
    by (eapply good_choice_fees; [|done]; by apply (proj1 (Forall_forall _ _) (Hroutes _ _ Hresp))).
  pose proof (total_fees_spec m choice 0 Hfee ltac:(lia)) as Htot.
  wp_step. apply wp_unwrap; [by rewrite Hd|]. intros m' Hm'. rewrite Hd in Hm'. injection Hm' as <-.
  wp_step. apply wp_unwrap; [intros Hnone; rewrite Hnone in Htot; by exists rid, routes, m, choice|].
  intros total Htotal. rewrite Htotal, Z.add_0_l in Htot. subst total.
  wp_step. apply (wp_harmless ok _ _ Hn); [done|done|]. intros HX3. wp_step. apply wp_gen. intros payment_id g1.
  wp_step. apply (wp_write_file ok _ _ Hn); [done|]. intros ptext Hpt HX4. wp_step. unfold create_payment.
  apply wp_request_acked; [done| |].
  { intros id. exists invoice, ptext. split_and!; [done|done|done|set_solver]. }
  intros id g2 rest2 Hrest2 (am & Ham & Hack) HX5. simpl in Hrest2, Ham. set (l5 := _ ++ _) in HX5 |- *.
  assert (payment_open s l5 payment_id invoice) as Hopen.
  { split; [done|]. exists id. split; [set_solver|]. exists am. split; [by apply Hrest|done]. }
  assert (txs l5 = []) as Htx5 by (subst l5; rewrite txs_snoc; unfold txs in *; rewrite !omap_app, Htx; done).
  assert (CaPrintFees (sum_Z (fees m choice)) ∈ l5) as Hpf by (subst l5; set_solver). clearbody l5.
  wp_step. apply (wp_pay_transactions s payment_id invoice m choice); [done|done|done|].
  intros new requests g3 l6 HX6 Hsub Htx6 Hdest Hfees Hpid Hreq. rewrite Htx5 in Htx6. simpl in Htx6.
  assert (sum_Z (ct_dest_payment <$> new) = inf_dest_payment invoice) as Hsum by (rewrite Hdest; apply Hgood).
  wp_step. unfold request_close_payment_nowait. apply wp_request_acked; [done| |].
  { intros id'. exists invoice. rewrite Htx6. split_and!; [|done|done]. destruct Hopen as [_ (i & Hil & Hia)]. split; [done|].
    exists i. split; [by apply Hsub|done]. }
  intros id' g4 rest4 Hrest4 _ HX7. simpl in Hrest4. wp_step. wp_step.
  apply (wp_await_commit s invoice payment_id ptext new); [done|simpl; set_solver|done| |done| |done| |done|done].
  - by rewrite txs_snoc, app_nil_r.
  - rewrite Hfees. set_solver.
  - rewrite Hreq. set_solver.
Qed.

(** C20. Paying an invoice follows the protocol in every run, whatever fails: the id of
    the payment is written to its file before the payment of the invoice is opened;
    transactions are requested only for a payment that the node confirmed; it is
    closed when the amounts of the transactions add up to the invoice. A run that
    succeeds has written a commit that completes one of its transactions, and printed
    the fees that it pays. It panics only if fees do not fit in 128 bits. *)
Theorem invoice_paid_exactly s local_public_key (Hroutes : routes_sane s) (Hinvoice : invoice_sane s) :
  match buyer_pay_invoice ok invoice_path payment_path commit_path local_public_key s [] with
  | EOk _ s' l => acts_ok (pay_justified s) l /\ paid s s' l
  | EErr _ _ l => acts_ok (pay_justified s) l
  | EPanic => fees_overflow s
  end.
Proof. exact (wp_pay_invoice s local_public_key Hroutes Hinvoice). Qed.
End Pay.

(** ** Configuration *)
Section Configuration.
Context `{CryptoOps} `{RngOps} {B : Type}.
Context `{!Json (RelayAddressFile B)} `{!Json (IndexServerFile B)} `{!Json (FriendFile B)}.
Context (ok : nat -> bool) (node_report : NodeReport B) (files : gmap string string).
Implicit Types (s : CtlState B) (l : list (CtlAction B)).
Notation friends := (rp_friends (funder_report node_report)).

Definition holds {A} `{Json A} (path : string) (a : A) : Prop := exists text, files !! path = Some text /\ from_string text = Some a.
Definition named (pk : PublicKey) (name : string) : Prop := exists r, friends !! pk = Some r /\ fr_name r = name.

(** What a command asks of the node, for the report and the files it sees. *)
Inductive intends : ConfigCmd -> AppRequest B -> Prop :=
| in_add_relay path name (f : RelayAddressFile B) :
    (forall r, r ∈ rp_relays (funder_report node_report) -> nra_name r <> name) -> holds path f ->
    intends (AddRelayCmd path name) (config.add_relay (mkNamedRelayAddress (ra_public_key f) (ra_address f) name))
| in_remove_relay name r : r ∈ rp_relays (funder_report node_report) -> nra_name r = name ->
    intends (RemoveRelayCmd name) (config.remove_relay (nra_public_key r))
| in_add_index path name (f : IndexServerFile B) :
    (forall i, i ∈ icr_index_servers (index_client_report node_report) -> ni_name i <> name) -> holds path f ->
    intends (AddIndexCmd path name) (config.add_index_server (mkNamedIndexServer (isf_public_key f) (isf_address f) name))
| in_remove_index name i : i ∈ icr_index_servers (index_client_report node_report) -> ni_name i = name ->
    intends (RemoveIndexCmd name) (config.remove_index_server (ni_public_key i))
| in_add_friend path name (f : FriendFile B) : (forall pk, ~ named pk name) -> holds path f ->
    intends (AddFriendCmd path name) (config.add_friend (ff_public_key f) (ff_relays f) name)
| in_set_friend_relays path name (f : FriendFile B) : named (ff_public_key f) name -> holds path f ->
    intends (SetFriendRelaysCmd path name) (config.set_friend_relays (ff_public_key f) (ff_relays f))
| in_remove_friend name pk : named pk name -> intends (RemoveFriendCmd name) (config.remove_friend pk)
| in_enable_friend name pk : named pk name -> intends (EnableFriendCmd name) (config.enable_friend pk)
| in_disable_friend name pk : named pk name -> intends (DisableFriendCmd name) (config.disable_friend pk)
| in_open_currency name currency_name pk c : named pk name -> currency_try_from currency_name = Some c ->
    intends (OpenFriendCurrencyCmd name currency_name) (config.open_friend_currency pk c)
| in_close_currency name currency_name pk c : named pk name -> currency_try_from currency_name = Some c ->
    intends (CloseFriendCurrencyCmd name currency_name) (config.close_friend_currency pk c)
| in_max_debt name currency_name max_debt pk c : named pk name -> currency_try_from currency_name = Some c ->
    intends (SetFriendCurrencyMaxDebtCmd name currency_name max_debt) (config.set_friend_currency_max_debt pk c max_debt)
| in_rate name currency_name mul add pk c : named pk name -> currency_try_from currency_name = Some c ->
    intends (SetFriendCurrencyRateCmd name currency_name mul add) (config.set_friend_currency_rate pk c (mkRate mul add))
| in_remove_currency name currency_name pk c : named pk name -> currency_try_from currency_name = Some c ->
    intends (RemoveFriendCurrencyCmd name currency_name) (config.remove_friend_currency pk c)
| in_reset name pk r inconsistent terms : friends !! pk = Some r -> fr_name r = name ->
    fr_channel_status r = ReportInconsistent inconsistent -> cir_opt_remote_reset_terms inconsistent = Some terms ->
    intends (ResetFriendCmd name) (config.reset_friend_channel pk (rtr_reset_token terms)).

(** A request is the intended one and the only one; nothing is removed. *)
Definition config_justified cmd l1 (a : CtlAction B) : Prop :=
  match a with
  | CaSend m => intends cmd (app_request m) /\ forall m', CaSend m' ∉ l1
  | CaRemove _ => False
  | _ => True
  end.
Definition configured cmd s (s' : CtlState B) l : Prop :=
  ct_files s' = ct_files s /\ exists id request, CaSend (mkAppToAppServer id request) ∈ l /\ intends cmd request /\ acked (ct_incoming s) id.
Notation WPC cmd s m l := (wp False (fun _ l0 => acts_ok (config_justified cmd) l0) m
  (fun _ s0 l0 => acts_ok (config_justified cmd) l0 /\ configured cmd s s0 l0) s l).

Lemma last_named_Some {A} (name : A -> string) n (xs : list A) x : last_named name n xs = Some x -> x ∈ xs /\ name x = n.
Proof.
  unfold last_named. induction xs as [|y xs IH] using rev_ind; [done|]. rewrite foldl_snoc. case_decide as Hd.
  - intros [= ->]. split; [set_solver|done].
  - intros (? & ?)%IH. split; [set_solver|done].
Qed.
Lemma friend_by_name_Some name pk : friend_public_key_by_name node_report name = Some pk -> named pk name.
Proof.
  unfold friend_public_key_by_name. intros ([i [pk' r]] & (Hl & Hn & _)%list_find_Some & ->)%fmap_Some. simpl in *.
  apply list_elem_of_lookup_2, elem_of_map_to_list in Hl. by exists r.
Qed.

Lemma wp_intended cmd request s l :
  intends cmd request -> acts_ok (config_justified cmd) l -> (forall m', CaSend m' ∉ l) -> WPC cmd s (config_request ok request) l.
Proof.
  intros Hi HX Hl. apply wp_request_acked; [done|done|]. intros id g rest _ Ha HX1. split; [done|]. split; [done|].
  exists id, request. split_and!; [set_solver|done|done].
Qed.
Lemma wp_with_friend cmd name k s :
  (forall pk, named pk name -> WPC cmd s (k pk) []) -> WPC cmd s (with_friend node_report name k) [].
Proof.
  intros Hk. unfold with_friend. destruct (friend_public_key_by_name _ _) eqn:Ef; [|apply acts_ok_nil].
  by apply Hk, friend_by_name_Some.
Qed.
Lemma wp_with_currency cmd name k s :
  (forall c, currency_try_from name = Some c -> WPC cmd s (k c) []) -> WPC cmd s (with_currency name k) [].
Proof. intros Hk. unfold with_currency. destruct (currency_try_from name) eqn:Ef; [by apply Hk|apply acts_ok_nil]. Qed.
(** A file that must exist is read. *)
Lemma wp_config_file {A} `{Json A} cmd (missing : ConfigError) path (k : A -> Eff (CtlState B) ConfigError (CtlAction B) unit) s :
  ct_files s = files -> (forall f, holds path f -> acts_ok (config_justified cmd) [CaRead path] -> WPC cmd s (k f) [CaRead path]) ->
  WPC cmd s (let* found := path_exists path in
             if negb found then efail missing else
             let* f := read_file ok (A := A) CoIoError CoStringSerdeError path in k f) [].
Proof.
  intros Hs Hk. wp_step. apply wp_path_exists. destruct (negb _); [apply wp_fail_log, acts_ok_nil|]. wp_step.
  apply wp_read_file; [by intros ? []|apply acts_ok_nil|]. intros text f Ht Hf HX. apply Hk; [|done]. exists text. by rewrite <-Hs.
Qed.

Ltac config_friend := apply wp_with_friend; intros pk Hpk; apply wp_intended; [by constructor|apply acts_ok_nil|set_solver].
Ltac config_currency :=
  apply wp_with_friend; intros pk Hpk; apply wp_with_currency; intros c Hc; apply wp_intended; [by constructor|apply acts_ok_nil|set_solver].
Lemma wp_config_cmd cmd s : ct_files s = files -> WPC cmd s (config_cmd ok cmd node_report) [].
Proof.
  intros Hs. destruct cmd; cbn [config_cmd].
  - unfold config_add_relay. case_bool_decide as Hn; [apply acts_ok_nil|]. apply wp_config_file; [done|]. intros f Hf HX.
    apply wp_intended; [|done|set_solver]. constructor; [|done]. intros r Hr Hrn. apply Hn, list_elem_of_fmap. by exists r.
  - unfold config_remove_relay. destruct (last_named _ _ _) eqn:El; [|apply acts_ok_nil]. apply last_named_Some in El as [Hr Hn].
    apply wp_intended; [by constructor|apply acts_ok_nil|set_solver].
  - unfold config_add_index. case_bool_decide as Hn; [apply acts_ok_nil|]. apply wp_config_file; [done|]. intros f Hf HX.
    apply wp_intended; [|done|set_solver]. constructor; [|done]. intros r Hr Hrn. apply Hn, list_elem_of_fmap. by exists r.
  - unfold config_remove_index. destruct (last_named _ _ _) eqn:El; [|apply acts_ok_nil]. apply last_named_Some in El as [Hr Hn].
    apply wp_intended; [by constructor|apply acts_ok_nil|set_solver].
  - unfold config_add_friend. case_bool_decide as Hn; [apply acts_ok_nil|]. apply wp_config_file; [done|]. intros f Hf HX.
    apply wp_intended; [|done|set_solver]. constructor; [|done]. intros pk (r & Hr & Hrn). apply Hn, list_elem_of_fmap.
    exists (pk, r). split; [done|]. by apply elem_of_map_to_list.
  - apply wp_with_friend. intros pk Hpk. apply wp_config_file; [done|]. intros f Hf HX. case_bool_decide as Hd; [|by apply wp_fail_log].
    subst pk. apply wp_intended; [by constructor|done|set_solver].
  - config_friend.
  - config_friend.
  - config_friend.
  - config_currency.
  - config_currency.
  - config_currency.
  - config_currency.
  - config_currency.
  - unfold config_reset_friend. destruct (last_named _ _ _) as [[pk r]|] eqn:El; [|apply acts_ok_nil].
    apply last_named_Some in El as [Hr Hn]. apply elem_of_map_to_list in Hr. simpl in Hn.
    destruct (fr_channel_status r) eqn:Est; [|apply acts_ok_nil].
    destruct (cir_opt_remote_reset_terms _) eqn:Et; [|apply acts_ok_nil].
    apply wp_intended; [by econstructor|apply acts_ok_nil|set_solver].
Qed.

End Configuration.

(** A configuration command never panics and sends at most one request, in every
    run the one its arguments name in the report and the files that it sees: a
    relay, index server or friend that has the name, or a name that none has, the
    addresses of the file, the currency, and the terms that the remote side gave
    for a reset. If it succeeds, the node confirmed it and no file has changed. *)
Theorem config_command_intended `{CryptoOps} `{RngOps} {B : Type} `{!Json (RelayAddressFile B)} `{!Json (IndexServerFile B)}
  `{!Json (FriendFile B)} (ok : nat -> bool) (node_report : NodeReport B) cmd (s : CtlState B) :
  match config_cmd ok cmd node_report s [] with
  | EOk _ s' l => acts_ok (config_justified node_report (ct_files s) cmd) l /\ configured node_report (ct_files s) cmd s s' l
  | EErr _ _ l => acts_ok (config_justified node_report (ct_files s) cmd) l
  | EPanic => False
  end.
Proof. exact (wp_config_cmd ok node_report (ct_files s) cmd s eq_refl). Qed.
