(* ===== verification/StctrlMain.v ===== *)
(** * The control application as a whole ([stctrl/src])

    Commands that export information of a node, the command line with its connection
    to the node, and what leaves a node in files: a friend's last token, which anyone
    can verify, and a ticket, from which another node adds this one as a friend. *)

From S2P Require Import Prelude Arith Bytes Messages Canonical MutualCredit TokenChannel FunderState Report Handler HandleControl.
From S2P Require Import IndexMessages AppServer AppConn SecureChannel AppConnect MultiRoute Effects FileStore Stctrl StctrlTheory.
From stdpp Require Import pretty.

(** ** Information ([info.rs]) *)
Inductive InfoCmd :=
| RelaysCmd
| IndexCmd
| FriendsCmd
| FriendLastTokenCmd (friend_name token_path : string)
| ExportTicketCmd (ticket_path : string).
Inductive InfoError := InWriteError | InOutputFileAlreadyExists | InFriendNameNotFound | InMissingLastIncomingMoveToken | InIoError | InStringSerdeError.

(** The fields of [FriendFile], which is read from it. *)
Notation FriendAddressFile := FriendFile.

(** ** The command line ([stctrllib.rs]) *)
Inductive StCtrlSubcommand := CmdInfo (c : InfoCmd) | CmdConfig (c : ConfigCmd) | CmdBuyer (c : BuyerCmd) | CmdSeller (c : SellerCmd).
Record StCtrlCmd := mkStCtrlCmd { sc_idfile : string; sc_node_ticket : string; sc_subcommand : StCtrlSubcommand }.
Inductive StCtrlError :=
| StIdFileDoesNotExist | StNodeTicketFileDoesNotExist | StSpawnIdentityServiceError | StConnectionError | StInsufficientPermissions
| StInfoError (e : InfoError) | StConfigError (e : ConfigError) | StBuyerError (e : BuyerError) | StSellerError (e : SellerError)
| StIoError | StStringSerdeError.
Inductive IdentityFromFileError := IfLoadIdentityError | IfIoError | IfStringSerdeError.

Section Main.
Context `{CryptoOps} `{RngOps} {B : Type}.
Context `{!Json InvoiceFile} `{!Json PaymentFile} `{!Json CommitFile} `{!Json ReceiptFile}.
Context `{!Json (RelayAddressFile B)} `{!Json (IndexServerFile B)} `{!Json (FriendFile B)} `{!Json TokenFile}.
Context `{!Json IdentityFile} `{!Json (NodeAddressFile B)}.
Context (ok : nat -> bool).
Notation M E := (Eff (CtlState B) E (CtlAction B)).

Definition info_friend_last_token (friend_name token_path : string) (node_report : NodeReport B) : M InfoError unit :=
  let* token_exists := path_exists token_path in
  if token_exists : bool then efail InOutputFileAlreadyExists else
  match friend_public_key_by_name node_report friend_name with
  | None => efail InFriendNameNotFound
  | Some friend_public_key =>
      let* friend_report := eunwrap (rp_friends (funder_report node_report) !! friend_public_key) in
      match fr_opt_last_incoming_move_token friend_report with
      | None => efail InMissingLastIncomingMoveToken
      | Some last_incoming_move_token => write_file ok InIoError InStringSerdeError token_path (last_incoming_move_token : TokenFile)
      end
  end.
(** Tables are printed by a third-party crate; [address_to_string] is [Display] of
    an address. *)
Context (public_key_to_string : PublicKey -> string) (address_to_string : B -> string).
Definition print_table (titles : list string) (rows : list (list string)) (none : string) : M InfoError unit :=
  match rows with
  | [] => println ok InWriteError none
  | _ => emit ok InWriteError (CaPrintTable titles rows)
  end.
Definition info_relays (node_report : NodeReport B) : M InfoError unit :=
  print_table ["relay name"; "public key"; "address"]%string
    (map (fun r => [nra_name r; public_key_to_string (nra_public_key r); address_to_string (nra_address r)]) (rp_relays (funder_report node_report)))
    "No configured relay servers.".
Definition info_index (node_report : NodeReport B) : M InfoError unit :=
  let opt_connected_server := icr_opt_connected_server (index_client_report node_report) in
  print_table ["index server name"; "public key"; "address"]%string
    (map (fun i => [(if bool_decide (opt_connected_server = Some (ni_public_key i)) then ni_name i ++ " (" ++ "*" ++ ")" else ni_name i)%string;
                    public_key_to_string (ni_public_key i); address_to_string (ni_address i)])
         (icr_index_servers (index_client_report node_report)))
    "No configured index servers.".

Local Open Scope string_scope.
Definition concat_lines (l : list string) : string := foldr String.append "" l.
Definition currency_report_str (r : Report.CurrencyReport) : string :=
  let b := cr_balance r in
  "B  =" ++ pretty (mbr_balance b) ++ newline ++ "LPD=" ++ pretty (mbr_local_pending_debt b) ++ newline
  ++ "RPD=" ++ pretty (mbr_remote_pending_debt b) ++ newline.
Definition currency_balance_str (b : CurrencyBalance) : string := "- " ++ currency_str (cb_currency b) ++ ": " ++ pretty (cb_balance b) ++ newline.
Definition friend_channel_status (friend_report : Report.FriendReport B) : string :=
  match fr_channel_status friend_report with
  | ReportConsistent r =>
      "Consistent:" ++ newline ++
      concat_lines (map (fun c => "- " ++ currency_str (cr_currency c) ++ ": " ++ currency_report_str c ++ newline) (ccr_currency_reports r))
  | ReportInconsistent r =>
      "Inconsistent:" ++ newline ++ "Local Reset Terms:" ++ newline ++ concat_lines (map currency_balance_str (cir_local_reset_terms r)) ++
      match cir_opt_remote_reset_terms r with
      | Some t => "Remote Reset Terms:" ++ newline ++ concat_lines (map currency_balance_str (rtr_balance_for_reset t))
      | None => "Remote Reset Terms: Unknown" ++ newline
      end
  end.
Definition info_friends (node_report : NodeReport B) : M InfoError unit :=
  print_table ["st"; "name"; "balance"]
    (map (fun x => [(if decide (fr_status x.2 = ReportEnabled) then "E" else "D") ++ (if decide (fr_liveness x.2 = ReportOnline) then "+" else "-");
                    fr_name x.2; friend_channel_status x.2]) (map_to_list (rp_friends (funder_report node_report))))
    "No configured friends.".
Local Close Scope string_scope.

(** [Into<RelayAddress>] of a named address *)
Definition unname_relay (r : NamedRelayAddress B) : RelayAddress B := mkRelayAddress (nra_public_key r) (nra_address r).
Definition info_export_ticket (ticket_path : string) (node_report : NodeReport B) : M InfoError unit :=
  let* ticket_exists := path_exists ticket_path in
  if ticket_exists : bool then efail InOutputFileAlreadyExists else
  let relays := map unname_relay (rp_relays (funder_report node_report)) in
  write_file ok InIoError InStringSerdeError ticket_path
    (mkFriendFile (rp_local_public_key (funder_report node_report)) relays : FriendAddressFile B).
Definition info_cmd (cmd : InfoCmd) (node_report : NodeReport B) : M InfoError unit :=
  match cmd with
  | RelaysCmd => info_relays node_report
  | IndexCmd => info_index node_report
  | FriendsCmd => info_friends node_report
  | FriendLastTokenCmd friend_name token_path => info_friend_last_token friend_name token_path node_report
  | ExportTicketCmd ticket_path => info_export_ticket ticket_path node_report
  end.

(** [?] with a conversion of the error *)
Definition emap_err {E E' A} (f : E -> E') (m : M E A) : M E' A := fun s l =>
  match m s l with EOk a s' l' => EOk a s' l' | EErr e s' l' => EErr (f e) s' l' | EPanic => EPanic end.

(** [app/src/identity.rs]; [identity_ok]: the private key is well formed. *)
Context (identity_ok : PrivateKey -> bool).
Definition identity_from_file (idfile_path : string) : M IdentityFromFileError PrivateKey :=
  let* identity_file := read_file ok (A := IdentityFile) IfIoError IfStringSerdeError idfile_path in
  if identity_ok (if_private_key identity_file) then eret (if_private_key identity_file) else efail IfLoadIdentityError.

(** [net address identity]: what arrives on a secure connection to the node with the
    public key, at the address; [None] if there is none. *)
Context `{!ProtoSerialize AppPermissions} `{!ProtoSerialize (NodeReport B)} `{!ProtoSerialize (AppServerToApp B)}.
Context (net : PublicKey -> B -> PrivateKey -> option (list bytes)).
(** [app/src/connect.rs] *)
Definition connect (node_public_key : PublicKey) (node_net_address : B) (identity : PrivateKey) : option (AppPermissions * NodeReport B * list bytes) :=
  match app_connect_to_node (net node_public_key node_net_address identity) with Ok r => Some r | _ => None end.

Definition allowed {E} (allow : bool) (f : E -> StCtrlError) (m : M E unit) : M StCtrlError unit :=
  if allow then emap_err f m else efail StInsufficientPermissions.

Definition stctrl (cmd : StCtrlCmd) : M StCtrlError unit :=
  let* id_exists := path_exists (sc_idfile cmd) in
  if negb id_exists then efail StIdFileDoesNotExist else
  let* ticket_exists := path_exists (sc_node_ticket cmd) in
  if negb ticket_exists then efail StNodeTicketFileDoesNotExist else
  let* node_address_file := read_file ok (A := NodeAddressFile B) StIoError StStringSerdeError (sc_node_ticket cmd) in
  let* identity := emap_err (fun _ => StSpawnIdentityServiceError) (identity_from_file (sc_idfile cmd)) in
  match connect (na_public_key node_address_file) (na_address node_address_file) identity with
  | None => efail StConnectionError
  | Some (app_permissions, node_report, incoming) =>
      let* s := eget in
      let* _ := eput (with_incoming s (deserialize_stream incoming (length incoming))) in
      match sc_subcommand cmd with
      | CmdInfo c => emap_err StInfoError (info_cmd c node_report)
      | CmdConfig c => allowed (perm_config app_permissions) StConfigError (config_cmd ok c node_report)
      | CmdBuyer c => allowed (perm_buyer app_permissions) StBuyerError (buyer_cmd ok c node_report)
      | CmdSeller c => allowed (perm_seller app_permissions) StSellerError (seller_cmd ok c node_report)
      end
  end.

(** [stverifylib.rs] *)
Inductive StVerifyCmd := VerifyTokenCmd (token_path : string) | VerifyReceiptCmd (invoice_path receipt_path : string).
Definition stverify (cmd : StVerifyCmd) : M StVerifyError unit :=
  match cmd with
  | VerifyTokenCmd token_path => stverify_verify_token ok public_key_to_string token_path
  | VerifyReceiptCmd invoice_path receipt_path => stverify_verify_receipt ok invoice_path receipt_path
  end.
End Main.

(** ** What a friend signed can be verified *)
Section TokenExport.
Context `{CryptoOps} `{RngOps} {B : Type}.
Context `{!CanonicalSerialize B}.
Context `{!Json TokenFile} `{!JsonLaws TokenFile}.
Context (ok ok' : nat -> bool) (public_key_to_string : PublicKey -> string).

(** Mutations other than the last keep the direction of the channel. *)
Definition keeps_direction (m : TcMutation B) : Prop := match m with TcSetDirection _ => False | _ => True end.
Lemma tc_mutate_direction (tc tc' : TokenChannel B) m : keeps_direction m -> tc_mutate tc m = Some tc' -> direction tc' = direction tc.
Proof.
  destruct m as [c mcm|d|cs|cs|c]; intros Hm Ht; try done; simpl in Ht.
  - apply opt_bind_Some in Ht as (mc & _ & Ht). apply opt_bind_Some in Ht as (mc' & _ & [= <-]). done.
  - by injection Ht as <-.
  - by injection Ht as <-.
  - destruct (negb _); [done|]. destruct (negb _); [done|]. apply opt_bind_Some in Ht as (ti & _ & Ht).
    case_bool_decide; [|done]. by injection Ht as <-.
Qed.

Lemma ofold_keeps {S A E} (f : S -> A -> outcome E S) (P : S -> Prop) l s s' :
  (forall s0 x s1, x ∈ l -> P s0 -> f s0 x = Ok s1 -> P s1) -> P s -> ofold f s l = Ok s' -> P s'.
Proof.
  revert s. induction l as [|x l IH]; intros s Hf Hs Ho; simpl in Ho; [by injection Ho as <-|].
  apply obind_Ok in Ho as (s1 & H1 & Ho). eapply IH; [|by eapply Hf; [left|..]|done]. intros s0 y s2 Hy. apply Hf. by right.
Qed.
Lemma apply_push_direction {E} (d : TcDirection B) ms (st st' : TokenChannel B * list (TcMutation B)) :
  Forall keeps_direction ms -> direction st.1 = d -> ofold (tc_apply_push (E := E)) st ms = Ok st' -> direction st'.1 = d.
Proof.
  intros Hms. apply (ofold_keeps _ (fun st => direction st.1 = d)). intros st0 m st1 Hm Hd Ha.
  apply obind_Ok in Ha as (tc & Htc & [= <-]). apply unwrap_Ok in Htc. simpl. apply tc_mutate_direction in Htc as ->; [done|].
  by apply (proj1 (Forall_forall _ _) Hms).
Qed.
Lemma all_keep {A} (f : A -> TcMutation B) l : (forall x, keeps_direction (f x)) -> Forall keeps_direction (map f l).
Proof. intros Hf. apply Forall_forall. intros m (x & -> & _)%list_elem_of_fmap. apply Hf. Qed.
Lemma receive_active_direction (tc : TokenChannel B) acs st :
  receive_active_currencies tc acs = Ok st -> direction st.1 = direction tc.
Proof.
  destruct acs as [cs|]; simpl; [|by intros [= <-]]. intros (u & _ & Hr)%obind_Ok.
  apply obind_Ok in Hr as (tob & _ & Hr). refine (apply_push_direction _ _ _ _ _ _ Hr); [by apply all_keep|done].
Qed.
Lemma receive_operations_direction rmds (d : TcDirection B) cos acc acc' :
  direction acc.1.1 = d -> ofold (receive_currency_operations rmds) acc cos = Ok acc' -> direction acc'.1.1 = d.
Proof.
  apply (ofold_keeps _ (fun acc => direction acc.1.1 = d)). intros [st0 rec0] co acc1 _ Hd Hr. simpl in Hr.
  apply obind_Ok in Hr as (tob & _ & Hr). apply obind_Ok in Hr as (mc & _ & Hr). apply obind_Ok in Hr as (res & _ & Hr).
  apply obind_Ok in Hr as (st' & Hst & [= <-]). simpl in *. refine (apply_push_direction _ _ _ _ _ Hd Hst). by apply all_keep.
Qed.

(** What a channel accepts is signed by the friend, for the balances that the friend
    claims. *)
Lemma accepted_token_signed (b : TcOutBorrow B) mt rmds r :
  handle_incoming_token_match b mt rmds = Ok r ->
  exists ms h, mtr_mutations r = ms ++ [TcSetDirection (SetIncoming h)] /\
    mi_local_public_key (ti_mc (mth_token_info h)) = mi_remote_public_key (ti_mc (tco_token_info (tob_outgoing b))) /\
    verify_move_token_hashed_report (move_token_hashed_report h) (mi_local_public_key (ti_mc (mth_token_info h))) = true.
Proof.
  unfold handle_incoming_token_match. intros Hr.
  apply obind_Ok in Hr as ([] & Hsig%guard_or_Ok & Hr). apply obind_Ok in Hr as (st & Hst & Hr).
  apply obind_Ok in Hr as ([st' received] & Hops & Hr). apply obind_Ok in Hr as (tob & Htob & Hr). apply unwrap_Ok in Htob.
  apply obind_Ok in Hr as (counter & _ & Hr). apply obind_Ok in Hr as (ti & Hti & Hr). apply unwrap_Ok in Hti.
  apply obind_Ok in Hr as ([] & Hinfo%guard_or_Ok & [= <-]). apply bool_decide_eq_true in Hinfo.
  apply receive_active_direction in Hst. apply (receive_operations_direction _ _ _ (st, []) _ Hst) in Hops. simpl in Hops, Hst.
  assert (tob_outgoing tob = tob_outgoing b) as Hout.
  { unfold get_outgoing, get_direction in Htob. rewrite Hops in Htob. simpl in Htob. by injection Htob as <-. }
  assert (mi_local_public_key (ti_mc ti) = mi_remote_public_key (ti_mc (tco_token_info (tob_outgoing b)))) as Hkey.
  { unfold flip_token_info, flip_mc_info in Hti. apply opt_bind_Some in Hti as (mc & Hmc & [= <-]).
    apply opt_bind_Some in Hmc as (bs & _ & [= <-]). simpl. by rewrite Hout. }
  exists st'.2, (create_hashed mt ti). split_and!; [done|done|]. simpl. rewrite Hkey.
  unfold verify_move_token_hashed_report, verify_move_token, move_token_hashed_report_signature_buff, move_token_signature_buff in *.
  simpl in Hsig |- *. rewrite Hinfo in Hsig. exact Hsig.
Qed.

(** A friend whose name no other has. *)
Definition only_named (node_report : NodeReport B) (pk : PublicKey) (name : string) : Prop :=
  named node_report pk name /\ forall pk', named node_report pk' name -> pk' = pk.
Lemma only_named_found node_report pk name : only_named node_report pk name -> friend_public_key_by_name node_report name = Some pk.
Proof.
  intros [(r & Hr & Hn) Hu]. destruct (friend_public_key_by_name node_report name) as [pk'|] eqn:Ef.
  - f_equal. by apply Hu, friend_by_name_Some.
  - exfalso. unfold friend_public_key_by_name in Ef. apply fmap_None, list_find_None in Ef.
    apply (proj1 (Forall_forall _ _) Ef (pk, r)); [by apply elem_of_map_to_list|done].
Qed.

(** A verification that goes through up to failures of reading and printing. *)
Definition verifies_token (token_path : string) (s : CtlState B) : Prop :=
  match stverify_verify_token ok' public_key_to_string token_path s [] with
  | EOk _ _ _ => True
  | EErr e _ _ => e = VeIoError \/ e = VeWriteError
  | EPanic => False
  end.
Lemma print_lines_fail {A} (xs : list A) (f : A -> string) (s : CtlState B) l :
  match efor xs (fun x => println ok' VeWriteError (f x)) s l with EOk _ _ _ => True | EErr e _ _ => e = VeIoError \/ e = VeWriteError | EPanic => False end.
Proof.
  revert l. induction xs as [|x xs IH]; intros l; [done|]. cbn [efor]. unfold ebind, println, emit in *.
  destruct (ok' (length l)); [apply IH|by right].
Qed.
Lemma verifies_token_intro token_path s text r :
  ct_files s !! token_path = Some text -> from_string text = Some r ->
  verify_move_token_hashed_report r (mi_local_public_key (ti_mc (mthr_token_info r))) = true -> verifies_token token_path s.
Proof.
  intros Ht Hr Hv. unfold verifies_token, stverify_verify_token, read_file, println. unfold ebind at 1 2. unfold emit at 1.
  destruct (ok' (length _)); [|by left]. unfold ebind at 1, eget. rewrite Ht, Hr. unfold eret. rewrite Hv.
  do 7 (unfold ebind at 1, emit at 1; destruct (ok' (length _)); [|by right]). apply print_lines_fail.
Qed.

(** C21. The last token of a friend convinces others: when a channel accepts a token
    from a friend, the report shows it, and no other friend has the name of this one,
    exporting the token writes a file that anyone can verify, with the key that the
    channel has for the friend as its signer. The export creates and writes this
    one file, which did not exist, and sends nothing; when it fails it has sent nothing
    and changed no file that existed; it does not panic. It succeeds when there is no
    file at the path, the file system lets it create and write the file, and the token
    can be serialized. *)
Theorem exported_token_verifies (b : TcOutBorrow B) mt rmds r (Hr : handle_incoming_token_match b mt rmds = Ok r) :
  exists ms h, mtr_mutations r = ms ++ [TcSetDirection (SetIncoming h)] /\
    mi_local_public_key (ti_mc (mth_token_info h)) = mi_remote_public_key (ti_mc (tco_token_info (tob_outgoing b))) /\
    forall (node_report : NodeReport B) pk name friend_report token_path s,
      only_named node_report pk name -> rp_friends (funder_report node_report) !! pk = Some friend_report ->
      fr_opt_last_incoming_move_token friend_report = Some (move_token_hashed_report h) ->
      match info_friend_last_token ok name token_path node_report s [] with
      | EOk _ s' l => ct_files s !! token_path = None /\
          (exists text, l = [CaCreate token_path; CaWrite token_path text] /\ ct_files s' = <[token_path := text]> (ct_files s)) /\
          forall s2 path, ct_files s2 !! path = ct_files s' !! token_path -> verifies_token path s2
      | EErr _ s' l => (forall m, CaSend m ∉ l) /\
          forall path, path <> token_path \/ is_Some (ct_files s !! path) -> ct_files s' !! path = ct_files s !! path
      | EPanic => False
      end /\
      (ct_files s !! token_path = None -> (forall n, ok n = true) -> is_Some (to_string (move_token_hashed_report h)) ->
       exists s' l, info_friend_last_token ok name token_path node_report s [] = EOk tt s' l).
Proof.
  destruct (accepted_token_signed _ _ _ _ Hr) as (ms & h & Hms & Hkey & Hver). exists ms, h. split; [done|]. split; [done|].
  intros node_report pk name fr token_path s Hnamed Hfr Hlast.
  unfold info_friend_last_token, path_exists, write_file, ebind, eget, eput, eret, efail, emit. cbv beta.
  case_bool_decide as He.
  { split; [|intros Hn; rewrite Hn in He; by destruct He]. split; [intros m Hm; by apply elem_of_nil in Hm|done]. }
  apply eq_None_not_Some in He. rewrite (only_named_found _ _ _ Hnamed), Hfr. cbn [eunwrap]. unfold eret. rewrite Hlast.
  assert (forall t path, path <> token_path \/ is_Some (ct_files s !! path) ->
    <[token_path := t]> (ct_files s) !! path = ct_files s !! path) as Hkeep.
  { intros t path Hp. apply lookup_insert_ne. intros <-. destruct Hp as [|Hp]; [done|]. rewrite He in Hp. by destruct Hp. }
  destruct (ok (length [])) eqn:Ok0.
  2:{ split; [split; [intros m Hm; by apply elem_of_nil in Hm|done]|]. intros _ Hok. by rewrite Hok in Ok0. }
  destruct (to_string (move_token_hashed_report h)) as [text|] eqn:Et.
  2:{ split; [|intros _ _ Hs; by destruct Hs]. split; [intros m Hm%list_elem_of_singleton; done|]. apply Hkeep. }
  destruct (ok (length ([] ++ [CaCreate token_path]))) eqn:Ok1.
  2:{ split; [|intros _ Hok; by rewrite Hok in Ok1]. split; [intros m Hm%list_elem_of_singleton; done|]. apply Hkeep. }
  split; [|by eauto]. split; [done|]. unfold with_files. simpl. rewrite insert_insert_eq. split; [by exists text|].
  intros s2 path Hpath. rewrite lookup_insert_eq in Hpath. eapply verifies_token_intro; [done|by apply from_to_json|done].
Qed.
End TokenExport.

(** ** Tickets *)
Section Ticket.
Context `{CryptoOps} `{RngOps} {B : Type}.
Context `{!Json (RelayAddressFile B)} `{!Json (IndexServerFile B)} `{!Json (FriendFile B)} `{!JsonLaws (FriendFile B)}.
Context (ok ok' : nat -> bool).

(** What a node says of itself. *)
Definition ticket_of (report : NodeReport B) : FriendFile B :=
  mkFriendFile (rp_local_public_key (funder_report report)) (map unname_relay (rp_relays (funder_report report))).

Lemma export_ticket_writes path report (s : CtlState B) s1 l :
  info_export_ticket ok path report s [] = EOk tt s1 l ->
  ct_files s !! path = None /\ exists text, from_string text = Some (ticket_of report) /\ ct_files s1 = <[path := text]> (ct_files s).
Proof.
  intros Hrun. set (Q := fun (_ : unit) (s1 : CtlState B) (_ : list (CtlAction B)) =>
    ct_files s !! path = None /\ exists text, from_string text = Some (ticket_of report) /\ ct_files s1 = <[path := text]> (ct_files s)).
  enough (wp False (fun _ l => acts_ok (fun _ _ => True) l) (info_export_ticket ok path report) Q s []) as Hwp
    by (unfold wp in Hwp; by rewrite Hrun in Hwp).
  unfold info_export_ticket. wp_step. apply wp_path_exists. case_bool_decide as He; [by apply wp_fail_log, acts_ok_nil|].
  apply wp_write_file; [done|apply acts_ok_nil|]. intros text Ht _. split; [by apply eq_None_not_Some|].
  exists text. split; [by apply from_to_json|done].
Qed.

(** A ticket introduces a node: what one node exports, another adds as a friend with
    the key and the relays of the first, under the name that its user chose; it
    fails only if reading, or the connection to its own node, fails. *)
Theorem ticket_adds_friend path (report : NodeReport B) s s1 l1 (Hexport : info_export_ticket ok path report s [] = EOk tt s1 l1)
  (report' : NodeReport B) path' name s' (Hcopy : ct_files s' !! path' = ct_files s1 !! path) (Hname : forall pk, ~ named report' pk name) :
  match config_add_friend ok' path' name report' s' [] with
  | EOk _ s2 l => ct_files s2 = ct_files s' /\ exists id, acked (ct_incoming s') id /\
      l = [CaRead path'; CaSend (mkAppToAppServer id (config.add_friend (rp_local_public_key (funder_report report))
                                                      (map unname_relay (rp_relays (funder_report report))) name))]
  | EErr e _ _ => e = CoIoError \/ e = CoAppConfigError
  | EPanic => False
  end.
Proof.
  apply export_ticket_writes in Hexport as (_ & text & Htext & Hfiles). rewrite Hfiles, lookup_insert_eq in Hcopy.
  unfold config_add_friend. rewrite bool_decide_eq_false_2.
  2: { intros ([pk r] & -> & Hin)%list_elem_of_fmap. apply elem_of_map_to_list in Hin. apply (Hname pk). by exists r. }
  unfold path_exists, ebind, eget, eret. rewrite Hcopy, bool_decide_eq_true_2 by done.
  unfold negb, read_file, ebind, emit. destruct (ok' (length _)); [|by left]. unfold eget, eret. rewrite Hcopy, Htext.
  unfold config_request, request_acked, gen, ebind, eget, eput, eret. destruct (rng_fill 16 (ct_rng s')) as [id g].
  unfold send_request, emit. destruct (ok' (length _)); [|by right]. unfold wait_for, ebind, eget, eput, eret, efail.
  destruct (skip_until _ _) as [[[] rest]|] eqn:Es; [|by right]. apply skip_until_Some in Es as (m & Hm & Ha & _).
  split; [done|]. exists id. split; [by exists m|done].
Qed.
End Ticket.
