(* ===== verification/Stmgr.v ===== *)
(** * The manager of files ([bin/src/stmgrlib.rs])

    The tool that creates identities, the database of a node, and tickets, the files
    with which nodes, relays, index servers and applications are introduced to each
    other. It never replaces a file, and what it writes is what the other programs
    read: the database starts a node, an application's ticket admits it, the tickets
    of servers configure a node. *)

From S2P Require Import Prelude Arith Bytes Messages Canonical FunderState Report Handler HandleControl.
From S2P Require Import IndexMessages AppServer AppConn AppConnect Database Node MultiRoute Effects FileStore Stctrl StctrlTheory.

(** ** [NetAddress] ([proto/src/net/messages.rs]) *)
Record NetAddress := mkNetAddress { net_address_str : string }.
Definition MAX_NET_ADDRESS_LENGTH : nat := 256.
Definition net_address_try_from (address : string) : option NetAddress :=
  if (MAX_NET_ADDRESS_LENGTH <? String.length address)%nat then None else Some (mkNetAddress address).

(** [NodeEntryFile] of [proto/src/file.rs] *)
Record NodeEntryFile := mkNodeEntryFile { nef_node_public_key : PublicKey; nef_node_address : NetAddress; nef_app_private_key : PrivateKey }.

Inductive StMgrCmd :=
| InitNodeDbCmd (idfile_path output_path : string)
| GenIdentCmd (output_path : string)
| AppTicketCmd (idfile_path output_path : string) (proutes pbuyer pseller pconfig : bool)
| RelayTicketCmd (idfile_path address output_path : string)
| IndexTicketCmd (idfile_path address output_path : string)
| NodeTicketCmd (idfile_path address output_path : string)
| NodeEntryCmd (node_idfile_path app_idfile_path address output_path : string).
(** The errors of the commands, in one type. *)
Inductive StmError :=
| SmOutputAlreadyExists | SmLoadIdentityError | SmFileDbError | SmNetAddressError | SmIoError | SmStringSerdeError.

Section Stmgr.
Context `{CryptoOps} `{RngOps}.
Context `{!Json IdentityFile} `{!Json TrustedAppFile} `{!Json (RelayAddressFile NetAddress)} `{!Json (IndexServerFile NetAddress)}.
Context `{!Json (NodeAddressFile NetAddress)} `{!Json NodeEntryFile} `{!Serde (NodeState NetAddress)}.
Context (ok : nat -> bool).
(** [SoftwareEd25519Identity::from_private_key] with [get_public_key], and
    [PrivateKey::rand_gen] *)
Context (derive_public_key : PrivateKey -> option PublicKey) (private_key_rand_gen : rng -> PrivateKey * rng).
Notation M := (Eff (CtlState NetAddress) StmError (CtlAction NetAddress)).

Definition output_free (output_path : string) : M unit :=
  let* output_exists := path_exists output_path in
  if output_exists : bool then efail SmOutputAlreadyExists else eret tt.
Definition store {A} `{Json A} (path : string) (a : A) : M unit := write_file ok SmIoError SmStringSerdeError path a.
(** The public key of an identity file. *)
Definition load_public_key (idfile_path : string) : M PublicKey :=
  let* identity_file := read_file ok (A := IdentityFile) SmIoError SmStringSerdeError idfile_path in
  match derive_public_key (if_private_key identity_file) with Some public_key => eret public_key | None => efail SmLoadIdentityError end.
Definition net_address (address : string) : M NetAddress :=
  match net_address_try_from address with Some a => eret a | None => efail SmNetAddressError end.

(** [FileDb::create] of [file_db.rs]; the write is atomic. *)
Definition db_create (path : string) (initial_state : NodeState NetAddress) : M unit :=
  let* db_exists := path_exists path in
  if db_exists : bool then efail SmFileDbError else
  match to_string_pretty initial_state with
  | None => efail SmFileDbError
  | Some ser_string =>
      let* _ := emit ok SmFileDbError (CaWrite path ser_string) in
      let* s := eget in
      let* _ := eput (with_files s (<[path := ser_string]> (ct_files s))) in
      match from_str (S := NodeState NetAddress) ser_string with Some _ => eret tt | None => efail SmFileDbError end
  end.

Definition init_node_db (idfile_path output_path : string) : M unit :=
  let* _ := output_free output_path in
  let* local_public_key := load_public_key idfile_path in
  db_create output_path (node_state_new local_public_key).
Definition gen_identity (output_path : string) : M unit :=
  let* s := eget in
  let (private_key, g) := private_key_rand_gen (ct_rng s) in
  let* _ := eput (mkCtlState (ct_files s) (ct_incoming s) g) in
  let* _ := output_free output_path in
  store output_path (mkIdentityFile private_key).
Definition app_ticket (idfile_path output_path : string) (proutes pbuyer pseller pconfig : bool) : M unit :=
  let* public_key := load_public_key idfile_path in
  let* _ := output_free output_path in
  store output_path (mkTrustedAppFile public_key (mkAppPermissions proutes pbuyer pseller pconfig)).
Definition relay_ticket (idfile_path address output_path : string) : M unit :=
  let* _ := output_free output_path in
  let* public_key := load_public_key idfile_path in
  let* address := net_address address in
  store output_path (mkRelayAddress public_key address : RelayAddressFile NetAddress).
Definition index_ticket (idfile_path address output_path : string) : M unit :=
  let* _ := output_free output_path in
  let* public_key := load_public_key idfile_path in
  let* address := net_address address in
  store output_path (mkIndexServerFile public_key address).
Definition node_ticket (idfile_path address output_path : string) : M unit :=
  let* _ := output_free output_path in
  let* public_key := load_public_key idfile_path in
  let* address := net_address address in
  store output_path (mkNodeAddressFile public_key address).
Definition node_entry (node_idfile_path app_idfile_path address output_path : string) : M unit :=
  let* _ := output_free output_path in
  let* node_public_key := load_public_key node_idfile_path in
  let* app_identity_file := read_file ok (A := IdentityFile) SmIoError SmStringSerdeError app_idfile_path in
  let* address := net_address address in
  store output_path (mkNodeEntryFile node_public_key address (if_private_key app_identity_file)).

Definition stmgr (cmd : StMgrCmd) : M unit :=
  match cmd with
  | InitNodeDbCmd idfile_path output_path => init_node_db idfile_path output_path
  | GenIdentCmd output_path => gen_identity output_path
  | AppTicketCmd idfile_path output_path proutes pbuyer pseller pconfig => app_ticket idfile_path output_path proutes pbuyer pseller pconfig
  | RelayTicketCmd idfile_path address output_path => relay_ticket idfile_path address output_path
  | IndexTicketCmd idfile_path address output_path => index_ticket idfile_path address output_path
  | NodeTicketCmd idfile_path address output_path => node_ticket idfile_path address output_path
  | NodeEntryCmd node_idfile_path app_idfile_path address output_path => node_entry node_idfile_path app_idfile_path address output_path
  end.
End Stmgr.

(** ** Trusted index servers ([stindexlib.rs]) *)
Inductive IndexServerBinError := IbIoError | IbStringSerdeError.
Section TrustedServers.
Context {A : Type} `{!Json (IndexServerFile A)}.
Fixpoint load_servers (entries : list DirEntry) (res_trusted : list (IndexServerFile A)) : outcome IndexServerBinError (list (IndexServerFile A)) :=
  match entries with
  | [] => Ok res_trusted
  | EntryError :: _ => Err IbIoError
  | EntryDir :: entries' => load_servers entries' res_trusted
  | EntryFile content :: entries' =>
      let? text := ok_or content IbIoError in
      let? index_server_file := ok_or (from_string (A := IndexServerFile A) text) IbStringSerdeError in
      load_servers entries' (res_trusted ++ [index_server_file])
  end.
Definition load_trusted_servers (dir : option (list DirEntry)) : outcome IndexServerBinError (list (IndexServerFile A)) :=
  let? entries := ok_or dir IbIoError in load_servers entries [].
(** [.collect::<HashMap>()]: a later file replaces an earlier one. *)
Definition trusted_servers (files : list (IndexServerFile A)) : gmap PublicKey A :=
  foldl (fun m f => <[isf_public_key f := isf_address f]> m) ∅ files.
End TrustedServers.

(** ** What the tool writes *)
Section Theory.
Context `{CryptoOps} `{RngOps}.
Context `{!Json IdentityFile} `{!Json TrustedAppFile} `{!Json (RelayAddressFile NetAddress)} `{!Json (IndexServerFile NetAddress)}.
Context `{!Json (NodeAddressFile NetAddress)} `{!Json NodeEntryFile} `{!Serde (NodeState NetAddress)}.
Context `{!JsonLaws IdentityFile} `{!JsonLaws TrustedAppFile} `{!JsonLaws (RelayAddressFile NetAddress)} `{!JsonLaws (IndexServerFile NetAddress)}.
Context `{!JsonLaws (NodeAddressFile NetAddress)} `{!JsonLaws NodeEntryFile} `{!SerdeLaws (NodeState NetAddress)}.
Context (ok : nat -> bool) (derive_public_key : PrivateKey -> option PublicKey) (private_key_rand_gen : rng -> PrivateKey * rng).
Implicit Types (s : CtlState NetAddress) (l : list (CtlAction NetAddress)) (files : gmap string string).

Definition output_path cmd : string :=
  match cmd with
  | InitNodeDbCmd _ o | GenIdentCmd o | AppTicketCmd _ o _ _ _ _ | RelayTicketCmd _ _ o | IndexTicketCmd _ _ o | NodeTicketCmd _ _ o
  | NodeEntryCmd _ _ _ o => o
  end.
(** The public key of an identity file. *)
Definition key_of files (idfile_path : string) (pk : PublicKey) : Prop :=
  exists k, holds files idfile_path (mkIdentityFile k) /\ derive_public_key k = Some pk.
(** The content of the file that a command writes. *)
Definition describes files cmd (text : string) : Prop :=
  match cmd with
  | InitNodeDbCmd i _ => exists pk, key_of files i pk /\ from_str text = Some (node_state_new (B := NetAddress) pk)
  | GenIdentCmd _ => exists k, from_string text = Some (mkIdentityFile k)
  | AppTicketCmd i _ r b e c => exists pk, key_of files i pk /\ from_string text = Some (mkTrustedAppFile pk (mkAppPermissions r b e c))
  | RelayTicketCmd i a _ => exists pk, key_of files i pk /\ from_string text = Some (mkRelayAddress pk (mkNetAddress a) : RelayAddressFile NetAddress)
  | IndexTicketCmd i a _ => exists pk, key_of files i pk /\ from_string text = Some (mkIndexServerFile pk (mkNetAddress a))
  | NodeTicketCmd i a _ => exists pk, key_of files i pk /\ from_string text = Some (mkNodeAddressFile pk (mkNetAddress a))
  | NodeEntryCmd n i a _ => exists pk k, key_of files n pk /\ holds files i (mkIdentityFile k) /\
      from_string text = Some (mkNodeEntryFile pk (mkNetAddress a) k)
  end.

Section Run.
Context (s0 : CtlState NetAddress) (out : string).
(** At most one file is new, and it is the output. *)
Definition spared (s' : CtlState NetAddress) : Prop :=
  ct_files s' = ct_files s0 \/ (ct_files s0 !! out = None /\ exists text, ct_files s' = <[out := text]> (ct_files s0)).
Notation WPM m Q s l := (wp False (fun s' _ => spared s') m Q s l).
Implicit Types (E : Type).

Lemma wp_spared {A E} (e : E) (Q : A -> CtlState NetAddress -> list (CtlAction NetAddress) -> Prop) s l : spared s -> WPM (efail e) Q s l.
Proof. done. Qed.
Lemma wp_read_kept {A E} `{Json A} (e e' : E) path Q s l :
  ct_files s = ct_files s0 -> (forall a l', holds (ct_files s0) path a -> Q a s l') -> WPM (read_file ok (A := A) e e' path) Q s l.
Proof.
  intros Hs HQ. unfold read_file. wp_step. apply wp_emit; [by left|]. repeat wp_step.
  destruct (ct_files s !! path) as [text|] eqn:Et; [|by apply wp_spared; left]. destruct (from_string text) eqn:Ea; [|by apply wp_spared; left].
  wp_step. apply HQ. exists text. by rewrite <-Hs.
Qed.
Lemma wp_load_public_key path Q s l :
  ct_files s = ct_files s0 -> (forall pk l', key_of (ct_files s0) path pk -> Q pk s l') -> WPM (load_public_key ok derive_public_key path) Q s l.
Proof.
  intros Hs HQ. unfold load_public_key. wp_step. apply wp_read_kept; [done|]. intros [k] l' Hk. simpl.
  destruct (derive_public_key k) eqn:Ed; [|by apply wp_spared; left]. wp_step. apply HQ. by exists k.
Qed.
Lemma wp_net_address a Q s l : ct_files s = ct_files s0 -> Q (mkNetAddress a) s l -> WPM (net_address a) Q s l.
Proof. intros Hs HQ. unfold net_address, net_address_try_from. destruct (_ <? _)%nat; [by apply wp_spared; left|by wp_step]. Qed.
Lemma wp_output_free Q s l :
  ct_files s = ct_files s0 -> (ct_files s0 !! out = None -> Q tt s l) -> WPM (output_free out) Q s l.
Proof.
  intros Hs HQ. unfold output_free. wp_step. unfold path_exists. repeat wp_step. case_bool_decide as He; [by apply wp_spared; left|].
  wp_step. apply HQ. rewrite Hs in He. by apply eq_None_not_Some.
Qed.
Lemma wp_store {A} `{JsonLaws A} (a : A) (Q : unit -> CtlState NetAddress -> list (CtlAction NetAddress) -> Prop) s l :
  ct_files s = ct_files s0 -> ct_files s0 !! out = None ->
  (forall text s' l', from_string text = Some a -> ct_files s' = <[out := text]> (ct_files s0) -> Q tt s' l') -> WPM (store ok out a) Q s l.
Proof.
  intros Hs Ho HQ. unfold store, write_file. wp_step. apply wp_emit; [by left|]. repeat wp_step. simpl. rewrite Hs.
  destruct (to_string a) as [text|] eqn:Ea; [|apply wp_spared; right; eauto]. wp_step. apply wp_emit; [right; eauto|]. repeat wp_step.
  apply (HQ text); [by apply from_to_json|]. simpl. by rewrite insert_insert_eq.
Qed.
Lemma wp_db_create state Q s l :
  ct_files s = ct_files s0 -> ct_files s0 !! out = None ->
  (forall text s' l', from_str text = Some state -> ct_files s' = <[out := text]> (ct_files s0) -> Q tt s' l') -> WPM (db_create ok out state) Q s l.
Proof.
  intros Hs Ho HQ. unfold db_create. wp_step. unfold path_exists. repeat wp_step. case_bool_decide; [by apply wp_spared; left|].
  destruct (to_string_pretty state) as [text|] eqn:Et; [|by apply wp_spared; left]. wp_step. apply wp_emit; [by left|]. repeat wp_step. simpl. rewrite Hs.
  pose proof (from_to_string _ _ Et) as Hf. rewrite Hf. wp_step. by apply (HQ text).
Qed.
End Run.

Ltac mgr_steps :=
  repeat first
    [ progress wp_step
    | apply wp_output_free; [done|intros ?]
    | apply wp_load_public_key; [done|intros ? ? ?]
    | apply wp_net_address; [done|]
    | eapply wp_store; [exact _|done|done|intros ? ? ? ? ?]
    | apply wp_db_create; [done|done|intros ? ? ? ? ?]
    | apply wp_read_kept; [done|intros [?] ? ?] ].

Lemma wp_stmgr cmd s :
  wp False (fun s' _ => spared s (output_path cmd) s') (stmgr ok derive_public_key private_key_rand_gen cmd)
    (fun _ s' _ => ct_files s !! output_path cmd = None /\
       exists text, describes (ct_files s) cmd text /\ ct_files s' = <[output_path cmd := text]> (ct_files s)) s [].
Proof.
  destruct cmd; cbn [stmgr output_path];
    unfold init_node_db, gen_identity, app_ticket, relay_ticket, index_ticket, node_ticket, node_entry.
  2: { wp_step. wp_step. destruct (private_key_rand_gen (ct_rng s)) as [k g]. mgr_steps. split; [done|]. eexists. split; [|done]. by eexists. }
  all: mgr_steps; (split; [done|]); eexists; (split; [|done]); cbn; eauto.
Qed.

(** The tool never replaces a file: in every run of every command, whatever fails,
    all files that existed are unchanged and the only file that may be new is the
    output. A run that succeeds has written there what the command describes: a
    database from which a node starts with the key of the identity, or a ticket with
    that key and with the address or the permissions of the command line. *)
Theorem stmgr_never_overrides cmd s :
  match stmgr ok derive_public_key private_key_rand_gen cmd s [] with
  | EOk _ s' _ => ct_files s !! output_path cmd = None /\
      exists text, describes (ct_files s) cmd text /\ ct_files s' = <[output_path cmd := text]> (ct_files s)
  | EErr _ s' _ => spared s (output_path cmd) s'
  | EPanic => False
  end.
Proof. exact (wp_stmgr cmd s). Qed.

(** The ticket of an application admits it: once the file is in the directory of
    trusted applications of a node, and no other file there is malformed or names the
    same key, the node gives the key of the application's identity the permissions
    of the ticket. *)
Theorem ticket_admits_application s s' l idfile_path out r b e c pk entries1 entries2
  (Hrun : stmgr ok derive_public_key private_key_rand_gen (AppTicketCmd idfile_path out r b e c) s [] = EOk tt s' l)
  (Hkey : key_of (ct_files s) idfile_path pk)
  (Hok : forallb entry_ok (entries1 ++ entries2) = true)
  (Hother : forall f, f ∈ omap entry_file (entries1 ++ entries2) -> ta_public_key f <> pk) :
  file_app_permissions (Some (entries1 ++ EntryFile (ct_files s' !! out) :: entries2)) pk = Some (mkAppPermissions r b e c).
Proof.
  pose proof (wp_stmgr (AppTicketCmd idfile_path out r b e c) s) as Hwp. unfold wp in Hwp. rewrite Hrun in Hwp.
  destruct Hwp as (_ & text & (pk' & Hkey' & Htext) & Hfiles). cbn [output_path] in Hfiles. rewrite Hfiles, lookup_insert_eq.
  assert (pk' = pk) as ->.
  { destruct Hkey as (k & (t & Ht & Hk) & Hd), Hkey' as (k' & (t' & Ht' & Hk') & Hd'). congruence. }
  rewrite file_app_permissions_spec, forallb_app. cbn [forallb entry_ok entry_file].
  rewrite Htext, bool_decide_eq_true_2 by done. cbn [andb]. rewrite <-forallb_app, Hok.
  rewrite omap_app. cbn [omap list_omap entry_file]. rewrite Htext, omap_app in *. set (t := mkTrustedAppFile _ _).
  assert (forall fs, (forall f, f ∈ fs -> ta_public_key f <> pk) -> filter (fun f => ta_public_key f = pk) fs = []) as Hnone.
  { intros fs Hfs. induction fs as [|f fs IH]; [done|]. rewrite filter_cons_False by (apply Hfs; left). apply IH. intros g Hg. apply Hfs. by right. }
  rewrite filter_app, filter_cons_True by done. rewrite !Hnone by (intros f Hf; apply Hother, elem_of_app; auto). done.
Qed.
End Theory.
