(* ===== verification/StctrlSamples.v ===== *)
(** * Runs of the control application and of the manager of files

    Concrete runs of the commands: instances of the theorems, and behaviours that a
    user may not expect. *)

From S2P Require Import Prelude Arith Bytes Messages Canonical MutualCredit TokenChannel FunderState Report Handler HandleControl FunderHandler.
From S2P Require Import IndexMessages IndexClient AppServer AppConn AppConnect Database Node MultiRoute Effects FileStore FileStoreTheory.
From S2P Require Import Stctrl StctrlTheory StctrlMain Stmgr.

Module StctrlSamples.
Import Toy FunderSamples FileStoreSamples.
Local Open Scope Z_scope.
Local Open Scope string_scope.

#[local] Instance InvoiceFile_eq_dec : EqDecision InvoiceFile.
Proof. solve_decision. Defined.
#[local] Instance PaymentFile_eq_dec : EqDecision PaymentFile.
Proof. solve_decision. Defined.
#[local] Instance Commit_eq_dec : EqDecision Messages.Commit.
Proof. solve_decision. Defined.
#[local] Instance Receipt_eq_dec : EqDecision Messages.Receipt.
Proof. solve_decision. Defined.
#[local] Instance MoveTokenHashedReport_eq_dec : EqDecision Report.MoveTokenHashedReport.
Proof. solve_decision. Defined.
#[local] Instance FriendFile_eq_dec : EqDecision (FriendFile string).
Proof. solve_decision. Defined.

(** ** Paying *)
Definition uid (i : Z) : Uid := fixed_of_prefix 16 [byte_of_Z i].
Definition all_ok (n : nat) : bool := true.
Definition invoice : InvoiceFile := mkInvoiceFile (fixed_of_prefix 32 [Byte.x04]) fst_currency bob 300.
Definition commit : Messages.Commit :=
  mkCommit (fixed_of_prefix 32 []) (fixed_of_prefix 32 []) (fixed_of_prefix 32 []) 170 300 (inf_invoice_id invoice) fst_currency
    (fixed_of_prefix 64 []).
Definition receipt : Messages.Receipt :=
  mkReceipt (fixed_of_prefix 32 []) (inf_invoice_id invoice) fst_currency (fixed_of_prefix 32 []) (fixed_of_prefix 32 []) true 170 300
    (fixed_of_prefix 64 []).
#[local] Instance json_invoice : Json InvoiceFile := listed [invoice].
#[local] Instance json_payment : Json PaymentFile := listed [mkPaymentFile (uid 3)].
#[local] Instance json_commit : Json Messages.Commit := listed [commit].
#[local] Instance json_receipt : Json Messages.Receipt := listed [receipt].

Definition acked_by (id : Uid) : AppServerToApp string := ToAppReportMutations (mkReportMutations (Some id) []).
Definition result_of (id : Uid) (r : RequestResult) : AppServerToApp string := ToAppTransactionResult (mkTransactionResult id r).
Definition routes_message : AppServerToApp string :=
  ToAppResponseRoutes (mkClientResponseRoutes (uid 1) (RoutesSuccess [MultiRouteSamples.sample])).
Definition pay_state (incoming : list (AppServerToApp string)) : CtlState string := mkCtlState {["invoice" := "."]} incoming (1 : @rng toy_rng).
(** The generator gives ids in order: 1 and 2 for the routes, 3 for the payment, 4
    for its request, 5 to 10 for three transactions, 11 for closing. *)
Definition pay_run (incoming : list (AppServerToApp string)) :=
  buyer_pay_invoice all_ok "invoice" "payment" "commit" alice (pay_state incoming) [].
Definition paid_incoming : list (AppServerToApp string) :=
  [routes_message; acked_by (uid 4); acked_by (uid 11); result_of (uid 5) RequestSuccess; result_of (uid 9) RequestSuccess;
   result_of (uid 7) (RequestComplete commit)].

Definition succeeds {S E Act A} (r : eres S E Act A) : bool := match r with EOk _ _ _ => true | _ => false end.

Lemma pay_routes_sane : routes_sane (pay_state paid_incoming).
Proof.
  intros id routes Hin. repeat (apply elem_of_cons in Hin as [Hin|Hin]; [first [discriminate Hin|injection Hin as -> ->]|]);
    [|by apply elem_of_nil in Hin]. repeat constructor; vm_compute; discriminate.
Qed.
Lemma pay_invoice_sane : invoice_sane "invoice" (pay_state paid_incoming).
Proof.
  intros i (text & Ht & Hi). vm_compute in Ht. injection Ht as <-. vm_compute in Hi. injection Hi as <-. split; vm_compute; discriminate.
Qed.
Lemma invoice_paid_exactly_witness :
  succeeds (pay_run paid_incoming) = true /\
  match pay_run paid_incoming with
  | EOk _ s' l => acts_ok (pay_justified "invoice" "payment" (pay_state paid_incoming)) l /\ paid "invoice" "payment" "commit" (pay_state paid_incoming) s' l
  | EErr _ _ l => acts_ok (pay_justified "invoice" "payment" (pay_state paid_incoming)) l
  | EPanic => fees_overflow (pay_state paid_incoming)
  end.
Proof.
  split; [vm_compute; reflexivity|]. unfold pay_run.
  pose proof (invoice_paid_exactly all_ok "invoice" "payment" "commit" (pay_state paid_incoming) alice pay_routes_sane pay_invoice_sane) as Hpaid.
  revert Hpaid. generalize (buyer_pay_invoice all_ok "invoice" "payment" "commit" alice (pay_state paid_incoming) []). exact (fun r Hr => Hr).
Defined.

(** The result of a transaction that arrives before the acknowledgement of closing is
    skipped: the commit is lost, though the payment succeeded. *)
Definition early_incoming : list (AppServerToApp string) :=
  [routes_message; acked_by (uid 4); result_of (uid 5) RequestSuccess; result_of (uid 9) RequestSuccess;
   result_of (uid 7) (RequestComplete commit); acked_by (uid 11)].
Definition error_of {S E Act A} (r : eres S E Act A) : option E := match r with EErr e _ _ => Some e | _ => None end.
Lemma early_commit_lost : error_of (pay_run early_incoming) = Some BuPaymentIncomplete.
Proof. vm_compute. reflexivity. Qed.
(** An answer that there are no routes is not taken: the wait ends with the connection. *)
Lemma no_routes_not_taken :
  forall id, routes_found (B := string) id (ToAppResponseRoutes (mkClientResponseRoutes id RoutesFailure)) = None.
Proof. intros id. cbn. by destruct (decide (id = id)). Qed.

(** Invoices and receipts in different currencies match. *)
Definition other_currency : InvoiceFile := mkInvoiceFile (inf_invoice_id invoice) (mkCurrency "XYZ") bob 300.
Definition signed_receipt : Messages.Receipt :=
  mkReceipt (fixed_of_prefix 32 []) (inf_invoice_id invoice) fst_currency (fixed_of_prefix 32 []) (fixed_of_prefix 32 []) true 170 300
    (request_signature (public_key := bob) (receipt_signature_buffer receipt)).
Definition show_key (pk : PublicKey) : string := "key".
Lemma currencies_not_compared :
  let json_other := listed [other_currency] in let json_signed := listed [signed_receipt] in
  inf_currency other_currency <> rc_currency signed_receipt /\
  succeeds (stverify_verify_receipt (B := string) (Json0 := json_other) (Json3 := json_signed) all_ok "invoice" "receipt"
    (mkCtlState {["invoice" := "."; "receipt" := "."]} [] (1 : @rng toy_rng)) []) = true.
Proof. split; [discriminate|vm_compute; reflexivity]. Qed.

(** ** A token of a friend *)
Definition alice_channel : TokenChannel string := tc_new alice bob.
Definition bob_channel : TokenChannel string := tc_new bob alice.
Definition outgoing_side : option (TcOutBorrow string) := get_outgoing alice_channel.
Definition first_token : option (MoveToken string) :=
  match get_incoming bob_channel with
  | Some b =>
      match simulate_send_move_token b [] None None (fixed_of_prefix 16 []) with
      | Ok out => Some (sign_move_token bob (smo_unsigned_move_token out))
      | _ => None
      end
  | None => None
  end.

Definition accepted : option (MoveTokenReceived string) :=
  match outgoing_side, first_token with
  | Some b, Some mt => match handle_incoming_token_match b mt ∅ with Ok r => Some r | _ => None end
  | _, _ => None
  end.
Definition last_hashed (r : MoveTokenReceived string) : option MoveTokenHashed :=
  match last (mtr_mutations r) with Some (TcSetDirection (SetIncoming h)) => Some h | _ => None end.
Definition last_report : option Report.MoveTokenHashedReport := move_token_hashed_report <$> (accepted ≫= last_hashed).
#[local] Instance json_token : Json Report.MoveTokenHashedReport := listed (option_list last_report).
#[local] Instance json_token_laws : JsonLaws Report.MoveTokenHashedReport := listed_laws (option_list last_report).

Definition friend_with (t : option Report.MoveTokenHashedReport) : Report.FriendReport string :=
  mkFriendReport "bob" [] [] t ReportOnline (ReportConsistent (mkChannelConsistentReport [])) ReportEnabled.
Definition report_with (t : option Report.MoveTokenHashedReport) : NodeReport string :=
  mkNodeReport (mkFunderReport alice [mkNamedRelayAddress bob "relay address" "relay"] {[bob := friend_with t]}) (mkIndexClientReport [] None).
Definition empty_state : CtlState string := mkCtlState ∅ [] (1 : @rng toy_rng).
Lemma bob_only t : only_named (report_with t) bob "bob".
Proof.
  split; [exists (friend_with t); split; [apply lookup_singleton_eq|done]|].
  intros pk (r & Hr & _). cbn in Hr. by apply lookup_singleton_Some in Hr as [<- _].
Qed.
Definition is_ok {E A} (o : outcome E A) : bool := match o with Ok _ => true | _ => false end.
Lemma sample_accepted :
  match outgoing_side, first_token with Some b, Some mt => is_ok (handle_incoming_token_match b mt ∅) | _, _ => false end = true.
Proof. vm_compute. reflexivity. Qed.
Lemma sample_serializable :
  match outgoing_side, first_token with
  | Some b, Some mt =>
      match handle_incoming_token_match b mt ∅ with
      | Ok r => match last_hashed r with
                | Some h => bool_decide (is_Some (to_string (move_token_hashed_report h)))
                | None => false
                end
      | _ => false
      end
  | _, _ => false
  end = true.
Proof. vm_compute. reflexivity. Qed.
Lemma exported_token_verifies_witness :
  exists b mt r ms h s' l, outgoing_side = Some b /\ first_token = Some mt /\ handle_incoming_token_match b mt ∅ = Ok r /\
    mtr_mutations r = (ms ++ [TcSetDirection (SetIncoming h)])%list /\
    info_friend_last_token all_ok "bob" "token" (report_with (Some (move_token_hashed_report h))) empty_state [] = EOk tt s' l /\
    verifies_token all_ok show_key "token" s'.
Proof.
  pose proof sample_accepted as Hok. pose proof sample_serializable as Hser.
  destruct outgoing_side as [b|]; [|discriminate Hok]. destruct first_token as [mt|]; [|discriminate Hok].
  destruct (handle_incoming_token_match b mt ∅) as [r| |] eqn:Eh; [|discriminate Hok..].
  destruct (exported_token_verifies all_ok all_ok show_key b mt ∅ r Eh) as (ms & h & Hms & _ & Hexp).
  assert (last_hashed r = Some h) as Hh by (unfold last_hashed; rewrite Hms, last_snoc; reflexivity).
  rewrite Hh in Hser. apply bool_decide_eq_true in Hser.
  destruct (Hexp (report_with (Some (move_token_hashed_report h))) bob "bob" (friend_with (Some (move_token_hashed_report h))) "token"
    empty_state (bob_only _) (lookup_singleton_eq _ _) eq_refl) as [Hrun Hgo].
  destruct Hgo as (s' & l & Hs'); [reflexivity|reflexivity|exact Hser|].
  rewrite Hs' in Hrun. destruct Hrun as (_ & _ & Hv).
  exists b, mt, r, ms, h, s', l. do 3 (split; [done|]). split; [exact Hms|]. split; [exact Hs'|]. by apply Hv.
Defined.
(** The export of that token succeeds. *)
Lemma token_exported : succeeds (info_friend_last_token all_ok "bob" "token" (report_with last_report) empty_state []) = true.
Proof. vm_compute. reflexivity. Qed.

(** A node that has not heard from a friend with a lower key yet exports a token that
    does not verify. *)
Definition unheard : option Report.MoveTokenHashedReport :=
  move_token_hashed_report <$> tc_get_last_incoming_move_token_hashed bob_channel.
Lemma unheard_token_invalid :
  let json_unheard := listed (option_list unheard) in
  match info_friend_last_token (Json7 := json_unheard) all_ok "bob" "token" (report_with unheard) empty_state [] with
  | EOk _ s' _ => error_of (stverify_verify_token (Json7 := json_unheard) all_ok show_key "token" s' []) = Some VeTokenInvalid
  | _ => False
  end.
Proof. vm_compute. reflexivity. Qed.

(** ** Tickets *)
#[local] Instance json_friend : Json (FriendFile string) := listed [ticket_of (report_with None)].
#[local] Instance json_friend_laws : JsonLaws (FriendFile string) := listed_laws [ticket_of (report_with None)].
#[local] Instance json_relay_address : Json (RelayAddress string) := listed [].
#[local] Instance json_index_server : Json (IndexServerFile string) := {| to_string _ := None; from_string _ := None |}.
Definition exported := info_export_ticket all_ok "ticket" (report_with None) empty_state [].
Definition bob_report : NodeReport string := mkNodeReport (mkFunderReport bob [] ∅) (mkIndexClientReport [] None).
Definition copied_state : CtlState string := mkCtlState {["from alice" := "."]} [acked_by (uid 1)] (1 : @rng toy_rng).
Lemma nobody_named pk name : ~ named bob_report pk name.
Proof. intros (r & Hr & _). cbn in Hr. by rewrite lookup_empty in Hr. Qed.
Lemma sample_exported :
  match exported with EOk _ s1 _ => bool_decide (ct_files copied_state !! "from alice" = ct_files s1 !! "ticket") | _ => false end = true.
Proof. vm_compute. reflexivity. Qed.
Lemma ticket_adds_friend_witness :
  exists s1 l1, exported = EOk tt s1 l1 /\ ct_files copied_state !! "from alice" = ct_files s1 !! "ticket" /\
    match config_add_friend all_ok "from alice" "alice" bob_report copied_state [] with
    | EOk _ s2 l => ct_files s2 = ct_files copied_state /\ exists id, acked (ct_incoming copied_state) id /\
        l = [CaRead "from alice"; CaSend (mkAppToAppServer id (config.add_friend alice [mkRelayAddress bob "relay address"] "alice"))]
    | EErr e _ _ => e = CoIoError \/ e = CoAppConfigError
    | EPanic => False
    end.
Proof.
  pose proof sample_exported as Hok. destruct exported as [[] s1 l1| |] eqn:Ex; [|discriminate Hok..].
  apply bool_decide_eq_true in Hok as Hcopy.
  exists s1, l1. split; [done|]. split; [done|].
  exact (ticket_adds_friend all_ok all_ok "ticket" (report_with None) empty_state s1 l1 Ex bob_report "from alice" "alice" copied_state Hcopy
    (fun pk => nobody_named pk "alice")).
Defined.
Lemma ticket_added : succeeds (config_add_friend all_ok "from alice" "alice" bob_report copied_state []) = true.
Proof. vm_compute. reflexivity. Qed.
End StctrlSamples.

Module StmgrSamples.
Import Toy FunderSamples FileStoreSamples StctrlSamples.
Local Open Scope string_scope.

#[local] Instance NetAddress_eq_dec : EqDecision NetAddress.
Proof. solve_decision. Defined.
#[local] Instance AppPermissions_eq_dec : EqDecision AppPermissions.
Proof. solve_decision. Defined.
#[local] Instance TrustedAppFile_eq_dec : EqDecision TrustedAppFile.
Proof. solve_decision. Defined.
#[local] Instance IndexServerFile_eq_dec : EqDecision (IndexServerFile NetAddress).
Proof. solve_decision. Defined.
#[local] Instance NodeEntryFile_eq_dec : EqDecision NodeEntryFile.
Proof. solve_decision. Defined.

Definition key : PrivateKey := fixed_of_prefix _ [Byte.x07].
Definition derive (k : PrivateKey) : option PublicKey := if decide (k = key) then Some bob else None.
Definition rand_key (g : @rng toy_rng) : PrivateKey * rng := (key, g).
Definition home : NetAddress := mkNetAddress "home:1".
Definition buyer_only : AppPermissions := mkAppPermissions true true false false.

#[local] Instance json_id : Json IdentityFile := listed [mkIdentityFile key].
#[local] Instance json_id_laws : JsonLaws IdentityFile := listed_laws [mkIdentityFile key].
#[local] Instance json_app : Json TrustedAppFile := listed [mkTrustedAppFile bob buyer_only].
#[local] Instance json_app_laws : JsonLaws TrustedAppFile := listed_laws [mkTrustedAppFile bob buyer_only].
#[local] Instance json_rel : Json (RelayAddressFile NetAddress) := listed [mkRelayAddress bob home].
#[local] Instance json_rel_laws : JsonLaws (RelayAddressFile NetAddress) := listed_laws [mkRelayAddress bob home].
#[local] Instance json_idx : Json (IndexServerFile NetAddress) := listed [mkIndexServerFile bob home].
#[local] Instance json_idx_laws : JsonLaws (IndexServerFile NetAddress) := listed_laws [mkIndexServerFile bob home].
#[local] Instance json_na : Json (NodeAddressFile NetAddress) := listed [mkNodeAddressFile bob home].
#[local] Instance json_na_laws : JsonLaws (NodeAddressFile NetAddress) := listed_laws [mkNodeAddressFile bob home].
#[local] Instance json_entry : Json NodeEntryFile := listed [mkNodeEntryFile bob home key].
#[local] Instance json_entry_laws : JsonLaws NodeEntryFile := listed_laws [mkNodeEntryFile bob home key].

(** A serialization of the first state of a node. *)
Definition is_first (ns : NodeState NetAddress) : bool :=
  let s := ns_funder_state ns in
  bool_decide (friends s = ∅) && bool_decide (open_invoices s = ∅) && bool_decide (open_transactions s = ∅) && bool_decide (payments s = ∅) &&
  bool_decide (fu_local_public_key s = bob) && bool_decide (FunderState.relays s = []) && bool_decide (icc_index_servers (ns_index_client_config ns) = []).
#[local] Instance first_serde : Serde (NodeState NetAddress) := {|
  to_string_pretty ns := if is_first ns then Some "first" else None;
  from_str t := if decide (t = "first") then Some (node_state_new bob) else None
|}.
#[local] Instance first_serde_laws : SerdeLaws (NodeState NetAddress).
Proof.
  split. intros ns t. cbn. destruct (is_first ns) eqn:Ef; [|done]. intros [= <-]. destruct (decide _); [|done]. f_equal.
  unfold is_first in Ef. rewrite !andb_true_iff, !bool_decide_eq_true in Ef.
  destruct ns as [[? ? ? ? ? ?] [?]]. simpl in Ef. unfold node_state_new, funder_new. intuition congruence.
Qed.

Definition id_state : CtlState NetAddress := mkCtlState {["id" := "."]} [] (1%Z : @rng toy_rng).
Definition mgr (cmd : StMgrCmd) := stmgr all_ok derive rand_key cmd id_state [].
Definition ticket_cmd : StMgrCmd := AppTicketCmd "id" "ticket" true true false false.

(** All commands succeed there. *)
Lemma commands_succeed :
  forallb (fun cmd => succeeds (mgr cmd))
    [InitNodeDbCmd "id" "db"; GenIdentCmd "new"; ticket_cmd; RelayTicketCmd "id" "home:1" "ticket"; IndexTicketCmd "id" "home:1" "ticket";
     NodeTicketCmd "id" "home:1" "ticket"; NodeEntryCmd "id" "id" "home:1" "ticket"] = true.
Proof. vm_compute. reflexivity. Qed.
Lemma stmgr_never_overrides_witness :
  match mgr (InitNodeDbCmd "id" "db") with
  | EOk _ s' _ => ct_files id_state !! "db" = None /\
      exists text, describes derive (ct_files id_state) (InitNodeDbCmd "id" "db") text /\ ct_files s' = <["db" := text]> (ct_files id_state)
  | EErr _ s' _ => spared id_state "db" s'
  | EPanic => False
  end.
Proof.
  pose proof (stmgr_never_overrides all_ok derive rand_key (InitNodeDbCmd "id" "db") id_state) as Hmgr. cbn [output_path] in Hmgr.
  revert Hmgr. unfold mgr. generalize (stmgr all_ok derive rand_key (InitNodeDbCmd "id" "db") id_state []). exact (fun r Hr => Hr).
Defined.

Lemma bob_key : key_of derive (ct_files id_state) "id" bob.
Proof. exists key. split; [exists "."; split; vm_compute; reflexivity|vm_compute; reflexivity]. Qed.
Lemma ticket_written : succeeds (mgr ticket_cmd) = true.
Proof. vm_compute. reflexivity. Qed.
Lemma ticket_admits_application_witness :
  exists s' l, mgr ticket_cmd = EOk tt s' l /\
    file_app_permissions (Some ([EntryDir] ++ EntryFile (ct_files s' !! "ticket") :: [])%list) bob = Some buyer_only.
Proof.
  pose proof ticket_written as Hok. destruct (mgr ticket_cmd) as [[] s' l| |] eqn:Er; [|discriminate Hok..]. exists s', l. split; [done|].
  apply (ticket_admits_application all_ok derive rand_key id_state s' l "id" "ticket" true true false false bob [EntryDir] []).
  - exact Er.
  - exact bob_key.
  - reflexivity.
  - intros f Hf. by apply elem_of_nil in Hf.
Defined.
End StmgrSamples.
