(* ===== verification/Streams.v ===== *)
(** * Helpers for streams ([common/src])

    The service that keeps a state and serves it with its mutations
    ([state_service.rs]), the service that splits a stream ([multi_consumer.rs]), and
    the pool of concurrent transforms ([transform_pool.rs]). *)

From S2P Require Import Prelude Database.

(** ** Sending to all clients

    A channel with what was sent to it and whether its receiver is still there. A
    send that waits for a slow receiver is a later event of the loop. *)
Section Broadcast.
Context {T : Type}.
Record Chan := mkChan { ch_items : list T; ch_open : bool }.
Definition chan_push (x : T) (ch : Chan) : Chan := mkChan (ch_items ch ++ [x]) (ch_open ch).
Definition chan_drop (ch : Chan) : Chan := mkChan (ch_items ch) false.

(** [sender.send(x)], to the channel at a position *)
Definition chan_send (x : T) (c : nat) (chs : list Chan) : option (list Chan) :=
  ch ← chs !! c; if ch_open ch then Some (<[c := chan_push x ch]> chs) else None.
(** The loop over the senders: those whose receivers are gone are not retained. *)
Fixpoint send_each (x : T) (senders : list nat) (chs : list Chan) : list nat * list Chan :=
  match senders with
  | [] => ([], chs)
  | c :: senders' =>
      match chan_send x c chs with
      | Some chs' => let '(new_senders, chs'') := send_each x senders' chs' in (c :: new_senders, chs'')
      | None => send_each x senders' chs
      end
  end.

Lemma chan_send_spec x c chs :
  match chan_send x c chs with
  | Some chs' => exists ch, chs !! c = Some ch /\ ch_open ch = true /\ chs' = <[c := chan_push x ch]> chs
  | None => forall ch, chs !! c = Some ch -> ch_open ch = false
  end.
Proof.
  unfold chan_send. destruct (chs !! c) as [ch|] eqn:Hc; simpl; [|done].
  destruct (ch_open ch) eqn:Ho; [by exists ch|]. by intros ch' [= <-].
Qed.

Lemma send_each_spec x senders chs kept chs' :
  send_each x senders chs = (kept, chs') -> NoDup senders ->
  kept `sublist_of` senders /\ length chs' = length chs /\
  forall c ch, chs !! c = Some ch ->
    chs' !! c = Some (if bool_decide (c ∈ senders) && ch_open ch then chan_push x ch else ch) /\
    (c ∈ senders -> ch_open ch = true -> c ∈ kept).
Proof.
  revert chs kept chs'. induction senders as [|d senders IH]; intros chs kept chs' Hs Hnd; simpl in Hs.
  { injection Hs as <- <-. by split_and!. }
  apply NoDup_cons in Hnd as [Hn Hnd]. pose proof (chan_send_spec x d chs) as Hd. destruct (chan_send x d chs) as [chs1|].
  - destruct Hd as (ch0 & Hd & Ho & ->). destruct (send_each x senders _) as [kept1 chs2] eqn:Es. injection Hs as <- <-.
    destruct (IH _ _ _ Es Hnd) as (Hsub & Hlen & Hspec). rewrite length_insert in Hlen. split_and!; [by apply sublist_skip|done|].
    intros c ch Hc. destruct (decide (c = d)) as [->|Hne].
    + rewrite Hd in Hc. injection Hc as <-. destruct (Hspec d (chan_push x ch0)) as [-> _]; [apply list_lookup_insert_eq; by apply lookup_lt_Some in Hd|].
      rewrite (bool_decide_eq_false_2 (d ∈ senders)), bool_decide_eq_true_2, Ho by (done || by left). split; [done|]. by left.
    + destruct (Hspec c ch) as [-> Hk]; [by rewrite list_lookup_insert_ne|].
      rewrite (bool_decide_ext (c ∈ d :: senders) (c ∈ senders)) by set_solver. split; [done|]. set_solver.
  - destruct (IH _ _ _ Hs Hnd) as (Hsub & Hlen & Hspec). split_and!; [by apply sublist_cons|done|].
    intros c ch Hc. destruct (Hspec c ch Hc) as [-> Hk]. destruct (decide (c = d)) as [->|Hne].
    + rewrite (Hd ch Hc), !andb_false_r. split; [done|]. by intros _ [=].
    + rewrite (bool_decide_ext (c ∈ d :: senders) (c ∈ senders)) by set_solver. split; [done|]. set_solver.
Qed.

(** What was sent to a channel is a contiguous part of all items: those from the
    time it was made (of which [P] holds) and, while its receiver is there, up to now. *)
Definition part_of (P : nat -> list T -> Prop) (applied : list T) (senders : list nat) (c : nat) (ch : Chan) : Prop :=
  exists before after, P c before /\ applied = before ++ ch_items ch ++ after /\ (ch_open ch = true -> after = [] /\ c ∈ senders).
Definition broadcast_inv (P : nat -> list T -> Prop) (applied : list T) (senders : list nat) (chs : list Chan) : Prop :=
  NoDup senders /\ Forall (fun c => (c < length chs)%nat) senders /\
  forall c ch, chs !! c = Some ch -> part_of P applied senders c ch.

Lemma broadcast_send P applied senders chs x kept chs' :
  send_each x senders chs = (kept, chs') -> broadcast_inv P applied senders chs -> broadcast_inv P (applied ++ [x]) kept chs'.
Proof.
  intros Hs (Hnd & Hlt & Hall). destruct (send_each_spec _ _ _ _ _ Hs Hnd) as (Hsub & Hlen & Hspec). split_and!.
  - by eapply sublist_NoDup.
  - rewrite Hlen, Forall_forall in *. intros c Hc. apply Hlt. by eapply elem_of_sublist.
  - intros c ch' Hc'. destruct (chs !! c) as [ch|] eqn:Hc;
      [|apply lookup_ge_None in Hc; rewrite <- Hlen in Hc; apply lookup_ge_None in Hc; congruence].
    destruct (Hspec c ch Hc) as [Hch Hk]. rewrite Hc' in Hch. injection Hch as ->. destruct (Hall c ch Hc) as (before & after & HP & -> & Ho).
    destruct (ch_open ch) eqn:Hop.
    + destruct (Ho eq_refl) as [-> Hin]. rewrite bool_decide_eq_true_2 by done. simpl. exists before, []. simpl.
      rewrite !app_nil_r, app_assoc. split_and!; try done. auto.
    + rewrite andb_false_r. exists before, (after ++ [x]). rewrite <- !app_assoc. split_and!; try done. congruence.
Qed.
Lemma broadcast_join P P' applied senders chs (waiting : bool) :
  broadcast_inv P applied senders chs -> (forall c b, (c < length chs)%nat -> P c b -> P' c b) -> P' (length chs) applied ->
  broadcast_inv P' applied (if waiting then senders ++ [length chs] else senders) (chs ++ [mkChan [] waiting]).
Proof.
  intros (Hnd & Hlt & Hall) HP Hnew. split_and!.
  - destruct waiting; [|done]. apply NoDup_app. split_and!; [done| |apply NoDup_singleton].
    intros c Hc ->%list_elem_of_singleton. rewrite Forall_forall in Hlt. specialize (Hlt _ Hc). simpl in Hlt. lia.
  - rewrite length_app. simpl. assert (Forall (fun c => (c < length chs + 1)%nat) senders) as Hlt' by (eapply Forall_impl; [exact Hlt|]; simpl; lia).
    destruct waiting; [|done]. apply Forall_app. split; [done|]. apply Forall_singleton. lia.
  - intros c ch Hc. apply lookup_app_Some in Hc as [Hc|[Hge Hc]].
    + pose proof (lookup_lt_Some _ _ _ Hc). destruct (Hall c ch Hc) as (before & after & HPc & Happ & Ho). exists before, after.
      split_and!; [auto|done|]. intros Hop. destruct (Ho Hop). split; [done|]. destruct waiting; set_solver.
    + apply list_lookup_singleton_Some in Hc as [Hz <-]. assert (c = length chs) as -> by lia. exists applied, []. simpl.
      rewrite app_nil_r. split_and!; try done. intros ->. set_solver.
Qed.
Lemma broadcast_drop P applied senders chs c :
  broadcast_inv P applied senders chs -> broadcast_inv P applied senders (alter chan_drop c chs).
Proof.
  intros (Hnd & Hlt & Hall). split_and!; [done|by rewrite length_alter|]. intros d ch Hd.
  destruct (decide (d = c)) as [->|Hne]; [|rewrite list_lookup_alter_ne in Hd by done; eauto].
  rewrite list_lookup_alter_eq in Hd. destruct (chs !! c) as [ch0|] eqn:Hc; [|done]. injection Hd as <-.
  destruct (Hall c ch0 Hc) as (before & after & HP & Happ & _). by exists before, after.
Qed.
Lemma broadcast_new P : broadcast_inv P [] [] [].
Proof. split_and!; [constructor..|done]. Qed.
End Broadcast.
Arguments Chan : clear implicits.

(** ** The state service *)
Inductive StateClientError := SendRequestError | ReceiveResponseError.
(** [StateClient::request_state]: whether the request could be sent, and the response. *)
Definition request_state {R : Type} (sent : bool) (response : option R) : outcome StateClientError R :=
  if sent then ok_or response ReceiveResponseError else Err SendRequestError.

Section StateService.
Context {ST MU E : Type} `{MutableState ST MU E}.

(** A request comes with whether its client still waits for the response. *)
Inductive StateEvent := StRequest (waiting : bool) | StRequestsClosed | StMutation (mutation : MU) | StMutationsClosed.
(** [sv_snapshots]: the states that were given with the channels. *)
Record StateService := mkStateService {
  sv_state : ST; sv_senders : list nat; sv_requests_closed : bool;
  sv_channels : list (Chan MU); sv_snapshots : list ST
}.
Definition state_service_new (state : ST) : StateService := mkStateService state [] false [] [].

(** One event; [false] when the service ends. *)
Definition state_service_step (e : StateEvent) (s : StateService) : outcome E (StateService * bool) :=
  match e with
  | StRequest waiting =>
      Ok (mkStateService (sv_state s) (if waiting then sv_senders s ++ [length (sv_channels s)] else sv_senders s)
            (sv_requests_closed s) (sv_channels s ++ [mkChan [] waiting]) (sv_snapshots s ++ [sv_state s]), true)
  | StRequestsClosed => Ok (mkStateService (sv_state s) (sv_senders s) true (sv_channels s) (sv_snapshots s), true)
  | StMutation mutation =>
      let? state := mutate (sv_state s) mutation in
      let '(senders, chs) := send_each mutation (sv_senders s) (sv_channels s) in
      Ok (mkStateService state senders (sv_requests_closed s) chs (sv_snapshots s),
          negb (bool_decide (senders = []) && sv_requests_closed s))
  | StMutationsClosed => Ok (s, false)
  end.

(** Events of the service, and receivers that clients drop. *)
Inductive StateInput := StEvent (e : StateEvent) | StDrop (c : nat).
Fixpoint state_service (inputs : list StateInput) (s : StateService) : outcome E (StateService * bool) :=
  match inputs with
  | [] => Ok (s, true)
  | StEvent e :: inputs' =>
      let? (s, go_on) := state_service_step e s in if go_on then state_service inputs' s else Ok (s, false)
  | StDrop c :: inputs' =>
      state_service inputs' (mkStateService (sv_state s) (sv_senders s) (sv_requests_closed s) (alter chan_drop c (sv_channels s)) (sv_snapshots s))
  end.

Definition mutations_of (inputs : list StateInput) : list MU :=
  omap (fun i => match i with StEvent (StMutation m) => Some m | _ => None end) inputs.
(** What a client has that starts from its snapshot and applies what it receives. *)
Definition replay (state : ST) (mutations : list MU) : outcome E ST := ofold mutate state mutations.

Definition snapshot_of (initial : ST) (snapshots : list ST) (c : nat) (before : list MU) : Prop :=
  exists state, snapshots !! c = Some state /\ replay initial before = Ok state.
Definition service_inv (initial : ST) (applied : list MU) (s : StateService) : Prop :=
  replay initial applied = Ok (sv_state s) /\ length (sv_snapshots s) = length (sv_channels s) /\
  broadcast_inv (snapshot_of initial (sv_snapshots s)) applied (sv_senders s) (sv_channels s).

Lemma state_service_step_inv initial applied e s s' go_on :
  service_inv initial applied s -> state_service_step e s = Ok (s', go_on) ->
  service_inv initial (applied ++ mutations_of [StEvent e]) s'.
Proof.
  intros (Hst & Hlen & Hb) Hs. destruct e as [waiting| |m|]; simpl in Hs.
  - injection Hs as <- _. simpl. rewrite app_nil_r. split_and!; [done|simpl; rewrite !length_app; simpl; lia|]. simpl.
    eapply broadcast_join; [exact Hb| |].
    + intros c b Hc (state & Hsn & Hr). exists state. split; [|done]. by apply lookup_app_l_Some.
    + exists (sv_state s). split; [|done]. rewrite <- Hlen. by apply list_lookup_middle.
  - injection Hs as <- _. simpl. by rewrite app_nil_r.
  - destruct (mutate (sv_state s) m) as [state|e|] eqn:Hm; simpl in Hs; [|done..].
    destruct (send_each m _ _) as [kept chs] eqn:Es. injection Hs as <- _. simpl. pose proof Hb as (Hnd & _).
    destruct (send_each_spec _ _ _ _ _ Es Hnd) as (_ & Hl & _). split_and!; simpl.
    + unfold replay in *. rewrite ofold_app, Hst. simpl. by rewrite Hm.
    + by rewrite Hl.
    + by eapply broadcast_send.
  - injection Hs as <- _. simpl. by rewrite app_nil_r.
Qed.

Lemma state_service_inv initial inputs applied s s' go_on :
  service_inv initial applied s -> state_service inputs s = Ok (s', go_on) ->
  exists seen, seen `prefix_of` inputs /\ (go_on = true -> seen = inputs) /\ service_inv initial (applied ++ mutations_of seen) s'.
Proof.
  revert applied s. induction inputs as [|i inputs IH]; intros applied s Hinv Hrun.
  { injection Hrun as <- <-. exists []. simpl. by rewrite app_nil_r. }
  destruct i as [e|c]; cbn [state_service] in Hrun.
  - destruct (state_service_step e s) as [[s1 go1]|err|] eqn:Hs; simpl in Hrun; [|done..].
    pose proof (state_service_step_inv _ _ _ _ _ _ Hinv Hs) as Hinv1. destruct go1.
    + destruct (IH _ _ Hinv1 Hrun) as (seen & Hp & Hall & Hinv'). exists (StEvent e :: seen).
      split_and!; [by apply prefix_cons|by intros ->%Hall|]. change (StEvent e :: seen) with ([StEvent e] ++ seen).
      unfold mutations_of in *. by rewrite omap_app, app_assoc.
    + injection Hrun as <- <-. exists [StEvent e]. split_and!; [by apply prefix_cons, prefix_nil|done|done].
  - destruct Hinv as (Hst & Hlen & Hb). edestruct (IH applied) as (seen & Hp & Hall & Hinv'); [|exact Hrun|].
    + split_and!; simpl; [done|by rewrite length_alter|by apply broadcast_drop].
    + exists (StDrop c :: seen). split_and!; [by apply prefix_cons|by intros ->%Hall|done].
Qed.
Lemma service_inv_new initial : service_inv initial [] (state_service_new initial).
Proof. split; [done|]. split; [done|]. apply broadcast_new. Qed.
End StateService.

(** Every client follows the state: what the service sent to a client, applied to the
    state that came with its channel, is the state of the service, as long as the
    client keeps its receiver, whatever the other clients do; a client that has gone
    has a state that the service had. While the service runs, all mutations have been
    applied. *)
Theorem state_clients_follow {ST MU E : Type} `{MutableState ST MU E} (initial : ST) (inputs : list StateInput) (s : StateService) (go_on : bool)
  (Hrun : state_service inputs (state_service_new initial) = Ok (s, go_on)) :
  exists seen, seen `prefix_of` inputs /\ (go_on = true -> seen = inputs) /\
    replay initial (mutations_of seen) = Ok (sv_state s) /\
    forall c ch, sv_channels s !! c = Some ch ->
      exists state before after, sv_snapshots s !! c = Some state /\ mutations_of seen = before ++ ch_items ch ++ after /\
        replay initial before = Ok state /\ replay initial (before ++ ch_items ch) = replay state (ch_items ch) /\
        (ch_open ch = true -> replay state (ch_items ch) = Ok (sv_state s)).
Proof.
  destruct (state_service_inv initial inputs [] _ _ _ (service_inv_new initial) Hrun) as (seen & Hp & Hall & Hst & _ & Hb).
  exists seen. split_and!; try done. intros c ch Hc. destruct Hb as (_ & _ & Hb).
  destruct (Hb c ch Hc) as (before & after & (state & Hsn & Hr) & Happ & Ho). exists state, before, after. split_and!; try done.
  - unfold replay in *. by rewrite ofold_app, Hr.
  - intros Hop. destruct (Ho Hop) as [-> _]. simpl in *. rewrite Happ, app_nil_r in Hst. unfold replay in *. by rewrite ofold_app, Hr in Hst.
Qed.

(** ** The service that splits a stream *)
Inductive MultiConsumerClientError := SendError | ReceiveError.
(** [MultiConsumerClient::request_stream] *)
Definition request_stream {R : Type} (sent : bool) (response : option R) : outcome MultiConsumerClientError R :=
  if sent then ok_or response ReceiveError else Err SendError.

Section MultiConsumer.
Context {T : Type}.
Inductive ConsumerEvent := McItem (t : T) | McItemsClosed | McRequest (waiting : bool) | McRequestsClosed.
Record MultiConsumer := mkMultiConsumer { mc_requests_closed : bool; mc_senders : list nat; mc_channels : list (Chan T) }.
Definition multi_consumer_new : MultiConsumer := mkMultiConsumer false [] [].
Definition multi_consumer_step (e : ConsumerEvent) (s : MultiConsumer) : MultiConsumer * bool :=
  match e with
  | McItem t =>
      let '(senders, chs) := send_each t (mc_senders s) (mc_channels s) in
      (mkMultiConsumer (mc_requests_closed s) senders chs, negb (bool_decide (senders = []) && mc_requests_closed s))
  | McItemsClosed => (s, false)
  | McRequest waiting =>
      (mkMultiConsumer (mc_requests_closed s) (if waiting then mc_senders s ++ [length (mc_channels s)] else mc_senders s)
         (mc_channels s ++ [mkChan [] waiting]), true)
  | McRequestsClosed => (mkMultiConsumer true (mc_senders s) (mc_channels s), true)
  end.

Inductive ConsumerInput := McEvent (e : ConsumerEvent) | McDrop (c : nat).
Fixpoint multi_consumer_service (inputs : list ConsumerInput) (s : MultiConsumer) : MultiConsumer * bool :=
  match inputs with
  | [] => (s, true)
  | McEvent e :: inputs' => let '(s, go_on) := multi_consumer_step e s in if go_on then multi_consumer_service inputs' s else (s, false)
  | McDrop c :: inputs' => multi_consumer_service inputs' (mkMultiConsumer (mc_requests_closed s) (mc_senders s) (alter chan_drop c (mc_channels s)))
  end.
Definition items_of (inputs : list ConsumerInput) : list T := omap (fun i => match i with McEvent (McItem t) => Some t | _ => None end) inputs.
Notation inv applied s := (broadcast_inv (fun _ _ => True) applied (mc_senders s) (mc_channels s)).

Lemma multi_consumer_inv inputs applied s s' go_on :
  inv applied s -> multi_consumer_service inputs s = (s', go_on) ->
  exists seen, seen `prefix_of` inputs /\ (go_on = true -> seen = inputs) /\ inv (applied ++ items_of seen) s'.
Proof.
  revert applied s. induction inputs as [|i inputs IH]; intros applied s Hinv Hrun.
  { injection Hrun as <- <-. exists []. simpl. by rewrite app_nil_r. }
  destruct i as [e|c]; cbn [multi_consumer_service] in Hrun.
  - destruct (multi_consumer_step e s) as [s1 go1] eqn:Hs.
    assert (inv (applied ++ items_of [McEvent e]) s1) as Hinv1.
    { destruct e as [t| |w|]; simpl in Hs; [destruct (send_each t _ _) as [kept chs] eqn:Es|..]; injection Hs as <- _; simpl; rewrite ?app_nil_r;
        [by eapply broadcast_send|done|by eapply broadcast_join|done]. }
    destruct go1.
    + destruct (IH _ _ Hinv1 Hrun) as (seen & Hp & Hall & Hinv'). exists (McEvent e :: seen).
      split_and!; [by apply prefix_cons|by intros ->%Hall|]. change (McEvent e :: seen) with ([McEvent e] ++ seen).
      unfold items_of in *. by rewrite omap_app, app_assoc.
    + injection Hrun as <- <-. exists [McEvent e]. split_and!; [by apply prefix_cons, prefix_nil|done|done].
  - edestruct (IH applied) as (seen & Hp & Hall & Hinv'); [|exact Hrun|]; [simpl; by apply broadcast_drop|].
    exists (McDrop c :: seen). split_and!; [by apply prefix_cons|by intros ->%Hall|done].
Qed.
End MultiConsumer.

(** Every consumer gets a contiguous part of the stream, without gaps or reordering:
    the items since its request, all of them while it keeps its receiver. *)
Theorem consumers_get_contiguous_items {T : Type} (inputs : list (@ConsumerInput T)) :
  let '(s, go_on) := multi_consumer_service inputs multi_consumer_new in
  exists seen, seen `prefix_of` inputs /\ (go_on = true -> seen = inputs) /\
    forall c ch, mc_channels s !! c = Some ch ->
      exists before after, items_of seen = before ++ ch_items ch ++ after /\ (ch_open ch = true -> after = []).
Proof.
  destruct (multi_consumer_service inputs multi_consumer_new) as [s go_on] eqn:Hrun.
  destruct (multi_consumer_inv inputs [] multi_consumer_new _ _ (broadcast_new _) Hrun) as (seen & Hp & Hall & _ & _ & Hb).
  exists seen. split_and!; try done. intros c ch Hc. destruct (Hb c ch Hc) as (before & after & _ & Happ & Ho). exists before, after. naive_solver.
Qed.

(** ** The pool of transforms *)
Section TransformPool.
Context {IN OUT : Type}.
Variables (transform : IN -> option OUT) (max_concurrent : nat).

(** [StreamExt::for_each_concurrent] takes an item from the stream while fewer than
    [max_concurrent] transforms run (no limit when it is zero), and lets them run until
    the stream has ended and all are done. *)
Record Pool := mkPool { po_incoming : list IN; po_running : list IN; po_outgoing : list OUT }.
Definition has_room (running : list IN) : bool := (max_concurrent =? 0)%nat || (length running <? max_concurrent)%nat.
(** The next item is taken, or the transform at a position is done; a failure to send
    its output is ignored. *)
Inductive PoolInput := PoTake | PoDone (i : nat) (sent : bool).
Definition pool_step (i : PoolInput) (s : Pool) : option Pool :=
  match i with
  | PoTake =>
      match po_incoming s with
      | input_value :: rest => if has_room (po_running s) then Some (mkPool rest (po_running s ++ [input_value]) (po_outgoing s)) else None
      | [] => None
      end
  | PoDone i sent =>
      input_value ← po_running s !! i;
      Some (mkPool (po_incoming s) (delete i (po_running s))
        (po_outgoing s ++ match transform input_value with Some output_value => if sent then [output_value] else [] | None => [] end))
  end.
Definition transform_pool_loop (inputs : list PoolInput) (s : Pool) : option Pool := pfold (fun s i => pool_step i s) s inputs.
Definition pool_new (incoming : list IN) : Pool := mkPool incoming [] [].
Definition pool_finished (s : Pool) : bool := bool_decide (length (po_incoming s) = 0 /\ length (po_running s) = 0)%nat.

Definition all_sent (inputs : list PoolInput) : Prop := Forall (fun i => match i with PoDone _ sent => sent = true | PoTake => True end) inputs.
Definition pool_measure (s : Pool) : nat := (2 * length (po_incoming s) + length (po_running s))%nat.
Definition outputs (l : list IN) : list OUT := omap transform l.
(** Everything that came in is still to come, runs, or has given its output. *)
Definition pool_inv (incoming : list IN) (s : Pool) : Prop :=
  po_outgoing s ++ outputs (po_running s ++ po_incoming s) ≡ₚ outputs incoming.
Definition within_limit (s : Pool) : Prop := max_concurrent <> 0%nat -> (length (po_running s) <= max_concurrent)%nat.

Lemma pool_step_limit i s s' : pool_step i s = Some s' -> within_limit s -> within_limit s' /\ S (pool_measure s') = pool_measure s.
Proof.
  unfold within_limit, pool_measure. destruct i as [|i sent]; simpl.
  - destruct (po_incoming s) as [|x rest]; [done|]. destruct (has_room (po_running s)) eqn:Hr; [|done]. intros [= <-] Hw. simpl.
    rewrite length_app. simpl. split; [|lia]. intros Hm. unfold has_room in Hr. apply orb_true_iff in Hr as [Hr%Nat.eqb_eq|Hr%Nat.ltb_lt]; lia.
  - destruct (po_running s !! i) as [x|] eqn:Hx; simpl; [|done]. intros [= <-] Hw. simpl. pose proof (length_delete (po_running s) i (mk_is_Some _ _ Hx)).
    apply lookup_lt_Some in Hx. split; [intros Hm; specialize (Hw Hm)|]; lia.
Qed.
Lemma pool_step_inv incoming i s s' :
  pool_step i s = Some s' -> all_sent [i] -> pool_inv incoming s -> pool_inv incoming s'.
Proof.
  unfold pool_inv, outputs. destruct i as [|i sent]; simpl.
  - destruct (po_incoming s) as [|x rest]; [done|]. destruct (has_room (po_running s)); [|done]. intros [= <-] _. simpl. by rewrite <- (app_assoc (po_running s)).
  - destruct (po_running s !! i) as [x|] eqn:Hx; simpl; [|done]. intros [= <-] [-> _]%Forall_cons <-. simpl.
    rewrite <- app_assoc. apply Permutation_app_head. rewrite !omap_app, app_assoc. apply Permutation_app_tail.
    pose proof (delete_Permutation _ _ _ Hx) as Hp. rewrite Hp at 2. simpl. by destruct (transform x).
Qed.
Lemma pool_run_limit inputs s s' :
  transform_pool_loop inputs s = Some s' -> within_limit s -> within_limit s' /\ (length inputs + pool_measure s' = pool_measure s)%nat.
Proof.
  unfold transform_pool_loop. revert s. induction inputs as [|i inputs IH]; intros s; simpl; [intros [= <-]; by split|].
  destruct (pool_step i s) as [s1|] eqn:Hs; simpl; [|done]. intros Hrun Hw. destruct (pool_step_limit _ _ _ Hs Hw) as [Hw1 Hm1].
  destruct (IH s1 Hrun Hw1). split; [done|lia].
Qed.
Lemma pool_run_inv incoming inputs s s' :
  transform_pool_loop inputs s = Some s' -> all_sent inputs -> pool_inv incoming s -> pool_inv incoming s'.
Proof.
  unfold transform_pool_loop. revert s. induction inputs as [|i inputs IH]; intros s; simpl; [by intros [= <-]|].
  destruct (pool_step i s) as [s1|] eqn:Hs; simpl; [|done]. intros Hrun [Hi Hall]%Forall_cons Hinv. apply (IH s1 Hrun Hall).
  eapply pool_step_inv; [exact Hs|by apply Forall_cons|exact Hinv].
Qed.
(** Some step is possible until the pool has finished. *)
Lemma pool_progress s : within_limit s -> pool_finished s = false -> exists i s', pool_step i s = Some s'.
Proof.
  intros Hw Hf. apply bool_decide_eq_false in Hf. destruct (po_running s) as [|x running] eqn:Hr.
  - destruct (po_incoming s) as [|x rest] eqn:Hi; [by destruct Hf|].
    exists PoTake. simpl. rewrite Hi, Hr. unfold has_room. destruct max_concurrent; simpl; eauto.
  - exists (PoDone 0 true). simpl. rewrite Hr. simpl. eauto.
Qed.
End TransformPool.

(** The pool never runs more than [max_concurrent] transforms at once; it can always go
    on until it has finished, which takes two steps for every item; and when it has
    finished, the outputs that were sent are the outputs of all items, each once, in
    some order. *)
Theorem transform_pool_complete {IN OUT : Type} (transform : IN -> option OUT) (max_concurrent : nat) (incoming : list IN)
  (inputs : list PoolInput) (s : Pool) (Hrun : transform_pool_loop transform max_concurrent inputs (pool_new incoming) = Some s) :
  (max_concurrent <> 0%nat -> (length (po_running s) <= max_concurrent)%nat) /\
  (length inputs <= 2 * length incoming)%nat /\
  (pool_finished s = false -> exists i s', pool_step transform max_concurrent i s = Some s') /\
  (pool_finished s = true -> length inputs = (2 * length incoming)%nat /\ (all_sent inputs -> po_outgoing s ≡ₚ omap transform incoming)).
Proof.
  destruct (pool_run_limit transform max_concurrent inputs _ _ Hrun) as [Hw Hm]; [by intros _; apply Nat.le_0_l|].
  unfold pool_measure in Hm. simpl in Hm. split_and!; [exact Hw|lia|by apply pool_progress|].
  intros Hf%bool_decide_eq_true. destruct Hf as [Hi Hr]. split; [lia|]. intros Hall.
  assert (pool_inv transform incoming s) as Hinv by (eapply pool_run_inv; [exact Hrun|exact Hall|apply Permutation_refl]).
  apply length_zero_iff_nil in Hi, Hr. unfold pool_inv, outputs in Hinv. rewrite Hi, Hr in Hinv. simpl in Hinv. by rewrite app_nil_r in Hinv.
Qed.

Module StreamsSamples.
(** Numbers with a sum that must not exceed ten. *)
#[export] Instance sum_mutable : MutableState nat nat unit := fun s m => if (s + m <=? 10)%nat then Ok (s + m)%nat else Err tt.
Definition sum_inputs : list StateInput :=
  [StEvent (StMutation 1%nat); StEvent (StRequest true); StEvent (StMutation 2%nat); StEvent (StRequest true); StDrop 0; StEvent (StMutation 3%nat)].
Definition sum_final : StateService := mkStateService 6%nat [1%nat] false [mkChan [2%nat] false; mkChan [3%nat] true] [1%nat; 3%nat].
Lemma state_clients_follow_witness : replay 3%nat [3%nat] = Ok 6%nat.
Proof.
  destruct (state_clients_follow 0%nat sum_inputs sum_final true) as (seen & _ & _ & _ & Hall); [vm_compute; reflexivity|].
  destruct (Hall 1%nat (mkChan [3%nat] true) eq_refl) as (state & before & after & [= <-] & _ & _ & _ & Ho). exact (Ho eq_refl).
Defined.

Definition halve (n : nat) : option nat := if Nat.even n then Some (Nat.div2 n) else None.
Definition pool_inputs : list PoolInput := [PoTake; PoTake; PoDone 1 true; PoTake; PoDone 0 true; PoDone 0 true].
Lemma transform_pool_complete_witness : [2%nat; 1%nat] ≡ₚ omap halve [2%nat; 4%nat; 5%nat].
Proof.
  destruct (transform_pool_complete halve 2 [2%nat; 4%nat; 5%nat] pool_inputs (mkPool [] [] [2%nat; 1%nat])) as (_ & _ & _ & Hf);
    [vm_compute; reflexivity|]. apply Hf; [reflexivity|]. repeat constructor.
Defined.
End StreamsSamples.
