(* ===== verification/NetServers.v ===== *)
(** * Servers on the network

    How the programs of the relay and of the index server put their parts together
    ([bin/src/strelay/net_relay.rs], [relay/src/server/server.rs],
    [bin/src/stindex/net_index.rs], [index_server/src/backoff_connector.rs]): raw
    connections go through the pool of transforms, which makes secure connections of
    them, and from there to the loops. *)

From S2P Require Import Prelude Arith Bytes Canonical Handler FunderHandler SecureChannel SecureChannelTheory Effects KeepAlive Relay RelayTheory.
From S2P Require Import AppConnect Connection Streams.

Local Open Scope Z_scope.

Definition RELAY_CONN_TIMEOUT_TICKS : Z := 4.

Section Secure.
Context `{ScCryptoOps} `{CryptoOps} `{ProtoSerialize ChannelMessage}.
Context `{ProtoSerialize ExchangeRandNonce} `{ProtoSerialize ExchangeDh}.
Context (local_public_key : PublicKey) `{!SignerOps local_public_key}.

(** A connection of the network, by its name: what the other side writes, what happens
    while the secure connection is made, and the first message over it. *)
Record RawConn := mkRawConn {
  rw_conn : nat; rw_reader : list bytes;
  rw_env : Env; rw_rng : rng; rw_rng_loop : rng;
  rw_first_msg : option (Z * option bytes); rw_tie : bool
}.

(** [AnonSecureChannel::transform]: any remote side is permitted. *)
Definition anon_secure_channel (raw : RawConn) : option (PublicKey * RawConn) :=
  match create_version_encrypt_keepalive local_public_key (rw_env raw) None (rw_reader raw) (rw_rng raw) (rw_rng_loop raw) with
  | Some (_, Some c) => Some (co_public_key c, raw)
  | _ => None
  end.

Section Relay.
Variables (deserialize_init : bytes -> option InitConnection) (max_concurrent_encrypt : nat).

(** The events of the loop: those of others are given, [None] is the next connection,
    or the end of the connections when there is none. *)
Fixpoint with_conns (schedule : list (option RelayServerEvent)) (conns : list IncomingConn) : list RelayServerEvent :=
  match schedule with
  | [] => []
  | Some e :: schedule' => e :: with_conns schedule' conns
  | None :: schedule' =>
      match conns with
      | c :: conns' => RsIncomingConn c :: with_conns schedule' conns'
      | [] => RsIncomingConnsClosed :: with_conns schedule' []
      end
  end.

(** [relay_server] *)
Definition relay_server (conn_timeout_ticks half_tunnel_ticks : Z) (spawns takes : nat -> bool) (timer_stream : bool)
    (incoming_conns : list (PublicKey * RawConn)) (schedule : list (option RelayServerEvent)) :
  Eff RelayServer RelayServerError RelayServerAction unit :=
  relay_server_loop half_tunnel_ticks spawns takes timer_stream
    (with_conns schedule (conn_processor deserialize_init conn_timeout_ticks
       (map (fun '(public_key, raw) => (public_key, rw_conn raw, rw_first_msg raw, rw_tie raw)) incoming_conns))).

(** [net_relay_server]; [inputs] are the steps of the pool. *)
Definition net_relay_server (spawns takes : nat -> bool) (timer_stream : bool) (incoming_raw_conns : list RawConn) (inputs : list PoolInput)
    (schedule : list (option RelayServerEvent)) : option (eres RelayServer RelayServerError RelayServerAction unit) :=
  pool ← transform_pool_loop anon_secure_channel max_concurrent_encrypt inputs (pool_new incoming_raw_conns);
  Some (relay_server RELAY_CONN_TIMEOUT_TICKS KEEPALIVE_TICKS spawns takes timer_stream (po_outgoing pool) schedule relay_server_new []).
End Relay.

(** ** The index server *)

(** [incoming_index_client_conn_transform] and [incoming_index_server_conn_transform]: the key of
    the other side and the messages it sent, up to the first that cannot be deserialized. [data] is
    what comes over the secure connection, of which [taken] messages are taken. *)
Definition incoming_index_conn_transform {A : Type} `{ProtoSerialize A} (raw : RawConn) (data : list bytes) (taken : nat) :
  option (PublicKey * list A) :=
  '(public_key, _) ← anon_secure_channel raw; Some (public_key, deserialize_stream data taken).
(** [outgoing_index_server_conn_transform] *)
Definition outgoing_index_server_conn_transform {A : Type} `{ProtoSerialize A} (public_key : PublicKey) (raw : RawConn) (data : list bytes) (taken : nat) :
  option (list A) :=
  match create_version_encrypt_keepalive local_public_key (rw_env raw) (Some public_key) (rw_reader raw) (rw_rng raw) (rw_rng_loop raw) with
  | Some (_, Some _) => Some (deserialize_stream data taken)
  | _ => None
  end.
(** The task that serializes: [sent] messages can be sent. *)
Definition serialize_stream {A : Type} `{ProtoSerialize A} (messages : list A) (sent : nat) : list bytes := take sent (map proto_serialize messages).

(** ** Authentication *)

(** The other side declared the version, and signed the nonce of this side with the key. *)
Definition signed_by (raw : RawConn) (pk : PublicKey) : Prop :=
  exists d1 d2 rest m1 m2,
    rw_reader raw = write_u32 PROTOCOL_VERSION :: d1 :: d2 :: rest /\
    proto_deserialize d1 = Some m1 /\ ern_src_public_key m1 = pk /\ proto_deserialize d2 = Some m2 /\
    ed_rand_nonce m2 = (rng_fill 16 (rw_rng raw)).1 /\ verify_signature (signature_buffer m2) pk (ed_signature m2) = true.

Lemma initial_exchange_signed o w reader g s written rest :
  initial_exchange local_public_key o w reader g = Ok (s, written, rest) ->
  exists d1 d2 m1 m2, reader = d1 :: d2 :: rest /\ proto_deserialize d1 = Some m1 /\ ern_src_public_key m1 = sc_remote_public_key s /\
    proto_deserialize d2 = Some m2 /\ ed_rand_nonce m2 = (rng_fill 16 g).1 /\
    verify_signature (signature_buffer m2) (sc_remote_public_key s) (ed_signature m2) = true.
Proof.
  unfold initial_exchange, sc_state_initial_new. destruct (rng_fill 16 g) as [n g1] eqn:Hn. simpl.
  unfold writer_send, guard_or, reader_next, ok_or, map_err. intros Hi.
  destruct (fst w); simpl in Hi; [|done]. destruct reader as [|d1 reader]; simpl in Hi; [done|].
  destruct (proto_deserialize d1) as [m1|] eqn:Hm1; simpl in Hi; [|done].
  destruct (handle_exchange_rand_nonce _ m1 g1) as [[[half dh] g2]|e|] eqn:Hh; simpl in Hi; [|done..].
  assert (sh_remote_public_key half = ern_src_public_key m1 /\ sh_local_rand_nonce half = n) as [Hpk Hnn].
  { clear Hi. revert Hh. unfold handle_exchange_rand_nonce. simpl. destruct (match o with Some _ => _ | None => _ end); simpl; [|done..].
    destruct (dh_private_key_new g1) as [k g3]. destruct (rng_fill 32 g3) as [salt g4]. by intros [= <- _ _]. }
  destruct (match o with Some _ => _ | None => _ end); simpl in Hi; [|done..].
  destruct (snd w); simpl in Hi; [|done]. destruct reader as [|d2 reader]; simpl in Hi; [done|].
  destruct (proto_deserialize d2) as [m2|] eqn:Hm2; simpl in Hi; [|done].
  unfold handle_exchange_dh, verify_exchange_dh, guard_or in Hi.
  destruct (bool_decide (sh_local_rand_nonce half = ed_rand_nonce m2)) eqn:Hnonce; simpl in Hi; [|done].
  destruct (verify_signature _ _ _) eqn:Hv; simpl in Hi; [|done].
  injection Hi as <- _ <-. simpl.
  apply bool_decide_eq_true in Hnonce. exists d1, d2, m1, m2. rewrite Hpk in *. split_and!; congruence.
Qed.

Lemma anon_signed raw pk raw' : anon_secure_channel raw = Some (pk, raw') -> raw' = raw /\ signed_by raw pk.
Proof.
  unfold anon_secure_channel, create_version_encrypt_keepalive, timed_transform. intros Ha.
  destruct (ev_timer_timeout (rw_env raw)); [|done]. destruct (ev_ready (rw_env raw)) as [t|]; simpl in Ha; [|done].
  destruct (_ || _); [|done]. destruct (version_encrypt_keepalive _ _ _ _ _ _ _) as [c|] eqn:Hv; [|done]. injection Ha as <- <-. split; [done|].
  revert Hv. unfold version_encrypt_keepalive, encrypt_keepalive, secure_transform.
  destruct (initial_exchange _ _ _ _ _) as [[[s w] rest]|e|] eqn:Hi; try done. destruct (ev_spawned (rw_env raw)); [|done]. intros [= <-]. simpl.
  apply initial_exchange_signed in Hi as (d1 & d2 & m1 & m2 & Hr & Hm1 & Hpk & Hm2 & Hn & Hsig).
  destruct (version_prefix_transparent PROTOCOL_VERSION PROTOCOL_VERSION [] 0 (length (rw_reader raw)) (rw_reader raw)) as [_ Hp]; [by vm_compute..|].
  destruct Hp as [all Hall]; [by rewrite Hr|]. rewrite Hall in Hr. unfold prefix_received in Hr.
  exists d1, d2, (drop 2 all), m1, m2. split_and!; try done. rewrite Hall. f_equal.
  rewrite take_ge in Hr by (simpl; lia). change (all = d1 :: d2 :: rest) in Hr. by rewrite Hr.
Qed.
End Secure.

(** ** What the relay joins *)
Section RelayTheorem.
Context `{ScCryptoOps} `{CryptoOps} `{ProtoSerialize ChannelMessage}.
Context `{ProtoSerialize ExchangeRandNonce} `{ProtoSerialize ExchangeDh}.
Context (local_public_key : PublicKey) `{!SignerOps local_public_key}.
Variable deserialize_init : bytes -> option InitConnection.

(** The pool only gives connections that came in, under keys that signed for them. *)
Lemma pool_outgoing_from {IN OUT : Type} (transform : IN -> option OUT) max inputs incoming s y :
  transform_pool_loop transform max inputs (pool_new incoming) = Some s -> y ∈ po_outgoing s ->
  exists x, x ∈ incoming /\ transform x = Some y.
Proof.
  assert (forall inputs s s', transform_pool_loop transform max inputs s = Some s' ->
    (forall x, x ∈ po_incoming s \/ x ∈ po_running s -> x ∈ incoming) ->
    (forall y, y ∈ po_outgoing s -> exists x, x ∈ incoming /\ transform x = Some y) ->
    forall y, y ∈ po_outgoing s' -> exists x, x ∈ incoming /\ transform x = Some y) as Hrun.
  { unfold transform_pool_loop. intros ins. induction ins as [|i ins IH]; intros s0 s' Hs Hin Hout; simpl in Hs; [by injection Hs as <-|].
    destruct (pool_step transform max i s0) as [s1|] eqn:Hst; simpl in Hs; [|done]. apply (IH s1 s' Hs); clear IH Hs.
    - intros x Hx. apply Hin. destruct i as [|j sent]; simpl in Hst.
      + destruct (po_incoming s0) as [|z rest]; [done|]. destruct (has_room _ _); [|done]. injection Hst as <-. simpl in Hx. set_solver.
      + destruct (po_running s0 !! j) as [z|] eqn:Hz; simpl in Hst; [|done]. injection Hst as <-. simpl in Hx.
        destruct Hx as [Hx|Hx]; [by left|]. right. rewrite (delete_Permutation _ _ _ Hz). by right.
    - intros z Hz. destruct i as [|j sent]; simpl in Hst.
      + destruct (po_incoming s0) as [|w rest]; [done|]. destruct (has_room _ _); [|done]. injection Hst as <-. by apply Hout.
      + destruct (po_running s0 !! j) as [w|] eqn:Hw; simpl in Hst; [|done]. injection Hst as <-. simpl in Hz.
        apply elem_of_app in Hz as [Hz|Hz]; [by apply Hout|]. destruct (transform w) as [out|] eqn:Ht; [|by apply not_elem_of_nil in Hz].
        destruct sent; [|by apply not_elem_of_nil in Hz]. apply list_elem_of_singleton in Hz as ->. exists w. split; [|done].
        apply Hin. right. by eapply list_elem_of_lookup_2. }
  intros Hs Hy. apply (Hrun _ _ _ Hs); simpl; [|by intros ? ?%not_elem_of_nil|done]. intros x [?|?%not_elem_of_nil]; done.
Qed.

Lemma with_conns_from schedule conns c :
  Forall (fun o => forall c, o <> Some (RsIncomingConn c)) schedule -> RsIncomingConn c ∈ with_conns schedule conns -> c ∈ conns.
Proof.
  intros Hs. revert conns. induction Hs as [|[e|] schedule Ho Hs IH]; intros conns; simpl; [by intros ?%not_elem_of_nil|..].
  - intros [Heq|Hc]%elem_of_cons; [destruct (Ho c); by rewrite Heq|by apply IH].
  - destruct conns as [|c' conns]; intros [Heq|Hc]%elem_of_cons; try done; [by apply IH in Hc|injection Heq as ->; by left|right; by apply IH].
Qed.

(** A connection that reaches the loop has the key that signed for it, and asks for what
    its first message says. *)
Lemma processed_from incoming pk inner :
  mkIncomingConn pk inner ∈ conn_processor deserialize_init RELAY_CONN_TIMEOUT_TICKS
    (map (fun '(public_key, raw) => (public_key, rw_conn raw, rw_first_msg raw, rw_tie raw)) incoming) ->
  exists raw t m init, (pk, raw) ∈ incoming /\ rw_first_msg raw = Some (t, Some m) /\ deserialize_init m = Some init /\
    inner = match init with InitListen => IcListen (rw_conn raw) | InitAccept k => IcAccept k (rw_conn raw) | InitConnect k => IcConnect k (rw_conn raw) end.
Proof.
  unfold conn_processor. intros Hc. apply list_elem_of_omap in Hc as ([[[pk' conn] fm] tie] & Hin & Hp).
  apply list_elem_of_fmap in Hin as ([pk0 raw] & [= -> -> -> ->] & Hin). revert Hp. unfold process_conn, future_timeout.
  destruct (rw_first_msg raw) as [[t [m|]]|] eqn:Hfm; simpl; [| |done].
  - destruct (_ || _); simpl; [|done]. unfold dispatch_conn. destruct (deserialize_init m) as [init|] eqn:Hi; simpl; [|done].
    intros [= <- <-]. by exists raw, t, m, init.
  - by destruct (_ || _).
Qed.

(** The relay on the network joins authenticated connections only: whatever connections
    come in and however their handshakes are scheduled, both connections of a tunnel
    came from the network, each was signed for with the key that the tunnel names, and
    their first messages asked for each other. *)
Theorem net_relay_tunnels_authenticated (spawns takes : nat -> bool) (max_concurrent_encrypt : nat) (raws : list RawConn)
  (inputs : list PoolInput) (schedule : list (option RelayServerEvent)) (s : RelayServer) (l : list RelayServerAction)
  (init_conn accept_conn : nat) (init_pk listen_pk : PublicKey)
  (Hschedule : Forall (fun o => forall c, o <> Some (RsIncomingConn c)) schedule)
  (Hrun : net_relay_server local_public_key deserialize_init max_concurrent_encrypt spawns takes true raws inputs schedule = Some (EOk tt s l))
  (Htunnel : RsTunnel init_conn accept_conn init_pk listen_pk ∈ l) :
  exists raw_i raw_a mi ma ti ta, raw_i ∈ raws /\ raw_a ∈ raws /\ rw_conn raw_i = init_conn /\ rw_conn raw_a = accept_conn /\
    signed_by raw_i init_pk /\ signed_by raw_a listen_pk /\
    rw_first_msg raw_i = Some (ti, Some mi) /\ deserialize_init mi = Some (InitConnect listen_pk) /\
    rw_first_msg raw_a = Some (ta, Some ma) /\ deserialize_init ma = Some (InitAccept init_pk).
Proof.
  unfold net_relay_server in Hrun. destruct (transform_pool_loop _ _ _ _) as [pool|] eqn:Hpool; simpl in Hrun; [|done]. injection Hrun as Hrun.
  unfold relay_server, relay_server_loop in Hrun.
  match type of Hrun with relay_server_events ?t ?o ?o' ?evs _ _ = _ =>
    pose proof (wp_relay_events t o o' evs relay_server_new [] [] relay_ok_new) as Hw end.
  unfold wp in Hw. rewrite Hrun in Hw. simpl in Hw. destruct Hw as (_ & Hc & _).
  apply list_elem_of_split in Htunnel as (l1 & l2 & ->). destruct (Hc _ _ _ eq_refl) as (Hi & Ha & _).
  apply with_conns_from in Hi, Ha; [|done..].
  apply processed_from in Hi as (raw_i & ti & mi & [|k|k] & Hin_i & Hfi & Hdi & [=]); subst.
  apply processed_from in Ha as (raw_a & ta & ma & [|k'|k'] & Hin_a & Hfa & Hda & [=]); subst.
  destruct (pool_outgoing_from _ _ _ _ _ _ Hpool Hin_i) as (x & Hx & [-> Hsx]%anon_signed).
  destruct (pool_outgoing_from _ _ _ _ _ _ Hpool Hin_a) as (y & Hy & [-> Hsy]%anon_signed).
  exists x, y, mi, ma, ti, ta. by split_and!.
Qed.
End RelayTheorem.

(** ** Connecting again and again *)

(** [BackoffConnector::transform]: the attempts with their outcomes, and for each sleep in
    between how long it lasts, [None] when the timer gives no stream. A list that runs
    out is an attempt that never ends. *)
Fixpoint backoff_connector {O : Type} (attempts : list (Fut (option O))) (sleeps : list (option Z)) : Fut (option O) :=
  match attempts with
  | [] => None
  | attempt :: attempts' =>
      fut_then attempt (fun output =>
        match output with
        | Some o => Some (0, Some o)
        | None =>
            match sleeps with
            | Some ticks :: sleeps' => fut_then (Some (ticks, tt)) (fun _ => backoff_connector attempts' sleeps')
            | None :: _ => Some (0, None)
            | [] => None
            end
        end)
  end.

(** However many attempts fail, the first that succeeds gives the connection, after the
    times of all attempts and a pause of [backoff_ticks] after each failure. *)
Theorem backoff_connects {O : Type} (failures : list Z) (backoff_ticks t : Z) (o : O) (more : list (Fut (option O))) :
  backoff_connector (map (fun t => Some (t, None)) failures ++ Some (t, Some o) :: more) (map (fun _ => Some backoff_ticks) failures) =
    Some (foldr Z.add 0 failures + Z.of_nat (length failures) * backoff_ticks + t, Some o).
Proof.
  induction failures as [|f failures IH].
  - simpl. do 2 f_equal. lia.
  - cbn [map app backoff_connector]. rewrite IH. unfold fut_then. simpl. do 2 f_equal. lia.
Qed.

(** ** Messages of the index server *)

(** Over a connection that carries the bytes of its user (as [carried] of [Connection]
    says), the other side reads the messages that were sent, in order, up to those that
    are on their way. *)
Theorem index_messages_arrive {A : Type} `{ProtoSerialize A} `{!ProtoSerializeLaws A} (messages : list A) (sent taken : nat) (arrived : list bytes)
  (Harrived : arrived `prefix_of` serialize_stream messages sent) :
  deserialize_stream arrived taken = take (Nat.min (length arrived) taken) messages.
Proof.
  destruct Harrived as [rest Hrest]. unfold serialize_stream in Hrest.
  pose proof (f_equal length Hrest) as Hlen. rewrite length_take, length_map, length_app in Hlen.
  assert (arrived = take (length arrived) (map proto_serialize messages)) as Ha.
  { transitivity (take (length arrived) (take sent (map proto_serialize messages))); [by rewrite Hrest, take_app_length|].
    rewrite take_take. f_equal. lia. }
  rewrite Ha at 1. rewrite deserialize_serialize; [done|]. apply Forall_true. intros x. apply proto_round_trip.
Qed.

Module NetServersSamples.
Import Toy FunderSamples ScToy KeepAliveSamples ConnectionSamples.

Definition carol : PublicKey := fixed_of_prefix 32 [Byte.x03].
(** An honest side writes to a relay whose randomness starts at [g]. *)
Definition written_by (pk : PublicKey) (g g' : rng) : list bytes :=
  let '(n, _, _) := drawn g in
  let '(n', k', salt') := drawn g' in
  [proto_serialize (mkExchangeRandNonce n' pk None); proto_serialize (signed_dh (toy_signer pk) k' n salt')].
Definition honest_conn (conn : nat) (pk : PublicKey) (first : bytes) : RawConn :=
  let ms := written_by pk (seed (Z.of_nat conn)) (seed (7 + Z.of_nat conn)) in
  mkRawConn conn (prefix_sent PROTOCOL_VERSION ms (S (length ms))) env (seed (Z.of_nat conn)) (seed 0) (Some (1, Some first)) false.
Lemma honest_conn_ok conn pk first : anon_secure_channel carol (honest_conn conn pk first) = Some (pk, honest_conn conn pk first).
Proof.
  unfold anon_secure_channel. unfold honest_conn at 1 2 3 4. cbn [rw_env rw_reader rw_rng rw_rng_loop].
  unfold written_by. destruct (drawn (seed (Z.of_nat conn))) as [[n k] salt] eqn:Hd.
  destruct (drawn (seed (7 + Z.of_nat conn))) as [[n' k'] salt'].
  match goal with |- context [prefix_sent _ ?ms _] => set (msgs := ms) end.
  destruct (create_connection_ok carol env None (seed (Z.of_nat conn)) (seed 0) _ _ msgs env_good
    (initial_exchange_ok carol (toy_signer carol) None (seed (Z.of_nat conn)) n k salt
      (mkExchangeRandNonce n' pk None) (signed_dh (toy_signer pk) k' n salt') Hd (or_introl eq_refl) eq_refl (signed_dh_verifies _ _ _ _))) as [t Ht].
  by rewrite Ht.
Qed.

(** Alice listens, Bob asks for her, and she accepts him on another connection. *)
Definition init_of (b : bytes) : option InitConnection :=
  match b with [Byte.x00] => Some InitListen | [Byte.x01] => Some (InitAccept bob) | [Byte.x02] => Some (InitConnect alice) | _ => None end.
Definition raws : list RawConn := [honest_conn 0 alice [Byte.x00]; honest_conn 1 bob [Byte.x02]; honest_conn 2 alice [Byte.x01]].
Definition pool_inputs : list PoolInput := [PoTake; PoTake; PoDone 0 true; PoTake; PoDone 0 true; PoDone 0 true].
Definition tunnel : RelayServerAction := RsTunnel 1 2 bob alice.

Lemma pool_run : exists s, transform_pool_loop (anon_secure_channel carol) 2 pool_inputs (pool_new raws) = Some s /\
  po_outgoing s = [(alice, honest_conn 0 alice [Byte.x00]); (bob, honest_conn 1 bob [Byte.x02]); (alice, honest_conn 2 alice [Byte.x01])].
Proof.
  unfold pool_inputs, raws, transform_pool_loop, pool_new. eexists. cbn -[anon_secure_channel honest_conn]. rewrite !honest_conn_ok. by split.
Qed.

Lemma net_relay_tunnels_authenticated_witness :
  exists s l, net_relay_server carol init_of 2 (fun _ => true) (fun _ => true) true raws pool_inputs [None; None; None] = Some (EOk tt s l) /\ tunnel ∈ l /\
  exists raw_i raw_a mi ma ti ta, raw_i ∈ raws /\ raw_a ∈ raws /\ rw_conn raw_i = 1%nat /\ rw_conn raw_a = 2%nat /\
    signed_by raw_i bob /\ signed_by raw_a alice /\
    rw_first_msg raw_i = Some (ti, Some mi) /\ init_of mi = Some (InitConnect alice) /\
    rw_first_msg raw_a = Some (ta, Some ma) /\ init_of ma = Some (InitAccept bob).
Proof.
  destruct pool_run as (p & Hp & Hout).
  assert (exists s l, net_relay_server carol init_of 2 (fun _ => true) (fun _ => true) true raws pool_inputs [None; None; None] = Some (EOk tt s l) /\ tunnel ∈ l) as (s & l & Hrun & Ht).
  { unfold net_relay_server. rewrite Hp. simpl. rewrite Hout. vm_compute. do 2 eexists. split; [reflexivity|]. right. right. left. }
  exists s, l. split; [exact Hrun|]. split; [exact Ht|].
  apply (net_relay_tunnels_authenticated carol init_of (fun _ => true) (fun _ => true) 2 raws pool_inputs [None; None; None] s l 1 2 bob alice); [|exact Hrun|exact Ht].
  by repeat constructor.
Defined.
End NetServersSamples.
